(* ===== verification/_CoqProject ===== *)
-Q . S2P
Prelude.v
JsText.v
JsNumber.v
JsonParse.v
LineReader.v
Hex.v
SealId.v
Compat.v
Semaphore.v
UploadSlots.v
RateLimit.v
McpSessions.v
SealConfig.v
Config.v
Retry.v
Enoki.v
EnokiSafety.v
SdkText.v
SdkClient.v
SdkWire.v
SdkJobs.v
Wallet.v
Service.v
Base64.v
Util.v
Blob.v
Query.v
QuerySafety.v
Durable.v
Journal.v
Metadata.v
Upload.v
DurableFrame.v
SideEffects.v
JournalSafety.v
JournalSteps.v
MetadataSafety.v
UploadSafety.v
Ledger.v
Account.v
Mock.v
Middleware.v
OpenClaw.v
McpTools.v
Manual.v
ManualSafety.v
SealRoutes.v
SealSafety.v
Settings.v
Clients.v
Health.v
AddressBalance.v
Sponsor.v
App.v
McpCreds.v
StatusServer.v
NoterAuth.v
ResearchDb.v
Researcher.v
ResearchAuth.v
AuthRequired.v
McpLogin.v
Deletion.v
Bridge.v
BridgeSafety.v
McpMain.v
SingleFlight.v
Funding.v
FundingRun.v
FundingSafety.v
FundingLedger.v
FundingOutcome.v
Finalize.v
FinalizeSafety.v
Builders.v
DurableExample.v
SidecarExample.v
McpExample.v
SdkExample.v
ScriptsExample.v
