(* ===== verification/Prelude.v ===== *)
(** * Walrus Memory (MemWal): verification library, root file

    The repository stores the memories of an agent as encrypted Walrus blobs.
    A client SDK (src/packages/sdk) talks to a relayer, the relayer to a
    TypeScript sidecar (src/services/server/scripts) that performs SEAL
    encryption, Walrus uploads and sponsored Sui transactions and serves the
    MCP endpoints; a bridge (packages/mcp) and a plugin
    (packages/openclaw-memory-memwal) bring the memory to agents; operator
    scripts (src/scripts) fund the upload wallets and build the governance
    transactions of the migration; applications (src/apps) use it: a status
    page, a note taker and a research assistant.  This library models that
    TypeScript code and proves what it promises.

    ** How the code is represented

    - Pure TypeScript functions are functions; what throws returns a sum whose
      left side is the error.  Strings are [string] (code units below 256),
      regular expressions and [String.prototype] methods are the functions of
      [JsText]; numbers are [Z] at the width the code gives them, or exact
      rationals where it divides ([JsNumber]); JSON values are [JsText.json],
      [JSON.parse] is [JsonParse.parse] with the input length as fuel.
    - Objects that several asynchronous tasks share (limiters, session maps,
      semaphores, the worker pool) are records with a step relation whose
      steps are the code between two points where the event loop may switch:
      [RateLimit], [McpSessions], [Semaphore], [UploadSlots], [Util],
      [SingleFlight], [McpLogin], [Bridge].
    - A request handler or a script run is a function of the monad [ST] below
      over a clock, the answers of the outside and a trace of events.
      [Service] (sidecar routes), [Enoki] (sponsor API and wallet),
      [SdkClient], [Manual], [Account] (SDK), [McpTools], [OpenClaw],
      [Funding] and [Finalize] (scripts), [StatusServer], [NoterAuth] and
      [ResearchDb] (applications) say which external calls there are: the
      Sui, Walrus, SEAL and Enoki clients, databases, the language model, the
      file system, timers.  Their answers are arguments of the theorems, never
      definitions of ours; where a theorem relies on their documented
      behaviour it says so in a hypothesis, and a witness instantiates it.
    - [Ledger] generalises the reasoning about traces: a rule says which
      earlier answers justify an external call, [lawful] walks a handler.

    ** Files

    Foundations: this file (monad, triples, automation), [JsText],
    [JsNumber] (numbers, dates), [JsonParse] (parsing, printing and their
    round trip), [Base64], [Ledger].

    SDK (packages/sdk/src): [Hex], [SdkText] (utils.ts), [Compat]
    (compatibility.ts), [SdkClient] (memwal.ts: every method of [MemWal]),
    [SdkWire] (what a signed request contains, idempotency), [SdkJobs]
    (polling of remember jobs terminates and reports truthfully), [Manual] and
    [ManualSafety] (manual.ts), [Account] (account.ts), [Middleware]
    (ai/middleware.ts), [Mock] (the in-memory client for tests).

    Sidecar, foundations (services/server/scripts/sidecar): [Config]
    (config.ts, sui-transport-policy.ts), [Util] (util.ts), [Retry]
    (retry/rpc.ts, enoki-retry.ts, walrus-error-detection.ts), [Semaphore] and
    [UploadSlots] (concurrency.ts), [Enoki] and [EnokiSafety] (enoki.ts), the
    wallet interface [Wallet] (wallet.ts), [AddressBalance]
    (address-balance.ts), [Settings] (what config.ts loads at start),
    [Clients] (clients.ts), [SingleFlight] (the promise
    that concurrent callers of clients.ts and health.ts share).

    Sidecar, routes (sidecar/routes): [Blob], [Query], [QuerySafety]
    (walrus-query.ts); [Durable], [DurableFrame], [Journal], [JournalSafety],
    [JournalSteps] (walrus-upload-journal.ts); [Metadata], [MetadataSafety]
    (blob-metadata.ts, walrus-metadata.ts); [Upload], [UploadSafety]
    (walrus-upload.ts); [SealConfig] (seal-config.ts), [SealId]
    (seal-identity.ts, seal-ptb.ts), [SealRoutes], [SealSafety] (seal.ts);
    [Sponsor] (sponsor.ts); [Health] (health.ts, state.ts);
    [App] (app.ts, middleware.ts: the whole HTTP application);
    [Service], [SideEffects] hold what the routes share.

    MCP endpoint (services/server/scripts/mcp): [RateLimit] (rateLimit.ts),
    [McpSessions] (index.ts, auth.ts), [McpTools] (tools).

    MCP bridge (packages/mcp/src), the process a client spawns: [LineReader]
    (framing of stdin and of the event stream), [McpCreds] (auth.ts,
    crypto.ts), [AuthRequired] (auth-required.ts), [McpLogin]
    (login.ts), [Bridge], [BridgeSafety] (bridge.ts),
    [McpMain] (index.ts, compatibility.ts).

    Scripts (src/scripts): [Funding], [FundingRun], [FundingSafety],
    [FundingLedger], [FundingOutcome] (distribute-funds.ts); [Finalize],
    [FinalizeSafety] (assertions.ts, build-finalize-tx.ts), [Builders] (the
    publish, migration-caps and burn-cap builders).

    Agents and applications: [OpenClaw] (packages/openclaw-memory-memwal),
    [StatusServer] (apps/status/server.mjs), [NoterAuth] (sign-in, sessions
    and delegate keys of apps/noter), [ResearchDb] (tables and queries of
    apps/researcher/lib/db), [Researcher] (its sessions, ingestion,
    retrieval, tools, sprints and routes) and [ResearchAuth] (its sign-in
    routes and proxy); [Deletion] (the hook of apps/app that deletes memories
    for good, useSecurityDeletion.ts, and its client of the deletion service).

    Files named [...Example] hold concrete worlds and the witnesses.

    ** What is shown

    - Side effects are told truthfully: an answer that says nothing was
      submitted is given only when nothing was, a journaled transaction is
      replayed with its exact bytes, every checkpoint is backed by the chain
      ([JournalSafety], [JournalSteps], [MetadataSafety], [UploadSafety]).
    - Funds move as the manifest says and only after the checks: the payout is
      exact, submission is justified, every end of a run is known and on disk
      ([FundingSafety], [FundingLedger], [FundingOutcome]).  The finalization
      is only built from complete, matching evidence ([FinalizeSafety]).
    - Keys are used in scope: every SEAL call names the configured package,
      the validated identity and the verified session ([SealId],
      [SealSafety]); MCP sessions are bound to the credentials that opened
      them ([McpSessions]).
    - The manual client sends the relayer a memory as a ciphertext only, under
      the identity the chain shows ([ManualSafety]); account operations report
      what the chain settled ([Account]).  Text that comes back from memory
      reaches a model as data between boundaries it cannot forge
      ([Middleware]), and what the plugin injects is stripped when the
      conversation is captured ([OpenClaw]).  The mock keeps and finds exactly
      what it was given ([Mock]).
    - A tool of the MCP endpoint says "saved" only of what the relayer reported
      done, and a session without the writing scope only reads ([McpTools]).
    - The MCP bridge loses no request and uses a session with the credentials
      that opened it, but for a handler whose own reconnect brought none; a
      reconnect sends a request again only to the account it was received for
      ([BridgeSafety]); a login accepts one authentic callback
      and saves just it ([McpLogin]); framing does not depend on chunks
      ([LineReader]), no complete line is lost at a hand-over
      ([AuthRequired]), and the credentials file reads back ([McpCreds]).
    - A caller without the shared secret causes no call to the outside
      ([App]); a sponsored transaction reported as executed was found on
      chain with the digest and the effects asked for ([Sponsor]); the
      resolution of a server wallet's transaction is covered by the address
      balance and brings in no owned coin, for gas neither ([AddressBalance]).
    - The status server always answers, changes an incident only for the
      administrator, with checked values but for the places [row_ok] names,
      and serves files of its own directory only ([StatusServer]).
    - The Noter opens a session only for an address that was proved and gives
      a key out only to its owner; the credentials of a user stay once they
      are written, but for registrations that overlap the first write
      ([NoterAuth]).  The Researcher keeps its users apart: a request changes
      and shows rows of the user its token names, the tools of the model read
      that user's sources, with two exceptions in the code that the theorems
      name (public chats, messages listed by a tool approval); a session
      starts from a signed challenge that is used once or a delegate key that
      an account lists, and writes that user's row only ([ResearchAuth]); the
      fusion of search results loses and doubles nothing, and the windows of
      a long document cover it ([Researcher]).  The web application deletes
      only batches the service prepared for the run and the user's wallet
      signed, not after a cancel or a change of the account, and reports what
      the service reported ([Deletion]).
    - Queries compute functions of the chain ([QuerySafety]); the balance
      snapshot counts every entry once and the tip address is never older
      than its time to live ([Clients]).
    - Resources are bounded: semaphores and upload slots, rate limits, retry
      counts and waiting times ([Semaphore], [UploadSlots], [RateLimit],
      [EnokiSafety], [Config]); polling and retry loops end ([SdkJobs]).
    - Wire formats are injective and round trip ([Hex], [SdkWire]).

    ** Fuel

    Loops that the code bounds by a counter use that counter: the attempts of
    [Enoki] (MAX_ATTEMPTS), the rebuilds of an invalidated transaction
    (INVALIDATED_MAX_ATTEMPTS), the polls of the SDK, whose fuel is computed
    from the time limit by a function proved sufficient.  Parsers use the
    input length.  The pages of a chain listing have no bound in the code: the
    number of pages is a parameter, and the theorems quantify over it or
    assume a last page; likewise the batches of [Deletion.deleteAll], which
    asks until the service has nothing left.

    ** Limits of the model

    [mapConcurrent] is verified as a pool of interleaved workers in [Util];
    inside request handlers it runs its items in order, as do the balance
    listings of several wallets, the [Promise.all] of the manual client, the
    probes of the status page and the loads of the Researcher.  The status
    server, the Noter and the Researcher handle one request at a time, but
    for the registrations of the Noter, which also overlap, and [Deletion]
    follows one run.  Which path a request matches and the parsing
    of its body are Express's; the MCP endpoints below [App] are
    [McpSessions].  The SDK client is
    sequential, so the sharing of one in-flight promise by concurrent calls
    is not shown.  The release closure of the upload slots is taken to run
    once per acquisition, which its use in [finally] ensures.  Numbers are
    turned into text only within the safe integers.  In [Bridge] a stream is
    seen through the messages it yields and its end; its parser is
    [LineReader], chunks are decoded text, and tool descriptions and the texts
    shown to the user are left out.  Fields of a request that
    the code passes on as text are taken to be texts.  Log lines and metrics
    output are left out.  Distances and scores are exact rationals; the
    servers' time zone is UTC.  A database call that fails has no effect.

    ** Not modelled

    Starting and stopping the server process (server.ts), heartbeats of the
    MCP endpoint, the construction of the SDK clients and Prometheus output:
    wiring of the platform.  The SEAL command-line scripts, benchmarks and
    release checks: one-shot glue around libraries.  User interfaces, the
    notes and chats of the Noter, the chatbot and the playground: React
    components and routes whose work is the framework's; the resumable streams
    of the Researcher, a library's protocol.  The Rust relayer and the Move
    contracts are in other languages. *)
From stdpp Require Export base option list gmap strings pretty.
From Stdlib Require Export ZArith Lia.
From Stdlib Require Import Ascii.

(** ** The effect monad

    Asynchronous TypeScript methods run to completion between the points
    where another task can observe the object, so a method is a state
    transformer that returns or throws. *)
Definition ST (S E A : Type) : Type := S → S * (E + A).

Global Instance st_ret {S E} : MRet (ST S E) := λ A a s, (s, inr a).
Global Instance st_bind {S E} : MBind (ST S E) := λ A B k m s,
  match m s with
  | (s', inl e) => (s', inl e)
  | (s', inr a) => k a s'
  end.

Definition throw {S E A} (e : E) : ST S E A := λ s, (s, inl e).
Definition gets {S E A} (f : S → A) : ST S E A := λ s, (s, inr (f s)).
Definition modify {S E} (f : S → S) : ST S E unit := λ s, (f s, inr tt).

(** [try { m } catch (e) { h e }] *)
Definition try_catch {S E E' A} (m : ST S E A) (h : E → ST S E' A) : ST S E' A := λ s,
  match m s with
  | (s', inl e) => h e s'
  | (s', inr a) => (s', inr a)
  end.

(** [try { m } finally { f }] for a cleanup that does not throw. *)
Definition finally {S E A} (m : ST S E A) (f : S → S) : ST S E A := λ s,
  match m s with (s', r) => (f s', r) end.

(** Guards: [if (b) throw e]. *)
Definition throw_if {S E} (b : bool) (e : E) : ST S E unit :=
  if b then throw e else mret tt.

(** Pure fallible code: [inl] is the thrown error. *)
Definition ensure {E A} (b : bool) (e : E) (k : E + A) : E + A :=
  if b then k else inl e.
Notation "'guard_or' b 'else' e ; k" := (ensure b e k)
  (at level 20, b at level 100, e at level 100, k at level 200, right associativity,
   format "'guard_or'  b  'else'  e ; '/' k").

(** ** Lemmas on the monad *)
Lemma bind_inr {S E A B} (m : ST S E A) (k : A → ST S E B) s s' b :
  (m ≫= k) s = (s', inr b) ↔ ∃ s1 a, m s = (s1, inr a) ∧ k a s1 = (s', inr b).
Proof.
  unfold mbind, st_bind. destruct (m s) as [s1 [e|a]]; split; naive_solver.
Qed.

Lemma bind_inl {S E A B} (m : ST S E A) (k : A → ST S E B) s s' e :
  (m ≫= k) s = (s', inl e) ↔
  m s = (s', inl e) ∨ ∃ s1 a, m s = (s1, inr a) ∧ k a s1 = (s', inl e).
Proof.
  unfold mbind, st_bind. destruct (m s) as [s1 [e'|a]]; split; naive_solver.
Qed.

Lemma ensure_inr {E A} (b : bool) (e : E) (k : E + A) a :
  ensure b e k = inr a ↔ b = true ∧ k = inr a.
Proof. destruct b; simpl; naive_solver. Qed.

Lemma ensure_inl {E A} (b : bool) (e e' : E) (k : E + A) :
  ensure b e k = inl e' ↔ (b = false ∧ e = e') ∨ (b = true ∧ k = inl e').
Proof. destruct b; simpl; naive_solver. Qed.

(** ** Triples

    [triple P m Q R]: from a state of [P], a normal return satisfies [Q] and
    a throw satisfies [R].  [invariant I m] keeps [I] in both cases. *)
Definition triple {S E A} (P : S → Prop) (m : ST S E A) (Q : A → S → Prop) (R : E → S → Prop) : Prop :=
  ∀ s, P s → match m s with (s', inr a) => Q a s' | (s', inl e) => R e s' end.
Definition invariant {S E A} (I : S → Prop) (m : ST S E A) : Prop :=
  triple I m (λ _, I) (λ _, I).

Lemma triple_ret {S E A} (P : S → Prop) (a : A) (Q : A → S → Prop) (R : E → S → Prop) :
  (∀ s, P s → Q a s) → triple P (mret a) Q R.
Proof. intros H s Hs. by apply H. Qed.

Lemma triple_throw {S E A} (P : S → Prop) (e : E) (Q : A → S → Prop) R :
  (∀ s, P s → R e s) → triple P (throw e) Q R.
Proof. intros H s Hs. by apply H. Qed.

Lemma triple_gets {S E A} (P : S → Prop) (f : S → A) (Q : A → S → Prop) (R : E → S → Prop) :
  (∀ s, P s → Q (f s) s) → triple P (gets f) Q R.
Proof. intros H s Hs. by apply H. Qed.

Lemma triple_modify {S E} (P : S → Prop) (f : S → S) (Q : unit → S → Prop) (R : E → S → Prop) :
  (∀ s, P s → Q tt (f s)) → triple P (modify f) Q R.
Proof. intros H s Hs. by apply H. Qed.

Lemma triple_bind {S E A B} P (M : A → S → Prop) (m : ST S E A) (k : A → ST S E B) Q R :
  triple P m M R → (∀ a, triple (M a) (k a) Q R) → triple P (m ≫= k) Q R.
Proof.
  intros Hm Hk s Hs. specialize (Hm s Hs). unfold mbind, st_bind.
  destruct (m s) as [s' [e|a]]; [done|]. by apply Hk.
Qed.

Lemma triple_catch {S E E' A} P (M : E → S → Prop) (m : ST S E A) (h : E → ST S E' A) Q R :
  triple P m Q M → (∀ e, triple (M e) (h e) Q R) → triple P (try_catch m h) Q R.
Proof.
  intros Hm Hh s Hs. specialize (Hm s Hs). unfold try_catch.
  destruct (m s) as [s' [e|a]]; [by apply Hh|done].
Qed.

Lemma triple_conseq {S E A} (P P' : S → Prop) (m : ST S E A) (Q Q' : A → S → Prop) (R R' : E → S → Prop) :
  triple P' m Q' R' → (∀ s, P s → P' s) → (∀ a s, Q' a s → Q a s) → (∀ e s, R' e s → R e s) →
  triple P m Q R.
Proof.
  intros Hm HP HQ HR s Hs. specialize (Hm s (HP s Hs)). destruct (m s) as [s' [e|a]]; auto.
Qed.

Lemma invariant_bind {S E A B} (I : S → Prop) (m : ST S E A) (k : A → ST S E B) :
  invariant I m → (∀ a, invariant I (k a)) → invariant I (m ≫= k).
Proof. intros Hm Hk. by eapply triple_bind. Qed.

Lemma invariant_catch {S E E' A} (I : S → Prop) (m : ST S E A) (h : E → ST S E' A) :
  invariant I m → (∀ e, invariant I (h e)) → invariant I (try_catch m h).
Proof. intros Hm Hh. by eapply triple_catch. Qed.

Lemma invariant_ret {S E A} (I : S → Prop) (a : A) : invariant I (mret a : ST S E A).
Proof. by apply triple_ret. Qed.
Lemma invariant_throw {S E A} (I : S → Prop) (e : E) : invariant I (throw e : ST S E A).
Proof. by apply triple_throw. Qed.
Lemma invariant_gets {S E A} (I : S → Prop) (f : S → A) : invariant I (gets f : ST S E A).
Proof. by apply triple_gets. Qed.
Lemma invariant_throw_if {S E} (I : S → Prop) (b : bool) (e : E) : invariant I (throw_if b e : ST S E unit).
Proof. destruct b; [apply invariant_throw|apply invariant_ret]. Qed.

(** Reading the state. *)
Lemma triple_read {S E A B} (P : S → Prop) (f : S → A) (k : A → ST S E B) (Q : B → S → Prop) (R : E → S → Prop) :
  (∀ s, P s → triple P (k (f s)) Q R) → triple P (gets f ≫= k) Q R.
Proof. intros Hk s Hs. exact (Hk s Hs s Hs). Qed.

(** What holds after [m], however it ends. *)
Definition reaches {S E A} (I Q : S → Prop) (m : ST S E A) : Prop := triple I m (λ _, Q) (λ _, Q).
Lemma reaches_bind {S E A B} (I Q : S → Prop) (m : ST S E A) (k : A → ST S E B) :
  (∀ s, I s → Q s) → invariant I m → (∀ a, reaches I Q (k a)) → reaches I Q (m ≫= k).
Proof. intros HQ Hm Hk. eapply triple_bind; [|exact Hk]. eapply triple_conseq; [exact Hm|done|done|auto]. Qed.
Lemma reaches_invariant {S E A} (I Q : S → Prop) (m : ST S E A) : (∀ s, I s → Q s) → invariant I m → reaches I Q m.
Proof. intros HQ Hm. eapply triple_conseq; [exact Hm|done|auto|auto]. Qed.

Definition is_inl {A B} (r : A + B) : bool := match r with inl _ => true | inr _ => false end.

Create HintDb memwal discriminated.
#[export] Hint Resolve invariant_bind invariant_catch invariant_ret invariant_throw invariant_gets
  invariant_throw_if : memwal.

(** Case analysis on the innermost [match] or [if] of the goal or a
    hypothesis, simplifying after each step. *)
Ltac case_all :=
  repeat (simplify_eq/=; try case_match); simplify_eq/=.

Ltac split_andb :=
  repeat match goal with
  | H : (_ && _)%bool = true |- _ => apply andb_true_iff in H as [? ?]
  | H : (_ || _)%bool = false |- _ => apply orb_false_iff in H as [? ?]
  | H : negb _ = true |- _ => apply negb_true_iff in H
  | H : negb _ = false |- _ => apply negb_false_iff in H
  end.

(** Turn the boolean tests of the code into propositions. *)
Ltac bool_to_prop :=
  split_andb;
  repeat match goal with
  | H : bool_decide _ = true |- _ => apply bool_decide_eq_true in H
  | H : bool_decide _ = false |- _ => apply bool_decide_eq_false in H
  | H : (_ <? _)%Z = true |- _ => apply Z.ltb_lt in H
  | H : (_ <? _)%Z = false |- _ => apply Z.ltb_ge in H
  | H : (_ <=? _)%Z = true |- _ => apply Z.leb_le in H
  | H : (_ <=? _)%Z = false |- _ => apply Z.leb_gt in H
  | H : (_ =? _)%Z = true |- _ => apply Z.eqb_eq in H
  | H : (_ =? _)%Z = false |- _ => apply Z.eqb_neq in H
  end.

(** ** Counting the entries of a map that satisfy a test *)
Section count.
Context {K V : Type} `{Countable K}.

Definition count (P : V → bool) (m : gmap K V) : nat :=
  size (filter (λ kv, P kv.2 = true) m).

Lemma count_empty P : count P ∅ = 0.
Proof. unfold count. by rewrite map_filter_empty, map_size_empty. Qed.

Lemma count_insert_fresh P (m : gmap K V) k v :
  m !! k = None → count P (<[k := v]> m) = (if P v then 1 else 0) + count P m.
Proof.
  intros Hk. unfold count. destruct (P v) eqn:E.
  - rewrite map_filter_insert_True by done.
    by rewrite map_size_insert_None by (apply map_lookup_filter_None; by left).
  - rewrite map_filter_insert_not'; simpl; [done|congruence|]. intros y Hy. congruence.
Qed.

Lemma count_delete P (m : gmap K V) k v :
  m !! k = Some v → count P m = (if P v then 1 else 0) + count P (delete k m).
Proof.
  intros Hk. rewrite <-(insert_delete_id m k v) at 1 by done.
  apply count_insert_fresh, lookup_delete_eq.
Qed.

(** Replacing the entry of [k]. *)
Lemma count_update P (m : gmap K V) k v v' :
  m !! k = Some v →
  count P (<[k := v']> m) + (if P v then 1 else 0) = count P m + (if P v' then 1 else 0).
Proof.
  intros Hk. rewrite (count_delete P m k v) by done.
  rewrite <-insert_delete_eq, count_insert_fresh by apply lookup_delete_eq. lia.
Qed.

Lemma count_0 P (m : gmap K V) : (∀ k v, m !! k = Some v → P v = false) → count P m = 0.
Proof.
  intros Hm. unfold count. apply map_size_empty_iff, map_empty. intros k.
  apply map_lookup_filter_None. right. intros v Hk. simpl. rewrite (Hm k v Hk). done.
Qed.

Lemma count_pos P (m : gmap K V) k v : m !! k = Some v → P v = true → 0 < count P m.
Proof. intros Hk HP. rewrite (count_delete P m k v) by done. rewrite HP. lia. Qed.

Lemma count_mono P Q (m : gmap K V) :
  (∀ k v, m !! k = Some v → P v = true → Q v = true) → count P m ≤ count Q m.
Proof.
  intros HPQ. unfold count. apply map_subseteq_size, map_filter_subseteq_ext.
  intros k v Hk. simpl. eauto.
Qed.
End count.
