(* ===== verification/JsText.v ===== *)
(** * JavaScript text and values

    What the modelled code uses of the language: characters and strings,
    the regular expressions of the source, [String.prototype] methods, and
    the dynamically typed values ([any]) of request bodies and RPC results.

    A JavaScript string is a sequence of UTF-16 code units.  The model keeps
    the code units below 256, one [ascii] each; every string the modelled
    code inspects (hex, base64, addresses, digests, HTTP headers, error
    texts) is in that range. *)
From Stdlib Require Import QArith Ascii.
From S2P Require Import Prelude.
Local Open Scope nat_scope.

(** ** Characters *)
Definition code (c : ascii) : N := N_of_ascii c.
Definition in_range (lo hi : N) (c : ascii) : bool := ((lo <=? code c) && (code c <=? hi))%N.
Definition is_char (n : N) (c : ascii) : bool := (code c =? n)%N.

Definition is_digit (c : ascii) : bool := in_range 48 57 c.
Definition is_hex (c : ascii) : bool := is_digit c || in_range 97 102 c || in_range 65 70 c.
(** [\w] *)
Definition is_word (c : ascii) : bool :=
  is_digit c || in_range 97 122 c || in_range 65 90 c || is_char 95 c.
(** [\s], and what [trim] removes *)
Definition is_space (c : ascii) : bool := in_range 9 13 c || is_char 32 c || is_char 160 c.
(** [.] : anything but a line terminator *)
Definition is_dot (c : ascii) : bool := negb (is_char 10 c || is_char 13 c).

(** [toLowerCase] on one code unit *)
Definition lower_ascii (c : ascii) : ascii :=
  if in_range 65 90 c || in_range 192 214 c || in_range 216 222 c
  then ascii_of_N (code c + 32) else c.

(** ** Strings *)
Notation chars := String.list_ascii_of_string.
Notation of_chars := String.string_of_list_ascii.
Notation slen := String.length.
Notation empty_str := String.EmptyString.

Definition smap (f : ascii → ascii) (s : string) : string := of_chars (map f (chars s)).
Definition sforallb (p : ascii → bool) (s : string) : bool := forallb p (chars s).
Definition lower (s : string) : string := smap lower_ascii s.

(** [a === b] on strings *)
Definition seqb (a b : string) : bool := bool_decide (a = b).
(** [!s] on a string *)
Definition is_empty (s : string) : bool := seqb s empty_str.

Fixpoint prefix_of (p l : list ascii) : bool :=
  match p, l with
  | [], _ => true
  | a :: p', b :: l' => Ascii.eqb a b && prefix_of p' l'
  | _, [] => false
  end.
Fixpoint infix_of (p l : list ascii) : bool :=
  prefix_of p l || match l with [] => false | _ :: l' => infix_of p l' end.
(** [s.startsWith(p)] and [s.includes(p)] *)
Definition starts_with (p s : string) : bool := prefix_of (chars p) (chars s).
Definition includes (p s : string) : bool := infix_of (chars p) (chars s).

Fixpoint drop_while (p : ascii → bool) (l : list ascii) : list ascii :=
  match l with
  | [] => []
  | c :: l' => if p c then drop_while p l' else l
  end.
Definition trim_chars (l : list ascii) : list ascii :=
  rev (drop_while is_space (rev (drop_while is_space l))).
Definition trim (s : string) : string := of_chars (trim_chars (chars s)).

(** [s.slice(0, n)] and [s.slice(n)] for [n ≥ 0] *)
Definition take_s (n : nat) (s : string) : string := of_chars (take n (chars s)).
Definition drop_s (n : nat) (s : string) : string := of_chars (drop n (chars s)).

(** [new TextEncoder().encode(s)] on code units below 256 *)
Definition utf8_char (c : ascii) : list ascii :=
  if (code c <? 128)%N then [c]
  else [ascii_of_N (192 + code c / 64); ascii_of_N (128 + code c mod 64)]%N.
Definition utf8 (s : string) : list ascii := flat_map utf8_char (chars s).

(** [l.join(sep)] *)
Fixpoint join (sep : string) (l : list string) : string :=
  match l with
  | [] => empty_str
  | [s] => s
  | s :: l' => s +:+ sep +:+ join sep l'
  end.

(** The maximal runs of characters of [p]: [s.match(/[p]+/g)], and
    [s.split(/[^p]+/).filter(Boolean)] *)
Fixpoint char_runs (p : ascii → bool) (acc l : list ascii) : list string :=
  let flush rest := match acc with [] => rest | _ => of_chars (rev acc) :: rest end in
  match l with
  | [] => flush []
  | c :: l' => if p c then char_runs p (c :: acc) l' else flush (char_runs p [] l')
  end.

(** [s.split("::")] *)
Fixpoint split_colons (acc : list ascii) (l : list ascii) : list string :=
  match l with
  | c1 :: ((c2 :: l') as rest) =>
      if is_char 58 c1 && is_char 58 c2 then of_chars (rev acc) :: split_colons [] l'
      else split_colons (c1 :: acc) rest
  | [c] => [of_chars (rev (c :: acc))]
  | [] => [of_chars (rev acc)]
  end.
Definition split2 (s : string) : list string := split_colons [] (chars s).

(** ** Regular expressions

    A backtracking matcher over the rest of the input, with the previous
    character for [\b].  A star iteration must consume, as in ECMAScript. *)
Inductive re : Type :=
| REps
| RChar (p : ascii → bool)
| RSeq (a b : re)
| RAlt (a b : re)
| RStar (a : re)
| RBound
| REnd.

Definition is_word_opt (o : option ascii) : bool :=
  match o with Some c => is_word c | None => false end.

Fixpoint rm (r : re) (prev : option ascii) (s : list ascii)
    (k : option ascii → list ascii → bool) : bool :=
  match r with
  | REps => k prev s
  | RChar p => match s with c :: s' => p c && k (Some c) s' | [] => false end
  | RSeq a b => rm a prev s (λ p' s', rm b p' s' k)
  | RAlt a b => rm a prev s k || rm b prev s k
  | RStar a =>
      (fix star (n : nat) (prev : option ascii) (s : list ascii) : bool :=
         match n with
         | O => k prev s
         | S n' => rm a prev s (λ p' s', (length s' <? length s) && star n' p' s') || k prev s
         end) (length s) prev s
  | RBound => xorb (is_word_opt prev) (is_word_opt (head s)) && k prev s
  | REnd => match s with [] => k prev s | _ => false end
  end.

Fixpoint rsearch (r : re) (prev : option ascii) (s : list ascii) : bool :=
  rm r prev s (λ _ _, true) ||
  match s with [] => false | c :: s' => rsearch r (Some c) s' end.

(** [/r/.test(s)] and [/r/i.test(s)] (for the latter [r] is in lower case) *)
Definition re_test (r : re) (s : string) : bool := rsearch r None (chars s).
Definition re_test_i (r : re) (s : string) : bool := re_test r (lower s).

Definition rlit (s : string) : re := foldr (λ c r, RSeq (RChar (Ascii.eqb c)) r) REps (chars s).
Definition rplus (a : re) : re := RSeq a (RStar a).
Definition ropt (a : re) : re := RAlt a REps.
Definition rseq (l : list re) : re := foldr RSeq REps l.
Definition ralt (l : list re) : re := foldr RAlt (RChar (λ _, false)) l.
Definition any_star : re := RStar (RChar is_dot).

(** ** The anchored address patterns of the source *)

(** [/^0x[0-9a-fA-F]{1,64}$/] *)
Definition is_sui_address (s : string) : bool :=
  starts_with "0x" s && sforallb is_hex (drop_s 2 s) &&
  (3 <=? slen s) && (slen s <=? 66).
(** [/^0x[0-9a-fA-F]{64}$/] *)
Definition is_full_address (s : string) : bool :=
  starts_with "0x" s && sforallb is_hex (drop_s 2 s) && (slen s =? 66).

(** ** Dynamically typed values *)
Inductive json : Type :=
| JUndefined
| JNull
| JBool (b : bool)
| JNum (q : Q)
| JStr (s : string)
| JArr (l : list json)
| JObj (fields : list (string * json)).

Fixpoint assoc {A} (k : string) (l : list (string * A)) : option A :=
  match l with
  | [] => None
  | (k', v) :: l' => if seqb k k' then Some v else assoc k l'
  end.

(** [v?.k] *)
Definition jget (k : string) (v : json) : json :=
  match v with
  | JObj fs => default JUndefined (assoc k fs)
  | _ => JUndefined
  end.

(** [a ?? b] *)
Definition coalesce (a b : json) : json :=
  match a with JUndefined | JNull => b | _ => a end.

Definition truthy (v : json) : bool :=
  match v with
  | JUndefined | JNull => false
  | JBool b => b
  | JNum q => negb (Qeq_bool q 0)
  | JStr s => negb (is_empty s)
  | JArr _ | JObj _ => true
  end.
Definition is_undefined (v : json) : bool := match v with JUndefined => true | _ => false end.

(** [Number.isSafeInteger] *)
Definition safe_int (q : Q) : option Z :=
  let r := Qred q in
  if (Qden r =? 1)%positive && (Z.abs (Qnum r) <=? 2 ^ 53 - 1)%Z then Some (Qnum r) else None.
Definition as_safe_int (v : json) : option Z :=
  match v with JNum q => safe_int q | _ => None end.
Definition jint (z : Z) : json := JNum (inject_Z z).

Lemma safe_int_bound q z : safe_int q = Some z → (Z.abs z <= 2 ^ 53 - 1)%Z.
Proof. unfold safe_int. intros. case_all. bool_to_prop. lia. Qed.

Lemma safe_int_inject z : (Z.abs z <= 2 ^ 53 - 1)%Z → safe_int (inject_Z z) = Some z.
Proof.
  intros Hz. unfold safe_int.
  assert (Qred (inject_Z z) = inject_Z z) as ->.
  { unfold inject_Z, Qred. pose proof (Z.ggcd_gcd z 1) as Hg.
    pose proof (Z.ggcd_correct_divisors z 1) as Hd.
    destruct (Z.ggcd z 1) as [g [a b]]. simpl in Hg. subst g.
    rewrite Z.gcd_1_r in Hd. destruct Hd as [-> Hb].
    rewrite !Z.mul_1_l in *. subst b. done. }
  simpl. case_match eqn:E; [done|]. apply Z.leb_gt in E. lia.
Qed.

(** ** Lemmas on strings *)
Lemma of_chars_chars s : of_chars (chars s) = s.
Proof. apply String.string_of_list_ascii_of_string. Qed.
Lemma chars_of_chars l : chars (of_chars l) = l.
Proof. apply String.list_ascii_of_string_of_list_ascii. Qed.
Lemma chars_app s t : chars (s +:+ t) = chars s ++ chars t.
Proof. induction s; simpl; [done|]. unfold String.app in *. simpl. by f_equal. Qed.
Lemma length_chars s : length (chars s) = slen s.
Proof. induction s; simpl; auto. Qed.
Lemma slen_app s t : slen (s +:+ t) = slen s + slen t.
Proof. rewrite <-!length_chars, chars_app, length_app. done. Qed.
Lemma chars_inj s t : chars s = chars t → s = t.
Proof. intros H. rewrite <-(of_chars_chars s), <-(of_chars_chars t). by f_equal. Qed.
Lemma slen_of_chars l : slen (of_chars l) = length l.
Proof. by rewrite <-length_chars, chars_of_chars. Qed.

(** The text of an integer. *)
Definition is_numeral (c : ascii) : bool := is_digit c || is_char 45 c.
Lemma pretty_N_go_numeral n s : sforallb is_numeral s = true → sforallb is_numeral (pretty_N_go n s) = true.
Proof.
  revert s. induction (N.lt_wf_0 n) as [n _ IH]. intros s Hs. destruct (decide (0 < n)%N) as [Hn|Hn].
  - rewrite pretty_N_go_step by done. apply IH; [apply N.div_lt; lia|]. unfold sforallb in *. simpl. rewrite Hs, andb_true_r.
    assert (n `mod` 10 < 10)%N as Hd by (apply N.mod_lt; lia). generalize dependent (n `mod` 10)%N. intros d Hd.
    assert (d = 0 ∨ d = 1 ∨ d = 2 ∨ d = 3 ∨ d = 4 ∨ d = 5 ∨ d = 6 ∨ d = 7 ∨ d = 8 ∨ d = 9)%N as Hc by lia.
    by repeat destruct Hc as [->|Hc]; subst.
  - assert (n = 0)%N as -> by lia. by rewrite pretty_N_go_0.
Qed.
Lemma pretty_numeral (z : Z) : sforallb is_numeral (pretty z) = true.
Proof.
  assert (HN : ∀ n : N, sforallb is_numeral (pretty n) = true).
  { intros n. unfold pretty, pretty_N. case_decide; [done|]. by apply pretty_N_go_numeral. }
  destruct z; [done|apply HN|apply (HN (N.pos p))].
Qed.

Lemma seqb_eq a b : seqb a b = true ↔ a = b.
Proof. unfold seqb. apply bool_decide_eq_true. Qed.
Lemma seqb_refl a : seqb a a = true.
Proof. by apply seqb_eq. Qed.
Lemma seqb_neq a b : seqb a b = false ↔ a ≠ b.
Proof. unfold seqb. apply bool_decide_eq_false. Qed.

Lemma sapp_cons c s t : String.String c s +:+ t = String.String c (s +:+ t).
Proof. done. Qed.
Lemma sapp_nil t : empty_str +:+ t = t.
Proof. done. Qed.
Lemma sapp_assoc (a b c : string) : (a +:+ b) +:+ c = a +:+ b +:+ c.
Proof. apply chars_inj. rewrite !chars_app. by rewrite (assoc_L (++)). Qed.
Lemma sapp_nil_r s : s +:+ empty_str = s.
Proof. apply chars_inj. rewrite chars_app. apply app_nil_r. Qed.

Lemma sapp_inj_l (a a' b b' : string) :
  slen a = slen a' → a +:+ b = a' +:+ b' → a = a' ∧ b = b'.
Proof.
  intros Hl H. apply (f_equal chars) in H. rewrite !chars_app in H.
  apply app_inj_1 in H as [H1 H2]; [|by rewrite !length_chars].
  split; by apply chars_inj.
Qed.

(** Splitting at the first occurrence of a separator character. *)
Lemma sapp_sep_inj (c : ascii) (a a' b b' : string) :
  c ∉ chars a → c ∉ chars a' →
  a +:+ String.String c b = a' +:+ String.String c b' → a = a' ∧ b = b'.
Proof.
  revert a'. induction a as [|x a IH]; intros a' Ha Ha' H; destruct a' as [|y a'].
  - rewrite !sapp_nil in H. by simplify_eq.
  - rewrite sapp_nil, sapp_cons in H. simplify_eq.
    exfalso. apply Ha'. simpl. apply elem_of_cons. by left.
  - rewrite sapp_nil, sapp_cons in H. simplify_eq.
    exfalso. apply Ha. simpl. apply elem_of_cons. by left.
  - rewrite !sapp_cons in H. injection H as -> H.
    apply not_elem_of_cons in Ha as [_ Ha]. apply not_elem_of_cons in Ha' as [_ Ha'].
    destruct (IH a' Ha Ha' H) as [-> ->]. done.
Qed.

#[export] Hint Rewrite of_chars_chars chars_of_chars chars_app length_chars slen_app
  slen_of_chars seqb_refl : memwal.

(** ** UTF-8 *)
Lemma utf8_char_split c d l l' : utf8_char c ++ l = utf8_char d ++ l' → c = d ∧ l = l'.
Proof.
  assert (Hread : ∀ x r, match utf8_char x ++ r with
    | a :: r' => if (code a <? 128)%N then x = a ∧ r = r'
                 else match r' with
                      | b :: r'' => x = ascii_of_N (code b - 128 + 64 * (code a - 192))%N ∧ r = r''
                      | [] => False
                      end
    | [] => False
    end).
  { intros x r. destruct x as [[] [] [] [] [] [] [] []]; split; reflexivity. }
  intros E. pose proof (Hread c l) as Hc. pose proof (Hread d l') as Hd. rewrite E in Hc.
  destruct (utf8_char d ++ l') as [|a r']; [done|]. destruct (code a <? 128)%N; [naive_solver congruence|].
  destruct r' as [|b r'']; [done|]. naive_solver congruence.
Qed.
Lemma utf8_inj a b : utf8 a = utf8 b → a = b.
Proof.
  intros E. apply chars_inj. unfold utf8 in E. revert E. generalize (chars a), (chars b). clear a b.
  induction l as [|c l IH]; intros [|d l'] E; cbn [flat_map] in E; [done| | |].
  - exfalso. destruct d as [[] [] [] [] [] [] [] []]; discriminate E.
  - exfalso. destruct c as [[] [] [] [] [] [] [] []]; discriminate E.
  - apply utf8_char_split in E as [-> E]. by rewrite (IH _ E).
Qed.
