(* ===== verification/JsNumber.v ===== *)
(** * JavaScript numbers

    The conversions the modelled code uses: [parseInt], [Number] of a
    string, comparison with coercion, [Math.round] and [Math.ceil].

    A finite number is kept as an exact rational: the rounding of doubles is
    not modelled (the source's numbers are counts, milliseconds and HTTP
    statuses, exact in a double), overflow to [Infinity] is. *)
From Stdlib Require Import QArith Qround Qabs Ascii.
From S2P Require Import Prelude JsText.
Local Open Scope Z_scope.

(** [Number.parseInt(value, 10)] ([None] is [NaN]); exact below [2 ^ 53]. *)
Fixpoint digits_value (acc : Z) (l : list ascii) : Z :=
  match l with
  | c :: l' => if is_digit c then digits_value (10 * acc + (Z.of_N (code c) - 48)) l' else acc
  | [] => acc
  end.
Definition unsigned_int (l : list ascii) : option Z :=
  match l with
  | c :: _ => if is_digit c then Some (digits_value 0 l) else None
  | [] => None
  end.
Definition parse_int10 (s : string) : option Z :=
  match drop_while is_space (chars s) with
  | "+"%char :: l => unsigned_int l
  | "-"%char :: l => Z.opp <$> unsigned_int l
  | l => unsigned_int l
  end.

Inductive number : Type := NaN | Infinite (neg : bool) | Finite (q : Q).

Definition digit_of (c : ascii) : Z := Z.of_N (code c) - 48.

(** The longest run of digits: its value, its length, the rest. *)
Fixpoint digits (acc : Z) (n : nat) (l : list ascii) : Z * nat * list ascii :=
  match l with
  | c :: l' => if is_digit c then digits (10 * acc + digit_of c) (S n) l' else (acc, n, l)
  | [] => (acc, n, [])
  end.

(** An optional exponent part; [None] when what follows is not one. *)
Definition exponent (l : list ascii) : option Z :=
  match l with
  | [] => Some 0
  | c :: l' =>
      if is_char 101 (lower_ascii c) then
        let '(neg, l2) := match l' with
                          | "+"%char :: r => (false, r)
                          | "-"%char :: r => (true, r)
                          | r => (false, r)
                          end in
        match digits 0 0 l2 with
        | (e, S _, []) => Some (if neg : bool then - e else e)
        | _ => None
        end
      else None
  end.

(** [m * 10 ^ e], or [Infinity] beyond the largest double. *)
Definition scale (m e : Z) : number :=
  if m =? 0 then Finite 0
  else if 400 <? e then Infinite false
  else if e <? -1500 then Finite 0
  else let q := if 0 <=? e then inject_Z (m * 10 ^ e) else (m # Z.to_pos (10 ^ (- e)))%Q in
       if Qle_bool (inject_Z (2 ^ 1024 - 2 ^ 970)) q then Infinite false else Finite q.

Definition unsigned_decimal (l : list ascii) : number :=
  if bool_decide (l = chars "Infinity") then Infinite false
  else
    let '(i, n, r) := digits 0 0 l in
    let '(m, k, fl, r2) := match r with
                           | "."%char :: r' => let '(f, fn, r'') := digits i 0 r' in (f, fn, fn, r'')
                           | _ => (i, 0%nat, 0%nat, r)
                           end in
    if (n + k =? 0)%nat then NaN
    else match exponent r2 with
         | Some e => scale m (e - Z.of_nat fl)
         | None => NaN
         end.

Definition negate (n : number) : number :=
  match n with NaN => NaN | Infinite b => Infinite (negb b) | Finite q => Finite (- q)%Q end.

(** Digits of a [0x], [0o] or [0b] literal. *)
Definition radix_digit (r : Z) (c : ascii) : option Z :=
  let d := if is_digit c then digit_of c
           else if in_range 97 102 (lower_ascii c) then Z.of_N (code (lower_ascii c)) - 87 else 99 in
  if d <? r then Some d else None.
Fixpoint radix_value (r acc : Z) (l : list ascii) : option Z :=
  match l with
  | [] => Some acc
  | c :: l' => match radix_digit r c with Some d => radix_value r (r * acc + d) l' | None => None end
  end.
Definition radix_number (r : Z) (l : list ascii) : number :=
  match l with
  | [] => NaN
  | _ => match radix_value r 0 l with Some z => Finite (inject_Z z) | None => NaN end
  end.

(** [Number(s)] *)
Definition string_number (s : string) : number :=
  match trim_chars (chars s) with
  | [] => Finite 0
  | "0"%char :: "x"%char :: l | "0"%char :: "X"%char :: l => radix_number 16 l
  | "0"%char :: "o"%char :: l | "0"%char :: "O"%char :: l => radix_number 8 l
  | "0"%char :: "b"%char :: l | "0"%char :: "B"%char :: l => radix_number 2 l
  | "+"%char :: l => unsigned_decimal l
  | "-"%char :: l => negate (unsigned_decimal l)
  | l => unsigned_decimal l
  end.

(** [Number(v)] for a primitive [v]; objects and arrays are taken as [NaN]. *)
Definition to_number (v : json) : number :=
  match v with
  | JNum q => Finite q
  | JStr s => string_number s
  | JBool b => Finite (if b then 1 else 0)%Q
  | JNull => Finite 0
  | JUndefined | JArr _ | JObj _ => NaN
  end.

(** [v >= z] and [v <= z] *)
Definition num_ge (v : json) (z : Z) : bool :=
  match to_number v with Finite q => Qle_bool (inject_Z z) q | Infinite neg => negb neg | NaN => false end.
Definition num_le (v : json) (z : Z) : bool :=
  match to_number v with Finite q => Qle_bool q (inject_Z z) | Infinite neg => neg | NaN => false end.
(** [v === z] *)
Definition num_is (v : json) (z : Z) : bool :=
  match v with JNum q => Qeq_bool q (inject_Z z) | _ => false end.

(** [x.toFixed(k)] *)
Definition pad_zeros (k : nat) (s : string) : string := of_chars (repeat "0"%char (k - slen s)) +:+ s.
Definition to_fixed (k : nat) (q : Q) : string :=
  let unit := 10 ^ Z.of_nat k in
  let n := Qfloor (Qabs q * inject_Z unit + (1 # 2))%Q in
  (if (Qnum q <? 0) then "-" else empty_str) +:+ pretty (n / unit) +:+ "." +:+ pad_zeros k (pretty (n mod unit)).

(** [Math.round], [Math.ceil] *)
Definition math_round (q : Q) : Z := Qfloor (q + (1 # 2))%Q.
Definition math_ceil (q : Q) : Z := Qceiling q.

Example number_decimal : string_number " 12.5e1 " = Finite 125.
Proof. vm_compute. reflexivity. Qed.
Example number_not_http_date : string_number "Wed, 21 Oct 2015" = NaN.
Proof. vm_compute. reflexivity. Qed.
Example number_hex : string_number "0x1F" = Finite 31%Q.
Proof. vm_compute. reflexivity. Qed.

(** ** Dates, as milliseconds since 1970 *)
Definition DAY_MS : Z := 86400000.
(** The civil date of a day since 1970. *)
Definition civil (day : Z) : Z * Z * Z :=
  let z := day + 719468 in
  let era := z / 146097 in
  let doe := z mod 146097 in
  let yoe := (doe - doe / 1460 + doe / 36524 - doe / 146096) / 365 in
  let doy := doe - (365 * yoe + yoe / 4 - yoe / 100) in
  let mp := (5 * doy + 2) / 153 in
  let d := doy - (153 * mp + 2) / 5 + 1 in
  let m := if mp <? 10 then mp + 3 else mp - 9 in
  (yoe + era * 400 + (if m <=? 2 then 1 else 0), m, d).
Definition padded (k : nat) (z : Z) : string := pad_zeros k (pretty z).
(** [toISOString], for years of four digits *)
Definition date_part (ms : Z) : string := let '(y, m, d) := civil (ms / DAY_MS) in padded 4 y +:+ "-" +:+ padded 2 m +:+ "-" +:+ padded 2 d.
Definition time_part (ms : Z) : string :=
  let t := ms mod DAY_MS in padded 2 (t / 3600000) +:+ ":" +:+ padded 2 (t / 60000 mod 60) +:+ ":" +:+ padded 2 (t / 1000 mod 60).
Definition toISOString (ms : Z) : string := date_part ms +:+ "T" +:+ time_part ms +:+ "." +:+ padded 3 (ms mod 1000) +:+ "Z".
Definition WEEKDAYS : list string := ["Thu"; "Fri"; "Sat"; "Sun"; "Mon"; "Tue"; "Wed"].
Definition MONTHS : list string := ["Jan"; "Feb"; "Mar"; "Apr"; "May"; "Jun"; "Jul"; "Aug"; "Sep"; "Oct"; "Nov"; "Dec"].
Definition toUTCString (ms : Z) : string :=
  let '(y, m, d) := civil (ms / DAY_MS) in
  default empty_str (WEEKDAYS !! Z.to_nat (ms / DAY_MS mod 7)) +:+ ", " +:+ padded 2 d +:+ " " +:+
  default empty_str (MONTHS !! Z.to_nat (m - 1)) +:+ " " +:+ padded 4 y +:+ " " +:+ time_part ms +:+ " GMT".
