(* ===== verification/JsonParse.v ===== *)
(** * [JSON.parse]

    A recursive-descent parser for the values of [JsText.json], with the
    fuel of the input length.  Code units from 256 on, which only a [\u]
    escape can write in a modelled string, are read as ["?"]; a number
    beyond the largest double is read as [2 ^ 1024]. *)
From Stdlib Require Import QArith Ascii.
From S2P Require Import Prelude JsText JsNumber.
Local Open Scope nat_scope.

Definition is_json_space (c : ascii) : bool :=
  is_char 32 c || is_char 9 c || is_char 10 c || is_char 13 c.

Definition hex_value (c : ascii) : option N :=
  if is_digit c then Some (code c - 48)%N
  else if in_range 97 102 (lower_ascii c) then Some (code (lower_ascii c) - 87)%N else None.

(** The code unit of a four-digit escape. *)
Definition unicode_escape (a b c d : ascii) : option ascii :=
  a ← hex_value a; b ← hex_value b; c ← hex_value c; d ← hex_value d;
  let n := (4096 * a + 256 * b + 16 * c + d)%N in
  Some (if (n <? 256)%N then ascii_of_N n else "?"%char).

Definition simple_escape (c : ascii) : option ascii :=
  if is_char 110 c then Some (ascii_of_N 10)
  else if is_char 116 c then Some (ascii_of_N 9)
  else if is_char 114 c then Some (ascii_of_N 13)
  else if is_char 98 c then Some (ascii_of_N 8)
  else if is_char 102 c then Some (ascii_of_N 12)
  else if is_char 34 c || is_char 92 c || is_char 47 c then Some c
  else None.

(** The rest of a string literal, after its opening quote. *)
Fixpoint parse_chars (l : list ascii) : option (list ascii * list ascii) :=
  match l with
  | [] => None
  | c :: l1 =>
      if is_char 34 c then Some ([], l1)
      else if (code c <? 32)%N then None
      else if is_char 92 c then
        match l1 with
        | e :: l2 =>
            if is_char 117 e then
              match l2 with
              | h1 :: h2 :: h3 :: h4 :: l3 =>
                  x ← unicode_escape h1 h2 h3 h4; '(s, r) ← parse_chars l3; Some (x :: s, r)
              | _ => None
              end
            else x ← simple_escape e; '(s, r) ← parse_chars l2; Some (x :: s, r)
        | [] => None
        end
      else '(s, r) ← parse_chars l1; Some (c :: s, r)
  end.

(** [frac] and [exp] of a number literal *)
Definition parse_frac (m : Z) (l : list ascii) : option (Z * nat * list ascii) :=
  match l with
  | c :: l1 =>
      if is_char 46 c then
        match digits m 0 l1 with
        | (_, O, _) => None
        | (m', n, r) => Some (m', n, r)
        end
      else Some (m, 0, l)
  | [] => Some (m, 0, l)
  end.
Definition parse_exp (l : list ascii) : option (Z * list ascii) :=
  match l with
  | c :: l1 =>
      if is_char 101 (lower_ascii c) then
        let '(neg, l2) := match l1 with
                          | s :: r => if is_char 43 s then (false, r)
                                      else if is_char 45 s then (true, r) else (false, l1)
                          | [] => (false, l1)
                          end in
        match digits 0 0 l2 with
        | (_, O, _) => None
        | (e, _, r) => Some (if neg : bool then (- e)%Z else e, r)
        end
      else Some (0%Z, l)
  | [] => Some (0%Z, l)
  end.

Definition number_json (neg : bool) (n : number) : json :=
  let q := match n with Finite q => q | _ => inject_Z (2 ^ 1024) end in
  JNum (if neg then (- q)%Q else q).

Definition parse_number (l : list ascii) : option (json * list ascii) :=
  let '(neg, l1) := match l with
                    | c :: r => if is_char 45 c then (true, r) else (false, l)
                    | [] => (false, l)
                    end in
  match digits 0 0 l1 with
  | (_, O, _) => None
  | (i, n, r) =>
      if (1 <? n) && bool_decide (head l1 = Some "0"%char) then None
      else
        '(m, k, r1) ← parse_frac i r;
        '(e, r2) ← parse_exp r1;
        Some (number_json neg (scale m (e - Z.of_nat k)), r2)
  end.

(** A property written twice keeps the last value. *)
Fixpoint set_field (k : string) (v : json) (fs : list (string * json)) : list (string * json) :=
  match fs with
  | [] => [(k, v)]
  | (k', v') :: fs' => if seqb k k' then (k, v) :: fs' else (k', v') :: set_field k v fs'
  end.

Definition literal (w : list ascii) (v : json) (l : list ascii) : option (json * list ascii) :=
  if prefix_of w l then Some (v, drop (length w) l) else None.

Fixpoint parse_value (fuel : nat) (l : list ascii) : option (json * list ascii) :=
  match fuel with
  | O => None
  | S fuel' =>
      match drop_while is_json_space l with
      | [] => None
      | c :: l1 =>
          if is_char 123 c then
            match drop_while is_json_space l1 with
            | e :: r => if is_char 125 e then Some (JObj [], r) else parse_members fuel' [] l1
            | [] => None
            end
          else if is_char 91 c then
            match drop_while is_json_space l1 with
            | e :: r => if is_char 93 e then Some (JArr [], r) else parse_elements fuel' l1
            | [] => None
            end
          else if is_char 34 c then '(s, r) ← parse_chars l1; Some (JStr (of_chars s), r)
          else if is_char 116 c then literal (chars "true") (JBool true) (c :: l1)
          else if is_char 102 c then literal (chars "false") (JBool false) (c :: l1)
          else if is_char 110 c then literal (chars "null") JNull (c :: l1)
          else parse_number (c :: l1)
      end
  end
with parse_elements (fuel : nat) (l : list ascii) : option (json * list ascii) :=
  match fuel with
  | O => None
  | S fuel' =>
      '(v, r) ← parse_value fuel' l;
      match drop_while is_json_space r with
      | c :: r1 =>
          if is_char 93 c then Some (JArr [v], r1)
          else if is_char 44 c then
            '(vs, r2) ← parse_elements fuel' r1;
            match vs with JArr l' => Some (JArr (v :: l'), r2) | _ => None end
          else None
      | [] => None
      end
  end
with parse_members (fuel : nat) (acc : list (string * json)) (l : list ascii)
    : option (json * list ascii) :=
  match fuel with
  | O => None
  | S fuel' =>
      match drop_while is_json_space l with
      | q :: l1 =>
          if is_char 34 q then
            '(k, r) ← parse_chars l1;
            match drop_while is_json_space r with
            | c :: r1 =>
                if is_char 58 c then
                  '(v, r2) ← parse_value fuel' r1;
                  let acc' := set_field (of_chars k) v acc in
                  match drop_while is_json_space r2 with
                  | d :: r3 =>
                      if is_char 125 d then Some (JObj acc', r3)
                      else if is_char 44 d then parse_members fuel' acc' r3
                      else None
                  | [] => None
                  end
                else None
            | [] => None
            end
          else None
      | [] => None
      end
  end.

(** [JSON.parse(s)]; [None] when it throws. *)
Definition json_parse (s : string) : option json :=
  match parse_value (2 * slen s + 2) (chars s) with
  | Some (v, r) => if forallb is_json_space r then Some v else None
  | None => None
  end.

(** String conversion of a value in a template or an argument.  Numbers that
    are no safe integers are not printed. *)
Definition is_nothing (v : json) : bool := match v with JUndefined | JNull => true | _ => false end.
Fixpoint js_string (v : json) : string :=
  match v with
  | JStr s => s
  | JUndefined => "undefined"
  | JNull => "null"
  | JBool b => if b then "true" else "false"
  | JNum q => match safe_int q with Some z => pretty z | None => "[number]" end
  | JArr l => join "," (map (λ x, if is_nothing x then empty_str else js_string x) l)
  | JObj _ => "[object Object]"
  end.

(** ** [JSON.stringify]

    [fraction] prints the numbers that are not safe integers. *)
Definition hex4 (n : N) : list ascii :=
  let d (m : N) := ascii_of_N (if (m <? 10)%N then 48 + m else 87 + m)%N in
  ["0"%char; "0"%char; d (n / 16)%N; d (n mod 16)%N].
Definition escape_char (c : ascii) : list ascii :=
  let bs := ascii_of_N 92 in
  if is_char 34 c || is_char 92 c then [bs; c]
  else if is_char 10 c then [bs; "n"%char]
  else if is_char 9 c then [bs; "t"%char]
  else if is_char 13 c then [bs; "r"%char]
  else if is_char 8 c then [bs; "b"%char]
  else if is_char 12 c then [bs; "f"%char]
  else if (code c <? 32)%N then bs :: "u"%char :: hex4 (code c)
  else [c].
Definition quote_chars (s : string) : list ascii :=
  let q := ascii_of_N 34 in q :: flat_map escape_char (chars s) ++ [q].

Fixpoint separated (l : list (list ascii)) : list ascii :=
  match l with
  | [] => []
  | [x] => x
  | x :: l' => x ++ ","%char :: separated l'
  end.

Section Stringify.
Context (fraction : Q → string).
Definition number_chars (q : Q) : list ascii :=
  chars (match safe_int q with Some z => pretty z | None => fraction q end).
Fixpoint stringify_chars (v : json) : list ascii :=
  match v with
  | JUndefined | JNull => chars "null"
  | JBool b => chars (if b then "true" else "false")
  | JNum q => number_chars q
  | JStr s => quote_chars s
  | JArr l => "["%char :: separated (map stringify_chars l) ++ ["]"%char]
  | JObj fs =>
      "{"%char :: separated
        ((fix fields (fs : list (string * json)) : list (list ascii) :=
            match fs with
            | [] => []
            | (k, x) :: fs' =>
                match x with
                | JUndefined => fields fs'
                | _ => (quote_chars k ++ ":"%char :: stringify_chars x) :: fields fs'
                end
            end) fs) ++ ["}"%char]
  end.
Definition json_stringify (v : json) : string := of_chars (stringify_chars v).
End Stringify.

(** A JSON text over single quotes, for examples. *)
Definition q2 (s : string) : string :=
  smap (λ c, if is_char 39 c then ascii_of_N 34 else c) s.

Example json_parse_object :
  json_parse (q2 "{'a': [1, -2.5e1, true], 'b': {'c': null, 'a': 'x\n'}, 'a': 0}") =
  Some (JObj [("a", JNum 0);
              ("b", JObj [("c", JNull); ("a", JStr (of_chars ["x"%char; ascii_of_N 10]))])]).
Proof. vm_compute. reflexivity. Qed.
Example json_parse_rejects :
  map json_parse [q2 "{'a': 01}"; "[1,]"; "nul"; "1 2"; q2 "'a"; empty_str] = replicate 6 None.
Proof. vm_compute. reflexivity. Qed.

Example json_stringify_object :
  json_stringify (λ _, "0.5")
    (JObj [("a", JArr [jint 1; JNum (1 # 2); JUndefined]); ("b", JUndefined); ("c", JStr "x")]) =
  q2 "{'a':[1,0.5,null],'c':'x'}".
Proof. vm_compute. reflexivity. Qed.

(** ** [JSON.parse] reads back what [JSON.stringify] writes

    For values of texts, booleans and [null] in arrays and objects without a
    property written twice; numbers are printed by a parameter. *)

Lemma parse_escaped c l : parse_chars (escape_char c ++ l) = ('(s, r) ← parse_chars l; Some (c :: s, r)).
Proof. destruct c as [[] [] [] [] [] [] [] []]; reflexivity. Qed.
Lemma parse_quoted s l : parse_chars (flat_map escape_char s ++ "034"%char :: l) = Some (s, l).
Proof.
  induction s as [|c s IH]; [done|]. cbn [flat_map]. by rewrite <-app_assoc, parse_escaped, IH.
Qed.
Lemma quote_chars_eq s l : quote_chars s ++ l = "034"%char :: flat_map escape_char (chars s) ++ "034"%char :: l.
Proof. unfold quote_chars. by rewrite <-app_comm_cons, <-app_assoc. Qed.
Lemma set_field_fresh k v fs : k ∉ fs.*1 → set_field k v fs = fs ++ [(k, v)].
Proof.
  induction fs as [|[k' v'] fs IH]; intros Hk; [done|]. simpl in *. apply not_elem_of_cons in Hk as [Hne Hk].
  rewrite (proj2 (seqb_neq k k')) by done. by rewrite IH.
Qed.

(** Values without numbers that have one writing. *)
Fixpoint textual (v : json) : Prop :=
  match v with
  | JNull | JBool _ | JStr _ => True
  | JArr l => (fix all (l : list json) : Prop := match l with [] => True | x :: l' => textual x ∧ all l' end) l
  | JObj fs =>
      NoDup fs.*1 ∧
      (fix all (fs : list (string * json)) : Prop :=
         match fs with [] => True | (_, x) :: fs' => textual x ∧ all fs' end) fs
  | JUndefined | JNum _ => False
  end.

Section Roundtrip.
Context (fraction : Q → string).
Local Abbreviation print := (stringify_chars fraction).

Lemma textual_elements l : textual (JArr l) → Forall textual l.
Proof. simpl. induction l as [|x l IH]; [by constructor|]. intros [? ?]. constructor; auto. Qed.
Lemma textual_fields fs : textual (JObj fs) → NoDup fs.*1 ∧ Forall (λ kv, textual kv.2) fs.
Proof.
  simpl. intros [Hn Hf]. split; [done|]. clear Hn. induction fs as [|[k x] fs IH]; [by constructor|].
  destruct Hf. constructor; auto.
Qed.
(** The fields as they are written. *)
Definition print_field (kv : string * json) : list ascii := quote_chars kv.1 ++ ":"%char :: print kv.2.
Lemma print_object fs : Forall (λ kv, textual kv.2) fs →
  print (JObj fs) = "{"%char :: separated (map print_field fs) ++ ["}"%char].
Proof.
  intros Hf. cbn [stringify_chars]. do 3 f_equal. induction Hf as [|[k x] fs Hx _ IH]; [done|].
  destruct x; try done; cbn [map]; f_equal; exact IH.
Qed.
Lemma separated_cons x y l : separated (x :: y :: l) = x ++ ","%char :: separated (y :: l).
Proof. done. Qed.

Lemma print_head v : textual v → ∃ c l, print v = c :: l ∧ is_json_space c = false ∧ is_char 93 c = false ∧ is_char 125 c = false.
Proof. destruct v as [| |[]| | | |]; try done; intros _; by do 2 eexists. Qed.
Lemma drop_print v r : textual v → drop_while is_json_space (print v ++ r) = print v ++ r.
Proof. intros Hv. destruct (print_head v Hv) as (c & l & -> & Hc & _). cbn. by rewrite Hc. Qed.
Definition reads (v : json) : Prop :=
  ∀ fuel r, length (print v) < fuel → parse_value fuel (print v ++ r) = Some (v, r).

Lemma reads_text s : reads (JStr s).
Proof.
  intros [|fuel] r Hf; [lia|]. cbn [stringify_chars]. rewrite quote_chars_eq. cbn [parse_value].
  change (drop_while is_json_space ("034"%char :: ?x)) with ("034"%char :: x).
  change (is_char 123 "034") with false. change (is_char 91 "034") with false. change (is_char 34 "034") with true.
  cbn iota. rewrite parse_quoted. cbn [mbind option_bind]. by rewrite of_chars_chars.
Qed.

Lemma reads_elements x l : Forall textual (x :: l) → Forall reads (x :: l) → ∀ fuel r,
  length (separated (map print (x :: l))) + 1 < fuel →
  parse_elements fuel (separated (map print (x :: l)) ++ "]"%char :: r) = Some (JArr (x :: l), r).
Proof.
  revert x. induction l as [|y l IH]; intros x Ht Hr [|fuel] r Hf; try (simpl in Hf; lia);
    inversion_clear Ht as [|? ? Tx Tl]; inversion_clear Hr as [|? ? Rx Rl].
  - cbn [map separated parse_elements] in *. rewrite Rx by lia. cbn [mbind option_bind].
    change (drop_while is_json_space ("]"%char :: r)) with ("]"%char :: r). reflexivity.
  - cbn [map] in Hf |- *. rewrite separated_cons in Hf |- *. rewrite <-app_assoc, <-app_comm_cons. rewrite length_app in Hf. cbn [length] in Hf.
    cbn [parse_elements]. rewrite Rx by lia. cbn [mbind option_bind].
    change (drop_while is_json_space (","%char :: ?z)) with (","%char :: z).
    change (is_char 93 ",") with false. change (is_char 44 ",") with true. cbn iota.
    change (print y :: map print l) with (map print (y :: l)) in Hf |- *. rewrite IH by (done || lia). reflexivity.
Qed.
Lemma reads_members f fs : Forall (λ kv, textual kv.2) (f :: fs) → Forall (λ kv, reads kv.2) (f :: fs) → ∀ acc fuel r,
  NoDup (acc ++ f :: fs).*1 → length (separated (map print_field (f :: fs))) + 1 < fuel →
  parse_members fuel acc (separated (map print_field (f :: fs)) ++ "}"%char :: r) = Some (JObj (acc ++ f :: fs), r).
Proof.
  revert f. induction fs as [|g fs IH]; intros [k v] Ht Hr acc fuel r Hnd Hf; (destruct fuel as [|fuel]; [lia|]);
    inversion_clear Ht as [|? ? Tx Tl]; inversion_clear Hr as [|? ? Rx Rl]; cbn [snd] in *.
  all: assert (Hfresh : set_field k v acc = acc ++ [(k, v)]) by
    (apply set_field_fresh; rewrite fmap_app in Hnd; apply NoDup_app in Hnd as (_ & Hd & _); intros Hk; apply (Hd k Hk); by left).
  - cbn [map separated] in *. unfold print_field in *. cbn [fst snd] in *. rewrite length_app in Hf. cbn [length] in Hf.
    rewrite <-app_assoc, <-app_comm_cons, quote_chars_eq. cbn [parse_members].
    change (drop_while is_json_space ("034"%char :: ?z)) with ("034"%char :: z). change (is_char 34 "034") with true.
    cbn iota. rewrite parse_quoted. cbn [mbind option_bind].
    change (drop_while is_json_space (":"%char :: ?z)) with (":"%char :: z). change (is_char 58 ":") with true. cbn iota.
    rewrite Rx by lia. cbn [mbind option_bind]. change (drop_while is_json_space ("}"%char :: r)) with ("}"%char :: r).
    change (is_char 125 "}") with true. cbn iota. by rewrite of_chars_chars, Hfresh.
  - cbn [map] in Hf |- *. rewrite separated_cons in Hf |- *. rewrite length_app in Hf. cbn [length] in Hf.
    unfold print_field at 1 in Hf. unfold print_field at 1. cbn [fst snd] in *. rewrite length_app in Hf. cbn [length] in Hf.
    rewrite <-!app_assoc, <-!app_comm_cons, quote_chars_eq. cbn [parse_members].
    change (drop_while is_json_space ("034"%char :: ?z)) with ("034"%char :: z). change (is_char 34 "034") with true.
    cbn iota. rewrite parse_quoted. cbn [mbind option_bind].
    change (drop_while is_json_space (":"%char :: ?z)) with (":"%char :: z). change (is_char 58 ":") with true. cbn iota.
    rewrite Rx by lia. cbn [mbind option_bind]. change (drop_while is_json_space (","%char :: ?z)) with (","%char :: z).
    change (is_char 125 ",") with false. change (is_char 44 ",") with true. cbn iota. rewrite of_chars_chars, Hfresh.
    change (print_field g :: map print_field fs) with (map print_field (g :: fs)) in Hf |- *.
    rewrite IH; [by rewrite <-app_assoc|done|done| |lia]. by rewrite <-app_assoc.
Qed.
Lemma reads_array l : textual (JArr l) → Forall reads l → reads (JArr l).
Proof.
  intros Ht Hr [|fuel] r Hf; [lia|]. apply textual_elements in Ht. destruct l as [|x l]; [reflexivity|].
  cbn [stringify_chars] in *. rewrite <-app_comm_cons, <-app_assoc in *. cbn [length] in Hf. rewrite length_app in Hf. cbn [length] in Hf.
  cbn [parse_value]. change (drop_while is_json_space ("["%char :: ?z)) with ("["%char :: z).
  change (is_char 123 "[") with false. change (is_char 91 "[") with true. cbn iota.
  inversion_clear Ht as [|? ? Tx Tl]. assert (Hh : ∃ c z, separated (map print (x :: l)) ++ ["]"%char] ++ r = c :: z ∧
    is_json_space c = false ∧ is_char 93 c = false).
  { destruct (print_head x Tx) as (c & z & E & H1 & H2 & _). destruct l as [|y l]; cbn [map]; rewrite ?separated_cons; cbn [separated];
      rewrite E; by do 2 eexists. }
  destruct Hh as (c & z & E & H1 & H2). rewrite E. cbn [drop_while]. rewrite H1, H2. rewrite <-E.
  apply reads_elements; [by constructor|done|lia].
Qed.
Lemma reads_object fs : textual (JObj fs) → Forall (λ kv, reads kv.2) fs → reads (JObj fs).
Proof.
  intros Ht Hr [|fuel] r Hf; [lia|]. apply textual_fields in Ht as [Hnd Ht]. rewrite print_object in * by done.
  destruct fs as [|[k x] fs]; [reflexivity|].
  rewrite <-app_comm_cons, <-app_assoc in *. cbn [length] in Hf. rewrite length_app in Hf. cbn [length] in Hf.
  cbn [parse_value]. change (drop_while is_json_space ("{"%char :: ?z)) with ("{"%char :: z).
  change (is_char 123 "{") with true. cbn iota.
  assert (Hh : ∃ z, separated (map print_field ((k, x) :: fs)) ++ ["}"%char] ++ r = "034"%char :: z).
  { unfold print_field. destruct fs as [|g fs]; cbn [map]; rewrite ?separated_cons; cbn [separated fst snd]; rewrite <-!app_assoc, quote_chars_eq; by eexists. }
  destruct Hh as (z & E). rewrite E. change (drop_while is_json_space ("034"%char :: z)) with ("034"%char :: z).
  change (is_char 125 "034") with false. cbn iota. rewrite <-E.
  apply (reads_members (k, x) fs Ht Hr []); [done|lia].
Qed.
Lemma reads_textual v : textual v → reads v.
Proof.
  revert v. fix IH 1. intros [| |b| |s|l|fs] Ht; try done.
  - intros [|fuel] r Hf; [lia|reflexivity].
  - intros [|fuel] r Hf; [lia|]. by destruct b.
  - apply reads_text.
  - apply reads_array; [done|]. simpl in Ht. induction l as [|x l IHl]; [by constructor|]. destruct Ht as [Hx Hl].
    constructor; [by apply IH|by apply IHl].
  - apply reads_object; [done|]. simpl in Ht. destruct Ht as [_ Ht]. induction fs as [|[k x] fs IHf]; [by constructor|].
    destruct Ht as [Hx Hl]. constructor; [by apply IH|by apply IHf].
Qed.

(** What is written is read back. *)
Theorem json_roundtrip v : textual v → json_parse (json_stringify fraction v) = Some v.
Proof.
  intros Ht. unfold json_parse, json_stringify. rewrite slen_of_chars, chars_of_chars.
  rewrite <-(app_nil_r (print v)) at 2. rewrite reads_textual by (done || lia). done.
Qed.

(** A text without line breaks, whatever the texts in it. *)
Lemma quote_one_line s : "010"%char ∉ quote_chars s.
Proof.
  unfold quote_chars. rewrite elem_of_cons, elem_of_app. intros [?|[Hin|Hin]]; [done| |by apply list_elem_of_singleton in Hin].
  apply list_elem_of_In, in_flat_map in Hin as (c & _ & Hc). destruct c as [[] [] [] [] [] [] [] []]; vm_compute in Hc; intuition congruence.
Qed.
End Roundtrip.
