(* ===== verification/LineReader.v ===== *)
(** * Framing of the MCP bridge's two streams (packages/mcp/src/bridge.ts)

    The client's JSON lines on stdin and the relayer's server-sent events
    arrive in chunks cut anywhere.  Both readers keep a buffer, take the
    complete pieces off its front and leave the rest for the next chunk. *)
From Stdlib Require Import Ascii.
From S2P Require Import Prelude JsText JsonParse.

Definition LF : ascii := "010".
Definition CR : ascii := "013".

(** ** The loops [while ((i = buf.indexOf(sep)) >= 0)]

    [complete acc c] is the piece that the character [c] completes after the
    characters [acc], most recent first; the result of [cut] is the complete
    pieces and what stays in the buffer. *)
Section cut.
Context (complete : list ascii → ascii → option (list ascii)).

Fixpoint cut (acc l : list ascii) : list (list ascii) * list ascii :=
  match l with
  | [] => ([], rev acc)
  | c :: l' =>
      match complete acc c with
      | Some p => let (ps, r) := cut [] l' in (p :: ps, r)
      | None => cut (c :: acc) l'
      end
  end.

(** The reader: every chunk is put behind the buffer. *)
Fixpoint feed (buf : list ascii) (chunks : list string) : list (list ascii) * list ascii :=
  match chunks with
  | [] => ([], buf)
  | chunk :: chunks' =>
      let (ps, buf') := cut [] (buf ++ chars chunk) in
      let (qs, r) := feed buf' chunks' in
      (ps ++ qs, r)
  end.

(** Reading on from [acc] is reading its characters again. *)
Definition resumes (acc : list ascii) : Prop := ∀ x, cut [] (rev acc ++ x) = cut acc x.

Lemma resumes_cons acc c : resumes acc → complete acc c = None → resumes (c :: acc).
Proof. intros Hacc Hc x. simpl. rewrite <-app_assoc, Hacc. simpl. by rewrite Hc. Qed.

Lemma cut_app l : ∀ acc m, resumes acc → cut acc (l ++ m) =
  (let (ps, r) := cut acc l in let (qs, r') := cut [] (r ++ m) in (ps ++ qs, r')).
Proof.
  induction l as [|c l IH]; intros acc m Hacc; simpl.
  - rewrite Hacc. by destruct (cut acc m).
  - destruct (complete acc c) as [p|] eqn:Hc; [|by apply IH, resumes_cons].
    rewrite IH by done. destruct (cut [] l) as [ps r]. by destruct (cut [] (r ++ m)).
Qed.

(** What is read does not depend on where the input was cut into chunks. *)
Lemma feed_concat chunks : ∀ buf, cut [] buf = ([], buf) →
  feed buf chunks = cut [] (buf ++ concat (map chars chunks)).
Proof.
  induction chunks as [|c cs IH]; intros buf Hbuf; simpl; [by rewrite app_nil_r, Hbuf|].
  rewrite app_assoc, (cut_app (buf ++ chars c)) by done.
  destruct (cut [] (buf ++ chars c)) as [ps r] eqn:Hr. rewrite IH; [done|].
  pose proof (cut_app (buf ++ chars c) [] [] ltac:(done)) as Hself.
  rewrite app_nil_r, Hr, app_nil_r in Hself. destruct (cut [] r) as [qs r'].
  injection Hself as Hq Hr'. subst r'. f_equal.
  apply (f_equal length) in Hq. rewrite length_app in Hq. destruct qs; [done|simpl in Hq; lia].
Qed.
End cut.

(** [indexOf("\n")] and [indexOf("\n\n")] *)
Definition line_end (acc : list ascii) (c : ascii) : option (list ascii) :=
  if Ascii.eqb c LF then Some (rev acc) else None.
Definition event_end (acc : list ascii) (c : ascii) : option (list ascii) :=
  match acc with
  | d :: acc' => if Ascii.eqb c LF && Ascii.eqb d LF then Some (rev acc') else None
  | [] => None
  end.

(** ** [readStdinLines]: the line without a final CR; empty ones are skipped *)
Definition strip_cr (l : list ascii) : list ascii :=
  match rev l with c :: l' => if Ascii.eqb c CR then rev l' else l | [] => l end.
Definition stdin_lines (ps : list (list ascii)) : list string :=
  map of_chars (filter (λ l, l ≠ []) (map strip_cr ps)).
Definition readStdinLines (chunks : list string) : list string :=
  stdin_lines (feed line_end [] chunks).1.

(** ** The server-sent events of [openSseStream] *)
Definition sse_lines (chunk : list ascii) : list string :=
  let (ps, r) := cut line_end [] chunk in map of_chars (ps ++ [r]).
(** [l.replace(/^\s/, "")] *)
Definition drop_space (s : string) : string :=
  match s with
  | String.String c s' => if is_space c then s' else s
  | String.EmptyString => s
  end.
(** The [event:] field, if there is one, and the joined [data:] lines. *)
Definition sse_fields (chunk : list ascii) : option string * string :=
  let lines := sse_lines chunk in
  (match filter (λ l, starts_with "event:" l = true) lines with
   | l :: _ => Some (trim (drop_s 6 l))
   | [] => None
   end,
   join (String.String LF empty_str)
        (map (λ l, drop_space (drop_s 5 l)) (filter (λ l, starts_with "data:" l = true) lines))).

Inductive sse_event : Type :=
| Endpoint (path : string)   (** the first [endpoint] event: where to POST *)
| Message (v : json)         (** an event whose data is JSON *)
| Unparsed (data : string)   (** logged and dropped *)
| Ignored.

Definition read_event (endpointResolved : bool) (chunk : list ascii) : sse_event :=
  let '(event, data) := sse_fields chunk in
  if bool_decide (event = Some "endpoint") && negb endpointResolved then Endpoint (trim data)
  else if bool_decide (event = Some "message") ||
          (match event with Some e => is_empty e | None => true end && negb (is_empty data)) then
    match json_parse data with Some v => Message v | None => Unparsed data end
  else Ignored.

(** The pump over the complete chunks of the stream. *)
Fixpoint read_events (endpointResolved : bool) (ps : list (list ascii)) : list sse_event :=
  match ps with
  | [] => []
  | p :: ps' =>
      let e := read_event endpointResolved p in
      e :: read_events (match e with Endpoint _ => true | _ => endpointResolved end) ps'
  end.
Definition sse_events (chunks : list string) : list sse_event :=
  read_events false (feed event_end [] chunks).1.

(** [postUrl]: an endpoint path is relative to the relayer. *)
Definition post_url (base endpointPath : string) : string :=
  if starts_with "http" endpointPath then endpointPath else base +:+ endpointPath.

(** ** What the readers deliver *)
Definition no_lf (l : list ascii) : Prop := Forall (λ c, Ascii.eqb c LF = false) l.

(** A piece without a line feed, its terminator, and what follows. *)
Lemma cut_line p : ∀ acc x, no_lf p →
  cut line_end acc (p ++ LF :: x) = (let (ps, r) := cut line_end [] x in ((rev acc ++ p) :: ps, r)).
Proof.
  induction p as [|c p IH]; intros acc x Hp; simpl.
  - unfold line_end at 1. cbn. by rewrite app_nil_r.
  - inversion_clear Hp as [|? ? Hc Hp']. unfold line_end at 1. rewrite Hc.
    rewrite IH by done. simpl. by rewrite <-app_assoc.
Qed.
Lemma cut_no_line p : ∀ acc, no_lf p → cut line_end acc p = ([], rev acc ++ p).
Proof.
  induction p as [|c p IH]; intros acc Hp; simpl; [by rewrite app_nil_r|].
  inversion_clear Hp as [|? ? Hc Hp']. unfold line_end at 1. rewrite Hc, IH by done.
  simpl. by rewrite <-app_assoc.
Qed.
Lemma cut_lines ls r : Forall no_lf ls → no_lf r →
  cut line_end [] (concat (map (λ l, l ++ [LF]) ls) ++ r) = (ls, r).
Proof.
  intros Hls Hr. induction Hls as [|l ls Hl Hls IH]; simpl; [by rewrite (cut_no_line r [])|].
  rewrite <-!app_assoc. simpl. by rewrite cut_line, IH.
Qed.

(** No two line feeds in a row, after [prev]. *)
Fixpoint calm (prev : ascii) (p : list ascii) : bool :=
  match p with
  | [] => true
  | c :: p' => negb (Ascii.eqb c LF && Ascii.eqb prev LF) && calm c p'
  end.

Lemma calm_no_lf p : no_lf p → ∀ prev, calm prev p = true.
Proof. induction 1 as [|c p Hc _ IH]; intros prev; [done|]. simpl. by rewrite Hc, IH. Qed.
Definition final (prev : ascii) (p : list ascii) : ascii := fold_left (λ _ c, c) p prev.
Lemma calm_app p : ∀ q prev, calm prev (p ++ q) = calm prev p && calm (final prev p) q.
Proof. induction p as [|c p IH]; intros q prev; [done|]. simpl. by rewrite IH, andb_assoc. Qed.
Lemma cut_calm p : ∀ acc x, calm (hd "0"%char acc) p = true →
  cut event_end acc (p ++ x) = cut event_end (rev p ++ acc) x.
Proof.
  induction p as [|c p IH]; intros acc x Hp; [done|]. simpl in *. apply andb_true_iff in Hp as [Hc Hp].
  replace (event_end acc c) with (@None (list ascii)).
  - rewrite IH by done. by rewrite <-app_assoc.
  - destruct acc as [|d acc]; [done|]. simpl in *. by destruct (Ascii.eqb c LF && Ascii.eqb d LF).
Qed.

(** A block of the event stream: no empty line, no line feed at the end. *)
Definition block (p : list ascii) : Prop :=
  calm "0" p = true ∧ ∃ q d, p = q ++ [d] ∧ Ascii.eqb d LF = false.

Lemma cut_block p x : block p →
  cut event_end [] (p ++ LF :: LF :: x) = (let (ps, r) := cut event_end [] x in (p :: ps, r)).
Proof.
  intros (Hc & q & d & -> & Hd). rewrite cut_calm by done. rewrite rev_app_distr, app_nil_r. simpl.
  rewrite Hd. simpl. rewrite rev_involutive. by destruct (cut event_end [] x).
Qed.
Lemma cut_blocks bs r : Forall block bs → calm "0" r = true →
  cut event_end [] (concat (map (λ b, b ++ [LF; LF]) bs) ++ r) = (bs, r).
Proof.
  intros Hbs Hr. induction Hbs as [|b bs Hb Hbs IH]; simpl.
  - rewrite <-(app_nil_r r) at 1. rewrite cut_calm by done. simpl. by rewrite app_nil_r, rev_involutive.
  - rewrite <-!app_assoc. simpl. by rewrite cut_block, IH.
Qed.

(** ** Events on the wire *)

(** What a relayer sends after the endpoint: messages, and comments that keep
    the connection alive. *)
Inductive frame : Type := Data (d : string) | Comment (c : string).
Definition event_block (event data : string) : list ascii :=
  chars ("event: " +:+ event) ++ LF :: chars ("data: " +:+ data).
Definition frame_block (f : frame) : list ascii :=
  match f with Data d => event_block "message" d | Comment c => ":"%char :: chars c end.
Definition frame_ok (f : frame) : Prop :=
  match f with Data d => no_lf (chars d) | Comment c => no_lf (chars c) end.
Definition frame_event (f : frame) : sse_event :=
  match f with
  | Data d => match json_parse d with Some v => Message v | None => Unparsed d end
  | Comment _ => Ignored
  end.

Lemma last_no_lf p : no_lf p → p ≠ [] → ∃ q d, p = q ++ [d] ∧ Ascii.eqb d LF = false.
Proof.
  intros Hp Hne. destruct (exists_last Hne) as (q & d & ->). exists q, d. split; [done|].
  apply Forall_app in Hp as [_ Hp]. by inversion Hp.
Qed.
Lemma no_lf_prefix s t : forallb (λ c, negb (Ascii.eqb c LF)) (chars s) = true →
  no_lf (chars t) → no_lf (chars (s +:+ t)).
Proof.
  intros Hs Ht. rewrite chars_app. apply Forall_app. split; [|done].
  induction (chars s) as [|c l IH]; constructor; simpl in Hs; apply andb_true_iff in Hs as [Hc Hl]; [|auto].
  by apply negb_true_iff.
Qed.
Lemma event_lines event data : no_lf (chars event) → no_lf (chars data) →
  sse_lines (event_block event data) = ["event: " +:+ event; "data: " +:+ data].
Proof.
  intros He Hd. unfold sse_lines, event_block.
  rewrite cut_line, cut_no_line by (by apply no_lf_prefix). cbn [rev app map].
  by rewrite !of_chars_chars.
Qed.
Lemma two_lines_block s t : no_lf (chars s) → no_lf (chars t) → t ≠ empty_str →
  s ≠ empty_str → block (chars s ++ LF :: chars t).
Proof.
  intros Hs Ht Hne Hns. split.
  - rewrite calm_app, calm_no_lf by done. cbn [andb calm]. rewrite calm_no_lf by done.
    destruct (last_no_lf (chars s) Hs) as (q & d & Hq & Hd); [by destruct s|].
    rewrite Hq. unfold final. rewrite fold_left_app. cbn. by rewrite Hd.
  - destruct (last_no_lf (chars t) Ht) as (q & d & Hq & Hd); [by destruct t|].
    exists (chars s ++ LF :: q), d. by rewrite Hq, <-app_assoc.
Qed.
Lemma event_is_block event data : no_lf (chars event) → no_lf (chars data) → block (event_block event data).
Proof. intros. apply two_lines_block; [by apply no_lf_prefix..|done|done]. Qed.
Lemma frame_is_block f : frame_ok f → block (frame_block f).
Proof.
  destruct f as [d|c]; intros Hf.
  { apply event_is_block; [|done]. repeat constructor. }
  assert (Hc : no_lf (":"%char :: chars c)) by (by constructor).
  split; [by apply calm_no_lf|by apply last_no_lf].
Qed.

Lemma event_fields event data : no_lf (chars event) → no_lf (chars data) →
  sse_fields (event_block event data) = (Some (trim (" " +:+ event)), data).
Proof.
  intros He Hd. unfold sse_fields. rewrite event_lines by done.
  rewrite (filter_cons_True (λ l, starts_with "event:" l = true)) by done.
  rewrite filter_cons_False, (filter_cons_True (λ l, starts_with "data:" l = true)), filter_nil by done.
  simpl map. cbn [join]. f_equal; [|by cbn; rewrite of_chars_chars].
  f_equal. f_equal. change (drop_s 6 ("event: " +:+ event)) with (of_chars (chars (" " +:+ event))).
  by rewrite of_chars_chars.
Qed.
Lemma endpoint_read path : no_lf (chars path) →
  read_event false (event_block "endpoint" path) = Endpoint (trim path).
Proof.
  intros Hp. unfold read_event. rewrite event_fields by first [done|repeat constructor].
  by rewrite bool_decide_true by reflexivity.
Qed.
Lemma frame_read f : frame_ok f → read_event true (frame_block f) = frame_event f.
Proof.
  destruct f as [d|c]; intros Hf; unfold read_event.
  - cbn [frame_block]. rewrite event_fields by first [done|repeat constructor].
    by rewrite andb_false_r, bool_decide_true by reflexivity.
  - unfold sse_fields, sse_lines. cbn [frame_block]. rewrite cut_no_line by (by constructor).
    cbn [rev app map]. by rewrite !filter_cons_False.
Qed.

(** C31: However the network cuts the event stream into chunks, the reader
    delivers the endpoint and then every message once, in order, with its
    JSON; comments and an incomplete tail deliver nothing. *)
Theorem sse_delivery (path : string) (fs : list frame) (rest : list ascii) (chunks : list string) :
  no_lf (chars path) → Forall frame_ok fs → calm "0" rest = true →
  concat (map chars chunks) =
    concat (map (λ b, b ++ [LF; LF]) (event_block "endpoint" path :: map frame_block fs)) ++ rest →
  sse_events chunks = Endpoint (trim path) :: map frame_event fs.
Proof.
  intros Hp Hfs Hr Hin. unfold sse_events. rewrite feed_concat by done. simpl app at 1. rewrite Hin.
  rewrite cut_blocks; [| |done].
  - cbn [fst read_events]. rewrite endpoint_read by done. f_equal.
    clear Hin. induction Hfs as [|f fs Hf Hfs IH]; [done|]. cbn [map read_events].
    rewrite frame_read by done. f_equal. rewrite <-IH. f_equal.
    destruct f as [d|]; cbn; [by destruct (json_parse d)|done].
  - constructor. { apply event_is_block; [|done]. repeat constructor. }
    apply Forall_map. eapply Forall_impl; [done|]. apply frame_is_block.
Qed.

Lemma stdin_delivery (lines : list string) (rest : list ascii) (chunks : list string) :
  Forall (λ l, no_lf (chars l)) lines → no_lf rest →
  concat (map chars chunks) = concat (map (λ l, chars l ++ [LF]) lines) ++ rest →
  readStdinLines chunks = map of_chars (filter (λ l, l ≠ []) (map (λ l, strip_cr (chars l)) lines)).
Proof.
  intros Hl Hr Hin. unfold readStdinLines, stdin_lines. rewrite feed_concat by done. simpl app at 1.
  rewrite Hin. replace (map (λ l, chars l ++ [LF]) lines) with (map (λ l, l ++ [LF]) (map chars lines))
    by (by rewrite map_map). rewrite cut_lines; [|by apply Forall_map|done].
  cbn [fst]. by rewrite map_map.
Qed.
