(* ===== verification/Hex.v ===== *)
(** * Encoding helpers of the SDK (packages/sdk/src/utils.ts)

    [hexToBytes], [bytesToHex], [u64ToLeHex], [sanitizeServerError] and
    [normalizeServerUrl].  A [Uint8Array] is a list of 8-bit [ascii]. *)
From Stdlib Require Import Ascii.
From S2P Require Import Prelude JsText.
Local Open Scope nat_scope.

Notation byte := ascii (only parsing).

Module Hex.

(** [n.toString(16)] for one nibble *)
Definition hex_digit (n : N) : ascii :=
  if (n <? 10)%N then ascii_of_N (48 + n) else ascii_of_N (87 + n).
(** [b.toString(16).padStart(2, "0")] *)
Definition byte_hex (b : byte) : list ascii := [hex_digit (code b / 16)%N; hex_digit (code b mod 16)%N].
(** [parseInt(c, 16)] for one hexadecimal digit *)
Definition hex_val (c : ascii) : N :=
  if is_digit c then (code c - 48)%N else (code (lower_ascii c) - 87)%N.

Definition bytesToHex (bs : list byte) : string := of_chars (flat_map byte_hex bs).

Inductive hex_error : Type :=
| EmptyHex
| OddLengthHex (n : nat)
| NonHexChars.

Definition strip_0x (hex : string) : string :=
  if starts_with "0x" hex || starts_with "0X" hex then drop_s 2 hex else hex.

Fixpoint hex_pairs (l : list ascii) : list byte :=
  match l with
  | a :: b :: l' => ascii_of_N (16 * hex_val a + hex_val b) :: hex_pairs l'
  | _ => []
  end.

Definition hexToBytes (hex : string) : hex_error + list byte :=
  let clean := strip_0x hex in
  guard_or negb (slen clean =? 0) else EmptyHex;
  guard_or (slen clean mod 2 =? 0) else OddLengthHex (slen clean);
  guard_or sforallb is_hex clean else NonHexChars;
  inr (hex_pairs (chars clean)).

(** The messages of [hexToBytes]. *)
Definition hex_message (e : hex_error) : string :=
  match e with
  | EmptyHex => "hexToBytes: empty hex string"
  | OddLengthHex n => "hexToBytes: odd-length hex string (length=" +:+ pretty n +:+ "); hex must have an even number of digits"
  | NonHexChars => "hexToBytes: input contains non-hex characters"
  end.

(** [Number((value >> (i * 8n)) & 0xffn)] *)
Definition le_byte (value : Z) (i : nat) : byte :=
  ascii_of_N (Z.to_N (Z.land (Z.shiftr value (8 * Z.of_nat i)) 255)).

Definition u64ToLeHex (value : Z) : Z + string :=
  if (value <? 0)%Z || (18446744073709551615 <? value)%Z then inl value
  else inr (of_chars (flat_map (λ i, byte_hex (le_byte value i)) (seq 0 8))).

(** The little-endian value of a byte string, as [account::seal_approve]
    reads it back. *)
Fixpoint le_value (bs : list byte) : Z :=
  match bs with
  | [] => 0
  | b :: bs' => Z.of_N (code b) + 256 * le_value bs'
  end%Z.

(** ** Properties of the encoders *)

Lemma byte_hex_spec (b : byte) :
  ∃ h l, byte_hex b = [h; l] ∧ is_hex h = true ∧ is_hex l = true ∧
    ascii_of_N (16 * hex_val h + hex_val l) = b ∧
    lower_ascii h = h ∧ lower_ascii l = l ∧ h ≠ "x"%char ∧ l ≠ "x"%char ∧ h ≠ "X"%char ∧ l ≠ "X"%char.
Proof.
  destruct b as [b0 b1 b2 b3 b4 b5 b6 b7].
  eexists _, _. split; [reflexivity|].
  destruct b0, b1, b2, b3, b4, b5, b6, b7; repeat split; (reflexivity || discriminate).
Qed.

Lemma hex_digit_val (c : ascii) :
  is_hex c = true → hex_digit (hex_val c) = lower_ascii c ∧ (hex_val c < 16)%N.
Proof.
  destruct c as [b0 b1 b2 b3 b4 b5 b6 b7].
  destruct b0, b1, b2, b3, b4, b5, b6, b7; vm_compute; intros; (done || discriminate).
Qed.

Lemma flat_map_cons {A B} (f : A → list B) a l : flat_map f (a :: l) = f a ++ flat_map f l.
Proof. done. Qed.

Lemma hex_pairs_flat_map bs : hex_pairs (flat_map byte_hex bs) = bs.
Proof.
  induction bs as [|b bs IH]; [done|]. rewrite flat_map_cons.
  destruct (byte_hex_spec b) as (h & l & -> & _ & _ & Hb & _). simpl. by rewrite Hb, IH.
Qed.

Lemma flat_map_byte_hex_hex bs : forallb is_hex (flat_map byte_hex bs) = true.
Proof.
  induction bs as [|b bs IH]; [done|]. rewrite flat_map_cons.
  destruct (byte_hex_spec b) as (h & l & -> & Hh & Hl & _). simpl. by rewrite Hh, Hl, IH.
Qed.

Lemma length_flat_map_byte_hex bs : length (flat_map byte_hex bs) = 2 * length bs.
Proof. induction bs as [|b bs IH]; [done|]. rewrite flat_map_cons, length_app, IH. simpl. lia. Qed.

Lemma slen_bytesToHex bs : slen (bytesToHex bs) = 2 * length bs.
Proof. unfold bytesToHex. by rewrite slen_of_chars, length_flat_map_byte_hex. Qed.

Lemma bytesToHex_no_prefix bs : strip_0x (bytesToHex bs) = bytesToHex bs.
Proof.
  destruct bs as [|b bs]; [done|]. unfold strip_0x, bytesToHex. rewrite flat_map_cons.
  destruct (byte_hex_spec b) as (h & l & -> & _ & _ & _ & _ & _ & _ & Hx & _ & HX).
  unfold starts_with. rewrite chars_of_chars.
  apply Ascii.eqb_neq in Hx, HX. rewrite Ascii.eqb_sym in Hx, HX.
  cbn [app prefix_of chars]. by rewrite Hx, HX, !andb_false_r.
Qed.

Lemma bytesToHex_hex_pairs l :
  forallb is_hex l = true → length l mod 2 = 0 →
  flat_map byte_hex (hex_pairs l) = map lower_ascii l.
Proof.
  revert l. fix IH 1. intros [|a [|b l]] Hl Hev; [done|done|].
  simpl in Hl. split_andb. simpl hex_pairs. rewrite flat_map_cons.
  rewrite IH; [|done|].
  - destruct (hex_digit_val a) as [Ha Ha']; [done|]. destruct (hex_digit_val b) as [Hb Hb']; [done|].
    unfold byte_hex, code. rewrite N_ascii_embedding by lia.
    replace ((16 * hex_val a + hex_val b) / 16)%N with (hex_val a)
      by (apply (N.div_unique _ _ _ (hex_val b)); lia).
    replace ((16 * hex_val a + hex_val b) mod 16)%N with (hex_val b)
      by (apply (N.mod_unique _ _ (hex_val a)); lia).
    by rewrite Ha, Hb.
  - replace (length (a :: b :: l)) with (length l + 1 * 2) in Hev by (simpl; lia).
    by rewrite Nat.Div0.mod_add in Hev.
Qed.

(** Success of the strict decoder, in one equivalence. *)
Lemma hexToBytes_inr hex bs :
  hexToBytes hex = inr bs ↔
  let clean := strip_0x hex in
  clean ≠ empty_str ∧ slen clean mod 2 = 0 ∧ sforallb is_hex clean = true ∧
  bs = hex_pairs (chars clean).
Proof.
  unfold hexToBytes. cbv zeta. rewrite !ensure_inr.
  split.
  - intros (H1 & H2 & H3 & H4). bool_to_prop. apply Nat.eqb_neq in H1. apply Nat.eqb_eq in H2.
    repeat split; [|done..|by simplify_eq]. intros E. rewrite E in H1. done.
  - intros (H1 & H2 & H3 & ->). repeat split; [| by apply Nat.eqb_eq|done].
    apply negb_true_iff, Nat.eqb_neq. destruct (strip_0x hex); [done|]. simpl. lia.
Qed.

Lemma le_byte_value value i :
  (0 <= value)%Z → Z.of_N (code (le_byte value i)) = ((value / 256 ^ Z.of_nat i) mod 256)%Z.
Proof.
  intros Hv. unfold le_byte, code.
  change 255%Z with (Z.ones 8). rewrite Z.land_ones by lia.
  rewrite Z.shiftr_div_pow2 by lia. rewrite Z.pow_mul_r by lia. change (2 ^ 8)%Z with 256%Z.
  assert (0 <= (value / 256 ^ Z.of_nat i) mod 256 < 256)%Z by (apply Z.mod_pos_bound; lia).
  rewrite N_ascii_embedding by lia. lia.
Qed.

Lemma le_value_seq value n k :
  (0 <= value)%Z →
  le_value (map (le_byte value) (seq k n)) =
  ((value / 256 ^ Z.of_nat k) mod 256 ^ Z.of_nat n)%Z.
Proof.
  intros Hv. revert k. induction n as [|n IH]; intros k; simpl seq; simpl map; simpl le_value.
  { by rewrite Z.mod_1_r. }
  rewrite IH, le_byte_value by done.
  rewrite !Nat2Z.inj_succ, !Z.pow_succ_r by lia.
  rewrite (Z.mul_comm 256 (256 ^ Z.of_nat k)), <-Z.div_div by lia.
  set (x := (value / 256 ^ Z.of_nat k)%Z). rewrite Z.rem_mul_r by lia. done.
Qed.

Lemma flat_map_map {A B C} (f : A → B) (g : B → list C) l :
  flat_map g (map f l) = flat_map (λ x, g (f x)) l.
Proof. induction l; simpl; by f_equal. Qed.

Lemma u64ToLeHex_bytes value :
  (0 <= value < 2 ^ 64)%Z →
  u64ToLeHex value = inr (bytesToHex (map (le_byte value) (seq 0 8))).
Proof.
  intros Hv. unfold u64ToLeHex, bytesToHex. rewrite flat_map_map.
  case_match eqn:E; [|done]. apply orb_true_iff in E as [E|E]; apply Z.ltb_lt in E; lia.
Qed.

Lemma le_value_u64 value :
  (0 <= value < 2 ^ 64)%Z → le_value (map (le_byte value) (seq 0 8)) = value.
Proof.
  intros Hv. rewrite le_value_seq by lia. simpl Z.of_nat.
  rewrite Z.div_1_r. apply Z.mod_small. lia.
Qed.

Lemma u64ToLeHex_slen v h : u64ToLeHex v = inr h → slen h = 16.
Proof. unfold u64ToLeHex. intros. case_match; simplify_eq. by rewrite slen_of_chars. Qed.

#[export] Hint Rewrite slen_bytesToHex bytesToHex_no_prefix hex_pairs_flat_map : memwal.

(** Decoding the SDK's hexadecimal encoding of a non-empty byte array
    gives the array back, with or without a [0x] prefix. *)
Theorem hexToBytes_bytesToHex (bs : list byte) :
  bs ≠ [] →
  hexToBytes (bytesToHex bs) = inr bs ∧ hexToBytes ("0x" +:+ bytesToHex bs) = inr bs.
Proof.
  intros Hne.
  assert (Hc : bytesToHex bs ≠ empty_str).
  { intros E. apply (f_equal slen) in E. rewrite slen_bytesToHex in E.
    destruct bs; simpl in E; [done|lia]. }
  assert (Hev : slen (bytesToHex bs) mod 2 = 0).
  { rewrite slen_bytesToHex, Nat.mul_comm. apply Nat.Div0.mod_mul. }
  assert (Hhex : sforallb is_hex (bytesToHex bs) = true).
  { unfold sforallb, bytesToHex. rewrite chars_of_chars. apply flat_map_byte_hex_hex. }
  assert (Hp : bs = hex_pairs (chars (bytesToHex bs))).
  { unfold bytesToHex. by rewrite chars_of_chars, hex_pairs_flat_map. }
  split; apply hexToBytes_inr; cbv zeta.
  - by rewrite bytesToHex_no_prefix.
  - replace (strip_0x ("0x" +:+ bytesToHex bs)) with (bytesToHex bs); [done|].
    unfold strip_0x, starts_with, drop_s. rewrite chars_app. simpl.
    by rewrite drop_0, of_chars_chars.
Qed.

Lemma hexToBytes_bytesToHex_witness :
  hexToBytes (bytesToHex ["A"; "z"]%char) = inr ["A"; "z"]%char ∧
  hexToBytes ("0x" +:+ bytesToHex ["A"; "z"]%char) = inr ["A"; "z"]%char.
Proof. apply hexToBytes_bytesToHex. discriminate. Defined.

(** The strict decoder accepts a string exactly when, after one [0x]
    prefix, it is a non-empty even-length string of hexadecimal digits, and
    then re-encoding the bytes gives those digits in lower case; every other
    input is rejected with the error of the first failing check. *)
Theorem hexToBytes_strict (hex : string) :
  let clean := strip_0x hex in
  match hexToBytes hex with
  | inr bs => clean ≠ empty_str ∧ sforallb is_hex clean = true ∧ bytesToHex bs = lower clean ∧
              2 * length bs = slen clean
  | inl EmptyHex => clean = empty_str
  | inl (OddLengthHex n) => n = slen clean ∧ n mod 2 ≠ 0
  | inl NonHexChars => slen clean mod 2 = 0 ∧ sforallb is_hex clean = false
  end.
Proof.
  cbv zeta. destruct (hexToBytes hex) as [e|bs] eqn:E.
  - unfold hexToBytes in E. cbv zeta in E.
    repeat (apply ensure_inl in E as [[E1 <-]|[? E]]); try done; bool_to_prop.
    + apply Nat.eqb_eq in E1. by destruct (strip_0x hex).
    + by apply Nat.eqb_neq in E1.
    + by apply Nat.eqb_eq in H0.
  - apply hexToBytes_inr in E. cbv zeta in E. destruct E as (H1 & H2 & H3 & ->).
    assert (Hb : bytesToHex (hex_pairs (chars (strip_0x hex))) = lower (strip_0x hex)).
    { unfold bytesToHex, lower, smap. f_equal. apply bytesToHex_hex_pairs; [done|].
      by rewrite length_chars. }
    repeat split; [done..|].
    rewrite <-slen_bytesToHex, Hb. unfold lower, smap.
    by rewrite slen_of_chars, length_map, length_chars.
Qed.

(** The 16 digits of a u64 are the hexadecimal of its 8 bytes. *)
Lemma hexToBytes_u64 (value : Z) :
  (0 <= value < 2 ^ 64)%Z → hexToBytes (bytesToHex (map (le_byte value) (seq 0 8))) =
    inr (map (le_byte value) (seq 0 8)).
Proof.
  intros Hv. apply hexToBytes_inr. cbv zeta. rewrite bytesToHex_no_prefix.
  unfold bytesToHex. rewrite chars_of_chars, hex_pairs_flat_map.
  unfold sforallb. rewrite chars_of_chars, slen_of_chars, flat_map_byte_hex_hex.
  rewrite length_flat_map_byte_hex. repeat split. discriminate.
Qed.

Lemma u64ToLeHex_inl (value : Z) :
  ¬ (0 <= value < 2 ^ 64)%Z → u64ToLeHex value = inl value.
Proof. intros Hv. unfold u64ToLeHex. case_match eqn:E; [done|]. exfalso. apply Hv. bool_to_prop. lia. Qed.

Lemma u64ToLeHex_range (value : Z) h : u64ToLeHex value = inr h → (0 <= value < 2 ^ 64)%Z ∧ slen h = 16.
Proof.
  intros Hh. destruct (decide (0 <= value < 2 ^ 64)%Z) as [Hv|Hv].
  - split; [done|]. rewrite u64ToLeHex_bytes in Hh by done. apply (inj inr) in Hh as <-.
    by rewrite slen_bytesToHex, length_map, length_seq.
  - by rewrite u64ToLeHex_inl in Hh.
Qed.

(** [u64ToLeHex] encodes exactly the u64 range: 16 hexadecimal digits
    whose bytes read back little-endian give the value; every other bigint
    is rejected. *)
Theorem u64ToLeHex_roundtrip (value : Z) :
  match u64ToLeHex value with
  | inr h => (0 <= value < 2 ^ 64)%Z ∧ slen h = 16 ∧
             ∃ bs, hexToBytes h = inr bs ∧ length bs = 8 ∧ le_value bs = value
  | inl v => v = value ∧ ¬ (0 <= value < 2 ^ 64)%Z
  end.
Proof.
  destruct (decide (0 <= value < 2 ^ 64)%Z) as [Hv|Hv]; [|by rewrite u64ToLeHex_inl].
  destruct (u64ToLeHex value) as [|h] eqn:Eh; [by rewrite u64ToLeHex_bytes in Eh|].
  destruct (u64ToLeHex_range value h Eh) as [_ Hl]. split; [exact Hv|]. split; [exact Hl|].
  rewrite u64ToLeHex_bytes in Eh by done. apply (inj inr) in Eh as <-.
  exists (map (le_byte value) (seq 0 8)). rewrite length_map, length_seq.
  split; [by apply hexToBytes_u64|]. split; [done|by apply le_value_u64].
Qed.

End Hex.
