(* ===== verification/SealId.v ===== *)
(** * SEAL identities, persistence fences and approval PTBs

    - [services/server/scripts/sidecar/seal-identity.ts]: the identity a
      relayer encryption is performed under;
    - [packages/sdk/src/manual.ts] ([fetchSealIdentity], [sealEncrypt]): the
      same computation on the client-side path;
    - [services/server/scripts/sidecar/blob-metadata.ts]: the fence that must
      still hold when the blob becomes user-owned;
    - [services/server/scripts/sidecar/seal-ptb.ts]: validation of a decrypt
      request and the [seal_approve] transaction.

    [normalizeSuiAddress], [bcs.u64] and [EncryptedObject.parse] belong to
    the @mysten packages: they are the operations of the class [SuiSdk], and
    what the code relies on is the class [SuiSdkLaws]. *)
From Stdlib Require Import Ascii QArith.
From S2P Require Import Prelude JsText JsonParse Hex.
Local Open Scope nat_scope.
Import Hex.

(** ** The @mysten operations *)

(** [a.padStart(64, "0")] *)
Definition pad64 (l : list ascii) : list ascii := replicate (64 - length l) "0"%char ++ l.
(** Lower case, [0x]-prefixed, left-padded to 64 digits. *)
Definition canonical_hex (a : string) : string := of_chars (pad64 (chars (lower (strip_0x a)))).
Definition canonical_address (a : string) : string := "0x" +:+ canonical_hex a.

Class SuiSdk : Type := {
  normalizeSuiAddress : string → string;
  (** [toHex(bcs.u64().serialize(v).toBytes())]; [None] when it throws *)
  bcs_u64_hex : Z → option string;
  (** [EncryptedObject.parse(Buffer.from(data, "base64"))]: the package and
      the id of the ciphertext, [None] when it throws *)
  parse_encrypted : string → option (string * string);
}.

(** Documented behaviour: [normalizeSuiAddress] canonicalises a valid
    address, and BCS encodes a u64 as eight little-endian bytes and rejects
    everything else. *)
Class SuiSdkLaws `{SuiSdk} : Prop := {
  normalize_valid a : is_sui_address a = true → normalizeSuiAddress a = canonical_address a;
  bcs_u64_spec v : (0 <= v < 2 ^ 64)%Z →
    bcs_u64_hex v = Some (bytesToHex (map (le_byte v) (seq 0 8)));
  bcs_u64_range v h : bcs_u64_hex v = Some h → (0 <= v < 2 ^ 64)%Z;
}.

(** A concrete implementation, used by the witnesses. *)
#[export] Instance example_sdk : SuiSdk := {|
  normalizeSuiAddress := canonical_address;
  bcs_u64_hex v := match u64ToLeHex v with inr h => Some h | inl _ => None end;
  parse_encrypted data := Some ("0x7", data);
|}.
#[export] Instance example_sdk_laws : SuiSdkLaws.
Proof.
  split; simpl; [done| |].
  - intros v Hv. by rewrite u64ToLeHex_bytes.
  - intros v h. pose proof (u64ToLeHex_range v) as Hr. destruct (u64ToLeHex v); naive_solver.
Qed.

Lemma chars_lower s : chars (lower s) = map lower_ascii (chars s).
Proof. unfold lower, smap. by rewrite chars_of_chars. Qed.

Lemma sui_address_strip a :
  is_sui_address a = true → strip_0x a = drop_s 2 a ∧ slen (drop_s 2 a) ≤ 64.
Proof.
  unfold is_sui_address, strip_0x. intros. bool_to_prop.
  match goal with H : starts_with _ _ = true |- _ => rewrite H end.
  split; [done|]. unfold drop_s. rewrite slen_of_chars, length_drop, length_chars.
  match goal with H : (_ <=? 66) = true |- _ => apply Nat.leb_le in H end. lia.
Qed.

Lemma slen_canonical_hex a : slen (strip_0x a) ≤ 64 → slen (canonical_hex a) = 64.
Proof.
  intros Ha. unfold canonical_hex, pad64.
  rewrite slen_of_chars, length_app, length_replicate, chars_lower, length_map, length_chars.
  lia.
Qed.

Lemma canonical_hex_length a : is_sui_address a = true → slen (canonical_hex a) = 64.
Proof.
  intros Ha. apply slen_canonical_hex. destruct (sui_address_strip a Ha) as [-> ?]. done.
Qed.

(** ** [BigInt(raw)] *)
Definition radix_digit (r : N) (c : ascii) : option Z :=
  if is_hex c then (if (hex_val c <? r)%N then Some (Z.of_N (hex_val c)) else None) else None.
Fixpoint radix_value (r : N) (acc : Z) (l : list ascii) : option Z :=
  match l with
  | [] => Some acc
  | c :: l' => d ← radix_digit r c; radix_value r (Z.of_N r * acc + d)%Z l'
  end.
Definition nonempty_value (r : N) (l : list ascii) : option Z :=
  match l with [] => None | _ => radix_value r 0 l end.
(** StringToBigInt: sign only before decimal digits, [0x]/[0o]/[0b] prefixes *)
Definition string_to_bigint (s : string) : option Z :=
  match trim_chars (chars s) with
  | [] => Some 0%Z
  | "-"%char :: l => Z.opp <$> nonempty_value 10 l
  | "+"%char :: l => nonempty_value 10 l
  | "0"%char :: "x"%char :: l | "0"%char :: "X"%char :: l => nonempty_value 16 l
  | "0"%char :: "o"%char :: l | "0"%char :: "O"%char :: l => nonempty_value 8 l
  | "0"%char :: "b"%char :: l | "0"%char :: "B"%char :: l => nonempty_value 2 l
  | l => radix_value 10 0 l
  end.
(** [None] is a thrown [RangeError], [SyntaxError] or [TypeError].  An array
    is converted to its text first (numbers in it that are no safe integers
    are taken to fail). *)
Definition to_bigint (v : json) : option Z :=
  match v with
  | JNum q => let r := Qred q in if (Qden r =? 1)%positive then Some (Qnum r) else None
  | JStr s => string_to_bigint s
  | JBool b => Some (if b then 1 else 0)%Z
  | JArr _ => string_to_bigint (js_string v)
  | _ => None
  end.

(** ** The relayer path (seal-identity.ts) *)
Inductive SealEncryptPurpose : Type := normal | migration | legacy_seed.
#[export] Instance purpose_dec : EqDecision SealEncryptPurpose.
Proof. solve_decision. Defined.

Inductive seal_identity_error : Type :=
| ReadFailed
| NotMemWalAccount
| NoOwnerField
| OwnerMismatch
| NoActiveField
| NoQuarantineField
| AdminQuarantined
| NotActive
| NoCounter
| BadCounter.

Record seal_identity : Type := SealIdentity {
  si_owner : string;
  si_package : string;
  si_counter : Z;
}.

Definition is_json_bool (v : json) : bool := match v with JBool _ => true | _ => false end.
Definition is_nullish (v : json) : bool := match v with JUndefined | JNull => true | _ => false end.

Section Identity.
Context `{SuiSdk}.

Definition account_type_matches (objectType : json) (immutablePackageId : string) : bool :=
  match objectType with
  | JStr t =>
      match split2 t with
      | [pkg; m; s] =>
          seqb (normalizeSuiAddress pkg) (normalizeSuiAddress immutablePackageId) &&
          seqb m "account" && seqb s "MemWalAccount"
      | _ => false
      end
  | _ => false
  end.

(** [res] is what [client.getObject] resolves to. *)
Definition fetchSealEncryptIdentity (expectedOwner immutablePackageId : string)
    (purpose : SealEncryptPurpose) (res : json) : seal_identity_error + seal_identity :=
  let object := jget "object" res in
  let fields := jget "json" object in
  guard_or account_type_matches (jget "type" object) immutablePackageId else NotMemWalAccount;
  match jget "owner" fields with
  | JStr owner =>
      guard_or seqb (normalizeSuiAddress owner) (normalizeSuiAddress expectedOwner)
        else OwnerMismatch;
      match jget "active" fields with
      | JBool active =>
          let adminQuarantined := jget "admin_quarantined" fields in
          guard_or (is_json_bool adminQuarantined ||
            (bool_decide (purpose = legacy_seed) && is_undefined adminQuarantined))
            else NoQuarantineField;
          guard_or negb (truthy adminQuarantined) else AdminQuarantined;
          guard_or (active || bool_decide (purpose = migration)) else NotActive;
          let raw := jget "access_counter_version" fields in
          guard_or negb (is_nullish raw) else NoCounter;
          match to_bigint raw with
          | Some counter =>
              inr (SealIdentity (normalizeSuiAddress owner)
                     (normalizeSuiAddress immutablePackageId) counter)
          | None => inl BadCounter
          end
      | _ => inl NoActiveField
      end
  | _ => inl NoOwnerField
  end.

(** [None]: the BCS serializer rejects the counter. *)
Definition buildSealEncryptId (owner : string) (counter : Z) : option string :=
  let ownerHex := drop_s 2 (normalizeSuiAddress owner) in
  h ← bcs_u64_hex counter; Some (ownerHex +:+ h).

End Identity.

(** ** The client-side path (manual.ts) *)
Inductive manual_identity_error : Type :=
| MNotMemWalAccount
| MNotActive
| MNoOwner
| MInvalidOwner
| MNoCounter
| MBadCounter.

(** [/^[0-9a-fA-F]{1,64}$/] *)
Definition is_hex64 (s : string) : bool :=
  sforallb is_hex s && (1 <=? slen s) && (slen s <=? 64).

(** [packageId] is [this.config.packageId]; [res] what [suiClient.getObject]
    resolves to, in either client generation. *)
Definition fetchSealIdentity (packageId : string) (res : json)
    : manual_identity_error + (string * Z) :=
  let object := jget "object" res in
  let data := jget "data" res in
  let fields := coalesce (jget "json" object) (jget "fields" (jget "content" data)) in
  let objectType := coalesce (coalesce (jget "type" object) (jget "type" data))
                             (jget "type" (jget "content" data)) in
  let typeParts := match objectType with JStr t => split2 t | _ => [] end in
  let typePackageHex := strip_0x (default empty_str (typeParts !! 0)) in
  let configuredPackageHex := strip_0x packageId in
  let packageMatches :=
    is_hex64 typePackageHex && is_hex64 configuredPackageHex &&
    seqb (lower (of_chars (pad64 (chars typePackageHex))))
         (lower (of_chars (pad64 (chars configuredPackageHex)))) in
  guard_or (packageMatches && bool_decide (typeParts !! 1 = Some "account") &&
            bool_decide (typeParts !! 2 = Some "MemWalAccount")) else MNotMemWalAccount;
  guard_or (match jget "active" fields with JBool b => b | _ => false end) else MNotActive;
  match jget "owner" fields with
  | JStr owner =>
      let ownerHex := strip_0x owner in
      guard_or is_hex64 ownerHex else MInvalidOwner;
      let rawCounter := jget "access_counter_version" fields in
      guard_or negb (is_nullish rawCounter) else MNoCounter;
      match to_bigint rawCounter with
      | Some counter => inr (lower (of_chars (pad64 (chars ownerHex))), counter)
      | None => inl MBadCounter
      end
  | _ => inl MNoOwner
  end.

(** The id [sealEncrypt] encrypts under; [None]: [u64ToLeHex] throws. *)
Definition sealScopedId (namespace ownerHex : string) (counter : Z) : option string :=
  match u64ToLeHex counter with
  | inr h => Some (bytesToHex (utf8 namespace) +:+ ownerHex +:+ h)
  | inl _ => None
  end.

(** [bytesToBase64]: the binary string is assembled in chunks of 0x8000
    bytes before [btoa]. *)
Fixpoint chunked (fuel n : nat) (l : list byte) : list (list byte) :=
  match fuel, l with
  | S f, _ :: _ => take n l :: chunked f n (drop n l)
  | _, _ => []
  end.
Definition bytesToBase64 (btoa : string → string) (bytes : list byte) : string :=
  btoa (of_chars (mjoin (chunked (length bytes) (2 ^ 15) bytes))).

(** ** Persistence fences (blob-metadata.ts) *)
Inductive seal_fence : Type :=
| FenceV1
| FenceV1New (accountId registryId policyPackageId : string) (idBytes : list byte).

Inductive fence_error : Type :=
| V1Disabled
| AbiNotExplicit
| BadAccountId
| BadRegistryId
| BadPolicyPackageId
| PolicyNotConfigured
| PolicyMismatch
| BadPackageId
| MissingData
| InvalidEncryptedData
| CiphertextPackageMismatch
| InvalidSealId.

(** [type SealAbi = "v1" | "v1-new"], read off an untyped body *)
Inductive SealAbi : Type := AbiV1 | AbiV1New.
Definition sealAbi_of (v : json) : option SealAbi :=
  match v with
  | JStr s => if seqb s "v1" then Some AbiV1 else if seqb s "v1-new" then Some AbiV1New else None
  | _ => None
  end.
Lemma sealAbi_of_v1 v : sealAbi_of v = Some AbiV1 ↔ v = JStr "v1".
Proof.
  split; [|by intros ->]. unfold sealAbi_of. intros. case_all.
  match goal with H : seqb _ "v1" = true |- _ => apply seqb_eq in H end. by subst.
Qed.
Lemma sealAbi_of_v1new v : sealAbi_of v = Some AbiV1New ↔ v = JStr "v1-new".
Proof.
  split; [|by intros ->]. unfold sealAbi_of. intros. case_all.
  match goal with H : seqb _ "v1-new" = true |- _ => apply seqb_eq in H end. by subst.
Qed.

Record seal_policy : Type := SealPolicy {
  allowLegacySealAbi : bool;
  sp_policyPackageId : string;
}.

Definition sui_address_of (v : json) : option string :=
  match v with JStr s => if is_sui_address s then Some s else None | _ => None end.

(** [/^(?:[0-9a-fA-F]{2})+$/] *)
Definition is_hex_bytes (s : string) : bool :=
  sforallb is_hex s && negb (is_empty s) && (slen s mod 2 =? 0).

(** One [moveCall] of a programmable transaction block. *)
Inductive ptb_arg : Type :=
| PureBytes (bs : list byte)
| ObjectRef (id : string).
Record move_call : Type := MoveCall { mc_target : string; mc_args : list ptb_arg }.

Section Fence.
Context `{SuiSdk}.

Definition parseSealPersistenceFence (input : json) (immutablePackageId : json)
    (policy : seal_policy) : fence_error + seal_fence :=
  match sealAbi_of (jget "sealAbi" input) with
  | Some AbiV1 =>
      guard_or allowLegacySealAbi policy else V1Disabled;
      inr FenceV1
  | Some AbiV1New =>
      match sui_address_of (jget "accountId" input), sui_address_of (jget "registryId" input),
            sui_address_of (jget "policyPackageId" input) with
      | None, _, _ => inl BadAccountId
      | Some _, None, _ => inl BadRegistryId
      | Some _, Some _, None => inl BadPolicyPackageId
      | Some accountId, Some registryId, Some policyPackageId =>
          guard_or is_sui_address (sp_policyPackageId policy) else PolicyNotConfigured;
          guard_or seqb (normalizeSuiAddress policyPackageId)
                        (normalizeSuiAddress (sp_policyPackageId policy)) else PolicyMismatch;
          match sui_address_of immutablePackageId with
          | None => inl BadPackageId
          | Some pkg =>
              match jget "data" input with
              | JStr data =>
                  guard_or negb (is_empty data) else MissingData;
                  match parse_encrypted data with
                  | None => inl InvalidEncryptedData
                  | Some (cpkg, cid) =>
                      guard_or seqb (normalizeSuiAddress cpkg) (normalizeSuiAddress pkg)
                        else CiphertextPackageMismatch;
                      guard_or is_hex_bytes cid else InvalidSealId;
                      inr (FenceV1New (normalizeSuiAddress accountId)
                             (normalizeSuiAddress registryId)
                             (normalizeSuiAddress (sp_policyPackageId policy))
                             (hex_pairs (chars cid)))
                  end
              | _ => inl MissingData
              end
          end
      end
  | None => inl AbiNotExplicit
  end.

Definition appendSealPersistenceFence (tx : list move_call) (fence : seal_fence)
    : list move_call :=
  match fence with
  | FenceV1 => tx
  | FenceV1New accountId registryId policyPackageId idBytes =>
      tx ++ [MoveCall (policyPackageId +:+ "::account::seal_encrypt_fence")
               [PureBytes idBytes; ObjectRef registryId; ObjectRef accountId]]
  end.

(** ** Decrypt requests (seal-ptb.ts): [None] means the arguments are valid *)
Definition sealApproveArgsError (body : json) (policy : seal_policy) : option string :=
  let packageId := jget "packageId" body in
  let policyPackageId := jget "policyPackageId" body in
  let accountId := jget "accountId" body in
  let registryId := jget "registryId" body in
  if negb (truthy packageId) || negb (truthy accountId)
  then Some "Missing required fields: packageId, accountId" else
  match sui_address_of packageId with
  | None => Some "Invalid packageId format"
  | Some pkg =>
      if negb (match accountId with JStr a => is_full_address a | _ => false end)
      then Some "Invalid accountId format" else
      if negb (is_undefined policyPackageId) &&
         match sui_address_of policyPackageId with None => true | Some _ => false end
      then Some "Invalid policyPackageId format" else
      let requested := default pkg (sui_address_of policyPackageId) in
      match sealAbi_of (jget "sealAbi" body) with
      | Some AbiV1 =>
          if negb (allowLegacySealAbi policy) then Some "sealAbi=v1 is disabled on this sidecar" else
          if truthy registryId
          then Some "registryId is not valid when sealAbi=v1 (2-arg seal_approve)" else
          if negb (seqb (normalizeSuiAddress requested) (normalizeSuiAddress pkg))
          then Some "policyPackageId must equal packageId when sealAbi=v1" else None
      | Some AbiV1New =>
          if negb (truthy registryId)
          then Some "Missing registryId (required when sealAbi=v1-new)" else
          if negb (match registryId with JStr r => is_full_address r | _ => false end)
          then Some "Invalid registryId format" else
          if negb (is_sui_address (sp_policyPackageId policy))
          then Some "Sidecar SEAL policy package is not configured" else
          if negb (seqb (normalizeSuiAddress requested)
                        (normalizeSuiAddress (sp_policyPackageId policy)))
          then Some "policyPackageId does not match the configured SEAL policy package" else None
      | None => Some "Missing or invalid sealAbi: expected v1 or v1-new"
      end
  end.

Definition sealApprovePackageId (body : json) (configured : string) : json :=
  match sealAbi_of (jget "sealAbi" body) with
  | Some AbiV1 => jget "packageId" body
  | _ => JStr configured
  end.

Definition sealIdentityPackageError (packageId : string) (ciphertextPackageIds : list string)
    (sessionPackageId : string) : option string :=
  let expected := normalizeSuiAddress packageId in
  if negb (seqb (normalizeSuiAddress sessionPackageId) expected)
  then Some "SessionKey packageId does not match request packageId" else
  if existsb (λ id, negb (seqb (normalizeSuiAddress id) expected)) ciphertextPackageIds
  then Some "Ciphertext packageId does not match request packageId" else None.

(** The ids come from [EncryptedObject.parse]: hexadecimal byte strings. *)
Definition buildSealApproveTx (policyPackageId : string) (registryId : option string)
    (accountId : string) (ids : list string) : list move_call :=
  map (λ id,
    let idArg := PureBytes (hex_pairs (chars id)) in
    let approveArgs := match registryId with
      | Some r => [idArg; ObjectRef r; ObjectRef accountId]
      | None => [idArg; ObjectRef accountId]
      end in
    MoveCall (policyPackageId +:+ "::account::seal_approve") approveArgs) ids.

End Fence.

(** ** Canonical addresses *)
Lemma lower_ascii_idemp c : lower_ascii (lower_ascii c) = lower_ascii c.
Proof. destruct c as [[] [] [] [] [] [] [] []]; reflexivity. Qed.
Lemma lower_ascii_hex c : is_hex c = true → is_hex (lower_ascii c) = true.
Proof. destruct c as [[] [] [] [] [] [] [] []]; vm_compute; congruence. Qed.

Lemma map_lower_idemp l : map lower_ascii (map lower_ascii l) = map lower_ascii l.
Proof. induction l; simpl; f_equal; auto using lower_ascii_idemp. Qed.
Lemma forallb_lower l : forallb is_hex l = true → forallb is_hex (map lower_ascii l) = true.
Proof. induction l; simpl; intros; bool_to_prop; auto using andb_true_intro, lower_ascii_hex. Qed.

Lemma pad64_lower l : map lower_ascii (pad64 l) = pad64 (map lower_ascii l).
Proof. unfold pad64. rewrite map_app, length_map. f_equal. by induction (64 - length l); simpl; f_equal. Qed.
Lemma pad64_long l : 64 ≤ length l → pad64 l = l.
Proof. intros. unfold pad64. by replace (64 - length l) with 0 by lia. Qed.
Lemma forallb_pad64 l : forallb is_hex l = true → forallb is_hex (pad64 l) = true.
Proof.
  intros Hl. unfold pad64. rewrite forallb_app, Hl, andb_true_r.
  induction (64 - length l); simpl; auto.
Qed.

Lemma chars_canonical_hex a :
  chars (canonical_hex a) = pad64 (map lower_ascii (chars (strip_0x a))).
Proof. unfold canonical_hex. by rewrite chars_of_chars, chars_lower. Qed.

Lemma canonical_valid a :
  is_sui_address a = true →
  is_sui_address (canonical_address a) = true ∧ slen (canonical_address a) = 66.
Proof.
  intros Ha. pose proof (canonical_hex_length a Ha) as Hl.
  destruct (sui_address_strip a Ha) as [Hs _].
  assert (H66 : slen (canonical_address a) = 66).
  { unfold canonical_address. rewrite slen_app, Hl. done. }
  split; [|done]. unfold is_sui_address. rewrite H66.
  unfold canonical_address, starts_with, drop_s, sforallb. rewrite chars_app. simpl.
  rewrite drop_0, of_chars_chars, chars_canonical_hex. rewrite !andb_true_r.
  apply forallb_pad64, forallb_lower. rewrite Hs.
  unfold is_sui_address in Ha. by bool_to_prop.
Qed.

Lemma strip_canonical a : strip_0x (canonical_address a) = canonical_hex a.
Proof.
  unfold strip_0x, canonical_address, starts_with, drop_s. rewrite chars_app. simpl.
  by rewrite drop_0, of_chars_chars.
Qed.

Lemma canonical_idemp a :
  is_sui_address a = true → canonical_address (canonical_address a) = canonical_address a.
Proof.
  intros Ha. enough (E : canonical_hex (canonical_address a) = canonical_hex a).
  { unfold canonical_address in *. by rewrite E. }
  apply chars_inj.
  rewrite chars_canonical_hex, strip_canonical, chars_canonical_hex, pad64_lower, map_lower_idemp.
  apply pad64_long. rewrite <-chars_canonical_hex, length_chars. by rewrite canonical_hex_length.
Qed.

Lemma drop_canonical a : drop_s 2 (canonical_address a) = canonical_hex a.
Proof.
  unfold canonical_address, drop_s. rewrite chars_app. simpl. by rewrite drop_0, of_chars_chars.
Qed.

Section Theorems.
Context `{SuiSdkLaws}.

Lemma buildSealEncryptId_valid owner counter id :
  is_sui_address owner = true → buildSealEncryptId owner counter = Some id →
  (0 <= counter < 2 ^ 64)%Z ∧
  id = canonical_hex owner +:+ bytesToHex (map (le_byte counter) (seq 0 8)).
Proof.
  intros Ho Hb. unfold buildSealEncryptId in Hb. cbv zeta in Hb.
  destruct (bcs_u64_hex counter) as [h|] eqn:E; simplify_eq/=.
  assert (0 <= counter < 2 ^ 64)%Z as Hc by (eapply bcs_u64_range; eauto).
  rewrite bcs_u64_spec in E by done. simplify_eq.
  rewrite normalize_valid, drop_canonical by done. done.
Qed.

Lemma bytes_le_inj c1 c2 :
  (0 <= c1 < 2 ^ 64)%Z → (0 <= c2 < 2 ^ 64)%Z →
  bytesToHex (map (le_byte c1) (seq 0 8)) = bytesToHex (map (le_byte c2) (seq 0 8)) → c1 = c2.
Proof.
  intros Hc1 Hc2 E.
  assert (map (le_byte c1) (seq 0 8) = map (le_byte c2) (seq 0 8)) as E'.
  { apply (f_equal (λ s, hex_pairs (chars s))) in E.
    unfold bytesToHex in E. by rewrite !chars_of_chars, !hex_pairs_flat_map in E. }
  apply (f_equal le_value) in E'. by rewrite !le_value_u64 in E'.
Qed.

(** The SEAL key id of an encryption is 80 hexadecimal digits and
    determines the owner's canonical address and the rotation counter:
    rotating the counter, or another owner, always gives another key id. *)
Theorem sealEncryptId_injective (o1 o2 : string) (c1 c2 : Z) (id : string) :
  is_sui_address o1 = true → is_sui_address o2 = true →
  buildSealEncryptId o1 c1 = Some id → buildSealEncryptId o2 c2 = Some id →
  slen id = 80 ∧ canonical_address o1 = canonical_address o2 ∧ c1 = c2.
Proof.
  intros Ho1 Ho2 H1 H2.
  apply buildSealEncryptId_valid in H1 as [Hc1 E1], H2 as [Hc2 E2]; [|done..].
  rewrite E1 in E2. apply sapp_inj_l in E2 as [Eo Ec]; [|by rewrite !canonical_hex_length].
  split; [|split].
  - rewrite E1, slen_app, canonical_hex_length, slen_bytesToHex, length_map, length_seq; done.
  - unfold canonical_address. by rewrite Eo.
  - by apply bytes_le_inj.
Qed.

Lemma fetch_inr expectedOwner pkg purpose res sid :
  fetchSealEncryptIdentity expectedOwner pkg purpose res = inr sid →
  let fields := jget "json" (jget "object" res) in
  account_type_matches (jget "type" (jget "object" res)) pkg = true ∧
  ∃ owner active counter,
    jget "owner" fields = JStr owner ∧ jget "active" fields = JBool active ∧
    normalizeSuiAddress owner = normalizeSuiAddress expectedOwner ∧
    truthy (jget "admin_quarantined" fields) = false ∧
    (purpose ≠ legacy_seed → jget "admin_quarantined" fields = JBool false) ∧
    (purpose ≠ migration → active = true) ∧
    to_bigint (jget "access_counter_version" fields) = Some counter ∧
    sid = SealIdentity (normalizeSuiAddress owner) (normalizeSuiAddress pkg) counter.
Proof.
  unfold fetchSealEncryptIdentity. cbv zeta. intros Hf.
  apply ensure_inr in Hf as [Ht Hf]. split; [done|].
  destruct (jget "owner" _) as [| | | |owner| |] eqn:Eo; simplify_eq.
  apply ensure_inr in Hf as [Ho Hf]. apply seqb_eq in Ho.
  destruct (jget "active" _) as [| |active| | | |] eqn:Ea; simplify_eq.
  apply ensure_inr in Hf as [Hq Hf]. apply ensure_inr in Hf as [Hnq Hf].
  apply ensure_inr in Hf as [Hact Hf]. apply ensure_inr in Hf as [Hc Hf].
  destruct (to_bigint _) as [counter|] eqn:Ec; simplify_eq.
  exists owner, active, counter. apply negb_true_iff in Hnq.
  split_and!; try done.
  - intros Hp. apply orb_true_iff in Hq as [Hq|Hq]; [|by bool_to_prop].
    destruct (jget "admin_quarantined" _) as [| |[]| | | |]; done.
  - intros Hp. apply orb_true_iff in Hact as [->|Hact]; [done|by bool_to_prop].
Qed.

(** The relayer only encrypts under an identity read from a
    [MemWalAccount] object of the configured package, owned by the requested
    owner and not quarantined; a normal write further requires an active
    account with an explicit [admin_quarantined = false], and the counter is
    the one on chain. *)
Theorem fetchSealEncryptIdentity_safe expectedOwner pkg purpose res sid :
  fetchSealEncryptIdentity expectedOwner pkg purpose res = inr sid →
  let object := jget "object" res in
  let fields := jget "json" object in
  (∃ t p, jget "type" object = JStr t ∧ split2 t = [p; "account"; "MemWalAccount"] ∧
          normalizeSuiAddress p = si_package sid) ∧
  si_owner sid = normalizeSuiAddress expectedOwner ∧
  si_package sid = normalizeSuiAddress pkg ∧
  to_bigint (jget "access_counter_version" fields) = Some (si_counter sid) ∧
  truthy (jget "admin_quarantined" fields) = false ∧
  (purpose = normal → jget "active" fields = JBool true ∧
                      jget "admin_quarantined" fields = JBool false).
Proof.
  intros Hf. apply fetch_inr in Hf as (Ht & owner & active & counter & Eo & Ea & En & Hq & Hq' & Ha & Ec & ->).
  simpl. split; [|repeat split; try done].
  - unfold account_type_matches in Ht. destruct (jget "type" _) as [| | | |t| |]; try done.
    exists t. destruct (split2 t) as [|p [|m [|s [|]]]] eqn:Es; try done.
    exists p. bool_to_prop. repeat match goal with H : seqb _ _ = true |- _ => apply seqb_eq in H end.
    by subst.
  - rewrite Ea. by rewrite Ha by congruence.
  - apply Hq'. congruence.
Qed.

(** C37: both encryption paths write the same key-id suffix: when the relayer
    and the client-side SDK accept the same account object, the SDK's
    namespace-scoped id is the namespace in hexadecimal followed by exactly
    the relayer's id, the suffix [seal_approve] checks on chain. *)
Theorem seal_paths_agree expectedOwner pkg purpose res sid ownerHex counter namespace owner s :
  jget "owner" (jget "json" (jget "object" res)) = JStr owner → is_sui_address owner = true →
  fetchSealEncryptIdentity expectedOwner pkg purpose res = inr sid →
  fetchSealIdentity pkg res = inr (ownerHex, counter) →
  sealScopedId namespace ownerHex counter = Some s →
  ∃ id, buildSealEncryptId (si_owner sid) (si_counter sid) = Some id ∧
        s = bytesToHex (utf8 namespace) +:+ id.
Proof.
  intros Eo Hv Hf Hm Hs.
  apply fetch_inr in Hf as (_ & owner' & active & c & Eo' & _ & _ & _ & _ & _ & Ec & ->).
  cbv zeta in *. rewrite Eo in Eo'. injection Eo' as <-. cbn [si_owner si_counter].
  rewrite normalize_valid by done.
  assert (Hco : coalesce (jget "json" (jget "object" res))
            (jget "fields" (jget "content" (jget "data" res))) = jget "json" (jget "object" res)).
  { destruct (jget "json" (jget "object" res)); simpl in Eo; done. }
  unfold fetchSealIdentity in Hm. cbv zeta in Hm. rewrite Hco in Hm.
  apply ensure_inr in Hm as [_ Hm]. apply ensure_inr in Hm as [_ Hm]. rewrite Eo in Hm.
  apply ensure_inr in Hm as [_ Hm]. apply ensure_inr in Hm as [_ Hm]. rewrite Ec in Hm.
  simplify_eq. unfold sealScopedId in Hs.
  pose proof (u64ToLeHex_range counter) as Hr.
  destruct (u64ToLeHex counter) as [|h] eqn:Eh; simplify_eq. destruct (Hr h eq_refl) as [Hc _].
  rewrite u64ToLeHex_bytes in Eh by done. simplify_eq.
  unfold buildSealEncryptId. rewrite bcs_u64_spec by done. simpl. eexists. split; [done|].
  rewrite normalize_valid by (by apply canonical_valid).
  rewrite canonical_idemp, drop_canonical by done. do 2 f_equal.
  apply chars_inj. rewrite chars_lower, chars_of_chars, chars_canonical_hex. apply pad64_lower.
Qed.

(** A decrypt request that passes validation names a well-formed account
    and package; under [v1-new] its [seal_approve] call always targets the
    configured policy package, whatever the request says, and under the
    legacy ABI the request must have been allowed and names no registry. *)
Theorem sealApprove_targets_policy (body : json) (policy : seal_policy) :
  sealApproveArgsError body policy = None →
  (∃ p a, jget "packageId" body = JStr p ∧ is_sui_address p = true ∧
          jget "accountId" body = JStr a ∧ is_full_address a = true) ∧
  ((jget "sealAbi" body = JStr "v1" ∧ allowLegacySealAbi policy = true ∧
    truthy (jget "registryId" body) = false ∧
    sealApprovePackageId body (sp_policyPackageId policy) = jget "packageId" body) ∨
   (jget "sealAbi" body = JStr "v1-new" ∧
    (∃ r, jget "registryId" body = JStr r ∧ is_full_address r = true) ∧
    is_sui_address (sp_policyPackageId policy) = true ∧
    sealApprovePackageId body (sp_policyPackageId policy) = JStr (sp_policyPackageId policy))).
Proof.
  unfold sealApproveArgsError. cbv zeta. intros Hn.
  case_match; [done|].
  destruct (sui_address_of (jget "packageId" body)) as [p|] eqn:Ep; [|done].
  case_match eqn:Ea; [done|]. apply negb_false_iff in Ea.
  case_match; [done|].
  split.
  { unfold sui_address_of in Ep. destruct (jget "packageId" body) as [| | | |p'| |]; try done.
    destruct (is_sui_address p') eqn:Ev; simplify_eq.
    destruct (jget "accountId" body) as [| | | |a| |]; try done. by exists p, a. }
  unfold sealApprovePackageId.
  destruct (sealAbi_of (jget "sealAbi" body)) as [[]|] eqn:Eabi; [left|right|done].
  - apply sealAbi_of_v1 in Eabi. repeat (case_match; try done); bool_to_prop; done.
  - apply sealAbi_of_v1new in Eabi.
    repeat (case_match; try done); bool_to_prop; split_and!; eauto.
Qed.

(** Fence parsing fails closed: the only fences ever produced are the
    legacy marker, when the request states [v1] and the sidecar allows it,
    and a [v1-new] fence whose executable target is the configured policy
    package and whose id bytes are those of a ciphertext of the very package
    of the request. *)
Theorem parseSealPersistenceFence_closed (input pkg : json) (policy : seal_policy) fence :
  parseSealPersistenceFence input pkg policy = inr fence →
  match fence with
  | FenceV1 => jget "sealAbi" input = JStr "v1" ∧ allowLegacySealAbi policy = true
  | FenceV1New acct reg pol idBytes =>
      jget "sealAbi" input = JStr "v1-new" ∧ is_sui_address (sp_policyPackageId policy) = true ∧
      pol = normalizeSuiAddress (sp_policyPackageId policy) ∧
      ∃ a r p data cpkg cid,
        jget "accountId" input = JStr a ∧ acct = normalizeSuiAddress a ∧
        jget "registryId" input = JStr r ∧ reg = normalizeSuiAddress r ∧
        pkg = JStr p ∧ jget "data" input = JStr data ∧
        parse_encrypted data = Some (cpkg, cid) ∧
        normalizeSuiAddress cpkg = normalizeSuiAddress p ∧
        bytesToHex idBytes = lower cid ∧ idBytes ≠ []
  end.
Proof.
  unfold parseSealPersistenceFence. intros Hp.
  destruct (sealAbi_of (jget "sealAbi" input)) as [[]|] eqn:Eabi; [| |done].
  { apply ensure_inr in Hp as [? ?]. apply sealAbi_of_v1 in Eabi. by simplify_eq. }
  apply sealAbi_of_v1new in Eabi.
  unfold sui_address_of in Hp.
  destruct (jget "accountId" input) as [| | | |a| |]; try done.
  destruct (is_sui_address a); [|done].
  destruct (jget "registryId" input) as [| | | |r| |]; try done.
  destruct (is_sui_address r); [|done].
  destruct (jget "policyPackageId" input) as [| | | |q| |]; try done.
  destruct (is_sui_address q); [|done].
  apply ensure_inr in Hp as [Hpol Hp]. apply ensure_inr in Hp as [_ Hp].
  destruct pkg as [| | | |p| |]; try done. destruct (is_sui_address p); [|done].
  destruct (jget "data" input) as [| | | |data| |] eqn:Ed; try done.
  apply ensure_inr in Hp as [_ Hp].
  destruct (parse_encrypted data) as [[cpkg cid]|] eqn:Ee; [|done].
  apply ensure_inr in Hp as [Hcp Hp]. apply ensure_inr in Hp as [Hhex Hp]. simplify_eq.
  apply seqb_eq in Hcp. repeat split; [done..|].
  unfold is_hex_bytes in Hhex. apply andb_true_iff in Hhex as [Hhex Hev].
  apply andb_true_iff in Hhex as [Hhex Hne]. apply Nat.eqb_eq in Hev.
  apply negb_true_iff, seqb_neq in Hne.
  exists a, r, p, data, cpkg, cid. split_and!; try done.
  - unfold bytesToHex, lower, smap. f_equal. apply bytesToHex_hex_pairs; [done|].
    by rewrite length_chars.
  - destruct cid as [|c1 [|c2 cid]]; simpl; done.
Qed.

End Theorems.

Definition owner_a : string := "0xA1".
Lemma sealEncryptId_injective_witness :
  ∃ id, buildSealEncryptId owner_a 7 = Some id ∧ slen id = 80 ∧
        canonical_address owner_a = canonical_address "0x00a1" ∧ 7%Z = 7%Z.
Proof.
  eexists. split; [reflexivity|].
  apply (sealEncryptId_injective owner_a "0x00a1" 7 7); reflexivity.
Defined.

(** ** Witnesses on a concrete account *)
Definition ex_account : json := JObj [("object", JObj [
  ("type", JStr "0x7::account::MemWalAccount");
  ("json", JObj [("owner", JStr owner_a); ("active", JBool true);
                 ("admin_quarantined", JBool false);
                 ("access_counter_version", JStr "7")])])].
Definition ex_policy : seal_policy := SealPolicy false "0x9".
Definition ex_request : json := JObj [
  ("sealAbi", JStr "v1-new"); ("packageId", JStr "0x7"); ("policyPackageId", JStr "0x09");
  ("accountId", JStr (canonical_address "0x1")); ("registryId", JStr (canonical_address "0x2"));
  ("data", JStr "abcd")].

Definition ex_identity : seal_identity :=
  SealIdentity (canonical_address owner_a) (canonical_address "0x7") 7.

Lemma fetchSealEncryptIdentity_safe_witness :
  fetchSealEncryptIdentity "0x00A1" "0x07" normal ex_account = inr ex_identity ∧
  si_owner ex_identity = normalizeSuiAddress "0x00A1".
Proof.
  assert (Hf : fetchSealEncryptIdentity "0x00A1" "0x07" normal ex_account = inr ex_identity)
    by (vm_compute; reflexivity).
  split; [exact Hf|]. exact (proj1 (proj2 (fetchSealEncryptIdentity_safe _ _ _ _ _ Hf))).
Defined.

Lemma seal_paths_agree_witness :
  ∃ s id, sealScopedId "ns" (canonical_hex owner_a) 7 = Some s ∧
    buildSealEncryptId (si_owner ex_identity) (si_counter ex_identity) = Some id ∧
    s = bytesToHex (utf8 "ns") +:+ id.
Proof.
  pose (s := bytesToHex (utf8 "ns") +:+ canonical_hex owner_a +:+
             bytesToHex (map (le_byte 7) (seq 0 8))).
  exists s. destruct (seal_paths_agree "0x00A1" "0x07" normal ex_account ex_identity
    (canonical_hex owner_a) 7 "ns" owner_a s eq_refl eq_refl) as [id Hid];
    [vm_compute; reflexivity..|].
  exists id. split; [vm_compute; reflexivity|exact Hid].
Defined.

Lemma sealApprove_targets_policy_witness :
  sealApproveArgsError ex_request ex_policy = None ∧
  sealApprovePackageId ex_request (sp_policyPackageId ex_policy) = JStr "0x9".
Proof.
  assert (Hn : sealApproveArgsError ex_request ex_policy = None) by (vm_compute; reflexivity).
  split; [exact Hn|].
  destruct (sealApprove_targets_policy ex_request ex_policy Hn) as [_ [(Hv & _)|(_ & _ & _ & He)]];
    [discriminate Hv|exact He].
Defined.

Definition ex_fence : seal_fence :=
  FenceV1New (canonical_address "0x1") (canonical_address "0x2") (canonical_address "0x9")
    (hex_pairs (chars "abcd")).
Lemma parseSealPersistenceFence_closed_witness :
  parseSealPersistenceFence ex_request (JStr "0x7") ex_policy = inr ex_fence ∧
  is_sui_address (sp_policyPackageId ex_policy) = true.
Proof.
  assert (Hp : parseSealPersistenceFence ex_request (JStr "0x7") ex_policy = inr ex_fence)
    by (vm_compute; reflexivity).
  split; [exact Hp|].
  exact (proj1 (proj2 (parseSealPersistenceFence_closed ex_request (JStr "0x7") ex_policy _ Hp))).
Defined.
