(* ===== verification/Compat.v ===== *)
(** * SDK/relayer compatibility contract (packages/sdk/src/compatibility.ts)

    Parsing of [major.minor.patch] versions, their comparison, and
    [assertCompatibleRelayer] on the metadata a relayer serves. *)
From Stdlib Require Import Ascii.
From S2P Require Import Prelude JsText.
Local Open Scope Z_scope.

Module Compat.

Definition MEMWAL_TYPESCRIPT_COMPATIBILITY_VERSION : string := "0.0.4".
Definition SUPPORTED_RELAYER_API_MAJOR : Z := 1.

(** The greedy [\d+] at the front of the input. *)
Fixpoint span_digits (acc : Z) (l : list ascii) : Z * list ascii :=
  match l with
  | c :: l' => if is_digit c then span_digits (10 * acc + Z.of_N (code c) - 48) l' else (acc, l)
  | [] => (acc, [])
  end.
Definition number (l : list ascii) : option (Z * list ascii) :=
  match l with
  | c :: _ => if is_digit c then Some (span_digits 0 l) else None
  | [] => None
  end.
Definition dot (l : list ascii) : option (list ascii) :=
  match l with c :: l' => if is_char 46 c then Some l' else None | [] => None end.
(** An optional suffix opened by [-] or [+], up to the end of the line. *)
Definition version_suffix (l : list ascii) : bool :=
  match l with
  | [] => true
  | c :: l' => (is_char 45 c || is_char 43 c) && forallb is_dot l'
  end.

Definition parseSemver (version : string) : option (Z * Z * Z) :=
  '(major, l1) ← number (trim_chars (chars version));
  l1' ← dot l1;
  '(minor, l2) ← number l1';
  l2' ← dot l2;
  '(patch, l3) ← number l2';
  if version_suffix l3 then Some (major, minor, patch) else None.

Definition semverMajor (version : string) : option Z :=
  match parseSemver version with Some (major, _, _) => Some major | None => None end.

(** [None]: "invalid semver comparison" is thrown. *)
Definition compareSemver (a b : string) : option Z :=
  match parseSemver a, parseSemver b with
  | Some (a0, a1, a2), Some (b0, b1, b2) =>
      Some (if negb (a0 =? b0) then a0 - b0
            else if negb (a1 =? b1) then a1 - b1
            else if negb (a2 =? b2) then a2 - b2
            else 0)
  | _, _ => None
  end.

Inductive compat_error : Type :=
| NoMetadata
| InvalidApiVersion
| UnsupportedApiMajor
| NoMinSdk
| InvalidMinSdk
| SdkTooOld
| InvalidComparison
| NotAString.   (** [version.trim] is not a function *)

Definition is_object (v : json) : bool :=
  match v with JNull | JArr _ | JObj _ => true | _ => false end.

Definition assertCompatibleRelayer (metadata : json) : compat_error + unit :=
  let apiVersion := jget "apiVersion" metadata in
  let minSupportedSdk := jget "minSupportedSdk" metadata in
  guard_or negb (negb (truthy apiVersion) || negb (truthy (jget "relayerVersion" metadata)) ||
                 negb (truthy minSupportedSdk) || negb (is_object minSupportedSdk)) else NoMetadata;
  match apiVersion with
  | JStr api =>
      match semverMajor api with
      | None => inl InvalidApiVersion
      | Some apiMajor =>
          guard_or (apiMajor =? SUPPORTED_RELAYER_API_MAJOR) else UnsupportedApiMajor;
          let minSdk := jget "typescript" minSupportedSdk in
          guard_or truthy minSdk else NoMinSdk;
          match minSdk with
          | JStr minSdk =>
              match semverMajor minSdk with
              | None => inl InvalidMinSdk
              | Some _ =>
                  match compareSemver MEMWAL_TYPESCRIPT_COMPATIBILITY_VERSION minSdk with
                  | None => inl InvalidComparison
                  | Some c => guard_or negb (c <? 0) else SdkTooOld; inr tt
                  end
              end
          | _ => inl NotAString
          end
      end
  | _ => inl NotAString
  end.

(** [compatibilityErrorFromStatus]: the message of the error, or [None]. *)
Definition compatibilityErrorFromStatus (status : Z) (body : string) : option string :=
  if negb (status =? 426) then None else
  Some ("Walrus Memory relayer rejected this SDK as unsupported (HTTP 426 Upgrade Required). " +:+
        "SDK compatibility baseline: " +:+ MEMWAL_TYPESCRIPT_COMPATIBILITY_VERSION +:+ ". " +:+
        "Relayer response: " +:+
        (if is_empty (take_s 300 body) then "upgrade required" else take_s 300 body)).

(** The order the comparison implements. *)
Definition lex_le (a b : Z * Z * Z) : Prop :=
  let '(a0, a1, a2) := a in let '(b0, b1, b2) := b in
  a0 < b0 ∨ (a0 = b0 ∧ (a1 < b1 ∨ (a1 = b1 ∧ a2 <= b2))).

Lemma compareSemver_spec a b va vb :
  parseSemver a = Some va → parseSemver b = Some vb →
  ∃ c, compareSemver a b = Some c ∧ (c < 0 ↔ ¬ lex_le vb va) ∧ (c = 0 ↔ va = vb).
Proof.
  intros Ha Hb. unfold compareSemver. rewrite Ha, Hb.
  destruct va as [[a0 a1] a2], vb as [[b0 b1] b2]. eexists. split; [done|].
  unfold lex_le.
  destruct (a0 =? b0) eqn:E0; simpl; bool_to_prop;
    [|split; [lia|split; [lia|intros [= -> -> ->]; lia]]].
  destruct (a1 =? b1) eqn:E1; simpl; bool_to_prop;
    [|split; [lia|split; [lia|intros [= -> ->]; lia]]].
  destruct (a2 =? b2) eqn:E2; simpl; bool_to_prop; subst;
    (split; [lia|]); split; try done; try lia; intros [= ->]; lia.
Qed.

(** The SDK accepts a relayer exactly when the metadata names a relayer
    version, an API version of major 1, and a minimal TypeScript SDK version
    that the SDK's 0.0.4 baseline is not below. *)
Theorem assertCompatibleRelayer_iff (metadata : json) :
  assertCompatibleRelayer metadata = inr tt ↔
  truthy (jget "relayerVersion" metadata) = true ∧
  (∃ api minor patch, jget "apiVersion" metadata = JStr api ∧
     parseSemver api = Some (1, minor, patch)) ∧
  (∃ sdk v, jget "typescript" (jget "minSupportedSdk" metadata) = JStr sdk ∧
     parseSemver sdk = Some v ∧ lex_le v (0, 0, 4)).
Proof.
  assert (Hbase : parseSemver MEMWAL_TYPESCRIPT_COMPATIBILITY_VERSION = Some (0, 0, 4))
    by reflexivity.
  unfold assertCompatibleRelayer. cbv zeta. rewrite ensure_inr. split.
  - intros [Hm Hr]. apply negb_true_iff in Hm. bool_to_prop.
    destruct (jget "apiVersion" metadata) as [| | | |api| |]; try done.
    unfold semverMajor in Hr. destruct (parseSemver api) as [[[maj minor] patch]|] eqn:Ea; [|done].
    apply ensure_inr in Hr as [Hmaj Hr]. apply Z.eqb_eq in Hmaj. simplify_eq.
    apply ensure_inr in Hr as [_ Hr].
    destruct (jget "typescript" _) as [| | | |sdk| |]; try done.
    destruct (parseSemver sdk) as [v|] eqn:Es; [|done]. destruct v as [[v0 v1] v2].
    destruct (compareSemver_spec _ _ _ _ Hbase Es) as (c & Hc & Hlt & _). rewrite Hc in Hr.
    apply ensure_inr in Hr as [Hr _]. bool_to_prop.
    split; [done|]. split; [by eauto|]. exists sdk, (v0, v1, v2). split_and!; [done..|].
    unfold lex_le in *. lia.
  - intros (Hrel & (api & minor & patch & Eapi & Ea) & (sdk & v & Esdk & Es & Hle)).
    rewrite Eapi, Esdk, Hrel. unfold semverMajor. rewrite Ea, Es.
    destruct v as [[v0 v1] v2].
    destruct (compareSemver_spec _ _ _ _ Hbase Es) as (c & Hc & Hlt & _). rewrite Hc.
    assert (Hne : ∀ s, parseSemver s ≠ None → truthy (JStr s) = true).
    { intros s Hs. simpl. apply negb_true_iff, seqb_neq. intros ->. by apply Hs. }
    rewrite !Hne by congruence.
    destruct (jget "minSupportedSdk" metadata) eqn:Em; try done. split; [done|].
    simpl. destruct (c <? 0) eqn:Ec; [|done]. bool_to_prop. tauto.
Qed.

Example compat_accepts :
  assertCompatibleRelayer (JObj [("apiVersion", JStr "1.4.0-rc.1"); ("relayerVersion", JStr "9");
    ("minSupportedSdk", JObj [("typescript", JStr "0.0.4")])]) = inr tt.
Proof. reflexivity. Qed.
Example compat_too_old :
  assertCompatibleRelayer (JObj [("apiVersion", JStr "1.4.0"); ("relayerVersion", JStr "9");
    ("minSupportedSdk", JObj [("typescript", JStr "0.1.0")])]) = inl SdkTooOld.
Proof. reflexivity. Qed.

End Compat.
