(* ===== verification/Semaphore.v ===== *)
(** * Upload concurrency limiting (sidecar/concurrency.ts), first half

    [AsyncSemaphore]: its slots, its FIFO queue of waiter closures and their
    timeout timers, as a step relation between the points where the event
    loop can run something else.  The last section states what a limiter
    promises its clients as a class, with the semaphore as its instance. *)
From stdpp Require Import relations.
From S2P Require Import Prelude.
Local Open Scope Z_scope.

(** The promise of one [acquire] call.  [Released]: the caller has run the
    closure the promise resolved to. *)
Inductive pstate : Type := Pending | Granted | Rejected | Released.
#[export] Instance pstate_dec : EqDecision pstate.
Proof. solve_decision. Defined.

Module AsyncSemaphore.

(** [waiters] holds the waiter closures, named by the [acquire] call they
    belong to; [promises] is the state captured by those closures
    ([settled], [resolve], [reject]). *)
Record semaphore : Type := Semaphore {
  capacity : Z;
  available : Z;
  waiters : list nat;
  promises : gmap nat pstate;
}.

Definition new (capacity : Z) : semaphore := Semaphore capacity capacity [] ∅.

Definition set_available (a : Z) (s : semaphore) : semaphore :=
  Semaphore (capacity s) a (waiters s) (promises s).
Definition set_waiters (ws : list nat) (s : semaphore) : semaphore :=
  Semaphore (capacity s) (available s) ws (promises s).
Definition set_promise (id : nat) (p : pstate) (s : semaphore) : semaphore :=
  Semaphore (capacity s) (available s) (waiters s) (<[id := p]> (promises s)).

Definition acquire (id : nat) (s : semaphore) : semaphore :=
  if 0 <? available s
  then set_promise id Granted (set_available (available s - 1) s)
  else set_promise id Pending (set_waiters (waiters s ++ [id]) s).

(** The waiter closure: a no-op once [settled]. *)
Definition waiter (id : nat) (s : semaphore) : semaphore :=
  match promises s !! id with
  | Some Pending => set_promise id Granted (set_available (available s - 1) s)
  | _ => s
  end.

(** The timer of a waiting [acquire]. *)
Definition timeout (id : nat) (s : semaphore) : semaphore :=
  match promises s !! id with
  | Some Pending => set_promise id Rejected (set_waiters (filter (λ w, w ≠ id) (waiters s)) s)
  | _ => s
  end.

(** [while (this.available > 0 && this.waiters.length > 0)], with [ws] the
    queue, shortened by one [shift()] per iteration. *)
Fixpoint drain (ws : list nat) (s : semaphore) : semaphore :=
  match ws with
  | [] => set_waiters [] s
  | next :: ws' =>
      if 0 <? available s then drain ws' (waiter next (set_waiters ws' s)) else set_waiters ws s
  end.

Definition release (s : semaphore) : semaphore :=
  let s' := set_available (Z.min (capacity s) (available s + 1)) s in
  drain (waiters s') s'.

(** The closure [() => this.release()] handed to the caller of [id]. *)
Definition release_of (id : nat) (s : semaphore) : semaphore :=
  release (set_promise id Released s).

Definition snapshot (s : semaphore) : Z * Z * nat := (capacity s, available s, length (waiters s)).

(** What can happen to a semaphore whose callers release each slot once. *)
Inductive step : semaphore → semaphore → Prop :=
| step_acquire s id : promises s !! id = None → step s (acquire id s)
| step_timeout s id : promises s !! id = Some Pending → step s (timeout id s)
| step_release s id : promises s !! id = Some Granted → step s (release_of id s).

Definition is_granted (p : pstate) : bool := bool_decide (p = Granted).
Definition granted_count (s : semaphore) : nat := count is_granted (promises s).

(** The invariant, without and with "no one waits while a slot is free". *)
Record wf_weak (s : semaphore) : Prop := {
  wf_slots : available s + Z.of_nat (granted_count s) = capacity s;
  wf_available : 0 <= available s;
  wf_nodup : NoDup (waiters s);
  wf_waiters id : id ∈ waiters s ↔ promises s !! id = Some Pending;
}.
Definition wf (s : semaphore) : Prop := wf_weak s ∧ (0 < available s → waiters s = []).

Lemma new_wf cap : 0 <= cap → wf (new cap).
Proof.
  split; [split|done]; simpl; try done.
  - unfold granted_count. simpl. rewrite count_empty. lia.
  - constructor.
  - intros id. rewrite lookup_empty, elem_of_nil. naive_solver.
Qed.

Lemma granted_update s id p p' :
  promises s !! id = Some p →
  (count is_granted (<[id := p']> (promises s)) + (if is_granted p then 1 else 0) =
   granted_count s + (if is_granted p' then 1 else 0))%nat.
Proof. apply count_update. Qed.

Lemma waiter_weak id ws s :
  wf_weak (set_waiters (id :: ws) s) → 0 < available s →
  wf_weak (waiter id (set_waiters ws s)).
Proof.
  intros [Hs Ha Hn Hw] Hpos. simpl in *. apply NoDup_cons in Hn as [Hid Hn].
  assert (Hp : promises s !! id = Some Pending) by (apply Hw; left).
  unfold waiter. simpl. rewrite Hp. unfold granted_count in *.
  pose proof (count_update is_granted _ _ _ Granted Hp) as Hc. simpl in *.
  split; unfold granted_count; simpl; [lia|lia|done|].
  intros j. destruct (decide (j = id)) as [->|Hj].
  - rewrite lookup_insert_eq. done.
  - rewrite lookup_insert_ne, <-Hw, elem_of_cons by done. naive_solver.
Qed.

Lemma drain_wf ws s : wf_weak (set_waiters ws s) → wf (drain ws s).
Proof.
  revert s. induction ws as [|w ws IH]; intros s Hs; simpl.
  { by split. }
  destruct (0 <? available s) eqn:E; bool_to_prop.
  - apply IH. pose proof (waiter_weak w ws s Hs E) as Hw.
    unfold waiter in *. simpl in *. destruct (promises s !! w) as [[]|]; done.
  - split; [done|]. simpl. lia.
Qed.

Lemma acquire_wf id s : wf s → promises s !! id = None → wf (acquire id s).
Proof.
  intros [[Hs Ha Hn Hw] Hf] Hid. unfold acquire, granted_count in *.
  assert (Hni : id ∉ waiters s) by (rewrite Hw; congruence).
  destruct (0 <? available s) eqn:E; bool_to_prop.
  - specialize (Hf E). split; [split|]; unfold granted_count; simpl; try done; try lia.
    + rewrite count_insert_fresh by done. simpl. lia.
    + intros j. rewrite Hw. destruct (decide (j = id)) as [->|Hj].
      * rewrite lookup_insert_eq. naive_solver.
      * by rewrite lookup_insert_ne.
  - split; [split|]; unfold granted_count; simpl; try lia.
    + rewrite count_insert_fresh by done. simpl. lia.
    + apply NoDup_app. split_and!; [done| |apply NoDup_singleton].
      intros x Hx ->%list_elem_of_singleton. done.
    + intros j. rewrite elem_of_app, list_elem_of_singleton, Hw.
      destruct (decide (j = id)) as [->|Hj].
      * rewrite lookup_insert_eq. naive_solver.
      * rewrite lookup_insert_ne by done. naive_solver.
Qed.

Lemma timeout_wf id s : wf s → wf (timeout id s).
Proof.
  intros [[Hs Ha Hn Hw] Hf]. unfold timeout.
  destruct (promises s !! id) as [[]|] eqn:Hid; try by (split; [split|]).
  pose proof (count_update is_granted _ _ _ Rejected Hid) as Hc. unfold granted_count in *. simpl in Hc.
  split; [split|]; unfold granted_count; simpl; try lia.
  - by apply NoDup_filter.
  - intros j. rewrite list_elem_of_filter, Hw. destruct (decide (j = id)) as [->|Hj].
    + rewrite lookup_insert_eq. naive_solver.
    + rewrite lookup_insert_ne by done. naive_solver.
  - intros Hpos. by rewrite (Hf Hpos).
Qed.

Lemma release_weak id s :
  wf s → promises s !! id = Some Granted →
  wf_weak (set_available (available s + 1) (set_promise id Released s)) ∧
  Z.min (capacity s) (available s + 1) = available s + 1.
Proof.
  intros [[Hs Ha Hn Hw] Hf] Hid.
  pose proof (count_update is_granted _ _ _ Released Hid) as Hc. unfold granted_count in *. simpl in Hc.
  split; [split|]; unfold granted_count; simpl; try done; try lia.
  intros j. rewrite Hw. destruct (decide (j = id)) as [->|Hj].
  - rewrite lookup_insert_eq. naive_solver.
  - by rewrite lookup_insert_ne.
Qed.

Lemma release_of_drain id s :
  wf s → promises s !! id = Some Granted →
  release_of id s = drain (waiters s) (set_available (available s + 1) (set_promise id Released s)).
Proof.
  intros Hs Hid. destruct (release_weak id s Hs Hid) as [_ E].
  unfold release_of, release. simpl. by rewrite E.
Qed.

Lemma release_wf id s : wf s → promises s !! id = Some Granted → wf (release_of id s).
Proof.
  intros Hs Hid. rewrite release_of_drain by done. apply drain_wf.
  destruct (release_weak id s Hs Hid) as [Hw _]. by destruct s.
Qed.

Lemma step_wf s s' : wf s → step s s' → wf s'.
Proof. intros Hs Hst. destruct Hst; eauto using acquire_wf, timeout_wf, release_wf. Qed.

Lemma reachable_wf cap s : 0 <= cap → rtc step (new cap) s → wf s.
Proof.
  intros Hcap Hr. assert (wf (new cap)) as Hn by by apply new_wf.
  induction Hr; eauto using step_wf.
Qed.

Lemma drain_capacity ws s : capacity (drain ws s) = capacity s.
Proof.
  revert s. induction ws as [|w ws IH]; intros s; simpl; [done|].
  case_match; [|done]. rewrite IH. unfold waiter. by repeat case_match.
Qed.

Lemma release_of_capacity id s : capacity (release_of id s) = capacity s.
Proof. unfold release_of, release. by rewrite drain_capacity. Qed.

Lemma step_capacity s s' : step s s' → capacity s' = capacity s.
Proof.
  destruct 1; [unfold acquire|unfold timeout|apply release_of_capacity]; by repeat case_match.
Qed.

Lemma reachable_capacity cap s : rtc step (new cap) s → capacity s = cap.
Proof.
  intros Hr. change cap with (capacity (new cap)). induction Hr as [|x y z Hxy _ IH]; [done|].
  rewrite IH. by apply step_capacity.
Qed.

(** Draining changes a promise only from pending to granted. *)
Lemma drain_promise ws s j :
  promises (drain ws s) !! j = promises s !! j ∨
  (promises s !! j = Some Pending ∧ promises (drain ws s) !! j = Some Granted).
Proof.
  revert s. induction ws as [|w ws IH]; intros s; simpl; [by left|].
  destruct (0 <? available s); [|by left].
  assert (Hw : promises (waiter w (set_waiters ws s)) !! j = promises s !! j ∨
    (promises s !! j = Some Pending ∧
     promises (waiter w (set_waiters ws s)) !! j = Some Granted)).
  { unfold waiter. simpl. destruct (promises s !! w) as [[]|] eqn:E; simpl; auto.
    destruct (decide (j = w)) as [->|]; [rewrite lookup_insert_eq|rewrite lookup_insert_ne]; auto. }
  destruct (IH (waiter w (set_waiters ws s))) as [E|[E1 E2]]; destruct Hw as [Hw|[Hw1 Hw2]];
    first [left; congruence | right; split; congruence].
Qed.

Lemma granted_le s : wf s → Z.of_nat (granted_count s) <= capacity s.
Proof. intros [[Hs Ha _ _] _]. lia. Qed.

(** An upload semaphore never hands out more than its capacity: in every
    reachable state the free slots and the granted, unreleased ones add up to
    the capacity, and a caller is left waiting only while every slot is
    taken. *)
Theorem semaphore_safe (cap : Z) (s : semaphore) :
  0 <= cap → rtc step (new cap) s →
  available s + Z.of_nat (granted_count s) = cap ∧
  0 <= available s ∧
  Z.of_nat (granted_count s) <= cap ∧
  (∀ id, promises s !! id = Some Pending →
     id ∈ waiters s ∧ Z.of_nat (granted_count s) = cap).
Proof.
  intros Hcap Hr. pose proof (reachable_wf cap s Hcap Hr) as Hwf.
  pose proof (reachable_capacity cap s Hr) as <-.
  destruct (Hwf) as [[Hs Ha Hn Hw] Hf].
  split_and!; [lia|done|lia|]. intros id Hid. apply Hw in Hid. split; [done|].
  destruct (decide (0 < available s)) as [Hpos|]; [|lia].
  rewrite (Hf Hpos) in Hid. by apply elem_of_nil in Hid.
Qed.

(** The queue is first in, first out and no slot is lost: when a holder
    releases while callers wait, the slot goes to the first of them in the
    same turn, every other promise is untouched, and the queue keeps the
    rest in order. *)
Theorem semaphore_fifo (cap : Z) (s : semaphore) (holder next : nat) (rest : list nat) :
  0 <= cap → rtc step (new cap) s →
  promises s !! holder = Some Granted → waiters s = next :: rest →
  let s' := release_of holder s in
  promises s' !! next = Some Granted ∧ promises s' !! holder = Some Released ∧
  waiters s' = rest ∧ available s' = 0 ∧
  (∀ j, j ≠ holder → j ≠ next → promises s' !! j = promises s !! j).
Proof.
  intros Hcap Hr Hh Hq. pose proof (reachable_wf cap s Hcap Hr) as Hwf. cbv zeta.
  rewrite release_of_drain by done. destruct Hwf as [[Hs Ha Hn Hw] Hf].
  assert (Hp : promises s !! next = Some Pending) by (apply Hw; rewrite Hq; left).
  assert (Ha0 : available s = 0).
  { destruct (decide (0 < available s)) as [Hpos|]; [|lia]. by rewrite (Hf Hpos) in Hq. }
  assert (Hne : next ≠ holder) by congruence.
  rewrite Hq, Ha0. simpl. unfold waiter. simpl. rewrite lookup_insert_ne, Hp by done. simpl.
  assert (Hd : ∀ s0, available s0 = 0 → drain rest s0 = set_waiters rest s0).
  { intros s0 H0. destruct rest; simpl; [done|]. by rewrite H0. }
  rewrite Hd by done. simpl. split_and!; try done.
  - by rewrite lookup_insert_eq.
  - by rewrite lookup_insert_ne, lookup_insert_eq.
  - intros j Hj1 Hj2. by rewrite !lookup_insert_ne.
Qed.

(** Three callers on a two-slot semaphore: the third waits, then is served. *)
Definition ex_busy : semaphore := acquire 3 (acquire 2 (acquire 1 (new 2))).
Lemma ex_busy_reachable : rtc step (new 2) ex_busy.
Proof.
  eapply rtc_l; [by apply (step_acquire _ 1)|]. eapply rtc_l; [by apply (step_acquire _ 2)|].
  apply rtc_once. by apply (step_acquire _ 3).
Defined.

Lemma semaphore_safe_witness :
  snapshot ex_busy = (2, 0, 1%nat) ∧
  (∀ id, promises ex_busy !! id = Some Pending →
     id ∈ waiters ex_busy ∧ Z.of_nat (granted_count ex_busy) = 2).
Proof.
  split; [reflexivity|].
  exact (proj2 (proj2 (proj2 (semaphore_safe 2 ex_busy ltac:(lia) ex_busy_reachable)))).
Defined.

Lemma semaphore_fifo_witness :
  promises (release_of 1 ex_busy) !! 3%nat = Some Granted ∧ waiters (release_of 1 ex_busy) = [].
Proof.
  destruct (semaphore_fifo 2 ex_busy 1 3 [] ltac:(lia) ex_busy_reachable eq_refl eq_refl)
    as (H1 & _ & H2 & _). split; [exact H1|exact H2].
Defined.

End AsyncSemaphore.

(** ** What a limiter promises to its clients *)
Class Limiter (L : Type) : Type := {
  lim_new : Z → L;
  lim_capacity : L → Z;
  lim_acquire : nat → L → L;
  lim_timeout : nat → L → L;
  lim_release : nat → L → L;
  lim_status : L → nat → option pstate;
  lim_ok : L → Prop;
}.

Class LimiterLaws (L : Type) `{Limiter L} : Prop := {
  lim_new_ok cap : 0 <= cap →
    lim_ok (lim_new cap) ∧ lim_capacity (lim_new cap) = cap ∧ ∀ id, lim_status (lim_new cap) id = None;
  lim_acquire_ok l id : lim_ok l → lim_status l id = None →
    lim_ok (lim_acquire id l) ∧ lim_capacity (lim_acquire id l) = lim_capacity l ∧
    (lim_status (lim_acquire id l) id = Some Granted ∨ lim_status (lim_acquire id l) id = Some Pending) ∧
    ∀ j, j ≠ id → lim_status (lim_acquire id l) j = lim_status l j;
  lim_timeout_ok l id : lim_ok l → lim_status l id = Some Pending →
    lim_ok (lim_timeout id l) ∧ lim_capacity (lim_timeout id l) = lim_capacity l ∧
    lim_status (lim_timeout id l) id = Some Rejected ∧
    ∀ j, j ≠ id → lim_status (lim_timeout id l) j = lim_status l j;
  lim_release_ok l id : lim_ok l → lim_status l id = Some Granted →
    lim_ok (lim_release id l) ∧ lim_capacity (lim_release id l) = lim_capacity l ∧
    lim_status (lim_release id l) id = Some Released ∧
    ∀ j, j ≠ id →
      lim_status (lim_release id l) j = lim_status l j ∨
      (lim_status l j = Some Pending ∧ lim_status (lim_release id l) j = Some Granted);
  lim_bound l (ids : gset nat) : lim_ok l → (∀ id, id ∈ ids → lim_status l id = Some Granted) →
    Z.of_nat (size ids) <= lim_capacity l;
}.

#[export] Instance semaphore_limiter : Limiter AsyncSemaphore.semaphore := {|
  lim_new := AsyncSemaphore.new;
  lim_capacity := AsyncSemaphore.capacity;
  lim_acquire := AsyncSemaphore.acquire;
  lim_timeout := AsyncSemaphore.timeout;
  lim_release := AsyncSemaphore.release_of;
  lim_status s id := AsyncSemaphore.promises s !! id;
  lim_ok := AsyncSemaphore.wf;
|}.

Import AsyncSemaphore.

Lemma granted_set_bound s (ids : gset nat) :
  (∀ id, id ∈ ids → promises s !! id = Some Granted) → (size ids ≤ granted_count s)%nat.
Proof.
  intros Hids. unfold granted_count, count. rewrite <-size_dom.
  apply subseteq_size. intros id Hid. apply elem_of_dom. exists Granted.
  apply map_lookup_filter_Some. split; [by apply Hids|done].
Qed.

#[export] Instance semaphore_limiter_laws : LimiterLaws AsyncSemaphore.semaphore.
Proof.
  split; simpl.
  - intros cap Hcap. split; [by apply new_wf|done].
  - intros l id Hl Hid. split; [by apply acquire_wf|].
    split; [by apply step_capacity, step_acquire|]. unfold acquire. split.
    + case_match; simpl; rewrite lookup_insert_eq; auto.
    + intros j Hj. case_match; simpl; by rewrite lookup_insert_ne.
  - intros l id Hl Hid. split; [by apply timeout_wf|].
    split; [by apply step_capacity, step_timeout|]. unfold timeout. rewrite Hid. simpl.
    split; [by rewrite lookup_insert_eq|]. intros j Hj. by rewrite lookup_insert_ne.
  - intros l id Hl Hid. split; [by apply release_wf|].
    split; [by apply release_of_capacity|]. rewrite release_of_drain by done. split.
    + destruct (drain_promise (waiters l)
        (set_available (available l + 1) (set_promise id Released l)) id) as [E|[E _]];
        simpl in E; rewrite lookup_insert_eq in E; done.
    + intros j Hj. destruct (drain_promise (waiters l)
        (set_available (available l + 1) (set_promise id Released l)) j) as [E|[E1 E2]];
        simpl in *; rewrite lookup_insert_ne in * by done; auto.
  - intros l ids Hl Hids. pose proof (granted_le l Hl). pose proof (granted_set_bound l ids Hids). lia.
Qed.
