(* ===== verification/UploadSlots.v ===== *)
(** * Upload concurrency limiting (sidecar/concurrency.ts), second half

    [acquireWalrusUploadSlots]: a wallet slot, then a global slot, with the
    [activeWalrusUploads] / [queuedWalrusUploads] counters, for any limiter
    that keeps the promises of [Limiter].  Each operation below is one
    synchronous segment of the [async] function, between two [await]s; the
    step relation interleaves the segments of all running calls with the
    limiters' timers. *)
From stdpp Require Import relations.
From S2P Require Import Prelude Semaphore.
Local Open Scope Z_scope.

(** Where a call of [acquireWalrusUploadSlots] stands. *)
Inductive phase : Type :=
| InWallet    (** awaiting the wallet limiter *)
| InGlobal    (** holds the wallet slot, awaiting the global limiter *)
| Uploading   (** both slots held, the release closure not yet called *)
| Finished.
#[export] Instance phase_dec : EqDecision phase.
Proof. solve_decision. Defined.

Definition is_uploading (tk : nat * phase) : bool := bool_decide (tk.2 = Uploading).
Definition is_queued (tk : nat * phase) : bool := bool_decide (tk.2 = InWallet ∨ tk.2 = InGlobal).
Definition uploads_on (k : nat) (tk : nat * phase) : bool := bool_decide (tk = (k, Uploading)).

Section Pool.
Context {L : Type} `{LimiterLaws L}.
(** [WALRUS_UPLOAD_MAX_CONCURRENCY], [WALRUS_UPLOAD_PER_WALLET_CONCURRENCY] *)
Context (max_concurrency per_wallet : Z).

(** The module's state, and ([tasks]) the running calls: wallet and phase. *)
Record pool : Type := Pool {
  globalLimiter : L;
  walletLimiters : gmap nat L;
  activeWalrusUploads : Z;
  queuedWalrusUploads : Z;
  tasks : gmap nat (nat * phase);
}.

Definition init_pool : pool := Pool (lim_new max_concurrency) ∅ 0 0 ∅.

Definition walrusUploadWalletLimiter (keyIndex : nat) (p : pool) : L :=
  default (lim_new per_wallet) (walletLimiters p !! keyIndex).

Definition set_wallet (k : nat) (l : L) (p : pool) : pool :=
  Pool (globalLimiter p) (<[k := l]> (walletLimiters p)) (activeWalrusUploads p)
       (queuedWalrusUploads p) (tasks p).
Definition set_global (l : L) (p : pool) : pool :=
  Pool l (walletLimiters p) (activeWalrusUploads p) (queuedWalrusUploads p) (tasks p).
Definition set_counts (a q : Z) (p : pool) : pool :=
  Pool (globalLimiter p) (walletLimiters p) a q (tasks p).
Definition set_task (t k : nat) (ph : phase) (p : pool) : pool :=
  Pool (globalLimiter p) (walletLimiters p) (activeWalrusUploads p) (queuedWalrusUploads p)
       (<[t := (k, ph)]> (tasks p)).

(** [queuedWalrusUploads += 1; await wallet.acquire(...)] *)
Definition start (t k : nat) (p : pool) : pool :=
  set_task t k InWallet
    (set_wallet k (lim_acquire t (walrusUploadWalletLimiter k p))
       (set_counts (activeWalrusUploads p) (queuedWalrusUploads p + 1) p)).
(** [releaseWallet = ...; await global.acquire(...)] *)
Definition resume_wallet (t k : nat) (p : pool) : pool :=
  set_task t k InGlobal (set_global (lim_acquire t (globalLimiter p)) p).
(** [releaseGlobal = ...; queued -= 1; active += 1; return () => ...] *)
Definition resume_global (t k : nat) (p : pool) : pool :=
  set_task t k Uploading
    (set_counts (activeWalrusUploads p + 1) (Z.max 0 (queuedWalrusUploads p - 1)) p).
(** The [catch] block, with neither slot held. *)
Definition fail_wallet (t k : nat) (p : pool) : pool :=
  set_task t k Finished
    (set_counts (activeWalrusUploads p) (Z.max 0 (queuedWalrusUploads p - 1)) p).
(** The [catch] block, with the wallet slot held. *)
Definition fail_global (t k : nat) (p : pool) : pool :=
  set_task t k Finished
    (set_wallet k (lim_release t (walrusUploadWalletLimiter k p))
       (set_counts (activeWalrusUploads p) (Z.max 0 (queuedWalrusUploads p - 1)) p)).
(** The returned closure: [active -= 1; releaseGlobal(); releaseWallet()] *)
Definition release_slots (t k : nat) (p : pool) : pool :=
  set_task t k Finished
    (set_wallet k (lim_release t (walrusUploadWalletLimiter k p))
       (set_global (lim_release t (globalLimiter p))
          (set_counts (Z.max 0 (activeWalrusUploads p - 1)) (queuedWalrusUploads p) p))).

Definition wallet_status (p : pool) (k t : nat) : option pstate :=
  lim_status (walrusUploadWalletLimiter k p) t.
Definition global_status (p : pool) (t : nat) : option pstate := lim_status (globalLimiter p) t.

Inductive pool_step : pool → pool → Prop :=
| ps_start p t k : tasks p !! t = None → pool_step p (start t k p)
| ps_resume_wallet p t k : tasks p !! t = Some (k, InWallet) →
    wallet_status p k t = Some Granted → pool_step p (resume_wallet t k p)
| ps_fail_wallet p t k : tasks p !! t = Some (k, InWallet) →
    wallet_status p k t = Some Rejected → pool_step p (fail_wallet t k p)
| ps_resume_global p t k : tasks p !! t = Some (k, InGlobal) →
    global_status p t = Some Granted → pool_step p (resume_global t k p)
| ps_fail_global p t k : tasks p !! t = Some (k, InGlobal) →
    global_status p t = Some Rejected → pool_step p (fail_global t k p)
| ps_release p t k : tasks p !! t = Some (k, Uploading) → pool_step p (release_slots t k p)
| ps_wallet_timer p t k : wallet_status p k t = Some Pending →
    pool_step p (set_wallet k (lim_timeout t (walrusUploadWalletLimiter k p)) p)
| ps_global_timer p t : global_status p t = Some Pending →
    pool_step p (set_global (lim_timeout t (globalLimiter p)) p).

(** ** The invariant *)
Definition undecided (o : option pstate) : Prop :=
  o = Some Pending ∨ o = Some Granted ∨ o = Some Rejected.
Definition unheld (o : option pstate) : Prop :=
  o = None ∨ o = Some Rejected ∨ o = Some Released.

(** What the limiters record about a call of wallet [k] in phase [ph]. *)
Definition phase_inv (p : pool) (t k : nat) (ph : phase) : Prop :=
  match ph with
  | InWallet => undecided (wallet_status p k t) ∧ global_status p t = None
  | InGlobal => wallet_status p k t = Some Granted ∧ undecided (global_status p t)
  | Uploading => wallet_status p k t = Some Granted ∧ global_status p t = Some Granted
  | Finished => unheld (wallet_status p k t) ∧ unheld (global_status p t)
  end.

(** ... and about any call, seen from any wallet [k]. *)
Definition task_inv (p : pool) (t k : nat) : Prop :=
  match tasks p !! t with
  | None => wallet_status p k t = None ∧ global_status p t = None
  | Some (k', ph) =>
      (k ≠ k' → wallet_status p k t = None) ∧ (k = k' → phase_inv p t k ph)
  end.

Record pool_inv (p : pool) : Prop := {
  pi_global : lim_ok (globalLimiter p) ∧ lim_capacity (globalLimiter p) = max_concurrency;
  pi_wallet k : lim_ok (walrusUploadWalletLimiter k p) ∧
                lim_capacity (walrusUploadWalletLimiter k p) = per_wallet;
  pi_task t k : task_inv p t k;
  pi_active : activeWalrusUploads p = Z.of_nat (count is_uploading (tasks p));
  pi_queued : queuedWalrusUploads p = Z.of_nat (count is_queued (tasks p));
}.

(** The view of a pool whose limiter of wallet [k] was replaced by [l]. *)
Lemma walletLimiter_ins k l p p' k' :
  walletLimiters p' = <[k := l]> (walletLimiters p) →
  walrusUploadWalletLimiter k' p' = if decide (k = k') then l else walrusUploadWalletLimiter k' p.
Proof. unfold walrusUploadWalletLimiter. intros ->. rewrite lookup_insert. by case_decide. Qed.

Lemma wallet_status_ins k l p p' k' t :
  walletLimiters p' = <[k := l]> (walletLimiters p) →
  wallet_status p' k' t = if decide (k = k') then lim_status l t else wallet_status p k' t.
Proof. intros E. unfold wallet_status. rewrite (walletLimiter_ins k l p p') by done. by case_decide. Qed.

Context (Hmax : 0 <= max_concurrency) (Hper : 0 <= per_wallet).

Lemma init_inv : pool_inv init_pool.
Proof.
  destruct (lim_new_ok max_concurrency Hmax) as (Hok & Hcap & Hst).
  split; simpl; try done.
  - intros k. unfold walrusUploadWalletLimiter. simpl. rewrite lookup_empty. simpl.
    destruct (lim_new_ok per_wallet Hper) as (? & ? & _). done.
  - intros t k. unfold task_inv, wallet_status, global_status, walrusUploadWalletLimiter. simpl.
    rewrite !lookup_empty. simpl. split; [|done]. by apply lim_new_ok.
Qed.

(** ** Preservation *)
Definition evolves (o o' : option pstate) : Prop :=
  o' = o ∨ (o = Some Pending ∧ o' = Some Granted).

Lemma task_inv_frame p p' t k :
  tasks p' !! t = tasks p !! t →
  evolves (wallet_status p k t) (wallet_status p' k t) →
  evolves (global_status p t) (global_status p' t) →
  task_inv p t k → task_inv p' t k.
Proof.
  unfold task_inv, phase_inv, evolves, undecided, unheld. intros -> Hw Hg.
  destruct (tasks p !! t) as [[k' ph]|]; [|intuition congruence].
  intros [H1 H2]. split; [intuition congruence|]. intros ->. specialize (H2 eq_refl).
  destruct ph; intuition congruence.
Qed.

Lemma task_phase p t k ph : pool_inv p → tasks p !! t = Some (k, ph) → phase_inv p t k ph.
Proof.
  intros Hp Ht. pose proof (pi_task _ Hp t k) as Hi. unfold task_inv in Hi. rewrite Ht in Hi.
  by apply (proj2 Hi).
Qed.

Lemma task_other_wallet p t k ph k' :
  pool_inv p → tasks p !! t = Some (k, ph) → k' ≠ k → wallet_status p k' t = None.
Proof.
  intros Hp Ht Hk. pose proof (pi_task _ Hp t k') as Hi. unfold task_inv in Hi. rewrite Ht in Hi.
  by apply (proj1 Hi).
Qed.

(** The whole argument of one step of call [t], which ends in phase [ph]. *)
Lemma move_inv p p' t k ph :
  pool_inv p → tasks p' = <[t := (k, ph)]> (tasks p) →
  (lim_ok (globalLimiter p') ∧ lim_capacity (globalLimiter p') = max_concurrency) →
  (∀ k', lim_ok (walrusUploadWalletLimiter k' p') ∧
         lim_capacity (walrusUploadWalletLimiter k' p') = per_wallet) →
  (∀ t' k', t' ≠ t → evolves (wallet_status p k' t') (wallet_status p' k' t')) →
  (∀ t', t' ≠ t → evolves (global_status p t') (global_status p' t')) →
  (∀ k', k' ≠ k → wallet_status p' k' t = None) → phase_inv p' t k ph →
  activeWalrusUploads p' = Z.of_nat (count is_uploading (tasks p')) →
  queuedWalrusUploads p' = Z.of_nat (count is_queued (tasks p')) →
  pool_inv p'.
Proof.
  intros Hp Ht Hg Hw Hew Heg Hother Hph Ha Hq. split; try done.
  intros t' k'. destruct (decide (t' = t)) as [->|Hne].
  - unfold task_inv. rewrite Ht, lookup_insert_eq. split; [by eauto|]. by intros ->.
  - apply (task_inv_frame p); eauto using pi_task. by rewrite Ht, lookup_insert_ne.
Qed.

(** Replacing one wallet limiter keeps the others' promises. *)
Lemma wallets_ok_ins k l p p' :
  pool_inv p → walletLimiters p' = <[k := l]> (walletLimiters p) →
  lim_ok l → lim_capacity l = per_wallet →
  ∀ k', lim_ok (walrusUploadWalletLimiter k' p') ∧
        lim_capacity (walrusUploadWalletLimiter k' p') = per_wallet.
Proof.
  intros Hp E Hl Hc k'. rewrite (walletLimiter_ins k l p p') by done.
  case_decide; [done|by apply pi_wallet].
Qed.

Lemma evolves_refl o : evolves o o.
Proof. by left. Qed.

(** One segment of call [t] in phase [ph0] that leaves the counters as the
    phases say. *)
Lemma counts_move p t k ph0 ph :
  pool_inv p → tasks p !! t = Some (k, ph0) →
  let m := <[t := (k, ph)]> (tasks p) in
  Z.of_nat (count is_uploading m) =
    activeWalrusUploads p - (if decide (ph0 = Uploading) then 1 else 0) +
    (if decide (ph = Uploading) then 1 else 0) ∧
  Z.of_nat (count is_queued m) =
    queuedWalrusUploads p - (if decide (ph0 = InWallet ∨ ph0 = InGlobal) then 1 else 0) +
    (if decide (ph = InWallet ∨ ph = InGlobal) then 1 else 0).
Proof.
  intros Hp Ht. cbv zeta.
  pose proof (count_update is_uploading _ _ _ (k, ph) Ht) as H1.
  pose proof (count_update is_queued _ _ _ (k, ph) Ht) as H2.
  rewrite (pi_active _ Hp), (pi_queued _ Hp).
  destruct ph0, ph; simpl in H1, H2 |- *; lia.
Qed.

Lemma queued_pos p t k ph :
  pool_inv p → tasks p !! t = Some (k, ph) → ph = InWallet ∨ ph = InGlobal →
  0 < queuedWalrusUploads p.
Proof.
  intros Hp Ht Hph. rewrite (pi_queued _ Hp).
  assert (0 < count is_queued (tasks p))%nat; [|lia].
  eapply count_pos; [done|]. unfold is_queued. by apply bool_decide_eq_true.
Qed.

Lemma active_pos p t k :
  pool_inv p → tasks p !! t = Some (k, Uploading) → 0 < activeWalrusUploads p.
Proof.
  intros Hp Ht. rewrite (pi_active _ Hp).
  assert (0 < count is_uploading (tasks p))%nat; [|lia].
  eapply count_pos; [done|]. unfold is_uploading. by apply bool_decide_eq_true.
Qed.


(** One step of call [t] whose only effect on wallet limiters is to replace
    the one of its own wallet by [l]. *)
Lemma move_wallet_inv p p' t k ph l :
  pool_inv p → tasks p' = <[t := (k, ph)]> (tasks p) →
  walletLimiters p' = <[k := l]> (walletLimiters p) →
  (∀ k', k' ≠ k → wallet_status p k' t = None) →
  lim_ok l → lim_capacity l = per_wallet →
  (∀ t', t' ≠ t → evolves (wallet_status p k t') (lim_status l t')) →
  (lim_ok (globalLimiter p') ∧ lim_capacity (globalLimiter p') = max_concurrency) →
  (∀ t', t' ≠ t → evolves (global_status p t') (global_status p' t')) →
  phase_inv p' t k ph →
  activeWalrusUploads p' = Z.of_nat (count is_uploading (tasks p')) →
  queuedWalrusUploads p' = Z.of_nat (count is_queued (tasks p')) →
  pool_inv p'.
Proof.
  intros Hp Ht Hws Hoth Hok Hcap Hev Hg Heg Hph Ha Hq.
  pose proof (fun k' => wallet_status_ins k l p p' k') as Hs.
  eapply (move_inv p); try done.
  - by eapply wallets_ok_ins.
  - intros t' k' Hne. rewrite Hs by done. case_decide; [subst; by apply Hev|by left].
  - intros k' Hk. rewrite Hs, decide_False by done. by apply Hoth.
Qed.

(** One step of call [t] that leaves the wallet limiters alone. *)
Lemma move_global_inv p p' t k ph ph0 :
  pool_inv p → tasks p !! t = Some (k, ph0) → tasks p' = <[t := (k, ph)]> (tasks p) →
  walletLimiters p' = walletLimiters p →
  (lim_ok (globalLimiter p') ∧ lim_capacity (globalLimiter p') = max_concurrency) →
  (∀ t', t' ≠ t → evolves (global_status p t') (global_status p' t')) →
  phase_inv p' t k ph →
  activeWalrusUploads p' = Z.of_nat (count is_uploading (tasks p')) →
  queuedWalrusUploads p' = Z.of_nat (count is_queued (tasks p')) →
  pool_inv p'.
Proof.
  intros Hp Ht Ht' Hws Hg Heg Hph Ha Hq.
  assert (Hl : ∀ k', walrusUploadWalletLimiter k' p' = walrusUploadWalletLimiter k' p).
  { intros k'. unfold walrusUploadWalletLimiter. by rewrite Hws. }
  eapply (move_inv p); try done.
  - intros k'. rewrite Hl. by apply pi_wallet.
  - intros t' k' _. unfold wallet_status. rewrite Hl. by left.
  - intros k' Hk. unfold wallet_status. rewrite Hl. by eapply task_other_wallet.
Qed.

Lemma start_inv p t k : pool_inv p → tasks p !! t = None → pool_inv (start t k p).
Proof.
  intros Hp Ht. destruct (pi_wallet _ Hp k) as [Hok Hcap].
  assert (Hi : ∀ k', wallet_status p k' t = None ∧ global_status p t = None).
  { intros k'. pose proof (pi_task _ Hp t k') as Hi. unfold task_inv in Hi. by rewrite Ht in Hi. }
  destruct (lim_acquire_ok _ t Hok (proj1 (Hi k))) as (Hok' & Hcap' & Hst & Hoth).
  apply (move_wallet_inv p (start t k p) t k InWallet _ Hp eq_refl eq_refl); try assumption.
  - intros k' _. exact (proj1 (Hi k')).
  - congruence.
  - intros t' Hne. left. by apply Hoth.
  - apply (pi_global _ Hp).
  - intros. by left.
  - split; [|exact (proj2 (Hi k))]. erewrite wallet_status_ins by reflexivity.
    rewrite decide_True by done. unfold undecided. naive_solver.
  - simpl. rewrite count_insert_fresh by done. apply (pi_active _ Hp).
  - simpl. rewrite count_insert_fresh by done. rewrite (pi_queued _ Hp).
    unfold is_queued at 2. simpl. lia.
Qed.

Lemma resume_wallet_inv p t k :
  pool_inv p → tasks p !! t = Some (k, InWallet) → wallet_status p k t = Some Granted →
  pool_inv (resume_wallet t k p).
Proof.
  intros Hp Ht Hw. destruct (pi_global _ Hp) as [Hok Hcap].
  destruct (task_phase _ _ _ _ Hp Ht) as [_ Hgn].
  destruct (lim_acquire_ok _ t Hok Hgn) as (Hok' & Hcap' & Hst & Hoth).
  destruct (counts_move _ _ _ InWallet InGlobal Hp Ht) as [Ea Eq].
  apply (move_global_inv p (resume_wallet t k p) t k InGlobal InWallet Hp Ht eq_refl eq_refl); simpl in *; try lia.
  - split; [done|congruence].
  - intros t' Hne. left. by apply Hoth.
  - split; [exact Hw|]. unfold undecided, global_status. simpl. naive_solver.
Qed.

Lemma fail_wallet_inv p t k :
  pool_inv p → tasks p !! t = Some (k, InWallet) → wallet_status p k t = Some Rejected →
  pool_inv (fail_wallet t k p).
Proof.
  intros Hp Ht Hw. destruct (task_phase _ _ _ _ Hp Ht) as [_ Hgn].
  destruct (counts_move _ _ _ InWallet Finished Hp Ht) as [Ea Eq].
  pose proof (queued_pos _ _ _ _ Hp Ht ltac:(by left)).
  apply (move_global_inv p (fail_wallet t k p) t k Finished InWallet Hp Ht eq_refl eq_refl); simpl in *; try lia.
  - apply (pi_global _ Hp).
  - intros. by left.
  - split; [right; left; exact Hw|left; exact Hgn].
Qed.

Lemma resume_global_inv p t k :
  pool_inv p → tasks p !! t = Some (k, InGlobal) → global_status p t = Some Granted →
  pool_inv (resume_global t k p).
Proof.
  intros Hp Ht Hg. destruct (task_phase _ _ _ _ Hp Ht) as [Hw _].
  destruct (counts_move _ _ _ InGlobal Uploading Hp Ht) as [Ea Eq].
  pose proof (queued_pos _ _ _ _ Hp Ht ltac:(by right)).
  apply (move_global_inv p (resume_global t k p) t k Uploading InGlobal Hp Ht eq_refl eq_refl); simpl in *; try lia.
  - apply (pi_global _ Hp).
  - intros. by left.
  - split; [exact Hw|exact Hg].
Qed.

Lemma fail_global_inv p t k :
  pool_inv p → tasks p !! t = Some (k, InGlobal) → global_status p t = Some Rejected →
  pool_inv (fail_global t k p).
Proof.
  intros Hp Ht Hg. destruct (task_phase _ _ _ _ Hp Ht) as [Hw _].
  destruct (pi_wallet _ Hp k) as [Hok Hcap].
  destruct (lim_release_ok _ t Hok Hw) as (Hok' & Hcap' & Hst & Hoth).
  destruct (counts_move _ _ _ InGlobal Finished Hp Ht) as [Ea Eq].
  pose proof (queued_pos _ _ _ _ Hp Ht ltac:(by right)).
  apply (move_wallet_inv p (fail_global t k p) t k Finished _ Hp eq_refl eq_refl);
    try assumption; simpl in *; try lia.
  - intros k' Hk. by eapply task_other_wallet.
  - apply (pi_global _ Hp).
  - intros. by left.
  - split; [|right; left; exact Hg]. erewrite wallet_status_ins by reflexivity.
    rewrite decide_True by done. right. by right.
Qed.

Lemma release_slots_inv p t k :
  pool_inv p → tasks p !! t = Some (k, Uploading) → pool_inv (release_slots t k p).
Proof.
  intros Hp Ht. destruct (task_phase _ _ _ _ Hp Ht) as [Hw Hg].
  destruct (pi_wallet _ Hp k) as [Hok Hcap]. destruct (pi_global _ Hp) as [Hgok Hgcap].
  destruct (lim_release_ok _ t Hok Hw) as (Hok' & Hcap' & Hst & Hoth).
  destruct (lim_release_ok _ t Hgok Hg) as (Hgok' & Hgcap' & Hgst & Hgoth).
  destruct (counts_move _ _ _ Uploading Finished Hp Ht) as [Ea Eq].
  pose proof (active_pos _ _ _ Hp Ht).
  apply (move_wallet_inv p (release_slots t k p) t k Finished _ Hp eq_refl eq_refl);
    try assumption; simpl in *; try lia.
  - intros k' Hk. by eapply task_other_wallet.
  - split; [done|congruence].
  - split; [|right; right; exact Hgst]. erewrite wallet_status_ins by reflexivity.
    rewrite decide_True by done. right. by right.
Qed.

(** A timer of the wallet limiter fires. *)
Lemma wallet_timer_inv p t k :
  pool_inv p → wallet_status p k t = Some Pending →
  pool_inv (set_wallet k (lim_timeout t (walrusUploadWalletLimiter k p)) p).
Proof.
  intros Hp Hw. destruct (pi_wallet _ Hp k) as [Hok Hcap].
  destruct (lim_timeout_ok _ t Hok Hw) as (Hok' & Hcap' & Hst & Hoth).
  pose proof (wallet_status_ins k (lim_timeout t (walrusUploadWalletLimiter k p)) p
    (set_wallet k (lim_timeout t (walrusUploadWalletLimiter k p)) p)) as Hs.
  split; [apply Hp| | |apply Hp|apply Hp].
  { eapply wallets_ok_ins; try done. congruence. }
  intros t' k'. pose proof (pi_task _ Hp t' k') as Hi.
  destruct (decide (t' = t ∧ k = k')) as [[-> <-]|Hne].
  - unfold task_inv, phase_inv in *. rewrite Hs, decide_True by done. simpl.
    destruct (tasks p !! t) as [[k' ph]|]; [|destruct Hi; congruence].
    destruct Hi as [H1 H2]. split; [intros Hk; rewrite H1 in Hw; done|].
    intros Hk. specialize (H2 Hk). unfold undecided, unheld in *. rewrite Hst, Hw in *.
    destruct ph; naive_solver.
  - eapply (task_inv_frame p); try done; [|by left]. left. rewrite Hs by done.
    case_decide; [subst|done]. apply Hoth. naive_solver.
Qed.

(** A timer of the global limiter fires. *)
Lemma global_timer_inv p t :
  pool_inv p → global_status p t = Some Pending →
  pool_inv (set_global (lim_timeout t (globalLimiter p)) p).
Proof.
  intros Hp Hg. destruct (pi_global _ Hp) as [Hok Hcap].
  destruct (lim_timeout_ok _ t Hok Hg) as (Hok' & Hcap' & Hst & Hoth).
  split; [split; [done|simpl; congruence]|apply Hp| |apply Hp|apply Hp].
  intros t' k'. pose proof (pi_task _ Hp t' k') as Hi. destruct (decide (t' = t)) as [->|Hne].
  - unfold task_inv, phase_inv, undecided, unheld, wallet_status, global_status in *. simpl.
    rewrite Hst, Hg in *. destruct (tasks p !! t) as [[k0 ph]|]; [|naive_solver].
    destruct Hi as [H1 H2]. split; [exact H1|]. intros Hk. specialize (H2 Hk).
    destruct ph; naive_solver.
  - eapply (task_inv_frame p); try done; left; [done|]. by apply Hoth.
Qed.

Lemma pool_step_inv p p' : pool_inv p → pool_step p p' → pool_inv p'.
Proof.
  intros Hp Hs. destruct Hs;
    eauto using start_inv, resume_wallet_inv, fail_wallet_inv, resume_global_inv,
      fail_global_inv, release_slots_inv, wallet_timer_inv, global_timer_inv.
Qed.

Lemma reachable_pool_inv p : rtc pool_step init_pool p → pool_inv p.
Proof.
  intros Hr. pose proof init_inv as Hi. induction Hr; eauto using pool_step_inv.
Qed.

(** The calls that a set of tasks with granted slots counts. *)
Lemma count_le_capacity (P : nat * phase → bool) (ts : gmap nat (nat * phase)) (l : L) :
  lim_ok l → (∀ t tk, ts !! t = Some tk → P tk = true → lim_status l t = Some Granted) →
  Z.of_nat (count P ts) <= lim_capacity l.
Proof.
  intros Hok HP. unfold count. rewrite <-size_dom. apply lim_bound; [done|].
  intros t Ht. apply elem_of_dom in Ht as [tk Htk].
  apply map_lookup_filter_Some in Htk as [Htk Hb]. eauto.
Qed.

(** C32: whatever the interleaving of uploads, resumptions, time-outs and
    releases, the [active] and [queued] counters are the numbers of calls in
    these phases, at most [max_concurrency] uploads run at once and at most
    [per_wallet] on any wallet, and a call that failed or released holds no
    slot of any limiter. *)
Theorem upload_slots_safe (p : pool) :
  rtc pool_step init_pool p →
  activeWalrusUploads p = Z.of_nat (count is_uploading (tasks p)) ∧
  queuedWalrusUploads p = Z.of_nat (count is_queued (tasks p)) ∧
  activeWalrusUploads p <= max_concurrency ∧
  (∀ k, Z.of_nat (count (uploads_on k) (tasks p)) <= per_wallet) ∧
  (∀ t k, tasks p !! t = Some (k, Finished) →
     global_status p t ≠ Some Granted ∧ ∀ k', wallet_status p k' t ≠ Some Granted).
Proof.
  intros Hr. pose proof (reachable_pool_inv p Hr) as Hp.
  destruct (pi_global _ Hp) as [Hok Hcap]. rewrite (pi_active _ Hp).
  split_and!; [done|apply Hp| | |].
  - rewrite <-Hcap. apply count_le_capacity; [done|]. intros t [k ph] Ht Hb.
    apply bool_decide_eq_true in Hb. simpl in Hb. subst. by apply (task_phase _ _ _ _ Hp Ht).
  - intros k. destruct (pi_wallet _ Hp k) as [Hwok Hwcap]. rewrite <-Hwcap.
    apply count_le_capacity; [done|]. intros t tk Ht Hb.
    apply bool_decide_eq_true in Hb. subst. by apply (task_phase _ _ _ _ Hp Ht).
  - intros t k Ht. destruct (task_phase _ _ _ _ Hp Ht) as [Hw Hg]. unfold unheld in *.
    split; [naive_solver|]. intros k'. destruct (decide (k' = k)) as [->|Hk]; [naive_solver|].
    by rewrite (task_other_wallet _ _ _ _ _ Hp Ht Hk).
Qed.

End Pool.

(** Two uploads on one wallet with one slot per wallet: the second waits. *)
Definition ex_pool0 : pool := init_pool (L := AsyncSemaphore.semaphore) 2.
Definition ex_pool1 : pool := start 1 1 0 ex_pool0.
Definition ex_pool2 : pool := resume_global 1 0 (resume_wallet 1 0 ex_pool1).
Definition ex_pool : pool := start 1 2 0 ex_pool2.

Lemma ex_pool_reachable : rtc (pool_step 1) ex_pool0 ex_pool.
Proof.
  eapply rtc_l; [by apply (ps_start 1 ex_pool0 1 0)|].
  eapply rtc_l; [by apply (ps_resume_wallet 1 ex_pool1 1 0)|].
  eapply rtc_l; [by apply (ps_resume_global 1 (resume_wallet 1 0 ex_pool1) 1 0)|].
  apply rtc_once. by apply (ps_start 1 ex_pool2 2 0).
Defined.

Lemma upload_slots_safe_witness :
  activeWalrusUploads ex_pool = 1 ∧ queuedWalrusUploads ex_pool = 1 ∧
  activeWalrusUploads ex_pool <= 2 ∧
  (∀ k, Z.of_nat (count (uploads_on k) (tasks ex_pool)) <= 1).
Proof.
  destruct (upload_slots_safe 2 1 ltac:(lia) ltac:(lia) ex_pool ex_pool_reachable)
    as (_ & _ & H3 & H4 & _).
  split; [reflexivity|]. split; [reflexivity|]. split; [exact H3|exact H4].
Defined.
