(* ===== verification/RateLimit.v ===== *)
(** * MCP session rate limiting (scripts/mcp/rateLimit.ts)

    [McpRateLimiter]: its per-IP state, [acquire], [release], the one-shot
    closures of [releaseFn], and the step relation of a process that opens
    and closes sessions while the clock runs. *)
From Stdlib Require Import Ascii.
From stdpp Require Import relations.
From S2P Require Import Prelude JsText JsNumber.
Local Open Scope Z_scope.

Module RateLimit.

(** ** Configuration *)
Record RateLimitConfig : Type := Config {
  maxTotalSessions : Z;
  maxSessionsPerIp : Z;
  maxNewSessionsPerIpPerMin : Z;
}.
Definition DEFAULTS : RateLimitConfig := Config 1000 16 30.

Definition parsePositiveInt (value : option string) (fallback : Z) : Z :=
  match value with
  | None => fallback
  | Some v =>
      if is_empty v then fallback
      else match parse_int10 v with Some n => if 0 <? n then n else fallback | None => fallback end
  end.

Definition loadRateLimitConfigFromEnv (env : string → option string) : RateLimitConfig :=
  Config (parsePositiveInt (env "MCP_MAX_TOTAL_SESSIONS") (maxTotalSessions DEFAULTS))
         (parsePositiveInt (env "MCP_MAX_SESSIONS_PER_IP") (maxSessionsPerIp DEFAULTS))
         (parsePositiveInt (env "MCP_MAX_NEW_SESSIONS_PER_IP_PER_MIN")
            (maxNewSessionsPerIpPerMin DEFAULTS)).

(** ** The client address

    [fwd]: the [x-forwarded-for] header, absent, one string, or repeated;
    [isIP] is Node's test. *)
Inductive header : Type := NoHeader | OneValue (s : string) | Values (l : list string).

Definition clientIpFromRequest (isIP : string → bool) (fwd : header) (peer : option string) : string :=
  let raw := match fwd with
             | Values [s] | OneValue s => Some s
             | _ => None
             end in
  let from_peer :=
    match peer with
    | Some p => if negb (is_empty (trim p)) && isIP (trim p) then trim p else "unknown"
    | None => "unknown"
    end in
  match raw with
  | Some s => if negb (includes "," (trim s)) && isIP (trim s) then trim s else from_peer
  | None => from_peer
  end.

(** ** The limiter *)
Record IpState : Type := Ip { active : Z; opens : list Z }.

Record McpRateLimiter : Type := Limiter {
  config : RateLimitConfig;
  perIp : gmap string IpState;
  totalActive : Z;
}.
Definition newLimiter (c : RateLimitConfig) : McpRateLimiter := Limiter c ∅ 0.

Inductive deny_reason : Type := global_cap | ip_active_cap | ip_burst_cap.
Inductive AcquireResult : Type := Ok | Denied (reason : deny_reason) (retryAfterSeconds : Z).

Definition WINDOW : Z := 60000.
(** [opens.filter((t) => t > cutoff)] *)
Definition recent (cutoff : Z) (l : list Z) : list Z := filter (λ t, cutoff < t) l.

(** [Math.ceil(ms / 1000)] *)
Definition ceil_seconds (ms : Z) : Z := - ((- ms) / 1000).

(** A refused call has already written [state.opens]: that is visible when
    [state] is the object stored in [perIp], not when it is the fresh one. *)
Definition prune_stored (ip : string) (st : IpState) (s : McpRateLimiter) : McpRateLimiter :=
  match perIp s !! ip with
  | Some _ => Limiter (config s) (<[ip := st]> (perIp s)) (totalActive s)
  | None => s
  end.

Definition acquire (ip : string) (now : Z) (s : McpRateLimiter) : McpRateLimiter * AcquireResult :=
  if maxTotalSessions (config s) <=? totalActive s then (s, Denied global_cap 30)
  else
    let st0 := default (Ip 0 []) (perIp s !! ip) in
    let st := Ip (active st0) (recent (now - WINDOW) (opens st0)) in
    if maxSessionsPerIp (config s) <=? active st then
      (prune_stored ip st s, Denied ip_active_cap 30)
    else if maxNewSessionsPerIpPerMin (config s) <=? Z.of_nat (length (opens st)) then
      let oldest := default now (head (opens st)) in
      (prune_stored ip st s, Denied ip_burst_cap (Z.max 1 (ceil_seconds (oldest + WINDOW - now))))
    else
      (Limiter (config s) (<[ip := Ip (active st + 1) (opens st ++ [now])]> (perIp s))
         (totalActive s + 1), Ok).

Definition release (ip : string) (s : McpRateLimiter) : McpRateLimiter :=
  match perIp s !! ip with
  | None => s
  | Some st =>
      let st' := Ip (Z.max 0 (active st - 1)) (opens st) in
      let m := <[ip := st']> (perIp s) in
      let m' := if (active st' =? 0) && bool_decide (opens st' = []) then delete ip m else m in
      Limiter (config s) m' (Z.max 0 (totalActive s - 1))
  end.

Definition stats (s : McpRateLimiter) : Z * nat * RateLimitConfig :=
  (totalActive s, size (perIp s), config s).

(** ** Sessions over time

    [closures] are the [releaseFn] closures handed out: their [ip] and their
    [released] flag.  [now] is the clock and [granted] the history of the
    successful [acquire] calls (a ghost: the code does not keep it). *)
Record process : Type := Process {
  limiter : McpRateLimiter;
  closures : gmap nat (string * bool);
  clock : Z;
  granted : list (string * Z);
}.

(** The closure of [releaseFn]. *)
Definition run_closure (id : nat) (p : process) : process :=
  match closures p !! id with
  | Some (ip, false) =>
      Process (release ip (limiter p)) (<[id := (ip, true)]> (closures p)) (clock p) (granted p)
  | _ => p
  end.

(** [acquire] and, when it succeeds, [releaseFn]. *)
Definition open_session (id : nat) (ip : string) (p : process) : process :=
  match acquire ip (clock p) (limiter p) with
  | (l, Ok) => Process l (<[id := (ip, false)]> (closures p)) (clock p) (granted p ++ [(ip, clock p)])
  | (l, Denied _ _) => Process l (closures p) (clock p) (granted p)
  end.

Inductive step : process → process → Prop :=
| step_open p id ip : closures p !! id = None → step p (open_session id ip p)
| step_close p id : step p (run_closure id p)
| step_tick p t : clock p <= t → step p (Process (limiter p) (closures p) t (granted p)).

Definition initial (c : RateLimitConfig) (t : Z) : process := Process (newLimiter c) ∅ t [].

(** Open sessions, in total and of one address. *)
Definition is_open (c : string * bool) : bool := negb c.2.
Definition is_open_on (ip : string) (c : string * bool) : bool := seqb c.1 ip && negb c.2.
Definition sessions (p : process) : nat := count is_open (closures p).
Definition sessions_of (ip : string) (p : process) : nat := count (is_open_on ip) (closures p).
(** Times of the sessions granted to [ip]. *)
Definition granted_to (ip : string) (l : list (string * Z)) : list Z :=
  (filter (λ e, e.1 = ip) l).*2.

(** ** The invariant *)
Definition ip_state (ip : string) (s : McpRateLimiter) : IpState := default (Ip 0 []) (perIp s !! ip).

Record inv (c : RateLimitConfig) (p : process) : Prop := {
  inv_config : config (limiter p) = c;
  inv_total : totalActive (limiter p) = Z.of_nat (sessions p);
  inv_total_cap : totalActive (limiter p) <= maxTotalSessions c;
  inv_active ip : active (ip_state ip (limiter p)) = Z.of_nat (sessions_of ip p);
  inv_active_cap ip : active (ip_state ip (limiter p)) <= maxSessionsPerIp c;
  inv_opens ip : recent (clock p - WINDOW) (opens (ip_state ip (limiter p))) =
                 recent (clock p - WINDOW) (granted_to ip (granted p));
  inv_burst ip :
    Z.of_nat (length (recent (clock p - WINDOW) (opens (ip_state ip (limiter p))))) <=
    maxNewSessionsPerIpPerMin c;
}.

Definition positive (c : RateLimitConfig) : Prop :=
  0 < maxTotalSessions c ∧ 0 < maxSessionsPerIp c ∧ 0 < maxNewSessionsPerIpPerMin c.

Lemma parsePositiveInt_pos v d : 0 < d → 0 < parsePositiveInt v d.
Proof. intros Hd. unfold parsePositiveInt. repeat case_match; try done. by apply Z.ltb_lt. Qed.

Lemma loaded_positive env : positive (loadRateLimitConfigFromEnv env).
Proof. unfold positive. simpl. split_and!; by apply parsePositiveInt_pos. Qed.

Lemma recent_recent c1 c2 l : c1 <= c2 → recent c2 (recent c1 l) = recent c2 l.
Proof.
  intros Hc. unfold recent. rewrite list_filter_filter. apply list_filter_iff.
  intros t. split; [naive_solver|]. intros. split; [done|lia].
Qed.

Lemma recent_length c1 c2 l : c1 <= c2 → (length (recent c2 l) ≤ length (recent c1 l))%nat.
Proof. intros Hc. rewrite <-(recent_recent c1 c2) by done. apply length_filter. Qed.

Lemma recent_app c l l' : recent c (l ++ l') = recent c l ++ recent c l'.
Proof. apply filter_app. Qed.

Lemma granted_to_app ip l l' : granted_to ip (l ++ l') = granted_to ip l ++ granted_to ip l'.
Proof. unfold granted_to. by rewrite filter_app, fmap_app. Qed.

Lemma ip_state_insert ip ip' st c m n :
  ip_state ip' (Limiter c (<[ip := st]> m) n) =
  if decide (ip = ip') then st else ip_state ip' (Limiter c m n).
Proof. unfold ip_state. simpl. rewrite lookup_insert. by case_decide. Qed.

Lemma ip_state_prune ip ip' st s :
  active st = active (ip_state ip s) → (perIp s !! ip = None → opens st = []) →
  ip_state ip' (prune_stored ip st s) = if decide (ip = ip') then st else ip_state ip' s.
Proof.
  intros Ha Ho. unfold prune_stored. destruct (perIp s !! ip) as [st0|] eqn:E.
  - by rewrite ip_state_insert; destruct s.
  - case_decide as Hd; [|done]. subst. unfold ip_state in *. rewrite E in *. simpl in *.
    destruct st as [a o]. simpl in *. by rewrite Ha, Ho.
Qed.

Lemma prune_stored_same ip st s :
  config (prune_stored ip st s) = config s ∧ totalActive (prune_stored ip st s) = totalActive s.
Proof. unfold prune_stored. by case_match. Qed.

(** A refused call only forgets opens outside the window. *)
Lemma acquire_denied ip now s s' reason n :
  acquire ip now s = (s', Denied reason n) →
  config s' = config s ∧ totalActive s' = totalActive s ∧
  ∀ ip', active (ip_state ip' s') = active (ip_state ip' s) ∧
         recent (now - WINDOW) (opens (ip_state ip' s')) = recent (now - WINDOW) (opens (ip_state ip' s)).
Proof.
  unfold acquire. fold (ip_state ip s). set (st := Ip _ _).
  assert (Hp : ∀ ip', active (ip_state ip' (prune_stored ip st s)) = active (ip_state ip' s) ∧
    recent (now - WINDOW) (opens (ip_state ip' (prune_stored ip st s))) =
    recent (now - WINDOW) (opens (ip_state ip' s))).
  { intros ip'. rewrite ip_state_prune; [|done|].
    - case_decide as Hd; [subst|done]. split; [done|]. simpl. by rewrite recent_recent by lia.
    - intros Hn. unfold st, ip_state. by rewrite Hn. }
  pose proof (prune_stored_same ip st s) as [Hc Ht].
  destruct (_ <=? totalActive s); [intros; by simplify_eq|].
  destruct (_ <=? active st); [intros; by simplify_eq|].
  case_match; [|done]. intros. simplify_eq. done.
Qed.

Lemma acquire_ok ip now s s' :
  acquire ip now s = (s', Ok) →
  config s' = config s ∧ totalActive s' = totalActive s + 1 ∧
  totalActive s < maxTotalSessions (config s) ∧
  active (ip_state ip s) < maxSessionsPerIp (config s) ∧
  Z.of_nat (length (recent (now - WINDOW) (opens (ip_state ip s)))) <
    maxNewSessionsPerIpPerMin (config s) ∧
  ∀ ip', ip_state ip' s' =
    if decide (ip = ip') then Ip (active (ip_state ip s) + 1)
      (recent (now - WINDOW) (opens (ip_state ip s)) ++ [now])
    else ip_state ip' s.
Proof.
  unfold acquire. fold (ip_state ip s). set (st := Ip _ _).
  destruct (_ <=? totalActive s) eqn:E1; [done|].
  destruct (_ <=? active st) eqn:E2; [done|].
  destruct (_ <=? Z.of_nat _) eqn:E3; [done|]. intros [= <-]. bool_to_prop. simpl in *.
  split_and!; try done. intros ip'. rewrite ip_state_insert. case_decide; by destruct s.
Qed.

Lemma release_spec ip s :
  config (release ip s) = config s ∧
  (0 < active (ip_state ip s) → totalActive (release ip s) = Z.max 0 (totalActive s - 1)) ∧
  ∀ ip', ip_state ip' (release ip s) =
    if decide (ip = ip') then
      match perIp s !! ip with
      | Some st => Ip (Z.max 0 (active st - 1)) (opens st)
      | None => Ip 0 []
      end
    else ip_state ip' s.
Proof.
  unfold release, ip_state. destruct (perIp s !! ip) as [st|] eqn:E; simpl.
  - split_and!; [done|done|]. intros ip'. case_match eqn:Eb; case_decide; subst.
    + rewrite lookup_delete_eq. split_andb. bool_to_prop. simpl in *. congruence.
    + by rewrite lookup_delete_ne, lookup_insert_ne.
    + by rewrite lookup_insert_eq.
    + by rewrite lookup_insert_ne.
  - split_and!; [done|lia|]. intros ip'. case_decide; subst; by rewrite ?E.
Qed.

(** ** Preservation *)
Lemma initial_inv c t : positive c → inv c (initial c t).
Proof.
  intros (H1 & H2 & H3). split; simpl; try done; try lia;
    intros; unfold sessions, sessions_of, ip_state; simpl; rewrite ?lookup_empty; simpl;
    rewrite ?count_empty; try done; lia.
Qed.

Lemma tick_inv c p t :
  inv c p → clock p <= t → inv c (Process (limiter p) (closures p) t (granted p)).
Proof.
  intros [] Ht. split; simpl; try done; intros ip.
  - rewrite <-(recent_recent (clock p - WINDOW)), inv_opens0 by lia. apply recent_recent. lia.
  - pose proof (recent_length (clock p - WINDOW) (t - WINDOW)
      (opens (ip_state ip (limiter p))) ltac:(lia)). specialize (inv_burst0 ip). lia.
Qed.

Lemma open_inv c p id ip : inv c p → closures p !! id = None → inv c (open_session id ip p).
Proof.
  intros Hi Hid. unfold open_session. destruct (acquire ip (clock p) (limiter p)) as [l r] eqn:E.
  destruct Hi as [Hc Ht Htc Ha Hac Ho Hb]. destruct r as [|reason n].
  - apply acquire_ok in E as (E1 & E2 & E3 & E4 & E5 & E6). rewrite Hc in *.
    split; simpl; try done; unfold sessions, sessions_of; simpl.
    + rewrite count_insert_fresh, E2, Ht by done. unfold sessions. simpl. lia.
    + lia.
    + intros ip'. rewrite E6, count_insert_fresh by done. unfold is_open_on at 1. simpl.
      specialize (Ha ip'). unfold sessions_of in Ha. case_decide as Hd.
      * subst. rewrite seqb_refl. simpl. lia.
      * apply seqb_neq in Hd. rewrite Hd. simpl. lia.
    + intros ip'. rewrite E6. case_decide; [simpl; lia|done].
    + intros ip'. rewrite E6, granted_to_app, recent_app, <-Ho. unfold granted_to. simpl.
      rewrite filter_cons, filter_nil. simpl. case_decide as Hd.
      * subst. cbn [opens]. rewrite recent_app, recent_recent by lia. done.
      * simpl. by rewrite app_nil_r.
    + intros ip'. rewrite E6. case_decide as Hd; [|done]. simpl.
      rewrite recent_app, recent_recent, length_app by lia.
      pose proof (length_filter (λ t, clock p - WINDOW < t) [clock p]). unfold recent at 2.
      simpl in *. lia.
  - apply acquire_denied in E as (E1 & E2 & E3). rewrite <-E2 in *.
    split; simpl; try done; try congruence; intros ip'; destruct (E3 ip') as [E4 E5].
    + rewrite E4. apply Ha.
    + rewrite E4. apply Hac.
    + by rewrite E5.
    + by rewrite E5.
Qed.

Lemma close_inv c p id : inv c p → inv c (run_closure id p).
Proof.
  intros Hi. unfold run_closure. destruct (closures p !! id) as [[ip []]|] eqn:Hid; try done.
  destruct Hi as [Hc Ht Htc Ha Hac Ho Hb]. pose proof (release_spec ip (limiter p)) as (R1 & R2 & R3).
  assert (Hpos : (0 < sessions_of ip p)%nat).
  { eapply count_pos; [done|]. unfold is_open_on. simpl. by rewrite seqb_refl. }
  pose proof (Ha ip) as Haip.
  assert (Hst : ∃ st, perIp (limiter p) !! ip = Some st ∧ ip_state ip (limiter p) = st).
  { unfold ip_state in *. destruct (perIp (limiter p) !! ip); [by eexists|]. simpl in Haip. lia. }
  destruct Hst as (st & Hst & Hip). rewrite Hst in R3. rewrite Hip in *.
  pose proof (count_update is_open _ _ _ (ip, true) Hid) as Hcu. simpl in Hcu.
  assert (Hs1 : ∀ ip', Z.of_nat (sessions_of ip' (Process (release ip (limiter p))
    (<[id := (ip, true)]> (closures p)) (clock p) (granted p))) =
    Z.of_nat (sessions_of ip' p) - if decide (ip = ip') then 1 else 0).
  { intros ip'. pose proof (count_update (is_open_on ip') _ _ _ (ip, true) Hid) as Hcu'.
    unfold is_open_on in Hcu' at 2 4. simpl in Hcu'. rewrite andb_false_r, andb_true_r in Hcu'.
    unfold sessions_of. simpl. case_decide as Hd.
    - subst. rewrite seqb_refl in Hcu'. simpl in *. lia.
    - apply seqb_neq in Hd. rewrite Hd in Hcu'. simpl in *. lia. }
  split; simpl; try congruence; unfold sessions in *; simpl.
  - rewrite R2 by lia. lia.
  - rewrite R2 by lia. lia.
  - intros ip'. rewrite R3, Hs1. specialize (Ha ip'). case_decide; [subst|lia]. simpl. lia.
  - intros ip'. rewrite R3. specialize (Hac ip'). case_decide; [subst|done]. simpl. lia.
  - intros ip'. rewrite R3. specialize (Ho ip'). case_decide; [subst|done]. done.
  - intros ip'. rewrite R3. specialize (Hb ip'). case_decide; [subst|done]. done.
Qed.

Lemma step_inv c p p' : inv c p → step p p' → inv c p'.
Proof. intros Hi Hs. destruct Hs; eauto using open_inv, close_inv, tick_inv. Qed.

Lemma reachable_inv c t p : positive c → rtc step (initial c t) p → inv c p.
Proof.
  intros Hc Hr. pose proof (initial_inv c t Hc). induction Hr; eauto using step_inv.
Qed.

(** However sessions are opened and closed (closures may run any number
    of times) while the clock advances, the limiter's total is the number of
    open sessions, which stays within the global cap, each address keeps
    within its own cap, and no address is granted more sessions in the last
    minute than the burst limit. *)
Theorem rate_limit_safe (c : RateLimitConfig) (t : Z) (p : process) :
  positive c → rtc step (initial c t) p →
  totalActive (limiter p) = Z.of_nat (sessions p) ∧
  Z.of_nat (sessions p) <= maxTotalSessions c ∧
  ∀ ip, Z.of_nat (sessions_of ip p) <= maxSessionsPerIp c ∧
        Z.of_nat (length (recent (clock p - WINDOW) (granted_to ip (granted p)))) <=
          maxNewSessionsPerIpPerMin c.
Proof.
  intros Hc Hr. destruct (reachable_inv c t p Hc Hr) as [Hcf Ht Htc Ha Hac Ho Hb].
  split_and!; [done|lia|]. intros ip. split.
  - specialize (Ha ip). specialize (Hac ip). lia.
  - by rewrite <-Ho.
Qed.



Lemma ceil_seconds_pos ms : 0 < ms → 1 <= ceil_seconds ms.
Proof. intros. unfold ceil_seconds. assert ((- ms) / 1000 < 0) by (apply Z.div_lt_upper_bound; lia). lia. Qed.


(** A small configuration in use: one address at its cap. *)
Definition ex_config : RateLimitConfig := Config 3 2 3.
Definition ex_process : process :=
  open_session 2 "1.2.3.4" (open_session 1 "1.2.3.4" (initial ex_config 1000)).
Lemma ex_process_reachable : rtc step (initial ex_config 1000) ex_process.
Proof.
  eapply rtc_l; [by apply (step_open _ 1 "1.2.3.4")|]. apply rtc_once.
  apply (step_open (open_session 1 "1.2.3.4" (initial ex_config 1000)) 2 "1.2.3.4").
  vm_compute. reflexivity.
Defined.
Lemma ex_config_positive : positive ex_config.
Proof. unfold positive. simpl. lia. Defined.

Lemma rate_limit_safe_witness :
  sessions ex_process = 2%nat ∧ totalActive (limiter ex_process) = 2.
Proof.
  split; [vm_compute; reflexivity|].
  pose proof (rate_limit_safe ex_config 1000 ex_process ex_config_positive ex_process_reachable)
    as (H & _). rewrite H. vm_compute. reflexivity.
Defined.


(** An address that closed its only session and stays away is never dropped
    from [perIp]: [release] deletes an entry only when [opens] is empty, and
    [opens] is pruned by [acquire] alone. *)
Lemma released_entry_stays :
  let p := run_closure 1 (open_session 1 "1.2.3.4" (initial ex_config 1000)) in
  let later := Process (limiter p) (closures p) (1000 + 100 * WINDOW) (granted p) in
  sessions later = 0%nat ∧ perIp (limiter later) !! "1.2.3.4" = Some (Ip 0 [1000]).
Proof. vm_compute. done. Qed.

End RateLimit.
