(* ===== verification/McpSessions.v ===== *)
(** * MCP sessions (scripts/mcp/index.ts and scripts/mcp/auth.ts)

    Header authentication, the SSE and streamable-HTTP handlers, their
    session maps and cleanup closures, over the limiter of [RateLimit].
    Each handler is cut at its [await]s; the step relation interleaves the
    segments of all requests with transport callbacks and closing sockets.

    The MCP SDK's transports, the Ed25519 derivation and [MemWal.create] of
    the pinned package are parameters: a transport is seen through the
    events it raises (initialised, returned, threw, closed). *)
From Stdlib Require Import Ascii.
From stdpp Require Import relations.
From S2P Require Import Prelude JsText Hex RateLimit.
Local Open Scope Z_scope.

Module McpSessions.
Import RateLimit.

Section Mcp.
(** [getPublicKeyAsync], and the error [MemWal.create] throws, if any. *)
Context (ed25519_public : list ascii → list ascii).
Context (memwal_create_error : string → string → option string → option string).

(** ** auth.ts *)
Record request : Type := Request {
  rq_method : string;
  rq_authorization : option string;
  rq_account : option string;
  rq_namespace : option string;
  rq_oauth_scope : option string;
  rq_session_id : option string;  (** [?sessionId=] or [mcp-session-id] *)
  rq_ip : string;
}.

Record MemWalSession : Type := Session {
  accountId : string;
  delegateKeyHex : string;
  delegatePubKeyHex : string;
  namespace : option string;
  oauthScope : option string;
}.

Inductive auth_error : Type :=
| MissingBearer | BadBearer | BadAccount      (** [McpAuthError], status 401 *)
| CreateFailed (message : string).             (** any other error: status 500 *)

Definition is_hex64_key (s : string) : bool :=
  sforallb is_hex s && (slen s =? 64)%nat ||
  (starts_with "0x" s && sforallb is_hex (drop_s 2 s) && (slen s =? 66)%nat).

(** [hexToBytes] of auth.ts, on the 64 digits it is called with. *)
Definition publicKeyHex (privateKeyHex : string) : string :=
  let seedHex := if starts_with "0x" privateKeyHex then drop_s 2 privateKeyHex else privateKeyHex in
  Hex.bytesToHex (ed25519_public (Hex.hex_pairs (chars seedHex))).

Definition session_key (accountId delegatePubKeyHex : string) : string :=
  "delegate:" +:+ accountId +:+ ":" +:+ delegatePubKeyHex.

Definition resolveAuth (rq : request) : auth_error + (MemWalSession * string) :=
  let authHeader := default empty_str (rq_authorization rq) in
  guard_or negb (is_empty authHeader) && starts_with "bearer " (lower authHeader) else MissingBearer;
  let rawKey := trim (drop_s 7 authHeader) in
  guard_or is_hex64_key rawKey else BadBearer;
  let key := if starts_with "0x" rawKey then drop_s 2 rawKey else rawKey in
  let account := default empty_str (rq_account rq) in
  guard_or negb (is_empty account) && is_full_address account else BadAccount;
  let pub := publicKeyHex key in
  match memwal_create_error key account (rq_namespace rq) with
  | Some message => inl (CreateFailed message)
  | None =>
      inr (Session account key pub (rq_namespace rq) (rq_oauth_scope rq), session_key account pub)
  end.

Definition auth_status (e : auth_error) : Z :=
  match e with CreateFailed _ => 500 | _ => 401 end.

(** ** Server state

    Requests, slot closures and connections are numbered by the request
    that creates them. *)
Inductive transport_kind : Type := Sse | Streamable.

Record connection : Type := Connection {
  c_kind : transport_kind;
  c_id : string;
  c_sessionKey : string;
  c_cleanedUp : bool;
}.

(** Where a request's handler stands. *)
Inductive task : Type :=
| SseAuth (rq : request)
| PostAuth (rq : request) (conn : nat)
| StreamAuth (rq : request)
| StreamNew (rq : request) (sessionKey : string) (initialized : bool)
| Done (rq : request).

Record server : Type := Server {
  proc : process;
  sessionsById : gmap string nat;
  streamableSessions : gmap string nat;
  conns : gmap nat connection;
  tasks : gmap nat task;
  responses : gmap nat Z;            (** statuses answered by the handlers *)
  dispatched : list (nat * nat);     (** (request, connection) handed to a transport *)
  failed : gset nat;                 (** openings whose transport threw or closed early *)
}.

Definition set_proc (p : process) (s : server) : server :=
  Server p (sessionsById s) (streamableSessions s) (conns s) (tasks s) (responses s)
         (dispatched s) (failed s).
Definition set_task (r : nat) (t : task) (s : server) : server :=
  Server (proc s) (sessionsById s) (streamableSessions s) (conns s) (<[r := t]> (tasks s))
         (responses s) (dispatched s) (failed s).
Definition respond (r : nat) (status : Z) (s : server) : server :=
  Server (proc s) (sessionsById s) (streamableSessions s) (conns s) (tasks s)
         (<[r := status]> (responses s)) (dispatched s) (failed s).
Definition set_conn (r : nat) (c : connection) (s : server) : server :=
  Server (proc s) (sessionsById s) (streamableSessions s) (<[r := c]> (conns s)) (tasks s)
         (responses s) (dispatched s) (failed s).
Definition dispatch (r c : nat) (s : server) : server :=
  Server (proc s) (sessionsById s) (streamableSessions s) (conns s) (tasks s) (responses s)
         (dispatched s ++ [(r, c)]) (failed s).
Definition set_sse (m : gmap string nat) (s : server) : server :=
  Server (proc s) m (streamableSessions s) (conns s) (tasks s) (responses s) (dispatched s) (failed s).
Definition set_streamable (m : gmap string nat) (s : server) : server :=
  Server (proc s) (sessionsById s) m (conns s) (tasks s) (responses s) (dispatched s) (failed s).
Definition add_failed (r : nat) (s : server) : server :=
  Server (proc s) (sessionsById s) (streamableSessions s) (conns s) (tasks s) (responses s)
         (dispatched s) ({[r]} ∪ failed s).

(** [slot.ok], after [limiter.acquire(ip)] for request [r] *)
Definition slot_ok (r : nat) (s : server) : bool :=
  match closures (proc s) !! r with Some (_, released) => negb released | None => false end.
Definition acquire_slot (r : nat) (ip : string) (s : server) : server :=
  set_proc (open_session r ip (proc s)) s.
Definition releaseSlot (r : nat) (s : server) : server :=
  set_proc (run_closure r (proc s)) s.

(** ** The handlers *)

(** [handleSse] up to [await resolveAuth] *)
Definition sse_begin (r : nat) (rq : request) (s : server) : server :=
  let s1 := acquire_slot r (rq_ip rq) s in
  if slot_ok r s1 then set_task r (SseAuth rq) s1
  else set_task r (Done rq) (respond r 429 s1).

(** ... and from there; [tid] is the transport's fresh id. *)
Definition sse_resume (r : nat) (rq : request) (tid : string) (s : server) : server :=
  match resolveAuth rq with
  | inl e => set_task r (Done rq) (respond r (auth_status e) (releaseSlot r s))
  | inr (_, key) =>
      set_task r (Done rq)
        (set_sse (<[tid := r]> (sessionsById s)) (set_conn r (Connection Sse tid key false) s))
  end.

(** The [cleanup] closure of connection [r]. *)
Definition cleanup (r : nat) (s : server) : server :=
  match conns s !! r with
  | Some (Connection k cid key false) =>
      let s1 := set_conn r (Connection k cid key true) s in
      let s2 := match k with
                | Sse => set_sse (delete cid (sessionsById s1)) s1
                | Streamable => set_streamable (delete cid (streamableSessions s1)) s1
                end in
      releaseSlot r s2
  | _ => s
  end.

(** [handlePostMessage] up to [await resolveAuth] *)
Definition post_begin (r : nat) (rq : request) (s : server) : server :=
  match rq_session_id rq with
  | Some sid =>
      if is_empty sid then set_task r (Done rq) (respond r 400 s)
      else match sessionsById s !! sid with
           | Some c => set_task r (PostAuth rq c) s
           | None => set_task r (Done rq) (respond r 404 s)
           end
  | None => set_task r (Done rq) (respond r 400 s)
  end.

Definition post_resume (r : nat) (rq : request) (c : nat) (s : server) : server :=
  match resolveAuth rq with
  | inl e => set_task r (Done rq) (respond r (auth_status e) s)
  | inr (_, key) =>
      match conns s !! c with
      | Some conn =>
          if seqb (c_sessionKey conn) key then set_task r (Done rq) (dispatch r c s)
          else set_task r (Done rq) (respond r 403 s)
      | None => s
      end
  end.

(** The connection named by [mcp-session-id], if any. *)
Definition named_connection (rq : request) (s : server) : option nat :=
  match rq_session_id rq with
  | Some sid => if is_empty sid then None else streamableSessions s !! sid
  | None => None
  end.

(** [handleStreamableHttp] after [await resolveAuth], up to the next [await] *)
Definition stream_resume (r : nat) (rq : request) (s : server) : server :=
  match resolveAuth rq with
  | inl e => set_task r (Done rq) (respond r (auth_status e) s)
  | inr (_, key) =>
      match named_connection rq s ≫= (λ c, pair c <$> conns s !! c) with
      | Some (c, conn) =>
          if seqb (c_sessionKey conn) key then set_task r (Done rq) (dispatch r c s)
          else set_task r (Done rq) (respond r 403 s)
      | None =>
          if negb (seqb (rq_method rq) "POST") then set_task r (Done rq) (respond r 400 s)
          else
            let s1 := acquire_slot r (rq_ip rq) s in
            if slot_ok r s1 then set_task r (StreamNew rq key false) s1
            else set_task r (Done rq) (respond r 429 s1)
      end
  end.

(** [onsessioninitialized(newId)] *)
Definition stream_initialized (r : nat) (rq : request) (key newId : string) (s : server) : server :=
  set_task r (StreamNew rq key true)
    (set_streamable (<[newId := r]> (streamableSessions s))
       (set_conn r (Connection Streamable newId key false) s)).

(** [handleRequest] returned: [if (!initialized) { releaseSlot(); ... }] *)
Definition stream_returned (r : nat) (rq : request) (initialized : bool) (s : server) : server :=
  set_task r (Done rq) (if initialized then s else releaseSlot r s).

(** [connect] or [handleRequest] threw: [releaseSlot(); throw err] *)
Definition stream_threw (r : nat) (rq : request) (s : server) : server :=
  set_task r (Done rq) (respond r 500 (add_failed r (releaseSlot r s))).

Definition fresh_id (cid : string) (s : server) : Prop :=
  sessionsById s !! cid = None ∧ streamableSessions s !! cid = None.

Inductive mcp_step : server → server → Prop :=
| ms_tick s t : clock (proc s) <= t →
    mcp_step s (set_proc (Process (limiter (proc s)) (closures (proc s)) t (granted (proc s))) s)
| ms_sse_begin s r rq : tasks s !! r = None → mcp_step s (sse_begin r rq s)
| ms_sse_resume s r rq tid : tasks s !! r = Some (SseAuth rq) → fresh_id tid s →
    mcp_step s (sse_resume r rq tid s)
| ms_post_begin s r rq : tasks s !! r = None → mcp_step s (post_begin r rq s)
| ms_post_resume s r rq c : tasks s !! r = Some (PostAuth rq c) → mcp_step s (post_resume r rq c s)
| ms_stream_begin s r rq : tasks s !! r = None → mcp_step s (set_task r (StreamAuth rq) s)
| ms_stream_resume s r rq : tasks s !! r = Some (StreamAuth rq) → mcp_step s (stream_resume r rq s)
| ms_initialized s r rq key newId : tasks s !! r = Some (StreamNew rq key false) →
    fresh_id newId s → mcp_step s (stream_initialized r rq key newId s)
| ms_returned s r rq key i : tasks s !! r = Some (StreamNew rq key i) →
    mcp_step s (stream_returned r rq i s)
| ms_threw s r rq key i : tasks s !! r = Some (StreamNew rq key i) → mcp_step s (stream_threw r rq s)
| ms_cleanup s r : mcp_step s (cleanup r s)
(** [transport.onclose = releaseSlot], before initialisation *)
| ms_early_close s r rq key : tasks s !! r = Some (StreamNew rq key false) →
    mcp_step s (add_failed r (releaseSlot r s)).

Definition boot (c : RateLimitConfig) (t : Z) : server :=
  Server (initial c t) ∅ ∅ ∅ ∅ ∅ [] ∅.

(** [getMcpSessionCount()] *)
Definition getMcpSessionCount (s : server) : nat :=
  (size (sessionsById s) + size (streamableSessions s))%nat.

(** ** Session binding *)
Definition task_request (t : task) : request :=
  match t with
  | SseAuth rq | PostAuth rq _ | StreamAuth rq | StreamNew rq _ _ | Done rq => rq
  end.
Definition request_of (s : server) (r : nat) : option request := task_request <$> tasks s !! r.

(** Request [r] authenticates as [key]. *)
Definition keyed (s : server) (r : nat) (key : string) : Prop :=
  ∃ rq ses, request_of s r = Some rq ∧ resolveAuth rq = inr (ses, key).

Record bind_inv (s : server) : Prop := {
  bi_conn r conn : conns s !! r = Some conn → keyed s r (c_sessionKey conn);
  bi_new r rq key i : tasks s !! r = Some (StreamNew rq key i) → keyed s r key;
  bi_dispatch r c : (r, c) ∈ dispatched s →
    ∃ key, keyed s r key ∧ keyed s c key;
}.

(** A step that keeps the requests keeps what they authenticate as. *)
Lemma keyed_mono s s' r key :
  (∀ rq, request_of s r = Some rq → request_of s' r = Some rq) → keyed s r key → keyed s' r key.
Proof. intros Hr (rq & ses & H1 & H2). exists rq, ses. auto. Qed.

Lemma bind_move s s' r t :
  bind_inv s → tasks s' = <[r := t]> (tasks s) →
  (∀ rq, request_of s r = Some rq → task_request t = rq) →
  (∀ r' conn, conns s' !! r' = Some conn →
     (∃ conn0, conns s !! r' = Some conn0 ∧ c_sessionKey conn0 = c_sessionKey conn) ∨
     keyed s' r' (c_sessionKey conn)) →
  (∀ rq key i, t = StreamNew rq key i → keyed s' r key) →
  (∀ r' c, (r', c) ∈ dispatched s' → (r', c) ∈ dispatched s ∨ ∃ key, keyed s' r' key ∧ keyed s' c key) →
  bind_inv s'.
Proof.
  intros Hb Ht Hrq Hc Hn Hd.
  assert (Hm : ∀ r' key, keyed s r' key → keyed s' r' key).
  { intros r' key. apply keyed_mono. intros rq. unfold request_of. rewrite Ht.
    destruct (decide (r' = r)) as [->|Hne].
    - rewrite lookup_insert_eq. intros E. simpl. f_equal. by apply Hrq.
    - by rewrite lookup_insert_ne. }
  split.
  - intros r' conn E. destruct (Hc r' conn E) as [(conn0 & E0 & <-)|]; [|done].
    eapply Hm, bi_conn; eauto.
  - intros r' rq key i E. rewrite Ht in E. destruct (decide (r' = r)) as [->|Hne].
    + rewrite lookup_insert_eq in E. simplify_eq. eauto.
    + rewrite lookup_insert_ne in E by done. eapply Hm, bi_new; eauto.
  - intros r' c E. destruct (Hd r' c E) as [E0|]; [|done].
    destruct (bi_dispatch s Hb r' c E0) as (key & ? & ?). eauto.
Qed.

Lemma keyed_here s r t key ses :
  tasks s !! r = Some t → resolveAuth (task_request t) = inr (ses, key) → keyed s r key.
Proof. intros Ht Ha. exists (task_request t), ses. unfold request_of. by rewrite Ht. Qed.

(** Steps that touch neither tasks, connections nor the dispatch log. *)
Lemma bind_same s s' :
  bind_inv s → tasks s' = tasks s → conns s' = conns s → dispatched s' = dispatched s → bind_inv s'.
Proof.
  intros [H1 H2 H3] Ht Hc Hd.
  assert (Hm : ∀ r key, keyed s r key → keyed s' r key).
  { intros r key. apply keyed_mono. unfold request_of. by rewrite Ht. }
  split; rewrite ?Ht, ?Hc, ?Hd; eauto. intros r c E. destruct (H3 r c E) as (? & ? & ?). eauto.
Qed.

Lemma request_of_task s r t : tasks s !! r = Some t → request_of s r = Some (task_request t).
Proof. unfold request_of. by intros ->. Qed.

(** The common step: request [r] moves on; connections and log stay. *)
Lemma bind_task s s' r t :
  bind_inv s → tasks s' = <[r := t]> (tasks s) → conns s' = conns s → dispatched s' = dispatched s →
  (∀ rq, request_of s r = Some rq → task_request t = rq) →
  (∀ rq key i, t = StreamNew rq key i → keyed s' r key) → bind_inv s'.
Proof.
  intros Hb Ht Hc Hd Hrq Hn. eapply bind_move; eauto.
  - intros r' conn. rewrite Hc. eauto.
  - intros r' c. rewrite Hd. eauto.
Qed.

Ltac move_task Hb t :=
  eapply (bind_task _ _ _ t Hb); [reflexivity..| |]; simpl;
  [intros ? Hrq; try (erewrite request_of_task in Hrq by eassumption); unfold request_of in Hrq;
   by simplify_option_eq
  |try done].

Lemma dispatch_bind s r c rq conn key ses t :
  bind_inv s → tasks s !! r = Some t → task_request t = rq → resolveAuth rq = inr (ses, key) →
  conns s !! c = Some conn → c_sessionKey conn = key →
  bind_inv (set_task r (Done rq) (dispatch r c s)).
Proof.
  intros Hb Ht Hrq Ha Hc <-. assert (Hm : ∀ r' key', keyed s r' key' →
    keyed (set_task r (Done rq) (dispatch r c s)) r' key').
  { intros r' key'. apply keyed_mono. intros rq'. unfold request_of. simpl.
    destruct (decide (r' = r)) as [->|Hne].
    - rewrite Ht, lookup_insert_eq. simpl. congruence.
    - by rewrite lookup_insert_ne. }
  eapply (bind_move s _ r (Done rq)); eauto; simpl; try done.
  - unfold request_of. rewrite Ht. simpl. congruence.
  - intros r' c' [E|E]%elem_of_app; [by left|]. apply list_elem_of_singleton in E. simplify_eq.
    right. exists (c_sessionKey conn). split.
    + eapply keyed_here; [apply lookup_insert_eq|done].
    + apply Hm. by apply (bi_conn s Hb).
Qed.

Lemma open_conn_bind s r rq k cid key ses t t' :
  bind_inv s → tasks s !! r = Some t → task_request t = rq → task_request t' = rq →
  resolveAuth rq = inr (ses, key) → (∀ rq' key' i, t' = StreamNew rq' key' i → key' = key) →
  ∀ s', tasks s' = <[r := t']> (tasks s) → conns s' = <[r := Connection k cid key false]> (conns s) →
  dispatched s' = dispatched s → bind_inv s'.
Proof.
  intros Hb Ht Hrq Hrq' Ha Hn s' Ht' Hc Hd.
  assert (Hk : keyed s' r key).
  { eapply keyed_here; [rewrite Ht'; apply lookup_insert_eq|]. by rewrite Hrq'. }
  eapply (bind_move s s' r t'); eauto.
  - unfold request_of. rewrite Ht. simpl. congruence.
  - intros r' conn. rewrite Hc. destruct (decide (r' = r)) as [->|Hne].
    + rewrite lookup_insert_eq. intros [= <-]. by right.
    + rewrite lookup_insert_ne by done. eauto.
  - intros rq' key' i E. by rewrite (Hn _ _ _ E).
  - rewrite Hd. auto.
Qed.

Lemma cleanup_bind s r : bind_inv s → bind_inv (cleanup r s).
Proof.
  intros Hb. unfold cleanup. destruct (conns s !! r) as [[k cid key []]|] eqn:Ec; try done.
  assert (Hr : bind_inv (set_conn r (Connection k cid key true) s)).
  { destruct Hb as [H1 H2 H3]. split; [|exact H2|exact H3]. simpl. intros r' conn E.
    destruct (decide (r' = r)) as [->|Hne].
    - rewrite lookup_insert_eq in E. simplify_eq. apply (H1 r _ Ec).
    - rewrite lookup_insert_ne in E by done. apply (H1 r' _ E). }
  destruct k; eapply bind_same; eauto.
Qed.

Lemma mcp_step_bind s s' : bind_inv s → mcp_step s s' → bind_inv s'.
Proof.
  intros Hb Hs. destruct Hs as [s t Ht|s r rq Ht|s r rq tid Ht Hf|s r rq Ht|s r rq c Ht|s r rq Ht|s r rq Ht
    |s r rq key newId Ht Hf|s r rq key i Ht|s r rq key i Ht|s r|s r rq key Ht].
  - by eapply bind_same.
  - unfold sse_begin. cbv zeta. destruct (slot_ok _ _); [move_task Hb (SseAuth rq)|move_task Hb (Done rq)].
  - unfold sse_resume. destruct (resolveAuth rq) as [e|[ses key]] eqn:Ea; [move_task Hb (Done rq)|].
    eapply (open_conn_bind s r rq Sse tid key ses _ (Done rq)); eauto. done.
  - unfold post_begin. destruct (rq_session_id rq) as [sid|]; [|move_task Hb (Done rq)].
    destruct (is_empty sid); [move_task Hb (Done rq)|].
    destruct (sessionsById s !! sid) as [c|]; [move_task Hb (PostAuth rq c)|move_task Hb (Done rq)].
  - unfold post_resume. destruct (resolveAuth rq) as [e|[ses key]] eqn:Ea; [move_task Hb (Done rq)|].
    destruct (conns s !! c) as [conn|] eqn:Ec; [|done].
    destruct (seqb _ _) eqn:Ek; [|move_task Hb (Done rq)].
    apply seqb_eq in Ek. by eapply dispatch_bind.
  - move_task Hb (StreamAuth rq).
  - unfold stream_resume. destruct (resolveAuth rq) as [e|[ses key]] eqn:Ea; [move_task Hb (Done rq)|].
    destruct (_ ≫= _) as [[c conn]|] eqn:En.
    + destruct (named_connection rq s) as [c'|]; [|done]. simpl in En.
      destruct (conns s !! c') eqn:Ec; simplify_eq/=. destruct (seqb _ _) eqn:Ek; [|move_task Hb (Done rq)].
      apply seqb_eq in Ek. by eapply dispatch_bind.
    + destruct (negb _); [move_task Hb (Done rq)|]. cbv zeta.
      destruct (slot_ok _ _); [|move_task Hb (Done rq)].
      move_task Hb (StreamNew rq key false). intros rq' key' i [= -> -> _].
      eapply keyed_here; [apply lookup_insert_eq|done].
  - destruct (bi_new s Hb r _ _ _ Ht) as (rq' & ses & Hrq & Ha).
    rewrite (request_of_task _ _ _ Ht) in Hrq. simplify_eq/=.
    eapply (open_conn_bind s r _ Streamable newId key ses _ (StreamNew rq' key true));
      [exact Hb|exact Ht|done|done|exact Ha| |done..]. congruence.
  - unfold stream_returned. case_match; move_task Hb (Done rq).
  - move_task Hb (Done rq).
  - by apply cleanup_bind.
  - by eapply bind_same.
Qed.

Lemma reachable_bind c t s : rtc mcp_step (boot c t) s → bind_inv s.
Proof.
  intros Hr. assert (Hb : bind_inv (boot c t)).
  { split; simpl; intros *; rewrite ?lookup_empty, ?elem_of_nil; done. }
  induction Hr; eauto using mcp_step_bind.
Qed.

(** What an accepted request carries. *)
Lemma resolveAuth_inr rq ses key :
  resolveAuth rq = inr (ses, key) →
  key = session_key (accountId ses) (delegatePubKeyHex ses) ∧ is_full_address (accountId ses) = true ∧
  rq_account rq = Some (accountId ses) ∧ delegatePubKeyHex ses = publicKeyHex (delegateKeyHex ses).
Proof.
  unfold resolveAuth. intros E.
  apply ensure_inr in E as [_ E]. apply ensure_inr in E as [_ E]. apply ensure_inr in E as [Hacc E].
  case_match; [done|]. simplify_eq. simpl. apply andb_true_iff in Hacc as [H1 H2].
  split_and!; [done|done| |done]. destruct (rq_account rq); [done|]. by vm_compute in H1.
Qed.

Lemma session_key_inj a1 p1 a2 p2 :
  is_full_address a1 = true → is_full_address a2 = true →
  session_key a1 p1 = session_key a2 p2 → a1 = a2 ∧ p1 = p2.
Proof.
  unfold is_full_address, session_key. intros H1 H2 E. split_andb.
  assert (slen a1 = slen a2).
  { repeat match goal with
    | Hl : (slen _ =? _)%nat = true |- _ => apply Nat.eqb_eq in Hl end. congruence. }
  apply sapp_inj_l in E as [_ E]; [|done]. apply sapp_inj_l in E as [-> E]; [|done].
  by apply sapp_inj_l in E as [_ ->].
Qed.

(** C28: a session is bound to the credentials that opened it: whatever the
    interleaving of requests, callbacks and closings, a request is handed to
    the transport of a session only if it carried the account id, and a
    delegate key with the public key, of the request that opened it. *)
Theorem session_binding (cfg : RateLimitConfig) (t : Z) (s : server) (r c : nat) :
  rtc mcp_step (boot cfg t) s → (r, c) ∈ dispatched s →
  ∃ rq rqc ses sesc key,
    request_of s r = Some rq ∧ request_of s c = Some rqc ∧
    resolveAuth rq = inr (ses, key) ∧ resolveAuth rqc = inr (sesc, key) ∧
    rq_account rq = rq_account rqc ∧ delegatePubKeyHex ses = delegatePubKeyHex sesc.
Proof.
  intros Hr Hd. pose proof (reachable_bind cfg t s Hr) as Hb.
  destruct (bi_dispatch s Hb r c Hd) as (key & (rq & ses & H1 & H2) & (rqc & sesc & H3 & H4)).
  exists rq, rqc, ses, sesc, key.
  destruct (resolveAuth_inr _ _ _ H2) as (K1 & A1 & R1 & _).
  destruct (resolveAuth_inr _ _ _ H4) as (K2 & A2 & R2 & _). rewrite K1 in K2.
  destruct (session_key_inj _ _ _ _ A1 A2 K2) as [E1 E2].
  split_and!; try assumption. congruence.
Qed.

(** ** Slot accounting *)
Definition holds_slot (s : server) (r : nat) : Prop :=
  ∃ ip, closures (proc s) !! r = Some (ip, false).
Definition smap_of (k : transport_kind) (s : server) : gmap string nat :=
  match k with Sse => sessionsById s | Streamable => streamableSessions s end.

(** Connection [r] is registered and holds a slot, or is cleaned up and holds none. *)
Definition conn_ok (s : server) (r : nat) (conn : connection) : Prop :=
  if c_cleanedUp conn then ¬ holds_slot s r
  else smap_of (c_kind conn) s !! c_id conn = Some r ∧
       (holds_slot s r ∨ (c_kind conn = Streamable ∧ r ∈ failed s)).

Definition req_ok (s : server) (r : nat) : Prop :=
  (∀ conn, conns s !! r = Some conn → conn_ok s r conn) ∧
  match tasks s !! r with
  | None => closures (proc s) !! r = None ∧ conns s !! r = None
  | Some (PostAuth _ _ | StreamAuth _) => closures (proc s) !! r = None ∧ conns s !! r = None
  | Some (SseAuth _) => holds_slot s r ∧ conns s !! r = None
  | Some (StreamNew _ _ false) => (holds_slot s r ∨ r ∈ failed s) ∧ conns s !! r = None
  | Some (StreamNew _ _ true) => c_kind <$> conns s !! r = Some Streamable
  | Some (Done _) => conns s !! r = None → ¬ holds_slot s r
  end.

Record slot_inv (cfg : RateLimitConfig) (t : Z) (s : server) : Prop := {
  si_proc : rtc step (initial cfg t) (proc s);
  si_req r : req_ok s r;
  si_reg k cid r : smap_of k s !! cid = Some r →
    ∃ key, conns s !! r = Some (Connection k cid key false);
}.

(** [s'] differs from [s] only in what belongs to request [r]. *)
Record local_to (r : nat) (s s' : server) : Prop := {
  lt_proc : rtc step (proc s) (proc s');
  lt_other r' : r' ≠ r → closures (proc s') !! r' = closures (proc s) !! r' ∧
    conns s' !! r' = conns s !! r' ∧ tasks s' !! r' = tasks s !! r' ∧ (r' ∈ failed s' ↔ r' ∈ failed s);
  lt_map k cid r' : r' ≠ r → (smap_of k s' !! cid = Some r' ↔ smap_of k s !! cid = Some r');
}.

Lemma req_ok_frame r s s' r' : local_to r s s' → r' ≠ r → req_ok s r' → req_ok s' r'.
Proof.
  intros [_ Ho Hm] Hne [Hc Ht]. destruct (Ho r' Hne) as (E1 & E2 & E3 & E4).
  assert (Hh : holds_slot s' r' ↔ holds_slot s r') by (unfold holds_slot; by rewrite E1).
  split.
  - intros conn E. rewrite E2 in E. specialize (Hc conn E). unfold conn_ok in *.
    destruct (c_cleanedUp conn); [by rewrite Hh|]. rewrite Hm, Hh, E4 by done. done.
  - rewrite E3. destruct (tasks s !! r') as [[| | |? ? []|]|]; rewrite ?E1, ?E2, ?Hh, ?E4; done.
Qed.

Lemma slot_move cfg t r s s' :
  slot_inv cfg t s → local_to r s s' → req_ok s' r →
  (∀ k cid, smap_of k s' !! cid = Some r → ∃ key, conns s' !! r = Some (Connection k cid key false)) →
  slot_inv cfg t s'.
Proof.
  intros [Hp Hr Hg] Hl Hok Hreg. split.
  - etrans; [exact Hp|apply Hl].
  - intros r'. destruct (decide (r' = r)) as [->|Hne]; [done|]. eapply req_ok_frame; eauto.
  - intros k cid r' E. destruct (decide (r' = r)) as [->|Hne]; [by apply Hreg|].
    destruct (lt_other r s s' Hl r' Hne) as (_ & E2 & _). rewrite E2. apply Hg.
    by apply (lt_map r s s' Hl).
Qed.

Lemma open_session_other r ip p r' :
  r' ≠ r → closures (open_session r ip p) !! r' = closures p !! r'.
Proof.
  intros Hne. unfold open_session. destruct (acquire _ _ _) as [l []]; simpl; [|done].
  by rewrite lookup_insert_ne.
Qed.

Lemma open_session_self r ip p :
  closures p !! r = None →
  closures (open_session r ip p) !! r = Some (ip, false) ∨ closures (open_session r ip p) !! r = None.
Proof.
  intros Hn. unfold open_session. destruct (acquire _ _ _) as [l []]; simpl; [left|by right].
  by rewrite lookup_insert_eq.
Qed.

Lemma run_closure_other r p r' : r' ≠ r → closures (run_closure r p) !! r' = closures p !! r'.
Proof.
  intros Hne. unfold run_closure. destruct (closures p !! r) as [[ip []]|]; simpl; try done.
  by rewrite lookup_insert_ne.
Qed.

Lemma run_closure_self r p ip : closures (run_closure r p) !! r ≠ Some (ip, false).
Proof.
  unfold run_closure. destruct (closures p !! r) as [[ip' []]|] eqn:E; rewrite ?E; try done.
  simpl. by rewrite lookup_insert_eq.
Qed.

Lemma released_not_held r s : ¬ holds_slot (releaseSlot r s) r.
Proof. intros [ip E]. by apply run_closure_self in E. Qed.

(** The three ways a step can touch the limiter process. *)
Lemma open_reach r ip p : closures p !! r = None → rtc step p (open_session r ip p).
Proof. intros Hn. by apply rtc_once, step_open. Qed.
Lemma close_reach r p : rtc step p (run_closure r p).
Proof. apply rtc_once, step_close. Qed.

(** A step that moves the task of [r] and nothing else but the limiter,
    the answer and the log. *)
Lemma local_task r t s s' :
  tasks s' = <[r := t]> (tasks s) → conns s' = conns s → failed s' = failed s →
  (∀ k, smap_of k s' = smap_of k s) → rtc step (proc s) (proc s') →
  (∀ r', r' ≠ r → closures (proc s') !! r' = closures (proc s) !! r') → local_to r s s'.
Proof.
  intros Ht Hc Hf Hm Hp Hcl. split; [done| |].
  - intros r' Hne. rewrite Ht, Hc, Hf, lookup_insert_ne by done. split_and!; [by apply Hcl|done..].
  - intros k cid r' Hne. by rewrite Hm.
Qed.

(** Registrations of [r] after such a step. *)
Lemma reg_same cfg t0 r s s' :
  slot_inv cfg t0 s → conns s' = conns s → (∀ k, smap_of k s' = smap_of k s) →
  ∀ k cid, smap_of k s' !! cid = Some r → ∃ key, conns s' !! r = Some (Connection k cid key false).
Proof. intros Hi Hc Hm k cid. rewrite Hc, Hm. apply (si_reg _ _ _ Hi). Qed.

(** [r] has no connection yet and moves to task [t]. *)
Lemma slot_task cfg t0 r t s s' :
  slot_inv cfg t0 s → tasks s' = <[r := t]> (tasks s) → conns s' = conns s → failed s' = failed s →
  (∀ k, smap_of k s' = smap_of k s) → rtc step (proc s) (proc s') →
  (∀ r', r' ≠ r → closures (proc s') !! r' = closures (proc s) !! r') →
  conns s !! r = None →
  match t with
  | PostAuth _ _ | StreamAuth _ => closures (proc s') !! r = None
  | SseAuth _ | StreamNew _ _ false => holds_slot s' r
  | StreamNew _ _ true => False
  | Done _ => ¬ holds_slot s' r
  end → slot_inv cfg t0 s'.
Proof.
  intros Hi Ht Hc Hf Hm Hp Hcl Hn Hok. eapply slot_move; [done|by eapply local_task| |by eapply reg_same].
  split; [intros conn E; rewrite Hc, Hn in E; done|].
  rewrite Ht, lookup_insert_eq, Hc, Hn. destruct t as [| | |? ? []|]; auto; done.
Qed.

Lemma fresh_request cfg t0 s r :
  slot_inv cfg t0 s → tasks s !! r = None → closures (proc s) !! r = None ∧ conns s !! r = None.
Proof. intros Hi Ht. pose proof (proj2 (si_req _ _ _ Hi r)) as H. by rewrite Ht in H. Qed.

Lemma pending_request cfg t0 s r t :
  slot_inv cfg t0 s → tasks s !! r = Some t →
  match t with
  | PostAuth _ _ | StreamAuth _ => closures (proc s) !! r = None ∧ conns s !! r = None
  | SseAuth _ => holds_slot s r ∧ conns s !! r = None
  | StreamNew _ _ false => (holds_slot s r ∨ r ∈ failed s) ∧ conns s !! r = None
  | StreamNew _ _ true => c_kind <$> conns s !! r = Some Streamable
  | Done _ => conns s !! r = None → ¬ holds_slot s r
  end.
Proof. intros Hi Ht. pose proof (proj2 (si_req _ _ _ Hi r)) as H. by rewrite Ht in H. Qed.

Lemma not_held_none s r : closures (proc s) !! r = None → ¬ holds_slot s r.
Proof. intros E [ip E']. congruence. Qed.

(** A request without a slot or connection that ends with an answer or a dispatch. *)
Lemma slot_done cfg t0 r rq s s' :
  slot_inv cfg t0 s → closures (proc s) !! r = None → conns s !! r = None →
  tasks s' = <[r := Done rq]> (tasks s) → proc s' = proc s → conns s' = conns s →
  failed s' = failed s → (∀ k, smap_of k s' = smap_of k s) → slot_inv cfg t0 s'.
Proof.
  intros Hi Hcl Hn Ht Hp Hc Hf Hm. eapply (slot_task _ _ r (Done rq)); eauto; rewrite ?Hp; try done.
  apply not_held_none. by rewrite Hp.
Qed.

(** [limiter.acquire], then the branch on [slot.ok]. *)
Lemma slot_acquire cfg t0 r rq t s :
  slot_inv cfg t0 s → closures (proc s) !! r = None → conns s !! r = None →
  (t = SseAuth rq ∨ ∃ key, t = StreamNew rq key false) →
  slot_inv cfg t0
    (let s1 := acquire_slot r (rq_ip rq) s in
     if slot_ok r s1 then set_task r t s1 else set_task r (Done rq) (respond r 429 s1)).
Proof.
  intros Hi Hcl Hn Ht. cbv zeta. pose proof (open_reach r (rq_ip rq) _ Hcl) as Hp.
  pose proof (open_session_other r (rq_ip rq) (proc s)) as Ho.
  destruct (open_session_self r (rq_ip rq) (proc s) Hcl) as [E|E]; unfold slot_ok; simpl; rewrite E.
  - eapply (slot_task _ _ r t); eauto.
    destruct Ht as [->|[key ->]]; by eexists.
  - eapply (slot_task _ _ r (Done rq)); eauto. by apply not_held_none.
Qed.

(** Registering a connection for [r], which holds its slot. *)
Lemma slot_register cfg t0 r k cid key t s s' :
  slot_inv cfg t0 s → conns s !! r = None →
  (holds_slot s r ∨ (k = Streamable ∧ r ∈ failed s)) → fresh_id cid s →
  proc s' = proc s → conns s' = <[r := Connection k cid key false]> (conns s) →
  tasks s' = <[r := t]> (tasks s) → failed s' = failed s →
  smap_of k s' = <[cid := r]> (smap_of k s) → (∀ k', k' ≠ k → smap_of k' s' = smap_of k' s) →
  match t with StreamNew _ _ i => i = true ∧ k = Streamable | Done _ => True | _ => False end →
  slot_inv cfg t0 s'.
Proof.
  intros Hi Hn Hh [Hf1 Hf2] Hp Hc Ht Hf Hm Hm' Hok.
  assert (Hfr : smap_of k s !! cid = None) by by destruct k.
  assert (Hdec : ∀ k' : transport_kind, k' = k ∨ k' ≠ k) by (destruct k, k'; auto).
  assert (Hno : ∀ k' cid', smap_of k' s !! cid' ≠ Some r).
  { intros k' cid' E. apply (si_reg _ _ _ Hi) in E as [? E]. congruence. }
  eapply (slot_move _ _ r); [done| | |].
  - split; [by rewrite Hp| |].
    + intros r' Hne. rewrite Hp, Hc, Ht, Hf, !lookup_insert_ne by done. done.
    + intros k' cid' r' Hne. destruct (Hdec k') as [->|Hk]; [|by rewrite Hm'].
      rewrite Hm. destruct (decide (cid' = cid)) as [->|]; [|by rewrite lookup_insert_ne].
      rewrite lookup_insert_eq, Hfr. naive_solver.
  - split.
    + intros conn E. rewrite Hc, lookup_insert_eq in E. injection E as <-. unfold conn_ok. simpl.
      rewrite Hm, lookup_insert_eq, Hf. unfold holds_slot in *. by rewrite Hp.
    + rewrite Ht, lookup_insert_eq, Hc, lookup_insert_eq.
      destruct t as [| | |? ? []|]; try done; destruct Hok as [? Hk]; [by rewrite Hk|done].
  - intros k' cid' E. rewrite Hc, lookup_insert_eq. destruct (Hdec k') as [->|Hk].
    + rewrite Hm in E. destruct (decide (cid' = cid)) as [->|]; [by eexists|].
      rewrite lookup_insert_ne in E by done. by apply Hno in E.
    + rewrite Hm' in E by done. by apply Hno in E.
Qed.

(** [cleanup] deregisters its connection and frees the slot. *)
Lemma slot_cleanup cfg t0 r s : slot_inv cfg t0 s → slot_inv cfg t0 (cleanup r s).
Proof.
  intros Hi. unfold cleanup. destruct (conns s !! r) as [[k cid key []]|] eqn:Ec; try done.
  pose proof (proj1 (si_req _ _ _ Hi r) _ Ec) as [Hreg _]. simpl in Hreg.
  assert (Huniq : ∀ k' cid', smap_of k' s !! cid' = Some r → k' = k ∧ cid' = cid).
  { intros k' cid' E. apply (si_reg _ _ _ Hi) in E as [? E]. rewrite Ec in E. by injection E. }
  eapply (slot_move _ _ r); [done| | |].
  - split.
    + destruct k; apply close_reach.
    + intros r' Hne. destruct k; simpl; rewrite run_closure_other, lookup_insert_ne by done; done.
    + intros k' cid' r' Hne. destruct k, k'; simpl in *; try done;
        (destruct (decide (cid' = cid)) as [->|];
         [rewrite lookup_delete_eq, Hreg; naive_solver|by rewrite lookup_delete_ne]).
  - split.
    + intros conn E. destruct k; simpl in E; rewrite lookup_insert_eq in E; injection E as <-;
        apply released_not_held.
    + pose proof (proj2 (si_req _ _ _ Hi r)) as Hr. rewrite Ec in Hr.
      destruct k; simpl; rewrite lookup_insert_eq;
        destruct (tasks s !! r) as [[| | |? ? []|]|]; simpl in *; naive_solver.
  - intros k' cid' E. exfalso.
    assert (E' : smap_of k' s !! cid' = Some r ∧ (k' = k → cid' ≠ cid)).
    { destruct k, k'; simpl in *; try (apply lookup_delete_Some in E as [? E]); by split. }
    destruct E' as [E1 E2]. apply Huniq in E1 as [-> ->]. by apply E2.
Qed.

(** The openings that end without a session give their slot back. *)
Lemma slot_end_opening cfg t0 r rq t s s' :
  slot_inv cfg t0 s → tasks s !! r = Some t → conns s !! r = None →
  proc s' = run_closure r (proc s) → tasks s' = <[r := Done rq]> (tasks s) → conns s' = conns s →
  (∀ r', r' ≠ r → r' ∈ failed s' ↔ r' ∈ failed s) → (∀ k, smap_of k s' = smap_of k s) →
  slot_inv cfg t0 s'.
Proof.
  intros Hi Ht Hn Hp Ht' Hc Hf Hm. eapply (slot_move _ _ r); [done| | |by eapply reg_same].
  - split; [rewrite Hp; apply close_reach| |].
    + intros r' Hne. rewrite Hp, Hc, Ht', lookup_insert_ne, run_closure_other by done.
      split_and!; [done..|by apply Hf].
    + intros k cid r' Hne. by rewrite Hm.
  - split; [intros conn E; rewrite Hc, Hn in E; done|].
    rewrite Ht', lookup_insert_eq. intros _ [ip E]. rewrite Hp in E. by apply run_closure_self in E.
Qed.

(** The transport of an initialised streamable session threw. *)
Lemma slot_threw_initialized cfg t0 r rq rq0 key s :
  slot_inv cfg t0 s → tasks s !! r = Some (StreamNew rq0 key true) →
  slot_inv cfg t0 (stream_threw r rq s).
Proof.
  intros Hi Ht. pose proof (pending_request _ _ _ _ _ Hi Ht) as Hk. simpl in Hk.
  destruct (conns s !! r) as [conn|] eqn:Ec; simplify_eq/=.
  eapply (slot_move _ _ r); [done| | |].
  - split; [apply close_reach| |done]. intros r' Hne. simpl.
    rewrite run_closure_other, lookup_insert_ne by done. split_and!; [done..|set_solver].
  - split.
    + intros conn' E. simpl in E. rewrite Ec in E. injection E as <-.
      pose proof (proj1 (si_req _ _ _ Hi r) _ Ec) as Hok. unfold conn_ok in *.
      destruct (c_cleanedUp conn).
      * intros [ip E]. by apply run_closure_self in E.
      * destruct Hok as [H1 _]. split; [exact H1|]. right. split; [congruence|]. simpl. set_solver.
    + simpl. rewrite lookup_insert_eq, Ec. done.
  - intros k cid E. apply (si_reg _ _ _ Hi k cid). destruct k; exact E.
Qed.

Lemma slot_early_close cfg t0 r rq key s :
  slot_inv cfg t0 s → tasks s !! r = Some (StreamNew rq key false) →
  slot_inv cfg t0 (add_failed r (releaseSlot r s)).
Proof.
  intros Hi Ht. pose proof (pending_request _ _ _ _ _ Hi Ht) as [_ Hn].
  eapply (slot_move _ _ r); [done| | |].
  - split; [apply close_reach| |done]. intros r' Hne. simpl.
    rewrite run_closure_other by done. split_and!; [done..|set_solver].
  - split; [intros conn E; simpl in E; congruence|]. simpl. rewrite Ht, Hn. set_solver.
  - intros k cid E. apply (si_reg _ _ _ Hi k cid). destruct k; exact E.
Qed.

Lemma slot_resume_stream cfg t0 r rq s :
  slot_inv cfg t0 s → tasks s !! r = Some (StreamAuth rq) → slot_inv cfg t0 (stream_resume r rq s).
Proof.
  intros Hi Ht. pose proof (pending_request _ _ _ _ _ Hi Ht) as [Hcl Hn].
  unfold stream_resume. destruct (resolveAuth rq) as [e|[ses key]]; [by eapply slot_done|].
  destruct (_ ≫= _) as [[c conn]|]; [destruct (seqb _ _); by eapply slot_done|].
  destruct (negb _); [by eapply slot_done|]. apply slot_acquire; eauto.
Qed.

Lemma mcp_step_slot cfg t0 s s' : slot_inv cfg t0 s → mcp_step s s' → slot_inv cfg t0 s'.
Proof.
  intros Hi Hs. destruct Hs as [s t Ht|s r rq Ht|s r rq tid Ht Hf|s r rq Ht|s r rq c Ht|s r rq Ht|s r rq Ht
    |s r rq key newId Ht Hf|s r rq key i Ht|s r rq key i Ht|s r|s r rq key Ht];
    try (destruct (fresh_request _ _ _ _ Hi Ht) as [Hcl Hn]);
    try pose proof (pending_request _ _ _ _ _ Hi Ht) as Hpd.
  - destruct Hi as [Hp Hr Hg]. split; [|exact Hr|exact Hg]. simpl.
    etrans; [exact Hp|]. by apply rtc_once, step_tick.
  - apply slot_acquire; eauto.
  - destruct Hpd as [Hh Hn]. unfold sse_resume. destruct (resolveAuth rq) as [e|[ses key]].
    + by eapply slot_end_opening.
    + eapply (slot_register _ _ r Sse tid key (Done rq)); eauto. by intros [].
  - unfold post_begin. destruct (rq_session_id rq) as [sid|]; [|by eapply slot_done].
    destruct (is_empty sid); [by eapply slot_done|].
    destruct (sessionsById s !! sid) as [c|]; [|by eapply slot_done].
    by eapply (slot_task _ _ r (PostAuth rq c)).
  - destruct Hpd as [Hcl Hn]. unfold post_resume.
    destruct (resolveAuth rq) as [e|[ses key]]; [by eapply slot_done|].
    destruct (conns s !! c); [|done]. destruct (seqb _ _); by eapply slot_done.
  - by eapply (slot_task _ _ r (StreamAuth rq)).
  - by apply slot_resume_stream.
  - destruct Hpd as [Hh Hn]. eapply (slot_register _ _ r Streamable newId key (StreamNew rq key true)); eauto.
    + naive_solver.
    + by intros [].
  - unfold stream_returned. destruct i; [|destruct Hpd; by eapply slot_end_opening].
    eapply (slot_move _ _ r); [done|by eapply (local_task r (Done rq))| |by eapply reg_same].
    split; [exact (proj1 (si_req _ _ _ Hi r))|]. simpl. rewrite lookup_insert_eq.
    intros E. by rewrite E in Hpd.
  - destruct i; [by eapply slot_threw_initialized|]. destruct Hpd as [_ Hn].
    eapply slot_end_opening; eauto. intros r' Hne. simpl. set_solver.
  - by apply slot_cleanup.
  - by eapply slot_early_close.
Qed.

Lemma reachable_slot cfg t s : rtc mcp_step (boot cfg t) s → slot_inv cfg t s.
Proof.
  intros Hr. assert (Hb : slot_inv cfg t (boot cfg t)).
  { split; [apply rtc_refl| |intros [] *; simpl; by rewrite lookup_empty].
    intros r. split; simpl; rewrite ?lookup_empty; done. }
  induction Hr; eauto using mcp_step_slot.
Qed.

(** Requests with an unreleased slot are at most as many as open sessions. *)
Lemma held_le_sessions s (l : list nat) :
  NoDup l → (∀ r, r ∈ l → holds_slot s r) → (length l ≤ sessions (proc s))%nat.
Proof.
  intros Hnd Hl. unfold sessions, count. rewrite <-size_dom. unfold size, set_size. simpl.
  apply submseteq_length, NoDup_submseteq; [done|]. intros r Hr. apply elem_of_elements, elem_of_dom.
  destruct (Hl r Hr) as [ip E]. exists (ip, false). by apply map_lookup_filter_Some.
Qed.

(** Entries of a session map. *)
Definition registered (k : transport_kind) (s : server) : list nat := (map_to_list (smap_of k s)).*2.

Lemma elem_of_registered k s r : r ∈ registered k s ↔ ∃ cid, smap_of k s !! cid = Some r.
Proof.
  unfold registered. rewrite list_elem_of_fmap. split.
  - intros ([cid r'] & -> & H). exists cid. by apply elem_of_map_to_list in H.
  - intros [cid H]. exists (cid, r). split; [done|]. by apply elem_of_map_to_list.
Qed.

Lemma NoDup_registered cfg t k s : slot_inv cfg t s → NoDup (registered k s).
Proof.
  intros Hi. unfold registered. apply NoDup_fmap_2_strong; [|apply NoDup_map_to_list].
  intros [c1 r1] [c2 r2] H1%elem_of_map_to_list H2%elem_of_map_to_list E. simpl in E. subst.
  apply (si_reg _ _ _ Hi) in H1 as [? H1], H2 as [? H2]. congruence.
Qed.

Lemma length_registered k s : length (registered k s) = size (smap_of k s).
Proof. unfold registered. by rewrite length_fmap, length_map_to_list. Qed.

Lemma registered_holds cfg t k s cid r :
  slot_inv cfg t s → smap_of k s !! cid = Some r →
  holds_slot s r ∨ (k = Streamable ∧ r ∈ failed s).
Proof.
  intros Hi E. destruct (si_reg _ _ _ Hi k cid r E) as [key Ec].
  by destruct (proj1 (si_req _ _ _ Hi r) _ Ec) as [_ H].
Qed.

(** No slot is lost and no session is unaccounted: a slot is held only
    by an opening still in progress or by a registered session, every
    registered session holds its own slot (except a streamable one whose
    opening request failed or closed early), so the sessions of the process
    stay within the global cap. *)
Theorem mcp_slot_accounting (cfg : RateLimitConfig) (t : Z) (s : server) :
  positive cfg → rtc mcp_step (boot cfg t) s →
  (∀ r, holds_slot s r →
     (∃ rq, tasks s !! r = Some (SseAuth rq)) ∨ (∃ rq key, tasks s !! r = Some (StreamNew rq key false)) ∨
     (∃ k cid, smap_of k s !! cid = Some r)) ∧
  (∀ k cid r, smap_of k s !! cid = Some r → holds_slot s r ∨ (k = Streamable ∧ r ∈ failed s)) ∧
  Z.of_nat (size (sessionsById s)) <= maxTotalSessions cfg ∧
  (failed s = ∅ → Z.of_nat (getMcpSessionCount s) <= maxTotalSessions cfg).
Proof.
  intros Hpos Hr. pose proof (reachable_slot cfg t s Hr) as Hi.
  pose proof (reachable_inv cfg t _ Hpos (si_proc _ _ _ Hi)) as Hl.
  pose proof (inv_total _ _ Hl) as Ht. pose proof (inv_total_cap _ _ Hl) as Hcap.
  split_and!.
  - intros r Hh. destruct (si_req _ _ _ Hi r) as [Hc Hk]. destruct (conns s !! r) as [conn|] eqn:Ec.
    + specialize (Hc conn eq_refl). unfold conn_ok in Hc. destruct (c_cleanedUp conn); [done|].
      destruct Hc as [Hc _]. eauto.
    + destruct (tasks s !! r) as [[| | |? ? []|]|]; simpl in Hk; try naive_solver;
        exfalso; by apply (not_held_none s r (proj1 Hk)).
  - intros k cid r E. by eapply registered_holds.
  - pose proof (length_registered Sse s) as Hlen. simpl in Hlen. rewrite <-Hlen.
    pose proof (held_le_sessions s (registered Sse s) (NoDup_registered _ _ Sse s Hi)) as Hle.
    enough (length (registered Sse s) ≤ sessions (proc s))%nat by lia.
    apply Hle. intros r [cid E]%elem_of_registered.
    destruct (registered_holds _ _ _ _ _ _ Hi E) as [|[]]; done.
  - intros Hf. unfold getMcpSessionCount.
    pose proof (length_registered Sse s) as Hl1. pose proof (length_registered Streamable s) as Hl2.
    simpl in Hl1, Hl2. rewrite <-Hl1, <-Hl2, <-length_app.
    enough (length (registered Sse s ++ registered Streamable s) ≤ sessions (proc s))%nat by lia.
    apply held_le_sessions.
    + apply NoDup_app. split_and!; [by eapply NoDup_registered| |by eapply NoDup_registered].
      intros r [c1 E1]%elem_of_registered [c2 E2]%elem_of_registered.
      apply (si_reg _ _ _ Hi) in E1 as [? E1], E2 as [? E2]. congruence.
    + intros r Hin. assert (∃ k cid, smap_of k s !! cid = Some r) as (k & cid & E).
      { apply elem_of_app in Hin as [H|H]; apply elem_of_registered in H as [cid H]; eauto. }
      destruct (registered_holds _ _ _ _ _ _ Hi E) as [|[_ H]]; [done|]. rewrite Hf in H. set_solver.
Qed.

End Mcp.

(** One SSE session, a message from its owner and one from a stranger. *)
Definition ex_key : string := of_chars (repeat "a"%char 64).
Definition ex_account (c : ascii) : string := "0x" +:+ of_chars (repeat c 64).
Definition ex_request (account : string) (sid : option string) : request :=
  Request "POST" (Some ("Bearer " +:+ ex_key)) (Some account) None None sid "1.2.3.4".
Definition ex_pub (seed : list ascii) : list ascii := seed.
Definition ex_create (_ _ : string) (_ : option string) : option string := None.

Definition ex_open : server :=
  sse_resume ex_pub ex_create 1 (ex_request (ex_account "1") None) "tid"
    (sse_begin 1 (ex_request (ex_account "1") None) (boot ex_config 1000)).
Definition ex_post (r : nat) (account : string) (s : server) : server :=
  post_resume ex_pub ex_create r (ex_request account (Some "tid")) 1
    (post_begin r (ex_request account (Some "tid")) s).
Definition ex_server : server := ex_post 3 (ex_account "2") (ex_post 2 (ex_account "1") ex_open).

Lemma ex_server_reachable : rtc (mcp_step ex_pub ex_create) (boot ex_config 1000) ex_server.
Proof.
  eapply rtc_l; [by apply (ms_sse_begin _ _ _ 1 (ex_request (ex_account "1") None))|].
  eapply rtc_l; [apply (ms_sse_resume _ _ _ 1 (ex_request (ex_account "1") None) "tid");
                 [vm_compute; reflexivity|split; reflexivity]|].
  eapply rtc_l; [apply (ms_post_begin _ _ _ 2 (ex_request (ex_account "1") (Some "tid")));
                 vm_compute; reflexivity|].
  eapply rtc_l; [apply (ms_post_resume _ _ _ 2 (ex_request (ex_account "1") (Some "tid")) 1);
                 vm_compute; reflexivity|].
  eapply rtc_l; [apply (ms_post_begin _ _ _ 3 (ex_request (ex_account "2") (Some "tid")));
                 vm_compute; reflexivity|].
  apply rtc_once. apply (ms_post_resume _ _ _ 3 (ex_request (ex_account "2") (Some "tid")) 1);
    vm_compute; reflexivity.
Defined.

Lemma session_binding_witness :
  dispatched ex_server = [(2, 1)]%nat ∧ responses ex_server !! 3%nat = Some 403 ∧
  ∃ rq rqc, request_of ex_server 2 = Some rq ∧ request_of ex_server 1 = Some rqc ∧
            rq_account rq = rq_account rqc.
Proof.
  split; [vm_compute; reflexivity|]. split; [vm_compute; reflexivity|].
  destruct (session_binding ex_pub ex_create ex_config 1000 ex_server 2 1 ex_server_reachable)
    as (rq & rqc & ses & sesc & key & H1 & H2 & _ & _ & H3 & _).
  { apply list_elem_of_singleton. vm_compute. reflexivity. }
  exists rq, rqc. split; [exact H1|]. split; [exact H2|exact H3].
Defined.

Lemma mcp_slot_accounting_witness :
  getMcpSessionCount ex_server = 1%nat ∧ Z.of_nat (getMcpSessionCount ex_server) <= 3.
Proof.
  split; [vm_compute; reflexivity|].
  destruct (mcp_slot_accounting ex_pub ex_create ex_config 1000 ex_server ex_config_positive
    ex_server_reachable) as (_ & _ & _ & H). apply H. vm_compute. reflexivity.
Defined.

End McpSessions.
