(* ===== verification/SealConfig.v ===== *)
(** * SEAL committee configuration (scripts/seal-config.ts)

    Parsing of the key-server list from JSON, the legacy comma list or the
    network default, the threshold, and the committee identity that callers
    pin. *)
From Stdlib Require Import QArith.
From S2P Require Import Prelude JsText JsNumber JsonParse.
Local Open Scope Z_scope.

Module SealConfig.
Section Config.
(** The Sui SDK's object-id helpers. *)
Context (normalizeSuiObjectId : string → string) (isValidSuiObjectId : string → bool).

Record SealServerConfig : Type := ServerConfig {
  objectId : string;
  weight : Z;
  aggregatorUrl : option string;
  apiKeyName : option string;
  apiKey : option string;
}.

Definition MAX_SEAL_WEIGHTED_SERVERS : Z := 254.

(** The thrown [Error]s. *)
Inductive config_error : Type :=
| MustBeObject (i : nat)
| MustBeNonEmptyString (i : nat) (field : string)
| BadWeight (i : nat)
| BadObjectId (i : nat)
| ApiKeyPair (i : nat)
| NotJson
| NotArray
| DuplicateIds
| TotalWeight
| BadThreshold
| ThresholdTooHigh.
#[global] Instance config_error_dec : EqDecision config_error.
Proof. solve_decision. Defined.

Definition requireNonEmptyString (value : json) (field : string) (i : nat) : config_error + string :=
  match value with
  | JStr s => if negb (is_empty (trim s)) then inr (trim s) else inl (MustBeNonEmptyString i field)
  | _ => inl (MustBeNonEmptyString i field)
  end.

Definition optionalNonEmptyString (value : json) (field : string) (i : nat)
    : config_error + option string :=
  if is_undefined value then inr None
  else match requireNonEmptyString value field i with inl e => inl e | inr s => inr (Some s) end.

Definition normalizeWeight (value : json) (i : nat) : config_error + Z :=
  if is_undefined value then inr 1
  else match as_safe_int value with
       | Some w => if (1 <=? w) && (w <=? MAX_SEAL_WEIGHTED_SERVERS) then inr w else inl (BadWeight i)
       | None => inl (BadWeight i)
       end.

Definition normalizeObjectId (value : json) (i : nat) : config_error + string :=
  match requireNonEmptyString value "objectId" i with
  | inl e => inl e
  | inr raw =>
      guard_or isValidSuiObjectId (normalizeSuiObjectId raw) else BadObjectId i;
      inr (normalizeSuiObjectId raw)
  end.

Definition normalizeSealServerConfig (value : json) (i : nat) : config_error + SealServerConfig :=
  match value with
  | JObj _ =>
      match normalizeObjectId (jget "objectId" value) i with
      | inl e => inl e
      | inr oid =>
      match normalizeWeight (jget "weight" value) i with
      | inl e => inl e
      | inr w =>
      match optionalNonEmptyString (jget "aggregatorUrl" value) "aggregatorUrl" i with
      | inl e => inl e
      | inr url =>
      match optionalNonEmptyString (jget "apiKeyName" value) "apiKeyName" i with
      | inl e => inl e
      | inr name =>
      match optionalNonEmptyString (jget "apiKey" value) "apiKey" i with
      | inl e => inl e
      | inr key =>
          guard_or Bool.eqb (bool_decide (is_Some name)) (bool_decide (is_Some key)) else ApiKeyPair i;
          inr (ServerConfig oid w url name key)
      end end end end end
  | _ => inl (MustBeObject i)
  end.

(** [values.map(normalizeSealServerConfig)], from index [i] *)
Fixpoint normalize_all (i : nat) (l : list json) : config_error + list SealServerConfig :=
  match l with
  | [] => inr []
  | v :: l' =>
      match normalizeSealServerConfig v i with
      | inl e => inl e
      | inr c => match normalize_all (S i) l' with inl e => inl e | inr cs => inr (c :: cs) end
      end
  end.

Definition parseSealServerConfigsJson (value : string) : config_error + list SealServerConfig :=
  match json_parse value with
  | None => inl NotJson
  | Some (JArr l) => normalize_all 0 l
  | Some _ => inl NotArray
  end.

(** [s.split(",")] *)
Fixpoint split_commas (acc l : list Ascii.ascii) : list string :=
  match l with
  | [] => [of_chars (rev acc)]
  | c :: l' => if is_char 44 c then of_chars (rev acc) :: split_commas [] l'
               else split_commas (c :: acc) l'
  end.

(** The fields of [s]: joined by commas they are [s], and none has a comma. *)
Definition comma_free (s : string) : Prop := Forall (λ c, is_char 44 c = false) (chars s).
Lemma split_commas_nonempty acc l : split_commas acc l ≠ [].
Proof. revert acc. induction l as [|c l IH]; intros acc; simpl; [done|]. by destruct (is_char 44 c). Qed.
Lemma split_commas_spec l : ∀ acc, Forall (λ c, is_char 44 c = false) acc →
  join "," (split_commas acc l) = of_chars (rev acc ++ l) ∧ Forall comma_free (split_commas acc l).
Proof.
  assert (Hfree : ∀ acc, Forall (λ c, is_char 44 c = false) acc → comma_free (of_chars (rev acc))).
  { intros acc Ha. unfold comma_free. rewrite chars_of_chars. by apply Forall_rev. }
  induction l as [|c l IH]; intros acc Ha; simpl.
  - rewrite app_nil_r. split; [done|]. constructor; [by apply Hfree|constructor].
  - destruct (is_char 44 c) eqn:Ec.
    + destruct (IH [] ltac:(constructor)) as [H1 H2]. split; [|constructor; [by apply Hfree|done]].
      destruct (split_commas [] l) as [|x xs] eqn:Es; [by apply split_commas_nonempty in Es|].
      change (of_chars (rev acc) +:+ "," +:+ join "," (x :: xs) = of_chars (rev acc ++ c :: l)). rewrite H1. apply chars_inj. rewrite !chars_app, !chars_of_chars. unfold is_char in Ec. apply N.eqb_eq in Ec.
      assert (c = Ascii.ascii_of_N 44) as -> by (rewrite <-(Ascii.ascii_N_embedding c); unfold code in Ec; by rewrite Ec). done.
    + destruct (IH (c :: acc)) as [H1 H2]; [by constructor|]. split; [|done]. rewrite H1. simpl. by rewrite <-app_assoc.
Qed.

Definition object_of_id (s : string) : json := JObj [("objectId", JStr s)].

Definition parseLegacyKeyServers (value : option string) : config_error + list SealServerConfig :=
  let items := filter (λ s, is_empty s = false) (map trim (split_commas [] (chars (default empty_str value)))) in
  normalize_all 0 (map object_of_id items).

Definition DEFAULT_SEAL_SERVER_CONFIGS (network : string) : list json :=
  let entry (s : string) := JObj [("objectId", JStr s); ("weight", jint 1)] in
  if seqb network "mainnet" then
    [entry "0x145540d931f182fef76467dd8074c9839aea126852d90d18e1556fcbbd1208b6";
     entry "0xe0eb52eba9261b96e895bbb4deca10dcd64fbc626a1133017adcd5131353fd10"]
  else if seqb network "testnet" then
    [entry "0x73d05d62c18d9374e3ea529e8e0ed6161da1a141a94d3f76ae3fe4e99356db75";
     entry "0xf5d14a81a982144ae441cd7d64b09027f116a468bd36e7eca494f750591623c8"]
  else [].

(** [value || fallback] on strings *)
Definition str_or (v : option string) (d : string) : string :=
  match v with Some s => if is_empty s then d else s | None => d end.

Definition getDefaultSealServerConfigs (network : option string) : config_error + list SealServerConfig :=
  normalize_all 0 (DEFAULT_SEAL_SERVER_CONFIGS (str_or network "mainnet")).

Definition total_weight (configs : list SealServerConfig) : Z := foldr Z.add 0 (map weight configs).

(** The sum of weights of at most 254 is exact, so [isSafeInteger] holds. *)
Definition sealTotalWeight (configs : list SealServerConfig) : config_error + Z :=
  guard_or total_weight configs <=? MAX_SEAL_WEIGHTED_SERVERS else TotalWeight;
  inr (total_weight configs).

Definition env : Type := string → option string.

(** The list the environment selects, before the checks on the whole list. *)
Definition selected_configs (e : env) : config_error + list SealServerConfig :=
  match parseLegacyKeyServers (e "SEAL_KEY_SERVERS") with
  | inl err => inl err
  | inr legacy =>
      let raw := trim (default empty_str (e "SEAL_SERVER_CONFIGS")) in
      if negb (is_empty raw) then parseSealServerConfigsJson raw
      else if (0 <? length legacy)%nat then inr legacy
      else getDefaultSealServerConfigs (e "SUI_NETWORK")
  end.

Definition getSealServerConfigsFromEnv (e : env) : config_error + list SealServerConfig :=
  match selected_configs e with
  | inl err => inl err
  | inr configs =>
      guard_or bool_decide (NoDup (map objectId configs)) else DuplicateIds;
      match sealTotalWeight configs with inl err => inl err | inr _ => inr configs end
  end.

Definition number_safe_int (n : number) : option Z :=
  match n with Finite q => safe_int q | _ => None end.

Definition getSealThresholdFromEnv (configs : list SealServerConfig) (e : env) : config_error + Z :=
  match sealTotalWeight configs with
  | inl err => inl err
  | inr totalWeight =>
      let defaultThreshold := if 0 <? totalWeight then Z.min 2 totalWeight else 2 in
      let rawThreshold := trim (default empty_str (e "SEAL_THRESHOLD")) in
      if is_empty rawThreshold then inr defaultThreshold
      else
        match number_safe_int (string_number rawThreshold) with
        | Some threshold =>
            guard_or (1 <=? threshold) && (threshold <=? MAX_SEAL_WEIGHTED_SERVERS) else BadThreshold;
            guard_or negb ((0 <? totalWeight) && (totalWeight <? threshold)) else ThresholdTooHigh;
            inr threshold
        | None => inl BadThreshold
        end
  end.

Record SealCommitteeIdentity : Type := Committee {
  servers : list (string * Z);
  threshold : Z;
}.

Definition getSealCommitteeIdentity (configs : list SealServerConfig) (t : Z) : SealCommitteeIdentity :=
  Committee (map (λ c, (objectId c, weight c)) configs) t.

(** [candidate.servers.every(...)], on lists of equal length *)
Fixpoint servers_match (l : list json) (actual : list (string * Z)) : bool :=
  match l, actual with
  | v :: l', (oid, w) :: actual' =>
      (match jget "objectId" v with JStr s => seqb s oid | _ => false end) &&
      num_is (jget "weight" v) w && servers_match l' actual'
  | _, _ => true
  end.

Definition sealCommitteeIdentityMatches (expected : json) (actual : SealCommitteeIdentity) : bool :=
  match expected with
  | JObj _ | JArr _ =>
      num_is (jget "threshold" expected) (threshold actual) &&
      match jget "servers" expected with
      | JArr l => (length l =? length (servers actual))%nat && servers_match l (servers actual)
      | _ => false
      end
  | _ => false
  end.

(** [sealEncryptCommitteeFailure] of routes/seal.ts: the status of the refusal. *)
Definition sealEncryptCommitteeFailure (expected : json) (required : bool)
    (actual : SealCommitteeIdentity) : option Z :=
  if is_undefined expected then (if negb required then None else Some 400)
  else if negb (sealCommitteeIdentityMatches expected actual) then Some 409
  else None.

(** ** Lemmas *)
Definition good_server (c : SealServerConfig) : Prop :=
  1 <= weight c <= MAX_SEAL_WEIGHTED_SERVERS ∧ isValidSuiObjectId (objectId c) = true ∧
  (is_Some (apiKeyName c) ↔ is_Some (apiKey c)).

Lemma normalizeWeight_inr v i w : normalizeWeight v i = inr w → 1 <= w <= MAX_SEAL_WEIGHTED_SERVERS.
Proof.
  unfold normalizeWeight, MAX_SEAL_WEIGHTED_SERVERS. intros. case_all; bool_to_prop; lia.
Qed.

Lemma normalizeObjectId_inr v i oid : normalizeObjectId v i = inr oid → isValidSuiObjectId oid = true.
Proof. unfold normalizeObjectId. intros. case_all. apply ensure_inr in H as [H E]. by simplify_eq. Qed.

Lemma eqb_is_Some (a b : option string) :
  Bool.eqb (bool_decide (is_Some a)) (bool_decide (is_Some b)) = true → is_Some a ↔ is_Some b.
Proof.
  intros E%Bool.eqb_prop.
  split; intros Hs; eapply bool_decide_eq_true_1; [rewrite <-E|rewrite E];
    by apply bool_decide_eq_true_2.
Qed.

Lemma normalize_server_good v i c : normalizeSealServerConfig v i = inr c → good_server c.
Proof.
  unfold normalizeSealServerConfig. intros H. case_all. apply ensure_inr in H as [Hk E]. simplify_eq.
  unfold good_server. simpl. split_and!.
  - by eapply normalizeWeight_inr.
  - by eapply normalizeWeight_inr.
  - by eapply normalizeObjectId_inr.
  - by apply eqb_is_Some.
Qed.

Lemma normalize_all_good i l cs : normalize_all i l = inr cs → Forall good_server cs.
Proof.
  revert i cs. induction l as [|v l IH]; intros i cs H; simpl in H; case_all; constructor; eauto.
  by eapply normalize_server_good.
Qed.

Lemma selected_good e cs : selected_configs e = inr cs → Forall good_server cs.
Proof.
  unfold selected_configs, parseSealServerConfigsJson, parseLegacyKeyServers,
    getDefaultSealServerConfigs. intros H. case_all; by eapply normalize_all_good.
Qed.

Lemma sealTotalWeight_inr cs w :
  sealTotalWeight cs = inr w → w = total_weight cs ∧ w <= MAX_SEAL_WEIGHTED_SERVERS.
Proof. intros [H E]%ensure_inr. simplify_eq. by apply Z.leb_le in H. Qed.

Lemma total_weight_length cs : Forall good_server cs → Z.of_nat (length cs) <= total_weight cs.
Proof.
  unfold total_weight. induction 1 as [|c cs [Hw _] _ IH]; simpl; lia.
Qed.

(** A SEAL committee that passes configuration is usable: its servers
    have distinct valid object ids and weights from 1, the weights add up to
    at most 254, API keys come in pairs, and the threshold is positive and
    never above the total weight. *)
Theorem seal_configuration_usable (e : env) (configs : list SealServerConfig) (t : Z) :
  getSealServerConfigsFromEnv e = inr configs → getSealThresholdFromEnv configs e = inr t →
  Forall good_server configs ∧ NoDup (map objectId configs) ∧
  Z.of_nat (length configs) <= total_weight configs <= 254 ∧
  1 <= t <= 254 ∧ (configs ≠ [] → t <= total_weight configs).
Proof.
  unfold getSealServerConfigsFromEnv, getSealThresholdFromEnv. intros Hc Ht.
  destruct (selected_configs e) as [|cs] eqn:Es; [done|]. apply ensure_inr in Hc as [Hd Hc].
  destruct (sealTotalWeight cs) as [|w] eqn:Ew; simplify_eq. rewrite Ew in Ht.
  apply selected_good in Es. apply sealTotalWeight_inr in Ew as [-> Hw].
  pose proof (total_weight_length configs Es) as Hl. apply bool_decide_eq_true in Hd.
  unfold MAX_SEAL_WEIGHTED_SERVERS in *.
  assert (Hne : configs ≠ [] → 1 <= total_weight configs).
  { intros Hne. destruct configs; [done|]. simpl in Hl. lia. }
  split_and!; try done; case_all; try apply ensure_inr in Ht as [Ht1 Ht]; simplify_eq;
    try apply ensure_inr in Ht as [Ht2 Ht]; simplify_eq; bool_to_prop; try lia;
    intros Hcs; specialize (Hne Hcs); try lia;
    apply andb_false_iff in Ht2 as [Ht2|Ht2]; bool_to_prop; lia.
Qed.

Definition server_json (s : string * Z) : json :=
  JObj [("objectId", JStr s.1); ("weight", jint s.2)].

(** The JSON a caller pins for a committee. *)
Definition identity_json (a : SealCommitteeIdentity) : json :=
  JObj [("servers", JArr (map server_json (servers a)));
        ("threshold", jint (threshold a))].

Lemma num_is_jint a b : num_is (jint a) b = (a =? b).
Proof.
  unfold num_is, jint. destruct (Qeq_bool _ _) eqn:E.
  - apply Qeq_bool_eq in E. unfold Qeq in E. simpl in E. symmetry. apply Z.eqb_eq. lia.
  - apply Qeq_bool_neq in E. symmetry. apply Z.eqb_neq. intros ->. by apply E.
Qed.

Lemma servers_match_cons o w l1 o' w' l2 :
  servers_match (map server_json ((o, w) :: l1)) ((o', w') :: l2) =
  seqb o o' && num_is (jint w) w' && servers_match (map server_json l1) l2.
Proof. reflexivity. Qed.

Lemma servers_match_json l1 l2 :
  length l1 = length l2 → servers_match (map server_json l1) l2 = true ↔ l1 = l2.
Proof.
  revert l2. induction l1 as [|[o w] l1 IH]; intros [|[o' w'] l2] [=]; [done|].
  rewrite servers_match_cons, num_is_jint, !andb_true_iff, seqb_eq, Z.eqb_eq, IH by done. naive_solver.
Qed.

(** Pinning is exact: the committee identity of one configuration
    matches another one's exactly when servers, order, weights and threshold
    all agree, so an encryption is refused (409) for every other committee
    and, when pinning is required, for a request without a pin (400). *)
Theorem committee_pin_exact (a b : SealCommitteeIdentity) (required : bool) :
  (sealEncryptCommitteeFailure (identity_json a) required b = None ↔ a = b) ∧
  (a ≠ b → sealEncryptCommitteeFailure (identity_json a) required b = Some 409) ∧
  sealEncryptCommitteeFailure JUndefined true b = Some 400.
Proof.
  assert (Hm : sealCommitteeIdentityMatches (identity_json a) b = true ↔ a = b).
  { assert (E1 : jget "threshold" (identity_json a) = jint (threshold a)) by reflexivity.
    assert (E2 : jget "servers" (identity_json a) = JArr (map server_json (servers a))) by reflexivity.
    unfold sealCommitteeIdentityMatches. rewrite E1, E2. unfold identity_json. cbv iota.
    destruct a as [sa ta], b as [sb tb]. cbn [servers threshold].
    rewrite num_is_jint, length_map, !andb_true_iff, Z.eqb_eq, Nat.eqb_eq. split.
    - intros (-> & Hl & Hs). by apply servers_match_json in Hs as ->.
    - intros [= -> ->]. split_and!; [done|done|]. by apply servers_match_json. }
  unfold sealEncryptCommitteeFailure. change (is_undefined (identity_json a)) with false. cbv iota.
  destruct (sealCommitteeIdentityMatches (identity_json a) b) eqn:E; simpl; naive_solver.
Qed.

End Config.

Definition ex_env (k : string) : option string :=
  if seqb k "SEAL_SERVER_CONFIGS"
  then Some (q2 "[{'objectId':'0xa','weight':3},{'objectId':'0xb','apiKeyName':'k','apiKey':'v'}]")
  else if seqb k "SEAL_THRESHOLD" then Some "3" else None.
Definition ex_configs : list SealServerConfig :=
  [ServerConfig "0xa" 3 None None None; ServerConfig "0xb" 1 None (Some "k") (Some "v")].

Lemma seal_configuration_usable_witness :
  1 <= 3 <= 254 ∧ (ex_configs ≠ [] → 3 <= total_weight ex_configs).
Proof.
  destruct (seal_configuration_usable (λ s, s) (starts_with "0x") ex_env ex_configs 3) as (_ & _ & _ & H).
  - vm_compute. reflexivity.
  - vm_compute. reflexivity.
  - exact H.
Defined.

End SealConfig.
