(* ===== verification/Config.v ===== *)
(** * Sidecar configuration (sidecar/config.ts, sidecar/sui-transport-policy.ts)

    The environment parsers, the storage-epoch rules and the numeric limits
    that the upload, retry and sponsorship components are run with. *)
From Stdlib Require Import QArith Qround.
From S2P Require Import Prelude JsText JsNumber.
Local Open Scope Z_scope.

Module Config.

Definition env : Type := string → option string.

(** [process.env[name]?.trim()], empty when unset *)
Definition env_trim (e : env) (name : string) : string := trim (default empty_str (e name)).

Definition parsePositiveIntEnv (e : env) (name : string) (fallback lo hi : Z) : Z :=
  let raw := env_trim e name in
  if is_empty raw then fallback
  else match parse_int10 raw with
       | Some parsed => if parsed <? lo then fallback else Z.min parsed hi
       | None => fallback
       end.

Definition parseBooleanEnv (e : env) (name : string) (fallback : bool) : bool :=
  let raw := lower (env_trim e name) in
  if is_empty raw then fallback else seqb raw "1" || seqb raw "true" || seqb raw "yes".

Inductive SuiNetwork : Type := mainnet | testnet | devnet | localnet.
#[global] Instance SuiNetwork_dec : EqDecision SuiNetwork.
Proof. solve_decision. Defined.

(** [value || d] *)
Definition str_or (v : option string) (d : string) : string :=
  match v with Some s => if is_empty s then d else s | None => d end.

Definition parseSuiNetwork (value : option string) : option SuiNetwork :=
  let normalized := lower (trim (str_or value "mainnet")) in
  if seqb normalized "mainnet" then Some mainnet
  else if seqb normalized "testnet" then Some testnet
  else if seqb normalized "devnet" then Some devnet
  else if seqb normalized "localnet" then Some localnet
  else None.

(** ** Storage epochs *)
Definition MAX_WALRUS_EPOCHS : Z := 15.
Definition NETWORK_DEFAULT_WALRUS_EPOCHS (n : SuiNetwork) : Z := if decide (n = mainnet) then 3 else 5.

Definition DEFAULT_WALRUS_EPOCHS (e : env) (n : SuiNetwork) : Z :=
  let raw := env_trim e "WALRUS_STORAGE_EPOCHS" in
  if is_empty raw then NETWORK_DEFAULT_WALRUS_EPOCHS n
  else match parse_int10 raw with
       | Some parsed =>
           if (0 <? parsed) && (parsed <=? MAX_WALRUS_EPOCHS) then parsed
           else NETWORK_DEFAULT_WALRUS_EPOCHS n
       | None => NETWORK_DEFAULT_WALRUS_EPOCHS n
       end.

Definition clampWalrusEpochs (e : env) (n : SuiNetwork) (rawEpochs : json) : Z :=
  match to_number rawEpochs with
  | Finite q => if Qle_bool q 0 then DEFAULT_WALRUS_EPOCHS e n else Z.min (Qfloor q) MAX_WALRUS_EPOCHS
  | _ => DEFAULT_WALRUS_EPOCHS e n
  end.

Definition parseDurableWalrusEpochs (rawEpochs : json) (network : SuiNetwork) : option Z :=
  let epochs := match as_safe_int rawEpochs with
                | Some z => if (1 <=? z) && (z <=? MAX_WALRUS_EPOCHS) then Some z else None
                | None => None
                end in
  if bool_decide (network = mainnet) && negb (bool_decide (epochs = Some MAX_WALRUS_EPOCHS))
  then None else epochs.

(** ** The numeric limits *)
Record limits : Type := Limits {
  WALRUS_UPLOAD_MAX_CONCURRENCY : Z;
  WALRUS_UPLOAD_PER_WALLET_CONCURRENCY : Z;
  WALRUS_UPLOAD_ACQUIRE_TIMEOUT_MS : Z;
  ENOKI_TRANSIENT_MAX_ATTEMPTS : Z;
  ENOKI_TRANSIENT_BASE_DELAY_MS : Z;
  ENOKI_TRANSIENT_MAX_DELAY_MS : Z;
  ENOKI_INVALIDATED_MAX_ATTEMPTS : Z;
  ENOKI_INVALIDATED_BASE_DELAY_MS : Z;
  ENOKI_INVALIDATED_MAX_DELAY_MS : Z;
}.

(** [keys]: the number of [SERVER_SUI_PRIVATE_KEYS] *)
Definition load_limits (e : env) (keys : nat) : limits :=
  Limits
    (parsePositiveIntEnv e "WALRUS_UPLOAD_MAX_CONCURRENCY" (Z.max 1 (Z.of_nat keys)) 1 100)
    (parsePositiveIntEnv e "WALRUS_UPLOAD_PER_WALLET_CONCURRENCY" 1 1 10)
    (parsePositiveIntEnv e "WALRUS_UPLOAD_ACQUIRE_TIMEOUT_MS" 120000 1000 180000)
    (parsePositiveIntEnv e "ENOKI_TRANSIENT_MAX_ATTEMPTS" 2 1 5)
    (parsePositiveIntEnv e "ENOKI_TRANSIENT_BASE_DELAY_MS" 5000 100 60000)
    (parsePositiveIntEnv e "ENOKI_TRANSIENT_MAX_DELAY_MS" 30000 1000 120000)
    (parsePositiveIntEnv e "ENOKI_INVALIDATED_MAX_ATTEMPTS" 4 1 10)
    (parsePositiveIntEnv e "ENOKI_INVALIDATED_BASE_DELAY_MS" 1000 100 60000)
    (parsePositiveIntEnv e "ENOKI_INVALIDATED_MAX_DELAY_MS" 8000 100 120000).

Lemma parsePositiveIntEnv_range e name fallback lo hi :
  lo <= hi → lo <= parsePositiveIntEnv e name fallback lo hi ∨
  parsePositiveIntEnv e name fallback lo hi = fallback.
Proof. intros. unfold parsePositiveIntEnv. repeat case_match; auto. bool_to_prop. left. lia. Qed.

Lemma parsePositiveIntEnv_bounds e name fallback lo hi :
  lo <= fallback <= hi → lo <= parsePositiveIntEnv e name fallback lo hi <= hi.
Proof. intros. unfold parsePositiveIntEnv. repeat case_match; bool_to_prop; lia. Qed.

(** A numeric setting [v]: within its range (a default may exceed it), the
    number the environment gives when that is in range, the default when it
    gives none. *)
Definition honoured (e : env) (name : string) (fallback lo hi v : Z) : Prop :=
  lo <= v <= Z.max fallback hi ∧
  (∀ n, parse_int10 (env_trim e name) = Some n → lo <= n → v = Z.min n hi) ∧
  (∀ n, parse_int10 (env_trim e name) = Some n → n < lo → v = fallback) ∧
  (parse_int10 (env_trim e name) = None → v = fallback).
Lemma parse_int10_empty s : is_empty s = true → parse_int10 s = None.
Proof. intros Hs. by destruct s. Qed.
Lemma parsePositiveIntEnv_honoured e name fallback lo hi :
  lo <= fallback → lo <= hi → honoured e name fallback lo hi (parsePositiveIntEnv e name fallback lo hi).
Proof.
  intros Hf Hh. unfold honoured, parsePositiveIntEnv.
  destruct (is_empty (env_trim e name)) eqn:Ee; [rewrite (parse_int10_empty _ Ee); split_and!; try done; lia|].
  destruct (parse_int10 (env_trim e name)) as [n|]; [|split_and!; try done; lia].
  destruct (n <? lo) eqn:En; split_and!; try done; try lia; intros n' [= <-]; lia.
Qed.
(** Every limit is honoured under its own name. *)
Definition limits_honoured (e : env) (keys : nat) (l : limits) : Prop :=
  honoured e "WALRUS_UPLOAD_MAX_CONCURRENCY" (Z.max 1 (Z.of_nat keys)) 1 100 (WALRUS_UPLOAD_MAX_CONCURRENCY l) ∧
  honoured e "WALRUS_UPLOAD_PER_WALLET_CONCURRENCY" 1 1 10 (WALRUS_UPLOAD_PER_WALLET_CONCURRENCY l) ∧
  honoured e "WALRUS_UPLOAD_ACQUIRE_TIMEOUT_MS" 120000 1000 180000 (WALRUS_UPLOAD_ACQUIRE_TIMEOUT_MS l) ∧
  honoured e "ENOKI_TRANSIENT_MAX_ATTEMPTS" 2 1 5 (ENOKI_TRANSIENT_MAX_ATTEMPTS l) ∧
  honoured e "ENOKI_TRANSIENT_BASE_DELAY_MS" 5000 100 60000 (ENOKI_TRANSIENT_BASE_DELAY_MS l) ∧
  honoured e "ENOKI_TRANSIENT_MAX_DELAY_MS" 30000 1000 120000 (ENOKI_TRANSIENT_MAX_DELAY_MS l) ∧
  honoured e "ENOKI_INVALIDATED_MAX_ATTEMPTS" 4 1 10 (ENOKI_INVALIDATED_MAX_ATTEMPTS l) ∧
  honoured e "ENOKI_INVALIDATED_BASE_DELAY_MS" 1000 100 60000 (ENOKI_INVALIDATED_BASE_DELAY_MS l) ∧
  honoured e "ENOKI_INVALIDATED_MAX_DELAY_MS" 8000 100 120000 (ENOKI_INVALIDATED_MAX_DELAY_MS l).
Lemma load_limits_honoured e keys : limits_honoured e keys (load_limits e keys).
Proof. unfold limits_honoured, load_limits. cbn -[parsePositiveIntEnv Z.max]. split_and!; apply parsePositiveIntEnv_honoured; lia. Qed.

Lemma default_epochs_bounds e n : 1 <= DEFAULT_WALRUS_EPOCHS e n <= MAX_WALRUS_EPOCHS.
Proof.
  unfold DEFAULT_WALRUS_EPOCHS, NETWORK_DEFAULT_WALRUS_EPOCHS, MAX_WALRUS_EPOCHS.
  repeat case_match; bool_to_prop; lia.
Qed.

(** No request can buy storage outside the policy: the epochs of a legacy
    upload are a whole number from 0 to 15 (0 only for a fraction below one
    epoch), those of a durable upload from 1 to 15, and on mainnet a durable
    upload is accepted for exactly 15. *)
Theorem epochs_within_policy (e : env) (n : SuiNetwork) (raw : json) :
  0 <= clampWalrusEpochs e n raw <= 15 ∧
  (clampWalrusEpochs e n raw = 0 ↔
     ∃ q, to_number raw = Finite q ∧ (0 < q)%Q ∧ (q < 1)%Q) ∧
  (∀ z, parseDurableWalrusEpochs raw n = Some z → 1 <= z <= 15 ∧ as_safe_int raw = Some z ∧
     (n = mainnet → z = 15)) ∧
  (parseDurableWalrusEpochs raw mainnet = Some 15 ↔ as_safe_int raw = Some 15).
Proof.
  pose proof (default_epochs_bounds e n) as Hd. unfold MAX_WALRUS_EPOCHS in Hd.
  assert (Hc : 0 <= clampWalrusEpochs e n raw <= 15 ∧
    (clampWalrusEpochs e n raw = 0 ↔ ∃ q, to_number raw = Finite q ∧ (0 < q)%Q ∧ (q < 1)%Q)).
  { unfold clampWalrusEpochs, MAX_WALRUS_EPOCHS. destruct (to_number raw) as [| |q].
    - split; [lia|]. split; [lia|]. by intros (? & ? & _).
    - split; [lia|]. split; [lia|]. by intros (? & ? & _).
    - destruct (Qle_bool q 0) eqn:Eq.
      + split; [lia|]. split; [lia|]. intros (q' & [= <-] & Hq & _).
        apply Qle_bool_iff in Eq. by apply Qle_not_lt in Eq.
      + assert (Hq : (0 < q)%Q).
        { apply Qnot_le_lt. intros Hq. apply Qle_bool_iff in Hq. congruence. }
        assert (0 <= Qfloor q). { apply (Qfloor_resp_le 0). by apply Qlt_le_weak. }
        split; [lia|]. split.
        * intros Hz. exists q. split_and!; [done..|]. assert (Qfloor q = 0) as Hf by lia.
          pose proof (Qlt_floor q) as Hl. rewrite Hf in Hl. exact Hl.
        * intros (q' & [= <-] & _ & Hlt). assert (Qfloor q < 1); [|lia].
          apply Z.nle_gt. intros H1. apply Qlt_not_le in Hlt. apply Hlt.
          eapply Qle_trans; [|apply Qfloor_le]. by rewrite <-(Zle_Qle 1). }
  destruct Hc as [Hc1 Hc2]. split_and!; [lia..|exact Hc2| |].
  - unfold parseDurableWalrusEpochs, MAX_WALRUS_EPOCHS. intros z Hz. case_match eqn:Em; [done|].
    destruct (as_safe_int raw) as [z'|]; [|done]. case_match eqn:Er; [|done]. simplify_eq.
    bool_to_prop. split_and!; [lia..|done|]. intros ->. rewrite bool_decide_true in Em by done.
    simpl in Em. apply negb_false_iff, bool_decide_eq_true in Em. by simplify_eq.
  - unfold parseDurableWalrusEpochs, MAX_WALRUS_EPOCHS. rewrite bool_decide_true by done. simpl. split.
    + intros Hz. case_match; [done|]. case_match; [|done]. case_match; by simplify_eq.
    + intros ->. reflexivity.
Qed.

End Config.
