(* ===== verification/Retry.v ===== *)
(** * Error classification and retry policies

    sidecar/retry/rpc.ts ([withRpcRetry], the shared-infrastructure and
    durable classifiers), scripts/enoki-retry.ts (retry delays of the
    sponsor API) and scripts/walrus-error-detection.ts (message patterns). *)
From Stdlib Require Import QArith Qround Ascii.
From S2P Require Import Prelude JsText JsNumber.
Local Open Scope Z_scope.

(** ** Thrown values

    What the classifiers read of a caught [Error]: its class, its [code],
    [status], [statusCode], [cause?.code], [message], [String(err)] and
    [name]. *)
Inductive error_class : Type :=
| PlainError
| NoSideEffectError
| FinalizedTransactionFailure      (** extends [NoSideEffectError] *)
| DurableSideEffectVerifyError
| WalrusUploadLimitError
| InvalidSealPersistenceFenceError.
#[export] Instance error_class_dec : EqDecision error_class.
Proof. solve_decision. Defined.

Record js_error : Type := JsError {
  e_class : error_class;
  e_code : json;
  e_status : json;
  e_statusCode : json;
  e_cause_code : json;
  e_message : string;
  e_string : string;
  e_name : string;
}.

(** [new Error(message)] and the classes of rpc.ts *)
Definition plain_error (message : string) : js_error :=
  JsError PlainError JUndefined JUndefined JUndefined JUndefined message ("Error: " +:+ message) "Error".
(** A [TypeError] of the runtime. *)
Definition js_type_error (message : string) : js_error :=
  JsError PlainError JUndefined JUndefined JUndefined JUndefined message ("TypeError: " +:+ message) "TypeError".
Definition no_side_effect_error (message : string) : js_error :=
  JsError NoSideEffectError (JStr "NO_SIDE_EFFECT") JUndefined JUndefined JUndefined message
    ("NoSideEffectError: " +:+ message) "NoSideEffectError".
Definition finalized_failure (message : string) : js_error :=
  JsError FinalizedTransactionFailure (JStr "FINALIZED_TRANSACTION_FAILURE") JUndefined JUndefined
    JUndefined message ("FinalizedTransactionFailure: " +:+ message) "FinalizedTransactionFailure".
Definition verify_error (message : string) : js_error :=
  JsError DurableSideEffectVerifyError (JStr "DURABLE_SIDE_EFFECT_VERIFY_FAILED") JUndefined JUndefined
    JUndefined message ("DurableSideEffectVerifyError: " +:+ message) "DurableSideEffectVerifyError".
(** An error carrying an HTTP status. *)
Definition status_error (status : Z) (message : string) : js_error :=
  JsError PlainError JUndefined (jint status) JUndefined JUndefined message ("Error: " +:+ message) "Error".

(** [v.k], which throws on [null] and [undefined], and [v === s] *)
Definition read_of (k : string) (v : json) : js_error + json :=
  match v with JNull | JUndefined => inl (js_type_error "cannot read properties") | _ => inr (jget k v) end.
Definition equals_text (s : string) (v : json) : bool := match v with JStr t => seqb s t | _ => false end.

(** [err instanceof ...] *)
Definition is_no_side_effect (e : js_error) : bool :=
  bool_decide (e_class e = NoSideEffectError ∨ e_class e = FinalizedTransactionFailure).
Definition is_verify_error (e : js_error) : bool :=
  bool_decide (e_class e = DurableSideEffectVerifyError).

(** [errorMessage], [errorName] and [formattedError] of util.ts, on an [Error] *)
Definition errorMessage (err : js_error) : string := e_message err.
Definition errorName (err : js_error) : string := if is_empty (e_name err) then "Error" else e_name err.
Definition formattedError (err : js_error) : string :=
  if negb (seqb (errorName err) "Error") then errorName err +:+ ": " +:+ errorMessage err else errorMessage err.

(** [String(err?.message || err)] *)
Definition error_text (e : js_error) : string :=
  if is_empty (e_message e) then e_string e else e_message e.

(** ** rpc.ts *)
Definition mem_code (v : json) (l : list string) : bool :=
  match v with JStr s => existsb (seqb s) l | _ => false end.

Definition RETRYABLE_GRPC_CODES : list string :=
  ["UNAVAILABLE"; "RESOURCE_EXHAUSTED"; "DEADLINE_EXCEEDED"; "ABORTED"].
Definition RETRYABLE_CONNECTION_CODES : list string :=
  ["ECONNREFUSED"; "ECONNRESET"; "EAI_AGAIN"; "ETIMEDOUT"; "UND_ERR_CONNECT_TIMEOUT"; "UND_ERR_SOCKET"].

Definition OUTAGE_PHRASES : list string :=
  ["rate limit"; "rate-limit"; "ratelimit"; "too many"; "timeout"; "timed out";
   "temporarily unavailable"].

Definition is_num (v : json) : bool := match v with JNum _ => true | _ => false end.

Definition isRetryableSharedInfraError (err : js_error) : bool :=
  let status := coalesce (e_status err) (coalesce (e_statusCode err)
                  (if is_num (e_code err) then e_code err else JUndefined)) in
  mem_code (e_code err) RETRYABLE_GRPC_CODES ||
  (num_is status 408 || num_is status 429 || (num_ge status 500 && num_le status 599)) ||
  mem_code (coalesce (e_cause_code err) (e_code err)) RETRYABLE_CONNECTION_CODES ||
  existsb (λ p, includes p (lower (error_text err))) OUTAGE_PHRASES.

(** [/\b(?:408|429|5\d\d)\b/] *)
Definition status_digits : re :=
  rseq [RBound; ralt [rlit "408"; rlit "429"; rseq [rlit "5"; RChar is_digit; RChar is_digit]]; RBound].

Definition isRetryableRpcError (err : js_error) : bool :=
  isRetryableSharedInfraError err || re_test status_digits (lower (error_text err)).

Inductive durable_code : Type :=
| NO_SIDE_EFFECT (shared_cause : bool)
| SHARED_SERVICE_UNAVAILABLE
| DURABLE_SIDE_EFFECT_VERIFY_FAILED.

Definition classifyDurableSideEffectError (err : js_error)
    (phaseCanSubmitSideEffect submissionStarted : bool) : option durable_code :=
  if is_verify_error err then Some DURABLE_SIDE_EFFECT_VERIFY_FAILED
  else if is_no_side_effect err then Some (NO_SIDE_EFFECT false)
  else
    let sharedServiceUnavailable := isRetryableSharedInfraError err in
    if phaseCanSubmitSideEffect && negb submissionStarted
    then Some (NO_SIDE_EFFECT sharedServiceUnavailable)
    else if phaseCanSubmitSideEffect && submissionStarted && negb sharedServiceUnavailable
    then Some DURABLE_SIDE_EFFECT_VERIFY_FAILED
    else if sharedServiceUnavailable then Some SHARED_SERVICE_UNAVAILABLE else None.

(** ** withRpcRetry

    [fn] and [random] are indexed by the attempt. *)
Section WithRpcRetry.
Context {A : Type} (fn : nat → js_error + A) (random : nat → Q).

Definition base_delay (attempt : nat) : Z := 1000 * 2 ^ Z.of_nat attempt.
Definition rpc_delay (attempt : nat) : Z :=
  let jitterMs := Qfloor (random attempt * inject_Z (base_delay attempt * 2 / 5)) in
  Z.min 15000 (base_delay attempt + jitterMs).

(** The loop from [attempt], with [left] iterations to go: the delays slept
    and the outcome ([None]: [throw undefined], for [maxRetries = 0]). *)
Fixpoint rpc_loop (left attempt : nat) : list Z * option (js_error + A) :=
  match left with
  | O => ([], None)
  | S left' =>
      match fn attempt with
      | inr a => ([], Some (inr a))
      | inl err =>
          if negb (isRetryableRpcError err) || (left' =? 0)%nat then ([], Some (inl err))
          else let '(ds, r) := rpc_loop left' (S attempt) in (rpc_delay attempt :: ds, r)
      end
  end.
Definition withRpcRetry (maxRetries : nat) : list Z * option (js_error + A) := rpc_loop maxRetries 0.

Definition retryable_failure (r : js_error + A) : bool :=
  match r with inl err => isRetryableRpcError err | inr _ => false end.

Lemma rpc_loop_spec left attempt :
  (0 < left)%nat →
  ∃ k, (k < left)%nat ∧ rpc_loop left attempt =
         (map rpc_delay (seq attempt k), Some (fn (attempt + k))) ∧
       (∀ j, (j < k)%nat → retryable_failure (fn (attempt + j)) = true) ∧
       (retryable_failure (fn (attempt + k)) = true → S k = left).
Proof.
  revert attempt. induction left as [|left IH]; intros attempt Hl; [lia|]. simpl.
  destruct (fn attempt) as [err|a] eqn:Ef.
  - destruct (negb (isRetryableRpcError err) || (left =? 0)%nat) eqn:Eb.
    + exists 0%nat. rewrite Nat.add_0_r, Ef. split_and!; [lia|done|lia|]. simpl. intros Hr.
      rewrite Hr in Eb. simpl in Eb. apply Nat.eqb_eq in Eb. lia.
    + apply orb_false_iff in Eb as [Er Eb]. apply Nat.eqb_neq in Eb. apply negb_false_iff in Er.
      destruct (IH (S attempt) ltac:(lia)) as (k & Hk & Hr & Hj & Hlast). exists (S k).
      rewrite Hr. simpl. replace (attempt + S k)%nat with (S attempt + k)%nat by lia.
      split_and!; [lia|done| |intros H; specialize (Hlast H); lia].
      intros [|j] Hlt; [rewrite Nat.add_0_r, Ef; exact Er|].
      replace (attempt + S j)%nat with (S attempt + j)%nat by lia. apply Hj. lia.
  - exists 0%nat. rewrite Nat.add_0_r, Ef. split_and!; [lia|done|lia|done].
Qed.

Context (Hrandom : ∀ i, (0 <= random i)%Q ∧ (random i < 1)%Q).

Lemma jitter_bounds i : 0 <= Qfloor (random i * inject_Z (base_delay i * 2 / 5)) <= base_delay i * 2 / 5.
Proof.
  destruct (Hrandom i) as [H0 H1]. assert (0 <= base_delay i * 2 / 5).
  { apply Z.div_pos; [|lia]. unfold base_delay. pose proof (Z.pow_nonneg 2 (Z.of_nat i)). lia. }
  assert (Hq : (0 <= inject_Z (base_delay i * 2 / 5))%Q) by by rewrite <-(Zle_Qle 0).
  split.
  - apply (Qfloor_resp_le 0). by apply Qmult_le_0_compat.
  - rewrite <-(Qfloor_Z (base_delay i * 2 / 5)) at 2. apply Qfloor_resp_le.
    eapply Qle_trans; [apply Qmult_le_compat_r; [apply Qlt_le_weak, H1|exact Hq]|].
    rewrite Qmult_1_l. apply Qle_refl.
Qed.

(** [withRpcRetry] is bounded and transparent: it calls [fn] at most
    [maxRetries] times, repeats only retryable failures, ends with the last
    call's own result, and backs off between 1 and 15 seconds, each delay at
    least the exponential base (or the 15 s cap) and at most 1.4 times it. *)
Theorem withRpcRetry_spec (maxRetries : nat) :
  (0 < maxRetries)%nat →
  ∃ k, (k < maxRetries)%nat ∧
    snd (withRpcRetry maxRetries) = Some (fn k) ∧
    (∀ j, (j < k)%nat → retryable_failure (fn j) = true) ∧
    (retryable_failure (fn k) = true → S k = maxRetries) ∧
    length (fst (withRpcRetry maxRetries)) = k ∧
    (∀ j d, fst (withRpcRetry maxRetries) !! j = Some d →
       1000 <= d <= 15000 ∧ Z.min 15000 (base_delay j) <= d ∧ 5 * d <= 7 * base_delay j).
Proof.
  intros Hm. destruct (rpc_loop_spec maxRetries 0 Hm) as (k & Hk & E & Hj & Hlast).
  exists k. unfold withRpcRetry. rewrite E. simpl in *. rewrite length_map, length_seq.
  split_and!; [done..|]. intros j d Hd. rewrite list_lookup_fmap in Hd.
  destruct (seq 0 k !! j) as [i|] eqn:Ei; [|done]. apply lookup_seq in Ei as [-> _].
  simpl in Hd. simplify_eq. unfold rpc_delay. pose proof (jitter_bounds j) as Hb.
  assert (1000 <= base_delay j).
  { unfold base_delay. pose proof (Z.pow_pos_nonneg 2 (Z.of_nat j)). lia. }
  pose proof (Z.mul_div_le (base_delay j * 2) 5). split_and!; lia.
Qed.
End WithRpcRetry.

(** Two transient failures, then success. *)
Definition ex_fn (i : nat) : js_error + nat :=
  if (i <? 2)%nat then inl (status_error 503 "upstream") else inr i.
Lemma withRpcRetry_spec_witness : withRpcRetry ex_fn (λ _, 0%Q) 4 = ([1000; 2000], Some (inr 2%nat)) ∧
  ∃ k, snd (withRpcRetry ex_fn (λ _, 0%Q) 4) = Some (ex_fn k).
Proof.
  split; [vm_compute; reflexivity|].
  destruct (withRpcRetry_spec ex_fn (λ _, 0%Q) (λ _, conj (Qle_refl 0) eq_refl) 4 ltac:(lia))
    as (k & _ & H & _). exists k. exact H.
Defined.

(** ** enoki-retry.ts *)
Definition isTransientEnokiStatus (status : Z) : bool :=
  (status =? 429) || ((500 <=? status) && (status <=? 599)).

Section EnokiRetry.
(** [Date.parse]; [None] is [NaN]. *)
Context (date_parse : string → option Z).

Definition parseRetryAfterMs (value : option string) (nowMs : Z) : option Z :=
  match value with
  | None => None
  | Some v =>
      let trimmed := trim v in
      if is_empty v || is_empty trimmed then None
      else
        let by_date := (λ d, Z.max 0 (d - nowMs)) <$> date_parse trimmed in
        match string_number trimmed with
        | Finite q => if Qle_bool 0 q then Some (math_round (q * 1000)) else by_date
        | _ => by_date
        end
  end.

(** The longest prefix of word characters. *)
Fixpoint span_word (l : list ascii) : list ascii * list ascii :=
  match l with
  | c :: l' => if is_word c then let '(w, r) := span_word l' in (c :: w, r) else ([], l)
  | [] => ([], [])
  end.

(** [/try again in\s+(\d+(?:\.\d+)?)\s*(seconds?|s|minutes?|m)\b/i] at the
    head of a lower-case input: the unit is the whole run of word characters
    because [\b] follows it. *)
Definition try_again_at (l : list ascii) : option (number * bool) :=
  if negb (prefix_of (chars "try again in") l) then None
  else
    let l1 := drop 12 l in
    let l2 := drop_while is_space l1 in
    if (length l1 =? length l2)%nat then None
    else
      match digits 0 0 l2 with
      | (_, O, _) => None
      | (i, _, r) =>
          let '(amount, r1) := match r with
            | c :: r' =>
                if is_char 46 c then
                  match digits i 0 r' with
                  | (_, O, _) => (scale i 0, r)
                  | (m, k, r'') => (scale m (- Z.of_nat k), r'')
                  end
                else (scale i 0, r)
            | [] => (scale i 0, r)
            end in
          let '(w, _) := span_word (drop_while is_space r1) in
          let unit := of_chars w in
          if existsb (seqb unit) ["seconds"; "second"; "s"] then Some (amount, false)
          else if existsb (seqb unit) ["minutes"; "minute"; "m"] then Some (amount, true)
          else None
      end.
Fixpoint try_again_search (l : list ascii) : option (number * bool) :=
  match try_again_at l with
  | Some r => Some r
  | None => match l with [] => None | _ :: l' => try_again_search l' end
  end.

Definition parseTryAgainBodyDelayMs (body : option string) : option Z :=
  match body with
  | None => None
  | Some b =>
      match try_again_search (chars (lower b)) with
      | Some (Finite amount, minutes) =>
          Some (math_round (amount * (if minutes : bool then 60000 else 1000)))
      | _ => None
      end
  end.

Record EnokiRetryInput : Type := RetryInput {
  ri_attempt : Z;
  ri_maxAttempts : Z;
  ri_baseDelayMs : Z;
  ri_maxDelayMs : Z;
  ri_status : option Z;
  ri_body : option string;
  ri_retryAfter : option string;
  ri_transportError : bool;
}.

Definition or_else {A} (a b : option A) : option A := match a with Some _ => a | None => b end.

Definition getEnokiRetryDelayMs (nowMs : Z) (i : EnokiRetryInput) : option Z :=
  if ri_maxAttempts i <=? ri_attempt i then None
  else
    let retryable := ri_transportError i ||
                     match ri_status i with Some st => isTransientEnokiStatus st | None => false end in
    if negb retryable then None
    else
      let hintedDelayMs := or_else (parseRetryAfterMs (ri_retryAfter i) nowMs)
                                   (parseTryAgainBodyDelayMs (ri_body i)) in
      let fallbackDelayMs := ri_baseDelayMs i * 2 ^ Z.max 0 (ri_attempt i - 1) in
      let rawDelayMs := default fallbackDelayMs hintedDelayMs in
      Some (Z.max 0 (Z.min (ri_maxDelayMs i) rawDelayMs)).

Lemma enoki_delay_attempt now i d : getEnokiRetryDelayMs now i = Some d → ri_attempt i < ri_maxAttempts i.
Proof. unfold getEnokiRetryDelayMs. case_match eqn:E; [done|]. intros _. by apply Z.leb_gt in E. Qed.

Lemma enoki_delay_bounds now i d :
  getEnokiRetryDelayMs now i = Some d → 0 <= ri_maxDelayMs i → 0 <= d <= ri_maxDelayMs i.
Proof.
  unfold getEnokiRetryDelayMs. case_match; [done|]. cbv zeta. case_match; [done|].
  intros [= <-] ?. lia.
Qed.
End EnokiRetry.

(** ** Message patterns *)
Definition quoted (s : string) : re := rseq [RChar (is_char 34); rlit s; RChar (is_char 34)].
Definition spaces : re := RStar (RChar is_space).
(** [/"code"\s*:\s*"<value>"/i] *)
Definition code_field (value : string) : re := rseq [quoted "code"; spaces; rlit ":"; spaces; quoted value].

Definition isSponsoredTransactionInvalidatedMessage (message : string) : bool :=
  if is_empty message then false
  else re_test_i (rlit "sponsored transaction has expired") message ||
       re_test_i (code_field "expired") message ||
       re_test_i (rlit "sponsored transaction not found") message ||
       re_test_i (code_field "not_found") message.

Definition isWalrusPackageVersionMismatch (message : string) : bool :=
  if is_empty message then false
  else if negb (re_test_i (rlit "moveabort") message) then false
  else re_test_i (rlit "::system::inner_mut") message || re_test_i (rlit "ewrongversion") message.

Definition isWalrusReferencedObjectStale (message : string) : bool :=
  if is_empty message then false
  else re_test_i (rlit "dry_run_failed") message &&
       re_test_i (rlit "could not find the referenced object") message &&
       re_test_i (rlit "at version") message.

Inductive invalidation : Type := expired | referenced_object_stale.

Definition isEnokiSponsoredTransactionExpired (message : string) : bool :=
  if is_empty message then false
  else re_test_i (rlit "sponsored transaction has expired") message ||
       re_test_i (code_field "expired") message.

Definition classifyEnokiSponsoredTransactionInvalidation (message : string) : option invalidation :=
  if isEnokiSponsoredTransactionExpired message then Some expired
  else if isWalrusReferencedObjectStale message then Some referenced_object_stale
  else None.

Definition isWalrusBlobObjectMissingFromEffects (message : string) : bool :=
  if is_empty message then false
  else re_test_i (rlit "blob object not found in transaction effects") message.

Definition isWalrusObjectLockEquivocation (message : string) : bool :=
  if is_empty message then false
  else
    let hasLockAnchor :=
      re_test_i (rlit "already locked by a different transaction") message ||
      re_test_i (rlit "reserved for another transaction") message ||
      re_test_i (ralt [rlit "equivocated"; rlit "equivocation"]) message in
    let corroboratedLock :=
      (re_test_i (rlit "non-retriable") message ||
       re_test_i (rlit "rejected as invalid by more than 1/3 of validators by stake") message) &&
      re_test_i (rlit "object (") message && re_test_i (rlit "locked") message in
    hasLockAnchor || corroboratedLock.

(** The durable classifier never invents safety: [NO_SIDE_EFFECT] is
    reported only for an error class that proves it or for a phase that has
    not started to submit, a failed verification is always reported as such,
    and once a submission has started every other failure is either a shared
    outage or [DURABLE_SIDE_EFFECT_VERIFY_FAILED]. *)
Lemma durable_classification_sound (err : js_error) (canSubmit started : bool) :
  let c := classifyDurableSideEffectError err canSubmit started in
  ((∃ b, c = Some (NO_SIDE_EFFECT b)) ↔
     is_verify_error err = false ∧ (is_no_side_effect err = true ∨ (canSubmit = true ∧ started = false))) ∧
  (is_verify_error err = true → c = Some DURABLE_SIDE_EFFECT_VERIFY_FAILED) ∧
  (canSubmit = true → started = true → is_no_side_effect err = false → is_verify_error err = false →
     c = Some (if isRetryableSharedInfraError err then SHARED_SERVICE_UNAVAILABLE
               else DURABLE_SIDE_EFFECT_VERIFY_FAILED)) ∧
  (c = None → canSubmit = false ∧ isRetryableSharedInfraError err = false).
Proof.
  cbv zeta. unfold classifyDurableSideEffectError.
  destruct (is_verify_error err), (is_no_side_effect err), (isRetryableSharedInfraError err),
    canSubmit, started; simpl; split_and!; try done; naive_solver.
Qed.

(** Concrete messages. *)
Example rpc_abort_code_not_shared :
  isRetryableSharedInfraError (plain_error "MoveAbort in 1st command, abort code: 503") = false ∧
  isRetryableRpcError (plain_error "MoveAbort in 1st command, abort code: 503") = true.
Proof. vm_compute. done. Qed.
Example try_again_minutes :
  parseTryAgainBodyDelayMs (Some "Rate limited. Try again in 1.5 minutes.") = Some 90000.
Proof. vm_compute. reflexivity. Qed.
