(* ===== verification/Enoki.v ===== *)
(** * Sponsored transactions (sidecar/enoki.ts)

    [callEnoki] with its deadline and retries, the sponsor/sign/execute
    round, direct signing and the fallback policy, as functions on a clock
    and a trace of effects.  The outside world (HTTP responses, transaction
    building, signatures, the Sui client) answers as a function of the trace
    so far, so a later call may be answered differently. *)
From Stdlib Require Import Ascii.
From S2P Require Import Prelude JsText JsNumber JsonParse Retry.
Local Open Scope Z_scope.

(** ** Effects *)
Inductive event : Type :=
| EConstruct                                   (** [buildTransaction()] *)
| EGasMode                                     (** address-balance intents and gas *)
| EBuild (onlyTransactionKind : bool)
| EFetch (path : string) (payload : json)      (** POST to the Enoki API *)
| ESleep (ms : Z)
| ESign (bytes : string)
| EStarted                                     (** [onSubmissionStarted()] *)
| EExecute (transaction signature : string).   (** [client.executeTransaction] *)

Inductive fetch_result : Type :=
| Transport (e : js_error)
| Response (status : Z) (retryAfter : option string) (text : string).

Record world : Type := World {
  w_construct : list event → option js_error;
  w_build : list event → js_error + string;
  w_fetch : list event → Z * fetch_result;     (** duration and outcome *)
  w_sign : list event → js_error + string;
  w_execute : list event → js_error + json;
}.

(** [sidecarMetrics] *)
Record metrics : Type := Metrics {
  walletSubmittedTotal : Z;
  walletLockErrorsTotal : Z;
  walletObjectLockEquivocationTotal : Z;
  walletPermanentFailuresTotal : Z;
}.

Record state : Type := State { trace : list event; clock : Z; sidecarMetrics : metrics }.
Definition emit (e : event) (s : state) : state :=
  State (trace s ++ [e]) (clock s) (sidecarMetrics s).
Definition set_clock (t : Z) (s : state) : state := State (trace s) t (sidecarMetrics s).
Definition set_metrics (m : metrics) (s : state) : state := State (trace s) (clock s) m.

(** A throw of the program, or the model running out of fuel. *)
Inductive failure : Type := Thrown (e : js_error) | OutOfFuel.
Definition M : Type → Type := ST state failure.

Definition throw_js {A} (e : js_error) : M A := throw (Thrown e).
(** Record an effect and take the world's answer. *)
Definition ask {A} (ev : event) (answer : list event → js_error + A) : M A := λ s,
  let s' := emit ev s in
  match answer (trace s') with inl e => (s', inl (Thrown e)) | inr a => (s', inr a) end.

(** ** Text helpers *)
Definition upper_hex (n : N) : ascii := ascii_of_N (if (n <? 10)%N then 48 + n else 55 + n)%N.
Definition is_unreserved (c : ascii) : bool :=
  is_word c || existsb (λ n, is_char n c) [45; 46; 33; 126; 42; 39; 40; 41]%N.
(** [encodeURIComponent] *)
Definition encodeURIComponent (s : string) : string :=
  of_chars (flat_map (λ c, if is_unreserved c then [c]
    else flat_map (λ b, ["%"%char; upper_hex (code b / 16); upper_hex (code b mod 16)]%N) (utf8_char c))
    (chars s)).
Definition type_error : js_error := plain_error "TypeError".
Definition syntax_error : js_error := plain_error "SyntaxError".

(** [redactEnokiPath]: the sponsored digest does not reach the logs. *)
Fixpoint redact_at (l : list ascii) : option (list ascii) :=
  let p := chars "/transaction-blocks/sponsor/" in
  if prefix_of p l then
    match drop (length p) l with
    | c :: r => if is_char 47 c || is_char 63 c then None
                else Some (p ++ chars "<digest>" ++
                           drop_while (λ c, negb (is_char 47 c || is_char 63 c)) r)
    | [] => None
    end
  else None.
Fixpoint redact_search (l : list ascii) : list ascii :=
  match redact_at l with
  | Some l' => l'
  | None => match l with [] => [] | c :: l' => c :: redact_search l' end
  end.
Definition redactEnokiPath (path : string) : string := of_chars (redact_search (chars path)).

Definition isMoveAbortBalanceSplit (message : string) : bool :=
  re_test_i (rlit "moveabort") message &&
  re_test_i (ralt [rseq [rlit "balance"; any_star; rlit "split"];
                   rseq [rlit "split"; any_star; rlit "balance"]]) message.
Definition isMoveAbortWalDestroyZero (message : string) : bool :=
  re_test_i (rlit "moveabort") message && re_test_i (rlit "destroy_zero") message.

(** [extractTransactionDigest] *)
Definition extractTransactionDigest (result : json) : js_error + string :=
  match jget "digest" result with
  | JStr d => inr d
  | _ =>
      match coalesce (jget "digest" (jget "Transaction" result))
                     (jget "digest" (jget "FailedTransaction" result)) with
      | JStr d => inr d
      | _ => inl (plain_error "signAndExecuteTransaction: could not resolve digest from result")
      end
  end.

Definition ENOKI_REQUEST_TIMEOUT_MS : Z := 60000.
Definition SPONSOR_PATH : string := "/transaction-blocks/sponsor".
Definition EXECUTE_PREFIX : string := "/transaction-blocks/sponsor/".

Section Enoki.
Context (w : world) (date_parse : string → option Z).
(** [ENOKI_API_KEY] and the [ENOKI_TRANSIENT_*] limits *)
Context (ENOKI_API_KEY : option string) (MAX_ATTEMPTS : nat) (BASE_DELAY MAX_DELAY : Z).
(** [ENOKI_NETWORK]; the reasons [AbortSignal.timeout] and an aborted sleep throw. *)
Context (ENOKI_NETWORK : string) (timeout_reason abort_error : js_error).

Definition api_key_missing : bool :=
  match ENOKI_API_KEY with Some k => is_empty k | None => true end.

(** One [fetch] under the signal that fires at [deadline]. *)
Definition fetch (deadline : Z) (path : string) (payload : json) : M (option fetch_result) := λ s,
  let s1 := emit (EFetch path payload) s in
  let '(d, r) := w_fetch w (trace s1) in
  if deadline <=? clock s1 + d then (set_clock (Z.max (clock s1) deadline) s1, inr None)
  else (set_clock (clock s1 + d) s1, inr (Some r)).

(** [sleepWithSignal(ms, undefined, { signal })] *)
Definition sleepWithSignal (deadline ms : Z) : M unit := λ s,
  let s1 := emit (ESleep ms) s in
  if deadline <=? clock s1 + ms then (set_clock (Z.max (clock s1) deadline) s1, inl (Thrown abort_error))
  else (set_clock (clock s1 + ms) s1, inr tt).

Definition retry_input (attempt : nat) (status : option Z) (retryAfter : option string)
    (body : option string) (transportError : bool) : EnokiRetryInput :=
  RetryInput (Z.of_nat attempt) (Z.of_nat MAX_ATTEMPTS) BASE_DELAY MAX_DELAY status body retryAfter
    transportError.

Definition api_error (status : Z) (text : string) : js_error :=
  status_error status ("Enoki API error (" +:+ pretty status +:+ "): " +:+ text).

(** The [for (let attempt = 1; ; attempt += 1)] loop. *)
Fixpoint enoki_loop (fuel : nat) (deadline : Z) (attempt : nat) (path : string) (payload : json) : M json :=
  match fuel with
  | O => throw OutOfFuel
  | S fuel' =>
      r ← fetch deadline path payload;
      match r with
      | None => throw_js timeout_reason
      | Some (Transport err) =>
          now ← gets clock;
          match getEnokiRetryDelayMs date_parse now (retry_input attempt None None None true) with
          | None => throw_js err
          | Some ms => _ ← sleepWithSignal deadline ms;
                       enoki_loop fuel' deadline (S attempt) path payload
          end
      | Some (Response status retryAfter text) =>
          if (200 <=? status) && (status <=? 299) then
            match json_parse text with
            | None => throw_js syntax_error
            | Some JNull => throw_js type_error
            | Some v => mret (jget "data" v)
            end
          else
            now ← gets clock;
            match getEnokiRetryDelayMs date_parse now
                    (retry_input attempt (Some status) retryAfter (Some text) false) with
            | Some ms => _ ← sleepWithSignal deadline ms;
                         enoki_loop fuel' deadline (S attempt) path payload
            | None => throw_js (api_error status text)
            end
      end
  end.

Definition callEnoki (path : string) (payload : json) : M json :=
  if api_key_missing then throw_js (plain_error "ENOKI_API_KEY is not configured")
  else
    now ← gets clock;
    enoki_loop MAX_ATTEMPTS (now + ENOKI_REQUEST_TIMEOUT_MS) 1 path payload.

(** [sender]: the signer's address; [base64]: [Buffer.from(b).toString("base64")]. *)
Context (sender : string) (base64 : string → string) (from_base64 : string → string).

Definition sponsor_payload (txKindBytes : string) (allowedAddresses : list string) : json :=
  JObj ([("network", JStr ENOKI_NETWORK); ("transactionBlockKindBytes", JStr (base64 txKindBytes));
         ("sender", JStr sender)] ++
        match allowedAddresses with
        | [] => []
        | l => [("allowedAddresses", JArr (map JStr l))]
        end).

Definition execute_path (digest : json) : string := EXECUTE_PREFIX +:+ encodeURIComponent (js_string digest).

Definition executeSponsoredTransactionOnce (allowedAddresses : list string) : M json :=
  txKindBytes ← ask (EBuild true) (w_build w);
  sponsored ← callEnoki SPONSOR_PATH (sponsor_payload txKindBytes allowedAddresses);
  match jget "bytes" sponsored with
  | JStr bytes =>
      signature ← ask (ESign (from_base64 bytes)) (w_sign w);
      _ ← modify (emit EStarted);
      executed ← callEnoki (execute_path (jget "digest" sponsored))
                   (JObj [("digest", jget "digest" sponsored); ("signature", JStr signature)]);
      match executed with
      | JUndefined | JNull => throw_js type_error
      | _ => mret (jget "digest" executed)
      end
  | _ => throw_js type_error
  end.

Definition executeDirectSignedTransaction : M json :=
  transaction ← ask (EBuild false) (w_build w);
  signature ← ask (ESign transaction) (w_sign w);
  _ ← modify (emit EStarted);
  result ← ask (EExecute transaction signature) (w_execute w);
  match extractTransactionDigest result with
  | inl e => throw_js e
  | inr d => mret (JStr d)
  end.

Record EnokiFallbackPolicy : Type := Policy {
  directSignIfUnconfigured : bool;
  directSignAfterSponsorFailure : bool;
  addressBalance : bool;     (** [gasMode === "addressBalance"] *)
}.

(** [errorMessage(err)] of a caught value; running out of fuel is not caught. *)
Definition catch_js {A} (m : M A) (h : js_error → M A) : M A :=
  try_catch m (λ f, match f with Thrown e => h e | OutOfFuel => throw OutOfFuel end).

Definition sponsor_failed (policy : EnokiFallbackPolicy) (err : js_error) : M json :=
  if negb (directSignAfterSponsorFailure policy) then throw_js err else executeDirectSignedTransaction.

Definition executeWithEnokiSponsor (allowedAddresses : list string) (policy : EnokiFallbackPolicy) : M json :=
  _ ← (if addressBalance policy then modify (emit EGasMode) else mret tt);
  if api_key_missing then
    if negb (directSignIfUnconfigured policy)
    then throw_js (plain_error "ENOKI_API_KEY is not configured and direct signing is disabled")
    else executeDirectSignedTransaction
  else
    r ← try_catch (d ← executeSponsoredTransactionOnce allowedAddresses; mret (inr d))
          (λ f, match f with
                | OutOfFuel => throw OutOfFuel
                | Thrown err =>
                    if isSponsoredTransactionInvalidatedMessage (e_message err) then
                      catch_js (d ← executeSponsoredTransactionOnce allowedAddresses; mret (inr d))
                        (λ retryErr, mret (inl retryErr))
                    else mret (inl err)
                end);
    match r with
    | inr d => mret d
    | inl err => sponsor_failed policy err
    end.

(** ** wallet.ts *)
Context (INVALIDATED_MAX_ATTEMPTS : nat) (INVALIDATED_BASE_DELAY INVALIDATED_MAX_DELAY : Z).

Definition DURABLE_WALLET_FALLBACK_POLICY : EnokiFallbackPolicy := Policy true false true.
Definition ADDRESS_BALANCE_WALLET_FALLBACK_POLICY (fallback : bool) : EnokiFallbackPolicy :=
  Policy fallback fallback true.

Definition count_failure (msg : string) (m : metrics) : metrics :=
  if isWalrusObjectLockEquivocation msg then
    Metrics (walletSubmittedTotal m) (walletLockErrorsTotal m)
            (walletObjectLockEquivocationTotal m + 1) (walletPermanentFailuresTotal m)
  else if re_test_i (ralt [rlit "objectlocked"; rlit "locked at version"; rlit "object is locked"]) msg then
    Metrics (walletSubmittedTotal m) (walletLockErrorsTotal m + 1)
            (walletObjectLockEquivocationTotal m) (walletPermanentFailuresTotal m)
  else if re_test_i (ralt [rlit "moveabort"; rlit "move abort"]) msg then
    Metrics (walletSubmittedTotal m) (walletLockErrorsTotal m)
            (walletObjectLockEquivocationTotal m) (walletPermanentFailuresTotal m + 1)
  else m.
Definition count_success (m : metrics) : metrics :=
  Metrics (walletSubmittedTotal m + 1) (walletLockErrorsTotal m)
          (walletObjectLockEquivocationTotal m) (walletPermanentFailuresTotal m).

Definition trackWalletSubmission {A} (submit : M A) : M A :=
  catch_js (result ← submit;
            _ ← modify (λ s, set_metrics (count_success (sidecarMetrics s)) s);
            mret result)
    (λ err, _ ← modify (λ s, set_metrics (count_failure (error_text err) (sidecarMetrics s)) s);
            throw_js err).

Definition submitWalletTransaction (allowedAddresses : list string) (policy : EnokiFallbackPolicy) : M json :=
  trackWalletSubmission (executeWithEnokiSponsor allowedAddresses policy).

Definition getEnokiInvalidatedRetryDelayMs (attempt : nat) : option Z :=
  if (INVALIDATED_MAX_ATTEMPTS <=? attempt)%nat then None
  else Some (Z.min (INVALIDATED_BASE_DELAY * 2 ^ (Z.of_nat attempt - 1)) INVALIDATED_MAX_DELAY).

Definition sleep (ms : Z) : M unit := modify (λ s, set_clock (clock s + ms) (emit (ESleep ms) s)).

Definition construct : M unit :=
  ask EConstruct (λ tr, match w_construct w tr with Some e => inl e | None => inr tt end).

Fixpoint rebuild_loop (fuel : nat) (attempt : nat) (allowedAddresses : list string)
    (policy : EnokiFallbackPolicy) : M json :=
  match fuel with
  | O => throw OutOfFuel
  | S fuel' =>
      catch_js (_ ← construct; submitWalletTransaction allowedAddresses policy)
        (λ err,
           match classifyEnokiSponsoredTransactionInvalidation (e_message err),
                 getEnokiInvalidatedRetryDelayMs attempt with
           | Some _, Some ms => _ ← sleep ms; rebuild_loop fuel' (S attempt) allowedAddresses policy
           | _, _ => throw_js err
           end)
  end.

Definition submitRebuildableWalletTransaction (allowedAddresses : list string)
    (policy : EnokiFallbackPolicy) : M json :=
  rebuild_loop INVALIDATED_MAX_ATTEMPTS 1 allowedAddresses policy.

End Enoki.

(** [assertFinalizedTransactionSuccess] *)
Definition is_str (v : json) (s : string) : bool := match v with JStr t => seqb t s | _ => false end.
Definition is_bool (v : json) (b : bool) : bool := match v with JBool c => Bool.eqb c b | _ => false end.

Definition assertFinalizedTransactionSuccess (result : json) (label : string) : js_error + json :=
  if is_str (jget "$kind" result) "FailedTransaction" &&
     is_bool (jget "success" (jget "status" (jget "FailedTransaction" result))) false
  then inl (finalized_failure (label +:+ " was not successful"))
  else if is_str (jget "$kind" result) "Transaction" &&
          is_bool (jget "success" (jget "status" (jget "Transaction" result))) true
  then inr (jget "Transaction" result)
  else inl (plain_error (label +:+ " returned an unexpected finalization result")).
