(* ===== verification/EnokiSafety.v ===== *)
(** * Theorems about sponsored submission (sidecar/enoki.ts, sidecar/wallet.ts) *)
From S2P Require Import Prelude JsText JsNumber JsonParse Retry Enoki.
Local Open Scope Z_scope.

Definition is_fetch (e : event) : bool := match e with EFetch _ _ => true | _ => false end.
Definition fetches (l : list event) : nat := length (filter (λ e, is_fetch e = true) l).

(** An event that can make a transaction take effect: execution at the
    sponsor, or direct execution. *)
Definition is_submission (e : event) : bool :=
  match e with
  | EExecute _ _ => true
  | EFetch p _ => negb (seqb p SPONSOR_PATH)
  | _ => false
  end.

(** Every submission comes after the [onSubmissionStarted] callback. *)
Definition marked (tr : list event) : Prop :=
  ∀ pre e post, tr = pre ++ e :: post → is_submission e = true → EStarted ∈ pre.

Lemma fetches_app l l' : fetches (l ++ l') = (fetches l + fetches l')%nat.
Proof. unfold fetches. by rewrite filter_app, length_app. Qed.

Lemma fetches_cons e l : fetches (e :: l) = ((if is_fetch e then 1 else 0) + fetches l)%nat.
Proof. unfold fetches. rewrite filter_cons. by destruct (is_fetch e) eqn:E; case_decide. Qed.

Lemma marked_snoc tr e : marked tr → (is_submission e = true → EStarted ∈ tr) → marked (tr ++ [e]).
Proof.
  intros Hm He pre e' post E Hs. destruct post as [|x post _] using rev_ind.
  - apply app_inj_tail in E as [-> ->]. auto.
  - rewrite app_comm_cons, app_assoc in E. apply app_inj_tail in E as [-> _]. by eapply Hm.
Qed.

Lemma marked_nil : marked [].
Proof. intros pre e post E. by destruct pre. Qed.

(** ** Bounds of [callEnoki] *)
Section Bounds.
Context (w : world) (date_parse : string → option Z).
Context (ENOKI_API_KEY : option string) (MAX_ATTEMPTS : nat) (BASE_DELAY MAX_DELAY : Z).
Context (ENOKI_NETWORK : string) (timeout_reason abort_error : js_error).
Context (Hduration : ∀ tr, 0 <= (w_fetch w tr).1) (Hdelay : 0 <= MAX_DELAY).

Notation loop := (enoki_loop w date_parse MAX_ATTEMPTS BASE_DELAY MAX_DELAY timeout_reason abort_error).
Notation callEnoki := (callEnoki w date_parse ENOKI_API_KEY MAX_ATTEMPTS BASE_DELAY MAX_DELAY
  timeout_reason abort_error).

(** What one call adds to the trace. *)
Definition call_event (path : string) (payload : json) (e : event) : Prop :=
  e = EFetch path payload ∨ ∃ ms, e = ESleep ms ∧ 0 <= ms <= MAX_DELAY.

Definition bounded_call (n : nat) (deadline : Z) (path : string) (payload : json) (s : state)
    (out : state * (failure + json)) : Prop :=
  ∃ evs, trace out.1 = trace s ++ evs ∧ Forall (call_event path payload) evs ∧
    (fetches evs ≤ n)%nat ∧ clock s <= clock out.1 <= deadline ∧ out.2 ≠ inl OutOfFuel.

(** Sleeping and trying again, after a fetch that took the clock to [s1]. *)
Lemma bounded_retry fuel deadline attempt path payload ms s s1 :
  0 <= ms <= MAX_DELAY →
  trace s1 = trace s ++ [EFetch path payload] → clock s <= clock s1 < deadline →
  (∀ s2, clock s2 <= deadline →
     bounded_call fuel deadline path payload s2 (loop fuel deadline (S attempt) path payload s2)) →
  bounded_call (S fuel) deadline path payload s
    ((_ ← sleepWithSignal abort_error deadline ms; loop fuel deadline (S attempt) path payload) s1).
Proof.
  intros Hms Ht Hc IH. unfold mbind, st_bind, sleepWithSignal. cbn -[enoki_loop].
  destruct (deadline <=? clock s1 + ms) eqn:E; bool_to_prop.
  - exists [EFetch path payload; ESleep ms]. cbn -[fetches]. rewrite Ht, <-app_assoc.
    split_and!; [done| |rewrite !fetches_cons; simpl; unfold fetches; simpl; lia|lia|lia|done].
    constructor; [by left|]. constructor; [|constructor]. right. by exists ms.
  - set (s2 := set_clock _ _). assert (Hs2 : clock s2 = clock s1 + ms) by done.
    destruct (IH s2) as (evs & H1 & H2 & H3 & H4 & H5); [lia|].
    exists ([EFetch path payload; ESleep ms] ++ evs). rewrite H1. cbn [trace s2 set_clock emit].
    split_and!; [by rewrite Ht, <-!app_assoc| |rewrite fetches_app, !fetches_cons; simpl; unfold fetches in *; simpl; lia|lia|lia|done].
    apply Forall_app. split; [|done]. constructor; [by left|]. constructor; [|constructor].
    right. by exists ms.
Qed.

Lemma loop_bounded fuel deadline attempt path payload s :
  (attempt ≤ MAX_ATTEMPTS)%nat → (attempt + fuel = S MAX_ATTEMPTS)%nat → clock s <= deadline →
  bounded_call fuel deadline path payload s (loop fuel deadline attempt path payload s).
Proof.
  revert attempt s. induction fuel as [|fuel IH]; intros attempt s Ha Hf Hs; [lia|]. cbn [enoki_loop].
  unfold mbind at 1, st_bind at 1, fetch. pose proof (Hduration (trace (emit (EFetch path payload) s))) as Hd.
  destruct (w_fetch w _) as [d r]. cbn [fst] in Hd.
  assert (Hstop : ∀ t (out : failure + json), clock s <= t <= deadline → out ≠ inl OutOfFuel →
    bounded_call (S fuel) deadline path payload s (set_clock t (emit (EFetch path payload) s), out)).
  { intros t out Ht Ho. exists [EFetch path payload]. rewrite fetches_cons. cbn -[fetches]. split_and!; [done| |unfold fetches; simpl; lia|lia|lia|done].
    constructor; [by left|constructor]. }
  cbn [clock emit]. destruct (deadline <=? clock s + d) eqn:E; bool_to_prop.
  { cbn [throw_js throw]. apply Hstop; [lia|done]. }
  set (s1 := set_clock _ _). assert (Hs1 : clock s <= clock s1 < deadline) by (cbn; lia).
  assert (Hretry : ∀ ri ms, getEnokiRetryDelayMs date_parse (clock s1) ri = Some ms →
    ri_attempt ri = Z.of_nat attempt → ri_maxAttempts ri = Z.of_nat MAX_ATTEMPTS →
    ri_maxDelayMs ri = MAX_DELAY →
    bounded_call (S fuel) deadline path payload s
      ((_ ← sleepWithSignal abort_error deadline ms; loop fuel deadline (S attempt) path payload) s1)).
  { intros ri ms Hri E1 E2 E3. pose proof (enoki_delay_attempt _ _ _ _ Hri) as Hlt.
    apply enoki_delay_bounds in Hri; [|lia]. rewrite E3 in Hri.
    apply bounded_retry; [done..|]. intros s2 Hs2. apply IH; lia. }
  destruct r as [err|status retryAfter text].
  - unfold mbind at 1, st_bind at 1, gets. case_match eqn:Er.
    + by eapply Hretry.
    + apply Hstop; [cbn in *; lia|done].
  - destruct (_ && _).
    + destruct (json_parse text) as [[]|]; apply Hstop; cbn in *; try lia; done.
    + unfold mbind at 1, st_bind at 1, gets. case_match eqn:Er.
      * by eapply Hretry.
      * apply Hstop; [cbn in *; lia|done].
Qed.

Lemma callEnoki_out path payload s :
  (1 ≤ MAX_ATTEMPTS)%nat → bounded_call MAX_ATTEMPTS (clock s + 60000) path payload s (callEnoki path payload s).
Proof.
  intros Hm. unfold Enoki.callEnoki. destruct (api_key_missing ENOKI_API_KEY).
  - exists []. cbn. rewrite app_nil_r. split_and!; [done|constructor|unfold fetches; simpl; lia|lia|lia|done].
  - unfold mbind, st_bind, gets. apply loop_bounded; unfold ENOKI_REQUEST_TIMEOUT_MS; lia.
Qed.
(** One Enoki API call is bounded: it makes at most
    [ENOKI_TRANSIENT_MAX_ATTEMPTS] identical requests, every backoff stays
    within the configured maximum, and it returns or throws (the model's fuel
    is enough) no later than 60 seconds after it started. *)
Theorem callEnoki_bounded (path : string) (payload : json) (s : state) :
  (1 ≤ MAX_ATTEMPTS)%nat →
  let out := callEnoki path payload s in
  ∃ evs, trace out.1 = trace s ++ evs ∧
    Forall (λ e, e = EFetch path payload ∨ ∃ ms, e = ESleep ms ∧ 0 <= ms <= MAX_DELAY) evs ∧
    (fetches evs ≤ MAX_ATTEMPTS)%nat ∧ clock s <= clock out.1 <= clock s + 60000 ∧
    out.2 ≠ inl OutOfFuel.
Proof. intros Hm. by apply callEnoki_out. Qed.
End Bounds.

(** ** The submission marker, direct signing and the number of requests *)
Section Submission.
Context (w : world) (date_parse : string → option Z).
Context (ENOKI_API_KEY : option string) (MAX_ATTEMPTS : nat) (BASE_DELAY MAX_DELAY : Z).
Context (ENOKI_NETWORK : string) (timeout_reason abort_error : js_error).
Context (sender : string) (base64 from_base64 : string → string).
Context (INVALIDATED_MAX_ATTEMPTS : nat) (INVALIDATED_BASE_DELAY INVALIDATED_MAX_DELAY : Z).

Notation loop := (enoki_loop w date_parse MAX_ATTEMPTS BASE_DELAY MAX_DELAY timeout_reason abort_error).
Notation call := (callEnoki w date_parse ENOKI_API_KEY MAX_ATTEMPTS BASE_DELAY MAX_DELAY
  timeout_reason abort_error).
Notation sponsor_once := (executeSponsoredTransactionOnce w date_parse ENOKI_API_KEY MAX_ATTEMPTS BASE_DELAY
  MAX_DELAY ENOKI_NETWORK timeout_reason abort_error sender base64 from_base64).
Notation with_sponsor := (executeWithEnokiSponsor w date_parse ENOKI_API_KEY MAX_ATTEMPTS BASE_DELAY
  MAX_DELAY ENOKI_NETWORK timeout_reason abort_error sender base64 from_base64).
Notation submit := (submitWalletTransaction w date_parse ENOKI_API_KEY MAX_ATTEMPTS BASE_DELAY
  MAX_DELAY ENOKI_NETWORK timeout_reason abort_error sender base64 from_base64).
Notation rebuild := (rebuild_loop w date_parse ENOKI_API_KEY MAX_ATTEMPTS BASE_DELAY
  MAX_DELAY ENOKI_NETWORK timeout_reason abort_error sender base64 from_base64
  INVALIDATED_MAX_ATTEMPTS INVALIDATED_BASE_DELAY INVALIDATED_MAX_DELAY).
Notation submitRebuildable := (submitRebuildableWalletTransaction w date_parse ENOKI_API_KEY MAX_ATTEMPTS
  BASE_DELAY MAX_DELAY ENOKI_NETWORK timeout_reason abort_error sender base64 from_base64
  INVALIDATED_MAX_ATTEMPTS INVALIDATED_BASE_DELAY INVALIDATED_MAX_DELAY).

(** [I] is kept by recording [e], whatever the clock and the metrics. *)
Definition keeps (I : list event → Prop) (e : event) : Prop := ∀ tr, I tr → I (tr ++ [e]).
Definition on_trace (I : list event → Prop) : state → Prop := λ s, I (trace s).

Lemma ask_keeps {A} I e (f : list event → js_error + A) : keeps I e → invariant (on_trace I) (ask e f).
Proof. intros H s Hs. unfold ask. cbv zeta. destruct (f _); by apply H. Qed.

Lemma emit_keeps I e : keeps I e → invariant (on_trace I) (modify (emit e) : M unit).
Proof. intros H s Hs. by apply H. Qed.

Lemma catch_keeps {A} I (m : M A) h :
  invariant I m → (∀ e, invariant I (h e)) → invariant I (catch_js m h).
Proof. intros Hm Hh. apply invariant_catch; [done|]. intros [e|]; [done|apply invariant_throw]. Qed.

Lemma fetch_keeps I deadline path payload :
  keeps I (EFetch path payload) → invariant (on_trace I) (fetch w deadline path payload).
Proof.
  intros H s Hs. unfold fetch. destruct (w_fetch w _) as [d r].
  destruct (deadline <=? _); by apply H.
Qed.

Lemma sleep_keeps I deadline ms :
  keeps I (ESleep ms) → invariant (on_trace I) (sleepWithSignal abort_error deadline ms).
Proof. intros H s Hs. unfold sleepWithSignal. destruct (deadline <=? _); by apply H. Qed.

Lemma loop_keeps I fuel deadline attempt path payload :
  (∀ ms, keeps I (ESleep ms)) → keeps I (EFetch path payload) →
  invariant (on_trace I) (loop fuel deadline attempt path payload).
Proof.
  intros Hs Hf. revert attempt. induction fuel as [|fuel IH]; intros attempt; simpl.
  { apply invariant_throw. }
  apply invariant_bind; [by apply fetch_keeps|]. intros [[err|status ra text]|].
  - apply invariant_bind; [apply invariant_gets|]. intros now. case_match; [|apply invariant_throw].
    apply invariant_bind; [by apply sleep_keeps|]. intros _. apply IH.
  - case_match.
    + destruct (json_parse text) as [[]|]; first [apply invariant_throw|apply invariant_ret].
    + apply invariant_bind; [apply invariant_gets|]. intros now. case_match; [|apply invariant_throw].
      apply invariant_bind; [by apply sleep_keeps|]. intros _. apply IH.
  - apply invariant_throw.
Qed.

Lemma call_keeps I path payload :
  (∀ ms, keeps I (ESleep ms)) → keeps I (EFetch path payload) →
  invariant (on_trace I) (call path payload).
Proof.
  intros Hs Hf. unfold callEnoki. destruct (api_key_missing _); [apply invariant_throw|].
  apply invariant_bind; [apply invariant_gets|]. intros now. by apply loop_keeps.
Qed.

(** *** The marker, counted from the trace [t0] *)
Section Marker.
Context (t0 : list event).
Definition marked_since (tr : list event) : Prop := ∃ new, tr = t0 ++ new ∧ marked new.
Definition started_since (tr : list event) : Prop := ∃ new, tr = t0 ++ new ∧ marked new ∧ EStarted ∈ new.

Lemma marked_keeps e : is_submission e = false → keeps marked_since e.
Proof.
  intros He tr (new & -> & Hm). exists (new ++ [e]). split; [by rewrite app_assoc|].
  apply marked_snoc; [done|congruence].
Qed.

Lemma started_keeps e : keeps started_since e.
Proof.
  intros tr (new & -> & Hm & Hs). exists (new ++ [e]). rewrite app_assoc.
  split_and!; [done|by apply marked_snoc|]. apply elem_of_app. by left.
Qed.

Lemma started_emit : triple (on_trace marked_since) (modify (emit EStarted) : M unit)
  (λ _, on_trace started_since) (λ _, on_trace marked_since).
Proof.
  apply triple_modify. intros s (new & E & Hm). exists (new ++ [EStarted]). simpl. rewrite E, app_assoc.
  split_and!; [done|by apply marked_snoc|]. apply elem_of_app. right. by apply list_elem_of_singleton.
Qed.

(** After the marker everything keeps it. *)
Lemma after_start {A} (m : M A) :
  invariant (on_trace started_since) m →
  triple (on_trace started_since) m (λ _, on_trace marked_since) (λ _, on_trace marked_since).
Proof. intros H. eapply triple_conseq; [exact H|done| |]; intros ? s (new & ? & ? & _); by exists new. Qed.

Lemma sponsor_once_marked allowed : invariant (on_trace marked_since) (sponsor_once allowed).
Proof.
  unfold executeSponsoredTransactionOnce.
  apply invariant_bind; [by apply ask_keeps, marked_keeps|]. intros kind.
  apply invariant_bind; [apply call_keeps; intros; by apply marked_keeps|]. intros sponsored.
  destruct (jget "bytes" sponsored); try apply invariant_throw.
  apply invariant_bind; [by apply ask_keeps, marked_keeps|]. intros signature.
  eapply triple_bind; [apply started_emit|]. intros u. apply after_start.
  apply invariant_bind; [apply call_keeps; intros; apply started_keeps|]. intros executed.
  destruct executed; first [apply invariant_throw|apply invariant_ret].
Qed.

Lemma direct_marked : invariant (on_trace marked_since) (executeDirectSignedTransaction w).
Proof.
  unfold executeDirectSignedTransaction.
  apply invariant_bind; [by apply ask_keeps, marked_keeps|]. intros transaction.
  apply invariant_bind; [by apply ask_keeps, marked_keeps|]. intros signature.
  eapply triple_bind; [apply started_emit|]. intros u. apply after_start.
  apply invariant_bind; [apply ask_keeps, started_keeps|]. intros result.
  case_match; [apply invariant_throw|apply invariant_ret].
Qed.
End Marker.

(** [executeWithEnokiSponsor] keeps what its two ways of submitting keep. *)
Lemma with_sponsor_keeps I allowed policy :
  keeps I EGasMode → invariant (on_trace I) (sponsor_once allowed) →
  (api_key_missing ENOKI_API_KEY = true ∨ directSignAfterSponsorFailure policy = true →
   invariant (on_trace I) (executeDirectSignedTransaction w)) →
  invariant (on_trace I) (with_sponsor allowed policy).
Proof.
  intros Hg Hs Hd. unfold executeWithEnokiSponsor. apply invariant_bind.
  { destruct (addressBalance policy); [by apply emit_keeps|apply invariant_ret]. }
  intros _. destruct (api_key_missing ENOKI_API_KEY) eqn:Ek.
  { destruct (negb _); [apply invariant_throw|]. apply Hd. by left. }
  assert (Hr : invariant (on_trace I)
    (d ← sponsor_once allowed; mret (inr d) : M (js_error + json))).
  { apply invariant_bind; [done|]. intros d. apply invariant_ret. }
  apply invariant_bind.
  - apply invariant_catch; [done|]. intros [err|]; [|apply invariant_throw].
    destruct (isSponsoredTransactionInvalidatedMessage _); [|apply invariant_ret].
    apply catch_keeps; [done|]. intros retryErr. apply invariant_ret.
  - intros [err|d]; [|apply invariant_ret]. unfold sponsor_failed.
    destruct (directSignAfterSponsorFailure policy) eqn:Ep; simpl; [apply Hd; by right|apply invariant_throw].
Qed.

Lemma track_keeps {A} I (m : M A) :
  invariant (on_trace I) m → invariant (on_trace I) (trackWalletSubmission m).
Proof.
  intros Hm. apply catch_keeps.
  - apply invariant_bind; [done|]. intros a. apply invariant_bind; [by apply triple_modify|].
    intros _. apply invariant_ret.
  - intros e. apply invariant_bind; [by apply triple_modify|]. intros _. apply invariant_throw.
Qed.

Lemma rebuild_keeps I fuel attempt allowed policy :
  keeps I EConstruct → (∀ ms, keeps I (ESleep ms)) → invariant (on_trace I) (with_sponsor allowed policy) →
  invariant (on_trace I) (rebuild fuel attempt allowed policy).
Proof.
  intros Hc Hs Hw. revert attempt. induction fuel as [|fuel IH]; intros attempt; simpl.
  { apply invariant_throw. }
  apply catch_keeps.
  - apply invariant_bind; [by apply ask_keeps|]. intros _. by apply track_keeps.
  - intros err. repeat case_match; try apply invariant_throw.
    apply invariant_bind; [apply triple_modify; intros s; apply Hs|]. intros _. apply IH.
Qed.

Lemma submit_rebuildable_marked allowed policy s :
  marked_since (trace s) (trace (fst (submitRebuildable allowed policy s))).
Proof.
  assert (Hi : invariant (on_trace (marked_since (trace s))) (submitRebuildable allowed policy)).
  { apply rebuild_keeps; [by apply marked_keeps|intros; by apply marked_keeps|].
    apply with_sponsor_keeps; [by apply marked_keeps|apply sponsor_once_marked|].
    intros _. apply direct_marked. }
  assert (Hs : on_trace (marked_since (trace s)) s) by (exists []; split; [by rewrite app_nil_r|apply marked_nil]).
  specialize (Hi s Hs). by destruct (submitRebuildable allowed policy s) as [s' [e|a]].
Qed.

Lemma submit_marked allowed policy s : marked_since (trace s) (trace (fst (submit allowed policy s))).
Proof.
  assert (Hi : invariant (on_trace (marked_since (trace s))) (submit allowed policy)).
  { apply track_keeps, with_sponsor_keeps; [by apply marked_keeps|apply sponsor_once_marked|].
    intros _. apply direct_marked. }
  assert (Hs : on_trace (marked_since (trace s)) s) by (exists []; split; [by rewrite app_nil_r|apply marked_nil]).
  specialize (Hi s Hs). by destruct (submit allowed policy s) as [s' [e|a]].
Qed.

Lemma marked_unstarted new : marked new → EStarted ∉ new → ∀ e, e ∈ new → is_submission e = false.
Proof.
  intros Hm Hn e He. apply list_elem_of_split in He as (pre & post & E).
  destruct (is_submission e) eqn:Es; [|done]. exfalso. apply Hn. rewrite E. apply elem_of_app. left.
  by eapply Hm.
Qed.

(** Nothing is submitted behind the caller's back: along every path of
    a rebuildable wallet submission - sponsored, retried, rebuilt or directly
    signed, successful or not - each request that can make a transaction take
    effect comes after this call's [onSubmissionStarted], so a call during
    which the callback never ran has submitted nothing. *)
Theorem submission_is_marked (allowed : list string) (policy : EnokiFallbackPolicy) (s : state) :
  ∃ new, trace (fst (submitRebuildable allowed policy s)) = trace s ++ new ∧ marked new ∧
    (EStarted ∉ new → ∀ e, e ∈ new → is_submission e = false).
Proof.
  destruct (submit_rebuildable_marked allowed policy s) as (new & E & Hm). exists new.
  split_and!; [done|done|by apply marked_unstarted].
Qed.

(** *** The class of the errors

    If the outside throws only plain errors, so do the wallet functions. *)
Definition plain_failure (f : failure) : Prop := ∀ x, f = Thrown x → e_class x = PlainError.
Definition plainly {A} (m : M A) : Prop := triple (λ _, True) m (λ _ _, True) (λ f _, plain_failure f).

Section Plain.
Context (Hreasons : e_class timeout_reason = PlainError ∧ e_class abort_error = PlainError).
Context (Hconstruct : ∀ tr e, w_construct w tr = Some e → e_class e = PlainError).
Context (Hbuild : ∀ tr e, w_build w tr = inl e → e_class e = PlainError).
Context (Hfetch : ∀ tr d e, w_fetch w tr = (d, Transport e) → e_class e = PlainError).
Context (Hsign : ∀ tr e, w_sign w tr = inl e → e_class e = PlainError).
Context (Hexecute : ∀ tr e, w_execute w tr = inl e → e_class e = PlainError).

Lemma pl_bind {A B} (m : M A) (k : A → M B) : plainly m → (∀ a, plainly (k a)) → plainly (m ≫= k).
Proof. intros Hm Hk. by eapply triple_bind. Qed.
Lemma pl_ret {A} (a : A) : plainly (mret a).
Proof. by apply triple_ret. Qed.
Lemma pl_throw {A} e : e_class e = PlainError → plainly (throw_js e : M A).
Proof. intros He. apply triple_throw. by intros s _ x [= <-]. Qed.
Lemma pl_fuel {A} : plainly (throw OutOfFuel : M A).
Proof. by apply triple_throw. Qed.
Lemma pl_modify f : plainly (modify f).
Proof. by apply triple_modify. Qed.
Lemma pl_gets {A} (f : state → A) : plainly (gets f).
Proof. by apply triple_gets. Qed.
Lemma pl_ask {A} ev (f : list event → js_error + A) :
  (∀ tr e, f tr = inl e → e_class e = PlainError) → plainly (ask ev f).
Proof. intros Hf s _. unfold ask. destruct (f _) eqn:E; [|done]. intros x [= <-]. by eapply Hf. Qed.
Lemma pl_catch {A} (m : M A) h :
  plainly m → (∀ e, e_class e = PlainError → plainly (h e)) → plainly (catch_js m h).
Proof.
  intros Hm Hh. eapply triple_catch; [exact Hm|]. intros [e|]; simpl.
  - intros s Hp. by apply Hh; [apply Hp|].
  - apply triple_throw. by intros s Hp.
Qed.

Lemma pl_loop fuel deadline : ∀ attempt path payload, plainly (loop fuel deadline attempt path payload).
Proof.
  induction fuel as [|fuel IH]; intros attempt path payload; simpl; [apply pl_fuel|].
  set (Q := λ (r : option fetch_result) (s : state), ∀ e, r = Some (Transport e) → e_class e = PlainError).
  eapply (triple_bind _ Q).
  { intros s _. unfold fetch. destruct (w_fetch w _) as [d r] eqn:E. destruct (deadline <=? _); [by intros e|].
    intros e [= ->]. by eapply Hfetch. }
  assert (Hsl : ∀ ms, plainly (sleepWithSignal abort_error deadline ms)).
  { intros ms s _. unfold sleepWithSignal. destruct (deadline <=? _); [|done]. intros x [= <-]. apply Hreasons. }
  intros [[err|status ra text]|] s Hr.
  - refine (pl_bind _ _ (pl_gets _) _ s Logic.I). intros now. case_match; [|by apply pl_throw, Hr].
    apply pl_bind; [apply Hsl|]. intros _. apply IH.
  - destruct (_ && _).
    + destruct (json_parse text) as [[]|]; done || by intros x [= <-].
    + refine (pl_bind _ _ (pl_gets _) _ s Logic.I). intros now. case_match; [|by apply pl_throw].
      apply pl_bind; [apply Hsl|]. intros _. apply IH.
  - intros x [= <-]. apply Hreasons.
Qed.

Lemma pl_call path payload : plainly (call path payload).
Proof.
  unfold callEnoki. destruct (api_key_missing _); [by apply pl_throw|].
  apply pl_bind; [apply pl_gets|]. intros now. apply pl_loop.
Qed.

Lemma pl_sponsor_once allowed : plainly (sponsor_once allowed).
Proof.
  apply pl_bind; [by apply pl_ask|]. intros kind. apply pl_bind; [apply pl_call|]. intros sp.
  destruct (jget "bytes" sp); try by apply pl_throw. apply pl_bind; [by apply pl_ask|]. intros sg.
  apply pl_bind; [apply pl_modify|]. intros _. apply pl_bind; [apply pl_call|]. intros ex.
  destruct ex; (by apply pl_throw) || apply pl_ret.
Qed.

Lemma pl_direct : plainly (executeDirectSignedTransaction w).
Proof.
  apply pl_bind; [by apply pl_ask|]. intros tx. apply pl_bind; [by apply pl_ask|]. intros sg.
  apply pl_bind; [apply pl_modify|]. intros _. apply pl_bind; [by apply pl_ask|]. intros r.
  unfold extractTransactionDigest. repeat case_match; simplify_eq; (by apply pl_throw) || apply pl_ret.
Qed.

Lemma pl_with_sponsor allowed policy : plainly (with_sponsor allowed policy).
Proof.
  unfold executeWithEnokiSponsor. apply pl_bind; [destruct (addressBalance policy); [apply pl_modify|apply pl_ret]|].
  intros _. destruct (api_key_missing _); [destruct (negb _); [by apply pl_throw|apply pl_direct]|].
  set (Q := λ (r : js_error + json) (_ : state), ∀ e, r = inl e → e_class e = PlainError).
  assert (Hr : triple (λ _, True) (d ← sponsor_once allowed; mret (inr d) : M (js_error + json)) Q
    (λ f _, plain_failure f)).
  { eapply triple_bind; [apply pl_sponsor_once|]. intros d. apply triple_ret. by intros s _ e. }
  assert (Hl : ∀ err, e_class err = PlainError →
    triple (λ _, True) (mret (inl err) : M (js_error + json)) Q (λ f _, plain_failure f)).
  { intros err He. apply triple_ret. by intros s _ e [= <-]. }
  apply (triple_bind _ Q).
  - eapply triple_catch; [exact Hr|]. intros [err|] s Hp; [|by intros x]. specialize (Hp err eq_refl).
    destruct (isSponsoredTransactionInvalidatedMessage _); [|by apply (Hl err Hp s Logic.I)].
    refine (triple_catch _ _ _ _ _ _ Hr _ s Logic.I). intros [e2|] s2 Hp2; [|by intros x].
    apply (Hl e2); [by apply Hp2|done].
  - intros [err|d] s Hp; [|done]. specialize (Hp err eq_refl). unfold sponsor_failed.
    destruct (negb _); [exact (pl_throw (A:=json) err Hp s Logic.I)|exact (pl_direct s Logic.I)].
Qed.

Lemma pl_track {A} (m : M A) : plainly m → plainly (trackWalletSubmission m).
Proof.
  intros Hm. apply pl_catch.
  - apply pl_bind; [done|]. intros r. apply pl_bind; [apply pl_modify|]. intros _. apply pl_ret.
  - intros e He. apply pl_bind; [apply pl_modify|]. intros _. by apply pl_throw.
Qed.

Lemma pl_submit allowed policy : plainly (submit allowed policy).
Proof. apply pl_track, pl_with_sponsor. Qed.

Lemma pl_rebuild fuel : ∀ attempt allowed policy, plainly (rebuild fuel attempt allowed policy).
Proof.
  induction fuel as [|fuel IH]; intros attempt allowed policy; simpl; [apply pl_fuel|]. apply pl_catch.
  - apply pl_bind; [|intros _; apply pl_submit]. apply pl_ask. intros tr e.
    destruct (w_construct w tr) eqn:E; [|done]. intros [= <-]. by eapply Hconstruct.
  - intros err He. repeat case_match; try by apply pl_throw.
    apply pl_bind; [apply pl_modify|]. intros _. apply IH.
Qed.
End Plain.

(** *** Direct signing *)
Definition is_direct (e : event) : bool := match e with EExecute _ _ => true | _ => false end.
Definition no_direct (tr : list event) : Prop := Forall (λ e, is_direct e = false) tr.

Lemma no_direct_keeps e : is_direct e = false → keeps no_direct e.
Proof. intros He tr Htr. apply Forall_app. split; [done|by constructor]. Qed.

(** *** Counting requests *)
Definition spends {A} (n : nat) (m : M A) : Prop :=
  ∀ k, triple (λ s, (fetches (trace s) ≤ k)%nat) m (λ _ s, (fetches (trace s) ≤ k + n)%nat)
         (λ e s, (fetches (trace s) ≤ k + n)%nat ∧ e ≠ OutOfFuel).

Lemma spends_bind {A B} a b (m : M A) (f : A → M B) :
  spends a m → (∀ x, spends b (f x)) → spends (a + b) (m ≫= f).
Proof.
  intros Hm Hf k. eapply triple_bind.
  - eapply triple_conseq; [apply (Hm k)|done|intros x s Hx; exact Hx|]. intros e s [H1 H2]. split; [lia|done].
  - intros x. eapply triple_conseq; [apply (Hf x (k + a)%nat)|done| |]; simpl; [intros; lia|].
    intros e s [H1 H2]. split; [lia|done].
Qed.

Lemma spends_weaken {A} a b (m : M A) : (a ≤ b)%nat → spends a m → spends b m.
Proof.
  intros Hab Hm k. eapply triple_conseq; [apply (Hm k)|done|simpl; intros; lia|].
  intros e s [H1 H2]. split; [lia|done].
Qed.

Lemma spends_ret {A} (a : A) : spends 0 (mret a).
Proof. intros k. apply triple_ret. intros. lia. Qed.
Lemma spends_throw {A} e : spends 0 (throw_js e : M A).
Proof. intros k. apply triple_throw. intros. split; [lia|done]. Qed.
Lemma spends_ask {A} e (f : list event → js_error + A) : is_fetch e = false → spends 0 (ask e f).
Proof.
  intros He k s Hs. unfold ask. cbv zeta.
  assert (Hc : (fetches (trace (emit e s)) ≤ k + 0)%nat).
  { simpl. rewrite fetches_app, fetches_cons, He. unfold fetches in *. simpl. lia. }
  destruct (f _); auto.
Qed.
Lemma spends_emit e : is_fetch e = false → spends 0 (modify (emit e)).
Proof.
  intros He k s Hs. simpl. rewrite fetches_app, fetches_cons, He. unfold fetches in *. simpl. lia.
Qed.

Lemma spends_catch {A} a b (m : M A) (h : js_error → M A) :
  spends a m → (∀ e, spends b (h e)) → spends (a + b) (catch_js m h).
Proof.
  intros Hm Hh k. eapply triple_catch.
  - eapply triple_conseq; [apply (Hm k)|done|simpl; intros; lia|]. intros e s H. exact H.
  - intros [e|]; simpl; [|by intros s []].
    eapply triple_conseq; [apply (Hh e (k + a)%nat)|by intros s []| |]; simpl; [intros; lia|].
    intros e' s [H1 H2]. split; [lia|done].
Qed.

Context (Hduration : ∀ tr, 0 <= (w_fetch w tr).1) (Hdelay : 0 <= MAX_DELAY) (Hattempts : (1 ≤ MAX_ATTEMPTS)%nat).

Lemma spends_call path payload : spends MAX_ATTEMPTS (call path payload).
Proof.
  intros k s Hs. destruct (callEnoki_out w date_parse ENOKI_API_KEY MAX_ATTEMPTS BASE_DELAY MAX_DELAY
    timeout_reason abort_error Hduration Hdelay path payload s Hattempts) as (evs & H1 & _ & H2 & _ & H3).
  destruct (call path payload s) as [s' [e|a]]; simpl in *; rewrite H1, fetches_app; [split; [lia|congruence]|lia].
Qed.

Lemma spends_sponsor_once allowed : spends (2 * MAX_ATTEMPTS) (sponsor_once allowed).
Proof.
  unfold executeSponsoredTransactionOnce. eapply (spends_weaken (0 + (MAX_ATTEMPTS + (0 + (0 + (MAX_ATTEMPTS + 0)))))).
  { lia. }
  apply spends_bind; [by apply spends_ask|]. intros kind. apply spends_bind; [apply spends_call|]. intros sp.
  destruct (jget "bytes" sp);
    try (eapply (spends_weaken 0); [lia|apply spends_throw]).
  apply spends_bind; [by apply spends_ask|]. intros sg. apply spends_bind; [by apply spends_emit|]. intros _.
  apply spends_bind; [apply spends_call|]. intros ex. destruct ex; first [apply spends_throw|apply spends_ret].
Qed.

Lemma spends_direct : spends 0 (executeDirectSignedTransaction w).
Proof.
  unfold executeDirectSignedTransaction. apply (spends_bind 0 0); [by apply spends_ask|]. intros tx.
  apply (spends_bind 0 0); [by apply spends_ask|]. intros sg.
  apply (spends_bind 0 0); [by apply spends_emit|]. intros _.
  apply (spends_bind 0 0); [by apply spends_ask|]. intros r. case_match; [apply spends_throw|apply spends_ret].
Qed.

Lemma spends_with_sponsor allowed policy : spends (4 * MAX_ATTEMPTS) (with_sponsor allowed policy).
Proof.
  unfold executeWithEnokiSponsor. apply (spends_bind 0 (4 * MAX_ATTEMPTS)).
  { destruct (addressBalance policy); [by apply spends_emit|apply spends_ret]. }
  intros _. destruct (api_key_missing _).
  { eapply (spends_weaken 0); [lia|]. destruct (negb _); [apply spends_throw|apply spends_direct]. }
  assert (Hr : spends (2 * MAX_ATTEMPTS) (d ← sponsor_once allowed; mret (inr d) : M (js_error + json))).
  { apply (spends_weaken (2 * MAX_ATTEMPTS + 0)); [lia|].
    apply spends_bind; [apply spends_sponsor_once|intros d; apply spends_ret]. }
  apply (spends_weaken ((2 * MAX_ATTEMPTS + 2 * MAX_ATTEMPTS) + 0)); [lia|]. apply spends_bind.
  - apply spends_catch; [done|]. intros err.
    destruct (isSponsoredTransactionInvalidatedMessage _);
      [|eapply (spends_weaken 0); [lia|apply spends_ret]].
    apply (spends_weaken (2 * MAX_ATTEMPTS + 0)); [lia|].
    apply spends_catch; [exact Hr|intros e; apply spends_ret].
  - intros [err|d]; [|apply spends_ret]. unfold sponsor_failed.
    destruct (negb _); [apply spends_throw|apply spends_direct].
Qed.

Lemma spends_submit allowed policy : spends (4 * MAX_ATTEMPTS) (submit allowed policy).
Proof.
  apply (spends_weaken ((4 * MAX_ATTEMPTS + 0) + 0)); [lia|]. apply spends_catch.
  - apply spends_bind; [apply spends_with_sponsor|]. intros r.
    apply (spends_bind 0 0); [intros k; apply triple_modify; simpl; intros; lia|].
    intros _. apply spends_ret.
  - intros e. apply (spends_bind 0 0); [intros k; apply triple_modify; simpl; intros; lia|].
    intros _. apply spends_throw.
Qed.

Lemma spends_total {A} n (m : M A) s : spends n m → snd (m s) ≠ inl OutOfFuel.
Proof.
  intros Hm. specialize (Hm _ s (Nat.le_refl _)). destruct (m s) as [s' [e|a]]; simpl; [|done].
  destruct Hm. congruence.
Qed.

Lemma spends_rebuild fuel attempt allowed policy :
  (1 ≤ fuel)%nat → (attempt + fuel = S INVALIDATED_MAX_ATTEMPTS)%nat →
  spends (4 * MAX_ATTEMPTS * fuel) (rebuild fuel attempt allowed policy).
Proof.
  revert attempt. induction fuel as [|fuel IH]; intros attempt Hf Ha; [lia|]. simpl.
  eapply (spends_weaken (4 * MAX_ATTEMPTS + 4 * MAX_ATTEMPTS * fuel)); [lia|].
  apply spends_catch.
  - apply (spends_bind 0 (4 * MAX_ATTEMPTS)); [by apply spends_ask|]. intros _.
    apply spends_submit.
  - intros err.
    assert (Hthrow : spends (4 * MAX_ATTEMPTS * fuel) (throw_js err : M json)).
    { eapply (spends_weaken 0); [lia|apply spends_throw]. }
    unfold getEnokiInvalidatedRetryDelayMs. destruct (_ <=? attempt)%nat eqn:E; [by repeat case_match|].
    apply Nat.leb_gt in E. case_match; [|done].
    apply (spends_bind 0); [|intros _; apply IH; lia]. intros k s Hs. simpl.
    rewrite fetches_app, fetches_cons. unfold fetches in *. simpl. lia.
Qed.

(** C35: the durable policy holds: with an API key configured and no direct
    signing after a sponsor failure, no path of a rebuildable submission signs
    and executes directly; and whatever the failures, the submission ends
    (the model's fuel is enough) after at most four API calls per rebuild,
    each of at most [ENOKI_TRANSIENT_MAX_ATTEMPTS] requests. *)
Theorem durable_submission_bounded (allowed : list string) (policy : EnokiFallbackPolicy) (s : state) :
  api_key_missing ENOKI_API_KEY = false → directSignAfterSponsorFailure policy = false →
  (1 ≤ INVALIDATED_MAX_ATTEMPTS)%nat → no_direct (trace s) →
  let out := submitRebuildable allowed policy s in
  no_direct (trace out.1) ∧ out.2 ≠ inl OutOfFuel ∧
  (fetches (trace out.1) ≤ fetches (trace s) + 4 * MAX_ATTEMPTS * INVALIDATED_MAX_ATTEMPTS)%nat.
Proof.
  intros Hk Hp Hi Hs. cbv zeta.
  assert (Hnd : invariant (on_trace no_direct) (submitRebuildable allowed policy)).
  { apply rebuild_keeps; [by apply no_direct_keeps|intros; by apply no_direct_keeps|].
    apply with_sponsor_keeps; [by apply no_direct_keeps| |intros []; congruence].
    unfold executeSponsoredTransactionOnce.
    apply invariant_bind; [by apply ask_keeps, no_direct_keeps|]. intros kind.
    apply invariant_bind; [apply call_keeps; intros; by apply no_direct_keeps|]. intros sp.
    destruct (jget "bytes" sp); try apply invariant_throw.
    apply invariant_bind; [by apply ask_keeps, no_direct_keeps|]. intros sg.
    apply invariant_bind; [by apply emit_keeps, no_direct_keeps|]. intros _.
    apply invariant_bind; [apply call_keeps; intros; by apply no_direct_keeps|]. intros ex.
    destruct ex; first [apply invariant_throw|apply invariant_ret]. }
  pose proof (spends_rebuild INVALIDATED_MAX_ATTEMPTS 1 allowed policy Hi eq_refl
    (fetches (trace s)) s (le_n _)) as Hsp.
  specialize (Hnd s Hs). unfold submitRebuildableWalletTransaction in *.
  destruct (rebuild INVALIDATED_MAX_ATTEMPTS 1 allowed policy s) as [s' [e|a]]; simpl in *.
  - destruct Hsp. split_and!; [done|congruence|lia].
  - split_and!; [done|done|lia].
Qed.
End Submission.

(** ** A run

    The first execution request is lost in transport, its retry is answered
    "not found", and the round is started again with a new digest. *)
Definition ex_fetch (tr : list event) : Z * fetch_result :=
  (100, match fetches tr with
        | 1 => Response 200 None (q2 "{'data':{'bytes':'YQ==','digest':'d1'}}")
        | 2 => Transport (plain_error "fetch failed")
        | 3 => Response 404 None "Sponsored transaction not found"
        | 4 => Response 200 None (q2 "{'data':{'bytes':'YQ==','digest':'d2'}}")
        | _ => Response 200 None (q2 "{'data':{'digest':'d2'}}")
        end%nat).
Definition ex_world : world :=
  World (λ _, None) (λ _, inr "kind") ex_fetch (λ _, inr "signature") (λ _, inr JUndefined).
Definition ex_state : state := State [] 0 (Metrics 0 0 0 0).
Definition ex_date (_ : string) : option Z := None.
Definition ex_error : js_error := plain_error "The operation was aborted due to timeout".
Definition ex_submit : M json :=
  submitRebuildableWalletTransaction ex_world ex_date (Some "key") 2 5000 30000 "testnet" ex_error ex_error
    "0xa" (λ s, s) (λ s, s) 4 1000 8000 [] DURABLE_WALLET_FALLBACK_POLICY.

Lemma ex_fetch_duration tr : 0 <= (w_fetch ex_world tr).1.
Proof. simpl. lia. Defined.

(** Under the durable policy one submission can execute two sponsored
    transactions, the second after an ambiguous answer about the first. *)
Lemma durable_second_transaction :
  let out := ex_submit ex_state in
  out.2 = inr (JStr "d2") ∧
  filter (λ e, is_submission e = true) (trace out.1) =
    [EFetch "/transaction-blocks/sponsor/d1" (JObj [("digest", JStr "d1"); ("signature", JStr "signature")]);
     EFetch "/transaction-blocks/sponsor/d1" (JObj [("digest", JStr "d1"); ("signature", JStr "signature")]);
     EFetch "/transaction-blocks/sponsor/d2" (JObj [("digest", JStr "d2"); ("signature", JStr "signature")])].
Proof. vm_compute. done. Qed.

Lemma callEnoki_bounded_witness :
  let out := callEnoki ex_world ex_date (Some "key") 2 5000 30000 ex_error ex_error SPONSOR_PATH JNull ex_state in
  out.2 = inr (JObj [("bytes", JStr "YQ=="); ("digest", JStr "d1")]) ∧ clock out.1 <= 60000.
Proof.
  cbv zeta. split; [vm_compute; reflexivity|].
  destruct (callEnoki_bounded ex_world ex_date (Some "key") 2 5000 30000 ex_error ex_error
    ex_fetch_duration ltac:(lia) SPONSOR_PATH JNull ex_state ltac:(lia)) as (_ & _ & _ & _ & H & _).
  exact (proj2 H).
Defined.

Lemma submission_is_marked_witness :
  (∃ new, trace (fst (ex_submit ex_state)) = new ∧ marked new) ∧
  fetches (trace (fst (ex_submit ex_state))) = 5%nat.
Proof.
  split; [|vm_compute; reflexivity].
  destruct (submission_is_marked ex_world ex_date (Some "key") 2 5000 30000 "testnet" ex_error ex_error
    "0xa" (λ s, s) (λ s, s) 4 1000 8000 [] DURABLE_WALLET_FALLBACK_POLICY ex_state) as (new & E & Hm & _).
  exists new. split; [exact E|exact Hm].
Defined.

Lemma durable_submission_bounded_witness :
  no_direct (trace (fst (ex_submit ex_state))) ∧ (fetches (trace (fst (ex_submit ex_state))) ≤ 32)%nat.
Proof.
  destruct (durable_submission_bounded ex_world ex_date (Some "key") 2 5000 30000 "testnet" ex_error ex_error
    "0xa" (λ s, s) (λ s, s) 4 1000 8000 ex_fetch_duration ltac:(lia) ltac:(lia) []
    DURABLE_WALLET_FALLBACK_POLICY ex_state eq_refl eq_refl ltac:(lia) (Forall_nil_2 _)) as (H1 & _ & H2).
  split; [exact H1|]. exact H2.
Defined.
