(* ===== verification/SdkText.v ===== *)
(** * SDK text helpers (sdk/src/utils.ts)

    [normalizeServerUrl], [sanitizeServerError] and [scoringWeightsToWire]. *)
From Stdlib Require Import Ascii QArith.
From S2P Require Import Prelude JsText JsNumber JsonParse.
Local Open Scope nat_scope.

(** [url.replace(/\/$/, "")]; the warning on plain HTTP has no other effect. *)
Definition normalizeServerUrl (url : string) : string :=
  match rev (chars url) with
  | c :: r => if is_char 47 c then of_chars (rev r) else url
  | [] => url
  end.

Record ScoringWeights : Type := Weights {
  semantic : option Q;
  recency : option Q;
  recencyHalfLifeDays : option Q;
  importance : option Q;
}.
Definition json_of_num (o : option Q) : json := match o with Some q => JNum q | None => JUndefined end.
Definition scoringWeightsToWire (weights : option ScoringWeights) : json :=
  match weights with
  | None => JUndefined
  | Some w => JObj [("semantic", json_of_num (semantic w)); ("recency", json_of_num (recency w));
                    ("recency_half_life_days", json_of_num (recencyHalfLifeDays w));
                    ("importance", json_of_num (importance w))]
  end.

(** ASCII control characters, as in the source's pattern. *)
Definition is_control (c : ascii) : bool := in_range 0 31 c || is_char 127 c.
Definition strip_controls (s : string) : string :=
  smap (λ c, if is_control c then ascii_of_N 32 else c) s.

Record sanitized : Type := Sanitized { s_message : string; s_raw : string; s_serverCode : option string }.

Definition MAX_ERROR : nat := 200.
Definition MESSAGE_401 : string :=
  "401 from relayer: typically wrong private key, key not registered on this account, " +:+
  "account ID mismatch, or staging/mainnet mismatch. Check .env.local and dashboard credentials. " +:+
  "Full troubleshooting: https://docs.wal.app/walrus-memory/troubleshooting/overview#401-auth_rejected-errors".

(** The code and text fields of a JSON error body. *)
Definition error_fields (rawBody : string) : option string * string :=
  match json_parse rawBody with
  | Some (JObj _ as v) | Some (JArr _ as v) =>
      (match jget "code" v with
       | JStr c => Some c
       | _ => match jget "error" v with JStr c => Some c | _ => None end
       end,
       match jget "message" v with JStr m => m | _ => rawBody end)
  | _ => (None, rawBody)
  end.

Definition truncate (s : string) : string :=
  if MAX_ERROR <? slen s then take_s MAX_ERROR s +:+ "..." else s.

Definition sanitizeServerError (status : Z) (rawBody : string) : sanitized :=
  if (status =? 401)%Z then Sanitized MESSAGE_401 rawBody (Some "AUTH_REJECTED")
  else
    let '(serverCode, text) := error_fields rawBody in
    let truncated := truncate (trim (strip_controls text)) in
    Sanitized ("Walrus Memory server error (" +:+ pretty status +:+ "): " +:+
               (if is_empty truncated then "<no message>" else truncated)) rawBody serverCode.

(** ** Lemmas *)
Definition printable (s : string) : Prop := sforallb (λ c, negb (is_control c)) s = true.

Lemma printable_app a b : printable (a +:+ b) ↔ printable a ∧ printable b.
Proof. unfold printable, sforallb. by rewrite chars_app, forallb_app, andb_true_iff. Qed.

Lemma printable_of l : Forall (λ c, is_control c = false) l ↔ printable (of_chars l).
Proof.
  unfold printable, sforallb. rewrite chars_of_chars, forallb_forall, Forall_forall.
  setoid_rewrite <-list_elem_of_In. split; intros H c Hc; specialize (H c Hc).
  - by rewrite H.
  - by apply negb_true_iff in H.
Qed.

Lemma strip_controls_printable s : Forall (λ c, is_control c = false) (chars (strip_controls s)).
Proof.
  unfold strip_controls, smap. rewrite chars_of_chars. apply Forall_map, Forall_forall.
  intros c _. simpl. by destruct (is_control c) eqn:E.
Qed.

Lemma drop_while_suffix p l : ∃ k, l = k ++ drop_while p l.
Proof.
  induction l as [|c l [k IH]]; simpl; [by exists []|]. destruct (p c); [|by exists []].
  exists (c :: k). simpl. by f_equal.
Qed.

Lemma Forall_drop_while P p (l : list ascii) : Forall P l → Forall P (drop_while p l).
Proof. destruct (drop_while_suffix p l) as [k E]. rewrite E at 1. by intros [_ H]%Forall_app. Qed.

Lemma Forall_trim_chars P l : Forall P l → Forall P (trim_chars l).
Proof. intros H. unfold trim_chars. by apply Forall_rev, Forall_drop_while, Forall_rev, Forall_drop_while. Qed.

Lemma trim_printable s : Forall (λ c, is_control c = false) (chars s) → printable (trim s).
Proof. intros H. unfold trim. apply printable_of. by apply Forall_trim_chars. Qed.

Lemma truncate_printable s : printable s → printable (truncate s).
Proof.
  intros H. unfold truncate. case_match; [|done]. apply printable_app. split; [|done].
  unfold take_s. apply printable_of. apply Forall_take.
  rewrite <-(of_chars_chars s) in H. by apply printable_of in H.
Qed.

Lemma truncate_length s : slen (truncate s) ≤ MAX_ERROR + 3.
Proof.
  unfold truncate. destruct (MAX_ERROR <? slen s) eqn:E.
  - rewrite slen_app. unfold take_s. rewrite slen_of_chars, length_take. change (slen "...") with 3. lia.
  - apply Nat.ltb_ge in E. lia.
Qed.

Lemma numeral_printable c : is_numeral c = true → is_control c = false.
Proof. by destruct c as [[] [] [] [] [] [] [] []]. Qed.
Lemma pretty_Z_printable (z : Z) : printable (pretty z).
Proof.
  pose proof (pretty_numeral z) as H. unfold printable, sforallb in *. rewrite forallb_forall in *.
  intros c Hc. by rewrite numeral_printable by auto.
Qed.

(** An error surfaced to the caller is safe to log: whatever the relayer
    answered, the message has no control character, carries at most 200
    characters of the relayer's text (203 with the ellipsis), and the raw body
    is kept only in the separate field. *)
Theorem sanitized_error_safe (status : Z) (rawBody : string) :
  let s := sanitizeServerError status rawBody in
  printable (s_message s) ∧ s_raw s = rawBody ∧
  (status ≠ 401%Z → ∃ text, slen text ≤ 203 ∧
     s_message s = "Walrus Memory server error (" +:+ pretty status +:+ "): " +:+ text) ∧
  (status = 401%Z → s_message s = MESSAGE_401 ∧ s_serverCode s = Some "AUTH_REJECTED").
Proof.
  cbv zeta. unfold sanitizeServerError. destruct (status =? 401)%Z eqn:E.
  - apply Z.eqb_eq in E. subst. split_and!; [by vm_compute|done|done|done].
  - apply Z.eqb_neq in E. destruct (error_fields rawBody) as [code text]. simpl.
    split_and!; [|done| |done].
    + rewrite !printable_app. split_and!; [done|apply pretty_Z_printable|done|].
      case_match; [done|]. apply truncate_printable, trim_printable, strip_controls_printable.
    + intros _. eexists. split; [|done]. case_match; [simpl; lia|].
      pose proof (truncate_length (trim (strip_controls text))). unfold MAX_ERROR in *. lia.
Qed.

Example sanitize_json_body :
  sanitizeServerError 500 (q2 "{'error':'db_down','message':'a\tb'}") =
  Sanitized "Walrus Memory server error (500): a b" (q2 "{'error':'db_down','message':'a\tb'}")
    (Some "db_down").
Proof. vm_compute. reflexivity. Qed.
