(* ===== verification/SdkClient.v ===== *)
(** * The SDK client (sdk/src/memwal.ts)

    [MemWal]: its private state, the compatibility probe, the server
    configuration, the SEAL session, the signed request and the methods
    built on it, as functions on the client's state, a clock and the trace of
    what leaves the process.  The server, [crypto.randomUUID],
    [Math.random], timers and the SEAL and Sui packages answer as functions
    of the trace so far. *)
From Stdlib Require Import QArith Qround Ascii.
From S2P Require Import Prelude JsText JsNumber JsonParse Hex Compat SdkText.
Local Open Scope Z_scope.

(** ** The outside *)
Record http_request : Type := Http {
  h_url : string;
  h_method : string;
  h_headers : list (string * string);
  h_body : option string;
}.

Inductive event : Type :=
| EHttp (r : http_request)
| ESleep (ms : Z)
| EUuid
| ERandom
| ESealClient (name : string)   (** [SessionKey.create] over this Sui client *)
| ESealExport.                  (** signing and exporting the session *)

(** What the client reads of a thrown value. *)
Record sdk_error : Type := SdkError {
  se_message : string;
  se_status : option Z;
  se_serverCode : option string;
  se_cause : option string;
}.
Definition plain (message : string) : sdk_error := SdkError message None None None.
Definition with_status (message : string) (status : Z) : sdk_error :=
  SdkError message (Some status) None None.
Definition type_error : sdk_error := plain "TypeError".
Definition syntax_error : sdk_error := plain "SyntaxError".
Definition abort_error : sdk_error := plain "AbortError".

Record world : Type := World {
  wd_http : list event → Z * (sdk_error + (Z * string));  (** duration, status and text *)
  wd_uuid : list event → string;
  wd_random : list event → Q;
  wd_lag : list event → Z;                                (** timer overshoot *)
  wd_has_grpc : bool;                                     (** [SuiGrpcClient] is available *)
  wd_has_jsonrpc : bool;                                  (** a JSON-RPC [SuiClient] is available *)
  wd_has_keypair : bool;
  wd_seal_create : list event → option sdk_error;
  wd_seal_export : list event → sdk_error + string;       (** base64 of the exported session *)
}.

(** ** The client *)
Record SessionCacheEntry : Type := SessionEntry { sc_bytes : string; sc_expiresAt : Z }.

Record ServerConfig : Type := ServerCfg {
  packageId : string;
  network : string;
  suiRpcUrl : option string;
  suiGrpcUrl : option string;
  grpc : bool;                 (** [suiTransport === "grpc"] *)
}.

Record client : Type := Client {
  privateKey : list ascii;
  publicKey : option (list ascii);
  sessionCache : option SessionCacheEntry;
  serverConfig : option ServerConfig;
  relayerVersionMetadata : option json;
  pendingRememberKeys : gmap string string;
  clock : Z;
  trace : list event;
}.

(** The constructor's immutable fields. *)
Record settings : Type := Settings { accountId : string; serverUrl : string; namespace : string }.

Inductive failure : Type := Thrown (e : sdk_error) | OutOfFuel.
Definition M : Type → Type := ST client failure.
Definition throw_js {A} (e : sdk_error) : M A := throw (Thrown e).
Definition of_sum {A} (r : sdk_error + A) : M A :=
  match r with inl e => throw_js e | inr a => mret a end.
Definition catch_js {A} (m : M A) (h : sdk_error → M A) : M A :=
  try_catch m (λ f, match f with Thrown e => h e | OutOfFuel => throw OutOfFuel end).

Definition emit (e : event) (c : client) : client :=
  Client (privateKey c) (publicKey c) (sessionCache c) (serverConfig c) (relayerVersionMetadata c)
         (pendingRememberKeys c) (clock c) (trace c ++ [e]).
Definition set_clock (t : Z) (c : client) : client :=
  Client (privateKey c) (publicKey c) (sessionCache c) (serverConfig c) (relayerVersionMetadata c)
         (pendingRememberKeys c) t (trace c).
Definition set_publicKey (pk : option (list ascii)) (c : client) : client :=
  Client (privateKey c) pk (sessionCache c) (serverConfig c) (relayerVersionMetadata c)
         (pendingRememberKeys c) (clock c) (trace c).
Definition set_session (e : option SessionCacheEntry) (c : client) : client :=
  Client (privateKey c) (publicKey c) e (serverConfig c) (relayerVersionMetadata c)
         (pendingRememberKeys c) (clock c) (trace c).
Definition set_config (cfg : option ServerConfig) (c : client) : client :=
  Client (privateKey c) (publicKey c) (sessionCache c) cfg (relayerVersionMetadata c)
         (pendingRememberKeys c) (clock c) (trace c).
Definition set_metadata (m : option json) (c : client) : client :=
  Client (privateKey c) (publicKey c) (sessionCache c) (serverConfig c) m
         (pendingRememberKeys c) (clock c) (trace c).
Definition set_pending (p : gmap string string) (c : client) : client :=
  Client (privateKey c) (publicKey c) (sessionCache c) (serverConfig c) (relayerVersionMetadata c)
         p (clock c) (trace c).

Definition zero_fill (l : list ascii) : list ascii := map (λ _, ascii_of_N 0) l.

(** [destroy()] *)
Definition destroy (c : client) : client :=
  Client (zero_fill (privateKey c)) (zero_fill <$> publicKey c) None None None ∅ (clock c) (trace c).

Definition SEAL_SESSION_TTL_MIN : Z := 5.
Definition SEAL_SESSION_SAFETY_MARGIN_MS : Z := 30000.
Definition RECALL_TIMEOUT_MS : Z := 15000.

(** [typeof v === "string" && v] *)
Definition nonempty_string (v : json) : option string :=
  match v with JStr s => if is_empty s then None else Some s | _ => None end.
(** [res.json()] *)
Definition parse_body (text : string) : sdk_error + json :=
  match json_parse text with Some v => inr v | None => inl syntax_error end.
(** [v.k], which throws on [null] and [undefined] *)
Definition prop (k : string) (v : json) : sdk_error + json :=
  match v with JNull | JUndefined => inl type_error | _ => inr (jget k v) end.
(** ["k" in v], which throws on a primitive *)
Definition has_key (k : string) (v : json) : sdk_error + bool :=
  match v with
  | JObj fs => inr (bool_decide (is_Some (assoc k fs)))
  | JArr _ => inr false
  | _ => inl type_error
  end.

Section Client.
Context (w : world) (st : settings).
Context (sha256 : list ascii → list ascii) (ed_sign : list ascii → list ascii → list ascii)
        (ed_public : list ascii → list ascii) (fraction : Q → string).

Definition fresh_uuid : M string := λ c, let c' := emit EUuid c in (c', inr (wd_uuid w (trace c'))).
Definition math_random : M Q := λ c, let c' := emit ERandom c in (c', inr (wd_random w (trace c'))).
Definition sleep (ms : Z) : M unit := λ c,
  let c' := emit (ESleep ms) c in (set_clock (clock c' + ms + wd_lag w (trace c')) c', inr tt).

(** [fetch] and the reading of its body; [deadline]: when the caller's
    [AbortController] fires. *)
Definition fetch (r : http_request) (deadline : option Z) : M (Z * string) := λ c,
  if match deadline with Some d => d <=? clock c | None => false end then (c, inl (Thrown abort_error))
  else
    let c1 := emit (EHttp r) c in
    let '(t, res) := wd_http w (trace c1) in
    if match deadline with Some d => d <=? clock c1 + t | None => false end
    then (set_clock (default 0 deadline) c1, inl (Thrown abort_error))
    else (set_clock (clock c1 + t) c1,
          match res with inl e => inl (Thrown e) | inr a => inr a end).

Definition get_url (path : string) : M (Z * string) := fetch (Http (serverUrl st +:+ path) "GET" [] None) None.
Definition ok_status (status : Z) : bool := (200 <=? status) && (status <=? 299).

(** ** Compatibility *)
Definition COMPAT_FAILED : string := "Walrus Memory compatibility check failed: GET /version returned ".

Definition fetchCompatibilityMetadata : M json :=
  '(vstatus, vtext) ← get_url "/version";
  body ← (if ok_status vstatus then of_sum (parse_body vtext)
          else if (vstatus =? 404) || (vstatus =? 405) then
            '(hstatus, htext) ← get_url "/health";
            if negb (ok_status hstatus)
            then throw_js (plain (COMPAT_FAILED +:+ pretty vstatus +:+ ", and GET /health returned " +:+ pretty hstatus))
            else of_sum (parse_body htext)
          else throw_js (plain (COMPAT_FAILED +:+ pretty vstatus)));
  match Compat.assertCompatibleRelayer body with
  | inl _ => throw_js (plain "incompatible relayer")
  | inr _ => _ ← modify (set_metadata (Some body)); mret body
  end.

Definition ensureCompatibleRelayer : M json :=
  m ← gets relayerVersionMetadata;
  match m with Some v => mret v | None => fetchCompatibilityMetadata end.

(** ** Server configuration *)
Definition optional_url_ok (v : json) : bool :=
  is_undefined v || bool_decide (is_Some (nonempty_string v)).

Definition parseServerConfig (body : json) : sdk_error + ServerConfig :=
  match body with
  | JNull | JUndefined => inl type_error
  | _ =>
      match nonempty_string (jget "packageId" body), nonempty_string (jget "network" body) with
      | Some pkg, Some net =>
          let transport := jget "suiTransport" body in
          let named t := match transport with JStr s => seqb s t | _ => false end in
          guard_or is_undefined transport || named "grpc" || named "jsonrpc"
            else plain "GET /config response has invalid suiTransport";
          guard_or optional_url_ok (jget "suiGrpcUrl" body) else plain "GET /config response has invalid suiGrpcUrl";
          guard_or optional_url_ok (jget "suiRpcUrl" body) else plain "GET /config response has invalid suiRpcUrl";
          let grpcUrl := nonempty_string (jget "suiGrpcUrl" body) in
          let rpcUrl := nonempty_string (jget "suiRpcUrl" body) in
          let use_grpc := if seqb net "testnet" then true
                          else if is_undefined transport then bool_decide (is_Some grpcUrl)
                          else named "grpc" in
          guard_or negb (use_grpc && negb (bool_decide (is_Some grpcUrl)) && negb (bool_decide (is_Some rpcUrl)))
            else plain "GET /config requires suiGrpcUrl or suiRpcUrl";
          guard_or negb (negb use_grpc && negb (bool_decide (is_Some rpcUrl)))
            else plain "GET /config requires suiRpcUrl for explicit non-testnet JSON-RPC transport";
          inr (ServerCfg pkg net rpcUrl grpcUrl use_grpc)
      | _, _ => inl (plain "GET /config response missing packageId / network")
      end
  end.

Definition fetchServerConfig : M ServerConfig :=
  cached ← gets serverConfig;
  match cached with
  | Some cfg => mret cfg
  | None =>
      '(status, text) ← get_url "/config";
      if negb (ok_status status) then throw_js (plain ("GET /config returned " +:+ pretty status))
      else
        body ← of_sum (parse_body text);
        cfg ← of_sum (parseServerConfig body);
        _ ← modify (set_config (Some cfg));
        mret cfg
  end.

(** ** The SEAL session *)
Definition clientCandidates (cfg : ServerConfig) : list string :=
  (if grpc cfg && bool_decide (is_Some (suiGrpcUrl cfg)) && wd_has_grpc w then ["SuiGrpcClient"] else []) ++
  (if bool_decide (is_Some (suiRpcUrl cfg)) && wd_has_jsonrpc w then ["SuiClient"] else []).

(** Create the session over the first candidate that works. *)
Fixpoint try_candidates (last : sdk_error) (names : list string) : M unit :=
  match names with
  | [] => throw_js last
  | n :: names' => λ c,
      let c' := emit (ESealClient n) c in
      match wd_seal_create w (trace c') with
      | Some e => try_candidates e names' c'
      | None => (c', inr tt)
      end
  end.

Definition export_session : M string := λ c,
  let c' := emit ESealExport c in
  (c', match wd_seal_export w (trace c') with inl e => inl (Thrown e) | inr b => inr b end).

Definition buildSealSessionInner : M string :=
  cfg ← fetchServerConfig;
  let candidates := clientCandidates cfg in
  if bool_decide (candidates = []) || negb (wd_has_keypair w)
  then throw_js (plain "Required Sui client or Ed25519Keypair not found in @mysten/sui.")
  else
    _ ← try_candidates (plain "undefined") candidates;
    bytes ← export_session;
    _ ← modify (λ c, set_session (Some (SessionEntry bytes
          (clock c + SEAL_SESSION_TTL_MIN * 60000 - SEAL_SESSION_SAFETY_MARGIN_MS))) c);
    mret bytes.

Definition buildSealSession : M string := λ c,
  match sessionCache c with
  | Some e => if clock c <? sc_expiresAt e then (c, inr (sc_bytes e)) else buildSealSessionInner c
  | None => buildSealSessionInner c
  end.

(** ** Signed requests *)
Definition getPublicKey : M (list ascii) := λ c,
  match publicKey c with
  | Some pk => (c, inr pk)
  | None => let pk := ed_public (privateKey c) in (set_publicKey (Some pk) c, inr pk)
  end.

(** The canonical message. *)
Definition signed_message (timestamp method path bodySha256 nonce : string) : string :=
  timestamp +:+ "." +:+ method +:+ "." +:+ path +:+ "." +:+ bodySha256 +:+ "." +:+ nonce +:+ "." +:+
  accountId st.

Definition sha256hex (data : string) : string := Hex.bytesToHex (sha256 (utf8 data)).

Definition mem_status (status : Z) (l : list Z) : bool := existsb (Z.eqb status) l.

Definition response_error (status : Z) (raw : string) : sdk_error :=
  match Compat.compatibilityErrorFromStatus status raw with
  | Some m => plain m
  | None =>
      let s := sanitizeServerError status raw in
      SdkError (s_message s) (Some status)
        (match s_serverCode s with Some c => if is_empty c then None else Some c | None => None end) (Some raw)
  end.

Definition base_headers (pk sig timestamp nonce : string) : list (string * string) :=
  [("Content-Type", "application/json"); ("x-public-key", pk); ("x-signature", sig);
   ("x-timestamp", timestamp); ("x-nonce", nonce); ("x-account-id", accountId st)].

Definition signedRequest (method path : string) (body : json) (acceptedStatuses : list Z)
    (includeDelegateKey : bool) (deadline : option Z) : M json :=
  _ ← ensureCompatibleRelayer;
  now ← gets clock;
  let timestamp := pretty (now / 1000) in
  let bodyStr := if seqb method "GET" then empty_str else json_stringify fraction body in
  nonce ← fresh_uuid;
  key ← gets privateKey;
  let message := signed_message timestamp method path (sha256hex bodyStr) nonce in
  let signature := ed_sign key (utf8 message) in
  pk ← getPublicKey;
  let headers := base_headers (Hex.bytesToHex pk) (Hex.bytesToHex signature) timestamp nonce in
  session ← (if includeDelegateKey then b ← buildSealSession; mret [("x-seal-session", b)] else mret []);
  '(status, text) ← fetch (Http (serverUrl st +:+ path) method (headers ++ session)
                     (if seqb method "GET" then None else Some bodyStr)) deadline;
  if negb (mem_status status acceptedStatuses) then throw_js (response_error status text)
  else of_sum (parse_body text).

(** ** Remember *)
Definition or_ns (ns : option string) : string := default (namespace st) ns.

(** [`${resolvedNamespace}\0${text}`] *)
Definition requestIdentity (ns text : string) : string :=
  ns +:+ String.String (ascii_of_N 0) text.

(** [options.idempotencyKey ?? this.pendingRememberKeys.get(id) ?? crypto.randomUUID()],
    remembering a generated key. *)
Definition choose_key (given : option string) (identity : string) : M string :=
  match given with
  | Some k => mret k
  | None =>
      pending ← gets pendingRememberKeys;
      k ← (match pending !! identity with Some k => mret k | None => fresh_uuid end);
      _ ← modify (λ c, set_pending (<[identity := k]> (pendingRememberKeys c)) c);
      mret k
  end.
Definition drop_key (given : option string) (identity : string) : M unit :=
  match given with
  | Some _ => mret tt
  | None => modify (λ c, set_pending (delete identity (pendingRememberKeys c)) c)
  end.

Definition remember_body (text ns key : string) : json :=
  JObj [("text", JStr text); ("namespace", JStr ns); ("idempotency_key", JStr key)].

Definition rememberAsync (text : string) (ns : option string) (given : option string) : M json :=
  let identity := requestIdentity (or_ns ns) text in
  key ← choose_key given identity;
  accepted ← signedRequest "POST" "/api/remember" (remember_body text (or_ns ns) key) [200; 202] true None;
  _ ← drop_key given identity;
  mret accepted.

Definition remember := rememberAsync.

Definition status_path (jobId : string) : string := "/api/remember/" +:+ jobId.
Definition job_request (jobId : string) : M json :=
  signedRequest "GET" (status_path jobId) (JObj []) [200; 404] true None.

Definition getRememberStatus (jobId : string) : M json :=
  status ← job_request jobId;
  of_sum (has_key "status" status) ≫= λ known : bool,
  if known then mret status
  else mret (JObj [("job_id", JStr jobId); ("status", JStr "not_found");
                   ("error", coalesce (jget "error" status) (JStr ("remember job not found: " +:+ jobId)))]).

(** ** Polling *)
Definition pollingDelayMs (baseMs : Q) (attempt : nat) (random : Q) : Z :=
  let base := if Qle_bool baseMs 100 then 100%Q else baseMs in
  let grown := (base * Qpower (3 # 2) (Z.of_nat (Nat.min attempt 6)))%Q in
  let capped := if Qle_bool grown 10000 then grown else 10000%Q in
  Qfloor (capped * ((3 # 4) + random * (1 # 2))).

Definition isTransientPollingStatus (status : Z) : bool :=
  (status =? 0) || (status =? 429) || (500 <=? status).

Definition poll_sleep (pollIntervalMs : Q) (attempt : nat) : M unit :=
  r ← math_random; sleep (pollingDelayMs pollIntervalMs attempt r).

(** A request whose transient failures are skipped ([continue]). *)
Definition poll_request (req : M json) : M (option json) :=
  catch_js (v ← req; mret (Some v) : M (option json))
    (λ err, if isTransientPollingStatus (default 0 (se_status err)) then mret None else throw_js err).

Definition job_not_found (jobId : string) : sdk_error := with_status ("remember job not found: " +:+ jobId) 404.
Definition is_status (v : json) (s : string) : bool := match v with JStr t => seqb t s | _ => false end.

(** What one answer makes of the wait: [None] to go on polling. *)
Definition job_outcome (jobId : string) (status : json) : sdk_error + option json :=
  match has_key "status" status with
  | inl e => inl e
  | inr known =>
      let stv := jget "status" status in
      if negb known || is_status stv "not_found" then inl (job_not_found jobId)
      else if is_status stv "done" then
        inr (Some (JObj [("id", jget "job_id" status); ("job_id", jget "job_id" status);
          ("blob_id", coalesce (jget "blob_id" status) (JStr empty_str));
          ("owner", coalesce (jget "owner" status) (JStr empty_str));
          ("namespace", coalesce (jget "namespace" status) (JStr (namespace st)))]))
      else if is_status stv "failed" then
        inl (with_status ("remember job failed: " +:+
               js_string (coalesce (jget "error" status) (JStr "unknown error"))) 500)
      else inr None
  end.

Definition job_timeout (jobId : string) (timeoutMs : Z) : sdk_error :=
  with_status ("remember job timed out after " +:+ pretty timeoutMs +:+ "ms (job_id=" +:+ jobId +:+ ")") 504.

Fixpoint wait_loop (fuel : nat) (jobId : string) (pollIntervalMs : Q) (timeoutMs deadline : Z)
    (attempt : nat) : M json :=
  match fuel with
  | O => throw OutOfFuel
  | S fuel' =>
      now ← gets clock;
      if negb (now <? deadline) then throw_js (job_timeout jobId timeoutMs)
      else
        _ ← poll_sleep pollIntervalMs attempt;
        answer ← poll_request (job_request jobId);
        match answer with
        | None => wait_loop fuel' jobId pollIntervalMs timeoutMs deadline (S attempt)
        | Some status =>
            outcome ← of_sum (job_outcome jobId status);
            match outcome with
            | Some result => mret result
            | None => wait_loop fuel' jobId pollIntervalMs timeoutMs deadline (S attempt)
            end
        end
  end.

(** Every poll sleeps at least 75 ms: this many iterations reach the deadline. *)
Definition wait_fuel (timeoutMs : Z) : nat := S (S (Z.to_nat (timeoutMs / 75))).

Definition waitForRememberJob (jobId : string) (pollIntervalMs : Q) (timeoutMs : Z) : M json :=
  now ← gets clock;
  wait_loop (wait_fuel timeoutMs) jobId pollIntervalMs timeoutMs (now + timeoutMs) 0.

Definition rememberAndWait (text : string) (ns : option string) (given : option string)
    (pollIntervalMs : Q) (timeoutMs : Z) : M json :=
  let identity := requestIdentity (or_ns ns) text in
  key ← choose_key given identity;
  accepted ← rememberAsync text (Some (or_ns ns)) (Some key);
  jobId ← of_sum (prop "job_id" accepted);
  completed ← waitForRememberJob (js_string jobId) pollIntervalMs timeoutMs;
  _ ← drop_key given identity;
  mret completed.

(** ** Bulk *)
Inductive item_status : Type := IDone | IFailed | ITimeout.
#[global] Instance item_status_dec : EqDecision item_status.
Proof. solve_decision. Defined.
Record RememberBulkItemResult : Type := BulkItem {
  bi_id : string;
  bi_blob_id : json;
  bi_status : item_status;
  bi_namespace : string;
  bi_error : json;
}.

Definition rememberBulkAsync (items : list (string * option string)) : M json :=
  match items with
  | [] => throw_js (plain "rememberBulkAsync: items must be a non-empty array")
  | _ =>
      let normalised := map (λ i : string * option string,
        JObj [("text", JStr i.1); ("namespace", JStr (or_ns i.2))]) items in
      accepted ← signedRequest "POST" "/api/remember/bulk" (JObj [("items", JArr normalised)]) [200; 202] true None;
      ids ← of_sum (prop "job_ids" accepted);
      match ids with
      | JArr l => if (length l =? length normalised)%nat then mret accepted
                  else throw_js (plain "rememberBulkAsync: wrong number of job_ids")
      | JStr s => if (slen s =? length normalised)%nat then mret accepted
                  else throw_js (plain "rememberBulkAsync: wrong number of job_ids")
      | _ => throw_js (plain "rememberBulkAsync: wrong number of job_ids")
      end
  end.

Definition getRememberBulkStatus (jobIds : list string) : M json :=
  signedRequest "POST" "/api/remember/bulk/status" (JObj [("job_ids", JArr (map JStr jobIds))]) [200] true None.

(** [namespaces[idx] ?? this.namespace] *)
Definition ns_at (namespaces : list string) (idx : nat) : string := or_ns (namespaces !! idx).

Definition initial_results (jobIds namespaces : list string) (timeoutMs : Z) : list RememberBulkItemResult :=
  imap (λ idx jobId, BulkItem jobId (JStr empty_str) ITimeout (ns_at namespaces idx)
          (JStr ("polling timed out after " +:+ pretty timeoutMs +:+ "ms"))) jobIds.

(** Group the answered items by [job_id], in order. *)
Fixpoint statusById (items : list json) : sdk_error + gmap string (list json) :=
  match items with
  | [] => inr ∅
  | i :: items' =>
      match prop "job_id" i, statusById items' with
      | inl e, _ => inl e
      | _, inl e => inl e
      | inr (JStr k), inr m => inr (<[k := i :: default [] (m !! k)]> m)
      | inr _, inr m => inr m
      end
  end.

(** [jobIds.indexOf(jobId)] *)
Fixpoint index_of (x : string) (l : list string) : nat :=
  match l with
  | [] => 0
  | y :: l' => if seqb x y then 0 else S (index_of x l')
  end%nat.

Record polled : Type := Polled {
  p_results : list RememberBulkItemResult;
  p_pending : gset string;
}.

(** One id of [for (const jobId of pendingIds)]. *)
Definition apply_status (jobIds namespaces : list string) (jobId : string) (status : json) (p : polled) : polled :=
  let idx := index_of jobId jobIds in
  let stv := jget "status" status in
  if is_status stv "done" then
    Polled (<[idx := BulkItem jobId (coalesce (jget "blob_id" status) (JStr empty_str)) IDone
                       (ns_at namespaces idx) JUndefined]> (p_results p)) (p_pending p ∖ {[jobId]})
  else if is_status stv "failed" || is_status stv "not_found" then
    Polled (<[idx := BulkItem jobId (JStr empty_str) IFailed (ns_at namespaces idx)
                       (if is_status stv "not_found" then JStr "job not found"
                        else coalesce (jget "error" status) (JStr "unknown error"))]> (p_results p))
           (p_pending p ∖ {[jobId]})
  else p.

Fixpoint apply_batch (jobIds namespaces pendingIds : list string) (m : gmap string (list json)) (p : polled)
    : polled :=
  match pendingIds with
  | [] => p
  | jobId :: rest =>
      match m !! jobId with
      | Some (status :: bucket) =>
          apply_batch jobIds namespaces rest (<[jobId := bucket]> m)
            (apply_status jobIds namespaces jobId status p)
      | _ => apply_batch jobIds namespaces rest m p
      end
  end.

Definition batch_items (batch : json) : sdk_error + list json :=
  match prop "results" batch with
  | inl e => inl e
  | inr (JArr l) => inr l
  | inr _ => inl type_error
  end.

Fixpoint bulk_loop (fuel : nat) (jobIds namespaces : list string) (pollIntervalMs : Q) (deadline : Z)
    (attempt : nat) (p : polled) : M polled :=
  match fuel with
  | O => throw OutOfFuel
  | S fuel' =>
      now ← gets clock;
      if bool_decide (p_pending p = ∅) || negb (now <? deadline) then mret p
      else
        _ ← poll_sleep pollIntervalMs attempt;
        let pendingIds := filter (λ j, j ∈ p_pending p) jobIds in
        match pendingIds with
        | [] => mret p
        | _ =>
            answer ← poll_request (getRememberBulkStatus pendingIds);
            match answer with
            | None => bulk_loop fuel' jobIds namespaces pollIntervalMs deadline (S attempt) p
            | Some batch =>
                items ← of_sum (batch_items batch);
                m ← of_sum (statusById items);
                bulk_loop fuel' jobIds namespaces pollIntervalMs deadline (S attempt)
                  (apply_batch jobIds namespaces pendingIds m p)
            end
        end
  end.

Definition is_done (r : RememberBulkItemResult) : bool := bool_decide (bi_status r = IDone).

Record RememberBulkResult : Type := BulkResult {
  br_results : list RememberBulkItemResult;
  br_total : nat;
  br_succeeded : nat;
  br_failed : nat;
}.

Definition waitForRememberJobs (jobIds namespaces : list string) (pollIntervalMs : Q) (timeoutMs : Z)
    : M RememberBulkResult :=
  now ← gets clock;
  p ← bulk_loop (wait_fuel timeoutMs) jobIds namespaces pollIntervalMs (now + timeoutMs) 0
        (Polled (initial_results jobIds namespaces timeoutMs) (list_to_set jobIds));
  let results := p_results p in
  let succeeded := length (filter (λ r, is_done r = true) results) in
  mret (BulkResult results (length results) succeeded (length results - succeeded)).

Definition rememberBulkAndWait (items : list (string * option string)) (pollIntervalMs : Q) (timeoutMs : Z)
    : M RememberBulkResult :=
  let namespaces := map (λ i : string * option string, or_ns i.2) items in
  accepted ← rememberBulkAsync items;
  match jget "job_ids" accepted with
  | JArr l => waitForRememberJobs (map js_string l) namespaces pollIntervalMs timeoutMs
  | _ => throw_js type_error
  end.

(** ** Recall *)
Record RecallOptions : Type := Recall {
  ro_limit : option Q;
  ro_topK : option Q;
  ro_namespace : option string;
  ro_maxDistance : option Q;
}.
(** The second positional argument. *)
Inductive limit_or_options : Type := NoLimit | Limit (n : Q) | Options (o : RecallOptions).

Definition recall_options (second : limit_or_options) (ns : option string) : RecallOptions :=
  match second with
  | NoLimit => Recall (Some 10%Q) None ns None
  | Limit n => Recall (Some n) None ns None
  | Options o => o
  end.

(** [memory.distance < max]; a distance that is not a number compares false *)
Definition nearer (max : Q) (memory : json) : bool :=
  match memory with
  | JNull | JUndefined => false
  | _ => match jget "distance" memory with JNum d => negb (Qle_bool max d) | _ => false end
  end.

Definition recall_body (query : string) (o : RecallOptions) : json :=
  JObj [("query", JStr query);
        ("limit", JNum (default 10%Q (match ro_topK o with Some k => Some k | None => ro_limit o end)));
        ("namespace", JStr (or_ns (ro_namespace o)))].

Definition object_fields (v : json) : list (string * json) := match v with JObj fs => fs | _ => [] end.

Definition filter_recall (o : RecallOptions) (result : json) : sdk_error + json :=
  match ro_maxDistance o with
  | None => inr result
  | Some max =>
      match prop "results" result with
      | inl e => inl e
      | inr (JArr l) =>
          let filtered := filter (λ m, nearer max m = true) l in
          inr (JObj (set_field "total" (JNum (inject_Z (Z.of_nat (length filtered))))
                (set_field "results" (JArr filtered) (object_fields result))))
      | inr _ => inl type_error
      end
  end.

Definition recall (query : string) (o : RecallOptions) : M json :=
  now ← gets clock;
  result ← signedRequest "POST" "/api/recall" (recall_body query o) [200] true (Some (now + RECALL_TIMEOUT_MS));
  of_sum (filter_recall o result).

(** ** The other endpoints *)
Definition rememberManual (blobId : string) (vector : list Q) (ns : option string) : M json :=
  signedRequest "POST" "/api/remember/manual"
    (JObj [("blob_id", JStr blobId); ("vector", JArr (map JNum vector)); ("namespace", JStr (or_ns ns))])
    [200] false None.

Definition recallManual (vector : list Q) (limit : option Q) (ns : option string)
    (weights : option ScoringWeights) : M json :=
  signedRequest "POST" "/api/recall/manual"
    (JObj [("vector", JArr (map JNum vector)); ("limit", JNum (default 10%Q limit));
           ("namespace", JStr (or_ns ns)); ("scoring_weights", scoringWeightsToWire weights)])
    [200] false None.

Definition embed (text : string) : M json :=
  signedRequest "POST" "/api/embed" (JObj [("text", JStr text)]) [200] true None.

(** [occurredAt]: absent, an RFC-3339 text, or a [Date] ([None] when invalid). *)
Inductive occurred_at : Type := NoDate | Text (s : string) | DateValue (iso : option string).
Definition occurredAtToWire (o : occurred_at) : sdk_error + option string :=
  match o with
  | NoDate => inr None
  | Text s => inr (Some s)
  | DateValue (Some iso) => inr (Some iso)
  | DateValue None => inl (plain "occurredAt is an Invalid Date")
  end.

Definition analyze (text : string) (ns : option string) (o : occurred_at) : M json :=
  wire ← of_sum (occurredAtToWire o);
  signedRequest "POST" "/api/analyze"
    (JObj ([("text", JStr text); ("namespace", JStr (or_ns ns))] ++
           match wire with Some t => [("occurred_at", JStr t)] | None => [] end)) [200; 202] true None.

Definition analyzeAndWait (text : string) (ns : option string) (o : occurred_at) (pollIntervalMs : Q)
    (timeoutMs : Z) : M (RememberBulkResult * json * json) :=
  accepted ← analyze text ns o;
  ids ← of_sum (prop "job_ids" accepted);
  match ids with
  | JArr l =>
      completed ← waitForRememberJobs (map js_string l) (map (λ _, or_ns ns) l) pollIntervalMs timeoutMs;
      mret (completed, jget "facts" accepted, jget "owner" accepted)
  | _ => throw_js type_error
  end.

Definition restore (ns : string) (limit : Q) : M json :=
  result ← signedRequest "POST" "/api/restore" (JObj [("namespace", JStr ns); ("limit", JNum limit)]) [200] true None;
  truncated ← of_sum (prop "truncated" result);
  mret (JObj (set_field "truncated" (coalesce truncated (JBool false)) (object_fields result))).

Definition health : M json :=
  '(status, text) ← get_url "/health";
  if negb (ok_status status) then throw_js (plain ("Health check failed: " +:+ pretty status))
  else of_sum (parse_body text).

Definition compatibility : M json := ensureCompatibleRelayer.
Definition getPublicKeyHex : M string := pk ← getPublicKey; mret (Hex.bytesToHex pk).

End Client.

(** The constructor: [new MemWal(config)], at time [t]. *)
Definition create (key : Hex.hex_error + list ascii) (t : Z) : Hex.hex_error + client :=
  match key with
  | inl e => inl e
  | inr k => inr (Client k None None None None ∅ t [])
  end.
Definition settings_of (account : string) (url ns : option string) : settings :=
  Settings account (normalizeServerUrl (default "https://relayer.memwal.ai/" url)) (default "default" ns).
