(* ===== verification/SdkWire.v ===== *)
(** * What the SDK puts on the wire

    The canonical message, the events of a signed request, the reuse of
    idempotency keys and the server configuration of [SdkClient]. *)
From Stdlib Require Import QArith Ascii.
From S2P Require Import Prelude JsText JsNumber JsonParse Hex Compat SdkText SdkClient.
Local Open Scope Z_scope.

(** ** The canonical message *)
Definition dotless (s : string) : Prop := "."%char ∉ chars s.

(** Splitting at the last occurrence of a separator character. *)
Lemma sapp_sep_inj_r (c : ascii) (a a' b b' : string) :
  c ∉ chars b → c ∉ chars b' → a +:+ String.String c b = a' +:+ String.String c b' → a = a' ∧ b = b'.
Proof.
  intros Hb Hb' E. apply (f_equal (λ s, rev (chars s))) in E. rewrite !chars_app in E. simpl in E.
  rewrite !rev_app_distr in E. simpl in E. rewrite <-!app_assoc in E. simpl in E.
  assert (Hs : ∀ l : list ascii, c ∉ l → c ∉ rev l) by (intros l; by rewrite <-elem_of_reverse, rev_alt).
  enough (of_chars (rev (chars b)) = of_chars (rev (chars b')) ∧
          of_chars (rev (chars a)) = of_chars (rev (chars a'))) as [E1 E2].
  { apply (f_equal chars) in E1, E2. rewrite !chars_of_chars in E1, E2.
    apply (f_equal (@rev _)) in E1, E2. rewrite !rev_involutive in E1, E2.
    split; by apply chars_inj. }
  apply (sapp_sep_inj c); rewrite ?chars_of_chars; [by apply Hs..|].
  apply chars_inj. rewrite !chars_app, !chars_of_chars. simpl. by rewrite !chars_of_chars.
Qed.

Lemma signed_message_eq st t m p b n :
  signed_message st t m p b n =
  t +:+ String.String "."%char (m +:+ String.String "."%char
    (((p +:+ String.String "."%char b) +:+ String.String "."%char n) +:+
     String.String "."%char (accountId st))).
Proof.
  unfold signed_message. apply chars_inj. repeat progress (rewrite ?chars_app; simpl).
  by rewrite <-!app_assoc.
Qed.

(** The signature binds the whole request: two canonical messages are
    equal only if timestamp, method, path, body digest, nonce and account id
    are all equal - even though the path may itself contain dots - so no
    intermediary can move a signature to another field split. *)
Theorem canonical_message_injective (st1 st2 : settings) (t1 t2 m1 m2 p1 p2 b1 b2 n1 n2 : string) :
  dotless t1 → dotless t2 → dotless m1 → dotless m2 → dotless b1 → dotless b2 →
  dotless n1 → dotless n2 → dotless (accountId st1) → dotless (accountId st2) →
  signed_message st1 t1 m1 p1 b1 n1 = signed_message st2 t2 m2 p2 b2 n2 →
  t1 = t2 ∧ m1 = m2 ∧ p1 = p2 ∧ b1 = b2 ∧ n1 = n2 ∧ accountId st1 = accountId st2.
Proof.
  unfold dotless. intros Ht1 Ht2 Hm1 Hm2 Hb1 Hb2 Hn1 Hn2 Ha1 Ha2 E. rewrite !signed_message_eq in E.
  apply (sapp_sep_inj "."%char) in E as [-> E]; [|done..].
  apply (sapp_sep_inj "."%char) in E as [-> E]; [|done..].
  apply (sapp_sep_inj_r "."%char) in E as [E ->]; [|done..].
  apply (sapp_sep_inj_r "."%char) in E as [E ->]; [|done..].
  by apply (sapp_sep_inj_r "."%char) in E as [-> ->].
Qed.

Lemma canonical_message_injective_witness :
  let s := Settings "0xacc" "https://r" "default" in
  ("/a.b" : string) = "/a.b" ∧ accountId s = "0xacc".
Proof.
  intros s.
  destruct (canonical_message_injective s s "17" "17" "POST" "POST" "/a.b" "/a.b" "ff" "ff" "n" "n")
    as (_ & _ & H1 & _ & _ & H2); [unfold dotless; simpl; set_solver..|reflexivity|].
  split; [exact H1|reflexivity].
Defined.

(** ** The events of a signed request *)
Section Wire.
Context (w : world) (st : settings).
Context (sha256 : list ascii → list ascii) (ed_sign : list ascii → list ascii → list ascii)
        (ed_public : list ascii → list ascii) (fraction : Q → string).
Context (c0 : client).

Notation signedRequest := (signedRequest w st sha256 ed_sign ed_public fraction).

(** A request that carries no credential: the public probes. *)
Definition public_probe (r : http_request) : Prop :=
  h_headers r = [] ∧ h_method r = "GET" ∧ h_body r = None ∧
  (h_url r = serverUrl st +:+ "/version" ∨ h_url r = serverUrl st +:+ "/health" ∨
   h_url r = serverUrl st +:+ "/config").
Definition quiet (e : event) : Prop := match e with EHttp r => public_probe r | _ => True end.

Definition body_text (method : string) (body : json) : string :=
  if seqb method "GET" then empty_str else json_stringify fraction body.
Definition key0 : list ascii := privateKey c0.
Definition pk0 : list ascii := default (ed_public key0) (publicKey c0).

(** The request [signedRequest] sends, for some timestamp, nonce and session. *)
Definition signed_http (method path : string) (body : json) (ts nonce : string)
    (session : list (string * string)) : http_request :=
  let message := signed_message st ts method path (sha256hex sha256 (body_text method body)) nonce in
  Http (serverUrl st +:+ path) method
    (base_headers st (Hex.bytesToHex pk0) (Hex.bytesToHex (ed_sign key0 (utf8 message))) ts nonce ++ session)
    (if seqb method "GET" then None else Some (body_text method body)).

Definition session_ok (includeDelegateKey : bool) (session : list (string * string)) : Prop :=
  if includeDelegateKey then ∃ b, session = [("x-seal-session", b)] else session = [].

Definition compatible (c : client) : Prop :=
  ∃ m, relayerVersionMetadata c = Some m ∧ Compat.assertCompatibleRelayer m = inr tt.

(** The keys of [c0], only compatible metadata cached, quiet events since. *)
Definition quiet_since (c : client) : Prop :=
  privateKey c = key0 ∧ default (ed_public key0) (publicKey c) = pk0 ∧
  (∀ m, relayerVersionMetadata c = Some m → Compat.assertCompatibleRelayer m = inr tt) ∧
  ∃ evs, trace c = trace c0 ++ evs ∧ Forall quiet evs.
Definition ready (c : client) : Prop := quiet_since c ∧ compatible c.

(** What the steps before the request may do to the client. *)
Record stable (I : client → Prop) : Prop := {
  sb_emit e c : quiet e → I c → I (emit e c);
  sb_clock t c : I c → I (set_clock t c);
  sb_session e c : I c → I (set_session e c);
  sb_config g c : I c → I (set_config g c);
}.

Lemma quiet_stable : stable quiet_since.
Proof.
  split; [|done..]. intros e c He (H1 & H2 & H3 & evs & H4 & H5). split_and!; [done..|].
  exists (evs ++ [e]). simpl. rewrite H4, <-app_assoc. split; [done|]. apply Forall_app. split; [done|by constructor].
Qed.

Lemma ready_stable : stable ready.
Proof.
  destruct quiet_stable as [H1 H2 H3 H4]. split; unfold ready;
    [intros e c He []; split; [by apply H1|done]|intros ? c []; split; [|done]..]; auto.
Qed.

Lemma fetch_stable I r deadline :
  stable I → quiet (EHttp r) → invariant I (fetch w r deadline).
Proof.
  intros [H1 H2 _ _] Hr c Hc. unfold fetch. destruct (match deadline with Some d => _ | None => _ end); [done|].
  destruct (wd_http w _) as [t res]. destruct (match deadline with Some d => _ | None => _ end); [auto|].
  destruct res; auto.
Qed.

Lemma of_sum_invariant {A} I (r : sdk_error + A) : invariant I (of_sum r).
Proof. destruct r; [apply invariant_throw|apply invariant_ret]. Qed.

Lemma probe_stable I path :
  stable I → path = "/version" ∨ path = "/health" ∨ path = "/config" → invariant I (get_url w st path).
Proof.
  intros HI Hp. apply fetch_stable; [done|]. unfold quiet, public_probe. simpl. split_and!; [done..|].
  destruct Hp as [-> | [-> | ->]]; auto.
Qed.

Lemma ensure_compatible : triple quiet_since (ensureCompatibleRelayer w st) (λ _, ready) (λ _, quiet_since).
Proof.
  unfold ensureCompatibleRelayer. eapply (triple_bind _ (λ m c, quiet_since c ∧ relayerVersionMetadata c = m)).
  { apply triple_gets. auto. }
  intros [m|].
  - apply triple_ret. intros c [Hc Hm]. split; [done|]. exists m. split; [done|]. by apply Hc.
  - apply (triple_conseq _ quiet_since _ _ (λ _, ready) _ (λ _, quiet_since)); [|by intros c []|done|done].
    unfold fetchCompatibilityMetadata. apply (triple_bind _ (λ _, quiet_since)).
    { by apply probe_stable; [apply quiet_stable|left]. }
    intros [vstatus vtext]. apply (triple_bind _ (λ _, quiet_since)).
    { destruct (ok_status vstatus); [apply of_sum_invariant|]. destruct (_ || _); [|apply invariant_throw].
      apply invariant_bind; [apply probe_stable; [apply quiet_stable|auto]|]. intros [hs ht].
      destruct (negb _); [apply invariant_throw|apply of_sum_invariant]. }
    intros body. destruct (Compat.assertCompatibleRelayer body) as [e|[]] eqn:Eb; [by apply triple_throw|].
    eapply (triple_bind _ (λ _, ready)).
    + apply triple_modify. intros c (H1 & H2 & H3 & H4). split; [|by exists body].
      split_and!; [done|done| |done]. simpl. intros m [= <-]. done.
    + intros []. by apply triple_ret.
Qed.

Lemma build_session_ready : invariant ready (buildSealSession w st).
Proof.
  pose proof ready_stable as HS. destruct (HS) as [S1 S2 S3 S4].
  assert (Hi : invariant ready (buildSealSessionInner w st)).
  { unfold buildSealSessionInner. apply invariant_bind.
    - unfold fetchServerConfig. apply invariant_bind; [apply invariant_gets|]. intros [cfg|]; [apply invariant_ret|].
      apply invariant_bind; [apply probe_stable; auto|]. intros [status text].
      destruct (negb _); [apply invariant_throw|]. apply invariant_bind; [apply of_sum_invariant|]. intros body.
      apply invariant_bind; [apply of_sum_invariant|]. intros cfg.
      apply invariant_bind; [by apply triple_modify; intros c; apply S4|]. intros _. apply invariant_ret.
    - intros cfg. cbv zeta. destruct (_ || _); [apply invariant_throw|].
      apply invariant_bind.
      { generalize (plain "undefined"). induction (clientCandidates w cfg) as [|n l IH]; intros last; simpl.
        - apply invariant_throw.
        - intros c Hc. apply (S1 (ESealClient n) c I) in Hc.
          destruct (wd_seal_create w _); [by apply IH|done]. }
      intros _. apply invariant_bind.
      { intros c Hc. unfold export_session. apply (S1 ESealExport c I) in Hc. destruct (wd_seal_export w _); done. }
      intros bytes. apply invariant_bind; [by apply triple_modify; intros c; apply S3|]. intros _. apply invariant_ret. }
  intros c Hc. unfold buildSealSession. destruct (sessionCache c) as [e|]; [|by apply Hi].
  destruct (clock c <? _); [done|by apply Hi].
Qed.

Lemma get_public_key : triple ready (getPublicKey ed_public) (λ pk c, pk = pk0 ∧ ready c) (λ _, ready).
Proof.
  intros c [(H1 & H2 & H3 & H4) Hc]. unfold getPublicKey. destruct (publicKey c) as [pk|] eqn:E; simpl in *.
  - split; [done|]. split; [|done]. split_and!; [done| |done|done]. by rewrite E.
  - rewrite H1. split; [done|]. split; [|done]. by split_and!.
Qed.

Lemma fetch_signed r deadline c :
  ready c →
  let '(c', _) := fetch w r deadline c in
  compatible c' ∧ (quiet_since c' ∨ ∃ evs, trace c' = trace c0 ++ evs ++ [EHttp r] ∧ Forall quiet evs).
Proof.
  intros [(H1 & H2 & H3 & evs & H4 & H5) Hc]. unfold fetch.
  destruct (match deadline with Some d => _ | None => _ end).
  { split; [done|]. left. split_and!; [done..|]. by exists evs. }
  destruct (wd_http w _) as [t res].
  destruct (match deadline with Some d => _ | None => _ end); simpl;
    (split; [done|right; exists evs; by rewrite H4, <-app_assoc]).
Qed.

(** What a whole signed request leaves behind. *)
Definition request_outcome (method path : string) (body : json) (incl : bool) (c : client) : Prop :=
  ∃ evs sent, trace c = trace c0 ++ evs ++ sent ∧ Forall quiet evs ∧
    (sent = [] ∨ (compatible c ∧ ∃ ts nonce session, session_ok incl session ∧
       sent = [EHttp (signed_http method path body ts nonce session)])).

Lemma quiet_outcome method path body incl c : quiet_since c → request_outcome method path body incl c.
Proof.
  intros (_ & _ & _ & evs & H4 & H5). exists evs, []. rewrite app_nil_r. split_and!; [done|done|by left].
Qed.

Lemma fresh_uuid_ready : invariant ready (fresh_uuid w).
Proof. intros c Hc. unfold fresh_uuid. by apply (sb_emit _ ready_stable EUuid c I). Qed.

Lemma signed_outcome method path body accepted incl deadline :
  triple quiet_since (signedRequest method path body accepted incl deadline)
    (λ _, request_outcome method path body incl) (λ _, request_outcome method path body incl).
Proof.
  assert (Hq : ∀ c, ready c → request_outcome method path body incl c).
  { intros c [Hc _]. by apply quiet_outcome. }
  unfold SdkClient.signedRequest.
  eapply triple_bind.
  { eapply triple_conseq; [apply ensure_compatible|done|intros a c Hc; exact Hc|].
    intros e c Hc. by apply quiet_outcome. }
  intros m. eapply (triple_bind _ (λ _, ready)); [by apply triple_gets|]. intros now. cbv zeta.
  eapply (triple_bind _ (λ _, ready)).
  { eapply triple_conseq; [apply fresh_uuid_ready|done|done|auto]. }
  intros nonce. eapply (triple_bind _ (λ k c, k = key0 ∧ ready c)).
  { apply triple_gets. intros c Hc. split; [|done]. apply Hc. }
  intros key. eapply (triple_bind _ (λ pk c, key = key0 ∧ pk = pk0 ∧ ready c)).
  { intros c [-> Hc]. pose proof (get_public_key c Hc) as Hk. unfold getPublicKey in *.
    destruct (publicKey c); simpl in *; split_and!; naive_solver. }
  intros pk. eapply (triple_bind _ (λ s c, key = key0 ∧ pk = pk0 ∧ session_ok incl s ∧ ready c)).
  { destruct incl; simpl; [|apply triple_ret; naive_solver].
    intros c (-> & -> & Hc). pose proof (build_session_ready c Hc) as Hb. unfold mbind, st_bind.
    destruct (buildSealSession w st c) as [c' [e|b]]; [by apply Hq|]. split_and!; eauto. }
  intros session c (-> & -> & Hs & Hc). unfold mbind, st_bind.
  set (r := Http _ _ _ _). pose proof (fetch_signed r deadline c Hc) as Hf.
  destruct (fetch w r deadline c) as [c' [e|[status text]]]; destruct Hf as [Hcomp Hf];
    assert (Ho : request_outcome method path body incl c')
      by (destruct Hf as [Hf|(evs & Ht & Hf)]; [by apply quiet_outcome|]; exists evs, [EHttp r];
          split_and!; [done|done|right; split; [done|]; by exists (pretty (now / 1000)), nonce, session]);
    [done|]. destruct (negb _); [done|]. by destruct (parse_body text).
Qed.

(** What one signed request puts on the wire: besides credential-free
    GETs of [/version], [/health] and [/config], at most the one request it
    is for, only to a relayer that passed the compatibility check; its
    headers are the public key, a signature of the canonical message over
    exactly this method, path, body and account, timestamp, nonce and account
    id - and the SEAL session if and only if the caller did not opt out. *)
Theorem signed_request_wire (method path : string) (body : json) (accepted : list Z) (incl : bool)
    (deadline : option Z) :
  (∀ m, relayerVersionMetadata c0 = Some m → Compat.assertCompatibleRelayer m = inr tt) →
  let c := fst (signedRequest method path body accepted incl deadline c0) in
  ∃ evs sent, trace c = trace c0 ++ evs ++ sent ∧ Forall quiet evs ∧
    (sent = [] ∨ (compatible c ∧ ∃ ts nonce session, session_ok incl session ∧
       sent = [EHttp (signed_http method path body ts nonce session)])).
Proof.
  intros Hm. cbv zeta.
  assert (Hq : quiet_since c0). { split_and!; [done..|]. exists []. by rewrite app_nil_r. }
  pose proof (signed_outcome method path body accepted incl deadline c0 Hq) as Ho.
  destruct (signedRequest method path body accepted incl deadline c0) as [c [e|v]]; exact Ho.
Qed.
End Wire.

(** ** What a signed request cannot change *)
Section Frame.
Context (w : world) (st : settings).
Context (sha256 : list ascii → list ascii) (ed_sign : list ascii → list ascii → list ascii)
        (ed_public : list ascii → list ascii) (fraction : Q → string).

(** [m] keeps [I] and throws only errors of the program. *)
Definition keeps {A} (I : client → Prop) (m : M A) : Prop :=
  triple I m (λ _, I) (λ e c, I c ∧ ∃ x, e = Thrown x).

Lemma keeps_bind {A B} I (m : M A) (k : A → M B) : keeps I m → (∀ a, keeps I (k a)) → keeps I (m ≫= k).
Proof. intros Hm Hk. by eapply triple_bind. Qed.
Lemma keeps_ret {A} I (a : A) : keeps I (mret a).
Proof. by apply triple_ret. Qed.
Lemma keeps_throw {A} I e : keeps I (throw_js e : M A).
Proof. apply triple_throw. eauto. Qed.
Lemma keeps_gets {A} I (f : client → A) : keeps I (gets f).
Proof. by apply triple_gets. Qed.
Lemma keeps_modify I (f : client → client) : (∀ c, I c → I (f c)) → keeps I (modify f).
Proof. intros Hf. by apply triple_modify. Qed.
Lemma keeps_of_sum {A} I (r : sdk_error + A) : keeps I (of_sum r).
Proof. destruct r; [apply keeps_throw|apply keeps_ret]. Qed.
Lemma keeps_catch {A} I (m : M A) h : keeps I m → (∀ e, keeps I (h e)) → keeps I (catch_js m h).
Proof.
  intros Hm Hh. eapply triple_catch; [exact Hm|]. intros [e|]; simpl.
  - eapply triple_conseq; [apply Hh|by intros c []|done|done].
  - intros c [_ [x Hx]]. done.
Qed.

Definition is_sleep (e : event) : bool := match e with ESleep _ => true | _ => false end.

(** [I] survives every elementary action of a signed request. *)
Record robust (I : client → Prop) : Prop := {
  rb_fetch r d : keeps I (fetch w r d);
  rb_emit e c : is_sleep e = false → I c → I (emit e c);
  rb_session e c : I c → I (set_session e c);
  rb_config g c : I c → I (set_config g c);
  rb_metadata m c : I c → I (set_metadata m c);
  rb_public k c : I c → I (set_publicKey k c);
}.
Context (I : client → Prop) (HI : robust I).

Lemma ensure_robust : keeps I (ensureCompatibleRelayer w st).
Proof.
  apply keeps_bind; [apply keeps_gets|]. intros [m|]; [apply keeps_ret|].
  apply keeps_bind; [by apply rb_fetch|]. intros [vs vt]. apply keeps_bind.
  - destruct (ok_status vs); [apply keeps_of_sum|]. destruct (_ || _); [|apply keeps_throw].
    apply keeps_bind; [by apply rb_fetch|]. intros [hs ht].
    destruct (negb _); [apply keeps_throw|apply keeps_of_sum].
  - intros body. destruct (Compat.assertCompatibleRelayer body); [apply keeps_throw|].
    apply keeps_bind; [by apply keeps_modify; intros c; apply rb_metadata|]. intros _. apply keeps_ret.
Qed.

Lemma config_robust : keeps I (fetchServerConfig w st).
Proof.
  apply keeps_bind; [apply keeps_gets|]. intros [cfg|]; [apply keeps_ret|].
  apply keeps_bind; [by apply rb_fetch|]. intros [status text].
  destruct (negb _); [apply keeps_throw|]. apply keeps_bind; [apply keeps_of_sum|]. intros body.
  apply keeps_bind; [apply keeps_of_sum|]. intros cfg.
  apply keeps_bind; [by apply keeps_modify; intros c; apply rb_config|]. intros _. apply keeps_ret.
Qed.

Lemma session_robust : keeps I (buildSealSession w st).
Proof.
  assert (Hi : keeps I (buildSealSessionInner w st)).
  { apply keeps_bind; [apply config_robust|].
    intros cfg. cbv zeta. destruct (_ || _); [apply keeps_throw|]. apply keeps_bind.
    { generalize (plain "undefined"). induction (clientCandidates w cfg) as [|n l IH]; intros last; simpl.
      - apply keeps_throw.
      - intros c Hc. apply (rb_emit I HI (ESealClient n)) in Hc; [|done].
        destruct (wd_seal_create w _); [by apply IH|done]. }
    intros _. apply keeps_bind.
    { intros c Hc. unfold export_session. apply (rb_emit I HI ESealExport) in Hc; [|done].
      destruct (wd_seal_export w _); eauto. }
    intros bytes. apply keeps_bind; [|intros _; apply keeps_ret].
    apply keeps_modify. intros c. by apply rb_session. }
  intros c Hc. unfold buildSealSession. destruct (sessionCache c) as [e|]; [|by apply Hi].
  destruct (clock c <? _); [done|by apply Hi].
Qed.

Lemma signed_robust method path body accepted incl deadline :
  keeps I (signedRequest w st sha256 ed_sign ed_public fraction method path body accepted incl deadline).
Proof.
  apply keeps_bind; [apply ensure_robust|]. intros _. apply keeps_bind; [apply keeps_gets|].
  intros now. cbv zeta. apply keeps_bind; [intros c; by apply (rb_emit I HI EUuid)|]. intros nonce.
  apply keeps_bind; [apply keeps_gets|]. intros key. apply keeps_bind.
  { intros c Hc. unfold getPublicKey. destruct (publicKey c); [done|]. by apply (rb_public I HI). }
  intros pk. apply keeps_bind.
  { destruct incl; [|apply keeps_ret]. apply keeps_bind; [apply session_robust|].
    intros b. apply keeps_ret. }
  intros session. apply keeps_bind; [by apply rb_fetch|]. intros [status text].
  destruct (negb _); [apply keeps_throw|apply keeps_of_sum].
Qed.
End Frame.

(** ** Idempotency keys *)
Section Idempotency.
Context (w : world) (st : settings).
Context (sha256 : list ascii → list ascii) (ed_sign : list ascii → list ascii → list ascii)
        (ed_public : list ascii → list ascii) (fraction : Q → string).

Notation rememberAsync := (rememberAsync w st sha256 ed_sign ed_public fraction).

(** Nothing below [rememberAsync] touches the pending keys. *)
Definition pending_is (p : gmap string string) (c : client) : Prop := pendingRememberKeys c = p.

Lemma pending_robust p : robust w (pending_is p).
Proof.
  split; [|done..]. intros r d c Hc. unfold fetch.
  destruct (match d with Some _ => _ | None => _ end).
  all: try (split; [exact Hc|eauto]). destruct (wd_http w _) as [t res].
  destruct (match d with Some _ => _ | None => _ end); [split; [exact Hc|eauto]|].
  destruct res; [split; [exact Hc|eauto]|exact Hc].
Qed.

(** The key an attempt uses: the caller's, the pending one, or a new UUID. *)
Definition attempt_key (given : option string) (identity : string) (c : client) : string :=
  match given with
  | Some k => k
  | None => match pendingRememberKeys c !! identity with
            | Some k => k
            | None => wd_uuid w (trace c ++ [EUuid])
            end
  end.

(** State after the key is chosen. *)
Definition with_key (given : option string) (identity : string) (c : client) : client :=
  match given with
  | Some _ => c
  | None =>
      let c' := match pendingRememberKeys c !! identity with Some _ => c | None => emit EUuid c end in
      set_pending (<[identity := attempt_key None identity c]> (pendingRememberKeys c)) c'
  end.

Lemma choose_key_spec given identity c :
  choose_key w given identity c = (with_key given identity c, inr (attempt_key given identity c)).
Proof.
  unfold choose_key, with_key, attempt_key. destruct given; [done|].
  unfold mbind, st_bind, gets. by destruct (pendingRememberKeys c !! identity).
Qed.

Lemma rememberAsync_unfold text ns given c :
  let identity := requestIdentity (or_ns st ns) text in
  let key := attempt_key given identity c in
  rememberAsync text ns given c =
  (accepted ← signedRequest w st sha256 ed_sign ed_public fraction "POST" "/api/remember"
      (remember_body text (or_ns st ns) key) [200; 202] true None;
   _ ← drop_key given identity; mret accepted) (with_key given identity c).
Proof.
  cbv zeta. unfold SdkClient.rememberAsync. unfold mbind at 1, st_bind at 1. by rewrite choose_key_spec.
Qed.

(** A retried write collapses onto the first one: when [rememberAsync]
    without an explicit key fails, the key it generated stays pending, and
    the next attempt for the same namespace and text - whatever happened to
    the client in between, as long as that entry is there - sends a body with
    the same key; after an acknowledged write the key is gone.  Other pending
    keys are never touched. *)
Theorem remember_idempotent (text : string) (ns : option string) (c : client) :
  let identity := requestIdentity (or_ns st ns) text in
  let key := attempt_key None identity c in
  let out := rememberAsync text ns None c in
  (match out.2 with
   | inl _ => pendingRememberKeys out.1 = <[identity := key]> (pendingRememberKeys c)
   | inr _ => pendingRememberKeys out.1 = delete identity (pendingRememberKeys c)
   end) ∧
  (∀ c2, pendingRememberKeys c2 !! identity = pendingRememberKeys out.1 !! identity →
     is_inl out.2 = true →
     rememberAsync text ns None c2 =
     (accepted ← signedRequest w st sha256 ed_sign ed_public fraction "POST" "/api/remember"
        (remember_body text (or_ns st ns) key) [200; 202] true None;
      _ ← drop_key None identity; mret accepted) (with_key None identity c2)).
Proof.
  cbv zeta. set (identity := requestIdentity (or_ns st ns) text). set (key := attempt_key None identity c).
  pose proof (rememberAsync_unfold text ns None c) as E. cbv zeta in E. fold identity in E. fold key in E.
  pose proof (signed_robust w st sha256 ed_sign ed_public fraction _
    (pending_robust (<[identity := key]> (pendingRememberKeys c))) "POST" "/api/remember"
    (remember_body text (or_ns st ns) key) [200; 202] true None (with_key None identity c) eq_refl) as Hp0.
  set (req := SdkClient.signedRequest w st sha256 ed_sign ed_public fraction "POST" "/api/remember"
    (remember_body text (or_ns st ns) key) [200; 202] true None) in *.
  assert (Eout : rememberAsync text ns None c =
    match req (with_key None identity c) with
    | (c', inl e) => (c', inl e)
    | (c', inr v) => (set_pending (delete identity (pendingRememberKeys c')) c', inr v)
    end).
  { rewrite E. unfold mbind, st_bind. by destruct (req _) as [c' [e|v]]. }
  rewrite Eout. destruct (req (with_key None identity c)) as [c' [e|v]];
    assert (Hp : pendingRememberKeys c' = <[identity := key]> (pendingRememberKeys c))
      by (first [exact (proj1 Hp0)|exact Hp0]); split.
  - exact Hp.
  - intros c2 Hc2 _. cbn [fst] in Hc2. rewrite Hp, lookup_insert_eq in Hc2.
    pose proof (rememberAsync_unfold text ns None c2) as E2. cbv zeta in E2. fold identity in E2.
    rewrite E2. unfold attempt_key at 1. by rewrite Hc2.
  - simpl. rewrite Hp. apply delete_insert_eq.
  - done.
Qed.
End Idempotency.

(** ** A client against a small relayer

    The relayer is compatible, answers [/api/remember] with 503 the first
    time and 202 then; the generated UUIDs count the events. *)
Definition ex_settings : settings := settings_of "0xacc" (Some "https://r/") None.
Definition posts (tr : list event) : nat :=
  length (filter (λ e, match e with EHttp r => seqb (h_method r) "POST" | _ => false end = true) tr).
Definition ex_version : string :=
  q2 "{'apiVersion':'1.0.0','relayerVersion':'2','minSupportedSdk':{'typescript':'0.0.1'}}".
Definition ex_http (tr : list event) : Z * (sdk_error + (Z * string)) :=
  match last tr with
  | Some (EHttp r) =>
      (20, inr (if seqb (h_url r) "https://r/version" then (200, ex_version)
                else if seqb (h_url r) "https://r/config" then
                  (200, q2 "{'packageId':'0x1','network':'testnet','suiRpcUrl':'https://s'}")
                else if (posts tr =? 1)%nat then (503, "busy")
                else (202, q2 "{'job_id':'j1'}")))
  | _ => (0, inl (plain "no request"))
  end.
Definition ex_world : world :=
  World ex_http (λ tr, "uuid-" +:+ pretty (length tr)) (λ _, 0%Q) (λ _, 1) true true true (λ _, None)
    (λ _, inr "session").
Definition ex_sha (l : list ascii) : list ascii := take 2 l.
Definition ex_sign (key msg : list ascii) : list ascii := take 3 msg.
Definition ex_client : client := Client (chars "seed") None None None None ∅ 1700000000000 [].
Definition ex_remember (c : client) : client * (failure + json) :=
  rememberAsync ex_world ex_settings ex_sha ex_sign (λ k, k) (λ _, "0.5") "hello" None None c.
Definition ex_after : client := fst (ex_remember ex_client).

(** The keys of the write requests in a trace. *)
Definition write_keys (tr : list event) : list json :=
  omap (λ e, match e with
             | EHttp r => match h_body r with
                          | Some b => jget "idempotency_key" <$> json_parse b
                          | None => None
                          end
             | _ => None
             end) tr.

Lemma remember_idempotent_witness :
  write_keys (trace (fst (ex_remember ex_after))) = [JStr "uuid-1"; JStr "uuid-1"] ∧
  let identity := requestIdentity (or_ns ex_settings None) "hello" in
  let key := attempt_key ex_world None identity ex_client in
  let out := rememberAsync ex_world ex_settings ex_sha ex_sign (λ k, k) (λ _, "0.5") "hello" None None ex_client in
  match out.2 with
  | inl _ => pendingRememberKeys out.1 = <[identity := key]> (pendingRememberKeys ex_client)
  | inr _ => pendingRememberKeys out.1 = delete identity (pendingRememberKeys ex_client)
  end.
Proof.
  split; [vm_compute; reflexivity|].
  intros identity key out. subst identity key out.
  destruct (remember_idempotent ex_world ex_settings ex_sha ex_sign (λ k, k) (λ _, "0.5")
    "hello" None ex_client) as [H _]. exact H.
Defined.

Lemma signed_request_wire_witness :
  let c := fst (signedRequest ex_world ex_settings ex_sha ex_sign (λ k, k) (λ _, "0.5")
                  "POST" "/api/embed" (JObj [("text", JStr "x")]) [200] false None ex_client) in
  length (trace c) = 3%nat ∧
  ∃ evs sent, trace c = evs ++ sent ∧ Forall (quiet ex_settings) evs.
Proof.
  cbv zeta. split; [vm_compute; reflexivity|].
  destruct (signed_request_wire ex_world ex_settings ex_sha ex_sign (λ k, k) (λ _, "0.5") ex_client
    "POST" "/api/embed" (JObj [("text", JStr "x")]) [200] false None) as (evs & sent & H1 & H2 & _).
  { intros m H. discriminate H. }
  exists evs, sent. split; [exact H1|exact H2].
Defined.

(** The pending-key identity joins namespace and text with a NUL: pairs that
    contain one can share an identity, and so a key. *)
Lemma requestIdentity_collision :
  let nul := String.String (ascii_of_N 0) in
  requestIdentity ("a" +:+ nul "b") "c" = requestIdentity "a" ("b" +:+ nul "c").
Proof. vm_compute. reflexivity. Qed.
