(* ===== verification/SdkJobs.v ===== *)
(** * Waiting for remember jobs

    The polling delays, the termination of the waits and what their results
    say, for [waitForRememberJob] and [waitForRememberJobs] of [SdkClient]. *)
From Stdlib Require Import QArith Qround Lqa Ascii.
From S2P Require Import Prelude JsText JsNumber JsonParse SdkClient SdkWire.
Local Open Scope Z_scope.

(** ** Delays *)
Lemma growth_bounds (k : nat) : (1 <= Qpower (3 # 2) (Z.of_nat (Nat.min k 6)))%Q.
Proof.
  assert (Nat.min k 6 ≤ 6)%nat as Hk by lia. revert Hk. generalize (Nat.min k 6). intros n Hn.
  do 7 (destruct n as [|n]; [vm_compute; discriminate|]). lia.
Qed.

(** Polling delays are sane for every caller-supplied base, attempt and
    random draw: never under 75 ms (no busy loop, whatever the base) and
    never 12.5 s or more. *)
Theorem pollingDelayMs_bounds (baseMs : Q) (attempt : nat) (random : Q) :
  (0 <= random)%Q → (random < 1)%Q → 75 <= pollingDelayMs baseMs attempt random <= 12499.
Proof.
  intros H0 H1. unfold pollingDelayMs.
  set (base := if Qle_bool baseMs 100 then 100%Q else baseMs).
  assert (Hb : (100 <= base)%Q).
  { unfold base. destruct (Qle_bool baseMs 100) eqn:E; [lra|].
    apply Qlt_le_weak, Qnot_le_lt. intros H. apply Qle_bool_iff in H. congruence. }
  pose proof (growth_bounds attempt) as Hg. set (g := Qpower _ _) in *.
  set (grown := (base * g)%Q). assert (Hgr : (100 <= grown)%Q) by (unfold grown; nra).
  set (capped := if Qle_bool grown 10000 then grown else 10000%Q).
  assert (Hc : (100 <= capped)%Q ∧ (capped <= 10000)%Q).
  { unfold capped. destruct (Qle_bool grown 10000) eqn:E; [|lra].
    apply Qle_bool_iff in E. by split. }
  destruct Hc as [Hc1 Hc2].
  set (d := (capped * ((3 # 4) + random * (1 # 2)))%Q).
  assert (Hd : (75 <= d)%Q ∧ (d < 12500)%Q) by (unfold d; split; nra).
  destruct Hd as [Hd1 Hd2]. split.
  - apply (Qfloor_resp_le 75) in Hd1. exact Hd1.
  - assert (Qfloor d < 12500); [|lia]. rewrite Zlt_Qlt. eapply Qle_lt_trans; [apply Qfloor_le|exact Hd2].
Qed.

Lemma pollingDelayMs_bounds_witness :
  pollingDelayMs 1500 0 (1 # 2) = 1500 ∧ 75 <= pollingDelayMs (-3) 9 0 <= 12499.
Proof.
  split; [vm_compute; reflexivity|]. apply (pollingDelayMs_bounds (-3) 9 0); [apply Qle_refl|reflexivity].
Defined.

(** ** The server's answers *)
Section Wait.
Context (w : world) (st : settings).
Context (sha256 : list ascii → list ascii) (ed_sign : list ascii → list ascii → list ascii)
        (ed_public : list ascii → list ascii) (fraction : Q → string).

Notation signedRequest := (signedRequest w st sha256 ed_sign ed_public fraction).
Notation job_request := (job_request w st sha256 ed_sign ed_public fraction).
Notation bulk_request := (getRememberBulkStatus w st sha256 ed_sign ed_public fraction).

(** The last event of [tr] is this request, and [v] is its answer. *)
Definition answered (method path : string) (accepted : list Z) (v : json) (tr : list event) : Prop :=
  ∃ r t status text, last tr = Some (EHttp r) ∧ h_url r = serverUrl st +:+ path ∧ h_method r = method ∧
    wd_http w tr = (t, inr (status, text)) ∧ mem_status status accepted = true ∧ json_parse text = Some v.

Lemma triple_any {S E A} (P : S → Prop) (m : ST S E A) : triple P m (λ _ _, True) (λ _ _, True).
Proof. intros s _. by destruct (m s) as [? []]. Qed.

Lemma triple_any_bind {S E A B} (P : S → Prop) (m : ST S E A) (k : A → ST S E B) Q :
  (∀ a, triple (λ _, True) (k a) Q (λ _ _, True)) → triple P (m ≫= k) Q (λ _ _, True).
Proof. apply triple_bind, triple_any. Qed.

Lemma signed_answered method path body accepted incl deadline :
  triple (λ _, True) (signedRequest method path body accepted incl deadline)
    (λ v c, answered method path accepted v (trace c)) (λ _ _, True).
Proof.
  unfold SdkClient.signedRequest. do 3 (apply triple_any_bind; intros ?).
  do 3 (apply triple_any_bind; intros ?). intros c _. unfold mbind, st_bind, fetch.
  destruct (match deadline with Some d => _ | None => _ end); [done|].
  destruct (wd_http w _) as [t res] eqn:E.
  destruct (match deadline with Some d => _ | None => _ end); [done|].
  destruct res as [e|[status text]]; [done|]. cbn [fst snd].
  destruct (mem_status status accepted) eqn:Em; simpl; [|done].
  unfold parse_body. destruct (json_parse text) as [v|] eqn:Ev; [|done]. simpl.
  eexists _, t, status, text. simpl. rewrite last_snoc. by split_and!.
Qed.

(** ** Time *)
Definition later (t : Z) (c : client) : Prop := t <= clock c.

Context (rand_lo : ∀ tr, (0 <= wd_random w tr)%Q) (rand_hi : ∀ tr, (wd_random w tr < 1)%Q).
Context (lag_ok : ∀ tr, 0 <= wd_lag w tr) (http_ok : ∀ tr, 0 <= fst (wd_http w tr)).

Lemma later_robust t : robust w (later t).
Proof.
  split; [|done..]. intros r d c Hc. unfold fetch, later in *.
  pose proof (http_ok (trace (emit (EHttp r) c))) as Ht.
  destruct d as [d|]; destruct (wd_http w _) as [dt res]; simpl in *.
  - destruct (d <=? clock c) eqn:E1; [split; [exact Hc|eauto]|].
    destruct (d <=? clock c + dt) eqn:E2; bool_to_prop; simpl; [split; [lia|eauto]|].
    destruct res; simpl; [split; [lia|eauto]|lia].
  - destruct res; simpl; [split; [lia|eauto]|lia].
Qed.

Lemma poll_sleep_later t interval attempt :
  triple (later t) (poll_sleep w interval attempt) (λ _, later (t + 75)) (λ _ _, False).
Proof.
  intros c Hc. unfold poll_sleep, mbind, st_bind, math_random, sleep, later in *. simpl.
  set (d := pollingDelayMs _ _ _).
  assert (75 <= d) by (apply pollingDelayMs_bounds; [apply rand_lo|apply rand_hi]).
  match goal with |- context [wd_lag w ?tr] => pose proof (lag_ok tr) end. lia.
Qed.

(** A poll: an answer, nothing, or an error that is not transient. *)
Definition hard (x : sdk_error) : Prop := isTransientPollingStatus (default 0 (se_status x)) = false.

Lemma poll_request_spec I method path body accepted incl :
  robust w I →
  triple I (poll_request (signedRequest method path body accepted incl None))
    (λ r c, I c ∧ ∀ v, r = Some v → answered method path accepted v (trace c))
    (λ e c, ∃ x, e = Thrown x ∧ hard x).
Proof.
  intros HI c Hc. unfold poll_request, catch_js, try_catch, mbind, st_bind.
  pose proof (signed_robust w st sha256 ed_sign ed_public fraction I HI method path body accepted incl None c Hc) as H1.
  pose proof (signed_answered method path body accepted incl None c Logic.I) as H2.
  destruct (signedRequest method path body accepted incl None c) as [c' [e|v]].
  - destruct H1 as [H1 [x ->]]. destruct (isTransientPollingStatus _) eqn:Et; [by split|]. by exists x.
  - split; [exact H1|]. by intros v' [= <-].
Qed.

(** ** One job *)
Definition wait_error (jobId : string) (timeoutMs deadline : Z) (x : sdk_error) (c : client) : Prop :=
  (x = job_timeout jobId timeoutMs ∧ deadline <= clock c) ∨
  (∃ answer, answered "GET" (status_path jobId) [200; 404] answer (trace c) ∧
     job_outcome st jobId answer = inl x) ∨
  hard x.

Definition waited (jobId : string) (timeoutMs deadline : Z) (m : M json) (t : Z) : Prop :=
  triple (later t) m
    (λ v c, ∃ answer, answered "GET" (status_path jobId) [200; 404] answer (trace c) ∧
       job_outcome st jobId answer = inr (Some v))
    (λ e c, ∃ x, e = Thrown x ∧ wait_error jobId timeoutMs deadline x c).

Lemma wait_loop_ok jobId interval timeoutMs deadline fuel : ∀ attempt t,
  deadline <= t + 75 * Z.of_nat fuel →
  waited jobId timeoutMs deadline
    (wait_loop w st sha256 ed_sign ed_public fraction (S fuel) jobId interval timeoutMs deadline attempt) t.
Proof.
  induction fuel as [|fuel IH]; intros attempt t Hf c Hc; unfold later in Hc; cbn [wait_loop];
    unfold mbind at 1, st_bind at 1, gets; destruct (clock c <? deadline) eqn:Ed; bool_to_prop; simpl.
  - lia.
  - eexists. split; [done|]. left. by split.
  - assert (waited jobId timeoutMs deadline (
      _ ← poll_sleep w interval attempt;
      answer ← poll_request (job_request jobId);
      match answer with
      | None => wait_loop w st sha256 ed_sign ed_public fraction (S fuel) jobId interval timeoutMs deadline (S attempt)
      | Some status =>
          outcome ← of_sum (job_outcome st jobId status);
          match outcome with
          | Some result => mret result
          | None => wait_loop w st sha256 ed_sign ed_public fraction (S fuel) jobId interval timeoutMs deadline (S attempt)
          end
      end) t) as Hstep; [|exact (Hstep c Hc)].
    eapply triple_bind; [eapply triple_conseq; [apply poll_sleep_later|done|intros a c' H; exact H|done]|].
    intros []. eapply triple_bind.
    { eapply triple_conseq; [apply poll_request_spec, (later_robust (t + 75))|done|intros a c' H; exact H|].
      intros e c' (x & -> & Hx). exists x. split; [done|]. by right; right. }
    intros [status|].
    + intros c' [Hl Ha]. specialize (Ha status eq_refl). unfold mbind, st_bind.
      destruct (job_outcome st jobId status) as [e|[v|]] eqn:Eo; simpl.
      * exists e. split; [done|]. right; left. by exists status.
      * by exists status.
      * apply (IH (S attempt) (t + 75)); [lia|exact Hl].
    + intros c' [Hl _]. apply (IH (S attempt) (t + 75)); [lia|exact Hl].
  - eexists. split; [done|]. left. by split.
Qed.

Lemma wait_fuel_enough timeoutMs : timeoutMs <= 75 * Z.of_nat (S (Z.to_nat (timeoutMs / 75))).
Proof.
  pose proof (Z.div_mod timeoutMs 75 ltac:(lia)). pose proof (Z.mod_pos_bound timeoutMs 75 ltac:(lia)). lia.
Qed.

(** [waitForRememberJob] always ends, whatever the relayer answers: with
    a result only if the relayer's last answer for this job says it is done,
    built from that answer; otherwise with the 504 of an expired deadline
    (never before the deadline), with the error the last answer stands for
    (unknown or failed job, malformed answer), or with a request error that
    is not a transient one.  Transient errors are never surfaced. *)
Theorem waitForRememberJob_spec (jobId : string) (pollIntervalMs : Q) (timeoutMs : Z) (c : client) :
  match waitForRememberJob w st sha256 ed_sign ed_public fraction jobId pollIntervalMs timeoutMs c with
  | (c', inr v) => ∃ answer, answered "GET" (status_path jobId) [200; 404] answer (trace c') ∧
      job_outcome st jobId answer = inr (Some v)
  | (c', inl e) => ∃ x, e = Thrown x ∧ wait_error jobId timeoutMs (clock c + timeoutMs) x c'
  end.
Proof.
  unfold waitForRememberJob, mbind, st_bind, gets, wait_fuel.
  refine (wait_loop_ok jobId pollIntervalMs timeoutMs _ _ 0 (clock c) _ c (Z.le_refl _)).
  pose proof (wait_fuel_enough timeoutMs). lia.
Qed.

(** ** Bulk waits *)
Definition since (tr : list event) (c : client) : Prop := tr `prefix_of` trace c.

Lemma robust_and I J : robust w I → robust w J → robust w (λ c, I c ∧ J c).
Proof.
  intros HI HJ. split.
  - intros r d c [Hi Hj]. pose proof (rb_fetch w I HI r d c Hi) as H1. pose proof (rb_fetch w J HJ r d c Hj) as H2.
    destruct (fetch w r d c) as [c' [e|a]]; [|done]. destruct H1, H2. by split_and!.
  - intros e c He [Hi Hj]. split; [exact (rb_emit w I HI _ _ He Hi)|exact (rb_emit w J HJ _ _ He Hj)].
  - intros e c [Hi Hj]. split; [exact (rb_session w I HI _ _ Hi)|exact (rb_session w J HJ _ _ Hj)].
  - intros e c [Hi Hj]. split; [exact (rb_config w I HI _ _ Hi)|exact (rb_config w J HJ _ _ Hj)].
  - intros e c [Hi Hj]. split; [exact (rb_metadata w I HI _ _ Hi)|exact (rb_metadata w J HJ _ _ Hj)].
  - intros e c [Hi Hj]. split; [exact (rb_public w I HI _ _ Hi)|exact (rb_public w J HJ _ _ Hj)].
Qed.

Lemma since_robust tr : robust w (since tr).
Proof.
  unfold since. split; [|by intros e c _ Hs; apply prefix_app_r|by intros ? c..].
  intros r d c Hs. assert (Hr : tr `prefix_of` trace c ++ [EHttp r]) by by apply prefix_app_r.
  unfold fetch. destruct d as [d|]; [destruct (d <=? clock c); [split; [exact Hs|eauto]|]|];
    destruct (wd_http w _) as [dt res]; simpl.
  - destruct (d <=? _); [split; [exact Hr|eauto]|]. destruct res; [split; [exact Hr|eauto]|exact Hr].
  - destruct res; [split; [exact Hr|eauto]|exact Hr].
Qed.

Lemma later_since_robust t tr : robust w (λ c, later t c ∧ since tr c).
Proof. apply robust_and; [apply later_robust|apply since_robust]. Qed.

Lemma statusById_sound items : ∀ m k l i, statusById items = inr m → m !! k = Some l → i ∈ l →
  i ∈ items ∧ jget "job_id" i = JStr k.
Proof.
  induction items as [|x items IH]; simpl; intros m k l i Hm Hk Hi.
  - by simplify_eq.
  - destruct (prop "job_id" x) as [e|jid] eqn:Ex; [done|].
    destruct (statusById items) as [e|m'] eqn:Em; [by destruct jid|].
    assert (jget "job_id" x = jid) by (destruct x; naive_solver).
    assert (∀ l, m' !! k = Some l → i ∈ l → i ∈ x :: items ∧ jget "job_id" i = JStr k) as IH'.
    { intros l' Hl' Hi'. destruct (IH m' k l' i eq_refl Hl' Hi'). split; [by right|done]. }
    destruct jid as [| | | |s| |]; simplify_eq; eauto. destruct (decide (s = k)) as [E|E].
    + subst. rewrite lookup_insert_eq in Hk. simplify_eq.
      apply elem_of_cons in Hi as [-> |Hi]; [split; [by left|done]|].
      destruct (m' !! k) as [l'|] eqn:El; [eauto|]. by apply elem_of_nil in Hi.
    + rewrite lookup_insert_ne in Hk by done. eauto.
Qed.

Lemma index_of_lookup x l : x ∈ l → l !! index_of x l = Some x.
Proof.
  induction l as [|y l IH]; intros Hx; [by apply elem_of_nil in Hx|]. simpl.
  destruct (seqb x y) eqn:E; [apply seqb_eq in E; by subst|]. simpl.
  apply elem_of_cons in Hx as [-> |Hx]; [by rewrite seqb_refl in E|]. by apply IH.
Qed.

(** What an answered item says of a result. *)
Definition settled (r : RememberBulkItemResult) (status : json) : Prop :=
  jget "job_id" status = JStr (bi_id r) ∧
  match bi_status r with
  | IDone => is_status (jget "status" status) "done" = true ∧
             bi_blob_id r = coalesce (jget "blob_id" status) (JStr empty_str)
  | IFailed => is_status (jget "status" status) "failed" || is_status (jget "status" status) "not_found" = true
  | ITimeout => False
  end.

(** The relayer reported [status] in an answer to a bulk status request. *)
Definition reported (status : json) (tr : list event) : Prop :=
  ∃ tr0 v items, tr0 `prefix_of` tr ∧ answered "POST" "/api/remember/bulk/status" [200] v tr0 ∧
    batch_items v = inr items ∧ status ∈ items.

(** The invariant of the bulk loop. *)
Record sound_results (jobIds namespaces : list string) (tr : list event) (p : polled) : Prop := {
  sr_ids : bi_id <$> p_results p = jobIds;
  sr_item i r : p_results p !! i = Some r → bi_namespace r = ns_at st namespaces i ∧
    (bi_status r = ITimeout ∨ ∃ status, reported status tr ∧ settled r status);
  sr_pending j : j ∈ p_pending p → j ∈ jobIds;
  sr_open : NoDup jobIds → ∀ i r, p_results p !! i = Some r → (bi_status r = ITimeout ↔ bi_id r ∈ p_pending p);
}.

Lemma job_reported_mono status tr tr' : tr `prefix_of` tr' → reported status tr → reported status tr'.
Proof. intros Hp (tr0 & v & items & H0 & H1). exists tr0, v, items. split; [by trans tr|done]. Qed.

Lemma sound_mono jobIds namespaces tr tr' p :
  tr `prefix_of` tr' → sound_results jobIds namespaces tr p → sound_results jobIds namespaces tr' p.
Proof.
  intros Hp [H1 H2 H3 H4]. split; [done| |done|done]. intros i r Hr. destruct (H2 i r Hr) as [Hn Hs].
  split; [done|]. destruct Hs as [Hs|(status & Ha & Hb)]; [by left|]. right. exists status.
  split; [by apply (job_reported_mono _ tr)|done].
Qed.

Lemma initial_sound jobIds namespaces timeoutMs tr :
  sound_results jobIds namespaces tr
    (Polled (initial_results st jobIds namespaces timeoutMs) (list_to_set jobIds)).
Proof.
  unfold initial_results. split; simpl.
  - rewrite fmap_imap. induction jobIds as [|j l IH] using rev_ind; [done|].
    rewrite imap_app, IH. done.
  - intros i r Hr. apply list_lookup_imap_Some in Hr as (j & Hj & ->). simpl. split; [done|by left].
  - intros j. by rewrite elem_of_list_to_set.
  - intros _ i r Hr. apply list_lookup_imap_Some in Hr as (j & Hj & ->). simpl.
    rewrite elem_of_list_to_set. split; [|done]. intros _. by eapply list_elem_of_lookup_2.
Qed.

(** Recording a terminal item. *)
Lemma record_sound jobIds namespaces tr p jobId r status :
  sound_results jobIds namespaces tr p → jobId ∈ jobIds → reported status tr → settled r status →
  bi_id r = jobId → bi_namespace r = ns_at st namespaces (index_of jobId jobIds) →
  sound_results jobIds namespaces tr
    (Polled (<[index_of jobId jobIds := r]> (p_results p)) (p_pending p ∖ {[jobId]})).
Proof.
  intros [H1 H2 H3 H4] Hj Hr Hs Hid Hns. pose proof (index_of_lookup jobId jobIds Hj) as Hix.
  split; simpl.
  - rewrite list_fmap_insert, H1, Hid. by apply list_insert_id.
  - intros i r' Hi. apply list_lookup_insert_Some in Hi as [(<- & <- & _)|[_ Hi]]; [|by apply H2].
    split; [done|]. right. by exists status.
  - intros j Hj'. apply H3. set_solver.
  - intros Hnd i r' Hi. apply list_lookup_insert_Some in Hi as [(<- & <- & _)|[Hne Hi]].
    + rewrite Hid. destruct Hs as [_ Hs]. destruct (bi_status r); set_solver.
    + rewrite (H4 Hnd i r' Hi), elem_of_difference, not_elem_of_singleton. split; [|naive_solver].
      intros Hp. split; [done|]. intros Heq. apply Hne.
      apply (NoDup_lookup jobIds _ _ jobId Hnd Hix). rewrite <-H1, list_lookup_fmap, Hi. simpl. by f_equal.
Qed.

Lemma apply_status_sound jobIds namespaces tr jobId status p :
  sound_results jobIds namespaces tr p → jobId ∈ jobIds → reported status tr →
  jget "job_id" status = JStr jobId →
  sound_results jobIds namespaces tr (apply_status st jobIds namespaces jobId status p).
Proof.
  intros Hp Hj Hr Hid. unfold apply_status. destruct (is_status _ "done") eqn:Ed.
  - by apply (record_sound _ _ _ _ _ _ status).
  - destruct (_ || _) eqn:Ef; [|done]. by apply (record_sound _ _ _ _ _ _ status).
Qed.

Lemma apply_batch_sound jobIds namespaces tr ids : ∀ m p,
  (∀ k l i, m !! k = Some l → i ∈ l → reported i tr ∧ jget "job_id" i = JStr k) →
  (∀ j, j ∈ ids → j ∈ jobIds) → sound_results jobIds namespaces tr p →
  sound_results jobIds namespaces tr (apply_batch st jobIds namespaces ids m p).
Proof.
  induction ids as [|j ids IH]; intros m p Hm Hids Hp; [done|]. simpl.
  assert (∀ j, j ∈ ids → j ∈ jobIds) by (intros k Hk; apply Hids; by right).
  destruct (m !! j) as [[|status bucket]|] eqn:Ej; [by apply IH| |by apply IH].
  destruct (Hm j (status :: bucket) status Ej) as [Hr Hid]; [by left|].
  apply IH; [|done|apply apply_status_sound; [done|apply Hids; by left|done|done]].
  intros k l i Hk Hi. destruct (decide (j = k)) as [->|Hne].
  - rewrite lookup_insert_eq in Hk. simplify_eq. apply (Hm k (status :: l)); [done|by right].
  - rewrite lookup_insert_ne in Hk by done. by apply (Hm k l).
Qed.

Section BulkLoop.
Context (jobIds namespaces : list string) (interval : Q) (deadline : Z).

Definition bulk_state (t : Z) (p : polled) (c : client) : Prop :=
  later t c ∧ sound_results jobIds namespaces (trace c) p.
Definition bulk_finished (p : polled) (c : client) : Prop :=
  sound_results jobIds namespaces (trace c) p ∧ (p_pending p = ∅ ∨ deadline <= clock c).
Definition bulk_error (e : failure) (c : client) : Prop := ∃ x, e = Thrown x ∧ (hard x ∨ x = type_error).

Lemma prop_error k v e : prop k v = inl e → e = type_error.
Proof. destruct v; simpl; congruence. Qed.
Lemma batch_items_error v e : batch_items v = inl e → e = type_error.
Proof.
  unfold batch_items. destruct (prop "results" v) eqn:E; [intros [= <-]; by eapply prop_error|].
  by case_match; intros; simplify_eq.
Qed.
Lemma statusById_error items e : statusById items = inl e → e = type_error.
Proof.
  induction items as [|x items IH]; simpl; [done|]. destruct (prop "job_id" x) as [e'|jid] eqn:E.
  - intros [= <-]. by eapply prop_error.
  - destruct (statusById items); [|by destruct jid]. intros H. apply IH. by destruct jid; simplify_eq.
Qed.

Lemma poll_ids_nonempty p tr : sound_results jobIds namespaces tr p → p_pending p ≠ ∅ →
  filter (λ j, j ∈ p_pending p) jobIds ≠ [].
Proof.
  intros Hp Hne E. apply set_choose_L in Hne as [j Hj].
  assert (j ∈ filter (λ j, j ∈ p_pending p) jobIds) as H by (apply list_elem_of_filter; split; [done|by apply (sr_pending _ _ _ _ Hp)]).
  rewrite E in H. by apply elem_of_nil in H.
Qed.

(** One request of the loop. *)
Lemma bulk_poll t ids p :
  triple (bulk_state t p) (poll_request (bulk_request ids))
    (λ r c, bulk_state t p c ∧ ∀ v, r = Some v → answered "POST" "/api/remember/bulk/status" [200] v (trace c))
    bulk_error.
Proof.
  intros c [Hl Hp]. pose proof (poll_request_spec _ "POST" "/api/remember/bulk/status"
    (JObj [("job_ids", JArr (map JStr ids))]) [200] true (later_since_robust t (trace c)) c) as H.
  unfold getRememberBulkStatus. destruct (poll_request _ c) as [c' [e|r]].
  - destruct H as (x & -> & Hx); [by split; [|exists []; rewrite app_nil_r]|]. exists x. by split; [|left].
  - destruct H as [[Hl' Hs] Ha]; [by split; [|exists []; rewrite app_nil_r]|].
    split; [|done]. split; [done|]. by apply (sound_mono _ _ (trace c)).
Qed.

Notation bulk_loop := (bulk_loop w st sha256 ed_sign ed_public fraction).

Lemma bulk_loop_S fuel attempt p :
  bulk_loop (S fuel) jobIds namespaces interval deadline attempt p =
  (now ← gets clock;
   if bool_decide (p_pending p = ∅) || negb (now <? deadline) then mret p
   else
     _ ← poll_sleep w interval attempt;
     let ids := filter (λ j, j ∈ p_pending p) jobIds in
     match ids with
     | [] => mret p
     | _ =>
         answer ← poll_request (bulk_request ids);
         match answer with
         | None => bulk_loop fuel jobIds namespaces interval deadline (S attempt) p
         | Some batch =>
             items ← of_sum (batch_items batch);
             m ← of_sum (statusById items);
             bulk_loop fuel jobIds namespaces interval deadline (S attempt)
               (apply_batch st jobIds namespaces ids m p)
         end
     end).
Proof. reflexivity. Qed.

Lemma bulk_loop_ok fuel : ∀ attempt t p, deadline <= t + 75 * Z.of_nat fuel →
  triple (bulk_state t p)
    (bulk_loop (S fuel) jobIds namespaces interval deadline attempt p)
    bulk_finished bulk_error.
Proof.
  induction fuel as [|fuel IH]; intros attempt t p Hf c [Hc Hp]; pose proof Hc as Hc'; unfold later in Hc';
    rewrite bulk_loop_S; unfold mbind at 1, st_bind at 1, gets;
    destruct (bool_decide (p_pending p = ∅) || negb (clock c <? deadline)) eqn:Ed.
  1, 3: split; [exact Hp|]; apply orb_true_iff in Ed as [Ed|Ed]; bool_to_prop; [by left|by right].
  - apply orb_false_iff in Ed as [_ Ed]. bool_to_prop. lia.
  - apply orb_false_iff in Ed as [Ed _]. bool_to_prop.
    pose proof (poll_ids_nonempty p _ Hp Ed) as Hne.
    set (ids := filter (λ j, j ∈ p_pending p) jobIds) in *.
    assert (∀ j, j ∈ ids → j ∈ jobIds) as Hids by (intros j Hj; by apply list_elem_of_filter in Hj as [_ Hj]).
    pose proof (poll_sleep_later t interval attempt c Hc) as Hsl.
    unfold mbind at 1, st_bind at 1.
    assert (trace c `prefix_of` trace (fst (poll_sleep w interval attempt c))) as Htr.
    { unfold poll_sleep, mbind, st_bind, math_random, sleep. simpl. rewrite <-app_assoc. by apply prefix_app_r. }
    destruct (poll_sleep w interval attempt c) as [c1 [e|[]]]; [done|]. simpl in Htr.
    assert (bulk_state (t + 75) p c1) as Hc1 by (split; [done|by apply (sound_mono _ _ (trace c))]).
    destruct ids as [|j0 ids']; [done|]. revert c1 Hsl Htr Hc1. intros c1 _ _ Hc1.
    generalize dependent (j0 :: ids'). intros ids _ Hids. cbn [negb].
    pose proof (bulk_poll (t + 75) ids p c1 Hc1) as Hpoll. unfold mbind at 1, st_bind at 1.
    destruct (poll_request _ c1) as [c2 [e|[batch|]]]; [exact Hpoll| |].
    + destruct Hpoll as [[Hl2 Hp2] Ha]. specialize (Ha batch eq_refl).
      unfold mbind, st_bind. destruct (batch_items batch) as [e|items] eqn:Eb.
      { exists e. split; [done|]. right. by eapply batch_items_error. }
      simpl. destruct (statusById items) as [e|m] eqn:Em.
      { exists e. split; [done|]. right. by eapply statusById_error. }
      simpl. apply (IH (S attempt) (t + 75)); [lia|]. split; [done|].
      apply apply_batch_sound; [|done|done]. intros k l i Hk Hi.
      destruct (statusById_sound items m k l i Em Hk Hi) as [Hin Hid]. split; [|done].
      exists (trace c2), batch, items. by split_and!.
    + destruct Hpoll as [Hc2 _]. apply (IH (S attempt) (t + 75)); [lia|exact Hc2].
Qed.
End BulkLoop.

(** [waitForRememberJobs] always ends, and its report is aligned and
    true: one result per requested id, in order, with its namespace; the
    counts add up; every result that is not a timeout is one the relayer
    reported for that id; and when the ids are distinct a result says
    "timeout" only if the deadline has really passed. *)
Theorem waitForRememberJobs_spec (jobIds namespaces : list string) (pollIntervalMs : Q) (timeoutMs : Z)
    (c : client) :
  match waitForRememberJobs w st sha256 ed_sign ed_public fraction jobIds namespaces pollIntervalMs timeoutMs c with
  | (c', inl e) => ∃ x, e = Thrown x ∧ (hard x ∨ x = type_error)
  | (c', inr r) =>
      bi_id <$> br_results r = jobIds ∧ br_total r = length jobIds ∧
      (br_succeeded r + br_failed r = br_total r)%nat ∧
      br_succeeded r = length (filter (λ x, bi_status x = IDone) (br_results r)) ∧
      (∀ i x, br_results r !! i = Some x → bi_namespace x = ns_at st namespaces i ∧
         (bi_status x = ITimeout ∨ ∃ status, reported status (trace c') ∧ settled x status)) ∧
      (NoDup jobIds → clock c' < clock c + timeoutMs → ∀ x, x ∈ br_results r → bi_status x ≠ ITimeout)
  end.
Proof.
  unfold waitForRememberJobs, mbind, st_bind, gets, wait_fuel.
  set (p0 := Polled _ _).
  assert (bulk_state jobIds namespaces (clock c) p0 c) as H0 by (split; [unfold later; lia|apply initial_sound]).
  pose proof (bulk_loop_ok jobIds namespaces pollIntervalMs (clock c + timeoutMs)
    (S (Z.to_nat (timeoutMs / 75))) 0 (clock c) p0 ltac:(pose proof (wait_fuel_enough timeoutMs); lia) c H0) as Hl.
  destruct (bulk_loop _ _ _ _ _ _ _ _ _ _ _ _ _ c) as [c' [e|p]]; [exact Hl|].
  destruct Hl as [[H1 H2 H3 H4] Hfin]. simpl.
  set (done_l := filter _ _).
  assert (done_l = filter (λ x, bi_status x = IDone) (p_results p)) as Hdone.
  { apply list_filter_iff. intros x. unfold is_done. apply bool_decide_eq_true. }
  assert (length done_l ≤ length (p_results p))%nat by (apply length_filter).
  split_and!; [done|by rewrite <-H1, length_fmap|lia|by rewrite Hdone|exact H2|].
  intros Hnd Hclk x Hx Ht. apply list_elem_of_lookup in Hx as [i Hi].
  apply (H4 Hnd i x Hi) in Ht. destruct Hfin as [E|]; [rewrite E in Ht; set_solver|lia].
Qed.
End Wait.

(** ** A relayer whose jobs need two polls *)
Definition jobs_http (tr : list event) : Z * (sdk_error + (Z * string)) :=
  match last tr with
  | Some (EHttp r) =>
      (20, inr (if seqb (h_url r) "https://r/version" then (200, ex_version)
                else if seqb (h_url r) "https://r/config" then
                  (200, q2 "{'packageId':'0x1','network':'testnet','suiRpcUrl':'https://s'}")
                else if seqb (h_method r) "GET" then
                  (200, if (length tr <? 14)%nat then q2 "{'job_id':'j1','status':'running'}"
                        else q2 "{'job_id':'j1','status':'done','blob_id':'b1','owner':'o'}")
                else if (posts tr =? 1)%nat then (503, "busy")
                else (200, q2 "{'results':[{'job_id':'j1','status':'done','blob_id':'b1'},{'job_id':'j1','status':'done','blob_id':'b2'},{'job_id':'j2','status':'failed'}]}")))
  | _ => (0, inl (plain "no request"))
  end.
Definition jobs_world : world :=
  World jobs_http (λ tr, "uuid-" +:+ pretty (length tr)) (λ _, 1 # 2) (λ _, 1) true true true (λ _, None)
    (λ _, inr "session").

Lemma jobs_world_ok :
  (∀ tr, (0 <= wd_random jobs_world tr)%Q) ∧ (∀ tr, (wd_random jobs_world tr < 1)%Q) ∧
  (∀ tr, 0 <= wd_lag jobs_world tr) ∧ (∀ tr, 0 <= fst (wd_http jobs_world tr)).
Proof.
  split_and!; intros tr; [discriminate|reflexivity|discriminate|].
  simpl. unfold jobs_http. destruct (last tr) as [[]|]; simpl; lia.
Qed.

Definition ex_wait (timeoutMs : Z) : client * (failure + json) :=
  waitForRememberJob jobs_world ex_settings ex_sha ex_sign (λ k, k) (λ _, "0.5") "j1" 1500 timeoutMs ex_client.

Lemma waitForRememberJob_spec_witness :
  (∃ v, snd (ex_wait 60000) = inr v ∧ jget "blob_id" v = JStr "b1") ∧
  snd (ex_wait 100) = inl (Thrown (job_timeout "j1" 100)) ∧
  match ex_wait 60000 with
  | (c', inr v) => ∃ answer, answered jobs_world ex_settings "GET" (status_path "j1") [200; 404] answer (trace c') ∧
      job_outcome ex_settings "j1" answer = inr (Some v)
  | (c', inl e) => ∃ x, e = Thrown x ∧
      wait_error jobs_world ex_settings "j1" 60000 (clock ex_client + 60000) x c'
  end.
Proof.
  destruct jobs_world_ok as (H1 & H2 & H3 & H4).
  split; [eexists; vm_compute; split; reflexivity|]. split; [vm_compute; reflexivity|].
  exact (waitForRememberJob_spec jobs_world ex_settings ex_sha ex_sign (λ k, k) (λ _, "0.5") H1 H2 H3 H4
    "j1" 1500 60000 ex_client).
Defined.

Definition ex_bulk_wait (ids : list string) : client * (failure + RememberBulkResult) :=
  waitForRememberJobs jobs_world ex_settings ex_sha ex_sign (λ k, k) (λ _, "0.5") ids [] 1500 60000 ex_client.

Lemma waitForRememberJobs_spec_witness :
  (match snd (ex_bulk_wait ["j1"; "j2"]) with
   | inr r => (bi_status <$> br_results r) = [IDone; IFailed] ∧ br_succeeded r = 1%nat
   | inl _ => False
   end) ∧
  match ex_bulk_wait ["j1"; "j2"] with
  | (c', inr r) => bi_id <$> br_results r = ["j1"; "j2"] ∧ br_total r = 2%nat
  | (c', inl e) => ∃ x, e = Thrown x
  end.
Proof.
  destruct jobs_world_ok as (H1 & H2 & H3 & H4). split; [vm_compute; split; reflexivity|].
  pose proof (waitForRememberJobs_spec jobs_world ex_settings ex_sha ex_sign (λ k, k) (λ _, "0.5") H1 H2 H3 H4
    ["j1"; "j2"] [] 1500 60000 ex_client) as H.
  unfold ex_bulk_wait. destruct (waitForRememberJobs _ _ _ _ _ _ _ _ _ _ _) as [c' [e|r]].
  - destruct H as (x & Hx & _). exists x. exact Hx.
  - destruct H as (Ha & Hb & _). split; [exact Ha|exact Hb].
Defined.

(** With a repeated id only the first result is ever filled in: the second
    stays a timeout although the relayer answered both copies and the wait
    ended long before its deadline. *)
Lemma duplicate_id_stays_timeout :
  match ex_bulk_wait ["j1"; "j1"] with
  | (c', inr r) => (bi_status <$> br_results r) = [IDone; ITimeout] ∧ (clock c' <? clock ex_client + 10000) = true
  | _ => False
  end.
Proof. vm_compute. split; reflexivity. Qed.
