(* ===== verification/Wallet.v ===== *)
(** * The wallet interface of the routes (sidecar/wallet.ts)

    What the upload and metadata routes rely on when they hand a transaction
    to the wallet functions, as a class, and its implementation by [Enoki]. *)
From Stdlib Require Import QArith.
From S2P Require Import Prelude JsText Retry.
From S2P Require Enoki.
From S2P Require Import EnokiSafety.
Local Open Scope Z_scope.

Class Wallet : Type := {
  submitWallet : string → list string → Enoki.EnokiFallbackPolicy → Enoki.M json;
  submitRebuildable : string → list string → Enoki.EnokiFallbackPolicy → Enoki.M json;
}.

(** A submission only adds to the trace, and nothing it adds can take effect
    before it has called [onSubmissionStarted]. *)
Definition discreet (m : Enoki.M json) : Prop :=
  ∀ s, ∃ new, Enoki.trace (fst (m s)) = Enoki.trace s ++ new ∧ marked new.
Definition ends (m : Enoki.M json) : Prop := ∀ s, snd (m s) ≠ inl Enoki.OutOfFuel.

Class WalletLaws `{Wallet} : Prop := {
  submit_discreet signer allowed policy : discreet (submitWallet signer allowed policy);
  submit_ends signer allowed policy : ends (submitWallet signer allowed policy);
  rebuildable_discreet signer allowed policy : discreet (submitRebuildable signer allowed policy);
  submit_plain signer allowed policy : plainly (submitWallet signer allowed policy);
  rebuildable_ends signer allowed policy : ends (submitRebuildable signer allowed policy);
  rebuildable_plain signer allowed policy : plainly (submitRebuildable signer allowed policy);
}.

Section EnokiWallet.
Context (w : Enoki.world) (date_parse : string → option Z).
Context (ENOKI_API_KEY : option string) (MAX_ATTEMPTS : nat) (BASE_DELAY MAX_DELAY : Z).
Context (ENOKI_NETWORK : string) (timeout_reason abort_error : js_error).
Context (base64 from_base64 : string → string).
Context (INVALIDATED_MAX_ATTEMPTS : nat) (INVALIDATED_BASE_DELAY INVALIDATED_MAX_DELAY : Z).
Context (Hduration : ∀ tr, 0 <= (Enoki.w_fetch w tr).1) (Hdelay : 0 <= MAX_DELAY).
Context (Hmax : (1 <= MAX_ATTEMPTS)%nat) (Hinv : (1 <= INVALIDATED_MAX_ATTEMPTS)%nat).

#[export] Instance enoki_wallet : Wallet := {|
  submitWallet sender := Enoki.submitWalletTransaction w date_parse ENOKI_API_KEY MAX_ATTEMPTS BASE_DELAY
    MAX_DELAY ENOKI_NETWORK timeout_reason abort_error sender base64 from_base64;
  submitRebuildable sender := Enoki.submitRebuildableWalletTransaction w date_parse ENOKI_API_KEY MAX_ATTEMPTS
    BASE_DELAY MAX_DELAY ENOKI_NETWORK timeout_reason abort_error sender base64 from_base64
    INVALIDATED_MAX_ATTEMPTS INVALIDATED_BASE_DELAY INVALIDATED_MAX_DELAY;
|}.

Context (Hreasons : e_class timeout_reason = PlainError ∧ e_class abort_error = PlainError).
Context (Hconstruct : ∀ tr e, Enoki.w_construct w tr = Some e → e_class e = PlainError).
Context (Hbuild : ∀ tr e, Enoki.w_build w tr = inl e → e_class e = PlainError).
Context (Hfetch : ∀ tr d e, Enoki.w_fetch w tr = (d, Enoki.Transport e) → e_class e = PlainError).
Context (Hsign : ∀ tr e, Enoki.w_sign w tr = inl e → e_class e = PlainError).
Context (Hexecute : ∀ tr e, Enoki.w_execute w tr = inl e → e_class e = PlainError).

#[export] Instance enoki_wallet_laws : WalletLaws (H := enoki_wallet).
Proof.
  split; intros signer allowed policy s; unfold submitWallet, submitRebuildable, enoki_wallet.
  - exact (submit_marked _ _ _ _ _ _ _ _ _ _ _ _ allowed policy s).
  - exact (spends_total _ _ s (spends_submit _ _ _ _ _ _ _ _ _ _ _ _ Hduration Hdelay Hmax allowed policy)).
  - exact (submit_rebuildable_marked _ _ _ _ _ _ _ _ _ _ _ _ _ _ _ allowed policy s).
  - exact (pl_submit _ _ _ _ _ _ _ _ _ _ _ _ Hreasons Hbuild Hfetch Hsign Hexecute allowed policy s).
  - exact (spends_total _ _ s (spends_rebuild _ _ _ _ _ _ _ _ _ _ _ _ _ _ _ Hduration Hdelay Hmax
      _ 1 allowed policy Hinv eq_refl)).
  - exact (pl_rebuild _ _ _ _ _ _ _ _ _ _ _ _ _ _ _ Hreasons Hconstruct Hbuild Hfetch Hsign Hexecute
      _ 1%nat allowed policy s).
Qed.
End EnokiWallet.
