(* ===== verification/Service.v ===== *)
(** * The effects of the sidecar's routes

    A route handler runs against the Sui chain, the Walrus client and its
    own wallets.  Each external call is an event; the outside answers it as a
    function of the events so far.  [withRpcRetry] and the wallet functions of
    [Enoki] run inside the same state.

    When the chain does not change during a request, a handler that only
    reads computes a function of the chain: [reads] relates the effectful
    definition to that function, and composes. *)
From Stdlib Require Import QArith.
From S2P Require Import Prelude JsText JsNumber JsonParse SealId Retry.
From S2P Require Enoki.
Local Open Scope Z_scope.

(** ** Events *)

(** A command of the metadata and transfer transaction. *)
Inductive ptb_command : Type :=
| MetadataPair (blobObjectId key value : string)
| FenceCall (c : move_call)
| TransferObjects (blobObjectIds : list string) (recipient : string).

Inductive sevent : Type :=
| SGetObject (objectId : string)                    (** [client.getObject] *)
| SListOwned (owner objectType : string) (cursor : json)
| SDynamicField (objectId : string)                 (** the metadata field, BCS-decoded *)
| SCreationVersion (objectId : string)              (** archival GraphQL query *)
| SArchivalTransaction (digest : string)
| SSystemState                                      (** Walrus [systemState()] *)
| SBlobStatus (blobId : string)                     (** [getVerifiedBlobStatus] *)
| SComputeBlob (data : string)                      (** [computeBlobMetadata] *)
| SServiceInfo                                      (** chain id and Walrus blob type *)
| SCurrentEpoch                                     (** Sui [getCurrentSystemState] *)
| SGetTransaction (digest : string)
| SExecute (transactionBytes signature : string)
| SWait (digest : string)                           (** [waitForTransaction] *)
| SFlow (data : string) (resume : json)             (** [writeBlobFlow] *)
| SEncode
| SRegister (attributes : list (string * string)) (epochs : Z)
| SBuild                                            (** build and sign, address-balance gas *)
| SUpload (digest : string) (deletable : option bool)
| SCertify (blobId blobObjectId certificate : string)  (** [certifyBlobTransaction], handed to the wallet *)
| SCertifyFlow                                      (** [flow.certify()], handed to the wallet *)
| SRegisterFlow                                     (** the register transaction, handed to the wallet *)
| STransfer (commands : list ptb_command)           (** metadata and transfer, handed to the wallet *)
| SGetBlob
| STipAddress                                       (** [getUploadRelayTipAddress] *)
| SBalance (address : string)
| SSystemVersion
| SRefreshClient (reason : string)
| SAcquireSlots (slot : Z)
| SReleaseSlots
| SSealEncrypt (threshold : Z) (packageId id data : string)
| SImportSession (exported : json)                  (** [SessionKey.import] *)
| SCreateSession (address packageId : string) (ttlMin : Z)
| SBuildKind (calls : list move_call)               (** [tx.build], transaction kind only *)
| SFetchKeys (ids : list string) (txBytes session : json) (threshold : Z)
| SSealDecrypt (data : string) (session txBytes : json)
| SProvenanceChain                                  (** archival GraphQL: its chain identifier *)
| SWalletBalances (addresses : list string)         (** [getWalletBalanceSnapshot] *)
| SFaultDelay (jobId : string)                      (** [delayInjectedResponseOnce] *)
| SSleep (ms : Z)
| SWallet (e : Enoki.event).

Record service : Type := Service {
  sv_answer : list sevent → js_error + json;
  sv_elapsed : list sevent → Z;                     (** time a call takes *)
  sv_random : list sevent → Q;
}.

(** ** State

    [s_started], [s_can]: the handler's [submissionStarted] and
    [phaseCanSubmitSideEffect]; the caches are those of the modules. *)
Record sstate : Type := SState {
  s_trace : list sevent;
  s_clock : Z;
  s_wallet : Enoki.state;
  s_started : bool;
  s_can : bool;
  s_phase : string;
  s_epochCache : option (Z * Z);
  s_identityCache : option (string * string * Z);
  s_provenance : list (string * string);            (** oldest first *)
}.
Definition s_emit (e : sevent) (s : sstate) : sstate :=
  SState (s_trace s ++ [e]) (s_clock s) (s_wallet s) (s_started s) (s_can s) (s_phase s)
         (s_epochCache s) (s_identityCache s) (s_provenance s).
Definition s_set_clock (t : Z) (s : sstate) : sstate :=
  SState (s_trace s) t (s_wallet s) (s_started s) (s_can s) (s_phase s)
         (s_epochCache s) (s_identityCache s) (s_provenance s).
Definition s_set_started (b : bool) (s : sstate) : sstate :=
  SState (s_trace s) (s_clock s) (s_wallet s) b (s_can s) (s_phase s)
         (s_epochCache s) (s_identityCache s) (s_provenance s).
Definition s_set_can (b : bool) (s : sstate) : sstate :=
  SState (s_trace s) (s_clock s) (s_wallet s) (s_started s) b (s_phase s)
         (s_epochCache s) (s_identityCache s) (s_provenance s).
Definition s_set_phase (p : string) (s : sstate) : sstate :=
  SState (s_trace s) (s_clock s) (s_wallet s) (s_started s) (s_can s) p
         (s_epochCache s) (s_identityCache s) (s_provenance s).
Definition s_set_epoch (c : option (Z * Z)) (s : sstate) : sstate :=
  SState (s_trace s) (s_clock s) (s_wallet s) (s_started s) (s_can s) (s_phase s)
         c (s_identityCache s) (s_provenance s).
Definition s_set_identity (c : option (string * string * Z)) (s : sstate) : sstate :=
  SState (s_trace s) (s_clock s) (s_wallet s) (s_started s) (s_can s) (s_phase s)
         (s_epochCache s) c (s_provenance s).
Definition s_set_provenance (c : list (string * string)) (s : sstate) : sstate :=
  SState (s_trace s) (s_clock s) (s_wallet s) (s_started s) (s_can s) (s_phase s)
         (s_epochCache s) (s_identityCache s) c.

Definition SM : Type → Type := ST sstate Enoki.failure.
Definition s_throw {A} (e : js_error) : SM A := throw (Enoki.Thrown e).
Definition s_of_sum {A} (r : js_error + A) : SM A :=
  match r with inl e => s_throw e | inr a => mret a end.
Definition s_catch {A} (m : SM A) (h : js_error → SM A) : SM A :=
  try_catch m (λ f, match f with Enoki.Thrown e => h e | Enoki.OutOfFuel => throw Enoki.OutOfFuel end).

(** [phase = p] *)
Definition phase_is (p : string) : SM unit := modify (s_set_phase p).

(** A caught value as the [error] field of an answer. *)
Record response : Type := Resp { r_status : Z; r_body : json }.
Definition ok (body : json) : response := Resp 200 body.
Definition refuse (status : Z) (error : string) : response := Resp status (JObj [("error", JStr error)]).

(** Sequential [for (const x of l)] and the results of [mapConcurrent]. *)
Fixpoint map_m {A B} (f : A → SM B) (l : list A) : SM (list B) :=
  match l with
  | [] => mret []
  | x :: l' => y ← f x; ys ← map_m f l'; mret (y :: ys)
  end.
Fixpoint map_sum {E A B} (f : A → E + B) (l : list A) : E + list B :=
  match l with
  | [] => inr []
  | x :: l' => match f x with
               | inl e => inl e
               | inr y => match map_sum f l' with inl e => inl e | inr ys => inr (y :: ys) end
               end
  end.

Section Service.
Context (sv : service).

Definition call (ev : sevent) : SM json := λ s,
  let s1 := s_emit ev s in
  let s2 := s_set_clock (s_clock s1 + sv_elapsed sv (s_trace s1)) s1 in
  match sv_answer sv (s_trace s1) with
  | inl e => (s2, inl (Enoki.Thrown e))
  | inr v => (s2, inr v)
  end.

Definition s_sleep (ms : Z) : SM unit :=
  modify (λ s, s_set_clock (s_clock s + ms) (s_emit (SSleep ms) s)).

(** [withRpcRetry] around an effectful [fn]. *)
Fixpoint rpc_retry_from {A} (left attempt : nat) (fn : SM A) : SM A :=
  match left with
  | O => s_throw (plain_error "undefined")
  | S left' =>
      s_catch fn (λ err,
        if negb (isRetryableRpcError err) || (left' =? 0)%nat then s_throw err
        else
          tr ← gets s_trace;
          _ ← s_sleep (rpc_delay (λ _, sv_random sv tr) attempt);
          rpc_retry_from left' (S attempt) fn)
  end.
Definition rpc_retry {A} (maxRetries : nat) (fn : SM A) : SM A := rpc_retry_from maxRetries 0 fn.

(** A wallet function, with [track]: [onSubmissionStarted] sets
    [submissionStarted]. *)
Definition is_started (e : Enoki.event) : bool := match e with Enoki.EStarted => true | _ => false end.
Definition wallet {A} (track : bool) (m : Enoki.M A) : SM A := λ s,
  let '(ws, r) := m (s_wallet s) in
  let new := drop (length (Enoki.trace (s_wallet s))) (Enoki.trace ws) in
  (SState (s_trace s ++ map SWallet new) (s_clock s) ws
     (s_started s || (track && existsb is_started new)) (s_can s) (s_phase s)
     (s_epochCache s) (s_identityCache s) (s_provenance s), r).
End Service.

(** ** Reading a chain that does not change *)
Section Reads.
Context (sv : service) (chain : sevent → js_error + json) (I : sstate → Prop).

(** [m] computes [p] from every state of [I], and stays in [I]. *)
Definition lift {A} (p : js_error + A) : Enoki.failure + A :=
  match p with inl e => inl (Enoki.Thrown e) | inr a => inr a end.
Definition reads {A} (m : SM A) (p : js_error + A) : Prop :=
  ∀ s, I s → I (fst (m s)) ∧ snd (m s) = lift p.

Definition sum_bind {A B} (p : js_error + A) (q : A → js_error + B) : js_error + B :=
  match p with inl e => inl e | inr a => q a end.

Lemma reads_ret {A} (a : A) : reads (mret a) (inr a).
Proof. by intros s Hs. Qed.
Lemma reads_throw {A} e : reads (s_throw e : SM A) (inl e).
Proof. by intros s Hs. Qed.
Lemma reads_of_sum {A} (p : js_error + A) : reads (s_of_sum p) p.
Proof. by destruct p; intros s Hs. Qed.
Lemma reads_gets {A} (f : sstate → A) a : (∀ s, I s → f s = a) → reads (gets f) (inr a).
Proof. intros Hf s Hs. simpl. by rewrite Hf. Qed.
Lemma reads_bind {A B} (m : SM A) (k : A → SM B) p q :
  reads m p → (∀ a, p = inr a → reads (k a) (q a)) → reads (m ≫= k) (sum_bind p q).
Proof.
  intros Hm Hk s Hs. destruct (Hm s Hs) as [H1 H2]. unfold mbind, st_bind.
  destruct (m s) as [s' [f|a]], p as [e|a']; simpl in *; simplify_eq; [done|]. by apply Hk.
Qed.
Lemma reads_catch {A} (m : SM A) h p q :
  reads m p → (∀ e, p = inl e → reads (h e) (q e)) →
  reads (s_catch m h) (match p with inl e => q e | inr a => inr a end).
Proof.
  intros Hm Hh s Hs. destruct (Hm s Hs) as [H1 H2]. unfold s_catch, try_catch.
  destruct (m s) as [s' [f|a]], p as [e|a']; simpl in *; simplify_eq; [|done]. by apply Hh.
Qed.
Lemma reads_map {A B} (f : A → SM B) (g : A → js_error + B) l :
  (∀ x, reads (f x) (g x)) → reads (map_m f l) (map_sum g l).
Proof.
  intros Hf. induction l as [|x l IH]; [apply reads_ret|]. simpl.
  change (match g x with inl e => inl e | inr y => match map_sum g l with inl e => inl e | inr ys => inr (y :: ys) end end)
    with (sum_bind (g x) (λ y, sum_bind (map_sum g l) (λ ys, inr (y :: ys)))).
  apply reads_bind; [apply Hf|]. intros y _. apply reads_bind; [done|]. intros ys _. apply reads_ret.
Qed.

Context (stable : ∀ tr ev, sv_answer sv (tr ++ [ev]) = chain ev).
Context (I_emit : ∀ e s, I s → I (s_emit e s)) (I_clock : ∀ t s, I s → I (s_set_clock t s)).

Lemma reads_call ev : reads (call sv ev) (chain ev).
Proof.
  intros s Hs. unfold call. simpl. rewrite stable.
  destruct (chain ev); (split; [by apply I_clock, I_emit|done]).
Qed.

Lemma reads_retry_from {A} (m : SM A) p left attempt :
  reads m p → reads (rpc_retry_from sv (S left) attempt m) p.
Proof.
  intros Hm. revert attempt. induction left as [|left IH]; intros attempt.
  all: cbn [rpc_retry_from]; intros s Hs; destruct (Hm s Hs) as [H1 H2]; unfold s_catch, try_catch;
    destruct (m s) as [s' [f|a]], p as [e|a']; simpl in *; simplify_eq; try done.
  - by rewrite orb_true_r.
  - rewrite orb_false_r. destruct (negb (isRetryableRpcError e)); [done|].
    unfold mbind, st_bind, gets, s_sleep, modify. apply IH. by apply I_clock, I_emit.
Qed.

(** A persistent answer is what the retries end with. *)
Lemma reads_retry {A} (m : SM A) p n : reads m p → reads (rpc_retry sv (S n) m) p.
Proof. apply reads_retry_from. Qed.
End Reads.

(** [if (!b) return res...]: an early answer. *)
Notation "'require' b 'else' r ; k" := (if b : bool then k else mret r)
  (at level 20, b at level 100, r at level 100, k at level 200, right associativity, only parsing).

(** A body that holds the upload slots until it ends. *)
Definition with_slots {A} (m : SM A) : SM A := finally m (s_emit SReleaseSlots).
