(* ===== verification/Base64.v ===== *)
(** * Base64 as [Buffer] reads and writes it

    [Buffer.from(s, "base64")] accepts both alphabets, skips foreign
    characters and stops at the first [=]; [toString("base64")] pads,
    [toString("base64url")] does not. *)
From Stdlib Require Import Ascii.
From S2P Require Import Prelude JsText.
Local Open Scope N_scope.

Definition std_digit (n : N) : ascii :=
  ascii_of_N (if n <? 26 then 65 + n else if n <? 52 then 71 + n else if n <? 62 then n - 4
              else if n =? 62 then 43 else 47).
Definition url_digit (n : N) : ascii :=
  ascii_of_N (if n <? 26 then 65 + n else if n <? 52 then 71 + n else if n <? 62 then n - 4
              else if n =? 62 then 45 else 95).
Definition sextet (c : ascii) : option N :=
  if in_range 65 90 c then Some (code c - 65)
  else if in_range 97 122 c then Some (code c - 71)
  else if is_digit c then Some (code c + 4)
  else if is_char 43 c || is_char 45 c then Some 62
  else if is_char 47 c || is_char 95 c then Some 63
  else None.

Section Encode.
Context (digit : N → ascii) (pad : bool).
Definition padding (n : nat) : list ascii := if pad then replicate n "="%char else [].
Fixpoint encode (l : list ascii) : list ascii :=
  match l with
  | a :: b :: c :: l' =>
      let '(x, y, z) := (code a, code b, code c) in
      digit (x / 4) :: digit ((x mod 4) * 16 + y / 16) :: digit ((y mod 16) * 4 + z / 64) ::
      digit (z mod 64) :: encode l'
  | [a; b] =>
      let '(x, y) := (code a, code b) in
      digit (x / 4) :: digit ((x mod 4) * 16 + y / 16) :: digit ((y mod 16) * 4) :: padding 1
  | [a] => digit (code a / 4) :: digit ((code a mod 4) * 16) :: padding 2
  | [] => []
  end.
End Encode.

(** [toString("base64")] and [toString("base64url")] *)
Definition to_base64 (l : list ascii) : string := of_chars (encode std_digit true l).
Definition to_base64url (l : list ascii) : string := of_chars (encode url_digit false l).

(** The sextets of a text: up to the first [=], foreign characters skipped. *)
Fixpoint sextets (l : list ascii) : list N :=
  match l with
  | [] => []
  | c :: l' => if is_char 61 c then []
               else match sextet c with Some n => n :: sextets l' | None => sextets l' end
  end.
Fixpoint decode (l : list N) : list ascii :=
  match l with
  | a :: b :: c :: d :: l' =>
      ascii_of_N (a * 4 + b / 16) :: ascii_of_N ((b mod 16) * 16 + c / 4) ::
      ascii_of_N ((c mod 4) * 64 + d) :: decode l'
  | [a; b; c] => [ascii_of_N (a * 4 + b / 16); ascii_of_N ((b mod 16) * 16 + c / 4)]
  | [a; b] => [ascii_of_N (a * 4 + b / 16)]
  | _ => []
  end.
(** [Buffer.from(s, "base64")] *)
Definition from_base64 (s : string) : list ascii := decode (sextets (chars s)).

(** ** Round trip *)
Definition below (n : nat) : list N := N.of_nat <$> seq 0 n.
Lemma in_below n x : x < N.of_nat n → x ∈ below n.
Proof.
  intros Hx. apply list_elem_of_fmap. exists (N.to_nat x). split; [lia|]. apply elem_of_seq. lia.
Qed.
Lemma sextet_digit n : n < 64 →
  sextet (std_digit n) = Some n ∧ is_char 61 (std_digit n) = false ∧
  sextet (url_digit n) = Some n ∧ is_char 61 (url_digit n) = false.
Proof.
  intros Hn. apply (in_below 64) in Hn. revert n Hn. apply Forall_forall.
  repeat (apply Forall_cons; split; [vm_compute; auto|]). by apply Forall_nil.
Qed.

Lemma code_bound a : code a < 256.
Proof. unfold code. apply Ascii.N_ascii_bounded. Qed.
Lemma ascii_code a : ascii_of_N (code a) = a.
Proof. apply Ascii.ascii_N_embedding. Qed.

Lemma mod_join a b n : b < n → (a * n + b) mod n = b.
Proof. intros Hb. rewrite N.add_comm, N.Div0.mod_add. by apply N.mod_small. Qed.
Lemma div_join a b n : b < n → (a * n + b) / n = a.
Proof. intros Hb. rewrite N.add_comm, N.div_add by lia. rewrite N.div_small by done. lia. Qed.
Lemma div_mod_join x n : n ≠ 0 → x / n * n + x mod n = x.
Proof. intros Hn. pose proof (N.div_mod x n Hn). lia. Qed.
Lemma div_below x m n : m ≠ 0 → x < m * n → x / m < n.
Proof. intros Hm Hx. apply N.Div0.div_lt_upper_bound. lia. Qed.

Lemma join_high x y : y < 256 → (x / 4) * 4 + ((x mod 4) * 16 + y / 16) / 16 = x.
Proof. intros Hy. rewrite div_join by (apply div_below; lia). by apply div_mod_join. Qed.
Lemma join_middle x y z : y < 256 → z < 256 →
  (((x mod 4) * 16 + y / 16) mod 16) * 16 + ((y mod 16) * 4 + z / 64) / 4 = y.
Proof.
  intros Hy Hz. rewrite mod_join by (apply div_below; lia). rewrite div_join by (apply div_below; lia).
  by apply div_mod_join.
Qed.
Lemma join_low y z : z < 256 → (((y mod 16) * 4 + z / 64) mod 4) * 64 + z mod 64 = z.
Proof. intros Hz. rewrite mod_join by (apply div_below; lia). by apply div_mod_join. Qed.

Section RoundTrip.
Context (digit : N → ascii) (pad : bool).
Context (digit_ok : ∀ n, n < 64 → sextet (digit n) = Some n ∧ is_char 61 (digit n) = false).

Lemma sextets_digit n l : n < 64 → sextets (digit n :: l) = n :: sextets l.
Proof. intros Hn. destruct (digit_ok n Hn) as [H1 H2]. simpl. by rewrite H2, H1. Qed.
Lemma sextets_padding n : sextets (padding pad n) = [].
Proof. unfold padding. destruct pad, n; done. Qed.

Lemma decode_encode l : decode (sextets (encode digit pad l)) = l.
Proof.
  enough (∀ n l, (length l ≤ n)%nat → decode (sextets (encode digit pad l)) = l) as H by by apply (H (length l)).
  clear l. intros n. induction n as [|n IH]; intros l Hl; [by destruct l; simpl in *; [|lia]|].
  assert (Hq : ∀ c, code c / 4 < 64) by (intros c; pose proof (code_bound c); apply N.Div0.div_lt_upper_bound; lia).
  assert (Hm : ∀ x c, (x mod 4) * 16 + code c / 16 < 64).
  { intros x c. pose proof (code_bound c). pose proof (N.mod_lt x 4 ltac:(done)).
    assert (code c / 16 < 16) by (apply N.Div0.div_lt_upper_bound; lia). lia. }
  assert (Hl' : ∀ x c, (x mod 16) * 4 + code c / 64 < 64).
  { intros x c. pose proof (code_bound c). pose proof (N.mod_lt x 16 ltac:(done)).
    assert (code c / 64 < 4) by (apply N.Div0.div_lt_upper_bound; lia). lia. }
  destruct l as [|a [|b [|c l]]]; [done| | |].
  - cbn [encode]. rewrite !sextets_digit, sextets_padding.
    + cbn [decode]. f_equal. rewrite <-(ascii_code a) at 3. f_equal.
      pose proof (join_high (code a) 0 ltac:(done)) as H. by rewrite N.add_0_r in H.
    + pose proof (N.mod_lt (code a) 4 ltac:(done)). lia.
    + apply Hq.
  - cbn [encode]. rewrite !sextets_digit, sextets_padding; [|..].
    + cbn [decode]. rewrite join_high by apply code_bound.
      pose proof (join_middle (code a) (code b) 0 (code_bound b) ltac:(done)) as H. rewrite N.add_0_r in H.
      by rewrite H, !ascii_code.
    + pose proof (N.mod_lt (code b) 16 ltac:(done)). lia.
    + apply Hm.
    + apply Hq.
  - cbn [encode]. rewrite !sextets_digit; [|by apply N.mod_lt|apply Hl'|apply Hm|apply Hq].
    cbn [decode]. rewrite join_high, join_middle, join_low by apply code_bound.
    rewrite !ascii_code, IH; [done|]. simpl in Hl. lia.
Qed.
End RoundTrip.

(** Decoding inverts both encodings. *)
Lemma from_to_base64 l : from_base64 (to_base64 l) = l.
Proof.
  unfold from_base64, to_base64. rewrite chars_of_chars. apply decode_encode.
  intros n Hn. by destruct (sextet_digit n Hn) as (? & ? & _).
Qed.
Lemma from_to_base64url l : from_base64 (to_base64url l) = l.
Proof.
  unfold from_base64, to_base64url. rewrite chars_of_chars. apply decode_encode.
  intros n Hn. by destruct (sextet_digit n Hn) as (_ & _ & ? & ?).
Qed.
Lemma to_base64url_inj l1 l2 : to_base64url l1 = to_base64url l2 → l1 = l2.
Proof. intros H. by rewrite <-(from_to_base64url l1), H, from_to_base64url. Qed.
