(* ===== verification/Util.v ===== *)
(** * Small helpers of the sidecar (sidecar/util.ts)

    Key slots, address lists, and [mapConcurrent]: a pool of workers that
    share an index, as a step relation between await points. *)
From Stdlib Require Import QArith Ascii.
From S2P Require Import Prelude JsText JsNumber JsonParse.
Local Open Scope Z_scope.

(** [parseWalrusKeySlot]; [Number.parseInt] of a digit string, if safe *)
Definition parseWalrusKeySlot (value : json) : option Z :=
  match value with
  | JNum _ => match as_safe_int value with Some z => if 0 <=? z then Some z else None | None => None end
  | JStr s =>
      if sforallb is_digit s && negb (is_empty s) then
        let parsed := digits_value 0 (chars s) in if parsed <=? 2 ^ 53 - 1 then Some parsed else None
      else None
  | _ => None
  end.

(** [[...new Set(addresses.filter(nonempty string))]] *)
Fixpoint dedupe (seen : list string) (l : list string) : list string :=
  match l with
  | [] => []
  | a :: l' => if existsb (seqb a) seen then dedupe seen l' else a :: dedupe (seen ++ [a]) l'
  end.
Definition dedupeAddresses (addresses : list (option string)) : list string :=
  dedupe [] (filter (λ a, a ≠ empty_str) (omap (λ a, a) addresses)).

Definition shortAddress (address : json) : option string :=
  match address with
  | JStr a => Some (if (slen a <=? 18)%nat then a
                    else take_s 10 a +:+ "..." +:+ drop_s (slen a - 6) a)
  | _ => None
  end.

(** ** [mapConcurrent] *)
Section MapConcurrent.
Context {A B E : Type} (items : list A) (concurrency : nat) (fn : A → E + B).

Inductive worker : Type :=
| Idle                      (** about to take the next index *)
| Running (i : nat)         (** awaiting [fn(items[i])] *)
| Finished
| Rejected (e : E).

Record pool : Type := Pool {
  next : nat;                         (** the shared [index] *)
  results : gmap nat B;
  workers : gmap nat worker;
  rejection : option E;               (** what [Promise.all] rejects with *)
  calls : list nat;                   (** indices [fn] was called on, in order *)
}.

Definition start : pool :=
  Pool 0 ∅ (gset_to_gmap Idle (set_seq 0 (Nat.min concurrency (length items)))) None [].

Inductive pool_step : pool → pool → Prop :=
| step_take p w :
    workers p !! w = Some Idle → (next p < length items)%nat →
    pool_step p (Pool (S (next p)) (results p) (<[w := Running (next p)]> (workers p)) (rejection p)
                   (calls p ++ [next p]))
| step_stop p w :
    workers p !! w = Some Idle → (length items <= next p)%nat →
    pool_step p (Pool (S (next p)) (results p) (<[w := Finished]> (workers p)) (rejection p) (calls p))
| step_resolve p w i a b :
    workers p !! w = Some (Running i) → items !! i = Some a → fn a = inr b →
    pool_step p (Pool (next p) (<[i := b]> (results p)) (<[w := Idle]> (workers p)) (rejection p) (calls p))
| step_reject p w i a e :
    workers p !! w = Some (Running i) → items !! i = Some a → fn a = inl e →
    pool_step p (Pool (next p) (results p) (<[w := Rejected e]> (workers p))
                   (match rejection p with Some e' => Some e' | None => Some e end) (calls p)).

Definition reached : pool → Prop := rtc pool_step start.
Definition resolved (p : pool) : Prop := ∀ w s, workers p !! w = Some s → s = Finished.
Definition is_running (s : worker) : bool := match s with Running _ => true | _ => false end.

(** Every index below [next] is running, recorded with [fn]'s own result, or
    rejected; a rejected worker is the only one that loses its index. *)
Record pool_inv (p : pool) : Prop := {
  pi_calls : calls p = seq 0 (Nat.min (next p) (length items));
  pi_result i b : results p !! i = Some b → ∃ a, items !! i = Some a ∧ fn a = inr b;
  pi_running w i : workers p !! w = Some (Running i) → (i < Nat.min (next p) (length items))%nat;
  pi_once w w' i : workers p !! w = Some (Running i) → workers p !! w' = Some (Running i) → w = w';
  pi_covered i : (i < Nat.min (next p) (length items))%nat → rejection p = None →
    is_Some (results p !! i) ∨ ∃ w, workers p !! w = Some (Running i);
  pi_rejected w e : workers p !! w = Some (Rejected e) → is_Some (rejection p);
  pi_blamed e : rejection p = Some e → ∃ a, a ∈ items ∧ fn a = inl e;
  pi_workers : dom (workers p) = set_seq 0 (Nat.min concurrency (length items));
  pi_finished w : workers p !! w = Some Finished → (length items <= next p)%nat;
}.

Lemma pool_start_inv : pool_inv start.
Proof.
  assert (Hw : ∀ w s, workers start !! w = Some s → s = Idle).
  { intros w s Hw. simpl in Hw. by apply lookup_gset_to_gmap_Some in Hw as [_ <-]. }
  split; simpl; try done; try (intros; by match goal with H : _ |- _ => apply Hw in H end).
  - intros i Hi. lia.
  - by rewrite dom_gset_to_gmap.
Qed.

Lemma worker_step_inv p p' : pool_inv p → pool_step p p' → pool_inv p'.
Proof.
  intros [H1 H2 H3 H4 H5 H6 H7 H8 H9] Hst.
  assert (Hdom : ∀ w s s', workers p !! w = Some s → dom (<[w := s']> (workers p)) = dom (workers p)).
  { intros w s s' Hw. rewrite dom_insert_L. apply elem_of_dom_2 in Hw. set_solver. }
  destruct Hst as [p w Hw Hn|p w Hw Hn|p w i a b Hw Ha Hf|p w i a e Hw Ha Hf]; split;
    cbn [next results workers rejection calls];
    try (by rewrite (Hdom _ _ _ Hw)).
  - rewrite H1. replace (Nat.min (S (next p)) (length items)) with (S (Nat.min (next p) (length items))) by lia.
    rewrite seq_S. simpl. do 2 f_equal. lia.
  - done.
  - intros w' i. destruct (decide (w = w')) as [->|Hne].
    + rewrite lookup_insert_eq. intros [= <-]. lia.
    + rewrite lookup_insert_ne by done. intros Hr. apply H3 in Hr. lia.
  - intros w1 w2 i. rewrite !lookup_insert_Some. intros [[E1 Q1]|[_ Hr1]] [[E2 Q2]|[_ Hr2]]; [congruence| | |by eapply H4].
    + apply H3 in Hr2. injection Q1 as <-. lia.
    + apply H3 in Hr1. injection Q2 as <-. lia.
  - intros i Hi Hrej. destruct (decide (i = next p)) as [->|Hne].
    { right. exists w. apply lookup_insert_eq. }
    destruct (H5 i ltac:(lia) Hrej) as [Hr|[w' Hr]]; [by left|right]. exists w'.
    rewrite lookup_insert_ne; [done|]. intros ->. congruence.
  - intros w' e. rewrite lookup_insert_Some. intros [[_ Hq]|[_ Hq]]; [done|by apply H6 in Hq].
  - done.
  - intros w'. rewrite lookup_insert_Some. intros [[_ Hq]|[_ Hq]]; [done|apply H9 in Hq; lia].
  - by replace (Nat.min (S (next p)) (length items)) with (Nat.min (next p) (length items)) by lia.
  - done.
  - intros w' i. rewrite lookup_insert_Some. intros [[_ Hq]|[_ Hq]]; [done|apply H3 in Hq; lia].
  - intros w1 w2 i. rewrite !lookup_insert_Some. intros [[_ Hq]|[_ Hr1]] [[_ Hq']|[_ Hr2]]; try done. by eapply H4.
  - intros i Hi Hrej. destruct (H5 i ltac:(lia) Hrej) as [Hr|[w' Hr]]; [by left|right]. exists w'.
    rewrite lookup_insert_ne; [done|]. intros ->. congruence.
  - intros w' e. rewrite lookup_insert_Some. intros [[_ Hq]|[_ Hq]]; [done|by apply H6 in Hq].
  - done.
  - intros w'. rewrite lookup_insert_Some. intros [[_ Hq]|[_ Hq]]; lia.
  - done.
  - intros j b'. rewrite lookup_insert_Some. intros [[<- <-]|[_ Hq]]; [by exists a|by apply H2].
  - intros w' j. rewrite lookup_insert_Some. intros [[_ Hq]|[_ Hq]]; [done|by eapply H3].
  - intros w1 w2 j. rewrite !lookup_insert_Some. intros [[_ Hq]|[_ Hr1]] [[_ Hq']|[_ Hr2]]; try done. by eapply H4.
  - intros j Hj Hrej. destruct (decide (i = j)) as [->|Hne]; [left; by rewrite lookup_insert_eq|].
    rewrite lookup_insert_ne by done. destruct (H5 j Hj Hrej) as [Hr|[w' Hr]]; [by left|right]. exists w'.
    rewrite lookup_insert_ne; [done|]. intros ->. congruence.
  - intros w' e. rewrite lookup_insert_Some. intros [[_ Hq]|[_ Hq]]; [done|by apply H6 in Hq].
  - done.
  - intros w'. rewrite lookup_insert_Some. intros [[_ Hq]|[_ Hq]]; [done|by apply H9 in Hq].
  - done.
  - done.
  - intros w' j. rewrite lookup_insert_Some. intros [[_ Hq]|[_ Hq]]; [done|by eapply H3].
  - intros w1 w2 j. rewrite !lookup_insert_Some. intros [[_ Hq]|[_ Hr1]] [[_ Hq']|[_ Hr2]]; try done. by eapply H4.
  - intros j Hj. by destruct (rejection p).
  - intros w' e'. by destruct (rejection p).
  - intros e' Hrej. destruct (rejection p) eqn:Er; [by apply H7|]. simplify_eq. exists a.
    split; [by eapply list_elem_of_lookup_2|done].
  - intros w'. rewrite lookup_insert_Some. intros [[_ Hq]|[_ Hq]]; [done|by apply H9 in Hq].
Qed.

Lemma reached_inv p : reached p → pool_inv p.
Proof. revert p. apply (rtc_ind_r pool_inv); [apply pool_start_inv|]. intros p1 p2 _ Hst Hp. by eapply worker_step_inv. Qed.

Lemma running_bound p : pool_inv p → (count is_running (workers p) <= Nat.min concurrency (length items))%nat.
Proof.
  intros Hp. unfold count. etransitivity; [apply map_subseteq_size, map_filter_subseteq|].
  rewrite <-size_dom, (pi_workers p Hp), size_set_seq. done.
Qed.

(** A rejected worker stays, so the pool never resolves after a rejection. *)
Lemma rejected_stuck p : reached p → resolved p → ∀ e, rejection p = Some e → False.
Proof.
  intros Hr Hres e He.
  assert (Hk : ∀ q, reached q → is_Some (rejection q) → ∃ w e, workers q !! w = Some (Rejected e)).
  { apply (rtc_ind_r (λ q, is_Some (rejection q) → ∃ w e, workers q !! w = Some (Rejected e))); [by intros []|].
    intros q1 q2 _ Hst IH. destruct Hst as [q w Hw Hn|q w Hw Hn|q w i a b Hw Ha Hf|q w i a e1 Hw Ha Hf]; simpl; intros Hs.
    all: try (destruct (IH Hs) as (w' & e' & Hw'); exists w', e'; rewrite lookup_insert_ne; [done|];
              intros ->; congruence).
    exists w, e1. apply lookup_insert_eq. }
  destruct (Hk p Hr) as (w & e' & Hw); [by rewrite He|]. by apply Hres in Hw.
Qed.

(** All workers finished: all items were called, and the results are in place. *)
Lemma completed_map p : (0 < concurrency)%nat → reached p → resolved p →
  calls p = seq 0 (length items) ∧ ∀ i a, items !! i = Some a → ∃ b, fn a = inr b ∧ results p !! i = Some b.
Proof.
  intros Hc Hr Hres. apply reached_inv in Hr as Hp.
  assert (Hn : (length items <= next p)%nat).
  { destruct (decide (length items = 0)%nat) as [->|Hne]; [lia|].
    assert (Hw : is_Some (workers p !! 0%nat)) by (apply elem_of_dom; rewrite (pi_workers p Hp); apply elem_of_set_seq; lia).
    destruct Hw as [s Hw]. pose proof (Hres _ _ Hw) as ->. by eapply pi_finished. }
  assert (Hno : ∀ w i, workers p !! w ≠ Some (Running i)) by (intros w i Hw; by apply Hres in Hw).
  split; [rewrite (pi_calls p Hp); f_equal; lia|].
  intros i a Ha. pose proof (lookup_lt_Some _ _ _ Ha) as Hi.
  destruct (rejection p) as [e|] eqn:Erej.
  - exfalso. by eapply rejected_stuck.
  - destruct (pi_covered p Hp i ltac:(lia) Erej) as [[b Hb]|[w Hw]]; [|by apply Hno in Hw].
    exists b. split; [|done]. destruct (pi_result p Hp i b Hb) as (a' & Ha' & Hf). congruence.
Qed.

(** ** The pool ends *)
Definition is_active (s : worker) : bool := match s with Idle | Running _ => true | _ => false end.
Definition ended (p : pool) : Prop := ∀ w s, workers p !! w = Some s → is_active s = false.
(** Steps that remain at most: two for each item not taken, one for each idle
    worker, two for each running one. *)
Definition steps_left (p : pool) : nat :=
  2 * (length items - next p) + count is_active (workers p) + count is_running (workers p).
Lemma step_decreases p p' : pool_step p p' → (steps_left p' < steps_left p)%nat.
Proof.
  intros Hst. unfold steps_left.
  destruct Hst as [p w Hw Hn|p w Hw Hn|p w i a b Hw Ha Hf|p w i a e Hw Ha Hf]; cbn [next workers];
    match goal with |- context[<[w := ?s]> _] =>
      pose proof (count_update is_active _ w _ s Hw); pose proof (count_update is_running _ w _ s Hw) end; simpl in *; lia.
Qed.
Lemma run_bounded n p p' : nsteps pool_step n p p' → (n + steps_left p' <= steps_left p)%nat.
Proof. induction 1 as [|n p p1 p' Hst _ IH]; [lia|]. apply step_decreases in Hst. lia. Qed.
Lemma steps_start : (steps_left start <= 2 * length items + concurrency)%nat.
Proof.
  unfold steps_left. cbn [next workers start].
  rewrite (count_0 is_running) by (intros w s [_ <-]%lookup_gset_to_gmap_Some; done).
  assert (Hc : (count is_active (gset_to_gmap Idle (set_seq 0 (Nat.min concurrency (length items)))) <= concurrency)%nat); [|lia].
  unfold count. etransitivity; [apply map_subseteq_size, map_filter_subseteq|].
  rewrite <-size_dom, dom_gset_to_gmap, size_set_seq. lia.
Qed.
(** A worker that has not ended can take its next step. *)
Lemma worker_progress p w s : pool_inv p → workers p !! w = Some s → is_active s = true → ∃ p', pool_step p p'.
Proof.
  intros Hp Hw Hs. destruct s as [|i| |e]; try done.
  - destruct (decide (next p < length items)%nat); eexists; [by apply (step_take p w)|apply (step_stop p w); [done|lia]].
  - pose proof (pi_running p Hp w i Hw) as Hi. destruct (lookup_lt_is_Some_2 items i) as [a Ha]; [lia|].
    destruct (fn a) as [e|b] eqn:Ef; eexists; [by eapply (step_reject p w i)|by eapply (step_resolve p w i)].
Qed.
Lemma progress p : pool_inv p → (∃ p', pool_step p p') ∨ ended p.
Proof.
  intros Hp. destruct (decide (map_Forall (λ _ s, is_active s = false) (workers p))) as [He|Hn]; [by right|left].
  apply map_not_Forall in Hn as (w & s & Hw & Hs); [|apply _]. apply not_false_iff_true in Hs. by eapply worker_progress.
Qed.
(** What [Promise.all] rejects with never changes. *)
Lemma rejection_kept p p' e : rtc pool_step p p' → rejection p = Some e → rejection p' = Some e.
Proof.
  induction 1 as [|p p1 p' Hst _ IH]; [done|]. intros He. apply IH. destruct Hst; simpl in *; try done. by rewrite He.
Qed.
(** Without a rejection the workers that have ended are finished. *)
Lemma ended_resolved p : reached p → ended p → rejection p = None → resolved p.
Proof.
  intros Hr He Hn w s Hw. pose proof (He w s Hw) as Hs. destruct s; try done.
  destruct (pi_rejected p (reached_inv p Hr) w e Hw). congruence.
Qed.

(** C39: [mapConcurrent] is a bounded, order-preserving map that ends, when
    every call of [fn] settles.  In every interleaving at most [concurrency]
    calls are in flight and no item is called twice or out of turn; no run is
    longer than two steps for an item and one for a worker, and a pool whose
    workers have not all ended can step on.  When all have ended, either
    [fn] failed on an item and the pool rejects with that error, the first
    one, or every item was called and [results] has the result of each item
    in its place; if [fn] fails on no item, it is the latter. *)
Theorem mapConcurrent_correct (n : nat) (p : pool) :
  (0 < concurrency)%nat → nsteps pool_step n start p →
  (count is_running (workers p) <= concurrency)%nat ∧
  calls p = seq 0 (Nat.min (next p) (length items)) ∧
  (n <= 2 * length items + concurrency)%nat ∧
  ((∃ p', pool_step p p') ∨ ended p) ∧
  (∀ e, rejection p = Some e → (∃ a, a ∈ items ∧ fn a = inl e) ∧ ∀ p', rtc pool_step p p' → rejection p' = Some e) ∧
  (ended p → rejection p = None → calls p = seq 0 (length items) ∧
     ∀ i a, items !! i = Some a → ∃ b, fn a = inr b ∧ results p !! i = Some b) ∧
  ((∀ a, a ∈ items → is_inl (fn a) = false) → rejection p = None).
Proof.
  intros Hc Hn. assert (Hr : reached p) by (apply rtc_nsteps; by exists n).
  apply reached_inv in Hr as Hp. pose proof (running_bound p Hp). pose proof (run_bounded _ _ _ Hn). pose proof steps_start.
  split_and!; [lia|apply Hp|lia|by apply progress| | |].
  - intros e He. split; [by apply (pi_blamed p Hp)|]. intros p' Hp'. by eapply rejection_kept.
  - intros He Hno. apply completed_map; try done. by apply ended_resolved.
  - intros Hok. destruct (rejection p) as [e|] eqn:Erej; [|done]. destruct (pi_blamed p Hp e Erej) as (a & Ha & Hf).
    apply Hok in Ha. by rewrite Hf in Ha.
Qed.
End MapConcurrent.

(** Two workers on two items; the second call returns first. *)
Definition ex_items : list nat := [5; 7]%nat.
Definition ex_double (n : nat) : Empty_set + nat := inr (2 * n)%nat.
Lemma ex_run : ∃ p, nsteps (pool_step (B := nat) ex_items ex_double) 6 (start ex_items 4) p ∧ ended p ∧
  results p !! 0%nat = Some 10%nat ∧ results p !! 1%nat = Some 14%nat.
Proof.
  eexists. split; [|split].
  - eapply nsteps_l; [eapply (step_take ex_items ex_double _ 0); [vm_compute; reflexivity|simpl; lia]|].
    eapply nsteps_l; [eapply (step_take ex_items ex_double _ 1); [vm_compute; reflexivity|simpl; lia]|].
    eapply nsteps_l; [eapply (step_resolve ex_items ex_double _ 1); vm_compute; reflexivity|].
    eapply nsteps_l; [eapply (step_resolve ex_items ex_double _ 0); vm_compute; reflexivity|].
    eapply nsteps_l; [eapply (step_stop ex_items ex_double _ 0); [vm_compute; reflexivity|simpl; lia]|].
    eapply nsteps_l; [eapply (step_stop ex_items ex_double _ 1); [vm_compute; reflexivity|simpl; lia]|].
    apply nsteps_O.
  - intros w s. simpl. rewrite lookup_insert_Some. intros [[_ <-]|[Hn Hw]]; [done|].
    rewrite lookup_insert_Some in Hw. destruct Hw as [[_ <-]|[Hn' Hw]]; [done|].
    rewrite !lookup_insert_ne in Hw by done. apply lookup_gset_to_gmap_Some in Hw as [Hw _].
    clear -Hw Hn Hn'. set_solver.
  - split; vm_compute; reflexivity.
Qed.

Lemma mapConcurrent_correct_witness : ∃ p, nsteps (pool_step (B := nat) ex_items ex_double) 6 (start ex_items 4) p ∧ ended p ∧
  (6 <= 8)%nat ∧ calls p = [0; 1]%nat ∧ ∃ b, results p !! 1%nat = Some b.
Proof.
  destruct ex_run as (p & Hr & He & _). exists p.
  destruct (mapConcurrent_correct ex_items 4 ex_double 6 p ltac:(lia) Hr) as (_ & _ & Hn & _ & _ & H & Hok).
  destruct (H He) as [Hc Hb]; [apply Hok; intros a _; reflexivity|].
  split; [exact Hr|]. split; [exact He|]. split; [exact Hn|]. split; [exact Hc|].
  destruct (Hb 1%nat 7%nat eq_refl) as (b & _ & Hb'). exists b. exact Hb'.
Defined.
