(* ===== verification/Blob.v ===== *)
(** * Walrus blob objects (sidecar/routes/walrus-query.ts, sidecar/log.ts)

    Blob ids and owners as the chain reports them, listing of owned blobs,
    creation provenance with its cache, lookup by remember job, completion
    audits, and the handlers of [/walrus/query-blobs], [/walrus/verify-blob]
    and [/walrus/find-blob-by-job].

    [blobIdFromInt] (@mysten/walrus) and the BCS parsing of the metadata
    field (@mysten/sui) are the operations of the class [WalrusSdk]. *)
From Stdlib Require Import QArith Qround Ascii.
From S2P Require Import Prelude JsText JsNumber JsonParse Hex Base64 SealId Retry Service.
From S2P Require Enoki.
Local Open Scope Z_scope.

Class WalrusSdk : Type := {
  blobIdFromInt : string → js_error + string;
  parse_metadata : json → js_error + list (string * string);
}.

(** [sanitizeRequestId]: trimmed, then [/^[A-Za-z0-9_.:-]{1,128}$/] *)
Definition is_id_char (c : ascii) : bool := is_word c || existsb (λ n, is_char n c) [46; 58; 45]%N.
Definition sanitizeRequestId (value : json) : option string :=
  match (match value with JArr l => default JUndefined (head l) | v => v end) with
  | JStr raw => let t := trim raw in
                if sforallb is_id_char t && (1 <=? slen t)%nat && (slen t <=? 128)%nat then Some t else None
  | _ => None
  end.

(** ** Blob ids *)
Definition all_digits (s : string) : bool := sforallb is_digit s && negb (is_empty s).

(** [BigInt(s).toString(16)] *)
Fixpoint hex_digits (fuel : nat) (n : N) : list ascii :=
  match fuel with
  | O => [Hex.hex_digit n]
  | S fuel' => if (n <? 16)%N then [Hex.hex_digit n]
               else hex_digits fuel' (n / 16) ++ [Hex.hex_digit (n mod 16)]
  end.
Definition to_hex (n : N) : list ascii := hex_digits (N.size_nat n) n.

(** The bytes of [hex.match(/.{2}/g)], reversed. *)
Definition little_endian (hex : list ascii) : list ascii := rev (Hex.hex_pairs hex).

Definition blobIdFromRaw (raw : json) : option string :=
  if negb (truthy raw) then None
  else
    let s := js_string raw in
    if all_digits s && (20 <? slen s)%nat
    then Some (to_base64url (little_endian (pad64 (to_hex (Z.to_N (digits_value 0 (chars s)))))))
    else Some s.

(** ** Owners and types *)
Section Sdk.
Context `{SuiSdk} `{WalrusSdk}.

Definition normalizedSuiAddressOrNull (value : json) : option string :=
  match value with
  | JStr s => if is_empty s then None else Some (normalizeSuiAddress s)
  | _ => None
  end.

Definition ownerMatchesRecipient (recipient owner : json) : bool :=
  match normalizedSuiAddressOrNull owner with
  | None => false
  | Some target =>
      let is_target v := bool_decide (normalizedSuiAddressOrNull v = Some target) in
      match recipient with
      | JStr _ => is_target recipient
      | JObj _ => existsb (λ k, is_target (jget k recipient)) ["AddressOwner"; "ObjectOwner"; "SingleOwner"; "owner"]
      | _ => false
      end
  end.

(** [.toLowerCase().replace(/^0x0+/, "0x")] *)
Definition strip_zeros (s : string) : string :=
  let l := lower s in
  if starts_with "0x" l then "0x" +:+ of_chars (drop_while (is_char 48) (chars (drop_s 2 l))) else l.

Definition isWalrusBlobObjectType (objectType : json) (blobType : string) : bool :=
  match objectType with
  | JStr t =>
      seqb t blobType ||
      match split2 t, split2 blobType with
      | [p1; m1; n1], [p2; m2; n2] => seqb m1 m2 && seqb n1 n2 && seqb (strip_zeros p1) (strip_zeros p2)
      | _, _ => false
      end
  | _ => false
  end.

Definition blobIdMatchesRequested (raw : json) (requestedBlobIds : option (list string)) : bool :=
  match requestedBlobIds with
  | None => true
  | Some ids => match blobIdFromRaw raw with Some id => existsb (seqb id) ids | None => false end
  end.

Definition chainBlobIdFromRaw (raw : json) : js_error + option string :=
  match raw with
  | JNull | JUndefined => inr None
  | _ =>
      let value := js_string raw in
      if (match raw with JStr s => is_empty s | _ => false end) then inr None
      else if all_digits value then
        match blobIdFromInt value with inl e => inl e | inr id => inr (Some id) end
      else inr (blobIdFromRaw raw)
  end.

Definition strictWalrusEpoch (value : json) (field : string) : js_error + Z :=
  let bad := plain_error ("[query-blobs] " +:+ field +:+ " must be a u32") in
  match as_safe_int value with
  | Some z => if (z <? 0) || (4294967295 <? z) then inl bad else inr z
  | None => inl bad
  end.

Definition isVerifiedNonexistentSource (status : json) : bool := Enoki.is_str (jget "type" status) "nonexistent".

(** ** Reading one object *)

(** First match of [/\bObject (0x[0-9a-f]{64}) not found\b/i]: its group. *)
Definition missing_at (prev : option ascii) (l : list ascii) : option (list ascii) :=
  let p := chars "object " in
  let low := map lower_ascii l in
  let id := take 66 (drop 7 l) in
  let rest := drop 73 l in
  let tail := chars " not found" in
  if negb (is_word_opt prev) && prefix_of p low && is_full_address (of_chars (map lower_ascii id)) &&
     prefix_of tail (map lower_ascii rest) && negb (is_word_opt (head (drop 10 rest)))
  then Some id else None.
Fixpoint missing_search (prev : option ascii) (l : list ascii) : option (list ascii) :=
  match missing_at prev l with
  | Some id => Some id
  | None => match l with [] => None | c :: l' => missing_search (Some c) l' end
  end.
Definition missing_object (message : string) : option string := of_chars <$> missing_search None (chars message).

Context (sv : service).

Definition unavailable (message : string) (cause : json) : js_error :=
  JsError PlainError (JStr "UNAVAILABLE") JUndefined JUndefined cause message ("Error: " +:+ message) "Error".

Definition read_error (blobObjectId : string) (error : js_error) : js_error :=
  match missing_object (e_message error) with
  | Some id => if seqb (lower id) (lower blobObjectId) then unavailable (e_message error) (e_code error) else error
  | None => error
  end.
Definition readBlobObject (blobObjectId : string) : SM json :=
  s_catch (call sv (SGetObject blobObjectId)) (λ error, s_throw (read_error blobObjectId error)).

Record RawBlobObj : Type := RawBlob {
  b_objectId : string;
  b_owner : json;
  b_rawBlobId : json;
  b_rawSize : json;
  b_deletable : option bool;
  b_storageEndEpoch : json;
  b_previousTransaction : json;
}.

(** ** Creation provenance *)
Definition finalizedTransaction (response : json) : json :=
  if Enoki.is_str (jget "$kind" response) "Transaction" then coalesce (jget "Transaction" response) JNull
  else if truthy (jget "effects" response) && truthy (jget "transaction" response) then response else JNull.

Definition elements (v : json) : list json := match v with JArr l => l | _ => [] end.

Definition creation_digest (result : json) : js_error + option string :=
  match jget "errors" result with
  | JArr (e :: _) => inl (plain_error ("archival GraphQL lookup failed: " +:+
                        js_string (coalesce (jget "message" e) (JStr "unknown error"))))
  | _ =>
      let object := jget "object" (jget "data" result) in
      if negb (truthy object) then inr None
      else
        let nodes := elements (jget "nodes" (jget "objectVersionsBefore" object)) in
        let creationVersion := coalesce (default JUndefined (head nodes)) object in
        match jget "digest" (jget "previousTransaction" creationVersion) with
        | JStr d => inr (Some d)
        | _ => inr None
        end
  end.
Definition getCreationTransaction (objectId : string) : SM (option string) :=
  result ← rpc_retry sv 2 (call sv (SCreationVersion objectId));
  s_of_sum (creation_digest result).

(** The sender of a finalized transaction that created the object. *)
Definition creation_sender (objectId : string) (response : json) : option string :=
  let transaction := finalizedTransaction response in
  if negb (truthy (jget "success" (jget "status" transaction))) then None
  else
    let created := existsb (λ object,
      bool_decide (normalizedSuiAddressOrNull (jget "objectId" object) =
                   normalizedSuiAddressOrNull (JStr objectId)) &&
      Enoki.is_str (jget "idOperation" object) "Created")
      (elements (jget "changedObjects" (jget "effects" transaction))) in
    if created then normalizedSuiAddressOrNull (jget "sender" (jget "transaction" transaction)) else None.

Definition findBlobCreationSender (objectId : string) : SM (option string) :=
  digest ← getCreationTransaction objectId;
  match digest with
  | None => mret None
  | Some d =>
      if is_empty d then mret None
      else
        response ← rpc_retry sv 2 (call sv (SArchivalTransaction d));
        mret (creation_sender objectId response)
  end.

Definition BLOB_PROVENANCE_CACHE_MAX : nat := 10000.

Definition cachedBlobCreationSender (objectId : string) : SM (option string) :=
  cache ← gets s_provenance;
  match assoc objectId cache with
  | Some cached =>
      _ ← modify (λ s, s_set_provenance
            (filter (λ kv, kv.1 ≠ objectId) (s_provenance s) ++ [(objectId, cached)]) s);
      mret (Some cached)
  | None =>
      sender ← findBlobCreationSender objectId;
      match sender with
      | None => mret None
      | Some a =>
          if is_empty a then mret (Some a)
          else
            _ ← modify (λ s,
                  let cache' := s_provenance s ++ [(objectId, a)] in
                  s_set_provenance
                    (if (BLOB_PROVENANCE_CACHE_MAX <? length cache')%nat then tail cache' else cache') s);
            mret (Some a)
      end
  end.

Inductive trust_reason : Type := Trusted | WrongOwner | UnverifiedProvenance.
Definition trustedBlobCandidate (blob : RawBlobObj) (recipient : json) (trustedUploaders : list string)
    : SM (bool * trust_reason * option string) :=
  if negb (ownerMatchesRecipient (b_owner blob) recipient) then mret (false, WrongOwner, None)
  else
    uploader ← findBlobCreationSender (b_objectId blob);
    match uploader with
    | Some u => if existsb (seqb u) trustedUploaders && negb (is_empty u)
                then mret (true, Trusted, Some u) else mret (false, UnverifiedProvenance, Some u)
    | None => mret (false, UnverifiedProvenance, None)
    end.

(** [SERVER_SUI_ADDRESSES], [WALRUS_PACKAGE_ID] *)
Context (SERVER_SUI_ADDRESSES : list string) (WALRUS_PACKAGE_ID : string).

Definition is_server_uploader (uploader : option string) : bool :=
  match uploader with
  | Some u => negb (is_empty u) && existsb (seqb u) SERVER_SUI_ADDRESSES
  | None => false
  end.
Definition provenance_error (objectId : string) (error : js_error) : js_error :=
  plain_error ("unable to verify creation provenance for " +:+ objectId +:+ ": " +:+ e_message error).

Definition candidate_trusted (recipient : json) (blob : RawBlobObj) : SM bool :=
  s_catch
    (if negb (ownerMatchesRecipient (b_owner blob) recipient) then mret false
     else (uploader ← cachedBlobCreationSender (b_objectId blob); mret (is_server_uploader uploader)))
    (λ error, s_throw (provenance_error (b_objectId blob) error)).

Definition filterTrustedBlobCandidates {A} (blob_of : A → RawBlobObj) (candidates : list A) (recipient : json)
    : SM (list A) :=
  verdicts ← map_m (λ c, candidate_trusted recipient (blob_of c)) candidates;
  mret (fst <$> filter (λ cv : A * bool, cv.2 = true) (zip candidates verdicts)).
End Sdk.
