(* ===== verification/Query.v ===== *)
(** * Blob queries (sidecar/routes/walrus-query.ts)

    The paginated listing, the metadata entries, the lookup by remember job,
    the completion audit and the three request handlers. *)
From Stdlib Require Import QArith Qround Qminmax Ascii.
From S2P Require Import Prelude JsText JsNumber JsonParse Hex SealId Retry Service Blob.
From S2P Require Enoki.
Local Open Scope Z_scope.

Section Query.
Context `{SuiSdk} `{WalrusSdk} (sv : service).
Context (SERVER_SUI_ADDRESSES : list string) (WALRUS_PACKAGE_ID : string).
(** Bound on the pages of one listing; the code has none. *)
Context (page_fuel : nat).

Definition WALRUS_BLOB_TYPE : string := WALRUS_PACKAGE_ID +:+ "::blob::Blob".

(** ** Listing *)
Definition raw_blob_of (objectId : string) (obj : json) : RawBlobObj :=
  let fields := jget "json" obj in
  RawBlob objectId (jget "owner" obj)
    (coalesce (coalesce (jget "blob_id" fields) (jget "blobId" fields)) JNull)
    (coalesce (jget "size" fields) JNull)
    (match jget "deletable" fields with JBool b => Some b | _ => None end)
    (jget "end_epoch" (jget "storage" fields))
    (jget "previousTransaction" obj).

(** [out.length < cap]; [None] is [Infinity] *)
Definition under_cap (n : nat) (cap : option Q) : bool :=
  match cap with Some c => negb (Qle_bool c (inject_Z (Z.of_nat n))) | None => true end.

(** One object of a page: kept unless it is malformed or not requested. *)
Definition admit_object (requested : option (list string)) (obj : json) : js_error + option RawBlobObj :=
  match jget "objectId" obj with
  | JStr objectId =>
      let blob := raw_blob_of objectId obj in
      match requested with
      | None => inr (Some blob)
      | Some ids =>
          match chainBlobIdFromRaw (b_rawBlobId blob) with
          | inl e => inl e
          | inr id => inr (if existsb (seqb (default empty_str id)) ids then Some blob else None)
          end
      end
  | _ => inr None
  end.

Fixpoint page_objects (cap : option Q) (requested : option (list string)) (objects : list json)
    (out : list RawBlobObj) : js_error + list RawBlobObj :=
  match objects with
  | [] => inr out
  | obj :: rest =>
      match admit_object requested obj with
      | inl e => inl e
      | inr None => page_objects cap requested rest out
      | inr (Some blob) =>
          let out' := out ++ [blob] in
          if negb (under_cap (length out') cap) then inr out' else page_objects cap requested rest out'
      end
  end.

Fixpoint list_pages (fuel : nat) (owner blobType : string) (cap : option Q) (requested : option (list string))
    (cursor : json) (out : list RawBlobObj) : SM (list RawBlobObj) :=
  if negb (under_cap (length out) cap) then mret out
  else
    match fuel with
    | O => throw Enoki.OutOfFuel
    | S fuel' =>
        page ← rpc_retry sv 4 (call sv (SListOwned owner blobType (coalesce cursor JUndefined)));
        out' ← s_of_sum (page_objects cap requested (elements (jget "objects" page)) out);
        if negb (truthy (jget "hasNextPage" page)) || negb (truthy (jget "cursor" page)) then mret out'
        else list_pages fuel' owner blobType cap requested (jget "cursor" page) out'
    end.
Definition listBlobObjectsGrpc (owner blobType : string) (cap : option Q) (requested : option (list string))
    : SM (list RawBlobObj) := list_pages page_fuel owner blobType cap requested JNull [].

Definition isSourceCapped (fetchedCount : nat) (cap : option Q) : bool :=
  match cap with Some c => negb (Qle_bool (inject_Z (Z.of_nat fetchedCount)) c) | None => false end.

Definition blobObjectMatchesRegistration (rawSize : json) (deletable : option bool) (unencodedSize : json) : bool :=
  bool_decide (deletable = Some true) && seqb (js_string rawSize) (js_string unencodedSize).

(** ** Metadata *)
Definition metadata_entries (dynField : json) : js_error + list (string * string) :=
  let valueBcs := jget "bcs" (jget "value" (jget "dynamicField" dynField)) in
  if negb (truthy valueBcs) then inr [] else parse_metadata valueBcs.
Definition fetchBlobMetadataEntries (objectId : string) : SM (list (string * string)) :=
  dynField ← rpc_retry sv 4 (call sv (SDynamicField objectId));
  s_of_sum (metadata_entries dynField).

(** ** Completion audit *)
Record audit : Type := Audit { a_objectId : string; a_owner : string; a_size : json }.

Definition assertCompletionBlobObject (object : json) (expected : audit) (blobId : string) (currentEpoch : Z)
    : js_error + Z :=
  let bad what := plain_error ("Blob " +:+ a_objectId expected +:+ what) in
  let fields := jget "json" object in
  guard_or truthy fields else bad " has no JSON fields";
  guard_or isWalrusBlobObjectType (coalesce (jget "objectType" object) (jget "type" object)) WALRUS_BLOB_TYPE
    else plain_error ("object " +:+ a_objectId expected +:+ " is not a Walrus Blob");
  match chainBlobIdFromRaw (coalesce (jget "blob_id" fields) (jget "blobId" fields)) with
  | inl e => inl e
  | inr id =>
      guard_or bool_decide (id = Some blobId) else bad (" does not contain " +:+ blobId);
      guard_or seqb (js_string (jget "size" fields)) (js_string (a_size expected))
        else bad " size does not match the migration receipt";
      guard_or Enoki.is_bool (jget "deletable" fields) true &&
               negb (match jget "certified_epoch" fields with JNull | JUndefined => true | _ => false end)
        else bad " is not a certified deletable Blob";
      guard_or ownerMatchesRecipient (jget "owner" object) (JStr (a_owner expected))
        else bad (" is not owned by " +:+ a_owner expected);
      match strictWalrusEpoch (jget "end_epoch" (jget "storage" fields))
              ("Blob " +:+ a_objectId expected +:+ " storage end epoch") with
      | inl e => inl e
      | inr endEpoch =>
          guard_or negb (endEpoch <=? currentEpoch)
            else bad (" expired at Walrus epoch " +:+ pretty endEpoch +:+ "; current epoch is " +:+ pretty currentEpoch);
          inr endEpoch
      end
  end.

Definition assertCompletionBlobResponse (response : json) (expected : audit) (blobId : string) (currentEpoch : Z)
    : js_error + Z :=
  guard_or truthy (jget "object" response)
    else plain_error ("Blob " +:+ a_objectId expected +:+ " is missing from the gRPC response");
  assertCompletionBlobObject (jget "object" response) expected blobId currentEpoch.

(** ** Lookup by remember job *)
Definition has_tag (key value : string) (entries : list (string * string)) : bool :=
  existsb (λ kv : string * string, seqb kv.1 key && seqb kv.2 value) entries.
Definition owner_tagged (userOwner : string) (entries : list (string * string)) : bool :=
  existsb (λ kv : string * string,
    seqb kv.1 "memwal_owner" && is_sui_address kv.2 && seqb (normalizeSuiAddress kv.2) userOwner) entries.

(** A blob of the job, with its id. *)
Definition job_match (userOwner jobId : string) (entries : list (string * string)) (blob : RawBlobObj)
    : option (string * string) :=
  if has_tag "memwal_job_id" jobId entries && owner_tagged userOwner entries then
    match blobIdFromRaw (b_rawBlobId blob) with
    | Some id => if is_empty id then None else Some (id, b_objectId blob)
    | None => None
    end
  else None.

Fixpoint first_job_blob (userOwner jobId : string) (blobs : list RawBlobObj) : SM (option (string * string)) :=
  match blobs with
  | [] => mret None
  | blob :: rest =>
      entries ← fetchBlobMetadataEntries (b_objectId blob);
      match job_match userOwner jobId entries blob with
      | Some found => mret (Some found)
      | None => first_job_blob userOwner jobId rest
      end
  end.

Definition scanOwnerForJobBlob (scanOwner userOwner jobId : string) : SM (option (string * string)) :=
  blobs ← listBlobObjectsGrpc (normalizeSuiAddress scanOwner) WALRUS_BLOB_TYPE None None;
  first_job_blob userOwner jobId blobs.

(** [[...new Set(l)]] *)
Fixpoint unique (l : list string) : list string :=
  match l with
  | [] => []
  | x :: l' => x :: filter (λ y, y ≠ x) (unique l')
  end.
Definition scan_owners (userOwner : string) : list string :=
  unique (map normalizeSuiAddress SERVER_SUI_ADDRESSES ++ [userOwner]).

Fixpoint scan_all (owners : list string) (userOwner jobId : string) : SM (option (string * string)) :=
  match owners with
  | [] => mret None
  | o :: rest =>
      r ← scanOwnerForJobBlob o userOwner jobId;
      match r with Some found => mret (Some found) | None => scan_all rest userOwner jobId end
  end.
Definition findBlobObjectByJob (owner jobId : string) : SM (option (string * string)) :=
  let userOwner := normalizeSuiAddress owner in
  scan_all (scan_owners userOwner) userOwner jobId.

Fixpoint tagged_blobs (migrationJobId : string) (blobs : list RawBlobObj) : SM (list RawBlobObj) :=
  match blobs with
  | [] => mret []
  | blob :: rest =>
      entries ← fetchBlobMetadataEntries (b_objectId blob);
      tagged ← tagged_blobs migrationJobId rest;
      mret (if has_tag "memwal_migration_job" migrationJobId entries then blob :: tagged else tagged)
  end.
Definition findOwnedBlobObjects (owner blobId : string) (migrationJobId : option string) : SM (list RawBlobObj) :=
  blobs ← listBlobObjectsGrpc (normalizeSuiAddress owner) WALRUS_BLOB_TYPE None (Some [blobId]);
  match migrationJobId with
  | None => mret blobs
  | Some j => if is_empty j then mret blobs else tagged_blobs j blobs
  end.

(** ** [POST /walrus/find-blob-by-job] *)
Definition error_response (status : Z) (err : js_error) : response := refuse status (e_message err).

Definition find_blob_by_job_handler (body : json) : SM response :=
  s_catch
    (match jget "owner" body, jget "jobId" body with
     | JStr rawOwner, rawJobId =>
         if is_empty rawOwner then mret (refuse 400 "Missing required field: owner")
         else match rawJobId with
         | JStr j =>
             if is_empty j then mret (refuse 400 "Missing required field: jobId")
             else match sanitizeRequestId rawJobId with
             | None => mret (refuse 400 "jobId is not a valid tag value")
             | Some jobId =>
                 let owner := if is_sui_address rawOwner then normalizeSuiAddress rawOwner else rawOwner in
                 result ← findBlobObjectByJob owner jobId;
                 mret (ok (match result with
                           | Some (blobId, objectId) => JObj [("blob_id", JStr blobId); ("object_id", JStr objectId)]
                           | None => JObj [("blob_id", JNull); ("object_id", JNull)]
                           end))
             end
         | _ => mret (refuse 400 "Missing required field: jobId")
         end
     | _, _ => mret (refuse 400 "Missing required field: owner")
     end)
    (λ err, mret (error_response 500 err)).

(** ** [POST /walrus/verify-blob] *)
Definition nonempty_str (v : json) : option string :=
  match v with JStr s => if is_empty s then None else Some s | _ => None end.

Definition refreshWalrusClientIfStale : SM unit := modify (s_emit (SRefreshClient "stale")).

Definition walrus_epoch : SM Z :=
  systemState ← rpc_retry sv 4 (call sv SSystemState);
  s_of_sum (strictWalrusEpoch (jget "epoch" (jget "committee" systemState)) "current Walrus epoch").

Definition parse_audit (v : json) : option audit :=
  match jget "objectId" v, jget "owner" v, as_safe_int (jget "size" v) with
  | JStr objectId, JStr owner, Some size => if size <=? 0 then None else Some (Audit objectId owner (jget "size" v))
  | _, _, _ => None
  end.

Definition verify_blob_handler (body : json) : SM response :=
  match nonempty_str (jget "blobId" body), nonempty_str (jget "data" body) with
  | Some blobId, Some data =>
      computed ← s_catch (r ← call sv (SComputeBlob data); mret (inr (jget "blobId" r)))
                   (λ err, mret (inl (Resp 503 (JObj [("error", JStr (e_message err));
                                                      ("code", JStr "SHARED_SERVICE_UNAVAILABLE")]))));
      match computed with
      | inl refused => mret refused
      | inr computedBlobId =>
          let auditv := jget "audit" body in
          if is_undefined auditv then mret (ok (JObj [("computedBlobId", computedBlobId)]))
          else match parse_audit auditv with
          | None => mret (refuse 400 "audit requires objectId, owner, and a positive integer size")
          | Some a =>
              s_catch
                (_ ← refreshWalrusClientIfStale;
                 currentEpoch ← walrus_epoch;
                 object ← rpc_retry sv 4 (readBlobObject sv (a_objectId a));
                 storageEndEpoch ← s_of_sum (assertCompletionBlobResponse object a blobId currentEpoch);
                 mret (ok (JObj [("computedBlobId", computedBlobId); ("currentEpoch", jint currentEpoch);
                                 ("storageEndEpoch", jint storageEndEpoch)])))
                (λ err, mret (error_response 422 err))
          end
      end
  | _, _ => mret (refuse 400 "blobId and base64 data are required")
  end.

(** ** [POST /walrus/query-blobs] *)
Definition positive_limit (limit : json) : option Q :=
  match to_number limit with Finite q => if Qle_bool q 0 then None else Some q | _ => None end.
(** [Math.max(1, Math.min(Number(limit) || 0, 500))] *)
Definition desired_matches (limit : json) : Q :=
  match to_number limit with
  | NaN => 1
  | Infinite neg => if neg then 1 else 500
  | Finite q => Qmax 1 (Qmin q 500)
  end%Q.
Definition candidate_cap (limit : json) (requested : option (list string)) : option Q :=
  match positive_limit limit, requested with
  | Some _, None => Some (Qmax 1 (Qmin (desired_matches limit * 5) 100))%Q
  | _, _ => None
  end.
(** [l.slice(0, cap)] *)
Definition slice_cap {A} (cap : option Q) (l : list A) : list A :=
  match cap with Some c => take (Z.to_nat (Qfloor c)) l | None => l end.

Record blob_meta : Type := BlobMeta {
  bm_blob : RawBlobObj;
  bm_namespace : string;
  bm_owner : string;
  bm_packageId : string;
  bm_agentId : string;
}.
Definition set_meta (m : blob_meta) (kv : string * string) : blob_meta :=
  let '(k, v) := kv in
  BlobMeta (bm_blob m)
    (if seqb k "memwal_namespace" then v else bm_namespace m)
    (if seqb k "memwal_owner" then v else bm_owner m)
    (if seqb k "memwal_package_id" then v else bm_packageId m)
    (if seqb k "memwal_agent_id" then v else bm_agentId m).
Definition meta_of (blob : RawBlobObj) (entries : list (string * string)) : blob_meta :=
  fold_left set_meta entries (BlobMeta blob "default" empty_str empty_str empty_str).
Definition fetch_meta (blob : RawBlobObj) : SM blob_meta :=
  s_catch (entries ← fetchBlobMetadataEntries (b_objectId blob); mret (meta_of blob entries))
    (λ _, mret (meta_of blob [])).

(** [!filter || actual === filter] *)
Definition meta_wanted (filter_value : json) (actual : string) : bool :=
  negb (truthy filter_value) || Enoki.is_str filter_value actual.
Definition meta_matches (namespace packageId : json) (m : blob_meta) : bool :=
  meta_wanted namespace (bm_namespace m) && meta_wanted packageId (bm_packageId m).

Definition blob_row (m : blob_meta) : option json :=
  match blobIdFromRaw (b_rawBlobId (bm_blob m)) with
  | Some id =>
      if is_empty id then None
      else Some (JObj [("blobId", JStr id); ("objectId", JStr (b_objectId (bm_blob m)));
                       ("namespace", JStr (bm_namespace m)); ("packageId", JStr (bm_packageId m));
                       ("agentId", JStr (bm_agentId m))])
  | None => None
  end.

(** One source lease; a blob without an id has none. *)
Definition lease_row (blob : RawBlobObj) : js_error + option (string * json) :=
  match chainBlobIdFromRaw (b_rawBlobId blob) with
  | inl e => inl e
  | inr None => inr None
  | inr (Some id) =>
      if is_empty id then inr None
      else match strictWalrusEpoch (b_storageEndEpoch blob)
                   ("Blob " +:+ b_objectId blob +:+ " storage end epoch") with
           | inl e => inl e
           | inr epoch => inr (Some (id, JObj [("blobId", JStr id); ("objectId", JStr (b_objectId blob));
                                               ("storageEndEpoch", jint epoch)]))
           end
  end.

Definition verified_nonexistent (blobId : string) : SM (option string) :=
  status ← rpc_retry sv 2 (call sv (SBlobStatus blobId));
  mret (if isVerifiedNonexistentSource status then Some blobId else None).

Definition storage_leases (owner : json) (candidates : list RawBlobObj) (requested : list string) : SM response :=
  rawObjs ← filterTrustedBlobCandidates sv SERVER_SUI_ADDRESSES (λ b, b) candidates owner;
  _ ← refreshWalrusClientIfStale;
  currentEpoch ← walrus_epoch;
  leases ← s_of_sum (map_sum lease_row rawObjs);
  let rows := omap (λ r, r) leases in
  let missing := filter (λ id, id ∉ rows.*1) requested in
  checked ← map_m verified_nonexistent missing;
  mret (ok (JObj [("blobs", JArr rows.*2); ("total", jint (Z.of_nat (length rows)));
                  ("currentEpoch", jint currentEpoch);
                  ("nonexistentBlobIds", JArr (map JStr (omap (λ c, c) checked)))])).

Definition matching_blobs (owner namespace packageId : json) (candidates : list RawBlobObj) (sourceCapped : bool)
    : SM response :=
  metas ← map_m fetch_meta candidates;
  let metadataMatches := filter (λ m, meta_matches namespace packageId m = true) metas in
  trusted ← filterTrustedBlobCandidates sv SERVER_SUI_ADDRESSES bm_blob metadataMatches owner;
  let rows := omap blob_row trusted in
  mret (ok (JObj [("blobs", JArr rows); ("total", jint (Z.of_nat (length rows)));
                  ("sourceCapped", JBool sourceCapped)])).

Definition is_bool_value (v : json) : bool := match v with JBool _ => true | _ => false end.
Definition canonical_owner (rawOwner : json) : json :=
  match rawOwner with JStr s => if is_sui_address s then JStr (normalizeSuiAddress s) else rawOwner | _ => rawOwner end.
Definition requested_ids (blobIds : json) : option (list string) :=
  match blobIds with JArr l => Some (unique (omap nonempty_str l)) | _ => None end.

Definition query_blobs_handler (body : json) : SM response :=
  let rawOwner := jget "owner" body in
  let lease := jget "includeStorageLease" body in
  let blobIds := jget "blobIds" body in
  let limit := jget "limit" body in
  if negb (truthy rawOwner) then mret (refuse 400 "Missing required field: owner")
  else if negb (is_undefined lease) && negb (is_bool_value lease)
  then mret (refuse 400 "includeStorageLease must be a boolean")
  else if Enoki.is_bool lease true && match blobIds with JArr (_ :: _) => false | _ => true end
  then mret (refuse 400 "includeStorageLease requires blobIds")
  else
    let owner := canonical_owner rawOwner in
    let requested := requested_ids blobIds in
    let cap := candidate_cap limit requested in
    let probeCap := (λ c, c + 1)%Q <$> cap in
    s_catch
      (probedObjs ← listBlobObjectsGrpc (js_string owner) WALRUS_BLOB_TYPE probeCap requested;
       let candidates := slice_cap cap probedObjs in
       if Enoki.is_bool lease true then storage_leases owner candidates (default [] requested)
       else matching_blobs owner (jget "namespace" body) (jget "packageId" body) candidates
              (isSourceCapped (length probedObjs) cap))
      (λ err, mret (error_response 500 err)).
End Query.
