(* ===== verification/QuerySafety.v ===== *)
(** * Theorems about blob queries (sidecar/routes/walrus-query.ts)

    On a chain that does not change during the request, the handlers compute
    functions of that chain: which blobs are trusted, what a lookup by job
    finds, and what a completion audit accepts. *)
From Stdlib Require Import QArith Ascii.
From S2P Require Import Prelude JsText JsNumber JsonParse Hex SealId Retry Service Blob Query.
From S2P Require Enoki.
Local Open Scope Z_scope.

Section QuerySafety.
Context `{SuiSdk} `{WalrusSdk} (sv : service).
Context (SERVER_SUI_ADDRESSES : list string) (WALRUS_PACKAGE_ID : string) (page_fuel : nat).
Context (chain : sevent → js_error + json).
Context (stable : ∀ tr ev, sv_answer sv (tr ++ [ev]) = chain ev).

Notation WALRUS_BLOB_TYPE := (WALRUS_BLOB_TYPE WALRUS_PACKAGE_ID).

(** ** What the chain says *)
Definition chain_sender (objectId : string) : js_error + option string :=
  sum_bind (sum_bind (chain (SCreationVersion objectId)) creation_digest) (λ digest,
    match digest with
    | None => inr None
    | Some d => if is_empty d then inr None
                else sum_bind (chain (SArchivalTransaction d)) (λ r, inr (creation_sender objectId r))
    end).
Definition chain_metadata (objectId : string) : js_error + list (string * string) :=
  sum_bind (chain (SDynamicField objectId)) metadata_entries.
Fixpoint chain_pages (fuel : nat) (owner : string) (cap : option Q) (requested : option (list string))
    (cursor : json) (out : list RawBlobObj) : option (js_error + list RawBlobObj) :=
  if negb (under_cap (length out) cap) then Some (inr out)
  else
    match fuel with
    | O => None
    | S fuel' =>
        match chain (SListOwned owner WALRUS_BLOB_TYPE (coalesce cursor JUndefined)) with
        | inl e => Some (inl e)
        | inr page =>
            match page_objects cap requested (elements (jget "objects" page)) out with
            | inl e => Some (inl e)
            | inr out' =>
                if negb (truthy (jget "hasNextPage" page)) || negb (truthy (jget "cursor" page))
                then Some (inr out')
                else chain_pages fuel' owner cap requested (jget "cursor" page) out'
            end
        end
    end.
Definition chain_listing (owner : string) (cap : option Q) (requested : option (list string))
    : option (js_error + list RawBlobObj) := chain_pages page_fuel owner cap requested JNull [].

(** The provenance cache holds what the chain says, within its bound. *)
Definition cache_sound (s : sstate) : Prop :=
  Forall (λ kv, chain_sender kv.1 = inr (Some kv.2) ∧ is_empty kv.2 = false) (s_provenance s) ∧
  (length (s_provenance s) ≤ BLOB_PROVENANCE_CACHE_MAX)%nat.

Notation reads := (reads cache_sound).

Lemma sound_emit e s : cache_sound s → cache_sound (s_emit e s).
Proof. done. Qed.
Lemma sound_clock t s : cache_sound s → cache_sound (s_set_clock t s).
Proof. done. Qed.
Hint Resolve sound_emit sound_clock : core.

Lemma reads_called n ev : reads (rpc_retry sv (S n) (call sv ev)) (chain ev).
Proof. apply reads_retry; [done..|]. by apply reads_call. Qed.

Lemma reads_sender objectId : reads (findBlobCreationSender sv objectId) (chain_sender objectId).
Proof.
  unfold findBlobCreationSender, chain_sender. apply reads_bind.
  - unfold getCreationTransaction. apply reads_bind; [apply reads_called|]. intros r _. apply reads_of_sum.
  - intros [d|] _; [|apply reads_ret]. destruct (is_empty d); [apply reads_ret|].
    apply reads_bind; [apply reads_called|]. intros r _. apply reads_ret.
Qed.

Lemma assoc_elem {A} k (l : list (string * A)) a : JsText.assoc k l = Some a → (k, a) ∈ l.
Proof.
  induction l as [|[k' v] l IH]; simpl; [done|]. destruct (seqb k k') eqn:E.
  - intros [= ->]. apply seqb_eq in E as ->. by left.
  - intros Ha. right. by apply IH.
Qed.

Lemma filter_length_lt {A} (P : A → Prop) `{∀ x, Decision (P x)} (l : list A) x :
  x ∈ l → ¬ P x → (length (filter P l) < length l)%nat.
Proof.
  intros Hx Hn. induction l as [|y l IH]; [by apply elem_of_nil in Hx|].
  rewrite filter_cons. apply elem_of_cons in Hx as [<-|Hx].
  - rewrite decide_False by done. pose proof (length_filter P l). simpl. lia.
  - specialize (IH Hx). destruct (decide (P y)); simpl; lia.
Qed.

Lemma reads_cached_sender objectId : reads (cachedBlobCreationSender sv objectId) (chain_sender objectId).
Proof.
  intros s Hs. unfold cachedBlobCreationSender, mbind, st_bind, gets, modify.
  destruct (JsText.assoc objectId (s_provenance s)) as [a|] eqn:E; simpl.
  - apply assoc_elem in E. destruct Hs as [Hf Hl]. pose proof E as E'.
    rewrite Forall_forall in Hf. destruct (Hf _ E) as [Hc He]. simpl in Hc, He. rewrite Hc. split; [|done].
    split; simpl.
    + apply Forall_app. split; [|by constructor]. apply Forall_forall. intros kv Hkv.
      apply list_elem_of_filter in Hkv as [_ Hkv]. by apply Hf.
    + rewrite length_app. simpl. pose proof (filter_length_lt (λ kv, kv.1 ≠ objectId) _ _ E' ltac:(naive_solver)).
      lia.
  - destruct (reads_sender objectId s Hs) as [H1 H2].
    destruct (findBlobCreationSender sv objectId s) as [s' [f|[a|]]]; destruct (chain_sender objectId) as [e|o] eqn:Ec;
      simpl in *; simplify_eq; try done.
    destruct (is_empty a) eqn:Ee; [done|]. split; [|done]. destruct H1 as [Hf Hl].
    assert (Hall : Forall (λ kv, chain_sender kv.1 = inr (Some kv.2) ∧ is_empty kv.2 = false)
              (s_provenance s' ++ [(objectId, a)])) by (apply Forall_app; split; [done|by constructor]).
    unfold cache_sound. simpl. case_match eqn:El.
    + assert (length (s_provenance s' ++ [(objectId, a)]) ≤ S BLOB_PROVENANCE_CACHE_MAX)%nat as Hn
        by (rewrite length_app; simpl; lia).
      destruct (s_provenance s' ++ _); [done|]. apply Forall_cons in Hall as [_ Hall].
      split; [done|]. simpl in *. lia.
    + split; [done|]. apply Nat.ltb_ge in El. done.
Qed.

(** ** Trust *)
Definition chain_trusted (recipient : json) (blob : RawBlobObj) : js_error + bool :=
  if negb (ownerMatchesRecipient (b_owner blob) recipient) then inr false
  else match chain_sender (b_objectId blob) with
       | inl e => inl (provenance_error (b_objectId blob) e)
       | inr u => inr (is_server_uploader SERVER_SUI_ADDRESSES u)
       end.

Lemma reads_trusted recipient blob :
  reads (candidate_trusted sv SERVER_SUI_ADDRESSES recipient blob) (chain_trusted recipient blob).
Proof.
  unfold candidate_trusted, chain_trusted.
  set (p := if negb (ownerMatchesRecipient (b_owner blob) recipient) then inr false
            else sum_bind (chain_sender (b_objectId blob)) (λ u, inr (is_server_uploader SERVER_SUI_ADDRESSES u))).
  replace (if negb (ownerMatchesRecipient (b_owner blob) recipient) then inr false else _)
    with (match p with inl e => inl (provenance_error (b_objectId blob) e) | inr a => inr a end).
  - apply reads_catch; [|intros e _; apply reads_throw]. unfold p.
    destruct (negb _); [apply reads_ret|]. apply reads_bind; [apply reads_cached_sender|]. intros u _. apply reads_ret.
  - unfold p. destruct (negb _); [done|]. by destruct (chain_sender (b_objectId blob)).
Qed.

Definition chain_filter {A} (blob_of : A → RawBlobObj) (recipient : json) (l : list A) : js_error + list A :=
  sum_bind (map_sum (λ c, chain_trusted recipient (blob_of c)) l) (λ verdicts,
    inr (fst <$> filter (λ cv : A * bool, cv.2 = true) (zip l verdicts))).

Lemma reads_filter {A} (blob_of : A → RawBlobObj) recipient l :
  reads (filterTrustedBlobCandidates sv SERVER_SUI_ADDRESSES blob_of l recipient) (chain_filter blob_of recipient l).
Proof.
  unfold filterTrustedBlobCandidates, chain_filter. apply reads_bind.
  - apply reads_map. intros c. apply reads_trusted.
  - intros v _. apply reads_ret.
Qed.

Definition is_trusted (recipient : json) (blob : RawBlobObj) : bool :=
  match chain_trusted recipient blob with inr b => b | inl _ => false end.

(** The kept candidates, as a filter. *)
Lemma chain_filter_spec {A} (blob_of : A → RawBlobObj) recipient l kept :
  chain_filter blob_of recipient l = inr kept →
  kept = filter (λ c, is_trusted recipient (blob_of c) = true) l.
Proof.
  unfold chain_filter. revert kept. induction l as [|c l IH]; intros kept; [by intros [= <-]|].
  simpl. destruct (chain_trusted recipient (blob_of c)) as [e|v] eqn:Ec; [done|].
  destruct (map_sum _ l) as [e|vs] eqn:El; [done|]. simpl in *. intros [= <-].
  assert (is_trusted recipient (blob_of c) = v) as Et by (unfold is_trusted; by rewrite Ec).
  rewrite !filter_cons, <-(IH _ eq_refl), Et. simpl. by destruct v.
Qed.

Lemma is_trusted_iff recipient blob :
  is_trusted recipient blob = true ↔
  ownerMatchesRecipient (b_owner blob) recipient = true ∧
  ∃ u, chain_sender (b_objectId blob) = inr (Some u) ∧ u ∈ SERVER_SUI_ADDRESSES ∧ u ≠ empty_str.
Proof.
  unfold is_trusted, chain_trusted, is_server_uploader. destruct (ownerMatchesRecipient _ _); simpl; [|naive_solver].
  destruct (chain_sender (b_objectId blob)) as [e|[u|]]; [naive_solver| |naive_solver].
  rewrite andb_true_iff, negb_true_iff, existsb_exists. unfold is_empty. rewrite seqb_neq. split.
  - intros [Hu (x & Hx & E)]. apply seqb_eq in E as <-. split; [done|]. exists u.
    by rewrite list_elem_of_In.
  - intros (_ & u' & [= <-] & Hu & Hn). split; [done|]. exists u. rewrite <-list_elem_of_In. by rewrite seqb_refl.
Qed.

(** ** Listing and metadata *)
Lemma reads_pages fuel owner cap requested : ∀ cursor out p,
  chain_pages fuel owner cap requested cursor out = Some p →
  reads (list_pages sv fuel owner WALRUS_BLOB_TYPE cap requested cursor out) p.
Proof.
  induction fuel as [|fuel IH]; intros cursor out p; cbn [chain_pages list_pages];
    (destruct (negb (under_cap (length out) cap)); [intros [= <-]; apply reads_ret|]); [done|].
  intros Hp.
  assert (Hb : p = sum_bind (chain (SListOwned owner WALRUS_BLOB_TYPE (coalesce cursor JUndefined))) (λ page,
    sum_bind (page_objects cap requested (elements (jget "objects" page)) out) (λ out',
      if negb (truthy (jget "hasNextPage" page)) || negb (truthy (jget "cursor" page)) then inr out'
      else default (inr out') (chain_pages fuel owner cap requested (jget "cursor" page) out')))).
  { destruct (chain _) as [e|page]; simpl; [naive_solver|]. destruct (page_objects _ _ _ _); simpl; [naive_solver|].
    destruct (_ || _); [naive_solver|]. by rewrite Hp. }
  rewrite Hb. apply reads_bind; [apply reads_called|]. intros page Epage. rewrite Epage in Hp.
  apply reads_bind; [apply reads_of_sum|]. intros out' Eout. rewrite Eout in Hp.
  destruct (_ || _); [apply reads_ret|]. apply IH. by rewrite Hp.
Qed.

Lemma reads_listing owner cap requested p :
  chain_listing owner cap requested = Some p →
  reads (listBlobObjectsGrpc sv page_fuel owner WALRUS_BLOB_TYPE cap requested) p.
Proof. apply reads_pages. Qed.

Lemma reads_metadata objectId : reads (fetchBlobMetadataEntries sv objectId) (chain_metadata objectId).
Proof. apply reads_bind; [apply reads_called|]. intros r _. apply reads_of_sum. Qed.

Definition chain_meta (blob : RawBlobObj) : blob_meta :=
  meta_of blob (match chain_metadata (b_objectId blob) with inr entries => entries | inl _ => [] end).

Lemma reads_meta blob : reads (fetch_meta sv blob) (inr (chain_meta blob)).
Proof.
  unfold fetch_meta, chain_meta.
  set (p := sum_bind (chain_metadata (b_objectId blob)) (λ entries, inr (meta_of blob entries) : js_error + _)).
  replace (inr (meta_of blob _)) with (match p with inl e => inr (meta_of blob []) : js_error + _ | inr a => inr a end).
  - apply reads_catch; [|intros e _; apply reads_ret]. apply reads_bind; [apply reads_metadata|].
    intros entries _. apply reads_ret.
  - unfold p. by destruct (chain_metadata (b_objectId blob)).
Qed.

Lemma map_sum_inr {E A B} (f : A → B) (l : list A) : map_sum (λ x, inr (f x) : E + B) l = inr (map f l).
Proof. induction l as [|x l IH]; [done|]. simpl. by rewrite IH. Qed.

Lemma map_sum_error {E A B} (f : A → E + B) (l : list A) e :
  map_sum f l = inl e → ∃ x, x ∈ l ∧ f x = inl e.
Proof.
  induction l as [|x l IH]; simpl; [done|]. destruct (f x) eqn:Ef.
  - intros [= <-]. exists x. split; [by left|done].
  - destruct (map_sum f l); [|done]. intros [= <-]. destruct (IH eq_refl) as (y & Hy & E0).
    exists y. split; [by right|done].
Qed.

Lemma meta_of_blob blob entries : bm_blob (meta_of blob entries) = blob.
Proof.
  unfold meta_of. enough (∀ m, bm_blob (fold_left set_meta entries m) = bm_blob m) as Hm by apply Hm.
  induction entries as [|[k v] l IH]; intros m; [done|]. simpl. by rewrite IH.
Qed.

(** ** Queries *)
Definition kept_metas (owner namespace packageId : json) (candidates : list RawBlobObj) : list blob_meta :=
  filter (λ m, meta_matches namespace packageId m = true ∧ is_trusted owner (bm_blob m) = true)
    (map chain_meta candidates).

Definition query_answer (metas : list blob_meta) (sourceCapped : bool) : response :=
  let rows := omap blob_row metas in
  ok (JObj [("blobs", JArr rows); ("total", jint (Z.of_nat (length rows))); ("sourceCapped", JBool sourceCapped)]).

Lemma reads_matching owner namespace packageId candidates capped :
  reads (matching_blobs sv SERVER_SUI_ADDRESSES owner namespace packageId candidates capped)
    (sum_bind (chain_filter bm_blob owner
                 (filter (λ m, meta_matches namespace packageId m = true) (map chain_meta candidates)))
       (λ kept, inr (query_answer kept capped))).
Proof.
  unfold matching_blobs. intros s Hs.
  refine (reads_bind _ _ _ (inr (map chain_meta candidates)) (λ metas, _) _ _ s Hs).
  { rewrite <-map_sum_inr. apply reads_map. apply reads_meta. }
  intros metas [= <-]. apply reads_bind; [apply reads_filter|]. intros kept _. apply reads_ret.
Qed.

(** What [/walrus/query-blobs] returns, exactly: of the listed
    candidates, in order, those whose metadata matches the requested namespace
    and package, that the requested owner owns on chain, and whose creation
    transaction was sent by one of the server's own wallets - nobody can plant
    a blob by sending it to a user or by tagging it.  The only other outcome
    is a 500 when some provenance cannot be established; a candidate is never
    silently dropped for that.  The provenance cache stays sound and bounded. *)
Theorem query_blobs_exact (body : json) (probed : list RawBlobObj) (s : sstate) :
  let owner := canonical_owner (jget "owner" body) in
  let requested := requested_ids (jget "blobIds" body) in
  let cap := candidate_cap (jget "limit" body) requested in
  truthy (jget "owner" body) = true → jget "includeStorageLease" body = JUndefined →
  chain_listing (js_string owner) ((λ c, c + 1)%Q <$> cap) requested = Some (inr probed) →
  cache_sound s →
  let kept := kept_metas owner (jget "namespace" body) (jget "packageId" body) (slice_cap cap probed) in
  let out := query_blobs_handler sv SERVER_SUI_ADDRESSES WALRUS_PACKAGE_ID page_fuel body s in
  cache_sound out.1 ∧
  (out.2 = inr (query_answer kept (isSourceCapped (length probed) cap)) ∨
   ∃ blob e, blob ∈ slice_cap cap probed ∧ chain_trusted owner blob = inl e ∧ out.2 = inr (error_response 500 e)) ∧
  (∀ m, m ∈ kept → ownerMatchesRecipient (b_owner (bm_blob m)) owner = true ∧
     ∃ u, chain_sender (b_objectId (bm_blob m)) = inr (Some u) ∧ u ∈ SERVER_SUI_ADDRESSES).
Proof.
  intros owner requested cap Ho Hl Hp Hs kept out.
  assert (Hout : out.2 = match chain_filter bm_blob owner (filter (λ m, meta_matches (jget "namespace" body)
      (jget "packageId" body) m = true) (map chain_meta (slice_cap cap probed))) with
    | inr k => inr (query_answer k (isSourceCapped (length probed) cap))
    | inl e => inr (error_response 500 e) end ∧ cache_sound out.1).
  { pose proof (reads_bind _ _ (λ probedObjs, matching_blobs sv SERVER_SUI_ADDRESSES owner (jget "namespace" body)
        (jget "packageId" body) (slice_cap cap probedObjs) (isSourceCapped (length probedObjs) cap)) _ _
      (reads_listing _ _ _ _ Hp) (λ probedObjs _, reads_matching owner (jget "namespace" body)
        (jget "packageId" body) (slice_cap cap probedObjs) (isSourceCapped (length probedObjs) cap))) as Hr.
    simpl in Hr. apply (reads_catch cache_sound _ (λ err, mret (error_response 500 err)) _
      (λ e, inr (error_response 500 e))) in Hr; [|intros e _; apply reads_ret].
    destruct (Hr s Hs) as [H1 H2]. unfold out, query_blobs_handler. rewrite Ho, Hl. simpl.
    fold owner requested cap. split; [|exact H1]. etransitivity; [exact H2|]. by destruct (chain_filter _ _ _). }
  destruct Hout as [Hout Hcs]. split; [done|]. split; [|].
  - rewrite Hout. destruct (chain_filter _ _ _) as [e|k] eqn:Ek.
    + right. revert Ek. unfold chain_filter. destruct (map_sum _ _) as [e'|] eqn:Em; [|done]. intros [= ->].
      apply map_sum_error in Em as (m & Hm & Em). apply list_elem_of_filter in Hm as [_ Hm].
      apply list_elem_of_fmap in Hm as (blob & -> & Hb). exists blob, e.
      assert (bm_blob (chain_meta blob) = blob) as E by apply meta_of_blob. rewrite E in Em. done.
    + left. apply chain_filter_spec in Ek as ->. do 2 f_equal. unfold kept, kept_metas.
      rewrite list_filter_filter. apply list_filter_iff. naive_solver.
  - intros m Hm. apply list_elem_of_filter in Hm as [[_ Ht] _]. apply is_trusted_iff in Ht. naive_solver.
Qed.

(** ** Lookup by remember job *)
Section Job.
Context (owner jobId : string) (listing : string → js_error + list RawBlobObj).
Notation userOwner := (normalizeSuiAddress owner).
Notation owners := (scan_owners SERVER_SUI_ADDRESSES userOwner).
Context (listed : ∀ o, o ∈ owners → chain_listing (normalizeSuiAddress o) None None = Some (listing o)).

Definition blob_match (blob : RawBlobObj) : js_error + option (string * string) :=
  sum_bind (chain_metadata (b_objectId blob)) (λ entries, inr (job_match userOwner jobId entries blob)).

(** The first match of a list, or the first error before it. *)
Fixpoint first_match {A} (f : A → js_error + option (string * string)) (l : list A)
    : js_error + option (string * string) :=
  match l with
  | [] => inr None
  | x :: l' => sum_bind (f x) (λ r, match r with Some found => inr (Some found) | None => first_match f l' end)
  end.

Lemma reads_first blobs : reads (first_job_blob sv userOwner jobId blobs) (first_match blob_match blobs).
Proof.
  induction blobs as [|blob blobs IH]; [apply reads_ret|]. simpl.
  set (q := λ entries, match job_match userOwner jobId entries blob with
                       | Some found => inr (Some found) | None => first_match blob_match blobs end).
  replace (sum_bind (blob_match blob) _) with (sum_bind (chain_metadata (b_objectId blob)) q)
    by (unfold blob_match; by destruct (chain_metadata _)).
  apply reads_bind; [apply reads_metadata|]. intros entries _. unfold q.
  destruct (job_match _ _ _ _); [apply reads_ret|done].
Qed.

Definition owner_match (o : string) : js_error + option (string * string) :=
  sum_bind (listing o) (first_match blob_match).

Lemma reads_scan l : (∀ o, o ∈ l → o ∈ owners) →
  reads (scan_all sv WALRUS_PACKAGE_ID page_fuel l userOwner jobId) (first_match owner_match l).
Proof.
  intros Hl. induction l as [|o l IH]; [apply reads_ret|]. simpl. apply reads_bind.
  - unfold scanOwnerForJobBlob, owner_match. apply reads_bind; [|intros blobs _; apply reads_first].
    apply reads_listing, listed, Hl. by left.
  - intros [found|] _; [apply reads_ret|]. apply IH. intros x Hx. apply Hl. by right.
Qed.

Lemma first_match_spec {A} (f : A → js_error + option (string * string)) l :
  match first_match f l with
  | inl e => ∃ x, x ∈ l ∧ f x = inl e
  | inr (Some found) => ∃ x, x ∈ l ∧ f x = inr (Some found)
  | inr None => ∀ x, x ∈ l → f x = inr None
  end.
Proof.
  induction l as [|x l IH]; simpl; [by intros x Hx%elem_of_nil|].
  destruct (f x) as [e|[found|]] eqn:E; simpl; [by exists x; split; [left|]..|].
  destruct (first_match f l) as [e|[found|]].
  - destruct IH as (y & Hy & Ey). exists y. split; [by right|done].
  - destruct IH as (y & Hy & Ey). exists y. split; [by right|done].
  - intros y [-> |Hy]%elem_of_cons; [done|by apply IH].
Qed.

(** A minted blob of the job, wherever it was found. *)
Definition minted (blobId objectId : string) : Prop :=
  ∃ o blobs blob entries, o ∈ owners ∧ listing o = inr blobs ∧ blob ∈ blobs ∧ b_objectId blob = objectId ∧
    blobIdFromRaw (b_rawBlobId blob) = Some blobId ∧ chain_metadata objectId = inr entries ∧
    has_tag "memwal_job_id" jobId entries = true ∧ owner_tagged userOwner entries = true.

(** The crash reconciliation never mistakes "could not check" for "not
    minted": a blob is reported only if some scanned wallet or the user owns
    it and its metadata carries both this job and this user; "none" is
    answered only after every object of every server wallet and of the user
    was read and none matched; anything unreadable on the way is an error. *)
Theorem find_job_exact (s : sstate) :
  cache_sound s →
  match (findBlobObjectByJob sv SERVER_SUI_ADDRESSES WALRUS_PACKAGE_ID page_fuel owner jobId s).2 with
  | inr (Some (blobId, objectId)) => minted blobId objectId
  | inr None => ∀ o, o ∈ owners → ∃ blobs, listing o = inr blobs ∧ ∀ blob, blob ∈ blobs →
      ∃ entries, chain_metadata (b_objectId blob) = inr entries ∧ job_match userOwner jobId entries blob = None
  | inl (Enoki.Thrown e) => ∃ o, o ∈ owners ∧
      (listing o = inl e ∨ ∃ blobs blob, listing o = inr blobs ∧ blob ∈ blobs ∧ chain_metadata (b_objectId blob) = inl e)
  | inl Enoki.OutOfFuel => False
  end.
Proof.
  intros Hs. destruct (reads_scan owners (λ o H, H) s Hs) as [_ Hr]. unfold findBlobObjectByJob. rewrite Hr. clear Hr.
  pose proof (first_match_spec owner_match owners) as Hm. unfold owner_match in Hm at 2 3 4.
  destruct (first_match owner_match owners) as [e|[[blobId objectId]|]]; simpl.
  - destruct Hm as (o & Ho & Hm). exists o. split; [done|]. destruct (listing o) as [e'|blobs]; simpl in Hm; [left; congruence|].
    right. pose proof (first_match_spec blob_match blobs) as Hb. rewrite Hm in Hb. destruct Hb as (blob & Hb & Eb).
    exists blobs, blob. unfold blob_match in Eb. destruct (chain_metadata _); simpl in Eb; naive_solver.
  - destruct Hm as (o & Ho & Hm). destruct (listing o) as [e'|blobs] eqn:Eo; [done|]. simpl in Hm.
    pose proof (first_match_spec blob_match blobs) as Hb. rewrite Hm in Hb. destruct Hb as (blob & Hb & Eb).
    unfold blob_match in Eb. destruct (chain_metadata (b_objectId blob)) as [|entries] eqn:Ec; [done|]. simpl in Eb.
    injection Eb as Eb. unfold job_match in Eb. destruct (_ && _) eqn:Et; [|done]. apply andb_true_iff in Et as [Et1 Et2].
    destruct (blobIdFromRaw _) as [id|] eqn:Er; [|done]. destruct (is_empty id); [done|]. injection Eb as -> <-.
    by exists o, blobs, blob, entries.
  - intros o Ho. specialize (Hm o Ho). destruct (listing o) as [e'|blobs] eqn:Eo; [done|]. simpl in Hm.
    exists blobs. split; [done|]. intros blob Hb. pose proof (first_match_spec blob_match blobs) as Hf.
    rewrite Hm in Hf. specialize (Hf blob Hb). unfold blob_match in Hf.
    destruct (chain_metadata (b_objectId blob)) as [|entries]; [done|]. exists entries. split; [done|].
    simpl in Hf. by injection Hf.
Qed.
End Job.

(** ** Completion audits *)
(** A completion audit passes exactly for a live, certified, deletable
    Walrus blob of the claimed id and size that the claimed owner owns on
    chain, and it returns that blob's own storage end epoch. *)
Theorem completion_audit_exact (object : json) (expected : audit) (blobId : string) (currentEpoch endEpoch : Z) :
  assertCompletionBlobObject WALRUS_PACKAGE_ID object expected blobId currentEpoch = inr endEpoch ↔
  let fields := jget "json" object in
  truthy fields = true ∧
  isWalrusBlobObjectType (coalesce (jget "objectType" object) (jget "type" object)) WALRUS_BLOB_TYPE = true ∧
  chainBlobIdFromRaw (coalesce (jget "blob_id" fields) (jget "blobId" fields)) = inr (Some blobId) ∧
  js_string (jget "size" fields) = js_string (a_size expected) ∧
  jget "deletable" fields = JBool true ∧
  jget "certified_epoch" fields ≠ JNull ∧ jget "certified_epoch" fields ≠ JUndefined ∧
  ownerMatchesRecipient (jget "owner" object) (JStr (a_owner expected)) = true ∧
  as_safe_int (jget "end_epoch" (jget "storage" fields)) = Some endEpoch ∧
  currentEpoch < endEpoch <= 4294967295 ∧ 0 <= endEpoch.
Proof.
  cbv zeta. unfold assertCompletionBlobObject, strictWalrusEpoch.
  set (fields := jget "json" object). rewrite !ensure_inr.
  destruct (chainBlobIdFromRaw _) as [e|id]; [naive_solver|]. rewrite !ensure_inr, bool_decide_eq_true, seqb_eq, andb_true_iff.
  assert (Hd : Enoki.is_bool (jget "deletable" fields) true = true ↔ jget "deletable" fields = JBool true).
  { unfold Enoki.is_bool. destruct (jget "deletable" fields) as [| |[]| | | |]; naive_solver. }
  rewrite Hd. set (ce := jget "certified_epoch" fields).
  assert (Hc : negb (match ce with JNull | JUndefined => true | _ => false end) = true ↔ ce ≠ JNull ∧ ce ≠ JUndefined)
    by (destruct ce; naive_solver).
  rewrite Hc. destruct (as_safe_int _) as [z|]; [|naive_solver].
  destruct ((z <? 0) || (4294967295 <? z)) eqn:Ez.
  - apply orb_true_iff in Ez. split; [naive_solver|]. intros (_ & _ & _ & _ & _ & _ & _ & _ & [= ->] & ? & ?).
    destruct Ez as [Ez|Ez]; bool_to_prop; lia.
  - bool_to_prop. rewrite ensure_inr, negb_true_iff, Z.leb_gt. split.
    + intros (? & ? & [= ->] & ? & (? & ? & ?) & ? & ? & [= ->]). split_and!; done || lia.
    + intros (? & ? & [= ->] & ? & ? & ? & ? & ? & [= ->] & [? ?] & ?). split_and!; done || lia.
Qed.
End QuerySafety.

(** ** A chain with one uploaded and one planted blob *)
#[export] Instance example_walrus : WalrusSdk := {|
  blobIdFromInt := λ s, inr ("b" +:+ s);
  parse_metadata := λ v, inr (match v with
    | JObj fs => omap (λ kv : string * json, match kv.2 with JStr s => Some (kv.1, s) | _ => None end) fs
    | _ => [] end);
|}.
Definition ex_owner : string := "0x" +:+ of_chars (replicate 64 "a"%char).
Definition ex_server : string := "0x" +:+ of_chars (replicate 64 "5"%char).
Definition ex_planter : string := "0x" +:+ of_chars (replicate 64 "e"%char).
Definition jobj1 (k : string) (v : json) : json := JObj [(k, v)].
Definition ex_object (id raw : string) : json :=
  JObj [("objectId", JStr id); ("owner", jobj1 "AddressOwner" (JStr ex_owner));
        ("json", JObj [("blob_id", JStr raw); ("size", jint 10); ("deletable", JBool true);
                       ("certified_epoch", jint 3); ("storage", jobj1 "end_epoch" (jint 20))])].
Definition ex_created (id sender : string) : json :=
  JObj [("$kind", JStr "Transaction");
        ("Transaction", JObj [("status", jobj1 "success" (JBool true));
           ("effects", jobj1 "changedObjects" (JArr [JObj [("objectId", JStr id); ("idOperation", JStr "Created")]]));
           ("transaction", jobj1 "sender" (JStr sender))])].
Definition ex_chain (ev : sevent) : js_error + json :=
  match ev with
  | SListOwned o _ _ => inr (jobj1 "objects" (JArr (if seqb o ex_owner
      then [ex_object "0x1" "blob-1"; ex_object "0x2" "blob-2"] else [])))
  | SDynamicField _ => inr (jobj1 "dynamicField" (jobj1 "value" (jobj1 "bcs"
      (JObj [("memwal_namespace", JStr "work"); ("memwal_owner", JStr ex_owner); ("memwal_job_id", JStr "job-1")]))))
  | SCreationVersion id => inr (jobj1 "data" (jobj1 "object" (jobj1 "previousTransaction" (jobj1 "digest" (JStr id)))))
  | SArchivalTransaction d => inr (ex_created d (if seqb d "0x1" then ex_server else ex_planter))
  | _ => inl (plain_error "not answered")
  end.
Definition ex_service : service :=
  Service (λ tr, match last tr with Some ev => ex_chain ev | None => inl (plain_error "no event") end)
    (λ _, 5) (λ _, 0%Q).
Definition ex_wallet : Enoki.state := Enoki.State [] 0 (Enoki.Metrics 0 0 0 0).
Definition ex_sstate : sstate := SState [] 0 ex_wallet false false "request" None None [].
Lemma ex_stable tr ev : sv_answer ex_service (tr ++ [ev]) = ex_chain ev.
Proof. simpl. by rewrite last_snoc. Qed.
Lemma ex_cache_sound : cache_sound ex_chain ex_sstate.
Proof. split; [constructor|simpl; lia]. Qed.

Definition ex_query : json := JObj [("owner", JStr ex_owner); ("namespace", JStr "work")].

Lemma query_blobs_exact_witness :
  (query_blobs_handler ex_service [ex_server] "0x9" 5 ex_query ex_sstate).2 =
    inr (ok (JObj [("blobs", JArr [JObj [("blobId", JStr "blob-1"); ("objectId", JStr "0x1");
      ("namespace", JStr "work"); ("packageId", JStr empty_str); ("agentId", JStr empty_str)]]);
      ("total", jint 1); ("sourceCapped", JBool false)])) ∧
  cache_sound ex_chain (query_blobs_handler ex_service [ex_server] "0x9" 5 ex_query ex_sstate).1.
Proof.
  split; [vm_compute; reflexivity|].
  destruct (query_blobs_exact ex_service [ex_server] "0x9" 5 ex_chain ex_stable ex_query
    (raw_blob_of "0x1" (ex_object "0x1" "blob-1") :: raw_blob_of "0x2" (ex_object "0x2" "blob-2") :: [])
    ex_sstate) as [H _]; [reflexivity|reflexivity|vm_compute; reflexivity|exact ex_cache_sound|exact H].
Defined.

Definition ex_listing (o : string) : js_error + list RawBlobObj :=
  inr (if seqb (canonical_address o) ex_owner
       then [raw_blob_of "0x1" (ex_object "0x1" "blob-1"); raw_blob_of "0x2" (ex_object "0x2" "blob-2")] else []).

Lemma find_job_exact_witness :
  (findBlobObjectByJob ex_service [ex_server] "0x9" 5 ex_owner "job-1" ex_sstate).2 = inr (Some ("blob-1", "0x1")) ∧
  minted [ex_server] ex_chain ex_owner "job-1" ex_listing "blob-1" "0x1".
Proof.
  split; [vm_compute; reflexivity|].
  assert (Hl : ∀ o, o ∈ scan_owners [ex_server] (normalizeSuiAddress ex_owner) →
    chain_listing "0x9" 5 ex_chain (normalizeSuiAddress o) None None = Some (ex_listing o)).
  { intros o Ho. assert (Hs : scan_owners [ex_server] (normalizeSuiAddress ex_owner) = [ex_server; ex_owner])
      by (vm_compute; reflexivity).
    rewrite Hs in Ho. apply elem_of_cons in Ho as [-> |Ho]; [vm_compute; reflexivity|].
    apply list_elem_of_singleton in Ho as ->. vm_compute. reflexivity. }
  pose proof (find_job_exact ex_service [ex_server] "0x9" 5 ex_chain ex_stable ex_owner "job-1" ex_listing Hl
    ex_sstate ex_cache_sound) as H.
  assert (E : (findBlobObjectByJob ex_service [ex_server] "0x9" 5 ex_owner "job-1" ex_sstate).2 =
    inr (Some ("blob-1", "0x1"))) by (vm_compute; reflexivity).
  rewrite E in H. exact H.
Defined.
