(* ===== verification/Durable.v ===== *)
(** * Building blocks of the durable routes

    Execution identity (routes/health.ts), the prepared register transaction
    and the checkpointed upload steps (routes/walrus-upload-journal.ts),
    metadata and transfer (sidecar/blob-metadata.ts), and the upload retry of
    routes/walrus-upload.ts.

    Transaction data, digests and signatures are @mysten/sui code: the class
    [SuiTx]. *)
From Stdlib Require Import QArith Ascii.
From S2P Require Import Prelude JsText JsNumber JsonParse Hex Base64 SealId Retry Wallet Service Util Blob Query.
From S2P Require Enoki.
Local Open Scope Z_scope.

(** What the code reads of a [TransactionDataBuilder]. *)
Inductive expiration : Type :=
| NoExpiration
| ValidDuring (minTimestamp maxTimestamp : json) (maxEpoch : Z).
Inductive tx_input : Type :=
| OwnedObject
| OtherInput
| FundsWithdrawal (coinType : string).
Record tx_data : Type := TxData {
  td_sender : option string;
  td_gas_owner : option string;
  td_gas_payment : option nat;       (** number of gas coins, [None]: undefined *)
  td_expiration : expiration;
  td_uses_gas_coin : bool;
  td_inputs : list tx_input;
}.

Class SuiTx : Type := {
  tx_digest : list ascii → string;                          (** [getDigestFromBytes] *)
  tx_from_bytes : list ascii → js_error + tx_data;
  tx_sign : string → list ascii → string;                   (** by wallet address *)
  tx_verify : list ascii → string → string → option js_error;
  normalizeStructTag : string → string;
}.

(** ** Resume steps *)
Inductive step_kind : Type := SEncoded | SRegistered | SUploaded | SCertified.
#[export] Instance step_kind_dec : EqDecision step_kind.
Proof. solve_decision. Defined.

Record write_step : Type := WriteStep {
  ws_kind : step_kind;
  ws_blobId : string;
  ws_blobObjectId : string;      (** empty for an encoded step *)
  ws_txDigest : string;          (** registered *)
  ws_certificate : string;       (** uploaded *)
  ws_raw : json;
}.

Definition step_kind_of (v : json) : option step_kind :=
  match v with
  | JStr s => if seqb s "encoded" then Some SEncoded else if seqb s "registered" then Some SRegistered
              else if seqb s "uploaded" then Some SUploaded else if seqb s "certified" then Some SCertified
              else None
  | _ => None
  end.
Definition step_name (k : step_kind) : string :=
  match k with SEncoded => "encoded" | SRegistered => "registered" | SUploaded => "uploaded" | SCertified => "certified" end.

Definition is_object (v : json) : bool := match v with JObj _ | JArr _ => true | _ => false end.
Definition str_field (k : string) (v : json) : option string := nonempty_str (jget k v).

Definition parseResumeStep (raw : json) : js_error + option write_step :=
  match raw with
  | JNull | JUndefined => inr None
  | _ =>
      guard_or is_object raw else plain_error "resumeStep must be an object";
      match step_kind_of (jget "step" raw) with
      | None => inl (plain_error ("Invalid resumeStep.step: " +:+ js_string (jget "step" raw)))
      | Some kind =>
          match str_field "blobId" raw with
          | None => inl (plain_error "resumeStep.blobId is required")
          | Some blobId =>
              match kind with
              | SEncoded =>
                  guard_or match jget "rootHash" raw, as_safe_int (jget "unencodedSize" raw) with
                           | JStr _, Some z => 0 <=? z
                           | _, _ => false
                           end else plain_error "encoded resumeStep requires rootHash and unencodedSize";
                  inr (Some (WriteStep kind blobId empty_str empty_str empty_str raw))
              | _ =>
                  match str_field "blobObjectId" raw with
                  | None => inl (plain_error (step_name kind +:+ " resumeStep requires blobObjectId"))
                  | Some objectId =>
                      let txDigest := str_field "txDigest" raw in
                      let certificate := str_field "certificate" raw in
                      guard_or negb (bool_decide (kind = SRegistered) && bool_decide (txDigest = None))
                        else plain_error "registered resumeStep requires txDigest";
                      guard_or negb (bool_decide (kind = SUploaded) && bool_decide (certificate = None))
                        else plain_error "uploaded resumeStep requires certificate";
                      inr (Some (WriteStep kind blobId objectId (default empty_str txDigest)
                                   (default empty_str certificate) raw))
                  end
              end
          end
      end
  end.

Record PreparedRegisterTransaction : Type := Prepared {
  transactionBytes : string;
  signature : string;
  digest : string;
}.
Definition parsePreparedRegisterTransaction (raw : json) : js_error + option PreparedRegisterTransaction :=
  match raw with
  | JNull | JUndefined => inr None
  | _ =>
      guard_or is_object raw else plain_error "registerTransaction must be an object";
      match str_field "transactionBytes" raw, str_field "signature" raw, str_field "digest" raw with
      | Some b, Some s, Some d => inr (Some (Prepared b s d))
      | _, _, _ => inl (plain_error "registerTransaction requires transactionBytes, signature, and digest")
      end
  end.

Section Durable.
Context `{SuiSdk} `{WalrusSdk} `{SuiTx} (sv : service).
Context (WALRUS_PACKAGE_ID SUI_TYPE SUI_CHAIN_IDENTIFIER SUI_NETWORK : string).

Notation WALRUS_BLOB_TYPE := (WALRUS_BLOB_TYPE WALRUS_PACKAGE_ID).

(** ** Execution identity (health.ts) *)
Definition READINESS_CACHE_MS : Z := 30000.

Definition check_identity (info : json) : js_error + (string * string) :=
  let chainId := jget "chainId" info in
  guard_or truthy chainId else plain_error "Sui gRPC service info has no chain id";
  guard_or Enoki.is_str chainId SUI_CHAIN_IDENTIFIER
    else plain_error ("Sui endpoint chain id does not match " +:+ SUI_NETWORK);
  guard_or Enoki.is_str (jget "blobType" info) WALRUS_BLOB_TYPE
    else plain_error ("Walrus SDK blob type " +:+ js_string (jget "blobType" info) +:+ " does not match " +:+ WALRUS_BLOB_TYPE);
  inr (SUI_CHAIN_IDENTIFIER, WALRUS_PACKAGE_ID).

Definition fetch_identity : SM (string * string) :=
  info ← call sv SServiceInfo;
  value ← s_of_sum (check_identity info);
  now ← gets s_clock;
  _ ← modify (s_set_identity (Some (value, now)));
  mret value.
Definition executionIdentity : SM (string * string) :=
  now ← gets s_clock;
  cached ← gets s_identityCache;
  match cached with
  | Some (value, checkedAtMs) => if now - checkedAtMs <? READINESS_CACHE_MS then mret value else fetch_identity
  | None => fetch_identity
  end.

Definition parseUploadExecutionIdentity (value : json) : option (string * string) :=
  match str_field "chainIdentifier" value, str_field "walrusPackageId" value with
  | Some c, Some p => Some (c, p)
  | _, _ => None
  end.

(** [JSON.stringify] of an identity, which holds no numbers. *)
Definition identity_text (id : string * string) : string :=
  json_stringify (λ _, empty_str) (JObj [("chainIdentifier", JStr id.1); ("walrusPackageId", JStr id.2)]).
Definition assertUploadExecutionIdentity (expected : string * string) : SM unit :=
  actual ← executionIdentity;
  if seqb actual.1 expected.1 && seqb actual.2 expected.2 then mret tt
  else s_throw (unavailable ("upload execution identity mismatch: expected " +:+ identity_text expected +:+
                             ", got " +:+ identity_text actual) JUndefined).

(** ** Blob objects on chain *)
Definition readUploadBlobObject (blobObjectId : string) : SM json :=
  rpc_retry sv 6 (readBlobObject sv blobObjectId).

Definition blob_id_field (fields : json) : json := coalesce (jget "blob_id" fields) (jget "blobId" fields).

(** The certified step, when the object is certified. *)
Definition certified_of (blobId blobObjectId : string) (response : json) : js_error + option json :=
  let fields := jget "json" (jget "object" response) in
  guard_or truthy fields else verify_error ("Blob " +:+ blobObjectId +:+ " has no JSON fields");
  match chainBlobIdFromRaw (blob_id_field fields) with
  | inl e => inl e
  | inr chainBlobId =>
      guard_or bool_decide (chainBlobId = Some blobId)
        else verify_error ("Blob " +:+ blobObjectId +:+ " id mismatch: expected " +:+ blobId +:+ ", got " +:+
                           default "null" chainBlobId);
      match coalesce (coalesce (jget "certified_epoch" fields) (jget "certifiedEpoch" fields)) JNull with
      | JNull => inr None
      | certifiedEpoch =>
          inr (Some (JObj [("step", JStr "certified"); ("blobId", JStr blobId); ("blobObjectId", JStr blobObjectId);
            ("blobObject", JObj (set_field "certified_epoch" certifiedEpoch
              (set_field "id" (JStr blobObjectId) (match fields with JObj fs => fs | _ => [] end))))]))
      end
  end.
Definition certifiedStep (blobId blobObjectId : string) : SM (option json) :=
  response ← readUploadBlobObject blobObjectId;
  s_of_sum (certified_of blobId blobObjectId response).

Definition created_blobs (transaction : json) : list string :=
  omap (λ object,
    if Enoki.is_str (jget "idOperation" object) "Created" then
      match jget "objectId" object with
      | JStr id => if isWalrusBlobObjectType (jget id (jget "objectTypes" transaction)) WALRUS_BLOB_TYPE
                   then Some id else None
      | _ => None
      end
    else None) (elements (jget "changedObjects" (jget "effects" transaction))).

Definition createdBlobObjectIdFromTransaction (result : json) : js_error + string :=
  match Enoki.assertFinalizedTransactionSuccess result "registration transaction" with
  | inl e => inl e
  | inr transaction =>
      match created_blobs transaction with
      | [id] => inr id
      | l => inl (plain_error ("registration transaction created " +:+ pretty (Z.of_nat (length l)) +:+
                               " Walrus Blob objects"))
      end
  end.

Definition registered_matches (encoded response : json) : js_error + bool :=
  let fields := jget "json" (jget "object" response) in
  if negb (truthy fields) then inr false
  else match chainBlobIdFromRaw (blob_id_field fields) with
       | inl e => inl e
       | inr id =>
           inr (match id with Some b => Enoki.is_str (jget "blobId" encoded) b | None => false end &&
                blobObjectMatchesRegistration (coalesce (jget "size" fields) JNull)
                  (match jget "deletable" fields with JBool b => Some b | _ => None end)
                  (jget "unencodedSize" encoded))
       end.
Definition validateRegisteredBlob (blobObjectId : string) (encoded : json) : SM unit :=
  response ← readUploadBlobObject blobObjectId;
  matches ← s_of_sum (registered_matches encoded response);
  if matches : bool then mret tt
  else s_throw (verify_error ("registered Blob " +:+ blobObjectId +:+ " does not match the encoded upload intent")).

Definition registeredStep (encoded : json) (blobObjectId txDigest : string) : json :=
  JObj ([("step", JStr "registered"); ("blobId", jget "blobId" encoded); ("blobObjectId", JStr blobObjectId);
         ("txDigest", JStr txDigest)] ++
        (if truthy (jget "nonce" encoded) then [("nonce", jget "nonce" encoded)] else [])).

(** ** The prepared register transaction *)
Definition durableRegisterDirectSigningAllowed (enokiConfigured fallbackToDirectSign : bool) : bool :=
  negb enokiConfigured || fallbackToDirectSign.

Definition is_owned (i : tx_input) : bool := match i with OwnedObject => true | _ => false end.
Definition is_wal_withdrawal (i : tx_input) : bool :=
  match i with FundsWithdrawal t => negb (seqb (normalizeStructTag t) (normalizeStructTag SUI_TYPE)) | _ => false end.

Definition assertAddressBalanceRegisterTransaction (td : tx_data) : js_error + Z :=
  guard_or bool_decide (td_gas_payment td = Some 0%nat)
    else plain_error "registerTransaction must pay gas from the address balance";
  match td_expiration td with
  | ValidDuring JNull JNull maxEpoch =>
      guard_or negb (td_uses_gas_coin td)
        else plain_error "registerTransaction resolved the relay tip from an owned SUI coin";
      guard_or negb (existsb is_owned (td_inputs td))
        else plain_error "registerTransaction resolved WAL from an owned coin";
      guard_or existsb is_wal_withdrawal (td_inputs td)
        else plain_error "registerTransaction has no WAL address-balance withdrawal";
      inr maxEpoch
  | _ => inl (plain_error "registerTransaction must use a ValidDuring address-balance expiration")
  end.

(** [prepareRegisterTransaction]: [SBuild] answers the built bytes. *)
Definition prepareRegisterTransaction (signerAddress : string) : SM PreparedRegisterTransaction :=
  built ← call sv SBuild;
  let bytes := match built with JStr s => chars s | _ => [] end in
  td ← s_of_sum (tx_from_bytes bytes);
  _ ← s_of_sum (assertAddressBalanceRegisterTransaction td);
  mret (Prepared (to_base64 bytes) (tx_sign signerAddress bytes) (tx_digest bytes)).

Record ValidatedRegister : Type := Validated {
  v_prepared : PreparedRegisterTransaction;
  v_bytes : list ascii;
  v_maxEpoch : option Z;
}.

Definition validatePreparedRegisterTransaction (prepared : PreparedRegisterTransaction)
    (expectedWalletAddress : string) : js_error + ValidatedRegister :=
  let bytes := from_base64 (transactionBytes prepared) in
  guard_or negb (bool_decide (bytes = [])) && seqb (to_base64 bytes) (transactionBytes prepared)
    else plain_error "registerTransaction.transactionBytes is not canonical base64";
  guard_or seqb (tx_digest bytes) (digest prepared)
    else plain_error ("registerTransaction digest mismatch: expected " +:+ digest prepared +:+ ", got " +:+ tx_digest bytes);
  match tx_from_bytes bytes with
  | inl e => inl (plain_error ("registerTransaction contains invalid TransactionData: " +:+ e_message e))
  | inr td =>
      let walletAddress := normalizeSuiAddress expectedWalletAddress in
      let is_wallet a := match a with
                         | Some x => negb (is_empty x) && seqb (normalizeSuiAddress x) walletAddress
                         | None => false
                         end in
      guard_or is_wallet (td_sender td)
        else plain_error "registerTransaction sender does not match the journaled wallet";
      guard_or is_wallet (td_gas_owner td)
        else plain_error "registerTransaction gas owner does not match the journaled wallet";
      match tx_verify bytes (signature prepared) walletAddress with
      | Some e => inl e
      | None => inr (Validated prepared bytes
                       (match td_expiration td with ValidDuring _ _ m => Some m | NoExpiration => None end))
      end
  end.

Definition currentSuiEpoch : SM Z :=
  now ← gets s_clock;
  cache ← gets s_epochCache;
  let load := systemState ← call sv SCurrentEpoch;
              epoch ← s_of_sum (match to_bigint (jget "epoch" (jget "systemState" systemState)) with
                                | Some z => inr z | None => inl (plain_error "BigInt") end);
              loaded ← gets s_clock;
              _ ← modify (s_set_epoch (Some (epoch, loaded)));
              mret epoch : SM Z in
  match cache with
  | Some (epoch, loadedAtMs) => if now - loadedAtMs <? 5000 then mret epoch else load
  | None => load
  end.

(** [trackWalletSubmission] on the sidecar's metrics. *)
Definition set_metrics (f : Enoki.metrics → Enoki.metrics) (s : sstate) : sstate :=
  let ws := s_wallet s in
  SState (s_trace s) (s_clock s) (Enoki.set_metrics (f (Enoki.sidecarMetrics ws)) ws) (s_started s) (s_can s)
    (s_phase s) (s_epochCache s) (s_identityCache s) (s_provenance s).
Definition track_submission {A} (submit : SM A) : SM A :=
  s_catch (r ← submit; _ ← modify (set_metrics Enoki.count_success); mret r)
    (λ err, _ ← modify (set_metrics (Enoki.count_failure (error_text err))); s_throw err).

Definition assert_digest (expected : string) (result : json) : js_error + json :=
  let d := coalesce (jget "digest" (jget "Transaction" result)) (jget "digest" (jget "FailedTransaction" result)) in
  guard_or Enoki.is_str d expected
    else plain_error ("register transaction response digest mismatch: expected " +:+ expected +:+ ", got " +:+ js_string d);
  inr result.

Definition expired_ambiguous (d : string) (maxEpoch : Z) : js_error :=
  unavailable ("prepared register transaction " +:+ d +:+ " expired at epoch " +:+ pretty maxEpoch +:+
               " but remains ambiguous") JUndefined.
Definition expired_absent (d : string) (maxEpoch : Z) : js_error :=
  no_side_effect_error ("prepared register transaction " +:+ d +:+ " expired at epoch " +:+ pretty maxEpoch +:+
                        " and is not on chain").

(** The digest lookup: [None] when the transaction is not on chain. *)
Definition lookup_transaction (d : string) : SM (option json) :=
  s_catch (v ← call sv (SGetTransaction d); mret (match v with JUndefined => None | _ => Some v end))
    (λ error, if mem_code (e_code error) ["NOT_FOUND"] then mret None else s_throw error).

Definition executePreparedRegisterTransaction (prepared : ValidatedRegister) (mayHaveBeenSubmitted : bool)
    : SM json :=
  let d := digest (v_prepared prepared) in
  existing ← lookup_transaction d;
  match existing with
  | Some result => _ ← modify (s_set_started true); s_of_sum (assert_digest d result)
  | None =>
      _ ← (match v_maxEpoch prepared with
           | None => mret tt
           | Some maxEpoch =>
               epoch ← currentSuiEpoch;
               if maxEpoch <? epoch then
                 if mayHaveBeenSubmitted then s_throw (expired_ambiguous d maxEpoch)
                 else s_throw (expired_absent d maxEpoch)
               else mret tt
           end);
      _ ← modify (s_set_started true);
      result ← track_submission (call sv (SExecute (of_chars (v_bytes prepared)) (signature (v_prepared prepared))));
      s_of_sum (assert_digest d result)
  end.

(** ** Upload with effects retry (walrus-upload.ts) *)
Definition WALRUS_UPLOAD_EFFECTS_RETRY_DELAYS_MS : list Z := [2000; 5000; 10000; 20000; 40000].
Fixpoint upload_loop (delays : list Z) (registerDigest : string) (deletable : option bool) : SM json :=
  s_catch (call sv (SUpload registerDigest deletable)) (λ err,
    match delays with
    | [] => s_throw err
    | ms :: delays' =>
        if negb (isWalrusBlobObjectMissingFromEffects (e_message err)) then s_throw err
        else _ ← s_sleep ms; upload_loop delays' registerDigest deletable
    end).
Definition uploadWalrusBlobWithEffectsRetry (registerDigest : string) (deletable : option bool) : SM json :=
  upload_loop WALRUS_UPLOAD_EFFECTS_RETRY_DELAYS_MS registerDigest deletable.
End Durable.

(** ** Metadata and transfer (blob-metadata.ts) *)
Definition extractBlobObjectId (blob : json) : option string :=
  match jget "blobObjectId" blob with
  | JStr s => Some s
  | _ => match jget "id" (jget "blobObject" blob) with
         | JStr s => Some s
         | JObj fs => match jget "id" (JObj fs) with JStr s => Some s | _ => None end
         | _ => None
         end
  end.

Record MetadataTransferBlob : Type := TransferBlob {
  mt_blobObjectId : string;
  mt_namespace : string;       (** empty when absent *)
  mt_fence : seal_fence;
}.

Definition nonempty (o : option string) : list string :=
  match o with Some s => if is_empty s then [] else [s] | None => [] end.

Definition blob_commands (owner : string) (packageId agentId : option string) (blob : MetadataTransferBlob)
    : list ptb_command :=
  let pair := MetadataPair (mt_blobObjectId blob) in
  map FenceCall (appendSealPersistenceFence [] (mt_fence blob)) ++
  [pair "memwal_namespace" (if is_empty (mt_namespace blob) then "default" else mt_namespace blob);
   pair "memwal_owner" owner] ++
  map (pair "memwal_package_id") (nonempty packageId) ++ map (pair "memwal_agent_id") (nonempty agentId).

(** [buildMetadataTransferTx] *)
Definition buildMetadataTransferTx (blobs : list MetadataTransferBlob) (owner : string)
    (packageId agentId : option string) : list ptb_command :=
  flat_map (blob_commands owner packageId agentId) blobs ++ [TransferObjects (map mt_blobObjectId blobs) owner].

Section Transfer.
Context `{Wallet} (sv : service).

Definition js_digest (v : json) : string := js_string v.

(** [setMetadataAndTransferBlobs]; [track]: a submission callback is given. *)
Definition setMetadataAndTransferBlobs (signer : string) (blobs : list MetadataTransferBlob) (owner : string)
    (packageId agentId : option string) (policy : Enoki.EnokiFallbackPolicy) (track : bool) : SM json :=
  match blobs with
  | [] => s_throw (plain_error "No blobs to transfer")
  | _ =>
      _ ← modify (s_emit (STransfer (buildMetadataTransferTx blobs owner packageId agentId)));
      digest ← wallet track (submitRebuildable signer (dedupeAddresses [Some signer; Some owner]) policy);
      result ← call sv (SWait (js_digest digest));
      _ ← s_of_sum (Enoki.assertFinalizedTransactionSuccess result
                      ("metadata transfer transaction " +:+ js_digest digest));
      mret digest
  end.
End Transfer.
