(* ===== verification/Journal.v ===== *)
(** * The durable upload journal (routes/walrus-upload-journal.ts)

    The handler of [POST /walrus/upload-step-v3]: request validation, one
    checkpointable step, and the classification of its failures. *)
From Stdlib Require Import QArith Ascii.
From S2P Require Import Prelude JsText JsNumber JsonParse Hex Base64 SealId Retry Config Wallet Service.
From S2P Require Import Util Blob Query Durable.
From S2P Require Enoki.
Local Open Scope Z_scope.

(** The process configuration the handler reads. *)
Record journal_config : Type := JournalConfig {
  jc_keys : list string;                 (** [SERVER_SUI_PRIVATE_KEYS] *)
  jc_address : string → js_error + string;  (** decode a key, take its address *)
  jc_network : Config.SuiNetwork;
  jc_default_epochs : Z;
  jc_enoki : bool;                       (** [!!ENOKI_API_KEY] *)
  jc_fallback : bool;                    (** [ENOKI_FALLBACK_TO_DIRECT_SIGN] *)
}.
Definition DURABLE_UPLOAD_PROTOCOL_VERSION : Z := 3.

(** A validated request. *)
Record journal_request : Type := JournalRequest {
  jr_data : string;
  jr_jobId : string;
  jr_slot : Z;
  jr_signer : string;
  jr_wallet : string;
  jr_owner : option string;
  jr_namespace : json;
  jr_packageId : json;
  jr_epochs : Z;
  jr_resume : option write_step;
  jr_prepared : option PreparedRegisterTransaction;
  jr_reconcile : bool;
  jr_identity : option (string * string);
}.

Definition phase_of (resume : option write_step) (prepared : bool) : string :=
  match resume with
  | None => "encode"
  | Some s => match ws_kind s with
              | SEncoded => if prepared then "register_execute" else "register_prepare"
              | k => step_name k
              end
  end.
(** The phases that may submit a transaction. *)
Definition may_submit (reconcileOnly : bool) (resume : option write_step) : bool :=
  negb reconcileOnly &&
  match resume with Some s => match ws_kind s with SEncoded | SUploaded => true | _ => false end | None => false end.

(** [SERVER_SUI_PRIVATE_KEYS[keySlot]] *)
Definition key_at (keys : list string) (slot : Z) : option string :=
  match keys !! Z.to_nat slot with Some k => if is_empty k then None else Some k | None => None end.

(** [value && !re.test(value)] *)
Definition bad_optional (p : string → bool) (v : json) : bool :=
  truthy v && negb (match v with JStr s => p s | _ => false end).

Definition mismatch_response (actual : json) : response :=
  Resp 409 (JObj [("error", JStr ("upload protocol mismatch: expected 3, got " +:+ js_string actual));
    ("code", JStr "UPLOAD_PROTOCOL_VERSION_MISMATCH");
    ("expectedUploadProtocolVersion", jint DURABLE_UPLOAD_PROTOCOL_VERSION);
    ("actualUploadProtocolVersion", coalesce actual JNull)]).
Definition coded (status : Z) (error code : string) (fields : list (string * json)) : response :=
  Resp status (JObj ([("error", JStr error); ("code", JStr code)] ++ fields)).

(** The answer to a failed request. *)
Definition failure_response (traceId : string) (err : js_error) (can started : bool) : response :=
  let trace := [("traceId", JStr traceId)] in
  match classifyDurableSideEffectError err can started with
  | Some DURABLE_SIDE_EFFECT_VERIFY_FAILED =>
      coded 422 (e_message err) "DURABLE_SIDE_EFFECT_VERIFY_FAILED" trace
  | Some SHARED_SERVICE_UNAVAILABLE => coded 503 (e_message err) "SHARED_SERVICE_UNAVAILABLE" trace
  | Some (NO_SIDE_EFFECT shared) =>
      coded 503 (e_message err) "NO_SIDE_EFFECT"
        ((if shared then [("causeCode", JStr "SHARED_SERVICE_UNAVAILABLE")] else []) ++ trace)
  | None => Resp 500 (JObj ([("error", JStr (e_message err))] ++ trace))
  end.

Section Journal.
Context `{SuiSdk} `{WalrusSdk} `{SuiTx} `{Wallet} (sv : service) (cfg : journal_config).
Context (WALRUS_PACKAGE_ID SUI_TYPE SUI_CHAIN_IDENTIFIER SUI_NETWORK : string).

(** [requestIdFor(req)] *)
Context (traceId : string).
Notation certifiedStep := (certifiedStep sv).

(** ** Validation

    [inl]: the early answer.  The phase and [phaseCanSubmitSideEffect] are
    set on the way. *)
Definition parse_steps (body : json) : js_error + (option write_step * option PreparedRegisterTransaction) :=
  match parseResumeStep (jget "resumeStep" body) with
  | inl e => inl e
  | inr resume =>
      match parsePreparedRegisterTransaction (jget "registerTransaction" body) with
      | inl e => inl e
      | inr prepared => inr (resume, prepared)
      end
  end.

Definition validate_tail (body : json) (mk : option write_step → option PreparedRegisterTransaction → bool →
    option (string * string) → journal_request) : SM (response + journal_request) :=
  match parse_steps body with
  | inl e => mret (inl (refuse 400 (e_message e)))
  | inr (resume, prepared) =>
      _ ← modify (s_set_phase (phase_of resume (bool_decide (is_Some prepared))));
      require negb (bool_decide (is_Some prepared)) ||
              match resume with Some s => bool_decide (ws_kind s = SEncoded) | None => false end
        else inl (refuse 400 "registerTransaction is valid only with an encoded resumeStep");
      require num_is (jget "uploadProtocolVersion" body) DURABLE_UPLOAD_PROTOCOL_VERSION
        else inl (mismatch_response (jget "uploadProtocolVersion" body));
      let reconcileOnly := truthy (jget "reconcileOnly" body) in
      _ ← modify (s_set_can (may_submit reconcileOnly resume));
      let rawIdentity := jget "uploadExecutionIdentity" body in
      let identity := if is_undefined rawIdentity then None else parseUploadExecutionIdentity rawIdentity in
      require is_undefined rawIdentity || bool_decide (is_Some identity)
        else inl (refuse 400 "Invalid uploadExecutionIdentity");
      mret (inr (mk resume prepared reconcileOnly identity))
  end.

Definition epochs_message (rawEpochs : json) : string :=
  (if decide (jc_network cfg = Config.mainnet) then "Invalid epochs: mainnet requires exactly 15, got "
   else "Invalid epochs: expected an integer from 1 to 15, got ") +:+ js_string rawEpochs.

Definition validate_journal (body : json) : SM (response + journal_request) :=
  let data := jget "data" body in
  let owner := jget "owner" body in
  match sanitizeRequestId (jget "jobId" body) with
  | None => mret (inl (refuse 400 "Missing required fields: data, keyIndex, jobId"))
  | Some jobId =>
      require truthy data && negb (is_undefined (jget "keyIndex" body))
        else inl (refuse 400 "Missing required fields: data, keyIndex, jobId");
      require negb (bad_optional is_full_address owner) else inl (refuse 400 "Invalid owner address format");
      require negb (bad_optional is_sui_address (jget "packageId" body))
        else inl (refuse 400 "Invalid packageId format");
      match parseWalrusKeySlot (jget "keyIndex" body) with
      | None => mret (inl (refuse 400 ("Invalid keyIndex: " +:+ js_string (jget "keyIndex" body))))
      | Some slot =>
          match key_at (jc_keys cfg) slot with
          | None => mret (inl (refuse 400 ("Invalid keyIndex: " +:+ js_string (jget "keyIndex" body))))
          | Some key =>
              signerAddress ← s_of_sum (jc_address cfg key);
              match coalesce (jget "walletAddress" body) (JStr signerAddress) with
              | JStr walletAddress =>
                  require is_full_address walletAddress else inl (refuse 400 "Invalid walletAddress format");
                  let rawEpochs := match jget "epochs" body with JUndefined => jint (jc_default_epochs cfg) | v => v end in
                  match Config.parseDurableWalrusEpochs rawEpochs (jc_network cfg) with
                  | None => mret (inl (refuse 400 (epochs_message rawEpochs)))
                  | Some epochs =>
                      validate_tail body (JournalRequest (js_string data) jobId slot signerAddress
                        (normalizeSuiAddress walletAddress)
                        (match owner with JStr s => if is_empty s then None else Some (normalizeSuiAddress s) | _ => None end)
                        (jget "namespace" body) (jget "packageId" body) epochs)
                  end
              | _ => mret (inl (refuse 400 "Invalid walletAddress format"))
              end
          end
      end
  end.

(** ** One step *)
Definition register_attributes (r : journal_request) : list (string * string) :=
  (if truthy (jr_namespace r) then [("memwal_namespace", js_string (jr_namespace r))] else []) ++
  match jr_owner r with Some o => [("memwal_owner", o)] | None => [] end ++
  (if truthy (jr_packageId r) then [("memwal_package_id", js_string (jr_packageId r))] else []) ++
  [("memwal_migration_job", jr_jobId r)].

Definition step_response (step : json) : response := ok (JObj [("step", step)]).

(** [register_execute]: the journaled signed transaction. *)
Definition register_execute (r : journal_request) (prepared : PreparedRegisterTransaction) (encoded : json)
    : SM (response + json) :=
  match validatePreparedRegisterTransaction prepared (jr_wallet r) with
  | inl e => mret (inl (coded 409 (e_message e) "INVALID_PREPARED_REGISTER_TRANSACTION" [("jobId", JStr (jr_jobId r))]))
  | inr validated =>
      _ ← modify (s_set_can true);
      _ ← (if jr_reconcile r then modify (s_set_started true) else mret tt);
      result ← executePreparedRegisterTransaction sv validated (jr_reconcile r);
      blobObjectId ← s_of_sum (createdBlobObjectIdFromTransaction WALRUS_PACKAGE_ID result);
      _ ← validateRegisteredBlob sv blobObjectId encoded;
      mret (inr (registeredStep encoded blobObjectId (digest (v_prepared validated))))
  end.

(** [register_prepare]: build and sign, submit nothing. *)
Definition register_prepare (r : journal_request) (encoded : json) : SM (response + json) :=
  require negb (jr_reconcile r)
    else inl (coded 409 "register reconciliation requires the journaled signed transaction"
                "MISSING_PREPARED_REGISTER_TRANSACTION"
                [("jobId", JStr (jr_jobId r)); ("blobId", jget "blobId" encoded)]);
  require durableRegisterDirectSigningAllowed (jc_enoki cfg) (jc_fallback cfg)
    else inl (coded 409 "durable register replay requires direct signing"
                "DURABLE_REGISTER_REPLAY_REQUIRES_DIRECT_SIGN" [("jobId", JStr (jr_jobId r))]);
  _ ← call sv (SRegister (register_attributes r) (jr_epochs r));
  p ← prepareRegisterTransaction sv SUI_TYPE (jr_signer r);
  identity ← executionIdentity sv WALRUS_PACKAGE_ID SUI_CHAIN_IDENTIFIER SUI_NETWORK;
  mret (inl (ok (JObj [
    ("registerTransaction", JObj [("transactionBytes", JStr (transactionBytes p));
       ("signature", JStr (signature p)); ("digest", JStr (digest p))]);
    ("resumeStep", encoded); ("walletAddress", JStr (jr_signer r));
    ("uploadExecutionIdentity", JObj [("chainIdentifier", JStr identity.1); ("walrusPackageId", JStr identity.2)])]))).

Definition step_registered (r : journal_request) (step : write_step) : SM (response + json) :=
  certified ← certifiedStep (ws_blobId step) (ws_blobObjectId step);
  match certified with
  | Some c => mret (inr c)
  | None =>
      _ ← call sv SEncode;
      uploaded ← uploadWalrusBlobWithEffectsRetry sv (ws_txDigest step) (Some true);
      mret (inr uploaded)
  end.

Definition certify_blob (r : journal_request) (step : write_step) : SM (response + json) :=
  _ ← modify (s_emit (SCertify (ws_blobId step) (ws_blobObjectId step) (ws_certificate step)));
  d ← wallet true (submitRebuildable (jr_signer r) [] Enoki.DURABLE_WALLET_FALLBACK_POLICY);
  result ← call sv (SWait (js_digest d));
  _ ← s_of_sum (Enoki.assertFinalizedTransactionSuccess result ("certification transaction " +:+ js_digest d));
  certified ← certifiedStep (ws_blobId step) (ws_blobObjectId step);
  match certified with
  | Some c => mret (inr c)
  | None => s_throw (plain_error ("certified Blob " +:+ ws_blobObjectId step +:+ " is not certified on chain"))
  end.

Definition step_uploaded (r : journal_request) (step : write_step) : SM (response + json) :=
  certified ← certifiedStep (ws_blobId step) (ws_blobObjectId step);
  match certified with
  | Some c => mret (inr c)
  | None =>
      require negb (jr_reconcile r)
        else inl (coded 409 "Blob is not certified after an ambiguous certify phase" "AMBIGUOUS_CERTIFY_NOT_FOUND"
                    [("jobId", JStr (jr_jobId r)); ("blobId", JStr (ws_blobId step));
                     ("objectId", JStr (ws_blobObjectId step))]);
      certify_blob r step
  end.

Definition next_step (r : journal_request) : SM (response + json) :=
  _ ← call sv (SFlow (jr_data r) (match jr_resume r with Some s => ws_raw s | None => JNull end));
  match jr_resume r with
  | None => step ← call sv SEncode; mret (inr step)
  | Some step =>
      match ws_kind step with
      | SEncoded =>
          encoded ← call sv SEncode;
          match jr_prepared r with
          | Some prepared => register_execute r prepared encoded
          | None => register_prepare r encoded
          end
      | SRegistered => step_registered r step
      | SUploaded => step_uploaded r step
      | SCertified => mret (inr (ws_raw step))
      end
  end.

(** [delayInjectedResponseOnce]: an opaque call when a submission started. *)
Definition fault_delay (jobId : string) : SM unit :=
  started ← gets s_started;
  if started : bool then (_ ← call sv (SFaultDelay jobId); mret tt) else mret tt.

(** With the slots held. *)
Definition run_step (r : journal_request) : SM response :=
  require seqb (jr_signer r) (jr_wallet r)
    else coded 409 "keyIndex no longer maps to the journaled wallet" "WALLET_MAPPING_MISMATCH"
      [("expectedWalletAddress", JStr (jr_wallet r)); ("actualWalletAddress", JStr (jr_signer r))];
  _ ← modify (s_emit (SRefreshClient "stale"));
  out ← next_step r;
  match out with
  | inl answered => mret answered
  | inr step => _ ← fault_delay (jr_jobId r); mret (step_response step)
  end.

Definition on_error (err : js_error) : SM response := λ s,
  (s, inr (failure_response traceId err (s_can s) (s_started s))).

(** Everything before the slots are held. *)
Definition admission (body : json) : SM (response + journal_request) :=
  v ← validate_journal body;
  match v with
  | inl answered => mret (inl answered)
  | inr r =>
      _ ← (match jr_identity r with
           | Some id => assertUploadExecutionIdentity sv WALRUS_PACKAGE_ID SUI_CHAIN_IDENTIFIER SUI_NETWORK id
           | None => mret tt
           end);
      _ ← call sv (SAcquireSlots (jr_slot r));
      mret (inr r)
  end.

Definition upload_step_handler (body : json) : SM response :=
  _ ← modify (λ s, s_set_phase "request" (s_set_can false (s_set_started false s)));
  admitted ← s_catch (admission body) (λ err, answered ← on_error err; mret (inl answered));
  match admitted with
  | inl answered => mret answered
  | inr r => with_slots (s_catch (run_step r) on_error)
  end.
End Journal.
