(* ===== verification/Metadata.v ===== *)
(** * Metadata and transfer of uploaded blobs (routes/walrus-metadata.ts)

    The handlers of [POST /walrus/set-metadata-batch] and of the durable
    [POST /walrus/set-metadata].  Fields the code passes on as text are texts. *)
From Stdlib Require Import QArith Ascii.
From S2P Require Import Prelude JsText JsNumber JsonParse Hex Base64 SealId Retry Wallet Service Util.
From S2P Require Import Blob Query Durable Journal.
From S2P Require Enoki.
Local Open Scope Z_scope.

(** The message of an [InvalidSealPersistenceFenceError]. *)
Definition fence_message (e : fence_error) : string :=
  match e with
  | V1Disabled => "sealAbi=v1 persistence bypass is disabled on this sidecar"
  | AbiNotExplicit => "sealAbi must be explicitly set to v1 or v1-new"
  | BadAccountId => "Invalid or missing accountId for v1-new persistence fence"
  | BadRegistryId => "Invalid or missing registryId for v1-new persistence fence"
  | BadPolicyPackageId => "Invalid or missing policyPackageId for v1-new persistence fence"
  | PolicyNotConfigured => "Sidecar SEAL policy package is not configured"
  | PolicyMismatch => "policyPackageId does not match the configured SEAL policy package"
  | BadPackageId => "Invalid or missing packageId for v1-new persistence fence"
  | MissingData => "Missing encrypted data for v1-new persistence fence"
  | InvalidEncryptedData => "Invalid encrypted data for v1-new persistence fence"
  | CiphertextPackageMismatch => "Ciphertext packageId does not match packageId"
  | InvalidSealId => "Ciphertext has an invalid SEAL id"
  end.
Definition fence_js (e : fence_error) : js_error :=
  JsError InvalidSealPersistenceFenceError JUndefined JUndefined JUndefined JUndefined (fence_message e)
    ("InvalidSealPersistenceFenceError: " +:+ fence_message e) "InvalidSealPersistenceFenceError".
Definition is_fence_error (e : js_error) : bool := bool_decide (e_class e = InvalidSealPersistenceFenceError).
Definition is_limit_error (e : js_error) : bool := bool_decide (e_class e = WalrusUploadLimitError).
Definition fence_of `{SuiSdk} (input packageId : json) (policy : seal_policy) : js_error + seal_fence :=
  match parseSealPersistenceFence input packageId policy with inl e => inl (fence_js e) | inr f => inr f end.

(** [value || undefined] of a text field *)
Definition text_field (v : json) : option string := if truthy v then Some (js_string v) else None.
(** [typeof v === "string" && re.test(v)] *)
Definition text_matches (p : string → bool) (v : json) : bool := match v with JStr s => p s | _ => false end.
Definition text_of (v : json) : string := match v with JStr s => s | _ => empty_str end.
(** Bytes, carried as a text. *)
Definition bytes_of (v : json) : list ascii := chars (text_of v).

Definition traced (status : Z) (error traceId : string) : response :=
  Resp status (JObj [("error", JStr error); ("traceId", JStr traceId)]).

Section Metadata.
Context `{SuiSdk} `{WalrusSdk} `{SuiTx} `{Wallet} (sv : service) (cfg : journal_config) (policy : seal_policy).
Context (WALRUS_PACKAGE_ID SUI_CHAIN_IDENTIFIER SUI_NETWORK traceId : string).

(** [SERVER_SUI_PRIVATE_KEYS[parseWalrusKeySlot(keyIndex)]] *)
Definition slot_key (keyIndex : json) : string + (Z * string) :=
  match parseWalrusKeySlot keyIndex with
  | None => inl ("Invalid keyIndex: " +:+ js_string keyIndex)
  | Some slot => match key_at (jc_keys cfg) slot with
                 | None => inl ("Invalid keyIndex: " +:+ pretty slot)
                 | Some key => inr (slot, key)
                 end
  end.

(** ** The batch route *)
Definition batch_blob (body blob : json) (idx : nat) : js_error + MetadataTransferBlob :=
  guard_or text_matches is_sui_address (jget "blobObjectId" blob)
    else plain_error ("Invalid blobs[" +:+ pretty (Z.of_nat idx) +:+ "].blobObjectId");
  let namespace := match jget "namespace" blob with JStr s => if is_empty s then "default" else s | _ => "default" end in
  match fence_of (JObj [("sealAbi", jget "sealAbi" body); ("accountId", jget "accountId" body);
                        ("registryId", jget "registryId" body); ("policyPackageId", jget "policyPackageId" body);
                        ("data", jget "encryptedData" blob)]) (jget "packageId" body) policy with
  | inl e => inl e
  | inr fence => inr (TransferBlob (text_of (jget "blobObjectId" blob)) namespace fence)
  end.
Fixpoint batch_blobs (body : json) (idx : nat) (l : list json) : js_error + list MetadataTransferBlob :=
  match l with
  | [] => inr []
  | blob :: l' =>
      match batch_blob body blob idx with
      | inl e => inl e
      | inr b => match batch_blobs body (S idx) l' with inl e => inl e | inr bs => inr (b :: bs) end
      end
  end.

Record batch_request : Type := BatchRequest {
  br_key : string;
  br_slot : Z;
  br_owner : string;
  br_blobs : list MetadataTransferBlob;
}.
Definition validate_batch (body : json) : js_error + (response + batch_request) :=
  match jget "blobs" body with
  | JArr ((_ :: _) as blobs) =>
      if negb (truthy (jget "owner" body)) || is_undefined (jget "keyIndex" body)
      then inr (inl (refuse 400 "Missing required fields: blobs, owner, keyIndex")) else
      if (20 <? length blobs)%nat then inr (inl (refuse 400 "Too many blobs in batch")) else
      if negb (text_matches is_full_address (jget "owner" body))
      then inr (inl (refuse 400 "Invalid owner address format")) else
      if bad_optional is_sui_address (jget "packageId" body)
      then inr (inl (refuse 400 "Invalid packageId format")) else
      match slot_key (jget "keyIndex" body) with
      | inl message => inr (inl (refuse 400 message))
      | inr (slot, key) =>
          match batch_blobs body 0 blobs with
          | inl e => inl e
          | inr bs => inr (inr (BatchRequest key slot (normalizeSuiAddress (text_of (jget "owner" body))) bs))
          end
      end
  | _ => inr (inl (refuse 400 "Missing required fields: blobs, owner, keyIndex"))
  end.

Definition batch_error (err : js_error) : SM response :=
  mret (if is_limit_error err then traced 503 (e_message err) traceId
        else if is_fence_error err then traced 400 (e_message err) traceId
        else traced 500 (e_message err) traceId).

Definition run_batch (body : json) (r : batch_request) : SM response :=
  signer ← s_of_sum (jc_address cfg (br_key r));
  digest ← setMetadataAndTransferBlobs sv signer (br_blobs r) (br_owner r) (text_field (jget "packageId" body))
             (text_field (jget "agentId" body)) (Enoki.ADDRESS_BALANCE_WALLET_FALLBACK_POLICY (jc_fallback cfg)) false;
  mret (ok (JObj [("transferred", jint (Z.of_nat (length (br_blobs r)))); ("digest", digest)])).

Definition set_metadata_batch_handler (body : json) : SM response :=
  admitted ← s_catch
    (v ← s_of_sum (validate_batch body);
     match v with
     | inl answered => mret (inl answered)
     | inr r => _ ← call sv (SAcquireSlots (br_slot r)); mret (inr r)
     end) (λ err, answered ← batch_error err; mret (inl answered));
  match admitted with
  | inl answered => mret answered
  | inr r => with_slots (s_catch (run_batch body r) batch_error)
  end.

(** ** The durable single-blob route *)
Definition metadataReceiptAlreadyApplied (reconcileOnly : bool) (currentOwner : json) (targetOwner : string) : bool :=
  reconcileOnly && ownerMatchesRecipient currentOwner (JStr targetOwner).

Record metadata_request : Type := MetadataRequest {
  mr_objectId : string;
  mr_owner : string;
  mr_fence : seal_fence;
  mr_wallet : option string;
  mr_slot : Z;
  mr_key : string;
  mr_identity : option (string * string);
  mr_reconcile : bool;
  mr_jobId : option string;
}.

(** [registerWalrusMetadataRoute(app, requireDurableIdentity)] *)
Context (requireDurableIdentity : bool).

Definition validate_metadata (body : json) : js_error + (response + metadata_request) :=
  let walletAddress := jget "walletAddress" body in
  let durableJobId := sanitizeRequestId (jget "jobId" body) in
  let rawIdentity := jget "uploadExecutionIdentity" body in
  let identity := parseUploadExecutionIdentity rawIdentity in
  let none {A} (o : option A) := negb (bool_decide (is_Some o)) in
  if negb (truthy (jget "blobObjectId" body)) || negb (truthy (jget "owner" body)) ||
     is_undefined (jget "keyIndex" body)
  then inr (inl (refuse 400 "Missing required fields: blobObjectId, owner, keyIndex")) else
  if requireDurableIdentity && (none durableJobId || negb (truthy walletAddress) || none identity)
  then inr (inl (refuse 400 "Missing required durable fields: jobId, walletAddress, uploadExecutionIdentity")) else
  if negb (is_undefined rawIdentity) && none identity
  then inr (inl (refuse 400 "Invalid uploadExecutionIdentity")) else
  if negb (text_matches is_sui_address (jget "blobObjectId" body))
  then inr (inl (refuse 400 "Invalid blobObjectId format")) else
  if negb (text_matches is_full_address (jget "owner" body))
  then inr (inl (refuse 400 "Invalid owner address format")) else
  if bad_optional is_sui_address (jget "packageId" body)
  then inr (inl (refuse 400 "Invalid packageId format")) else
  if bad_optional is_full_address walletAddress
  then inr (inl (refuse 400 "Invalid walletAddress format")) else
  match fence_of body (jget "packageId" body) policy with
  | inl e => inl e
  | inr fence =>
      match slot_key (jget "keyIndex" body) with
      | inl message => inr (inl (refuse 400 message))
      | inr (slot, key) =>
          inr (inr (MetadataRequest (text_of (jget "blobObjectId" body))
            (normalizeSuiAddress (text_of (jget "owner" body))) fence
            (normalizeSuiAddress <$> text_field walletAddress) slot key identity
            (truthy (jget "reconcileOnly" body)) durableJobId))
      end
  end.

Definition metadata_error (err : js_error) : SM response := λ s,
  (s, inr (if is_fence_error err then traced 400 (e_message err) traceId
           else failure_response traceId err (s_can s) (s_started s))).

Definition object_coded (status : Z) (error code objectId : string) : response :=
  coded status error code [("objectId", JStr objectId)].
Definition transfer_response (transferred : Z) (digest : json) (objectId status : string) : response :=
  ok (JObj [("transferred", jint transferred); ("digest", digest); ("objectId", JStr objectId);
            ("transferStatus", JStr status)]).

(** With the slots held. *)
Definition transfer_blob (body : json) (r : metadata_request) (signer : string) : SM response :=
  digest ← setMetadataAndTransferBlobs sv signer
    [TransferBlob (mr_objectId r) (default "default" (text_field (jget "namespace" body))) (mr_fence r)]
    (mr_owner r) (text_field (jget "packageId" body)) (text_field (jget "agentId" body))
    Enoki.DURABLE_WALLET_FALLBACK_POLICY true;
  _ ← call sv (SFaultDelay (default traceId (mr_jobId r)));
  mret (transfer_response 1 digest (mr_objectId r) "ok").

Definition run_metadata (body : json) (r : metadata_request) : SM response :=
  signer ← s_of_sum (jc_address cfg (mr_key r));
  require match mr_wallet r with Some w => seqb signer w | None => true end
    else coded 409 "keyIndex no longer maps to the journaled wallet" "WALLET_MAPPING_MISMATCH"
      [("expectedWalletAddress", JStr (default empty_str (mr_wallet r))); ("actualWalletAddress", JStr signer)];
  object ← rpc_retry sv 4 (readBlobObject sv (mr_objectId r));
  let currentOwner := jget "owner" (jget "object" object) in
  require negb (metadataReceiptAlreadyApplied (mr_reconcile r) currentOwner (mr_owner r))
    else transfer_response 0 (coalesce (jget "previousTransaction" (jget "object" object)) JNull) (mr_objectId r)
           "already_transferred";
  require ownerMatchesRecipient currentOwner (JStr signer)
    else object_coded 409 "Blob is not owned by the writer or target owner" "BLOB_OWNER_MISMATCH" (mr_objectId r);
  require negb (mr_reconcile r)
    else object_coded 409 "Blob is still writer-owned after an ambiguous metadata phase"
           "AMBIGUOUS_METADATA_NOT_FOUND" (mr_objectId r);
  transfer_blob body r signer.

Definition admit_metadata (body : json) : SM (response + metadata_request) :=
  _ ← modify (s_set_can (negb (truthy (jget "reconcileOnly" body))));
  v ← s_of_sum (validate_metadata body);
  match v with
  | inl answered => mret (inl answered)
  | inr r =>
      _ ← (match mr_identity r with
           | Some id => assertUploadExecutionIdentity sv WALRUS_PACKAGE_ID SUI_CHAIN_IDENTIFIER SUI_NETWORK id
           | None => mret tt
           end);
      _ ← call sv (SAcquireSlots (mr_slot r));
      mret (inr r)
  end.

Definition set_metadata_handler (body : json) : SM response :=
  _ ← modify (λ s, s_set_can false (s_set_started false s));
  admitted ← s_catch (admit_metadata body) (λ err, answered ← metadata_error err; mret (inl answered));
  match admitted with
  | inl answered => mret answered
  | inr r => with_slots (s_catch (run_metadata body r) metadata_error)
  end.
End Metadata.
