(* ===== verification/Upload.v ===== *)
(** * The one-shot upload route (routes/walrus-upload.ts)

    The handler of [POST /walrus/upload]: encode, register, upload, certify,
    and hand the blob over to its owner, with the slots of the wallet held. *)
From Stdlib Require Import QArith Ascii.
From S2P Require Import Prelude JsText JsNumber JsonParse SealId Retry Config Wallet Service Util Blob.
From S2P Require Import Query Durable Journal Metadata.
From S2P Require Enoki.
Local Open Scope Z_scope.

(** What the handler takes from the body before the slots are held. *)
Record upload_request : Type := UploadRequest {
  ur_data : string;
  ur_slot : Z;
  ur_key : string;
  ur_epochs : Z;
  ur_owner : option string;
  ur_fence : seal_fence;
}.

Section Upload.
Context `{SuiSdk} `{WalrusSdk} `{SuiTx} `{Wallet} (sv : service) (cfg : journal_config) (policy : seal_policy).
Context (env : Config.env) (traceId : string).

Definition answer_fields (body : json) (l : list (string * json)) : json :=
  JObj (l ++ [("jobId", match sanitizeRequestId (jget "jobId" body) with Some j => JStr j | None => JNull end)]).

(** ** Validation *)
Definition validate_upload (body : json) : js_error + (response + upload_request) :=
  let rawEpochs := match jget "epochs" body with JUndefined => jint (jc_default_epochs cfg) | v => v end in
  let epochs := Config.clampWalrusEpochs env (jc_network cfg) rawEpochs in
  if negb (truthy (jget "data" body)) || is_undefined (jget "keyIndex" body)
  then inr (inl (refuse 400 "Missing required fields: data, keyIndex")) else
  match slot_key cfg (jget "keyIndex" body) with
  | inl message => inr (inl (refuse 400 message))
  | inr (slot, key) =>
      if bad_optional is_sui_address (jget "packageId" body)
      then inr (inl (refuse 400 "Invalid packageId format")) else
      if bad_optional is_full_address (jget "owner" body)
      then inr (inl (refuse 400 "Invalid owner address format")) else
      match fence_of body (jget "packageId" body) policy with
      | inl e => inl e
      | inr fence =>
          inr (inr (UploadRequest (js_string (jget "data" body)) slot key epochs (text_field (jget "owner" body)) fence))
      end
  end.

Definition admit_upload (body : json) : SM (response + upload_request) :=
  _ ← modify (s_set_phase "receive");
  v ← s_of_sum (validate_upload body);
  match v with
  | inl answered => mret (inl answered)
  | inr r =>
      _ ← modify (s_set_phase "acquire_limit");
      _ ← call sv (SAcquireSlots (ur_slot r));
      mret (inr r)
  end.

(** ** The failure of a request *)

(** [getSuiBalanceMist]: null when it fails. *)
Definition sui_balance (address : string) : SM json := s_catch (call sv (SBalance address)) (λ _, mret JNull).
(** [fetchWalrusSystemVersion]: null when it fails. *)
Definition walrus_version : SM json := s_catch (call sv SSystemVersion) (λ _, mret JNull).
Definition refresh (reason : string) : SM unit := modify (s_emit (SRefreshClient reason)).
Definition refresh_if (b : bool) (reason : string) : SM unit := if b then refresh reason else mret tt.

Definition refresh_after (phase message : string) : SM unit :=
  _ ← refresh_if (seqb phase "register_sponsor" && Enoki.isMoveAbortBalanceSplit message) "register_sponsor_balance_split";
  _ ← refresh_if (Enoki.isMoveAbortWalDestroyZero message) "walrus_wal_payment_destroy_zero";
  if isWalrusPackageVersionMismatch message then
    _ ← walrus_version; _ ← refresh "walrus_package_version_mismatch"; _ ← walrus_version; mret tt
  else refresh_if (isWalrusReferencedObjectStale message) "walrus_referenced_object_stale".

(** [signer]: the signer's address, once decoded. *)
Definition upload_error (body : json) (signer : option string) (err : js_error) : SM response :=
  let message := error_text err in
  let answer status := Resp status (answer_fields body [("error", JStr message); ("traceId", JStr traceId)]) in
  if is_fence_error err then mret (answer 400)
  else if is_limit_error err then mret (answer 503)
  else
    phase ← gets s_phase;
    _ ← refresh_after phase message;
    _ ← (match signer with Some a => _ ← sui_balance a; mret tt | None => mret tt end);
    mret (answer 500).

(** ** The phases *)
Definition upload_attributes (body : json) (r : upload_request) : list (string * string) :=
  (if truthy (jget "namespace" body) then [("memwal_namespace", js_string (jget "namespace" body))] else []) ++
  match ur_owner r with Some o => [("memwal_owner", o)] | None => [] end ++
  (if truthy (jget "packageId" body) then [("memwal_package_id", js_string (jget "packageId" body))] else []) ++
  match sanitizeRequestId (jget "jobId" body) with Some j => [("memwal_job_id", j)] | None => [] end.

Definition wallet_policy : Enoki.EnokiFallbackPolicy := Enoki.ADDRESS_BALANCE_WALLET_FALLBACK_POLICY (jc_fallback cfg).

(** Encode and register: the digest of the register transaction. *)
Definition register_blob (body : json) (r : upload_request) (signer : string) : SM json :=
  _ ← phase_is "encode";
  _ ← call sv (SFlow (ur_data r) JUndefined);
  _ ← call sv SEncode;
  _ ← phase_is "register_build";
  _ ← call sv (SRegister (upload_attributes body r) (ur_epochs r));
  tip ← call sv STipAddress;
  let allowed := dedupeAddresses [Some signer; match tip with JStr a => Some a | _ => None end] in
  _ ← phase_is "register_sponsor";
  _ ← modify (s_emit SRegisterFlow);
  digest ← wallet false (submitWallet signer allowed wallet_policy);
  _ ← phase_is "register_wait";
  _ ← call sv (SWait (js_digest digest));
  mret digest.

(** Upload, certify, and read the blob. *)
Definition store_blob (signer : string) (registerDigest : json) : SM json :=
  _ ← phase_is "upload_blob";
  _ ← uploadWalrusBlobWithEffectsRetry sv (js_digest registerDigest) None;
  _ ← phase_is "certify_sponsor";
  _ ← modify (s_emit SCertifyFlow);
  digest ← wallet false (submitRebuildable signer [] wallet_policy);
  _ ← phase_is "certify_wait";
  _ ← call sv (SWait (js_digest digest));
  _ ← phase_is "get_blob";
  call sv SGetBlob.

Definition id_json (objectId : option string) : json := match objectId with Some id => JStr id | None => JNull end.
Definition transfer_failed (body blob : json) (objectId : option string) : response :=
  Resp 500 (JObj [("error", JStr "Blob uploaded but metadata/transfer to owner failed");
    ("jobId", match sanitizeRequestId (jget "jobId" body) with Some j => JStr j | None => JNull end);
    ("blobId", jget "blobId" blob); ("objectId", id_json objectId); ("transferStatus", JStr "failed")]).
Definition uploaded (blob : json) (objectId : option string) (deferTransfer : bool) : response :=
  ok (JObj [("blobId", jget "blobId" blob); ("objectId", id_json objectId);
            ("transferStatus", JStr (if deferTransfer then "deferred" else "ok"))]).

Definition transfer_upload (body : json) (r : upload_request) (signer owner objectId : string) (blob : json)
    : SM (option response) :=
  s_catch
    (_ ← phase_is "metadata_transfer";
     _ ← setMetadataAndTransferBlobs sv signer
           [TransferBlob objectId (default empty_str (text_field (jget "namespace" body))) (ur_fence r)] owner
           (text_field (jget "packageId" body)) (text_field (jget "agentId" body)) wallet_policy false;
     mret None)
    (λ _, mret (Some (transfer_failed body blob (Some objectId)))).

Definition hand_over (body : json) (r : upload_request) (signer : string) (blob : json) : SM response :=
  let deferTransfer := truthy (jget "deferTransfer" body) in
  let objectId := extractBlobObjectId blob in
  failed ← (match ur_owner r, objectId with
            | Some owner, Some id =>
                if negb deferTransfer && negb (seqb owner signer) && negb (is_empty id)
                then transfer_upload body r signer owner id blob else mret None
            | _, _ => mret None
            end);
  match failed with
  | Some answered => mret answered
  | None => _ ← phase_is "respond"; mret (uploaded blob objectId deferTransfer)
  end.

(** With the slots held. *)
Definition upload_blob (body : json) (r : upload_request) (signer : string) : SM response :=
  _ ← refresh "stale";
  _ ← sui_balance signer;
  registerDigest ← register_blob body r signer;
  blob ← store_blob signer registerDigest;
  hand_over body r signer blob.

Definition run_upload (body : json) (r : upload_request) : SM response :=
  _ ← phase_is "decode_signer";
  signer ← s_of_sum (jc_address cfg (ur_key r));
  s_catch (upload_blob body r signer) (upload_error body (Some signer)).

Definition upload_handler (body : json) : SM response :=
  admitted ← s_catch (admit_upload body) (λ err, answered ← upload_error body None err; mret (inl answered));
  match admitted with
  | inl answered => mret answered
  | inr r => with_slots (s_catch (run_upload body r) (upload_error body None))
  end.
End Upload.
