(* ===== verification/DurableFrame.v ===== *)
(** * What the building blocks of the durable routes preserve

    [preserves]: a piece keeps an invariant of the request's state, and
    throws only errors that are accounted for.  Proved once for every block
    of [Service] and [Durable], for any invariant that survives the
    elementary effects ([robust]). *)
From Stdlib Require Import QArith Ascii.
From S2P Require Import Prelude JsText JsNumber JsonParse Base64 SealId Retry EnokiSafety Wallet Service.
From S2P Require Import Util Blob Query Durable.
From S2P Require Enoki.
Local Open Scope Z_scope.

(** Events that can make a transaction take effect. *)
Definition submits (ev : sevent) : bool :=
  match ev with SExecute _ _ => true | SWallet e => is_submission e | _ => false end.

(** Errors that do not claim that nothing was submitted. *)
Definition account (e : js_error) : bool := negb (is_no_side_effect e).
Lemma account_plain e : e_class e = PlainError → account e = true.
Proof. intros E. unfold account, is_no_side_effect. rewrite E. done. Qed.

(** Errors of the outside are of that kind: no package throws the sidecar's
    no-side-effect classes. *)
Definition foreign (sv : service) : Prop :=
  ∀ tr e, sv_answer sv tr = inl e → account e = true.

Section Frame.
Context `{SuiSdk} `{WalrusSdk} `{SuiTx} (sv : service).
Context (WALRUS_PACKAGE_ID SUI_TYPE SUI_CHAIN_IDENTIFIER SUI_NETWORK : string).
Context (Hforeign : foreign sv).
Context (I : sstate → Prop) (good : js_error → sstate → Prop).

(** Neither a submission nor a wallet event. *)
Definition calm (ev : sevent) : bool :=
  match ev with SExecute _ _ | SWallet _ => false | _ => true end.

Record robust : Prop := {
  rb_emit ev s : calm ev = true → I s → I (s_emit ev s);
  rb_clock t s : I s → I (s_set_clock t s);
  rb_epoch c s : I s → I (s_set_epoch c s);
  rb_identity c s : I s → I (s_set_identity c s);
  rb_started s : I s → I (s_set_started true s);
  rb_can b s : I s → I (s_set_can b s);
  rb_phase p s : I s → I (s_set_phase p s);
  rb_good e s : account e = true → I s → good e s;
}.
Context (HI : robust).

Definition raised (e : Enoki.failure) (s : sstate) : Prop := I s ∧ ∃ x, e = Enoki.Thrown x ∧ good x s.
Definition preserves {A} (m : SM A) : Prop := triple I m (λ _, I) raised.

Lemma p_ret {A} (a : A) : preserves (mret a).
Proof. by apply triple_ret. Qed.
Lemma p_throw {A} e : account e = true → preserves (s_throw e : SM A).
Proof. intros He. apply triple_throw. intros s Hs. split; [done|]. exists e. split; [done|by apply (rb_good HI)]. Qed.
Lemma p_of_sum {A} (r : js_error + A) : (∀ e, r = inl e → account e = true) → preserves (s_of_sum r).
Proof. destruct r; intros Hr; [apply p_throw; auto|apply p_ret]. Qed.
Lemma p_gets {A} (f : sstate → A) : preserves (gets f).
Proof. by apply triple_gets. Qed.
Lemma p_modify f : (∀ s, I s → I (f s)) → preserves (modify f).
Proof. intros Hf. by apply triple_modify. Qed.
Lemma p_bind {A B} (m : SM A) (k : A → SM B) : preserves m → (∀ a, preserves (k a)) → preserves (m ≫= k).
Proof. intros Hm Hk. by eapply triple_bind. Qed.
Lemma p_if {A} (b : bool) (m1 m2 : SM A) : preserves m1 → preserves m2 → preserves (if b then m1 else m2).
Proof. by destruct b. Qed.

(** A handler starts from the state of the throw, the error accounted for. *)
Definition handles {A} (h : js_error → SM A) : Prop :=
  ∀ x, triple (λ s, I s ∧ good x s) (h x) (λ _, I) raised.
Lemma p_catch {A} (m : SM A) h : preserves m → handles h → preserves (s_catch m h).
Proof.
  intros Hm Hh. eapply triple_catch; [exact Hm|]. intros [x|]; simpl.
  - eapply triple_conseq; [apply (Hh x)| |done|done]. intros s (Hi & y & [= <-] & Hg). done.
  - intros s (_ & y & Hy & _). done.
Qed.
Lemma h_preserves {A} (h : js_error → SM A) : (∀ x, preserves (h x)) → handles h.
Proof. intros Hh x s [Hs _]. by apply Hh. Qed.
Lemma h_rethrow {A} : handles (λ x, s_throw x : SM A).
Proof. intros x. apply triple_throw. intros s [Hs Hg]. split; [done|]. by exists x. Qed.
Lemma h_if {A} (b : js_error → bool) (h1 h2 : js_error → SM A) :
  handles h1 → handles h2 → handles (λ x, if b x then h1 x else h2 x).
Proof. intros Ha Hb x. destruct (b x); [apply Ha|apply Hb]. Qed.

(** A call also remembers its answer. *)
Lemma p_call_answer ev : calm ev = true →
  triple I (call sv ev) (λ v s, I s ∧ sv_answer sv (s_trace s) = inr v) raised.
Proof.
  intros Hev s Hs. unfold call. destruct (sv_answer sv _) as [e|v] eqn:E.
  - assert (Hs' : I (s_set_clock (s_clock (s_emit ev s) + sv_elapsed sv (s_trace (s_emit ev s))) (s_emit ev s)))
      by by apply (rb_clock HI), (rb_emit HI).
    split; [done|]. exists e. split; [done|]. apply (rb_good HI); [by eapply Hforeign|done].
  - split; [by apply (rb_clock HI), (rb_emit HI)|done].
Qed.
Lemma p_call ev : calm ev = true → preserves (call sv ev).
Proof. intros Hev. eapply triple_conseq; [by apply p_call_answer|done|by intros v s []|done]. Qed.

Lemma p_sleep ms : preserves (s_sleep ms).
Proof. apply p_modify. intros s Hs. by apply (rb_clock HI), (rb_emit HI). Qed.

Lemma p_retry {A} n (m : SM A) : preserves m → preserves (rpc_retry sv n m).
Proof.
  intros Hm. unfold rpc_retry. generalize 0%nat. induction n as [|n IH]; intros attempt; simpl.
  - by apply p_throw.
  - apply p_catch; [done|]. apply h_if; [apply h_rethrow|]. apply h_preserves. intros x.
    apply p_bind; [apply p_gets|]. intros tr. apply p_bind; [apply p_sleep|]. intros _. apply IH.
Qed.

Lemma p_read_object id : preserves (readBlobObject sv id).
Proof.
  unfold readBlobObject. intros s Hs. unfold s_catch, try_catch. pose proof (p_call (SGetObject id) eq_refl s Hs) as Hc.
  assert (Hclass : ∀ e, snd (call sv (SGetObject id) s) = inl (Enoki.Thrown e) → account e = true).
  { intros e. unfold call. destruct (sv_answer sv _) eqn:E; simpl; [|done]. intros [= <-]. by eapply Hforeign. }
  destruct (call sv (SGetObject id) s) as [s' [[e|]|v]]; [|by destruct Hc as (_ & ? & ? & _)|done].
  destruct Hc as [Hi _]. specialize (Hclass e eq_refl). split; [done|]. eexists. split; [done|].
  apply (rb_good HI); [|done]. unfold read_error.
  destruct (missing_object _); [|done]. by destruct (seqb _ _).
Qed.

Lemma p_upload_object id : preserves (readUploadBlobObject sv id).
Proof. apply p_retry, p_read_object. Qed.

(** [blobIdFromInt] and BCS parsing throw plain errors. *)
Context (Hint : ∀ t e, blobIdFromInt t = inl e → account e = true).
Lemma chain_id_account raw e : chainBlobIdFromRaw raw = inl e → account e = true.
Proof.
  unfold chainBlobIdFromRaw. intros He. repeat case_match; simplify_eq; by eapply Hint.
Qed.

Lemma certified_account blobId objectId response e :
  certified_of blobId objectId response = inl e → account e = true.
Proof.
  unfold certified_of. rewrite ensure_inl. intros [[_ <-]|[_ He]]; [done|].
  destruct (chainBlobIdFromRaw _) eqn:E; [simplify_eq; by eapply chain_id_account|].
  rewrite ensure_inl in He. destruct He as [[_ <-]|[_ He]]; [done|]. by case_match.
Qed.
Lemma p_certified blobId objectId : preserves (certifiedStep sv blobId objectId).
Proof.
  apply p_bind; [apply p_upload_object|]. intros response. apply p_of_sum. apply certified_account.
Qed.

Lemma p_validate_registered objectId encoded : preserves (validateRegisteredBlob sv objectId encoded).
Proof.
  apply p_bind; [apply p_upload_object|]. intros response. apply p_bind.
  - apply p_of_sum. intros e. unfold registered_matches. destruct (negb _); [done|].
    destruct (chainBlobIdFromRaw _) eqn:E; [|done]. intros [= <-]. by eapply chain_id_account.
  - intros b. apply p_if; [apply p_ret|by apply p_throw].
Qed.

Lemma p_identity : preserves (executionIdentity sv WALRUS_PACKAGE_ID SUI_CHAIN_IDENTIFIER SUI_NETWORK).
Proof.
  assert (Hf : preserves (fetch_identity sv WALRUS_PACKAGE_ID SUI_CHAIN_IDENTIFIER SUI_NETWORK)).
  { apply p_bind; [by apply p_call|]. intros info. apply p_bind.
    - apply p_of_sum. intros e. unfold check_identity. rewrite !ensure_inl. naive_solver.
    - intros value. apply p_bind; [apply p_gets|]. intros now. apply p_bind; [|intros _; apply p_ret].
      apply p_modify. intros s. apply (rb_identity HI). }
  apply p_bind; [apply p_gets|]. intros now. apply p_bind; [apply p_gets|]. intros [[value at_]|]; [|done].
  apply p_if; [apply p_ret|done].
Qed.

Lemma p_assert_identity expected :
  preserves (assertUploadExecutionIdentity sv WALRUS_PACKAGE_ID SUI_CHAIN_IDENTIFIER SUI_NETWORK expected).
Proof. apply p_bind; [apply p_identity|]. intros actual. apply p_if; [apply p_ret|by apply p_throw]. Qed.

Lemma p_epoch : preserves (currentSuiEpoch sv).
Proof.
  apply p_bind; [apply p_gets|]. intros now. apply p_bind; [apply p_gets|]. intros cache. cbv zeta.
  assert (Hl : preserves (systemState ← call sv SCurrentEpoch;
    epoch ← s_of_sum (match to_bigint (jget "epoch" (jget "systemState" systemState)) with
                      | Some z => inr z | None => inl (plain_error "BigInt") end);
    loaded ← gets s_clock; _ ← modify (s_set_epoch (Some (epoch, loaded))); mret epoch)).
  { apply p_bind; [by apply p_call|]. intros ss. apply p_bind; [apply p_of_sum; intros e; case_match; naive_solver|].
    intros epoch. apply p_bind; [apply p_gets|]. intros loaded. apply p_bind; [|intros _; apply p_ret].
    apply p_modify. intros s. apply (rb_epoch HI). }
  destruct cache as [[epoch at_]|]; [|done]. apply p_if; [apply p_ret|done].
Qed.

Lemma p_lookup d : preserves (lookup_transaction sv d).
Proof.
  apply p_catch; [apply p_bind; [by apply p_call|intros v; destruct v; apply p_ret]|].
  apply h_if; [apply h_preserves; intros x; apply p_ret|apply h_rethrow].
Qed.

Lemma p_upload digest deletable : preserves (uploadWalrusBlobWithEffectsRetry sv digest deletable).
Proof.
  unfold uploadWalrusBlobWithEffectsRetry. induction WALRUS_UPLOAD_EFFECTS_RETRY_DELAYS_MS as [|ms l IH]; simpl.
  - apply p_catch; [by apply p_call|apply h_rethrow].
  - apply p_catch; [by apply p_call|]. apply h_if; [apply h_rethrow|]. apply h_preserves. intros _.
    apply p_bind; [apply p_sleep|]. by intros _.
Qed.

Context (Hbytes : ∀ l e, tx_from_bytes l = inl e → account e = true).
Lemma p_prepare signer : preserves (prepareRegisterTransaction sv SUI_TYPE signer).
Proof.
  apply p_bind; [by apply p_call|]. intros built. apply p_bind; [apply p_of_sum; intros e; apply Hbytes|]. intros td.
  apply p_bind; [|intros m; apply p_ret]. apply p_of_sum. intros e. unfold assertAddressBalanceRegisterTransaction.
  rewrite ensure_inl. intros [[_ <-]|[_ He]]; [done|].
  repeat case_match; simplify_eq; try done. by rewrite !ensure_inl in He; naive_solver.
Qed.
End Frame.
