(* ===== verification/SideEffects.v ===== *)
(** * Truth about side effects

    Invariants of a durable handler relative to the trace it started from:
    nothing submitted, or nothing but what is lawful and nothing at all unless
    [submissionStarted] is set.  Shared by the journal and the metadata
    routes, each with its own notion of lawful. *)
From Stdlib Require Import QArith Ascii.
From S2P Require Import Prelude JsText JsNumber JsonParse SealId Retry EnokiSafety Wallet Service Blob.
From S2P Require Import Query Durable DurableFrame Journal.
From S2P Require Enoki.
Local Open Scope Z_scope.

Definition unsubmitted (new : list sevent) : Prop := Forall (λ e, submits e = false) new.
Lemma unsubmitted_snoc new ev : calm ev = true → unsubmitted new → unsubmitted (new ++ [ev]).
Proof. intros Hev Hn. apply Forall_app. split; [done|]. constructor; [by destruct ev|done]. Qed.

Definition failed_transaction (v : json) : bool :=
  Enoki.is_str (jget "$kind" v) "FailedTransaction" &&
  Enoki.is_bool (jget "success" (jget "status" (jget "FailedTransaction" v))) false.

(** The chain answered, after [t0], that a transaction was finalized as failed. *)
Definition observed (sv : service) (t0 : list sevent) (v : json) (s : sstate) : Prop :=
  ∃ tr, tr `prefix_of` s_trace s ∧ (length t0 < length tr)%nat ∧ sv_answer sv tr = inr v.
Definition chain_failed (sv : service) (t0 : list sevent) (s : sstate) : Prop :=
  ∃ v, observed sv t0 v s ∧ failed_transaction v = true.


(** What a request may submit: at least nothing. *)
Record allowance : Type := Allowance {
  allows :> list sevent → Prop;
  allows_none new : unsubmitted new → allows new;
  allows_calm new ev : calm ev = true → allows new → allows (new ++ [ev]);
}.

Section Truth.
Context `{WalletLaws} (sv : service) (Hforeign : foreign sv) (t0 : list sevent).
Context (L : allowance).

(** Since [t0]: nothing submitted; nothing unlawful submitted, and nothing at
    all unless the marker is set. *)
Definition untouched (s : sstate) : Prop := ∃ new, s_trace s = t0 ++ new ∧ unsubmitted new.
Definition quiet (s : sstate) : Prop :=
  ∃ new, s_trace s = t0 ++ new ∧ L new ∧ (s_started s = false → unsubmitted new).

(** When a no-side-effect error may be thrown. *)
Definition justified (e : js_error) (s : sstate) : Prop :=
  (e_class e = NoSideEffectError → untouched s) ∧ (e_class e = FinalizedTransactionFailure → chain_failed sv t0 s).

Lemma account_justified e s : account e = true → justified e s.
Proof.
  unfold account, is_no_side_effect. rewrite negb_true_iff, bool_decide_eq_false. intros Ha. split; intros E; tauto.
Qed.

Lemma untouched_quiet s : untouched s → quiet s.
Proof. intros (new & E & Hn). exists new. split_and!; [done|by apply allows_none|done]. Qed.

Lemma untouched_robust : robust untouched justified.
Proof.
  split; try done; [|intros e s Ha _; by apply account_justified].
  intros ev s Hev (new & E & Hn). exists (new ++ [ev]). simpl. rewrite E, app_assoc.
  split; [done|by apply unsubmitted_snoc].
Qed.
Lemma quiet_robust : robust quiet justified.
Proof.
  split; try done; [| |intros e s Ha _; by apply account_justified].
  - intros ev s Hev (new & E & Hl & Hn). exists (new ++ [ev]). simpl. rewrite E, app_assoc.
    split_and!; [done|by apply allows_calm|]. intros Hs. apply unsubmitted_snoc; auto.
  - intros s (new & E & Hl & _). exists new. done.
Qed.

Notation raised I := (raised I justified).

(** From "nothing submitted" to "nothing unlawful submitted". *)
Definition safely {A} (m : SM A) : Prop := triple untouched m (λ _, quiet) (raised quiet).

Lemma raised_quiet e s : raised untouched e s → raised quiet e s.
Proof. intros [Hs He]. split; [by apply untouched_quiet|done]. Qed.

Lemma safely_bind {A B} (m : SM A) (k : A → SM B) :
  preserves untouched justified m → (∀ a, safely (k a)) → safely (m ≫= k).
Proof.
  intros Hm Hk. eapply triple_bind; [|exact Hk]. eapply triple_conseq; [exact Hm|done|done|].
  intros e s. apply raised_quiet.
Qed.
Lemma safely_preserves {A} (m : SM A) : preserves untouched justified m → safely m.
Proof.
  intros Hm. eapply triple_conseq; [exact Hm|done| |intros e s; apply raised_quiet].
  intros a s. apply untouched_quiet.
Qed.

Lemma observed_now s v new : sv_answer sv (s_trace s) = inr v → s_trace s = t0 ++ new → new ≠ [] → observed sv t0 v s.
Proof.
  intros Hv E Hn. exists (s_trace s). split; [done|]. split; [|done]. rewrite E, length_app.
  destruct new; [done|simpl; lia].
Qed.

(** A call from a state of [I] since [t0] is observed. *)
Lemma call_observed I ev : robust I justified → calm ev = true → (∀ s, I s → ∃ new, s_trace s = t0 ++ new) →
  triple I (call sv ev) (λ v s, I s ∧ observed sv t0 v s) (raised I).
Proof.
  intros HI Hev Ht s Hs. pose proof (p_call_answer sv Hforeign I justified HI ev Hev s Hs) as Hc.
  destruct (Ht s Hs) as (new & E).
  assert (Etr : s_trace (fst (call sv ev s)) = t0 ++ (new ++ [ev])).
  { unfold call. simpl. rewrite app_assoc, <-E. by destruct (sv_answer _ _). }
  destruct (call sv ev s) as [s' [e|v]]; [done|]. destruct Hc as [Hc Hv]. split; [done|].
  apply (observed_now _ _ (new ++ [ev])); [done|done|by destruct new].
Qed.

(** A finalized failure is one the chain reported. *)
Lemma finalized_justified result label e s :
  Enoki.assertFinalizedTransactionSuccess result label = inl e → observed sv t0 result s → justified e s.
Proof.
  unfold Enoki.assertFinalizedTransactionSuccess. intros He Ho. destruct (_ && _) eqn:Ef.
  - injection He as <-. split; [done|]. intros _. by exists result.
  - case_match; [done|]. injection He as <-. by apply account_justified.
Qed.

Lemma wallet_quiet signer allowed policy :
  (∀ new wnew, unsubmitted new → L (new ++ map SWallet wnew)) →
  triple untouched (wallet true (submitRebuildable signer allowed policy)) (λ _, quiet) (raised quiet).
Proof.
  intros HL s (new & E & Hn). unfold wallet.
  destruct (rebuildable_discreet signer allowed policy (s_wallet s)) as (wnew & Ew & Hm).
  pose proof (rebuildable_plain signer allowed policy (s_wallet s) Logic.I) as Hp.
  pose proof (rebuildable_ends signer allowed policy (s_wallet s)) as He.
  destruct (submitRebuildable signer allowed policy (s_wallet s)) as [ws res]. simpl in *.
  rewrite Ew, drop_app_length.
  assert (Hq : ∀ st, st = s_started s || existsb is_started wnew →
    quiet (SState (s_trace s ++ map SWallet wnew) (s_clock s) ws st (s_can s) (s_phase s)
      (s_epochCache s) (s_identityCache s) (s_provenance s))).
  { intros st Hst. exists (new ++ map SWallet wnew). simpl. rewrite E, app_assoc. split_and!; [done| |].
    - by apply HL.
    - intros ->. symmetry in Hst. apply orb_false_iff in Hst as [_ Hst]. apply Forall_app. split; [done|].
      apply Forall_fmap, Forall_forall. intros e Hin. simpl. apply (marked_unstarted wnew); [done| |done].
      intros Hs. apply not_true_iff_false in Hst. apply Hst, existsb_exists. exists Enoki.EStarted.
      split; [by apply list_elem_of_In|done]. }
  destruct res as [[x|]|d]; [|done|by apply Hq]. split; [by apply Hq|]. exists x. split; [done|].
  apply account_justified, account_plain. by apply Hp.
Qed.

Lemma register_executed result label : triple (λ s, quiet s ∧ observed sv t0 result s)
  (s_of_sum (Enoki.assertFinalizedTransactionSuccess result label)) (λ _, quiet) (raised quiet).
Proof.
  intros s [Hq Ho]. destruct (Enoki.assertFinalizedTransactionSuccess result label) as [e|v] eqn:E; simpl; [|done].
  split; [done|]. exists e. split; [done|]. by eapply finalized_justified.
Qed.
Lemma quiet_trace s : quiet s → ∃ new, s_trace s = t0 ++ new.
Proof. intros (new & E & _). by exists new. Qed.
End Truth.

(** ** What a piece returns *)
Definition yields {A} (X : A → Prop) (m : SM A) : Prop := triple (λ _, True) m (λ a _, X a) (λ _ _, True).

Lemma y_ret {A} (X : A → Prop) a : X a → yields X (mret a).
Proof. intros Ha. by apply triple_ret. Qed.
Lemma y_throw {A} (X : A → Prop) e : yields X (s_throw e).
Proof. by apply triple_throw. Qed.
Lemma y_bind {A B} (X : B → Prop) (m : SM A) (k : A → SM B) : (∀ a, yields X (k a)) → yields X (m ≫= k).
Proof. intros Hk. eapply (triple_bind _ (λ _ _, True)); [|done]. intros s _. by destruct (m s) as [? []]. Qed.
Lemma y_bind_with {A B} (Y : A → Prop) (X : B → Prop) (m : SM A) (k : A → SM B) :
  yields Y m → (∀ a, Y a → yields X (k a)) → yields X (m ≫= k).
Proof. intros Hm Hk. eapply triple_bind; [exact Hm|]. intros a s Ha. by apply Hk. Qed.
Lemma y_if {A} (X : A → Prop) (b : bool) (m m' : SM A) :
  (b = true → yields X m) → (b = false → yields X m') → yields X (if b then m else m').
Proof. destruct b; auto. Qed.
Lemma triple_yields {A} (P : sstate → Prop) (X : A → Prop) m (Q : A → sstate → Prop) R :
  triple P m Q R → yields X m → triple P m (λ a s, Q a s ∧ X a) R.
Proof. intros Hm Hy s Hs. specialize (Hm s Hs). specialize (Hy s Logic.I). by destruct (m s) as [s' []]. Qed.

(** An answer that says that nothing was submitted. *)
Definition claims (resp : response) : bool := Enoki.is_str (jget "code" (r_body resp)) "NO_SIDE_EFFECT".

(** ** Truthful answers *)
Lemma claims_failure traceId err can started : claims (failure_response traceId err can started) = true →
  is_no_side_effect err = true ∨ (can = true ∧ started = false).
Proof.
  unfold failure_response, classifyDurableSideEffectError. destruct (is_verify_error err); [done|].
  destruct (is_no_side_effect err); [by left|].
  destruct can, started, (isRetryableSharedInfraError err); simpl; try done; by right.
Qed.

Definition truthful (sv : service) (t0 : list sevent) (resp : response) (s : sstate) : Prop :=
  claims resp = true → untouched t0 s ∨ chain_failed sv t0 s.

Lemma failure_truthful sv t0 L traceId err s : quiet t0 L s → justified sv t0 err s →
  truthful sv t0 (failure_response traceId err (s_can s) (s_started s)) s.
Proof.
  intros (new & E & _ & Hn) [Hns Hf] Hc. apply claims_failure in Hc as [Hc|[_ Hs]].
  - unfold is_no_side_effect in Hc. apply bool_decide_eq_true in Hc as [Hc|Hc]; auto.
  - left. exists new. auto.
Qed.
Lemma truthful_release sv t0 resp s : truthful sv t0 resp s → truthful sv t0 resp (s_emit SReleaseSlots s).
Proof.
  intros Ht Hc. destruct (Ht Hc) as [Hu|(v & (tr & Hp & Hv) & Hf)].
  - left. by apply (rb_emit _ _ (untouched_robust sv t0)).
  - right. exists v. split; [|done]. exists tr. split; [|done]. etrans; [exact Hp|]. simpl. by apply prefix_app_r.
Qed.

(** ** The shape of the handlers

    Validation and admission, then a run with the slots held, with one
    [catch] for both. *)
Definition guarded {R} (admission : SM (response + R)) (run : R → SM response) (h : js_error → SM response) : SM response :=
  admitted ← s_catch admission (λ err, answered ← h err; mret (inl answered));
  match admitted with
  | inl answered => mret answered
  | inr r => with_slots (s_catch (run r) h)
  end.

(** The handler always answers; the answer satisfies [Q] when both parts and
    the [catch] do, the run before the slots are released ([Q']). *)
Lemma guarded_outcome {R} (P : sstate → Prop) (Q Q' : response → sstate → Prop) (A : R → sstate → Prop)
    (admission : SM (response + R)) (run : R → SM response) (h : js_error → SM response) s :
  (∀ s1, P s1 → match admission s1 with
                | (s2, inr (inl resp)) => Q resp s2
                | (s2, inr (inr r)) => A r s2
                | (s2, inl e) => ∃ x, e = Enoki.Thrown x ∧
                    match h x s2 with (s3, inr resp) => Q resp s3 | _ => False end
                end) →
  (∀ r, triple (A r) (s_catch (run r) h) Q' (λ _ _, False)) →
  (∀ resp s1, Q' resp s1 → Q resp (s_emit SReleaseSlots s1)) →
  P s → ∃ s' resp, guarded admission run h s = (s', inr resp) ∧ Q resp s'.
Proof.
  intros Ha Hr Hrel Hs. specialize (Ha s Hs). unfold guarded, mbind, st_bind, s_catch at 1, try_catch.
  destruct (admission s) as [s1 [e|[answered|r]]].
  - destruct Ha as (x & -> & Hh). destruct (h x s1) as [s2 [|resp]]; [done|]. by exists s2, resp.
  - by exists s1, answered.
  - specialize (Hr r s1 Ha). unfold with_slots, finally. destruct (s_catch (run r) h s1) as [s2 [|resp]]; [done|].
    eexists _, resp. split; [done|by apply Hrel].
Qed.

(** ** Inverting runs of effectful code

    A completed run of a piece is split into the runs of its parts, with what
    the outside answered on the way ([reported]); the trace only grows. *)

(** [ev] was answered with [v] between [s] and [s']. *)
Definition reported (sv : service) (s s' : sstate) (ev : sevent) (v : json) : Prop :=
  ∃ pre, (s_trace s ++ pre ++ [ev]) `prefix_of` s_trace s' ∧ sv_answer sv (s_trace s ++ pre ++ [ev]) = inr v.

Lemma reported_mono sv s0 s s' s1 ev v :
  s_trace s0 `prefix_of` s_trace s → reported sv s s' ev v → s_trace s' `prefix_of` s_trace s1 →
  reported sv s0 s1 ev v.
Proof.
  intros [pre0 E] (pre & Hp & Hv) Hs. exists (pre0 ++ pre). rewrite E, <-!app_assoc in *. split; [by etrans|done].
Qed.

Section Runs.
Context `{WalletLaws} (sv : service) (Hforeign : foreign sv).

(** ** Growth of the trace *)
Definition longer (tr : list sevent) (s : sstate) : Prop := tr `prefix_of` s_trace s.
Definition anyhow (e : js_error) (s : sstate) : Prop := True.
Lemma longer_robust tr : robust (longer tr) anyhow.
Proof. split; try done. intros ev s _ Hs. unfold longer. simpl. by apply prefix_app_r. Qed.

Lemma robust_anyhow I good : robust I good → robust I anyhow.
Proof. intros HI. by split; try apply HI. Qed.

Definition grows {A} (m : SM A) : Prop := ∀ tr, preserves (longer tr) anyhow m.
Lemma grows_run {A} (m : SM A) s s' a : grows m → m s = (s', a) → s_trace s `prefix_of` s_trace s'.
Proof.
  intros Hm E. specialize (Hm (s_trace s) s (reflexivity _)). rewrite E in Hm.
  destruct a as [e|a]; [by destruct Hm|done].
Qed.

Lemma call_run ev s s' v : call sv ev s = (s', inr v) →
  s_trace s' = s_trace s ++ [ev] ∧ sv_answer sv (s_trace s ++ [ev]) = inr v.
Proof. unfold call. simpl. destruct (sv_answer _ _) eqn:E; [done|]. by intros [= <- <-]. Qed.
Lemma call_reported ev s s' v : call sv ev s = (s', inr v) → reported sv s s' ev v.
Proof. intros Hc. apply call_run in Hc as [E Hv]. exists []. simpl. by rewrite E. Qed.

Lemma grows_call ev : grows (call sv ev).
Proof.
  intros tr s Hs. unfold call. assert (Hl : longer tr (s_emit ev s)) by (unfold longer; simpl; by apply prefix_app_r).
  destruct (sv_answer _ _); [split; [done|by eexists]|done].
Qed.

Lemma catch_run {A} (m : SM A) h s s' a : s_catch m h s = (s', inr a) →
  m s = (s', inr a) ∨ ∃ s1 e, m s = (s1, inl (Enoki.Thrown e)) ∧ h e s1 = (s', inr a).
Proof. unfold s_catch, try_catch. destruct (m s) as [s1 [[e|]|b]]; [eauto|done|auto]. Qed.

Lemma of_sum_run {A} (p : js_error + A) s s' a : s_of_sum p s = (s', inr a) → p = inr a ∧ s' = s.
Proof. destruct p; [done|]. by intros [= -> ->]. Qed.
Lemma modify_run (f : sstate → sstate) s s' u : (modify f : SM unit) s = (s', inr u) → s' = f s.
Proof. by intros [= ->]. Qed.

(** A retried call answers with the last attempt. *)
Lemma retry_reported (m : SM json) ev n :
  (∀ s s' v, m s = (s', inr v) → reported sv s s' ev v) → grows m →
  ∀ s s' v, rpc_retry sv n m s = (s', inr v) → reported sv s s' ev v.
Proof.
  intros Hm Hg. unfold rpc_retry. generalize 0%nat. induction n as [|n IH]; intros a s s' v Hr; [done|].
  cbn [rpc_retry_from] in Hr. apply catch_run in Hr as [Hr|(s1 & e & Hr & Hh)]; [by apply Hm|].
  destruct (_ || _); [done|]. apply bind_inr in Hh as (s2 & tr & [= <- <-] & Hh).
  apply bind_inr in Hh as (s3 & u & Hs & Hh). apply modify_run in Hs as ->.
  eapply reported_mono; [|by eapply IH|done]. simpl. apply prefix_app_r. by eapply grows_run.
Qed.

Lemma read_once_reported id s s' v : readBlobObject sv id s = (s', inr v) → reported sv s s' (SGetObject id) v.
Proof. intros Hr. apply catch_run in Hr as [Hr|(s3 & e & _ & Hr)]; [by apply call_reported|done]. Qed.
Lemma read_reported n id s s' v : rpc_retry sv n (readBlobObject sv id) s = (s', inr v) →
  reported sv s s' (SGetObject id) v.
Proof.
  apply retry_reported; [apply read_once_reported|]. intros tr. apply p_read_object; [exact Hforeign|apply longer_robust].
Qed.

Lemma upload_reported d del s s' v : uploadWalrusBlobWithEffectsRetry sv d del s = (s', inr v) →
  reported sv s s' (SUpload d del) v.
Proof.
  unfold uploadWalrusBlobWithEffectsRetry. revert s. induction WALRUS_UPLOAD_EFFECTS_RETRY_DELAYS_MS as [|ms l IH];
    intros s Hr; cbn [upload_loop] in Hr; apply catch_run in Hr as [Hr|(s1 & e & Hr & Hh)].
  - by apply call_reported.
  - done.
  - by apply call_reported.
  - destruct (negb _); [done|]. apply bind_inr in Hh as (s2 & u & Hs & Hh). apply modify_run in Hs as ->.
    eapply reported_mono; [|by apply IH|done]. simpl. apply prefix_app_r. eapply grows_run; [apply grows_call|done].
Qed.

Lemma grows_wallet t m : discreet m → ends m → grows (wallet t m).
Proof.
  intros Hd He tr s Hs. unfold wallet. specialize (He (s_wallet s)).
  destruct (m (s_wallet s)) as [ws [[e|]|d]]; simpl in *; [|done|].
  - split; [by apply prefix_app_r|by eexists].
  - by apply prefix_app_r.
Qed.
Lemma grows_rebuildable t signer allowed policy : grows (wallet t (submitRebuildable signer allowed policy)).
Proof. apply grows_wallet; [apply rebuildable_discreet|apply rebuildable_ends]. Qed.
Lemma grows_submit t signer allowed policy : grows (wallet t (submitWallet signer allowed policy)).
Proof. apply grows_wallet; [apply submit_discreet|apply submit_ends]. Qed.
Lemma grows_bind {A B} (m : SM A) (k : A → SM B) : grows m → (∀ a, grows (k a)) → grows (m ≫= k).
Proof. intros Hm Hk tr. apply p_bind; [apply Hm|]. intros a. apply Hk. Qed.
Lemma grows_ret {A} (a : A) : grows (mret a).
Proof. intros tr. apply p_ret. Qed.
Lemma grows_catch {A} (m : SM A) h : grows m → (∀ e, grows (h e)) → grows (s_catch m h).
Proof. intros Hm Hh tr. apply p_catch; [apply Hm|]. apply h_preserves. intros e. apply Hh. Qed.
Lemma grows_of_sum {A} (p : js_error + A) : grows (s_of_sum p).
Proof. intros tr s Hs. destruct p; [split; [done|by eexists]|done]. Qed.
Lemma grows_modify f : (∀ s, s_trace (f s) = s_trace s) → grows (modify f).
Proof. intros Hf tr. apply p_modify. intros s Hs. unfold longer. by rewrite Hf. Qed.
End Runs.
