(* ===== verification/JournalSafety.v ===== *)
(** * Theorems about the durable upload journal (routes/walrus-upload-journal.ts) *)
From Stdlib Require Import QArith Ascii.
From S2P Require Import Prelude JsText JsNumber JsonParse Base64 SealId Retry Config EnokiSafety Wallet.
From S2P Require Import Service Util Blob Query Durable DurableFrame SideEffects Journal.
From S2P Require Enoki.
Local Open Scope Z_scope.

(** What is assumed of the outside: its errors are not of the sidecar's own
    classes. *)
Record outside_laws `{WalrusSdk} `{SuiTx} (sv : service) (cfg : journal_config) : Prop := {
  ol_service : foreign sv;
  ol_blob_id t e : blobIdFromInt t = inl e → account e = true;
  ol_bytes l e : tx_from_bytes l = inl e → account e = true;
  ol_key k e : jc_address cfg k = inl e → account e = true;
}.

(** The chain does not know the transaction. *)
Definition unknown (answer : js_error + json) : bool :=
  match answer with inl e => mem_code (e_code e) ["NOT_FOUND"] | inr JUndefined => true | inr _ => false end.
(** [denied t0 d new]: a lookup of [d] after [t0] was answered "unknown". *)
Definition denied (sv : service) (t0 : list sevent) (d : string) (new : list sevent) : Prop :=
  ∃ pre post, new = pre ++ SGetTransaction d :: post ∧ unknown (sv_answer sv (t0 ++ pre ++ [SGetTransaction d])) = true.

Lemma denied_app sv t0 d new l : denied sv t0 d new → denied sv t0 d (new ++ l).
Proof. intros (pre & post & -> & Hu). exists pre, (post ++ l). split; [|done]. by rewrite <-app_assoc. Qed.

(** What a request may submit: nothing; the journaled transaction, once, when
    the chain does not know its digest; a certification. *)
Definition replayed `{SuiSdk} `{SuiTx} (sv : service) (t0 : list sevent) (r : journal_request) (new : list sevent) : Prop :=
  ∃ p v pre post, jr_signer r = jr_wallet r ∧ jr_prepared r = Some p ∧ validatePreparedRegisterTransaction p (jr_wallet r) = inr v ∧
    new = pre ++ SExecute (of_chars (v_bytes v)) (signature p) :: post ∧
    unsubmitted pre ∧ unsubmitted post ∧ denied sv t0 (digest p) pre.
Definition executes (e : sevent) : bool := match e with SExecute _ _ => true | _ => false end.
Definition wallet_certified (r : journal_request) (new : list sevent) : Prop :=
  jr_reconcile r = false ∧ (∃ step, jr_resume r = Some step ∧ ws_kind step = SUploaded) ∧
  Forall (λ e, executes e = false) new.
Definition lawful `{SuiSdk} `{SuiTx} (sv : service) (t0 : list sevent) (r : journal_request) (new : list sevent) : Prop :=
  unsubmitted new ∨ replayed sv t0 r new ∨ wallet_certified r new.

Lemma lawful_snoc `{SuiSdk} `{SuiTx} sv t0 r new ev : calm ev = true → lawful sv t0 r new → lawful sv t0 r (new ++ [ev]).
Proof.
  intros Hev [Hn|[(p & v & pre & post & Hw & Hp & Hv & -> & Hpre & Hpost & Hd)|(Hr & Hs & Hn)]].
  - left. by apply unsubmitted_snoc.
  - right. left. exists p, v, pre, (post ++ [ev]). rewrite <-app_assoc. split_and!; try done. by apply unsubmitted_snoc.
  - right. right. split_and!; [done..|]. apply Forall_app. split; [done|]. constructor; [by destruct ev|done].
Qed.

Lemma certify_lawful `{SuiSdk} `{SuiTx} sv t0 r step new wnew :
  jr_reconcile r = false → jr_resume r = Some step → ws_kind step = SUploaded →
  unsubmitted new → lawful sv t0 r (new ++ map SWallet wnew).
Proof.
  intros Hrec Hstep Hkind Hn. right. right. split_and!; [done|by exists step|]. apply Forall_app. split.
  - eapply Forall_impl; [exact Hn|]. by intros [].
  - apply Forall_fmap, Forall_forall. done.
Qed.

Definition journal_allowance `{SuiSdk} `{SuiTx} (sv : service) (t0 : list sevent) (r : journal_request) : allowance :=
  Allowance (lawful sv t0 r) (λ new, @or_introl _ _) (lawful_snoc sv t0 r).

Section Truth.
Context `{SuiSdk} `{WalrusSdk} `{SuiTx} `{WalletLaws} (sv : service) (cfg : journal_config).
Context (WALRUS_PACKAGE_ID SUI_TYPE SUI_CHAIN_IDENTIFIER SUI_NETWORK traceId : string).
Context (laws : outside_laws sv cfg) (t0 : list sevent) (r : journal_request).

Notation untouched := (untouched t0).
Notation quiet := (quiet t0 (journal_allowance sv t0 r)).
Notation justified := (justified sv t0).
Notation safely := (safely sv t0 (journal_allowance sv t0 r)).
Notation raised I := (raised I justified).

(** Nothing submitted, and the digest denied. *)
Definition looked (d : string) (s : sstate) : Prop :=
  ∃ new, s_trace s = t0 ++ new ∧ unsubmitted new ∧ denied sv t0 d new.
Lemma looked_untouched d s : looked d s → untouched s.
Proof. intros (new & E & Hn & _). by exists new. Qed.
Lemma looked_robust d : robust (looked d) justified.
Proof.
  split; try done; [|intros e s Ha _; by apply account_justified].
  intros ev s Hev (new & E & Hn & Hd). exists (new ++ [ev]). simpl. rewrite E, app_assoc.
  split_and!; [done|by apply unsubmitted_snoc|by apply denied_app].
Qed.

(** ** The journaled register transaction *)
Context (Hwallet : jr_signer r = jr_wallet r).

Lemma lookup_looked d : triple untouched (lookup_transaction sv d)
  (λ o s, match o with Some v => untouched s ∧ observed sv t0 v s | None => looked d s end) (raised untouched).
Proof.
  intros s Hs. pose proof Hs as (new & E & Hn).
  pose proof (call_observed sv (ol_service _ _ laws) t0 untouched (SGetTransaction d) (untouched_robust sv t0) eq_refl
    ltac:(intros ? (? & ? & ?); eauto) s Hs) as Hc.
  assert (Etr : s_trace (fst (call sv (SGetTransaction d) s)) = t0 ++ (new ++ [SGetTransaction d])).
  { unfold call. simpl. rewrite app_assoc, <-E. by destruct (sv_answer _ _). }
  assert (Ha : sv_answer sv (t0 ++ new ++ [SGetTransaction d]) =
    match snd (call sv (SGetTransaction d) s) with inr v => inr v | inl (Enoki.Thrown e) => inl e
    | inl Enoki.OutOfFuel => sv_answer sv (t0 ++ new ++ [SGetTransaction d]) end).
  { unfold call. simpl. rewrite E, <-app_assoc. by destruct (sv_answer _ _). }
  assert (Hl : ∀ s', s_trace s' = t0 ++ (new ++ [SGetTransaction d]) →
    unknown (sv_answer sv (t0 ++ new ++ [SGetTransaction d])) = true → looked d s').
  { intros s' E' Hu. exists (new ++ [SGetTransaction d]). split_and!; [done|by apply unsubmitted_snoc|].
    exists new, []. done. }
  unfold lookup_transaction, s_catch, try_catch, mbind, st_bind.
  destruct (call sv (SGetTransaction d) s) as [s' [[e|]|v]]; simpl in *.
  - destruct (mem_code (e_code e) ["NOT_FOUND"]) eqn:Em; [|done]. apply Hl; [done|]. by rewrite Ha.
  - by destruct Hc as (_ & ? & ? & _).
  - destruct v; try done. apply Hl; [done|]. by rewrite Ha.
Qed.

Lemma execute_quiet p v : jr_prepared r = Some p → validatePreparedRegisterTransaction p (jr_wallet r) = inr v →
  triple (λ s, looked (digest p) s ∧ s_started s = true)
    (track_submission (call sv (SExecute (of_chars (v_bytes v)) (signature p))))
    (λ res s, quiet s ∧ observed sv t0 res s) (raised quiet).
Proof.
  intros Hp Hv s [(new & E & Hn & Hd) Hs]. set (ev := SExecute _ _).
  assert (Hq : ∀ c f, quiet (set_metrics f (s_set_clock c (s_emit ev s)))).
  { intros c f. exists (new ++ [ev]). simpl. rewrite E, app_assoc. split_and!; [done| |congruence].
    right. left. exists p, v, new, []. split_and!; try done. constructor. }
  unfold track_submission, s_catch, try_catch, mbind, st_bind, call.
  destruct (sv_answer sv (s_trace (s_emit ev s))) as [e|res] eqn:Ea.
  - split; [apply Hq|]. exists e. split; [done|]. apply account_justified.
    by eapply (ol_service _ _ laws).
  - split; [apply Hq|]. apply (observed_now _ _ _ _ (new ++ [ev])); [done| |by destruct new].
    simpl. by rewrite E, app_assoc.
Qed.

Lemma assert_digest_quiet d result : triple (λ s, quiet s ∧ observed sv t0 result s) (s_of_sum (assert_digest d result))
  (λ res s, quiet s ∧ observed sv t0 res s) (raised quiet).
Proof.
  intros s [Hq Ho]. unfold assert_digest, ensure. destruct (Enoki.is_str _ _); simpl; [done|]. split; [done|]. eexists. split; [done|].
  by apply account_justified.
Qed.

Lemma validated_prepared p v : validatePreparedRegisterTransaction p (jr_wallet r) = inr v → v_prepared v = p.
Proof.
  unfold validatePreparedRegisterTransaction. rewrite !ensure_inr. intros (_ & _ & Hv). case_match; [done|].
  rewrite !ensure_inr in Hv. destruct Hv as (_ & _ & Hv). case_match; by simplify_eq.
Qed.

Lemma execute_prepared p v : jr_prepared r = Some p → validatePreparedRegisterTransaction p (jr_wallet r) = inr v →
  triple untouched (executePreparedRegisterTransaction sv v (jr_reconcile r))
    (λ res s, quiet s ∧ observed sv t0 res s) (raised quiet).
Proof.
  intros Hp Hv. unfold executePreparedRegisterTransaction. rewrite (validated_prepared p v Hv). cbv zeta.
  eapply triple_bind; [eapply triple_conseq; [apply (lookup_looked (digest p))|done|done|intros e s; apply (raised_quiet sv t0 _)]|].
  intros [result|]; simpl.
  - eapply (triple_bind _ (λ _ s, quiet s ∧ observed sv t0 result s)); [|intros _; apply assert_digest_quiet].
    apply triple_modify. intros s [Hu Ho]. split; [|done]. apply (rb_started _ _ (quiet_robust sv t0 (journal_allowance sv t0 r))). by apply untouched_quiet.
  - eapply (triple_bind _ (λ _, looked (digest p))).
    + destruct (v_maxEpoch v) as [maxEpoch|]; [|by apply triple_ret].
      eapply (triple_bind _ (λ _, looked (digest p))).
      * eapply triple_conseq; [apply (p_epoch sv (ol_service _ _ laws) _ _ (looked_robust (digest p)))|done|done|].
        intros e s [Hl He]. split; [|done]. by eapply untouched_quiet, looked_untouched.
      * intros epoch. destruct (maxEpoch <? epoch); [|by apply triple_ret].
        destruct (jr_reconcile r); apply triple_throw; intros s Hl;
          (split; [by eapply untouched_quiet, looked_untouched|eexists; split; [done|]]);
          [by apply account_justified|]. split; [|done]. intros _. by eapply looked_untouched.
    + intros _. eapply (triple_bind _ (λ _ s, looked (digest p) s ∧ s_started s = true)); [by apply triple_modify|].
      intros _. eapply triple_bind; [by apply execute_quiet|]. intros res. apply assert_digest_quiet.
Qed.

Lemma created_quiet result : triple (λ s, quiet s ∧ observed sv t0 result s)
  (s_of_sum (createdBlobObjectIdFromTransaction WALRUS_PACKAGE_ID result)) (λ _, quiet) (raised quiet).
Proof.
  intros s Hs. pose proof (register_executed sv t0 (journal_allowance sv t0 r) result "registration transaction" s Hs) as Hr.
  unfold createdBlobObjectIdFromTransaction.
  destruct (Enoki.assertFinalizedTransactionSuccess _ _) as [e|tx]; [exact Hr|]. destruct Hs as [Hq _].
  destruct (created_blobs _ _) as [|id [|]]; simpl; [|done|]; (split; [done|]); (eexists; split; [done|]);
    by apply account_justified.
Qed.

Lemma q_validate id encoded : preserves quiet justified (validateRegisteredBlob sv id encoded).
Proof. apply (p_validate_registered sv (ol_service _ _ laws) _ _ (quiet_robust sv t0 (journal_allowance sv t0 r)) (ol_blob_id _ _ laws)). Qed.

Lemma register_execute_safe prepared encoded : jr_prepared r = Some prepared →
  safely (register_execute sv WALRUS_PACKAGE_ID r prepared encoded).
Proof.
  intros Hp. unfold register_execute. destruct (validatePreparedRegisterTransaction _ _) as [e|v] eqn:Hv.
  - apply safely_preserves, p_ret.
  - apply safely_bind; [apply p_modify; intros s; apply (rb_can _ _ (untouched_robust sv t0))|]. intros _.
    apply safely_bind.
    { apply p_if; [apply p_modify; intros s; apply (rb_started _ _ (untouched_robust sv t0))|apply p_ret]. }
    intros _. eapply triple_bind; [by apply (execute_prepared prepared)|]. intros result.
    eapply triple_bind; [apply created_quiet|]. intros id. apply p_bind; [apply q_validate|]. intros _. apply p_ret.
Qed.

Lemma register_prepare_safe encoded :
  safely (register_prepare sv cfg WALRUS_PACKAGE_ID SUI_TYPE SUI_CHAIN_IDENTIFIER SUI_NETWORK r encoded).
Proof.
  pose proof (untouched_robust sv t0) as HI. pose proof (ol_service _ _ laws) as Hf.
  apply safely_preserves. unfold register_prepare. apply p_if; [|apply p_ret]. apply p_if; [|apply p_ret].
  apply p_bind; [by apply p_call|]. intros _. apply p_bind; [apply p_prepare; [done..|apply (ol_bytes _ _ laws)]|].
  intros p. apply p_bind; [by apply p_identity|]. intros id. apply p_ret.
Qed.

Lemma p_certified_step I step : robust I justified → preserves I justified
  (certifiedStep sv (ws_blobId step) (ws_blobObjectId step)).
Proof. intros HI. apply p_certified; [apply (ol_service _ _ laws)|done|apply (ol_blob_id _ _ laws)]. Qed.

Lemma step_registered_safe step : safely (step_registered sv r step).
Proof.
  pose proof (untouched_robust sv t0) as HI. pose proof (ol_service _ _ laws) as Hf.
  apply safely_preserves. apply p_bind; [by apply p_certified_step|]. intros [c|]; [apply p_ret|].
  apply p_bind; [by apply p_call|]. intros _. apply p_bind; [by apply p_upload|]. intros uploaded. apply p_ret.
Qed.

Lemma step_uploaded_safe step : jr_resume r = Some step → ws_kind step = SUploaded → safely (step_uploaded sv r step).
Proof.
  intros Hstep Hkind. pose proof (untouched_robust sv t0) as HI. pose proof (ol_service _ _ laws) as Hf.
  apply safely_bind; [by apply p_certified_step|]. intros [c|]; [apply safely_preserves, p_ret|].
  destruct (jr_reconcile r) eqn:Hrec; cbn [negb]; [apply safely_preserves, p_ret|].
  apply safely_bind; [apply p_modify; intros s; by apply (rb_emit _ _ HI)|]. intros _.
  eapply triple_bind; [apply wallet_quiet; intros new wnew; by apply (certify_lawful sv t0 r step)|]. intros d.
  eapply triple_bind; [apply (call_observed sv Hf t0 quiet (SWait (js_digest d)) (quiet_robust _ _ _) eq_refl (quiet_trace _ _))|].
  intros result. eapply triple_bind; [apply register_executed|]. intros u. simpl.
  apply p_bind; [apply p_certified_step, quiet_robust|]. intros [c|]; [apply p_ret|].
  apply p_throw; [apply quiet_robust|done].
Qed.

Lemma next_step_safe :
  safely (next_step sv cfg WALRUS_PACKAGE_ID SUI_TYPE SUI_CHAIN_IDENTIFIER SUI_NETWORK r).
Proof.
  pose proof (untouched_robust sv t0) as HI. pose proof (ol_service _ _ laws) as Hf. unfold next_step.
  apply safely_bind; [by apply p_call|]. intros _. destruct (jr_resume r) as [step|] eqn:Hr.
  - destruct (ws_kind step) eqn:Hk.
    + apply safely_bind; [by apply p_call|]. intros encoded.
      destruct (jr_prepared r) eqn:Hp; [by apply register_execute_safe|apply register_prepare_safe].
    + apply step_registered_safe.
    + by apply step_uploaded_safe.
    + apply safely_preserves, p_ret.
  - apply safely_preserves, p_bind; [by apply p_call|]. intros step. apply p_ret.
Qed.
End Truth.

(** An answer that carries a step. *)
Definition is_step (resp : response) : bool :=
  match r_body resp with JObj ((k, _) :: _) => seqb k "step" | _ => false end.
Definition discloses (o : response + json) : Prop :=
  match o with inl resp => claims resp = false ∧ is_step resp = false | inr _ => True end.

(** The request the handler works on is the one of the body. *)
Definition accepted (cfg : journal_config) (body : json) (r : journal_request) : Prop :=
  parse_steps body = inr (jr_resume r, jr_prepared r) ∧ jr_reconcile r = truthy (jget "reconcileOnly" body) ∧
  (is_Some (jr_prepared r) → ∃ step, jr_resume r = Some step ∧ ws_kind step = SEncoded) ∧
  ∃ key, key ∈ jc_keys cfg ∧ jc_address cfg key = inr (jr_signer r).
Definition admits (cfg : journal_config) (body : json) (o : response + journal_request) : Prop :=
  match o with inl resp => claims resp = false ∧ is_step resp = false | inr r => accepted cfg body r end.

Section Answers.
Context `{SuiSdk} `{WalrusSdk} `{SuiTx} `{Wallet} (sv : service) (cfg : journal_config).
Context (WALRUS_PACKAGE_ID SUI_TYPE SUI_CHAIN_IDENTIFIER SUI_NETWORK : string).

Lemma next_step_discloses r :
  yields discloses (next_step sv cfg WALRUS_PACKAGE_ID SUI_TYPE SUI_CHAIN_IDENTIFIER SUI_NETWORK r).
Proof.
  apply y_bind. intros _. destruct (jr_resume r) as [step|]; [|apply y_bind; intros v; by apply y_ret].
  destruct (ws_kind step).
  - apply y_bind. intros encoded. destruct (jr_prepared r) as [p|].
    + unfold register_execute. destruct (validatePreparedRegisterTransaction _ _); [by apply y_ret|].
      do 5 (apply y_bind; intros ?). by apply y_ret.
    + unfold register_prepare. apply y_if; intros _; [|by apply y_ret]. apply y_if; intros _; [|by apply y_ret].
      do 3 (apply y_bind; intros ?). by apply y_ret.
  - apply y_bind. intros [c|]; [by apply y_ret|]. do 2 (apply y_bind; intros ?). by apply y_ret.
  - apply y_bind. intros [c|]; [by apply y_ret|]. apply y_if; intros _; [|by apply y_ret].
    do 5 (apply y_bind; intros ?). destruct a3; [by apply y_ret|apply y_throw].
  - by apply y_ret.
Qed.

Lemma run_step_discloses r : yields (λ resp, claims resp = false)
  (run_step sv cfg WALRUS_PACKAGE_ID SUI_TYPE SUI_CHAIN_IDENTIFIER SUI_NETWORK r).
Proof.
  unfold run_step. apply y_if; intros _; [|by apply y_ret]. apply y_bind. intros _.
  eapply y_bind_with; [apply next_step_discloses|]. intros [answered|step] Ho; [apply y_ret, Ho|].
  apply y_bind. intros _. by apply y_ret.
Qed.

Lemma validate_tail_admits body mk :
  (∀ resume prepared rec id, parse_steps body = inr (resume, prepared) → rec = truthy (jget "reconcileOnly" body) →
     (is_Some prepared → ∃ step, resume = Some step ∧ ws_kind step = SEncoded) →
     accepted cfg body (mk resume prepared rec id)) →
  yields (admits cfg body) (validate_tail body mk).
Proof.
  intros Hmk. unfold validate_tail. destruct (parse_steps body) as [e|[resume prepared]]; [by apply y_ret|].
  apply y_bind. intros _. apply y_if; intros Henc; [|by apply y_ret]. apply y_if; intros _; [|by apply y_ret].
  apply y_bind. intros _. apply y_if; intros _; [|by apply y_ret]. apply y_ret. apply Hmk; [done|done|].
  intros [p ->]. destruct resume as [step|]; [|done]. exists step. split; [done|]. by apply bool_decide_eq_true in Henc.
Qed.

Lemma key_at_in keys slot key : key_at keys slot = Some key → key ∈ keys.
Proof.
  unfold key_at. destruct (keys !! Z.to_nat slot) as [k|] eqn:E; [|done]. destruct (is_empty k); [done|].
  intros [= <-]. by eapply list_elem_of_lookup_2.
Qed.

Lemma validate_admits body : yields (admits cfg body) (validate_journal cfg body).
Proof.
  unfold validate_journal. cbv zeta. destruct (sanitizeRequestId _) as [jobId|]; [|by apply y_ret].
  do 3 (apply y_if; intros _; [|by apply y_ret]).
  destruct (parseWalrusKeySlot _) as [slot|]; [|by apply y_ret].
  destruct (key_at _ slot) as [key|] eqn:Hkey; [|by apply y_ret].
  apply (y_bind_with (λ a, jc_address cfg key = inr a)).
  { intros s _. by destruct (jc_address cfg key). }
  intros signer Hsigner. destruct (coalesce _ _) as [| | | |w| |]; try by apply y_ret.
  apply y_if; intros _; [|by apply y_ret].
  destruct (Config.parseDurableWalrusEpochs _ _) as [epochs|]; [|by apply y_ret].
  apply validate_tail_admits. intros resume prepared rec id Hp Hrec Henc. split_and!; [done|done|done|].
  exists key. split; [by eapply key_at_in|done].
Qed.

Lemma admit_admits body : yields (admits cfg body)
  (admission sv cfg WALRUS_PACKAGE_ID SUI_CHAIN_IDENTIFIER SUI_NETWORK body).
Proof.
  eapply y_bind_with; [apply validate_admits|]. intros [answered|r] Ho; [by apply y_ret|].
  do 2 (apply y_bind; intros ?). by apply y_ret.
Qed.
End Answers.


(** ** The handler *)
Section Handler.
Context `{SuiSdk} `{WalrusSdk} `{SuiTx} `{WalletLaws} (sv : service) (cfg : journal_config).
Context (WALRUS_PACKAGE_ID SUI_TYPE SUI_CHAIN_IDENTIFIER SUI_NETWORK traceId : string).
Context (laws : outside_laws sv cfg).

Notation handler := (upload_step_handler sv cfg WALRUS_PACKAGE_ID SUI_TYPE SUI_CHAIN_IDENTIFIER SUI_NETWORK traceId).

Lemma admit_untouched t0 body : preserves (untouched t0) (justified sv t0)
  (admission sv cfg WALRUS_PACKAGE_ID SUI_CHAIN_IDENTIFIER SUI_NETWORK body).
Proof.
  pose proof (untouched_robust sv t0) as HI. pose proof (ol_service _ _ laws) as Hf.
  apply p_bind.
  - unfold validate_journal. cbv zeta. destruct (sanitizeRequestId _); [|apply p_ret].
    do 3 (apply p_if; [|apply p_ret]). destruct (parseWalrusKeySlot _); [|apply p_ret].
    destruct (key_at _ _); [|apply p_ret]. apply p_bind; [apply p_of_sum; [done|intros e; apply (ol_key _ _ laws)]|].
    intros signer. destruct (coalesce _ _); try apply p_ret. apply p_if; [|apply p_ret].
    destruct (Config.parseDurableWalrusEpochs _ _); [|apply p_ret]. unfold validate_tail.
    destruct (parse_steps body) as [|[]]; [apply p_ret|]. apply p_bind; [by apply p_modify; intros ?; apply HI|].
    intros _. do 2 (apply p_if; [|apply p_ret]). apply p_bind; [by apply p_modify; intros ?; apply HI|].
    intros _. apply p_if; apply p_ret.
  - intros [answered|r]; [apply p_ret|]. apply p_bind; [|intros _; apply p_bind; [by apply p_call|intros _; apply p_ret]].
    destruct (jr_identity r); [by apply p_assert_identity|apply p_ret].
Qed.

(** Lawful since [t0], for the request of [body]. *)
Definition lawful_body (t0 : list sevent) (body : json) (s : sstate) : Prop :=
  ∃ new, s_trace s = t0 ++ new ∧
    (unsubmitted new ∨ ∃ r, accepted cfg body r ∧ (replayed sv t0 r new ∨ wallet_certified r new)).
Notation truthful := (truthful sv).

Lemma quiet_lawful t0 r body s : accepted cfg body r → quiet t0 (journal_allowance sv t0 r) s → lawful_body t0 body s.
Proof. intros Hr (new & E & Hl & _). exists new. split; [done|]. destruct Hl as [Hl|Hl]; [by left|right; eauto]. Qed.

Lemma run_step_quiet t0 r : triple (untouched t0)
  (run_step sv cfg WALRUS_PACKAGE_ID SUI_TYPE SUI_CHAIN_IDENTIFIER SUI_NETWORK r)
  (λ _, quiet t0 (journal_allowance sv t0 r)) (raised (quiet t0 (journal_allowance sv t0 r)) (justified sv t0)).
Proof.
  pose proof (untouched_robust sv t0) as HI. pose proof (ol_service _ _ laws) as Hf.
  unfold run_step. destruct (seqb (jr_signer r) (jr_wallet r)) eqn:Hw; [|apply safely_preserves, p_ret].
  apply seqb_eq in Hw. apply safely_bind; [by apply p_modify; intros s; apply HI|]. intros _.
  eapply triple_bind; [by eapply next_step_safe|]. intros [answered|step]; [by apply triple_ret|].
  pose proof (quiet_robust sv t0 (journal_allowance sv t0 r)) as HQ. apply p_bind; [|intros _; apply p_ret].
  apply p_bind; [apply p_gets|]. intros []; [|apply p_ret]. apply p_bind; [by apply p_call|]. intros u. apply p_ret.
Qed.

Lemma guarded_run t0 body r : accepted cfg body r → triple (untouched t0)
  (s_catch (run_step sv cfg WALRUS_PACKAGE_ID SUI_TYPE SUI_CHAIN_IDENTIFIER SUI_NETWORK r) (on_error traceId))
  (λ resp s, lawful_body t0 body s ∧ truthful t0 resp s) (λ _ _, False).
Proof.
  intros Hr. eapply triple_catch.
  - eapply triple_conseq; [eapply triple_yields; [apply run_step_quiet|apply run_step_discloses]|done| |done].
    intros resp s [Hq Hc]. split; [by eapply quiet_lawful|]. unfold truthful. by rewrite Hc.
  - intros f s (Hq & x & -> & Hj). simpl. split; [by eapply quiet_lawful|by eapply failure_truthful].
Qed.

Lemma calm_snoc t0 body resp s : lawful_body t0 body s ∧ truthful t0 resp s →
  lawful_body t0 body (s_emit SReleaseSlots s) ∧ truthful t0 resp (s_emit SReleaseSlots s).
Proof.
  intros [(new & E & Hl) Ht]. split.
  - exists (new ++ [SReleaseSlots]). simpl. rewrite E, app_assoc. split; [done|].
    destruct Hl as [Hl|(r & Hr & Hl)]; [left; by apply unsubmitted_snoc|].
    destruct (lawful_snoc sv t0 r new SReleaseSlots eq_refl (or_intror Hl)) as [Hn|Hn]; [by left|right; by exists r].
  - by apply truthful_release.
Qed.

Lemma handler_outcome body s : ∃ s' resp, handler body s = (s', inr resp) ∧
  lawful_body (s_trace s) body s' ∧ truthful (s_trace s) resp s'.
Proof.
  set (t0 := s_trace s).
  apply (guarded_outcome (λ s, untouched t0 s) (λ resp s, lawful_body t0 body s ∧ truthful t0 resp s)
    (λ resp s, lawful_body t0 body s ∧ truthful t0 resp s) (λ r s, untouched t0 s ∧ accepted cfg body r)
    (admission sv cfg WALRUS_PACKAGE_ID SUI_CHAIN_IDENTIFIER SUI_NETWORK body)
    (run_step sv cfg WALRUS_PACKAGE_ID SUI_TYPE SUI_CHAIN_IDENTIFIER SUI_NETWORK) (on_error traceId)
    (s_set_phase "request" (s_set_can false (s_set_started false s)))).
  - intros s1 Hs1. pose proof (triple_yields _ _ _ _ _ (admit_untouched t0 body)
      (admit_admits sv cfg WALRUS_PACKAGE_ID SUI_CHAIN_IDENTIFIER SUI_NETWORK body) s1 Hs1) as Ha.
    assert (Hdone : ∀ resp s2, untouched t0 s2 → lawful_body t0 body s2 ∧ truthful t0 resp s2).
    { intros resp s2 (new & E & Hn). split; [exists new; auto|left; by exists new]. }
    destruct (admission _ _ _ _ _ body s1) as [s2 [e|[answered|r]]].
    + destruct Ha as (Hu & x & -> & _). exists x. split; [done|]. by apply Hdone.
    + destruct Ha as [Hu _]. by apply Hdone.
    + done.
  - intros r s1 [Hs1 Hr]. by apply (guarded_run t0 body r).
  - intros resp s1. apply calm_snoc.
  - exists []. split; [by rewrite app_nil_r|constructor].
Qed.

(** C1: the answer "NO_SIDE_EFFECT" is truthful.  The handler always
    answers, and when the code of its answer is [NO_SIDE_EFFECT], the request
    submitted nothing (no execution of the journaled bytes, no sponsored or
    direct execution by the wallet), or the chain itself reported a
    transaction as finalized and failed.  So a caller that rebuilds and
    resubmits after this code cannot register or certify a blob twice. *)
Theorem no_side_effect_truthful body s : ∃ s' resp, handler body s = (s', inr resp) ∧
  (jget "code" (r_body resp) = JStr "NO_SIDE_EFFECT" →
   (∃ new, s_trace s' = s_trace s ++ new ∧ Forall (λ e, submits e = false) new) ∨
   (∃ tr v, tr `prefix_of` s_trace s' ∧ (length (s_trace s) < length tr)%nat ∧ sv_answer sv tr = inr v ∧
      failed_transaction v = true)).
Proof.
  destruct (handler_outcome body s) as (s' & resp & E & _ & Ht). exists s', resp. split; [done|]. intros Hc.
  destruct Ht as [Hu|(v & (tr & Hp & Hl & Hv) & Hf)]; [unfold claims; by rewrite Hc|by left|].
  right. by exists tr, v.
Qed.

End Handler.
