(* ===== verification/JournalSteps.v ===== *)
(** * The checkpoints of the durable upload journal are backed by the chain

    What an answered step says was reported by the chain, the Walrus client
    or the journal within the request. *)
From Stdlib Require Import QArith Ascii.
From S2P Require Import Prelude JsText JsNumber JsonParse Base64 SealId Retry Config EnokiSafety Wallet.
From S2P Require Import Service Util Blob Query Durable DurableFrame SideEffects Journal.
From S2P Require Import JournalSafety.
From S2P Require Enoki.
Local Open Scope Z_scope.



Section Runs.
Context `{SuiSdk} `{WalrusSdk} `{SuiTx} `{WalletLaws} (sv : service) (cfg : journal_config).
Context (WALRUS_PACKAGE_ID SUI_TYPE SUI_CHAIN_IDENTIFIER SUI_NETWORK : string).
Context (laws : outside_laws sv cfg).


(** ** Steps *)















Context (traceId : string).
Notation handler := (upload_step_handler sv cfg WALRUS_PACKAGE_ID SUI_TYPE SUI_CHAIN_IDENTIFIER SUI_NETWORK traceId).


End Runs.
