(* ===== verification/MetadataSafety.v ===== *)
(** * Theorems about metadata and transfer (routes/walrus-metadata.ts) *)
From Stdlib Require Import QArith Ascii.
From S2P Require Import Prelude JsText JsNumber JsonParse SealId Retry EnokiSafety Wallet Service Util.
From S2P Require Import Blob Query Durable Journal DurableFrame SideEffects JournalSafety Metadata.
From S2P Require Enoki.
Local Open Scope Z_scope.

(** A reconciling request may submit nothing. *)
Definition metadata_lawful (reconcile : bool) (new : list sevent) : Prop := unsubmitted new ∨ reconcile = false.
Lemma metadata_lawful_snoc reconcile new ev :
  calm ev = true → metadata_lawful reconcile new → metadata_lawful reconcile (new ++ [ev]).
Proof. intros Hev [Hn|Hr]; [left; by apply unsubmitted_snoc|by right]. Qed.
Definition metadata_allowance (reconcile : bool) : allowance :=
  Allowance (metadata_lawful reconcile) (λ new, @or_introl _ _) (metadata_lawful_snoc reconcile).

Section MetadataSafety.
Context `{SuiSdk} `{WalrusSdk} `{SuiTx} `{WalletLaws} (sv : service) (cfg : journal_config) (policy : seal_policy).
Context (WALRUS_PACKAGE_ID SUI_CHAIN_IDENTIFIER SUI_NETWORK traceId : string) (requireDurableIdentity : bool).
Context (laws : outside_laws sv cfg).

Notation handler := (set_metadata_handler sv cfg policy WALRUS_PACKAGE_ID SUI_CHAIN_IDENTIFIER SUI_NETWORK traceId
  requireDurableIdentity).
Notation admission := (admit_metadata sv cfg policy WALRUS_PACKAGE_ID SUI_CHAIN_IDENTIFIER SUI_NETWORK
  requireDurableIdentity).

(** ** Validation *)
Lemma slot_key_in keyIndex slot key : slot_key cfg keyIndex = inr (slot, key) → key ∈ jc_keys cfg.
Proof.
  unfold slot_key. destruct (parseWalrusKeySlot _) as [z|]; [|done]. destruct (key_at _ z) as [k|] eqn:E; [|done].
  intros [= _ <-]. by eapply key_at_in.
Qed.

(** The request is the one of the body, an early answer is a plain 400. *)
Definition of_body (body : json) (r : metadata_request) : Prop :=
  mr_reconcile r = truthy (jget "reconcileOnly" body) ∧ mr_key r ∈ jc_keys cfg ∧
  jget "blobObjectId" body = JStr (mr_objectId r) ∧
  (∃ o, jget "owner" body = JStr o ∧ mr_owner r = normalizeSuiAddress o) ∧
  parseSealPersistenceFence body (jget "packageId" body) policy = inr (mr_fence r).
Definition valid_metadata (body : json) (v : js_error + (response + metadata_request)) : Prop :=
  match v with
  | inl e => account e = true
  | inr (inl resp) => r_status resp = 400 ∧ claims resp = false
  | inr (inr r) => of_body body r
  end.

Lemma text_matches_str p v : text_matches p v = true → v = JStr (text_of v).
Proof. by destruct v. Qed.

Lemma validate_metadata_valid body :
  valid_metadata body (validate_metadata cfg policy requireDurableIdentity body).
Proof.
  unfold validate_metadata. cbv zeta.
  repeat match goal with |- valid_metadata _ (if ?b then _ else _) =>
    lazymatch b with
    | negb (text_matches ?p ?v) => destruct (text_matches p v) eqn:?; cbn [negb]; [|by split]
    | _ => destruct b; [by split|]
    end
  end.
  unfold fence_of. destruct (parseSealPersistenceFence _ _ _) as [fe|fence] eqn:Hf; [done|].
  destruct (slot_key _ _) as [m|[slot key]] eqn:Hk; [by split|]. split_and!; simpl; [done|by eapply slot_key_in| | |done].
  - by eapply text_matches_str.
  - exists (text_of (jget "owner" body)). split; [by eapply text_matches_str|done].
Qed.

(** ** Side effects *)
Section From.
Context (t0 : list sevent).

Lemma metadata_admit_untouched body : preserves (untouched t0) (justified sv t0) (admission body).
Proof.
  pose proof (untouched_robust sv t0) as HI. pose proof (ol_service _ _ laws) as Hf.
  apply p_bind; [apply p_modify; intros s; apply (rb_can _ _ HI)|]. intros _. apply p_bind.
  - apply p_of_sum; [done|]. intros e He. pose proof (validate_metadata_valid body) as Hv. by rewrite He in Hv.
  - intros [answered|r]; [apply p_ret|]. apply p_bind; [|intros _; apply p_bind; [by apply p_call|intros _; apply p_ret]].
    destruct (mr_identity r); [by apply p_assert_identity|apply p_ret].
Qed.

Definition admits_metadata (body : json) (o : response + metadata_request) : Prop :=
  match o with inl resp => r_status resp = 400 ∧ claims resp = false | inr r => of_body body r end.
Lemma metadata_admit_admits body : yields (admits_metadata body) (admission body).
Proof.
  apply y_bind. intros _. apply (y_bind_with (admits_metadata body)).
  - intros s _. pose proof (validate_metadata_valid body) as Hv.
    by destruct (validate_metadata _ _ _ body) as [|[]].
  - intros [answered|r] Hr; [by apply y_ret|]. do 2 (apply y_bind; intros ?). by apply y_ret.
Qed.

Lemma transfer_safe signer blobs owner packageId agentId wp :
  safely sv t0 (metadata_allowance false)
    (setMetadataAndTransferBlobs sv signer blobs owner packageId agentId wp true).
Proof.
  pose proof (untouched_robust sv t0) as HI. pose proof (ol_service _ _ laws) as Hf.
  unfold setMetadataAndTransferBlobs. destruct blobs as [|b bs]; [by apply safely_preserves, p_throw|].
  apply safely_bind; [by apply p_modify; intros s; apply (rb_emit _ _ HI)|]. intros _.
  eapply triple_bind; [apply wallet_quiet; intros new wnew _; by right|]. intros d.
  eapply triple_bind; [apply (call_observed sv Hf t0 (quiet t0 (metadata_allowance false)) (SWait (js_digest d))
    (quiet_robust _ _ _) eq_refl (quiet_trace _ _))|].
  intros result. eapply triple_bind; [apply register_executed|]. intros u. by apply triple_ret.
Qed.

Lemma run_metadata_safe body r :
  safely sv t0 (metadata_allowance (mr_reconcile r)) (run_metadata sv cfg traceId body r).
Proof.
  pose proof (untouched_robust sv t0) as HI. pose proof (ol_service _ _ laws) as Hf.
  apply safely_bind; [apply p_of_sum; [done|intros e; apply (ol_key _ _ laws)]|]. intros signer.
  destruct (match mr_wallet r with Some w => seqb signer w | None => true end); [|apply safely_preserves, p_ret].
  apply safely_bind; [by apply p_retry, p_read_object|]. intros object. cbv zeta.
  destruct (negb (metadataReceiptAlreadyApplied _ _ _)); [|apply safely_preserves, p_ret].
  destruct (ownerMatchesRecipient _ _); [|apply safely_preserves, p_ret].
  destruct (mr_reconcile r); [apply safely_preserves, p_ret|].
  eapply triple_bind; [apply transfer_safe|]. intros digest. simpl.
  pose proof (quiet_robust sv t0 (metadata_allowance false)) as HQ.
  apply p_bind; [by apply p_call|]. intros u. apply p_ret.
Qed.
End From.

Lemma run_metadata_discloses body r : yields (λ resp, claims resp = false) (run_metadata sv cfg traceId body r).
Proof.
  apply y_bind. intros signer. apply y_if; intros _; [|by apply y_ret]. apply y_bind. intros object. cbv zeta.
  do 3 (apply y_if; intros _; [|by apply y_ret]). do 2 (apply y_bind; intros ?). by apply y_ret.
Qed.

(** C9: the durable metadata route is truthful about side effects.  It
    always answers; a reconciling request submits nothing; and an answer with
    the code [NO_SIDE_EFFECT] means that the request submitted nothing, or
    that the chain itself reported its transaction as finalized and failed. *)
Theorem metadata_truthful body s : ∃ s' resp new, handler body s = (s', inr resp) ∧
  s_trace s' = s_trace s ++ new ∧
  (truthy (jget "reconcileOnly" body) = true → Forall (λ e, submits e = false) new) ∧
  (jget "code" (r_body resp) = JStr "NO_SIDE_EFFECT" →
   Forall (λ e, submits e = false) new ∨
   (∃ tr v, tr `prefix_of` s_trace s' ∧ (length (s_trace s) < length tr)%nat ∧ sv_answer sv tr = inr v ∧
      failed_transaction v = true)).
Proof.
  set (t0 := s_trace s). set (rec := truthy (jget "reconcileOnly" body)).
  set (Q := λ resp s', (∃ new, s_trace s' = t0 ++ new ∧ metadata_lawful rec new) ∧ truthful sv t0 resp s').
  assert (Hout : ∃ s' resp, handler body s = (s', inr resp) ∧ Q resp s').
  { apply (guarded_outcome (untouched t0) Q Q (λ r s1, untouched t0 s1 ∧ of_body body r) (admission body)
      (run_metadata sv cfg traceId body) (metadata_error traceId) (s_set_can false (s_set_started false s))).
    - intros s1 Hs1. pose proof (triple_yields _ _ _ _ _ (metadata_admit_untouched t0 body)
        (metadata_admit_admits body) s1 Hs1) as Ha.
      assert (Hdone : ∀ resp s2, untouched t0 s2 → Q resp s2).
      { intros resp s2 (new & E & Hn). split; [exists new; split; [done|by left]|left; by exists new]. }
      destruct (admission body s1) as [s2 [e|[answered|r]]]; [|by apply Hdone; destruct Ha|done].
      destruct Ha as (Hu & x & -> & _). exists x. split; [done|]. by apply Hdone.
    - intros r s1 [Hs1 (Hrec & _)]. assert (Er : rec = mr_reconcile r) by done. unfold Q. rewrite Er.
      assert (Hq : ∀ s2, quiet t0 (metadata_allowance (mr_reconcile r)) s2 →
        ∃ new, s_trace s2 = t0 ++ new ∧ metadata_lawful (mr_reconcile r) new).
      { intros s2 (new & E & Hl & _). by exists new. }
      refine (triple_catch _ _ _ _ _ _ (triple_conseq _ _ _ _ _ _ _
        (triple_yields _ _ _ _ _ (run_metadata_safe t0 body r) (run_metadata_discloses body r))
        (λ _ Hx, Hx) _ (λ _ _ Hx, Hx)) _ s1 Hs1).
      + intros resp s2 [Hs2 Hc]. split; [by apply Hq|]. unfold truthful. by rewrite Hc.
      + intros f s2 (Hs2 & x & -> & Hj). simpl. split; [by apply Hq|].
        destruct (is_fence_error x); [done|]. by eapply failure_truthful.
    - intros resp s1 [(new & E & Hl) Ht]. split; [|by apply truthful_release]. exists (new ++ [SReleaseSlots]).
      simpl. rewrite E, app_assoc. split; [done|by apply metadata_lawful_snoc].
    - exists []. split; [by rewrite app_nil_r|constructor]. }
  destruct Hout as (s' & resp & E & (new & Etr & Hl) & Ht). exists s', resp, new. split_and!; [done|done| |].
  - intros Hr. destruct Hl as [Hl|Hl]; [done|congruence].
  - intros Hc. destruct Ht as [(n & E2 & Hn)|(v & (tr & Hp & Hlen & Hv) & Hf)]; [unfold claims; by rewrite Hc| |].
    + left. rewrite Etr in E2. by apply app_inv_head in E2 as ->.
    + right. by exists tr, v.
Qed.

(** ** Transfers *)

(** [ev] happened between [s] and [s']. *)
Definition happened (s s' : sstate) (ev : sevent) : Prop :=
  ∃ pre, (s_trace s ++ pre ++ [ev]) `prefix_of` s_trace s'.

Lemma transfer_run signer blobs owner packageId agentId wp t s s' digest :
  setMetadataAndTransferBlobs sv signer blobs owner packageId agentId wp t s = (s', inr digest) →
  s_trace s `prefix_of` s_trace s' ∧
  happened s s' (STransfer (buildMetadataTransferTx blobs owner packageId agentId)) ∧
  ∃ result tx label, reported sv s s' (SWait (js_digest digest)) result ∧
    Enoki.assertFinalizedTransactionSuccess result label = inr tx.
Proof.
  unfold setMetadataAndTransferBlobs. destruct blobs as [|b bs]; [done|]. intros Hr.
  apply bind_inr in Hr as (s1 & u & Hm & Hr). apply modify_run in Hm as ->.
  apply bind_inr in Hr as (s2 & d & Hw & Hr). apply bind_inr in Hr as (s3 & result & Hc & Hr).
  apply bind_inr in Hr as (s4 & tx & Ht & Hr). apply of_sum_run in Ht as [Ht ->]. injection Hr as <- <-.
  eapply grows_run in Hw; [|apply grows_rebuildable]. simpl in Hw. pose proof (call_reported _ _ _ _ _ Hc) as Hrep.
  eapply grows_run in Hc; [|apply grows_call].
  assert (H02 : s_trace s `prefix_of` s_trace s2) by (etrans; [|exact Hw]; by apply prefix_app_r).
  split_and!; [by etrans|exists []; by etrans|]. eexists result, tx, _. split; [|exact Ht].
  by eapply reported_mono.
Qed.

Definition transferred (body : json) (r : metadata_request) (signer : string) (s s' : sstate) (resp : response) : Prop :=
  ∃ digest result tx label,
    happened s s' (STransfer (buildMetadataTransferTx
      [TransferBlob (mr_objectId r) (default "default" (text_field (jget "namespace" body))) (mr_fence r)]
      (mr_owner r) (text_field (jget "packageId" body)) (text_field (jget "agentId" body)))) ∧
    reported sv s s' (SWait (js_digest digest)) result ∧
    Enoki.assertFinalizedTransactionSuccess result label = inr tx ∧
    resp = transfer_response 1 digest (mr_objectId r) "ok".

(** What a 200 of the route rests on. *)
Definition settled (body : json) (r : metadata_request) (s s' : sstate) (resp : response) : Prop :=
  ∃ signer object, jc_address cfg (mr_key r) = inr signer ∧ (∀ w, mr_wallet r = Some w → signer = w) ∧
    reported sv s s' (SGetObject (mr_objectId r)) object ∧
    let currentOwner := jget "owner" (jget "object" object) in
    (mr_reconcile r = true ∧ ownerMatchesRecipient currentOwner (JStr (mr_owner r)) = true ∧
       jget "transferStatus" (r_body resp) = JStr "already_transferred" ∨
     mr_reconcile r = false ∧ ownerMatchesRecipient currentOwner (JStr signer) = true ∧
       transferred body r signer s s' resp).

Lemma happened_mono s0 s s' s1 ev : s_trace s0 `prefix_of` s_trace s → happened s s' ev →
  s_trace s' `prefix_of` s_trace s1 → happened s0 s1 ev.
Proof.
  intros [pre0 E] (pre & Hp) Hs. exists (pre0 ++ pre). rewrite E, <-!app_assoc in *. by etrans.
Qed.
Lemma settled_mono body r s0 s s' s1 resp : s_trace s0 `prefix_of` s_trace s → settled body r s s' resp →
  s_trace s' `prefix_of` s_trace s1 → settled body r s0 s1 resp.
Proof.
  intros Ha (signer & object & Hk & Hw & Ho & Hb) Hc. exists signer, object.
  split_and!; [done|done|by eapply reported_mono|]. cbv zeta in *.
  destruct Hb as [Hb|(Hr & Hm & digest & result & tx & label & Hh & Hwait & Ht & Hresp)]; [by left|right].
  split_and!; [done|done|]. exists digest, result, tx, label.
  split_and!; [by eapply happened_mono|by eapply reported_mono|done|done].
Qed.

Lemma run_metadata_run body r s s' resp : r_status resp = 200 →
  run_metadata sv cfg traceId body r s = (s', inr resp) → settled body r s s' resp.
Proof.
  intros Hst Hr. apply bind_inr in Hr as (s1 & signer & Hk & Hr). apply of_sum_run in Hk as [Hk ->].
  destruct (match mr_wallet r with Some w => seqb signer w | None => true end) eqn:Hw; [|by injection Hr as <- <-].
  assert (Hwallet : ∀ w, mr_wallet r = Some w → signer = w).
  { intros w Ew. rewrite Ew in Hw. by apply seqb_eq. }
  apply bind_inr in Hr as (s2 & object & Ho & Hr). cbv zeta in Hr.
  pose proof (ol_service _ _ laws) as Hf. pose proof (read_reported sv Hf _ _ _ _ _ Ho) as Hrep.
  assert (H02 : s_trace s `prefix_of` s_trace s2).
  { destruct Hrep as (pre & Hp & _). etrans; [|exact Hp]. by apply prefix_app_r. }
  exists signer, object. destruct (metadataReceiptAlreadyApplied _ _ _) eqn:Happ; cbn [negb] in Hr.
  - injection Hr as <- <-. apply andb_true_iff in Happ as [Hrec Hown]. split_and!; [done..|]. by left.
  - destruct (ownerMatchesRecipient _ (JStr signer)) eqn:Hown; [|by injection Hr as <- <-].
    destruct (mr_reconcile r); cbn [negb] in Hr; [by injection Hr as <- <-|].
    apply bind_inr in Hr as (s3 & digest & Ht & Hr). apply transfer_run in Ht as (H23 & Hh & result & tx & label & Hwait & Htx).
    apply bind_inr in Hr as (s4 & u & Hc & Hr). injection Hr as <- <-. eapply grows_run in Hc; [|apply grows_call].
    split_and!; [done|done|apply (reported_mono _ s s s2); [done|exact Hrep|by etrans]|]. right. split_and!; [done|done|].
    exists digest, result, tx, label.
    split_and!; [by eapply happened_mono|eapply reported_mono; [exact H02|exact Hwait|exact Hc]|done|done].
Qed.

Lemma metadata_error_status err s s' resp : metadata_error traceId err s = (s', inr resp) → r_status resp ≠ 200.
Proof.
  intros [= _ <-]. destruct (is_fence_error err); [done|]. unfold failure_response.
  by destruct (classifyDurableSideEffectError _ _ _) as [[]|].
Qed.

(** A blob is reported as transferred only when it was.  A 200 of the
    durable metadata route means: the chain showed the blob of the request
    within this request, and either the request was a reconciliation and the
    chain showed the target owner as its owner; or the chain showed the
    wallet of the key slot (the journaled wallet, when one is given) as its
    owner, the transaction handed to the wallet stamps exactly that blob with
    the parsed fence, the namespace and the normalised owner and transfers it
    to that owner, and it was awaited by its digest and finalized
    successfully. *)
Theorem transfers_are_settled body s s' resp : handler body s = (s', inr resp) → r_status resp = 200 →
  ∃ r, of_body body r ∧ settled body r s s' resp.
Proof.
  intros Hr Hst. unfold set_metadata_handler in Hr. apply bind_inr in Hr as (s1 & u & Hm & Hr). apply modify_run in Hm as ->.
  apply bind_inr in Hr as (s2 & o & Ha & Hr). set (s0 := s_set_can _ _) in Ha.
  pose proof (metadata_admit_admits body s0 Logic.I) as Had.
  apply catch_run in Ha as [Ha|(s3 & e & _ & Hh)].
  - assert (Hg : s_trace s `prefix_of` s_trace s2).
    { pose proof (metadata_admit_untouched (s_trace s) body s0) as Hu. rewrite Ha in Hu.
      destruct Hu as (new & -> & _); [exists []; split; [by rewrite app_nil_r|constructor]|]. by apply prefix_app_r. }
    rewrite Ha in Had. destruct o as [answered|r]; [injection Hr as <- <-; destruct Had; congruence|].
    unfold with_slots, finally in Hr. destruct (s_catch _ _ s2) as [s4 [|resp']] eqn:Hc; [done|].
    injection Hr as <- <-. apply catch_run in Hc as [Hc|(s5 & e & _ & Hh)].
    + exists r. split; [done|]. apply run_metadata_run in Hc; [|done]. eapply settled_mono; [exact Hg|exact Hc|].
      simpl. by apply prefix_app_r.
    + by apply metadata_error_status in Hh.
  - apply bind_inr in Hh as (s4 & ans & Ho & Hh). injection Hh as <- <-. injection Hr as <- <-.
    by apply metadata_error_status in Ho.
Qed.

(** ** The batch route *)
Notation batch_handler := (set_metadata_batch_handler sv cfg policy traceId).

Lemma batch_error_status err s s' resp : batch_error traceId err s = (s', inr resp) → r_status resp ≠ 200.
Proof. unfold batch_error. intros [= _ <-]. destruct (is_limit_error err); [done|]. by destruct (is_fence_error err). Qed.

Lemma batch_blobs_ids body idx l bs : batch_blobs policy body idx l = inr bs →
  map (λ b, JStr (mt_blobObjectId b)) bs = map (jget "blobObjectId") l ∧
  Forall2 (λ blob b, ∃ data, parseSealPersistenceFence data (jget "packageId" body) policy = inr (mt_fence b) ∧
                     jget "data" data = jget "encryptedData" blob) l bs.
Proof.
  revert idx bs. induction l as [|blob l IH]; intros idx bs; [by intros [= <-]|]. cbn [batch_blobs].
  destruct (batch_blob policy body blob idx) as [e|b] eqn:Eb; [done|].
  destruct (batch_blobs policy body (S idx) l) as [e|bs'] eqn:El; [done|]. intros [= <-].
  apply IH in El as [Hm Hf]. unfold batch_blob in Eb. rewrite ensure_inr in Eb. destruct Eb as [Hid Eb].
  apply text_matches_str in Hid. unfold fence_of in Eb.
  destruct (parseSealPersistenceFence _ _ _) as [fe|fence] eqn:Ef; [done|]. injection Eb as <-. simpl.
  split; [by rewrite Hm, <-Hid|]. constructor; [|done]. by eexists.
Qed.

Definition batch_of (body : json) (r : batch_request) (blobs : list json) : Prop :=
  jget "blobs" body = JArr blobs ∧ (1 <= length blobs <= 20)%nat ∧ br_key r ∈ jc_keys cfg ∧
  (∃ o, jget "owner" body = JStr o ∧ br_owner r = normalizeSuiAddress o) ∧
  map (λ b, JStr (mt_blobObjectId b)) (br_blobs r) = map (jget "blobObjectId") blobs ∧
  Forall2 (λ blob b, ∃ data, parseSealPersistenceFence data (jget "packageId" body) policy = inr (mt_fence b) ∧
                     jget "data" data = jget "encryptedData" blob) blobs (br_blobs r).

Lemma validate_batch_valid body : match validate_batch cfg policy body with
  | inr (inr r) => ∃ blobs, batch_of body r blobs
  | inr (inl resp) => r_status resp = 400
  | inl _ => True
  end.
Proof.
  unfold validate_batch. destruct (jget "blobs" body) as [| | | | |[|b l]|] eqn:Hblobs; try done.
  destruct (_ || _); [done|]. destruct (20 <? _)%nat eqn:Hlen; [done|].
  destruct (text_matches is_full_address (jget "owner" body)) eqn:Ho; cbn [negb]; [|done].
  destruct (bad_optional _ _); [done|]. destruct (slot_key _ _) as [m|[slot key]] eqn:Hk; [done|].
  destruct (batch_blobs policy body 0 (b :: l)) as [e|bs] eqn:Eb; [done|]. exists (b :: l).
  apply batch_blobs_ids in Eb as [Hm Hf]. apply Nat.ltb_ge in Hlen.
  split_and!; simpl in *; [done|lia|lia|by eapply slot_key_in| |done|done].
  exists (text_of (jget "owner" body)). split; [by eapply text_matches_str|done].
Qed.

(** A batch is transferred as a whole.  A 200 of the batch route means:
    the request names between one and twenty blobs; each was fenced with its
    own ciphertext; one transaction that stamps exactly these blobs, in the
    order of the request, and transfers them to the normalised owner was
    handed to the wallet of the key slot, awaited by its digest and finalized
    successfully; and the answer counts exactly these blobs. *)
Theorem batch_transfers_all body s s' resp : batch_handler body s = (s', inr resp) → r_status resp = 200 →
  ∃ r blobs signer digest result tx label,
    batch_of body r blobs ∧ jc_address cfg (br_key r) = inr signer ∧
    happened s s' (STransfer (buildMetadataTransferTx (br_blobs r) (br_owner r) (text_field (jget "packageId" body))
      (text_field (jget "agentId" body)))) ∧
    reported sv s s' (SWait (js_digest digest)) result ∧
    Enoki.assertFinalizedTransactionSuccess result label = inr tx ∧
    resp = ok (JObj [("transferred", jint (Z.of_nat (length blobs))); ("digest", digest)]).
Proof.
  intros Hr Hst. unfold set_metadata_batch_handler in Hr. apply bind_inr in Hr as (s2 & o & Ha & Hr).
  apply catch_run in Ha as [Ha|(s3 & e & _ & Hh)].
  2:{ apply bind_inr in Hh as (s4 & ans & Ho & Hh). injection Hh as <- <-. injection Hr as <- <-.
      by apply batch_error_status in Ho. }
  apply bind_inr in Ha as (s3 & v & Hv & Ha). apply of_sum_run in Hv as [Hv ->].
  pose proof (validate_batch_valid body) as Hvalid. rewrite Hv in Hvalid. destruct v as [answered|r].
  { injection Ha as <- <-. injection Hr as <- <-. congruence. }
  destruct Hvalid as (blobs & Hb). apply bind_inr in Ha as (s3 & v0 & Hacq & Ha). injection Ha as <- <-.
  eapply grows_run in Hacq; [|apply grows_call].
  unfold with_slots, finally in Hr. destruct (s_catch _ _ s3) as [s7 [|resp']] eqn:Hc; [done|]. injection Hr as <- <-.
  apply catch_run in Hc as [Hc|(s8 & e & _ & Hh)]; [|by apply batch_error_status in Hh].
  apply bind_inr in Hc as (s8 & signer & Hk & Hc). apply of_sum_run in Hk as [Hk ->].
  apply bind_inr in Hc as (s9 & digest & Ht & Hc). injection Hc as <- <-.
  apply transfer_run in Ht as (_ & Hx & result & tx & label & Hw & Htx).
  assert (Hrel : s_trace s9 `prefix_of` s_trace (s_emit SReleaseSlots s9)) by (simpl; by apply prefix_app_r).
  exists r, blobs, signer, digest, result, tx, label. split_and!; [done|done|by eapply happened_mono|by eapply reported_mono|done|].
  destruct Hb as (_ & _ & _ & _ & Hm & _). apply (f_equal length) in Hm. rewrite !length_map in Hm. by rewrite Hm.
Qed.
End MetadataSafety.
