(* ===== verification/UploadSafety.v ===== *)
(** * Theorems about the one-shot upload route (routes/walrus-upload.ts) *)
From Stdlib Require Import QArith Ascii.
From S2P Require Import Prelude JsText JsNumber JsonParse SealId Retry Config EnokiSafety Wallet Service.
From S2P Require Import Util Blob Query Durable Journal DurableFrame SideEffects JournalSafety.
From S2P Require Import Metadata MetadataSafety Upload.
From S2P Require Enoki.
Local Open Scope Z_scope.

(** The events of [l] happened between [s] and [s'], in this order, with these
    answers. *)
Fixpoint in_order (sv : service) (s s' : sstate) (l : list (sevent * json)) : Prop :=
  match l with
  | [] => s_trace s `prefix_of` s_trace s'
  | (ev, v) :: l' => ∃ s1, reported sv s s1 ev v ∧ in_order sv s1 s' l'
  end.

Lemma in_order_mono sv l s0 s s' s1 : s_trace s0 `prefix_of` s_trace s → in_order sv s s' l →
  s_trace s' `prefix_of` s_trace s1 → in_order sv s0 s1 l.
Proof.
  revert s0 s. induction l as [|[ev v] l IH]; simpl; intros s0 s Ha Hl Hb; [by do 2 etrans|].
  destruct Hl as (s2 & Hr & Hl). exists s2. split; [by eapply reported_mono|]. by eapply IH.
Qed.
Lemma in_order_app sv l1 l2 s s1 s' : in_order sv s s1 l1 → in_order sv s1 s' l2 → in_order sv s s' (l1 ++ l2).
Proof.
  revert s. induction l1 as [|[ev v] l1 IH]; simpl; intros s Ha Hb; [by eapply in_order_mono|].
  destruct Ha as (s2 & Hr & Ha). exists s2. split; [done|]. by apply IH.
Qed.
Lemma in_order_one sv s s' ev v : reported sv s s' ev v → in_order sv s s' [(ev, v)].
Proof. intros Hr. exists s'. split; [done|]. by simpl. Qed.
Lemma in_order_prefix sv l s s' : in_order sv s s' l → s_trace s `prefix_of` s_trace s'.
Proof.
  revert s. induction l as [|[ev v] l IH]; simpl; intros s Hl; [done|].
  destruct Hl as (s1 & (pre & Hp & _) & Hl). etrans; [|by apply IH]. etrans; [|exact Hp]. by apply prefix_app_r.
Qed.

Section UploadSafety.
Context `{SuiSdk} `{WalrusSdk} `{SuiTx} `{WalletLaws} (sv : service) (cfg : journal_config) (policy : seal_policy).
Context (env : Config.env) (traceId : string) (Hforeign : foreign sv).

Notation handler := (upload_handler sv cfg policy env traceId).

(** ** The failure path never throws *)
Section Failing.
Context (I : sstate → Prop) (HI : robust I anyhow).

Definition calmly {A} (m : SM A) : Prop := triple I m (λ _, I) (λ _ _, False).
Lemma calmly_ret {A} (a : A) : calmly (mret a).
Proof. by apply triple_ret. Qed.
Lemma calmly_bind {A B} (m : SM A) (k : A → SM B) : calmly m → (∀ a, calmly (k a)) → calmly (m ≫= k).
Proof. intros Hm Hk. by eapply triple_bind. Qed.
Lemma calmly_refresh b reason : calmly (refresh_if b reason).
Proof. destruct b; [|apply calmly_ret]. apply triple_modify. intros s. by apply (rb_emit _ _ HI). Qed.
Lemma calmly_or_null ev : calm ev = true → calmly (s_catch (call sv ev) (λ _, mret JNull)).
Proof.
  intros Hev s Hs. pose proof (p_call sv Hforeign I anyhow HI ev Hev s Hs) as Hc. unfold s_catch, try_catch.
  destruct (call sv ev s) as [s' [[e|]|v]]; [by destruct Hc|by destruct Hc as (_ & ? & ? & _)|done].
Qed.

Lemma calmly_refresh_after phase message : calmly (refresh_after sv phase message).
Proof.
  apply calmly_bind; [apply calmly_refresh|]. intros _. apply calmly_bind; [apply calmly_refresh|]. intros _.
  destruct (isWalrusPackageVersionMismatch _); [|apply calmly_refresh].
  apply calmly_bind; [by apply calmly_or_null|]. intros _. apply calmly_bind; [apply (calmly_refresh true)|]. intros _.
  apply calmly_bind; [by apply calmly_or_null|]. intros _. apply calmly_ret.
Qed.

Lemma calmly_error body signer err : calmly (upload_error sv traceId body signer err).
Proof.
  unfold upload_error. cbv zeta. destruct (is_fence_error err); [apply calmly_ret|].
  destruct (is_limit_error err); [apply calmly_ret|].
  apply calmly_bind; [by apply triple_gets|]. intros phase. apply calmly_bind; [apply calmly_refresh_after|]. intros _.
  apply calmly_bind; [|intros _; apply calmly_ret]. destruct signer; [|apply calmly_ret].
  apply calmly_bind; [by apply calmly_or_null|]. intros v. apply calmly_ret.
Qed.
End Failing.

Lemma error_status body signer err s s' resp : upload_error sv traceId body signer err s = (s', inr resp) →
  r_status resp ≠ 200.
Proof.
  unfold upload_error. cbv zeta. destruct (is_fence_error err); [by intros [= _ <-]|].
  destruct (is_limit_error err); [by intros [= _ <-]|]. intros Hr.
  do 3 (apply bind_inr in Hr as (? & ? & _ & Hr)). by injection Hr as _ <-.
Qed.

(** ** Growth *)
Lemma grows_phase p : grows (phase_is p).
Proof. by apply grows_modify. Qed.
Lemma grows_emit ev : grows (modify (s_emit ev)).
Proof. intros tr. apply p_modify. intros s Hs. unfold longer. simpl. by apply prefix_app_r. Qed.
Lemma grows_balance a : grows (sui_balance sv a).
Proof. apply grows_catch; [apply grows_call|]. intros e. apply grows_ret. Qed.
Lemma grows_upload digest del : grows (uploadWalrusBlobWithEffectsRetry sv digest del).
Proof. intros tr. apply p_upload; [done|apply longer_robust]. Qed.
Lemma grows_transfer signer blobs owner packageId agentId wp t :
  grows (setMetadataAndTransferBlobs sv signer blobs owner packageId agentId wp t).
Proof.
  unfold setMetadataAndTransferBlobs. destruct blobs; [apply (grows_of_sum (inl _))|].
  apply grows_bind; [apply grows_emit|]. intros _. apply grows_bind; [apply grows_rebuildable|]. intros d.
  apply grows_bind; [apply grows_call|]. intros v. apply grows_bind; [apply grows_of_sum|]. intros _. apply grows_ret.
Qed.

Ltac grow := repeat first
  [ apply grows_call | apply grows_phase | apply grows_emit | apply grows_balance | apply grows_upload
  | apply grows_rebuildable | apply grows_submit | apply grows_transfer | apply grows_ret | apply grows_of_sum
  | apply grows_bind; [|intros ?] | apply grows_catch; [|intros ?] ].

Lemma grows_register body r signer : grows (register_blob sv cfg body r signer).
Proof. unfold register_blob. cbv zeta. grow. Qed.
Lemma grows_store signer digest : grows (store_blob sv cfg signer digest).
Proof. unfold store_blob. grow. Qed.
Lemma grows_hand_over body r signer blob : grows (hand_over sv cfg body r signer blob).
Proof.
  unfold hand_over, transfer_upload. cbv zeta. apply grows_bind; [|intros [answered|]; grow].
  destruct (ur_owner r) as [owner|]; [|grow]. destruct (extractBlobObjectId blob); [|grow]. case_match; grow.
Qed.
Lemma grows_upload_blob body r signer : grows (upload_blob sv cfg body r signer).
Proof.
  apply grows_bind; [apply grows_emit|]. intros _. apply grows_bind; [apply grows_balance|]. intros _.
  apply grows_bind; [apply grows_register|]. intros d. apply grows_bind; [apply grows_store|]. intros blob.
  apply grows_hand_over.
Qed.

(** Every run ends in an answer. *)
Lemma run_upload_answers body r tr : triple (longer tr)
  (s_catch (run_upload sv cfg traceId body r) (upload_error sv traceId body None)) (λ _, longer tr) (λ _ _, False).
Proof.
  pose proof (longer_robust tr) as HI. eapply (triple_catch _ (λ f s, longer tr s ∧ ∃ x, f = Enoki.Thrown x)).
  - eapply triple_bind.
    { eapply triple_conseq; [apply (grows_phase "decode_signer" tr)|done|done|]. intros f s (Hl & x & Hx & _). eauto. }
    intros u. eapply triple_bind.
    { eapply triple_conseq; [apply (grows_of_sum (jc_address cfg (ur_key r)) tr)|done|done|].
      intros f s (Hl & x & Hx & _). eauto. }
    intros signer. apply (triple_conseq _ (longer tr) _ _ (λ _, longer tr) _ (λ _ _, False)); [|done|done|done].
    eapply triple_catch; [apply grows_upload_blob|].
    intros f s (Hl & x & -> & _). by apply (calmly_error (longer tr) HI body (Some signer) x).
  - intros f s (Hl & x & ->). by apply (calmly_error (longer tr) HI).
Qed.

(** A submission is made only with the upload slots of its wallet held.
    The handler always answers; either the request submitted nothing, or it
    acquired the slots of a wallet first, every submission comes after that,
    and the slots are released at the very end. *)
Theorem upload_holds_slots body s : ∃ s' resp new, handler body s = (s', inr resp) ∧ s_trace s' = s_trace s ++ new ∧
  (Forall (λ e, submits e = false) new ∨
   ∃ slot mid, new = SAcquireSlots slot :: mid ++ [SReleaseSlots]).
Proof.
  set (t0 := s_trace s).
  set (Q := λ (resp : response) s', ∃ new, s_trace s' = t0 ++ new ∧
    (unsubmitted new ∨ ∃ slot mid, new = SAcquireSlots slot :: mid ++ [SReleaseSlots])).
  set (held := λ s1, ∃ slot, longer (t0 ++ [SAcquireSlots slot]) s1).
  destruct (guarded_outcome (λ s1, s_trace s1 = t0) Q (λ _, held) (λ _, held)
    (admit_upload sv cfg policy env body) (run_upload sv cfg traceId body) (upload_error sv traceId body None) s)
    as (s' & resp & E & (new & Etr & Hq)); [..|done|by exists s', resp, new].
  - intros s1 Hs1. unfold admit_upload, mbind, st_bind, modify.
    assert (Hdone : ∀ e s2, untouched t0 s2 → ∃ x, Enoki.Thrown e = Enoki.Thrown x ∧
      match upload_error sv traceId body None x s2 with (s3, inr resp) => Q resp s3 | _ => False end).
    { intros e s2 Hs2. exists e. split; [done|].
      pose proof (calmly_error (untouched t0) (robust_anyhow _ _ (untouched_robust sv t0)) body None e s2 Hs2) as Hc.
      destruct (upload_error _ _ _ _ _ s2) as [s3 [|resp]]; [done|]. destruct Hc as (n & E & Hn). exists n. auto. }
    assert (Hz : untouched t0 s1) by (exists []; split; [by rewrite app_nil_r|constructor]).
    destruct (validate_upload cfg policy env body) as [e|[answered|r]]; simpl.
    + by apply Hdone.
    + exists []. split; [by rewrite app_nil_r|left; constructor].
    + unfold call. simpl. rewrite Hs1. destruct (sv_answer sv _) as [e|v].
      * apply Hdone. exists [SAcquireSlots (ur_slot r)]. simpl. rewrite Hs1. split; [done|]. by repeat constructor.
      * exists (ur_slot r). unfold longer. simpl. by rewrite Hs1.
  - intros r s1 (slot & Hs1). pose proof (run_upload_answers body r _ s1 Hs1) as Hr.
    destruct (s_catch _ _ s1) as [s2 [|resp]]; [done|]. by exists slot.
  - intros resp s1 (slot & mid & E). exists ([SAcquireSlots slot] ++ mid ++ [SReleaseSlots]). simpl.
    rewrite E, <-!app_assoc. split; [done|]. right. by exists slot, mid.
Qed.

(** ** What a 200 rests on *)
Lemma balance_run a s s' v : sui_balance sv a s = (s', inr v) → s_trace s `prefix_of` s_trace s'.
Proof. intros Hr. eapply grows_run; [apply grows_balance|exact Hr]. Qed.

Lemma register_run_upload body r signer s s' digest :
  register_blob sv cfg body r signer s = (s', inr digest) →
  ∃ v1 v2 v3 v4, in_order sv s s' [(SFlow (ur_data r) JUndefined, v1); (SEncode, v2);
    (SRegister (upload_attributes body r) (ur_epochs r), v3); (SWait (js_digest digest), v4)].
Proof.
  intros Hr. unfold register_blob in Hr. cbv zeta in Hr.
  apply bind_inr in Hr as (s1 & u1 & Hm & Hr). apply modify_run in Hm as ->.
  apply bind_inr in Hr as (s2 & v1 & Rn1 & Hr). apply bind_inr in Hr as (s3 & v2 & Rn2 & Hr).
  apply bind_inr in Hr as (s4 & u2 & Hm & Hr). apply modify_run in Hm as ->.
  apply bind_inr in Hr as (s5 & v3 & Rn3 & Hr). apply bind_inr in Hr as (s6 & tip & Rn4 & Hr).
  apply bind_inr in Hr as (s7 & u3 & Hm & Hr). apply modify_run in Hm as ->.
  apply bind_inr in Hr as (s8 & u4 & Hm & Hr). apply modify_run in Hm as ->.
  apply bind_inr in Hr as (s9 & d & Hw & Hr). apply bind_inr in Hr as (s10 & u5 & Hm & Hr). apply modify_run in Hm as ->.
  apply bind_inr in Hr as (s11 & v4 & Rn5 & Hr). injection Hr as <- <-.
  apply call_reported in Rn1, Rn2, Rn3, Rn5. eapply grows_run in Rn4; [|apply grows_call].
  eapply grows_run in Hw; [|apply grows_submit].
  exists v1, v2, v3, v4. exists s2. split; [exact Rn1|]. exists s3. split; [exact Rn2|]. exists s5. split; [exact Rn3|].
  exists s11. split; [|by simpl]. eapply reported_mono; [|exact Rn5|done].
  etrans; [exact Rn4|]. etrans; [|exact Hw]. simpl. by apply prefix_app_r.
Qed.

Lemma store_run signer registerDigest s s' blob :
  store_blob sv cfg signer registerDigest s = (s', inr blob) →
  ∃ v1 v2 certifyDigest, in_order sv s s' [(SUpload (js_digest registerDigest) None, v1);
    (SWait (js_digest certifyDigest), v2); (SGetBlob, blob)].
Proof.
  intros Hr. unfold store_blob in Hr.
  apply bind_inr in Hr as (s1 & u1 & Hm & Hr). apply modify_run in Hm as ->.
  apply bind_inr in Hr as (s2 & v1 & Rn1 & Hr). apply bind_inr in Hr as (s3 & u2 & Hm & Hr). apply modify_run in Hm as ->.
  apply bind_inr in Hr as (s4 & u3 & Hm & Hr). apply modify_run in Hm as ->.
  apply bind_inr in Hr as (s5 & d & Hw & Hr). apply bind_inr in Hr as (s6 & u4 & Hm & Hr). apply modify_run in Hm as ->.
  apply bind_inr in Hr as (s7 & v2 & Rn2 & Hr). apply bind_inr in Hr as (s8 & u5 & Hm & Hr). apply modify_run in Hm as ->.
  apply upload_reported in Rn1. apply call_reported in Rn2, Hr. eapply grows_run in Hw; [|apply grows_rebuildable].
  exists v1, v2, d. exists s2. split; [exact Rn1|]. exists s7. split.
  - eapply reported_mono; [|exact Rn2|done]. etrans; [|exact Hw]. simpl. by apply prefix_app_r.
  - exists s'. split; [exact Hr|by simpl].
Qed.

(** The hand-over of a stored blob. *)
Definition handed_over (body : json) (r : upload_request) (signer : string) (blob : json) (s s' : sstate) : Prop :=
  ∀ owner objectId, truthy (jget "deferTransfer" body) = false → ur_owner r = Some owner → owner ≠ signer →
    extractBlobObjectId blob = Some objectId → objectId ≠ empty_str →
    happened s s' (STransfer (buildMetadataTransferTx
      [TransferBlob objectId (default empty_str (text_field (jget "namespace" body))) (ur_fence r)] owner
      (text_field (jget "packageId" body)) (text_field (jget "agentId" body)))) ∧
    ∃ digest result tx label, reported sv s s' (SWait (js_digest digest)) result ∧
      Enoki.assertFinalizedTransactionSuccess result label = inr tx.

Lemma hand_over_run body r signer blob s s' resp : r_status resp = 200 →
  hand_over sv cfg body r signer blob s = (s', inr resp) →
  s_trace s `prefix_of` s_trace s' ∧ handed_over body r signer blob s s' ∧
  resp = uploaded blob (extractBlobObjectId blob) (truthy (jget "deferTransfer" body)).
Proof.
  intros Hst Hr. split; [eapply grows_run; [apply grows_hand_over|exact Hr]|].
  unfold hand_over in Hr. cbv zeta in Hr. apply bind_inr in Hr as (s1 & failed & Hf & Hr).
  assert (Hend : failed = None ∧ s_trace s' = s_trace s1 ∧
    resp = uploaded blob (extractBlobObjectId blob) (truthy (jget "deferTransfer" body))).
  { destruct failed as [answered|].
    - injection Hr as <- <-. exfalso. assert (Ha : r_status answered = 500); [|congruence].
      destruct (ur_owner r) as [o|]; [|done]. destruct (extractBlobObjectId blob) as [id|]; [|done].
      destruct (_ && _); [|done]. apply catch_run in Hf as [Hf|(s2 & e & _ & Hf)]; [|by injection Hf as _ <-].
      do 2 (apply bind_inr in Hf as (? & ? & _ & Hf)). done.
    - apply bind_inr in Hr as (s2 & u & Hm & Hr). apply modify_run in Hm as ->. by injection Hr as <- <-. }
  destruct Hend as (-> & Etr & ->). split; [|done]. intros owner objectId Hdefer Hown Hne Hid Hid2.
  rewrite Hown, Hid, Hdefer in Hf. assert (Hb : seqb owner signer = false) by (by apply seqb_neq).
  assert (Hb2 : is_empty objectId = false) by (by destruct objectId). rewrite Hb, Hb2 in Hf. cbn [negb andb] in Hf.
  apply catch_run in Hf as [Hf|(s2 & e & _ & Hf)]; [|done].
  apply bind_inr in Hf as (s2 & u & Hm & Hf). apply modify_run in Hm as ->.
  apply bind_inr in Hf as (s3 & digest & Ht & Hf). injection Hf as <-.
  apply transfer_run in Ht as (_ & Hh & result & tx & label & Hw & Htx).
  assert (Hp : s_trace s3 `prefix_of` s_trace s') by (by rewrite Etr).
  split; [by eapply (happened_mono s (s_set_phase "metadata_transfer" s))|].
  exists digest, result, tx, label. split; [|exact Htx]. by eapply (reported_mono sv s (s_set_phase "metadata_transfer" s)).
Qed.

Lemma early_status body answered : validate_upload cfg policy env body = inr (inl answered) → r_status answered ≠ 200.
Proof. unfold validate_upload. cbv zeta. intros Hv. repeat case_match; simplify_eq; done. Qed.

(** An uploaded blob went through every phase, in order.  A 200 of the
    upload route means: the slots of a configured wallet were acquired; the
    data was encoded and registered with the request's attributes and the clamped
    epoch count, the register transaction was awaited, the blob
    was uploaded under the register digest, the certification was awaited, and
    the blob read back is the one answered; and when the request names an
    owner other than the wallet and does not defer the transfer, the blob
    object read back was stamped and transferred to that owner in a
    transaction that was awaited and finalized successfully. *)
Theorem uploads_are_complete body s s' resp : handler body s = (s', inr resp) → r_status resp = 200 →
  ∃ r signer blob s1 v0 v1 v2 v3 v4 v5 v6 registerDigest certifyDigest,
    validate_upload cfg policy env body = inr (inr r) ∧ jc_address cfg (ur_key r) = inr signer ∧
    in_order sv s s1 [(SAcquireSlots (ur_slot r), v0);
      (SFlow (ur_data r) JUndefined, v1); (SEncode, v2);
      (SRegister (upload_attributes body r) (ur_epochs r), v3); (SWait (js_digest registerDigest), v4);
      (SUpload (js_digest registerDigest) None, v5); (SWait (js_digest certifyDigest), v6); (SGetBlob, blob)] ∧
    handed_over body r signer blob s1 s' ∧
    resp = uploaded blob (extractBlobObjectId blob) (truthy (jget "deferTransfer" body)).
Proof.
  intros Hr Hst. unfold upload_handler in Hr. apply bind_inr in Hr as (s2 & o & Ha & Hr).
  apply catch_run in Ha as [Ha|(s3 & e & _ & Hh)].
  2:{ apply bind_inr in Hh as (s4 & ans & Ho & Hh). injection Hh as <- <-. injection Hr as <- <-.
      by apply error_status in Ho. }
  apply bind_inr in Ha as (s3 & u & Hm & Ha). apply modify_run in Hm as ->.
  apply bind_inr in Ha as (s4 & o' & Hv & Ha). apply of_sum_run in Hv as [Hv ->].
  destruct o' as [answered|r].
  { injection Ha as <- <-. injection Hr as <- <-. by apply early_status in Hv. }
  apply bind_inr in Ha as (s5 & u2 & Hm & Ha). apply modify_run in Hm as ->.
  apply bind_inr in Ha as (s6 & v0 & Hacq & Ha). injection Ha as <- <-. apply call_reported in Hacq.
  unfold with_slots, finally in Hr. destruct (s_catch _ _ s6) as [s7 [|resp']] eqn:Hc; [done|]. injection Hr as <- <-.
  apply catch_run in Hc as [Hc|(s8 & e & _ & Hh)]; [|by apply error_status in Hh].
  apply bind_inr in Hc as (s8 & u3 & Hm & Hc). apply modify_run in Hm as ->.
  apply bind_inr in Hc as (s9 & signer & Hk & Hc). apply of_sum_run in Hk as [Hk ->].
  apply catch_run in Hc as [Hc|(s9 & e & _ & Hh)]; [|by apply error_status in Hh].
  apply bind_inr in Hc as (s9 & u4 & Hm & Hc). apply modify_run in Hm as ->.
  apply bind_inr in Hc as (s10 & u5 & Hb & Hc). apply balance_run in Hb.
  apply bind_inr in Hc as (s11 & registerDigest & Hreg & Hc). apply bind_inr in Hc as (s12 & blob & Hst2 & Hc).
  apply register_run_upload in Hreg as (v1 & v2 & v3 & v4 & Hreg).
  apply store_run in Hst2 as (v5 & v6 & certifyDigest & Hstore).
  apply hand_over_run in Hc as (Hg & Hh & ->); [|done].
  exists r, signer, blob, s12, v0, v1, v2, v3, v4, v5, v6, registerDigest, certifyDigest.
  split_and!; [done|done| | |done].
  - exists s6. split; [eapply reported_mono; [|exact Hacq|done]; done|].
    apply (in_order_mono sv _ s6 s10 s12 s12); [|exact (in_order_app _ _ _ _ _ _ Hreg Hstore)|done].
    etrans; [|exact Hb]. simpl. by apply prefix_app_r.
  - intros owner objectId Ha1 Ha2 Ha3 Ha4 Ha5. destruct (Hh owner objectId Ha1 Ha2 Ha3 Ha4 Ha5) as (Hx & d & result & tx & label & Hw & Htx).
    assert (Hrel : s_trace s7 `prefix_of` s_trace (s_emit SReleaseSlots s7)) by (simpl; by apply prefix_app_r).
    split; [by eapply (happened_mono s12 s12)|]. exists d, result, tx, label. split; [|done].
    by eapply (reported_mono sv s12 s12).
Qed.
End UploadSafety.
