(* ===== verification/Ledger.v ===== *)
(** * Ledgers: what justifies each call of a request

    A rule [ok] says of every external call which earlier answers of the same
    request must justify it.  [lawful] is a triple whose assertions are
    facts about the trace: facts that survive its growth ([Mono]) are kept by
    every call, and a call adds its own answer to them.

    The machine is a parameter: a state with a trace of events, and errors
    that the outside can throw.  The last section is the sidecar's. *)
From Stdlib Require Import QArith.
From S2P Require Import Prelude JsText JsNumber JsonParse Retry Service.
From S2P Require Enoki.
Local Open Scope Z_scope.

(** Facts about the trace that later events do not undo. *)
Class Mono {Ev : Type} (F : list Ev → Prop) : Prop := mono tr ev : F tr → F (tr ++ [ev]).

#[export] Instance mono_const {Ev} (P : Prop) : Mono (λ _ : list Ev, P).
Proof. by intros tr ev. Qed.
#[export] Instance mono_and {Ev} (F G : list Ev → Prop) : Mono F → Mono G → Mono (λ tr, F tr ∧ G tr).
Proof. intros HF HG tr ev [Hf Hg]. split; [by apply HF|by apply HG]. Qed.
#[export] Instance mono_ex {Ev A} (F : A → list Ev → Prop) : (∀ a, Mono (F a)) → Mono (λ tr, ∃ a, F a tr).
Proof. intros HF tr ev [a Ha]. exists a. by apply HF. Qed.

(** A call: one event, and the answer of the outside. *)
Class Calls {S Ev X E V : Type} (trace_of : S → list Ev) (answer : list Ev → X + V) (thrown : X → E)
    (m : ST S E V) (ev : Ev) : Prop :=
  calls s : trace_of (fst (m s)) = trace_of s ++ [ev] ∧
            snd (m s) = match answer (trace_of s ++ [ev]) with inl e => inl (thrown e) | inr v => inr v end.

(** [ev] was answered with [v] after [t0]. *)
Definition answered {Ev X V} (answer : list Ev → X + V) (t0 : list Ev) (ev : Ev) (v : V) (tr : list Ev) : Prop :=
  ∃ pre, (t0 ++ pre ++ [ev]) `prefix_of` tr ∧ answer (t0 ++ pre ++ [ev]) = inr v.
#[export] Instance mono_answered {Ev X V} (answer : list Ev → X + V) t0 ev v : Mono (answered answer t0 ev v).
Proof. intros tr e (pre & Hp & Hv). exists pre. split; [by apply prefix_app_r|done]. Qed.

Section Ledger.
Context {S Ev X E V : Type} (trace_of : S → list Ev) (answer : list Ev → X + V) (thrown : X → E).
Context (t0 : list Ev) (ok : list Ev → Ev → Prop).

Fixpoint all_ok (tr new : list Ev) : Prop :=
  match new with
  | [] => True
  | ev :: new' => ok tr ev ∧ all_ok (tr ++ [ev]) new'
  end.
Lemma all_ok_snoc tr new ev : all_ok tr new → ok (tr ++ new) ev → all_ok tr (new ++ [ev]).
Proof.
  revert tr. induction new as [|e new IH]; intros tr Ha Hok; simpl in *.
  - rewrite app_nil_r in Hok. done.
  - destruct Ha as [H1 H2]. split; [done|]. apply IH; [done|]. by rewrite <-app_assoc.
Qed.
Lemma all_ok_at tr new pre ev post : all_ok tr new → new = pre ++ ev :: post → ok (tr ++ pre) ev.
Proof.
  intros Ha ->. revert tr Ha. induction pre as [|e pre IH]; intros tr Ha; simpl in *.
  - rewrite app_nil_r. by destruct Ha.
  - destruct Ha as [_ Ha]. specialize (IH _ Ha). by rewrite <-app_assoc in IH.
Qed.

Definition ledger (s : S) : Prop := ∃ new, trace_of s = t0 ++ new ∧ all_ok t0 new.
Lemma ledger_snoc s s' ev : ledger s → ok (trace_of s) ev → trace_of s' = trace_of s ++ [ev] → ledger s'.
Proof.
  intros (new & E1 & Hn) Hok E2. exists (new ++ [ev]). rewrite E2, E1, app_assoc. split; [done|].
  apply all_ok_snoc; [done|]. by rewrite <-E1.
Qed.

Definition lawful {A} (F : list Ev → Prop) (m : ST S E A) (G : A → list Ev → Prop) : Prop :=
  triple (λ s, ledger s ∧ F (trace_of s)) m (λ a s, ledger s ∧ G a (trace_of s))
    (λ f s, ledger s ∧ ∃ e, f = thrown e).

Lemma lawful_ret {A} (F : list Ev → Prop) (a : A) (G : A → list Ev → Prop) :
  (∀ tr, F tr → G a tr) → lawful F (mret a) G.
Proof. intros HF s [Hs Hf]. split; [done|by apply HF]. Qed.
Lemma lawful_throw {A} F e (G : A → list Ev → Prop) : lawful F (throw (thrown e)) G.
Proof. intros s [Hs _]. split; [done|by exists e]. Qed.
Lemma lawful_bind {A B} F (m : ST S E A) (k : A → ST S E B) G R :
  lawful F m G → (∀ a, lawful (G a) (k a) R) → lawful F (m ≫= k) R.
Proof. intros Hm Hk. eapply triple_bind; [exact Hm|exact Hk]. Qed.
Lemma lawful_silent {A B} F (m : ST S E A) (k : A → ST S E B) R :
  (∀ s, ∃ a, snd (m s) = inr a ∧ trace_of (fst (m s)) = trace_of s) → (∀ a, lawful F (k a) R) → lawful F (m ≫= k) R.
Proof.
  intros Hm Hk s Hs. destruct (Hm s) as (a & Ha & Ht). unfold mbind, st_bind.
  destruct (m s) as [s' [f|a']]; simpl in *; [done|]. apply Hk. unfold ledger in *. by rewrite Ht.
Qed.
Lemma lawful_try {A} (F : list Ev → Prop) (m : ST S E A) (h : E → ST S E A) G :
  lawful F m G → (∀ e, lawful (λ _, True) (h (thrown e)) G) → lawful F (try_catch m h) G.
Proof.
  intros Hm Hh. eapply triple_catch; [exact Hm|]. intros f s (Hs & e & ->). by apply Hh.
Qed.
Lemma lawful_weaken {A} (F F' : list Ev → Prop) (m : ST S E A) (G G' : A → list Ev → Prop) :
  lawful F' m G' → (∀ tr, F tr → F' tr) → (∀ a tr, G' a tr → G a tr) → lawful F m G.
Proof.
  intros Hm HF HG. eapply triple_conseq; [exact Hm| | |done].
  - intros s [Hs Hf]. auto.
  - intros a s [Hs Hg]. auto.
Qed.
(** A hypothesis without the trace. *)
Lemma lawful_know {A} (P : Prop) F (m : ST S E A) G :
  (∀ tr, F tr → P) → (P → lawful F m G) → lawful F m G.
Proof. intros HP Hm s [Hs Hf]. apply Hm; [by eapply HP|done]. Qed.

(** Exactly: the call is the last event. *)
Lemma lawful_exact (m : ST S E V) ev (HC : Calls trace_of answer thrown m ev) F : (∀ tr, F tr → ok tr ev) →
  lawful F m (λ v tr, ∃ pre, tr = pre ++ [ev] ∧ F pre ∧ answer tr = inr v).
Proof.
  intros Hok s [Hs Hf]. destruct (HC s) as [Ht Hr]. pose proof (ledger_snoc s _ ev Hs (Hok _ Hf) Ht) as Hl.
  destruct (m s) as [s' r]; simpl in *. rewrite Hr, <-Ht.
  clear Hr. destruct (answer (trace_of s')) as [e|v] eqn:Ev'; simpl; (split; [done|]); [by exists e|].
  by exists (trace_of s).
Qed.
Lemma lawful_exact_try {B} (m : ST S E V) ev (HC : Calls trace_of answer thrown m ev) F (f : V → B) (g : X → B)
    (h : E → ST S E B) : (∀ tr, F tr → ok tr ev) → (∀ e, h (thrown e) = mret (g e)) →
  lawful F (try_catch (v ← m; mret (f v)) h)
    (λ r tr, ∃ pre, tr = pre ++ [ev] ∧ F pre ∧
       ((∃ v, r = f v ∧ answer tr = inr v) ∨ ∃ e, r = g e ∧ answer tr = inl e)).
Proof.
  intros Hok Hh s [Hs Hf]. destruct (HC s) as [Ht Hr]. pose proof (ledger_snoc s _ ev Hs (Hok _ Hf) Ht) as Hl.
  unfold try_catch, mbind, st_bind. destruct (m s) as [s' r]; simpl in *. subst r. rewrite <-Ht.
  destruct (answer (trace_of s')) as [e|v] eqn:Ev'.
  - rewrite Hh. simpl. split; [done|]. exists (trace_of s). split; [done|]. split; [done|]. right. by exists e.
  - simpl. split; [done|]. exists (trace_of s). split; [done|]. split; [done|]. left. by exists v.
Qed.

Section Call.
Context (m : ST S E V) (ev : Ev) `{!Calls trace_of answer thrown m ev} (F : list Ev → Prop) `{!Mono F}.
Context (Hok : ∀ tr, F tr → ok tr ev).

Lemma lawful_call : lawful F m (λ v tr, F tr ∧ answered answer t0 ev v tr).
Proof.
  intros s [Hs Hf]. destruct (calls s) as [Ht Hr]. pose proof (ledger_snoc s _ ev Hs (Hok _ Hf) Ht) as Hl.
  destruct (m s) as [s' r]; simpl in *. rewrite Hr. destruct Hs as (new & E1 & _).
  destruct (answer _) as [e|v] eqn:Ev'; [split; [done|by exists e]|]. rewrite Ht. split; [done|]. split; [by apply mono|].
  exists new. rewrite E1, <-app_assoc in *. done.
Qed.
(** A call whose failure is caught: the facts survive. *)
Lemma lawful_tried {B} (f : V → B) (g : X → B) (h : E → ST S E B) :
  (∀ e, h (thrown e) = mret (g e)) →
  lawful F (try_catch (v ← m; mret (f v)) h)
    (λ r tr, F tr ∧ ((∃ v, r = f v ∧ answered answer t0 ev v tr) ∨ ∃ e, r = g e)).
Proof.
  intros Hh s [Hs Hf]. destruct (calls s) as [Ht Hr]. pose proof (ledger_snoc s _ ev Hs (Hok _ Hf) Ht) as Hl.
  unfold try_catch, mbind, st_bind. destruct (m s) as [s' r]; simpl in *. subst r. destruct Hs as (new & E1 & _).
  destruct (answer _) as [e|v] eqn:Ev'.
  - rewrite Hh. simpl. split; [done|]. rewrite Ht. split; [by apply mono|]. right. by exists e.
  - simpl. split; [done|]. rewrite Ht. split; [by apply mono|]. left. exists v. split; [done|].
    exists new. rewrite E1, <-app_assoc in *. done.
Qed.
End Call.

(** From the beginning of the request. *)
Lemma lawful_run {A} (m : ST S E A) (G : A → list Ev → Prop) s :
  lawful (λ _, True) m G → trace_of s = t0 →
  ∃ new, trace_of (fst (m s)) = t0 ++ new ∧ all_ok t0 new ∧
    match snd (m s) with inr a => G a (t0 ++ new) | inl f => ∃ e, f = thrown e end.
Proof.
  intros Hm Ht. assert (Hl : ledger s) by (exists []; by rewrite app_nil_r).
  specialize (Hm s (conj Hl Logic.I)).
  destruct (m s) as [s' [f|a]]; destruct Hm as [(new & E1 & Hn) Hr]; exists new; simpl; rewrite ?E1 in *; done.
Qed.
(** Each call of a run is justified by what came before it. *)
Lemma lawful_each {A} F (m : ST S E A) (G : A → list Ev → Prop) s pre ev post :
  lawful F m G → trace_of s = t0 → F t0 → trace_of (fst (m s)) = t0 ++ pre ++ ev :: post → ok (t0 ++ pre) ev.
Proof.
  intros Hm Ht Hf Htr. assert (Hl : ledger s) by (exists []; by rewrite app_nil_r).
  assert (Hl' : ledger (fst (m s))).
  { rewrite <-Ht in Hf. specialize (Hm s (conj Hl Hf)). by destruct (m s) as [s' [f|a]]; destruct Hm as [? _]. }
  destruct Hl' as (new & E1 & Ha). rewrite E1 in Htr. apply app_inv_head in Htr. by eapply all_ok_at.
Qed.
End Ledger.

(** ** Processes

    A program whose state is what it has asked so far, over an outside that
    answers from that. *)
Definition f_of_sum {Ev A} (r : js_error + A) : ST (list Ev) js_error A := match r with inl e => throw e | inr a => mret a end.
Definition f_throw {Ev A} (message : string) : ST (list Ev) js_error A := throw (plain_error message).
Definition ask {Ev V} (outside : list Ev → js_error + V) (ev : Ev) : ST (list Ev) js_error V := λ tr,
  let tr' := tr ++ [ev] in match outside tr' with inl e => (tr', inl e) | inr v => (tr', inr v) end.
#[export] Instance ask_calls {Ev V} (outside : list Ev → js_error + V) ev :
  Calls (λ tr, tr) outside (λ e, e) (ask outside ev) ev.
Proof. intros tr. unfold ask. simpl. by destruct (outside _). Qed.
Notation process_law ok := (lawful (λ tr, tr) (λ e : js_error, e) [] ok).

Section Process.
Context {Ev V : Type} (outside : list Ev → js_error + V) (ok : list Ev → Ev → Prop).
Notation law := (process_law ok).
Implicit Types F : list Ev → Prop.

Lemma law_throw {A} F e (R : A → list Ev → Prop) : law F (throw e) R.
Proof. apply (lawful_throw (λ tr : list Ev, tr) (λ e : js_error, e)). Qed.
Lemma law_sum {A B} F (r : js_error + A) (k : A → ST (list Ev) js_error B) R :
  (∀ a, r = inr a → law F (k a) R) → law F (f_of_sum r ≫= k) R.
Proof. intros Hk. destruct r as [e|a]; simpl; [apply law_throw|by apply Hk]. Qed.
Lemma law_of_sum {A} F (r : js_error + A) : law F (f_of_sum r) (λ a tr, F tr ∧ r = inr a).
Proof. destruct r; simpl; [apply law_throw|by apply lawful_ret]. Qed.
Lemma law_pre {A} F F' (m : ST (list Ev) js_error A) R : (∀ tr, F tr → F' tr) → law F' m R → law F m R.
Proof. intros HF Hm. by eapply lawful_weaken. Qed.
Lemma law_ex {A X} (F : X → list Ev → Prop) (m : ST (list Ev) js_error A) R :
  (∀ x, law (F x) m R) → law (λ tr, ∃ x, F x tr) m R.
Proof. intros Hm tr (Hl & x & Hx). by apply (Hm x). Qed.
Lemma law_answer F ev : Mono F → (∀ tr, F tr → ok tr ev) →
  law F (ask outside ev) (λ v tr, F tr ∧ answered outside [] ev v tr).
Proof. intros HF Hok. apply (lawful_call (λ tr, tr) outside (λ e, e) [] ok (ask outside ev) ev F Hok). Qed.
Lemma law_asked {B} F ev (k : V → ST (list Ev) js_error B) R : Mono F → (∀ tr, F tr → ok tr ev) →
  (∀ v, law (λ tr, F tr ∧ answered outside [] ev v tr) (k v) R) → law F (ask outside ev ≫= k) R.
Proof. intros HF Hok Hk. eapply lawful_bind; [by apply law_answer|exact Hk]. Qed.
(** A call that ends the process. *)
Lemma law_last F ev : (∀ tr, F tr → ok tr ev) → law F (_ ← ask outside ev; mret tt) (λ _ _, True).
Proof.
  intros Hok. eapply lawful_bind; [by apply (lawful_exact (λ tr, tr) outside (λ e, e) [] ok (ask outside ev) ev _ F)|].
  intros v. by apply lawful_ret.
Qed.
End Process.

(** ** The sidecar *)
#[export] Instance service_calls (sv : service) ev : Calls s_trace (sv_answer sv) Enoki.Thrown (call sv ev) ev.
Proof. intros s. unfold call. simpl. by destruct (sv_answer _ _). Qed.

Section Sidecar.
Context (t0 : list sevent) (ok : list sevent → sevent → Prop).
Notation lawful := (lawful s_trace Enoki.Thrown t0 ok).

Lemma lawful_of_sum {A} (F : list sevent → Prop) (r : js_error + A) :
  lawful F (s_of_sum r) (λ a tr, F tr ∧ r = inr a).
Proof. destruct r; [apply lawful_throw|by apply lawful_ret]. Qed.
Lemma lawful_phase {B} F p (k : unit → SM B) R : (∀ u, lawful F (k u) R) → lawful F (phase_is p ≫= k) R.
Proof. apply lawful_silent. intros s. by exists tt. Qed.
Lemma lawful_catch {A} (F : list sevent → Prop) (m : SM A) h G :
  lawful F m G → (∀ e, lawful (λ _, True) (h e) G) → lawful F (s_catch m h) G.
Proof. intros Hm Hh. by apply lawful_try. Qed.
Lemma lawful_asked sv F ev : Mono F → (∀ tr, F tr → ok tr ev) →
  lawful F (call sv ev) (λ v tr, F tr ∧ answered (sv_answer sv) t0 ev v tr).
Proof. intros HF Hok. apply (lawful_call s_trace (sv_answer sv) Enoki.Thrown t0 ok (call sv ev) ev F Hok). Qed.
Lemma lawful_caught sv F ev {B} (f : json → B) (g : js_error → B) : Mono F → (∀ tr, F tr → ok tr ev) →
  lawful F (s_catch (v ← call sv ev; mret (f v)) (λ e, mret (g e)))
    (λ r tr, F tr ∧ ((∃ v, r = f v ∧ answered (sv_answer sv) t0 ev v tr) ∨ ∃ e, r = g e)).
Proof. intros HF Hok. unfold s_catch. apply (lawful_tried s_trace (sv_answer sv) Enoki.Thrown t0 ok (call sv ev) ev F Hok f g). done. Qed.

(** A handler that answers every error lets none pass. *)
Lemma catch_total {A} (m : SM A) h s f :
  (∀ e s, ∃ s' a, h e s = (s', inr a)) → snd (s_catch m h s) = inl f → f = Enoki.OutOfFuel.
Proof.
  intros Hh. unfold s_catch, try_catch. destruct (m s) as [s1 [[e|]|a]]; simpl; [|congruence..].
  destruct (Hh e s1) as (s' & a & ->). done.
Qed.
End Sidecar.
