(* ===== verification/Account.v ===== *)
(** * Account management of the SDK (packages/sdk/src/account.ts)

    Creating an account, adding and removing delegate keys and generating a
    key.  The wallet or the Sui client execute a transaction and the chain is
    asked for its outcome; all of them answer as functions of the calls made
    so far. *)
From Stdlib Require Import Ascii QArith.
From S2P Require Import Prelude JsText JsNumber JsonParse Hex SealId Retry Ledger.
Import Hex.Hex.
Local Open Scope Z_scope.

Definition SUI_CLOCK : string := "0x0000000000000000000000000000000000000000000000000000000000000006".

(** ** Transactions and calls *)
Inductive call_arg : Type := ArgObject (id : string) | ArgBytes (bs : list byte) | ArgText (s : string).
Record account_call : Type := AccountCall { ac_target : string; ac_args : list call_arg }.

(** [executes]: the wallet has the method [signAndExecuteTransaction]. *)
Inductive tx_signer : Type := Wallet (address : string) (executes : bool) | KeypairSigner (address : string).
Definition signer_address (s : tx_signer) : string := match s with Wallet a _ => a | KeypairSigner a => a end.

Inductive account_event : Type :=
| AImport (module : string)
| ASuiClient (url : string)                                (** [new SuiClient] *)
| AKeypair (suiPrivateKey : string)                        (** decoding the key, and its address *)
| AWalletExecute (address : string) (tx : account_call)    (** the wallet signs and executes *)
| AClientExecute (signer : tx_signer) (tx : account_call)  (** the Sui client does, with the signer *)
| AWait (digest : string)                                  (** [waitForTransaction] *)
| ARandom.
Record account_world : Type := AccountWorld {
  aw_import : list account_event → js_error + bool;        (** is the export [SuiClient] a function? *)
  aw_construct : list account_event → js_error + unit;
  aw_keypair : list account_event → js_error + string;
  aw_execute : list account_event → js_error + json;
  aw_wait : list account_event → js_error + json;
  aw_random : list account_event → js_error + list byte;
}.
Definition AM : Type → Type := ST (list account_event) js_error.

Record AccountTxOpts : Type := TxOpts {
  ao_packageId : string;
  ao_suiPrivateKey : option string;
  ao_walletSigner : option tx_signer;
  ao_suiClient : bool;                                     (** a client is given *)
  ao_suiNetwork : option string;
}.
Record CreateAccountResult : Type := Created { cr_accountId : json; cr_owner : string; cr_digest : string }.
Record AddDelegateKeyResult : Type := Added { ad_digest : string; ad_publicKey : string; ad_suiAddress : string }.

Definition given_text (o : option string) : bool := match o with Some s => negb (is_empty s) | None => false end.

(** ** Results of the chain *)
Definition transactionData (result : json) : json :=
  coalesce (jget "Transaction" result) (coalesce (jget "FailedTransaction" result) result).
Definition digest_of (executionResult : json) : option string :=
  match jget "digest" (transactionData executionResult) with JStr d => if is_empty d then None else Some d | _ => None end.
Definition status_of (txData : json) : json := coalesce (jget "status" txData) (jget "status" (jget "effects" txData)).
Definition is_true (v : json) : bool := match v with JBool b => b | _ => false end.
Definition succeeded (status : json) : bool :=
  is_true (jget "success" status) || (is_undefined (jget "success" status) && equals_text "success" (jget "status" status)).

(** [v?.includes(s)]; [inl] when [includes] is no method of [v] *)
Definition includes_of (s : string) (v : json) : js_error + bool :=
  match v with
  | JStr t => inr (includes s t)
  | JArr l => inr (existsb (equals_text s) l)
  | JNull | JUndefined => inr false
  | _ => inl (js_type_error "includes is not a function")
  end.
(** [for (const x of v ?? [])] *)
Definition elements (v : json) : js_error + list json :=
  match v with
  | JNull | JUndefined => inr []
  | JArr l => inr l
  | JStr s => inr (map (λ c, JStr (of_chars [c])) (chars s))
  | _ => inl (js_type_error "not iterable")
  end.
(** The first element that [f] accepts. *)
Fixpoint first_accepted (f : json → js_error + option json) (l : list json) : js_error + option json :=
  match l with
  | [] => inr None
  | x :: l' => match f x with inl e => inl e | inr (Some v) => inr (Some v) | inr None => first_accepted f l' end
  end.
Definition ACCOUNT_TYPE : string := "::account::MemWalAccount".
Definition created_change (change : json) : js_error + option json :=
  match read_of "type" change with
  | inl e => inl e
  | inr t =>
      if equals_text "created" t then
        match includes_of ACCOUNT_TYPE (jget "objectType" change) with
        | inl e => inl e
        | inr b => inr (if b then Some (jget "objectId" change) else None)
        end
      else inr None
  end.
Definition created_object (objectTypes change : json) : js_error + option json :=
  match read_of "idOperation" change with
  | inl e => inl e
  | inr op =>
      if equals_text "Created" op then
        match includes_of ACCOUNT_TYPE (jget (js_string (jget "objectId" change)) objectTypes) with
        | inl e => inl e
        | inr b => inr (if b then Some (jget "objectId" change) else None)
        end
      else inr None
  end.
Definition shared_object (obj : json) : js_error + option json :=
  match read_of "owner" obj with
  | inl e => inl e
  | inr owner =>
      if is_undefined (jget "Shared" owner) then inr None
      else inr (Some (coalesce (jget "objectId" (jget "reference" obj)) (JStr empty_str)))
  end.
(** One of the three searches; [current] is what the last one left. *)
Definition search (f : json → js_error + option json) (v current : json) : js_error + json :=
  match elements v with
  | inl e => inl e
  | inr l => match first_accepted f l with inl e => inl e | inr o => inr (default current o) end
  end.
Definition or_search (found : js_error + json) (next : json → js_error + json) : js_error + json :=
  match found with inl e => inl e | inr v => if truthy v then inr v else next v end.
Definition created_account (effects : json) : js_error + json :=
  let txData := transactionData effects in
  or_search (or_search (search created_change (jget "objectChanges" txData) (JStr empty_str))
    (search (created_object (coalesce (jget "objectTypes" txData) (JObj []))) (jget "changedObjects" (jget "effects" txData))))
    (search shared_object (jget "created" (jget "effects" txData))).

Section Account.
Context (w : account_world) (fraction : Q → string).
Context (blake2b : list byte → list byte) (ed_public : list byte → list byte).
Context (opts : AccountTxOpts).

Definition a_import (name : string) : AM bool := ask (aw_import w) (AImport name).

Definition fullnode : string :=
  if seqb (default "mainnet" (ao_suiNetwork opts)) "testnet" then "https://fullnode.testnet.sui.io:443"
  else "https://fullnode.mainnet.sui.io:443".
Definition make_client : AM unit :=
  if ao_suiClient opts then mret tt
  else
    found ← a_import "@mysten/sui/client";
    if negb found then f_throw "SuiClient not found. For @mysten/sui v2.6.0+, pass suiClient in opts."
    else ask (aw_construct w) (ASuiClient fullnode).
Definition buildTxContext : AM tx_signer :=
  if negb (given_text (ao_suiPrivateKey opts)) && negb (bool_decide (is_Some (ao_walletSigner opts)))
  then f_throw "Provide either suiPrivateKey or walletSigner"
  else if given_text (ao_suiPrivateKey opts) && bool_decide (is_Some (ao_walletSigner opts))
  then f_throw "Provide suiPrivateKey OR walletSigner, not both"
  else
    _ ← a_import "@mysten/sui/transactions";
    _ ← make_client;
    match ao_walletSigner opts with
    | Some wallet => mret wallet
    | None =>
        _ ← a_import "@mysten/sui/cryptography";
        _ ← a_import "@mysten/sui/keypairs/ed25519";
        address ← ask (aw_keypair w) (AKeypair (default empty_str (ao_suiPrivateKey opts)));
        mret (KeypairSigner address)
    end.

Definition execution (signer : tx_signer) (tx : account_call) : account_event :=
  match signer with
  | Wallet address true => AWalletExecute address tx
  | _ => AClientExecute signer tx
  end.
Definition failure_detail (status : json) : string :=
  match jget "error" status with
  | JStr s => s
  | v => if truthy v then json_stringify fraction v else "missing execution status"
  end.
Definition signAndExecute (signer : tx_signer) (tx : account_call) : AM (string * json) :=
  executionResult ← ask (aw_execute w) (execution signer tx);
  match digest_of executionResult with
  | None => f_throw "Transaction submission returned no digest"
  | Some digest =>
      txResult ← ask (aw_wait w) (AWait digest);
      let status := status_of (transactionData txResult) in
      if succeeded status then mret (digest, txResult)
      else f_throw ("Transaction " +:+ digest +:+ " failed: " +:+ failure_detail status)
  end.

(** ** createAccount *)
Definition create_account_call (registryId : string) : account_call :=
  AccountCall (ao_packageId opts +:+ "::account::create_account") [ArgObject registryId; ArgObject SUI_CLOCK].
Definition createAccount (registryId : string) : AM CreateAccountResult :=
  signer ← buildTxContext;
  '(digest, effects) ← signAndExecute signer (create_account_call registryId);
  accountId ← f_of_sum (created_account effects);
  mret (Created accountId (signer_address signer) digest).

(** ** Delegate keys *)
Definition public_key_bytes (publicKey : string + list byte) : js_error + list byte :=
  match publicKey with
  | inr bytes => inr bytes
  | inl text => match hexToBytes text with inr bytes => inr bytes | inl e => inl (plain_error (hex_message e)) end
  end.
Definition checked_key (publicKey : string + list byte) : js_error + list byte :=
  match public_key_bytes publicKey with
  | inl e => inl e
  | inr pkBytes =>
      if negb (length pkBytes =? 32)%nat
      then inl (plain_error ("Invalid Ed25519 public key length: " +:+ pretty (length pkBytes) +:+ " (expected 32)"))
      else inr pkBytes
  end.
(** The address of an Ed25519 key: the flag byte and the key, hashed. *)
Definition sui_address (pkBytes : list byte) : string := "0x" +:+ bytesToHex (blake2b (ascii_of_N 0 :: pkBytes)).

Definition add_delegate_call (accountId registryId label : string) (pkBytes : list byte) : account_call :=
  AccountCall (ao_packageId opts +:+ "::account::add_delegate_key")
    [ArgObject accountId; ArgObject registryId; ArgBytes pkBytes; ArgText label; ArgObject SUI_CLOCK].
Definition addDelegateKey (accountId registryId : string) (publicKey : string + list byte) (label : string)
    : AM AddDelegateKeyResult :=
  signer ← buildTxContext;
  pkBytes ← f_of_sum (checked_key publicKey);
  _ ← a_import "@noble/hashes/blake2.js";
  '(digest, _) ← signAndExecute signer (add_delegate_call accountId registryId label pkBytes);
  mret (Added digest (bytesToHex pkBytes) (sui_address pkBytes)).

Definition remove_delegate_call (accountId registryId : string) (pkBytes : list byte) : account_call :=
  AccountCall (ao_packageId opts +:+ "::account::remove_delegate_key")
    [ArgObject accountId; ArgObject registryId; ArgBytes pkBytes].
Definition removeDelegateKey (accountId registryId : string) (publicKey : string + list byte) : AM string :=
  signer ← buildTxContext;
  pkBytes ← f_of_sum (checked_key publicKey);
  '(digest, _) ← signAndExecute signer (remove_delegate_call accountId registryId pkBytes);
  mret digest.

Record delegate_key_pair : Type := DelegateKey { dk_privateKey : string; dk_publicKey : list byte; dk_suiAddress : string }.
Definition generateDelegateKey : AM delegate_key_pair :=
  _ ← a_import "@noble/ed25519";
  _ ← a_import "@noble/hashes/blake2.js";
  privateKeyBytes ← ask (aw_random w) ARandom;
  mret (DelegateKey (bytesToHex privateKeyBytes) (ed_public privateKeyBytes) (sui_address (ed_public privateKeyBytes))).
End Account.

(** ** What is reported has happened *)
Definition is_execution (ev : account_event) : bool :=
  match ev with AWalletExecute _ _ | AClientExecute _ _ => true | _ => false end.
Definition executions (tr : list account_event) : nat := length (filter (λ ev, is_execution ev = true) tr).

Section Safety.
Context (w : account_world) (fraction : Q → string).
Context (blake2b : list byte → list byte) (ed_public : list byte → list byte) (opts : AccountTxOpts).

(** The signer the options name. *)
Definition named_signer (signer : tx_signer) (tr : list account_event) : Prop :=
  ao_walletSigner opts = Some signer ∨
  ∃ key address, ao_walletSigner opts = None ∧ ao_suiPrivateKey opts = Some key ∧ key ≠ empty_str ∧
    signer = KeypairSigner address ∧ answered (aw_keypair w) [] (AKeypair key) address tr.
#[local] Instance mono_named signer : Mono (named_signer signer).
Proof.
  intros tr ev [Hw|(key & a & H1 & H2 & H3 & H4 & H5)]; [by left|]. right. exists key, a. split_and!; try done.
  by apply mono_answered.
Qed.
(** The transaction was executed, under this digest, and the chain reported
    its success. *)
Definition settled (signer : tx_signer) (tx : account_call) (digest : string) (outcome : json) (tr : list account_event) : Prop :=
  named_signer signer tr ∧
  (∃ v, answered (aw_execute w) [] (execution signer tx) v tr ∧ digest_of v = Some digest) ∧
  answered (aw_wait w) [] (AWait digest) outcome tr ∧ succeeded (status_of (transactionData outcome)) = true.

Definition account_ok (tx : account_call) (tr : list account_event) (ev : account_event) : Prop :=
  match ev with
  | AWalletExecute _ _ | AClientExecute _ _ => ∃ signer, named_signer signer tr ∧ ev = execution signer tx
  | AWait digest => ∃ signer v, answered (aw_execute w) [] (execution signer tx) v tr ∧ digest_of v = Some digest
  | ARandom => False
  | _ => True
  end.
Notation law tx := (process_law (account_ok tx)).

Lemma law_client tx : law tx (λ _, True) (make_client w opts) (λ _ _, True).
Proof.
  unfold make_client. destruct (ao_suiClient opts); [by apply lawful_ret|]. apply law_asked; [apply _|done|].
  intros []; [|apply law_throw]. simpl. by eapply lawful_weaken; [apply law_answer with (F := λ _, True); [apply _|]| |].
Qed.
Lemma law_context tx : law tx (λ _, True) (buildTxContext w opts) named_signer.
Proof.
  unfold buildTxContext.
  destruct (given_text (ao_suiPrivateKey opts)) eqn:Eg, (ao_walletSigner opts) as [wallet|] eqn:Ew; cbn -[f_throw]; try apply law_throw.
  - apply law_asked; [apply _|done|intros ?]. apply law_pre with (F' := λ _, True); [done|].
    eapply lawful_bind; [apply law_client|intros ?].
    do 2 (apply law_asked; [apply _|done|intros ?]). apply law_asked; [apply _|done|]. intros address.
    apply lawful_ret. intros tr [_ Ha]. right. unfold given_text in Eg.
    destruct (ao_suiPrivateKey opts) as [key|]; [|done]. apply negb_true_iff, seqb_neq in Eg. by exists key, address.
  - apply law_asked; [apply _|done|intros ?]. apply law_pre with (F' := λ _, True); [done|].
    eapply lawful_bind; [apply law_client|intros ?]. apply lawful_ret. intros tr _. by left.
Qed.

Lemma law_execute signer tx : law tx (named_signer signer) (signAndExecute w fraction signer tx)
  (λ '(digest, outcome), settled signer tx digest outcome).
Proof.
  unfold signAndExecute. apply law_asked; [apply _| |].
  { intros tr Hs. destruct signer as [a []|a]; cbn; by eexists. }
  intros v. destruct (digest_of v) as [digest|] eqn:Ed; [|apply law_throw].
  apply law_asked; [apply _| |].
  { intros tr [_ Hv]. by exists signer, v. }
  intros r. destruct (succeeded _) eqn:Es; [|apply law_throw].
  apply lawful_ret. intros tr [[Hs Hv] Hr]. split; [done|]. split; [by exists v|done].
Qed.

(** ** At most one execution *)
Definition executed (n : nat) (tr : list account_event) : Prop := executions tr = n.
Definition at_most (n : nat) (tr : list account_event) : Prop := (executions tr <= n)%nat.
Lemma executions_snoc tr ev : executions (tr ++ [ev]) = (executions tr + if is_execution ev then 1 else 0)%nat.
Proof. unfold executions. rewrite filter_app, length_app. by destruct ev. Qed.
Lemma inv_quiet {V} n (answer : list account_event → js_error + V) ev : is_execution ev = false → invariant (executed n) (ask answer ev).
Proof.
  intros He tr <-. unfold ask. assert (executed (executions tr) (tr ++ [ev])) by (unfold executed; rewrite executions_snoc, He; lia).
  by destruct (answer _).
Qed.
Ltac quiet := repeat first
  [ by apply inv_quiet | apply invariant_ret | apply invariant_throw | apply invariant_bind; [|intros ?] | case_match ].
Lemma inv_context n : invariant (executed n) (buildTxContext w opts).
Proof. unfold buildTxContext, make_client, a_import, f_throw. quiet. Qed.
Lemma reaches_execute signer tx : reaches (executed 0) (at_most 1) (signAndExecute w fraction signer tx).
Proof.
  unfold signAndExecute. eapply triple_bind with (M := λ _, executed 1).
  { intros tr Ht. unfold ask. assert (H1 : executions (tr ++ [execution signer tx]) = 1%nat).
    { rewrite executions_snoc, Ht. by destruct signer as [? []|?]. }
    destruct (aw_execute w _); [unfold at_most; lia|done]. }
  intros v. apply reaches_invariant; [unfold executed, at_most; lia|]. unfold f_throw. quiet.
Qed.
Lemma executed_most : ∀ tr, executed 0 tr → at_most 1 tr.
Proof. unfold executed, at_most. lia. Qed.
Lemma reaches_after {A B} (I Q : list account_event → Prop) (m : AM A) (k : A → AM B) :
  reaches I Q m → (∀ a, invariant Q (k a)) → reaches I Q (m ≫= k).
Proof. intros Hm Hk. eapply triple_bind; [exact Hm|exact Hk]. Qed.
Lemma inv_pure {A} (I : list account_event → Prop) (r : js_error + A) : invariant I (f_of_sum r).
Proof. destruct r; [apply invariant_throw|apply invariant_ret]. Qed.

(** ** Theorems *)
(** From the start of an operation. *)
Definition reports {A} (tx : account_call) (m : AM A) (P : A → list account_event → Prop) : Prop :=
  all_ok (account_ok tx) [] (m []).1 ∧ (executions (m []).1 <= 1)%nat ∧
  match m [] with (tr, inr a) => P a tr | _ => True end.
Lemma reports_lawful {A} tx (m : AM A) P : law tx (λ _, True) m P → reaches (executed 0) (at_most 1) m → reports tx m P.
Proof.
  intros Hm Hr. destruct (lawful_run _ _ [] _ m P [] Hm eq_refl) as (new & E & Ha & Hp). simpl in E, Ha, Hp.
  specialize (Hr [] eq_refl). unfold reports. destruct (m []) as [tr [e|a]]; simpl in *; subst; done.
Qed.

(** An account is reported only with the digest of the [create_account] call
    the named signer executed, once, and that the chain confirmed; its id is what
    the outcome names. *)
Theorem account_creation_settled (registryId : string) :
  reports (create_account_call opts registryId) (createAccount w fraction opts registryId) (λ res tr,
    ∃ signer outcome, settled signer (create_account_call opts registryId) (cr_digest res) outcome tr ∧
      cr_owner res = signer_address signer ∧ created_account outcome = inr (cr_accountId res)).
Proof.
  apply reports_lawful; unfold createAccount.
  - eapply lawful_bind; [apply law_context|]. intros signer. eapply lawful_bind; [apply law_execute|].
    intros [digest outcome]. apply law_sum. intros accountId Hid. apply lawful_ret. intros tr Hs.
    by exists signer, outcome.
  - apply reaches_bind; [apply executed_most|apply inv_context|]. intros signer.
    apply reaches_after; [apply reaches_execute|]. intros [digest outcome].
    apply invariant_bind; [apply inv_pure|intros a; apply invariant_ret].
Qed.

(** A delegate key is reported as added only for a key of 32 bytes whose
    [add_delegate_key] call was executed once and confirmed. *)
Theorem delegate_addition_settled (accountId registryId label : string) (publicKey : string + list byte) (pkBytes : list byte) :
  public_key_bytes publicKey = inr pkBytes →
  reports (add_delegate_call opts accountId registryId label pkBytes)
    (addDelegateKey w fraction blake2b opts accountId registryId publicKey label) (λ res tr,
      length pkBytes = 32%nat ∧
      (∃ signer outcome, settled signer (add_delegate_call opts accountId registryId label pkBytes) (ad_digest res) outcome tr) ∧
      ad_publicKey res = bytesToHex pkBytes ∧ ad_suiAddress res = sui_address blake2b pkBytes).
Proof.
  intros Hpk. apply reports_lawful; unfold addDelegateKey.
  - eapply lawful_bind; [apply law_context|]. intros signer. apply law_sum. intros pk Hc.
    unfold checked_key in Hc. rewrite Hpk in Hc. destruct (length pkBytes =? 32)%nat eqn:El; [|done]. injection Hc as <-.
    apply Nat.eqb_eq in El. apply law_asked; [apply _|done|intros ?].
    eapply lawful_bind; [eapply law_pre; [|apply law_execute]; by intros tr [? _]|].
    intros [digest outcome]. apply lawful_ret. intros tr Hs. split; [done|]. split; [by exists signer, outcome|done].
  - apply reaches_bind; [apply executed_most|apply inv_context|]. intros signer.
    apply reaches_bind; [apply executed_most|apply inv_pure|intros pk].
    apply reaches_bind; [apply executed_most|by apply inv_quiet|intros b].
    apply reaches_after; [apply reaches_execute|]. intros [digest outcome]. apply invariant_ret.
Qed.

Theorem delegate_removal_settled (accountId registryId : string) (publicKey : string + list byte) (pkBytes : list byte) :
  public_key_bytes publicKey = inr pkBytes →
  reports (remove_delegate_call opts accountId registryId pkBytes)
    (removeDelegateKey w fraction opts accountId registryId publicKey) (λ digest tr,
      length pkBytes = 32%nat ∧
      ∃ signer outcome, settled signer (remove_delegate_call opts accountId registryId pkBytes) digest outcome tr).
Proof.
  intros Hpk. apply reports_lawful; unfold removeDelegateKey.
  - eapply lawful_bind; [apply law_context|]. intros signer. apply law_sum. intros pk Hc.
    unfold checked_key in Hc. rewrite Hpk in Hc. destruct (length pkBytes =? 32)%nat eqn:El; [|done]. injection Hc as <-.
    apply Nat.eqb_eq in El. eapply lawful_bind; [apply law_execute|].
    intros [digest outcome]. apply lawful_ret. intros tr Hs. split; [done|]. by exists signer, outcome.
  - apply reaches_bind; [apply executed_most|apply inv_context|]. intros signer.
    apply reaches_bind; [apply executed_most|apply inv_pure|intros pk].
    apply reaches_after; [apply reaches_execute|]. intros [digest outcome]. apply invariant_ret.
Qed.
End Safety.

(** ** Examples *)
Definition ex_tx_opts : AccountTxOpts := TxOpts "0x1" None (Some (Wallet "0x4" true)) true None.
Definition ex_account_world (outcome : json) : account_world :=
  AccountWorld (λ _, inr true) (λ _, inr tt) (λ _, inr "0x5") (λ _, inr (JObj [("digest", JStr "D")])) (λ _, inr outcome)
    (λ _, inr []).
Definition ex_outcome (fields : list (string * json)) : json :=
  JObj [("Transaction", JObj (("status", JObj [("success", JBool true)]) :: fields))].
Definition ex_create (fields : list (string * json)) : js_error + CreateAccountResult :=
  (createAccount (ex_account_world (ex_outcome fields)) (λ _, "0.5") ex_tx_opts "0x2" []).2.

Example account_created :
  ex_create [("effects", JObj [("changedObjects", JArr [JObj [("objectId", JStr "0xa"); ("idOperation", JStr "Created")]])]);
             ("objectTypes", JObj [("0xa", JStr "0x1::account::MemWalAccount")])] =
  inr (Created (JStr "0xa") "0x4" "D").
Proof. vm_compute. reflexivity. Qed.
(** A confirmed transaction whose objects are not listed is reported without
    an account id. *)
Lemma account_id_missing : ex_create [] = inr (Created (JStr empty_str) "0x4" "D").
Proof. vm_compute. reflexivity. Qed.
(** The last search takes any shared object. *)
Lemma shared_object_taken :
  ex_create [("effects", JObj [("created", JArr [JObj [("owner", JObj [("Shared", JObj [])]);
    ("reference", JObj [("objectId", JStr "0xother")])]])])] = inr (Created (JStr "0xother") "0x4" "D").
Proof. vm_compute. reflexivity. Qed.
(** An aborted transaction is an error. *)
Example aborted_rejected :
  (removeDelegateKey (ex_account_world (JObj [("effects", JObj [("status", JObj [("status", JStr "failure"); ("error", JStr "MoveAbort")])])]))
    (λ _, "0.5") ex_tx_opts "0x3" "0x2" (inr (repeat (ascii_of_N 0) 32)) []).2 =
  inl (plain_error "Transaction D failed: MoveAbort").
Proof. vm_compute. reflexivity. Qed.
