(* ===== verification/Mock.v ===== *)
(** * The in-memory mock of the SDK (packages/sdk/src/mock.ts)

    [MemWalMock]: the list of memories, the map of their jobs and the counter
    that names both, with every operation of the class.  Text is tokenised
    as the code does it, for code units below 256; the square root of [embed]
    is an argument. *)
From Stdlib Require Import Ascii QArith Qround.
From stdpp Require Import sorting.
From S2P Require Import Prelude JsText JsNumber Retry.
From S2P Require Import SdkText SdkClient.
Local Open Scope Z_scope.

Record MockMemory : Type := MockMem {
  mm_id : string; mm_jobId : string; mm_blobId : string; mm_text : string; mm_namespace : string; mm_sequence : Z;
}.
Record mock : Type := Mock {
  owner : string; mk_namespace : string;
  memories : list MockMemory; jobs : gmap string MockMemory; sequence : Z;
}.
Definition MK : Type → Type := ST mock js_error.
Definition mock_throw {A} (message : string) : MK A := throw (plain_error message).

(** ** Tokens *)
(** [normalize("NFKC")] on one code unit below 256; a combining mark, which is
    no part of a token, is written as a space, the Greek mu as the micro sign. *)
Definition nfkc_char (c : ascii) : list ascii :=
  if is_char 170 c then ["a"%char] else if is_char 186 c then ["o"%char] else
  if is_char 185 c then ["1"%char] else if is_char 178 c then ["2"%char] else if is_char 179 c then ["3"%char] else
  if is_char 188 c then chars "1 4" else if is_char 189 c then chars "1 2" else if is_char 190 c then chars "3 4" else
  if is_char 160 c || is_char 168 c || is_char 175 c || is_char 180 c || is_char 184 c then [" "%char] else [c].
(** [/[\p{L}\p{N}]/u] *)
Definition is_letter (c : ascii) : bool :=
  in_range 65 90 c || in_range 97 122 c || is_char 181 c || in_range 192 214 c || in_range 216 246 c || in_range 248 255 c.
Definition is_token_char (c : ascii) : bool := is_letter c || is_digit c.
Definition tokenize (text : string) : gset string :=
  list_to_set (char_runs is_token_char [] (map lower_ascii (flat_map nfkc_char (chars text)))).
Definition distance (queryTokens : gset string) (text : string) : Q :=
  if (size queryTokens =? 0)%nat then 1%Q
  else (1 - inject_Z (Z.of_nat (size (queryTokens ∩ tokenize text))) / inject_Z (Z.of_nat (size queryTokens)))%Q.
Definition validateText (text field : string) : MK unit :=
  throw_if (slen (trim text) =? 0)%nat (plain_error (field +:+ " cannot be empty")).

(** ** Storing *)
Definition suffix_of (n : Z) : string := pad_zeros 6 (pretty n).
Definition job_id (n : Z) : string := "mock-job-" +:+ suffix_of n.
Definition push (memory : MockMemory) (m : mock) : mock :=
  Mock (owner m) (mk_namespace m) (memories m ++ [memory]) (<[mm_jobId memory := memory]> (jobs m)) (mm_sequence memory).
Definition store (text : string) (ns blobId : option string) : MK MockMemory :=
  _ ← validateText text "text";
  dflt ← gets mk_namespace;
  let resolvedNamespace := default dflt ns in
  _ ← throw_if (is_empty resolvedNamespace) (plain_error "namespace cannot be empty");
  last ← gets sequence;
  let n := last + 1 in
  let memory := MockMem (job_id n) (job_id n) (default ("mock-blob-" +:+ suffix_of n) blobId) text resolvedNamespace n in
  _ ← modify (push memory);
  mret memory.

Record MemWalMockSeed : Type := Seed { sd_text : string; sd_namespace : option string; sd_blobId : option string }.
Fixpoint store_seeds (seeds : list MemWalMockSeed) : MK unit :=
  match seeds with
  | [] => mret tt
  | s :: seeds' => _ ← store (sd_text s) (sd_namespace s) (sd_blobId s); store_seeds seeds'
  end.
Definition create (ns own : option string) (seeds : list MemWalMockSeed) : js_error + mock :=
  let n := default "default" ns in
  if is_empty n then inl (plain_error "namespace cannot be empty") else
  match store_seeds seeds (Mock (default "mock-owner" own) n [] ∅ 0) with
  | (m, inr _) => inr m
  | (_, inl e) => inl e
  end.
Definition destroy : MK unit := modify (λ m, Mock (owner m) (mk_namespace m) [] ∅ (sequence m)).

(** ** Jobs *)
Definition rememberAsync (text : string) (ns : option string) : MK string := memory ← store text ns None; mret (mm_jobId memory).
Definition getRememberStatus (jobId : string) : MK json :=
  m ← gets id;
  mret match jobs m !! jobId with
  | None => JObj [("job_id", JStr jobId); ("status", JStr "not_found")]
  | Some memory => JObj [("job_id", JStr jobId); ("status", JStr "done"); ("owner", JStr (owner m));
      ("namespace", JStr (mm_namespace memory)); ("blob_id", JStr (mm_blobId memory))]
  end.
Record RememberResult : Type := Remembered { rr_id : string; rr_job_id : string; rr_blob_id : string; rr_owner : string; rr_namespace : string }.
Definition toRememberResult (own : string) (memory : MockMemory) : RememberResult :=
  Remembered (mm_id memory) (mm_jobId memory) (mm_blobId memory) own (mm_namespace memory).
Definition waitForRememberJob (jobId : string) : MK RememberResult :=
  m ← gets id;
  match jobs m !! jobId with
  | None => mock_throw ("Remember job not found: " +:+ jobId)
  | Some memory => mret (toRememberResult (owner m) memory)
  end.
Definition rememberAndWait (text : string) (ns : option string) : MK RememberResult :=
  jobId ← rememberAsync text ns; waitForRememberJob jobId.
Fixpoint rememberBulkAsync (items : list (string * option string)) : MK (list string) :=
  match items with
  | [] => mret []
  | (text, ns) :: items' => memory ← store text ns None; ids ← rememberBulkAsync items'; mret (mm_jobId memory :: ids)
  end.
Definition bulk_status (js : gmap string MockMemory) (jobId : string) : json :=
  match js !! jobId with
  | Some memory => JObj [("job_id", JStr jobId); ("status", JStr "done"); ("blob_id", JStr (mm_blobId memory))]
  | None => JObj [("job_id", JStr jobId); ("status", JStr "not_found")]
  end.
Definition getRememberBulkStatus (jobIds : list string) : MK (list json) := m ← gets id; mret (map (bulk_status (jobs m)) jobIds).
Definition bulk_item (m : mock) (namespaces : list string) (index : nat) (jobId : string) : RememberBulkItemResult :=
  match jobs m !! jobId with
  | Some memory => BulkItem jobId (JStr (mm_blobId memory)) IDone (mm_namespace memory) JUndefined
  | None => BulkItem jobId (JStr empty_str) IFailed (default (mk_namespace m) (namespaces !! index)) (JStr "Remember job not found")
  end.
Definition waitForRememberJobs (jobIds namespaces : list string) : MK RememberBulkResult :=
  m ← gets id;
  let results := imap (bulk_item m namespaces) jobIds in
  let succeeded := length (List.filter is_done results) in
  mret (BulkResult results (length results) succeeded (length results - succeeded)).
Definition rememberBulkAndWait (items : list (string * option string)) : MK RememberBulkResult :=
  ids ← rememberBulkAsync items;
  m ← gets id;
  waitForRememberJobs ids (map (λ i : string * option string, default (mk_namespace m) i.2) items).

(** ** Recall *)
Record found : Type := Found { fd_blob_id : string; fd_text : string; fd_distance : Q }.
Definition entry : Type := Q * MockMemory.
(** The comparison of [sort]: not after. *)
Definition ranks (a b : entry) : bool :=
  if Qeq_bool a.1 b.1 then mm_sequence a.2 <=? mm_sequence b.2 else Qle_bool a.1 b.1.
Definition candidates (queryTokens : gset string) (ns : string) (max : option Q) (l : list MockMemory) : list entry :=
  List.filter (λ e, match max with None => true | Some d => negb (Qle_bool d e.1) end)
    (map (λ memory, (distance queryTokens (mm_text memory), memory))
      (List.filter (λ memory, seqb (mm_namespace memory) ns) l)).
Definition is_index (q : Q) : bool := Qeq_bool q (inject_Z (Qfloor q)) && Qle_bool 0 q.
Definition found_of (e : entry) : found := Found (mm_blobId e.2) (mm_text e.2) e.1.
Definition ranked (l : list entry) : list entry := merge_sort (λ a b, Is_true (ranks a b)) l.
Definition recall (query : string) (options : RecallOptions) : MK (list found) :=
  _ ← validateText query "query";
  m ← gets id;
  let resolvedNamespace := default (mk_namespace m) (ro_namespace options) in
  let resolvedLimit := default 10%Q (match ro_topK options with Some k => Some k | None => ro_limit options end) in
  _ ← throw_if (negb (is_index resolvedLimit)) (plain_error "limit must be a non-negative integer");
  mret (map found_of (take (Z.to_nat (Qfloor resolvedLimit))
    (ranked (candidates (tokenize query) resolvedNamespace (ro_maxDistance options) (memories m))))).

(** ** Analyze, embed and the rest *)
Record mock_fact : Type := MockFact { mf_text : string; mf_id : string; mf_job_id : string; mf_blob_id : string }.
Definition analyze (text : string) (ns : option string) : MK (list mock_fact) :=
  _ ← validateText text "text";
  memory ← store text ns None;
  mret [MockFact text (mm_id memory) (mm_jobId memory) (mm_blobId memory)].
Definition analyzeAndWait (text : string) (ns : option string) : MK (RememberBulkResult * list mock_fact) :=
  facts ← analyze text ns;
  m ← gets id;
  let ids := map mf_job_id facts in
  settled ← waitForRememberJobs ids (map (λ _, default (mk_namespace m) ns) ids);
  mret (settled, facts).

Definition to_int32 (z : Z) : Z := let m := z mod 2 ^ 32 in if m <? 2 ^ 31 then m else m - 2 ^ 32.
Definition fnv_step (hash : Z) (c : ascii) : Z := to_int32 (to_int32 (Z.lxor (to_int32 hash) (Z.of_N (code c))) * 16777619).
Definition token_hash (token : string) : Z := fold_left fnv_step (chars token) 2166136261 mod 2 ^ 32.
Definition count_token (vector : list Z) (token : string) : list Z := alter (λ n, n + 1) (Z.to_nat (token_hash token mod 16)) vector.
Definition token_counts (tokens : list string) : list Z := fold_left count_token tokens (replicate 16 0).
Definition embed (hypot : list Z → Q) (text : string) : MK (list Q) :=
  _ ← validateText text "text";
  let vector := token_counts (elements (tokenize text)) in
  let magnitude := if Qeq_bool (hypot vector) 0 then 1%Q else hypot vector in
  mret (map (λ value, inject_Z value / magnitude)%Q vector).
Definition MOCK_VERSION : json :=
  JObj [("relayerVersion", JStr "memwal-mock"); ("apiVersion", JStr "1.0.0");
        ("minSupportedSdk", JObj [("typescript", JStr "0.0.0"); ("python", JStr "0.0.0"); ("mcp", JStr "0.0.0")]);
        ("featureFlags", JObj [("offlineMock", JBool true)]); ("deprecations", JArr []); ("build", JObj [])].
Definition restore (ns : string) : MK json :=
  m ← gets id;
  mret (JObj [("restored", jint 0); ("skipped", jint 0); ("total", jint 0); ("namespace", JStr ns); ("owner", JStr (owner m)); ("truncated", JBool false)]).
Definition health : MK json :=
  mret (JObj ([("status", JStr "ok"); ("version", JStr "memwal-mock")] ++ object_fields MOCK_VERSION)).
Definition compatibility : MK json := mret MOCK_VERSION.

(** ** Removal *)
Fixpoint find_blob (blobId : string) (l : list MockMemory) : option nat :=
  match l with
  | [] => None
  | memory :: l' => if seqb (mm_blobId memory) blobId then Some O else S <$> find_blob blobId l'
  end.
Definition forget (blobId : string) : MK bool :=
  m ← gets id;
  match find_blob blobId (memories m) with
  | None => mret false
  | Some index =>
      match memories m !! index with
      | None => mret false
      | Some memory =>
          _ ← modify (λ m, Mock (owner m) (mk_namespace m) (delete index (memories m)) (delete (mm_jobId memory) (jobs m)) (sequence m));
          mret true
      end
  end.
Definition is_cleared (ns : option string) (memory : MockMemory) : bool :=
  match ns with None => true | Some n => seqb (mm_namespace memory) n end.
Definition clear (ns : option string) : MK nat :=
  m ← gets id;
  let removed := List.filter (is_cleared ns) (memories m) in
  _ ← modify (λ m, Mock (owner m) (mk_namespace m) (List.filter (λ x, negb (is_cleared ns x)) (memories m))
                       (foldl (λ js memory, delete (mm_jobId memory) js) (jobs m) removed) (sequence m));
  mret (length removed).

(** ** Names *)
Lemma pretty_N_go_head n : ∀ s, (0 < n)%N → ∃ c l, chars (pretty_N_go n s) = c :: l ∧ c ≠ "0"%char.
Proof.
  induction (N.lt_wf_0 n) as [n _ IH]. intros s Hn. rewrite pretty_N_go_step by done.
  destruct (decide (0 < n `div` 10)%N) as [Hd|Hd]; [by apply IH; [apply N.div_lt; lia|]|].
  assert (n `div` 10 = 0)%N as Hz by (revert Hd; generalize (n `div` 10)%N; lia). rewrite Hz. rewrite pretty_N_go_0. eexists _, _. split; [done|].
  assert (n < 10)%N as Hs by (destruct (decide (n < 10)%N); [done|]; exfalso; pose proof (N.div_le_lower_bound n 10 1 ltac:(lia) ltac:(lia)); lia). rewrite N.mod_small by done.
  assert (n = 1 ∨ n = 2 ∨ n = 3 ∨ n = 4 ∨ n = 5 ∨ n = 6 ∨ n = 7 ∨ n = 8 ∨ n = 9)%N as Hc by lia.
  by repeat destruct Hc as [->|Hc]; subst.
Qed.
Lemma pretty_head n : 0 < n → ∃ c l, chars (pretty n) = c :: l ∧ c ≠ "0"%char.
Proof.
  intros Hn. destruct n as [|p|p]; [lia| |lia]. change (pretty (Z.pos p)) with (pretty (N.pos p)).
  unfold pretty, pretty_N. rewrite decide_False by done. apply pretty_N_go_head. lia.
Qed.
Lemma unpad k n : 0 < n → drop_while (is_char 48) (chars (pad_zeros k (pretty n))) = chars (pretty n).
Proof.
  intros Hn. unfold pad_zeros. rewrite chars_app, chars_of_chars.
  induction (k - slen (pretty n))%nat as [|j IH]; [|exact IH]. destruct (pretty_head n Hn) as (c & l & E & Hc).
  cbn [repeat app]. rewrite E. cbn [drop_while]. destruct (is_char 48 c) eqn:E0; [|done]. exfalso. apply Hc.
  unfold is_char in E0. apply N.eqb_eq in E0. apply (f_equal ascii_of_N) in E0. unfold code in E0. by rewrite ascii_N_embedding in E0.
Qed.
(** Two jobs have different names. *)
Lemma job_id_inj n1 n2 : 0 < n1 → 0 < n2 → job_id n1 = job_id n2 → n1 = n2.
Proof.
  intros H1 H2 E. unfold job_id in E. apply (f_equal chars) in E. rewrite !chars_app in E. apply app_inv_head in E.
  apply (f_equal (drop_while (is_char 48))) in E. unfold suffix_of in E. rewrite !unpad in E by done.
  apply chars_inj in E. by apply (inj pretty) in E.
Qed.

(** ** The state *)
Record wf (m : mock) : Prop := {
  wf_next : 0 <= sequence m;
  wf_sorted : StronglySorted Z.lt (mm_sequence <$> memories m);
  wf_memory x : x ∈ memories m → 0 < mm_sequence x <= sequence m ∧ mm_jobId x = job_id (mm_sequence x) ∧ mm_namespace x ≠ empty_str;
  wf_jobs id x : jobs m !! id = Some x ↔ x ∈ memories m ∧ mm_jobId x = id;
}.
Lemma wf_same m x y : wf m → x ∈ memories m → y ∈ memories m → mm_jobId x = mm_jobId y → x = y.
Proof.
  intros Hw Hx Hy E. assert (jobs m !! mm_jobId x = Some x) as H1 by by apply wf_jobs.
  assert (jobs m !! mm_jobId x = Some y) as H2 by by apply wf_jobs. congruence.
Qed.
Lemma sorted_snoc l z : StronglySorted Z.lt l → Forall (λ x, x < z) l → StronglySorted Z.lt (l ++ [z]).
Proof.
  intros Hs Hf. induction Hs as [|a l Hs IH Ha]; [by repeat constructor|]. apply Forall_cons in Hf as [Hz Hf].
  simpl. constructor; [by apply IH|]. apply Forall_app. split; [done|by repeat constructor].
Qed.
Lemma push_wf m x : wf m → mm_sequence x = sequence m + 1 → mm_jobId x = job_id (mm_sequence x) → mm_namespace x ≠ empty_str →
  wf (push x m).
Proof.
  intros [H1 H2 H3 H4] Hn Hj Hns. split; simpl.
  - lia.
  - rewrite fmap_app. apply sorted_snoc; [done|]. apply Forall_fmap, Forall_forall. intros y Hy. simpl. destruct (H3 y Hy). lia.
  - intros y [Hy| ->%list_elem_of_singleton]%elem_of_app; [|split; [lia|done]].
    destruct (H3 y Hy) as (? & ? & ?). split; [lia|done].
  - intros id y. assert (jobs m !! mm_jobId x = None) as Hfresh.
    { apply eq_None_not_Some. intros [z [Hz E]%H4]. destruct (H3 z Hz) as (? & Hjz & _).
      rewrite Hjz, Hj in E. apply job_id_inj in E; lia. }
    rewrite elem_of_app, list_elem_of_singleton. destruct (decide (id = mm_jobId x)) as [->|Hne].
    + rewrite lookup_insert_eq. split; [intros [= ->]; auto|]. intros [[Hy| ->] E]; [|done].
      assert (jobs m !! mm_jobId x = Some y) by by apply H4. congruence.
    + rewrite lookup_insert_ne, H4 by done. naive_solver.
Qed.
(** Removal of some memories together with their jobs. *)
Lemma sublist_sorted (l k : list MockMemory) : l `sublist_of` k →
  StronglySorted Z.lt (mm_sequence <$> k) → StronglySorted Z.lt (mm_sequence <$> l).
Proof.
  induction 1 as [|x l k Hl IH|x l k Hl IH]; [done|..]; intros [Hs Hf]%StronglySorted_inv; [|by apply IH].
  constructor; [by apply IH|]. rewrite Forall_forall in Hf. apply Forall_forall. intros z (y & -> & Hy)%list_elem_of_fmap.
  apply Hf, list_elem_of_fmap. exists y. split; [done|]. by eapply elem_of_sublist.
Qed.
Lemma sub_wf m l js : wf m → l `sublist_of` memories m → (∀ id x, js !! id = Some x ↔ x ∈ l ∧ mm_jobId x = id) →
  wf (Mock (owner m) (mk_namespace m) l js (sequence m)).
Proof.
  intros [H1 H2 H3 H4] Hl Hjs. split; simpl; [done|by eapply sublist_sorted| |done].
  intros x Hx. apply H3. by eapply elem_of_sublist.
Qed.
Lemma store_spec text ns blobId m :
  match store text ns blobId m with
  | (m', inl _) => m' = m
  | (m', inr x) => m' = push x m ∧ mm_text x = text ∧ mm_namespace x = default (mk_namespace m) ns ∧ mm_namespace x ≠ empty_str ∧
      mm_sequence x = sequence m + 1 ∧ mm_jobId x = job_id (mm_sequence x) ∧ mm_id x = mm_jobId x ∧ trim text ≠ empty_str
  end.
Proof.
  unfold store, validateText, throw_if, mbind, st_bind. destruct (slen (trim text) =? 0)%nat eqn:Et; [done|]. simpl.
  destruct (is_empty _) eqn:E; [done|]. simpl. apply seqb_neq in E. split_and!; try done. intros Hn. by rewrite Hn in Et.
Qed.
Lemma store_wf text ns blobId : invariant wf (store text ns blobId).
Proof.
  intros m Hm. pose proof (store_spec text ns blobId m) as H. destruct (store text ns blobId m) as [m' [e|x]]; [by subst|].
  destruct H as (-> & _ & _ & Hns & Hs & Hj & _). by apply push_wf.
Qed.
Lemma clear_jobs (l : list MockMemory) : ∀ (js : gmap string MockMemory) id x,
  foldl (λ js memory, delete (mm_jobId memory) js) js l !! id = Some x ↔ js !! id = Some x ∧ Forall (λ y, mm_jobId y ≠ id) l.
Proof.
  induction l as [|y l IH]; intros js id x; simpl; [rewrite Forall_nil; tauto|]. rewrite IH, lookup_delete_Some, Forall_cons. tauto.
Qed.
Lemma find_blob_spec blobId l :
  match find_blob blobId l with
  | None => Forall (λ x, mm_blobId x ≠ blobId) l
  | Some i => ∃ x, l !! i = Some x ∧ mm_blobId x = blobId ∧ Forall (λ y, mm_blobId y ≠ blobId) (take i l)
  end.
Proof.
  induction l as [|x l IH]; simpl; [done|]. destruct (seqb (mm_blobId x) blobId) eqn:E; [apply seqb_eq in E; by exists x|].
  apply seqb_neq in E. destruct (find_blob blobId l) as [i|]; simpl; [|by constructor].
  destruct IH as (y & Hy & Hb & Hf). exists y. by split_and!; [..|constructor].
Qed.
Lemma wf_nodup m : wf m → NoDup (memories m).
Proof.
  intros Hw. apply (NoDup_fmap_1 mm_sequence). pose proof (wf_sorted m Hw) as Hs. induction Hs as [|z l Hs IH Hf]; constructor; [|done].
  intros Hz. rewrite Forall_forall in Hf. specialize (Hf z Hz). lia.
Qed.
Lemma delete_elem {A} (l : list A) i x y : NoDup l → l !! i = Some x → (y ∈ delete i l ↔ y ∈ l ∧ y ≠ x).
Proof.
  intros Hn Hx. pose proof (take_drop_middle l i x Hx) as E. rewrite delete_take_drop.
  revert E Hn. generalize (take i l) (drop (S i) l). intros l1 l2 <-. intros (_ & Ht & [Hd _]%NoDup_cons)%NoDup_app.
  rewrite !elem_of_app, elem_of_cons. split; [intros H; split; [tauto|intros ->]|tauto].
  destruct H as [H|H]; [|done]. by apply (Ht x H); left.
Qed.
(** What removing one memory leaves. *)
Definition removed_at (i : nat) (x : MockMemory) (m : mock) : mock :=
  Mock (owner m) (mk_namespace m) (delete i (memories m)) (delete (mm_jobId x) (jobs m)) (sequence m).
Lemma removed_wf m i x : wf m → memories m !! i = Some x → wf (removed_at i x m).
Proof.
  intros Hm Hx. apply sub_wf; [done|apply sublist_delete|]. intros id y.
  assert (x ∈ memories m) as Hin by by eapply list_elem_of_lookup_2.
  rewrite lookup_delete_Some, (wf_jobs m Hm), (delete_elem _ _ _ _ (wf_nodup m Hm) Hx). split.
  - intros (Hne & Hy & <-). split_and!; [done|congruence|done].
  - intros ((Hy & Hne) & <-). split_and!; try done. intros E. apply Hne. by apply (wf_same m).
Qed.
Lemma forget_spec blobId m : wf m →
  match forget blobId m with
  | (m', inr true) => ∃ i x, memories m !! i = Some x ∧ mm_blobId x = blobId ∧ Forall (λ y, mm_blobId y ≠ blobId) (take i (memories m)) ∧
      m' = removed_at i x m
  | (m', inr false) => m' = m ∧ Forall (λ y, mm_blobId y ≠ blobId) (memories m)
  | (_, inl _) => False
  end.
Proof.
  intros Hm. unfold forget, mbind, st_bind, gets. cbn [id]. pose proof (find_blob_spec blobId (memories m)) as H.
  destruct (find_blob blobId (memories m)) as [i|]; [|done]. destruct H as (x & Hx & Hb & Hf). rewrite Hx. simpl.
  by exists i, x.
Qed.
Definition cleared (ns : option string) (m : mock) : mock :=
  Mock (owner m) (mk_namespace m) (List.filter (λ x, negb (is_cleared ns x)) (memories m))
    (foldl (λ js memory, delete (mm_jobId memory) js) (jobs m) (List.filter (is_cleared ns) (memories m))) (sequence m).
Lemma filter_sublist {A} (p : A → bool) l : List.filter p l `sublist_of` l.
Proof. induction l as [|x l IH]; simpl; [done|]. by destruct (p x); constructor. Qed.
Lemma elem_of_filter_b {A} (p : A → bool) l x : x ∈ List.filter p l ↔ x ∈ l ∧ p x = true.
Proof. by rewrite !list_elem_of_In, filter_In. Qed.
Lemma cleared_wf ns m : wf m → wf (cleared ns m).
Proof.
  intros Hm. apply sub_wf; [done|apply filter_sublist|]. intros id y.
  rewrite clear_jobs, (wf_jobs m Hm), elem_of_filter_b, negb_true_iff, Forall_forall. split.
  - intros ((Hy & <-) & Hf). split_and!; try done. destruct (is_cleared ns y) eqn:E; [|done].
    exfalso. by apply (Hf y); [apply elem_of_filter_b|].
  - intros ((Hy & Hc) & <-). split_and!; try done. intros z [Hz Ez]%elem_of_filter_b E.
    assert (z = y) as -> by by apply (wf_same m). congruence.
Qed.

(** ** Every call *)
Inductive mock_call : Type :=
| MRemember (text : string) (ns : option string) | MRememberWait (text : string) (ns : option string)
| MStatus (jobId : string) | MWait (jobId : string)
| MBulk (items : list (string * option string)) | MBulkWait (items : list (string * option string))
| MBulkStatus (jobIds : list string) | MWaitAll (jobIds namespaces : list string)
| MRecall (query : string) (options : RecallOptions)
| MAnalyze (text : string) (ns : option string) | MAnalyzeWait (text : string) (ns : option string)
| MEmbed (text : string) | MRestore (ns : string) | MForget (blobId : string) | MClear (ns : option string) | MDestroy.
Definition run (hypot : list Z → Q) (c : mock_call) : MK unit :=
  match c with
  | MRemember text ns => _ ← rememberAsync text ns; mret tt
  | MRememberWait text ns => _ ← rememberAndWait text ns; mret tt
  | MStatus jobId => _ ← getRememberStatus jobId; mret tt
  | MWait jobId => _ ← waitForRememberJob jobId; mret tt
  | MBulk items => _ ← rememberBulkAsync items; mret tt
  | MBulkWait items => _ ← rememberBulkAndWait items; mret tt
  | MBulkStatus jobIds => _ ← getRememberBulkStatus jobIds; mret tt
  | MWaitAll jobIds namespaces => _ ← waitForRememberJobs jobIds namespaces; mret tt
  | MRecall query options => _ ← recall query options; mret tt
  | MAnalyze text ns => _ ← analyze text ns; mret tt
  | MAnalyzeWait text ns => _ ← analyzeAndWait text ns; mret tt
  | MEmbed text => _ ← embed hypot text; mret tt
  | MRestore ns => _ ← restore ns; mret tt
  | MForget blobId => _ ← forget blobId; mret tt
  | MClear ns => _ ← clear ns; mret tt
  | MDestroy => destroy
  end.
Inductive mock_reachable (hypot : list Z → Q) : mock → Prop :=
| mock_created ns own seeds m : create ns own seeds = inr m → mock_reachable hypot m
| mock_called m c : mock_reachable hypot m → mock_reachable hypot (run hypot c m).1.

Lemma empty_wf own ns n : 0 <= n → wf (Mock own ns [] ∅ n).
Proof.
  intros Hn. split; simpl; [done|constructor|by intros x Hx%elem_of_nil|]. intros id x. rewrite lookup_empty.
  split; [done|]. by intros [Hx%elem_of_nil _].
Qed.
Lemma invariant_state {A B} (I : mock → Prop) (f : mock → A) (k : A → MK B) : (∀ a, invariant I (k a)) → invariant I (gets f ≫= k).
Proof. intros Hk. apply invariant_bind; [apply invariant_gets|exact Hk]. Qed.
Lemma bulk_wf items : invariant wf (rememberBulkAsync items).
Proof.
  induction items as [|[text ns] items IH]; simpl; [apply invariant_ret|]. apply invariant_bind; [apply store_wf|]. intros x.
  apply invariant_bind; [exact IH|]. intros ids. apply invariant_ret.
Qed.
Lemma wait_all_wf ids namespaces : invariant wf (waitForRememberJobs ids namespaces).
Proof. apply invariant_state. intros m. apply invariant_ret. Qed.
Lemma forget_invariant blobId : invariant wf (forget blobId).
Proof.
  intros m Hm. pose proof (forget_spec blobId m Hm) as H. destruct (forget blobId m) as [m' [e|[]]]; [done| |by destruct H as [-> _]].
  destruct H as (i & x & Hx & _ & _ & ->). by apply removed_wf.
Qed.
Lemma run_wf hypot c : invariant wf (run hypot c).
Proof.
  destruct c; cbn [run]; try (apply invariant_bind; [|intros ?; apply invariant_ret]).
  - apply invariant_bind; [apply store_wf|]. intros x. apply invariant_ret.
  - apply invariant_bind; [apply invariant_bind; [apply store_wf|intros x; apply invariant_ret]|]. intros id.
    apply invariant_state. intros m. destruct (_ !! _); [apply invariant_ret|apply invariant_throw].
  - apply invariant_state. intros m. apply invariant_ret.
  - apply invariant_state. intros m. destruct (_ !! _); [apply invariant_ret|apply invariant_throw].
  - apply bulk_wf.
  - apply invariant_bind; [apply bulk_wf|]. intros ids. apply invariant_state. intros m. apply wait_all_wf.
  - apply invariant_state. intros m. apply invariant_ret.
  - apply wait_all_wf.
  - apply invariant_bind; [apply invariant_throw_if|]. intros _. apply invariant_state. intros m.
    apply invariant_bind; [apply invariant_throw_if|]. intros _. apply invariant_ret.
  - apply invariant_bind; [apply invariant_throw_if|]. intros _. apply invariant_bind; [apply store_wf|]. intros x. apply invariant_ret.
  - apply invariant_bind.
    + apply invariant_bind; [apply invariant_throw_if|]. intros _. apply invariant_bind; [apply store_wf|]. intros x. apply invariant_ret.
    + intros facts. apply invariant_state. intros m. apply invariant_bind; [apply wait_all_wf|]. intros r. apply invariant_ret.
  - apply invariant_bind; [apply invariant_throw_if|]. intros _. apply invariant_ret.
  - apply invariant_state. intros m. apply invariant_ret.
  - apply forget_invariant.
  - intros m Hm. unfold clear, mbind, st_bind, gets, modify. simpl. by apply cleared_wf.
  - intros m Hm. unfold destroy, modify. simpl. apply empty_wf. by apply wf_next.
Qed.
Lemma seeds_wf seeds : invariant wf (store_seeds seeds).
Proof.
  induction seeds as [|s seeds IH]; simpl; [apply invariant_ret|]. apply invariant_bind; [apply store_wf|]. by intros _.
Qed.
(** Whatever is called in whatever order, memories keep the order of their
    sequence numbers, names of jobs are never reused, and the map of jobs
    holds exactly the memories there are. *)
Theorem mock_consistent (hypot : list Z → Q) (m : mock) : mock_reachable hypot m → wf m.
Proof.
  induction 1 as [ns own seeds m Hc|m c Hm IH].
  - unfold create in Hc. destruct (is_empty _); [done|]. pose proof (seeds_wf seeds _ (empty_wf (default "mock-owner" own) (default "default" ns) 0 ltac:(lia))) as H.
    destruct (store_seeds _ _) as [m' [e|u]]; [done|]. by injection Hc as <-.
  - pose proof (run_wf hypot c m IH) as H. by destruct (run hypot c m) as [m' [e|u]].
Qed.

(** ** Recall *)
Definition precedes (a b : entry) : Prop := (a.1 < b.1)%Q ∨ ((a.1 == b.1)%Q ∧ mm_sequence a.2 < mm_sequence b.2).
Lemma ranks_spec a b : ranks a b = true ↔ (a.1 < b.1)%Q ∨ ((a.1 == b.1)%Q ∧ mm_sequence a.2 <= mm_sequence b.2).
Proof.
  unfold ranks. destruct (Qeq_bool a.1 b.1) eqn:E.
  - apply Qeq_bool_iff in E. rewrite Z.leb_le. split; [by right|]. intros [Hl|[_ ?]]; [|done]. rewrite E in Hl. by apply Qlt_irrefl in Hl.
  - apply Qeq_bool_neq in E. rewrite Qle_bool_iff. rewrite Qle_lteq. tauto.
Qed.
#[local] Instance ranks_total : Total (λ a b, Is_true (ranks a b)).
Proof.
  intros a b. rewrite !Is_true_true, !ranks_spec.
  destruct (Q_dec a.1 b.1) as [[H|H]|H]; [by left; left|by right; left|].
  destruct (Z.le_ge_cases (mm_sequence a.2) (mm_sequence b.2)); [by left; right|right; right; by split; [symmetry|]].
Qed.
#[local] Instance ranks_trans : Transitive (λ a b, Is_true (ranks a b)).
Proof.
  intros a b c. rewrite !Is_true_true, !ranks_spec. intros [H1|[H1 H2]] [H3|[H3 H4]].
  - left. by eapply Qlt_trans.
  - left. by rewrite <-H3.
  - left. by rewrite H1.
  - right. split; [by rewrite H1|lia].
Qed.
Lemma strict_order l : StronglySorted (λ a b, Is_true (ranks a b)) l → NoDup ((λ e : entry, mm_sequence e.2) <$> l) → StronglySorted precedes l.
Proof.
  induction 1 as [|a l Hs IH Hf]; simpl; [constructor|]. intros [Ha Hn]%NoDup_cons. constructor; [by apply IH|].
  rewrite Forall_forall in Hf. apply Forall_forall. intros b Hb. specialize (Hf b Hb). apply Is_true_true, ranks_spec in Hf as [H|[H H']]; [by left|].
  right. split; [done|]. assert (mm_sequence a.2 ≠ mm_sequence b.2); [|lia]. intros E. apply Ha, list_elem_of_fmap. by exists b.
Qed.
Lemma wf_sequences m : wf m → NoDup (mm_sequence <$> memories m).
Proof.
  intros Hw. pose proof (wf_sorted m Hw) as Hs. induction Hs as [|z l Hs IH Hf]; constructor; [|done].
  intros Hz. rewrite Forall_forall in Hf. specialize (Hf z Hz). lia.
Qed.
Lemma candidates_spec tokens ns max l d x : (d, x) ∈ candidates tokens ns max l ↔
  x ∈ l ∧ mm_namespace x = ns ∧ d = distance tokens (mm_text x) ∧ (∀ bound, max = Some bound → (d < bound)%Q).
Proof.
  unfold candidates. rewrite elem_of_filter_b, list_elem_of_fmap. split.
  - intros ((y & [= -> ->] & [Hy ->%seqb_eq]%elem_of_filter_b) & Hd). split_and!; try done. intros bound ->.
    simpl in Hd. apply negb_true_iff in Hd. apply Qnot_le_lt. intros Hle%Qle_bool_iff. congruence.
  - intros (Hx & <- & -> & Hb). split.
    + exists x. split; [done|]. apply elem_of_filter_b. split; [done|]. by apply seqb_refl.
    + destruct max as [bound|]; [|done]. simpl. apply negb_true_iff. destruct (Qle_bool bound _) eqn:E; [|done].
      apply Qle_bool_iff in E. specialize (Hb bound eq_refl). by apply Qle_not_lt in E.
Qed.
Lemma fmap_sublist {A B} (f : A → B) l k : l `sublist_of` k → f <$> l `sublist_of` f <$> k.
Proof. induction 1; simpl; by constructor. Qed.
Lemma candidates_nodup tokens ns max m : wf m → NoDup ((λ e : entry, mm_sequence e.2) <$> candidates tokens ns max (memories m)).
Proof.
  intros Hw. unfold candidates. eapply sublist_NoDup; [apply (wf_sequences m Hw)|].
  etrans; [apply fmap_sublist, filter_sublist|]. rewrite <-list_fmap_compose.
  change ((λ e : entry, mm_sequence e.2) ∘ (λ memory, (distance tokens (mm_text memory), memory))) with mm_sequence.
  apply fmap_sublist, filter_sublist.
Qed.
(** Recall is exact: it leaves the state alone, refuses an empty query and a
    limit that is no index, and otherwise returns the best memories of the
    namespace below the distance asked for, by distance and then by age: as
    many as asked for or as there are, none left out that precedes one kept. *)
Theorem recall_exact (query : string) (options : RecallOptions) (m : mock) : wf m →
  let ns := default (mk_namespace m) (ro_namespace options) in
  let limit := default 10%Q (match ro_topK options with Some k => Some k | None => ro_limit options end) in
  let all := candidates (tokenize query) ns (ro_maxDistance options) (memories m) in
  (recall query options m).1 = m ∧
  match (recall query options m).2 with
  | inl _ => slen (trim query) = 0%nat ∨ is_index limit = false
  | inr results => ∃ kept omitted, results = map found_of kept ∧ kept ++ omitted ≡ₚ all ∧
      StronglySorted precedes (kept ++ omitted) ∧ length kept = Nat.min (Z.to_nat (Qfloor limit)) (length all)
  end.
Proof.
  intros Hw. cbv zeta. unfold recall, validateText, throw_if, mbind, st_bind, gets. cbn [id].
  destruct (slen (trim query) =? 0)%nat eqn:Eq; [split; [done|]; left; by apply Nat.eqb_eq|]. simpl.
  destruct (is_index _) eqn:El; [|split; [done|]; by right]. simpl. split; [done|].
  set (all := candidates _ _ _ _). set (n := Z.to_nat _). exists (take n (ranked all)), (drop n (ranked all)).
  rewrite take_drop. pose proof (merge_sort_Permutation (λ a b, Is_true (ranks a b)) all) as Hp.
  split_and!; [done|exact Hp| |by rewrite length_take; unfold ranked; rewrite (Permutation_length Hp)].
  apply strict_order; [apply StronglySorted_merge_sort; apply _|]. unfold ranked. rewrite Hp. by apply candidates_nodup.
Qed.
Lemma self_distance tokens text : tokens = tokenize text → tokens ≠ ∅ → (distance tokens text == 0)%Q.
Proof.
  intros -> Hne. unfold distance. destruct (size _ =? 0)%nat eqn:E.
  - apply Nat.eqb_eq, size_empty_inv in E. exfalso. apply Hne. by apply leibniz_equiv.
  - replace (tokenize text ∩ tokenize text) with (tokenize text) by set_solver. apply Nat.eqb_neq in E.
    unfold Qdiv. rewrite Qmult_inv_r; [reflexivity|]. intros Hz. unfold Qeq in Hz. simpl in Hz. lia.
Qed.
(** What is remembered is recalled: with room for every memory, a recall for
    the same text finds it at distance zero, and its job is done. *)
Theorem remembered_is_recalled (text : string) (ns : option string) (m : mock) (jobId : string) (limit : Q) :
  wf m → tokenize text ≠ ∅ → (rememberAsync text ns m).2 = inr jobId →
  let m' := (rememberAsync text ns m).1 in
  is_index limit = true → (length (memories m') <= Z.to_nat (Qfloor limit))%nat →
  ∃ x results, jobs m' !! jobId = Some x ∧ mm_text x = text ∧
    (recall text (Recall (Some limit) None ns None) m').2 = inr results ∧
    ∃ d, (d == 0)%Q ∧ Found (mm_blobId x) text d ∈ results.
Proof.
  intros Hw Ht Hr. cbv zeta. unfold rememberAsync, mbind, st_bind in *. pose proof (store_spec text ns None m) as Hs.
  pose proof (store_wf text ns None m Hw) as Hw'. destruct (store text ns None m) as [m' [e|x]]; [done|]. simpl in *.
  injection Hr as <-. destruct Hs as (-> & Htx & Hns & Hne & Hseq & Hj & _ & Htrim). intros Hi Hlen.
  pose proof (recall_exact text (Recall (Some limit) None ns None) (push x m) Hw') as [_ Hr].
  destruct (recall _ _ _).2 as [e|results].
  { exfalso. destruct Hr as [Hr|Hr]; [|simpl in Hr; congruence]. apply Htrim. by destruct (trim text). }
  destruct Hr as (kept & omitted & -> & Hp & _ & Hk). exists x, (map found_of kept). split_and!; [|done|done|].
  { simpl. by rewrite lookup_insert_eq. }
  exists (distance (tokenize text) text). split; [by apply self_distance|].
  assert (omitted = []) as ->.
  { simpl in Hk, Hp. set (all := candidates _ _ _ _) in *. assert (length all <= length (memories (push x m)))%nat as Hle.
    { unfold all, candidates. etrans; [apply List.filter_length_le|]. rewrite length_map. apply List.filter_length_le. }
    apply Permutation_length in Hp. rewrite length_app in Hp. destruct omitted as [|o omitted]; [done|]. cbn [length] in Hp. lia. }
  rewrite app_nil_r in Hp. apply list_elem_of_fmap. exists (distance (tokenize text) text, x).
  split; [unfold found_of; cbn [fst snd]; by rewrite Htx|]. rewrite Hp. apply candidates_spec. simpl. split_and!; [set_solver|by rewrite Hns|by rewrite Htx|done].
Qed.

(** [forget] removes one memory, the oldest with that blob, and its job; every
    other job stays. *)
Theorem forget_exact (blobId : string) (m : mock) : wf m →
  match forget blobId m with
  | (m', inr true) => ∃ before x after, memories m = before ++ x :: after ∧ memories m' = before ++ after ∧
      mm_blobId x = blobId ∧ Forall (λ y, mm_blobId y ≠ blobId) before ∧
      jobs m' !! mm_jobId x = None ∧ ∀ y, y ∈ before ++ after → jobs m' !! mm_jobId y = Some y
  | (m', inr false) => m' = m ∧ Forall (λ y, mm_blobId y ≠ blobId) (memories m)
  | (_, inl _) => False
  end.
Proof.
  intros Hw. pose proof (forget_spec blobId m Hw) as H. destruct (forget blobId m) as [m' [e|[]]]; [done| |done].
  destruct H as (i & x & Hx & Hb & Hf & ->). exists (take i (memories m)), x, (drop (S i) (memories m)).
  split_and!; [by rewrite take_drop_middle|by simpl; rewrite delete_take_drop|done|done|simpl; by rewrite lookup_delete_eq|].
  intros y Hy. apply (wf_jobs _ (removed_wf m i x Hw Hx)). split; [|done]. simpl. by rewrite delete_take_drop.
Qed.

(** ** The embedding *)
Lemma token_counts_sum tokens : length (token_counts tokens) = 16%nat ∧ fold_right Z.add 0 (token_counts tokens) = Z.of_nat (length tokens).
Proof.
  unfold token_counts. set (v := replicate 16 0).
  assert (∀ v, length v = 16%nat → length (fold_left count_token tokens v) = 16%nat ∧
    fold_right Z.add 0 (fold_left count_token tokens v) = fold_right Z.add 0 v + Z.of_nat (length tokens)) as H.
  { induction tokens as [|t tokens IH]; intros u Hu; simpl; [lia|].
    assert (Z.to_nat (token_hash t mod 16) < length u)%nat as Hi by (pose proof (Z.mod_pos_bound (token_hash t) 16); lia).
    destruct (IH (count_token u t)) as [H1 H2]; [by unfold count_token; rewrite length_alter|]. split; [done|]. rewrite H2.
    assert (∀ (l : list Z) i, (i < length l)%nat → fold_right Z.add 0 (alter (λ n, n + 1) i l) = fold_right Z.add 0 l + 1) as Ha.
    { intros l. induction l as [|z l IHl]; intros [|i] Hl; cbn [length] in Hl; [lia|lia|cbn; lia|].
      change (z + fold_right Z.add 0 (alter (λ n, n + 1) i l) = z + fold_right Z.add 0 l + 1). rewrite IHl by lia. lia. }
    unfold count_token. rewrite Ha by done. lia. }
  destruct (H v eq_refl) as [H1 H2]. split; [done|]. by rewrite H2.
Qed.
Lemma to_int32_range z : - 2 ^ 31 <= to_int32 z < 2 ^ 31.
Proof. unfold to_int32. pose proof (Z.mod_pos_bound z (2 ^ 32)). destruct (_ <? _) eqn:E; [apply Z.ltb_lt in E|apply Z.ltb_ge in E]; lia. Qed.
Example fnv1a_a : token_hash "a" = 0xe40c292c.
Proof. vm_compute. reflexivity. Qed.
Example tokens_of : tokenize "Hello, hello W0rld" = {["hello"; "w0rld"]}.
Proof. vm_compute. reflexivity. Qed.
