(* ===== verification/Manual.v ===== *)
(** * The manual client of the SDK (packages/sdk/src/manual.ts)

    [MemWalManual] encrypts, embeds and decrypts on the user's side: its
    configuration, its private state and its methods.  The model service, the
    relayer, the Walrus aggregator, the chain and the SEAL servers answer as
    functions of the calls made so far; the @mysten packages are loaded by
    calls that may fail. *)
From Stdlib Require Import Ascii QArith.
From S2P Require Import Prelude JsText JsNumber JsonParse Hex SealId Compat SdkText.
From S2P Require SdkClient.
Import Hex.Hex.
Import SdkClient(http_request(..), sdk_error(..), plain, with_status, type_error, parse_body, prop, ok_status,
  COMPAT_FAILED, response_error, zero_fill).
Local Open Scope Z_scope.

(** ** Configuration *)
Record SealServerConfig : Type := SealServer {
  sc_objectId : option string;
  sc_weight : option Q;
  sc_aggregatorUrl : option string;
  sc_apiKeyName : option string;
  sc_apiKey : option string;
}.
Record ResolvedSealServerConfig : Type := Resolved {
  rs_objectId : string;
  rs_weight : Z;
  rs_aggregatorUrl : option string;
  rs_apiKey : option (string * string);     (** the header's name and value *)
}.

(** The key, as given: text or bytes. *)
Definition delegate_key : Type := string + list byte.

Record MemWalManualConfig : Type := ManualConfig {
  c_key : delegate_key;
  c_serverUrl : option string;
  c_suiPrivateKey : option string;
  c_walletSigner : option string;           (** the wallet's address *)
  c_suiClient : bool;                       (** a Sui client is given *)
  c_embeddingApiKey : string;
  c_embeddingApiBase : option string;
  c_embeddingModel : option string;
  c_packageId : string;
  c_sealPolicyPackageId : option string;
  c_accountId : string;
  c_registryId : string;
  c_suiNetwork : option string;
  c_sealServerConfigs : option (list SealServerConfig);
  c_sealKeyServers : option (list string);
  c_sealThreshold : option Q;
  c_walrusEpochs : option Q;
  c_walrusAggregatorUrl : option string;
  c_walrusPublisherUrl : option string;
  c_namespace : option string;
}.

Definition default_server (objectId : string) : SealServerConfig := SealServer (Some objectId) (Some 1%Q) None None None.
Definition DEFAULT_SEAL_SERVER_CONFIGS (network : string) : option (list SealServerConfig) :=
  if seqb network "mainnet" then
    Some [default_server "0x145540d931f182fef76467dd8074c9839aea126852d90d18e1556fcbbd1208b6";
          default_server "0xe0eb52eba9261b96e895bbb4deca10dcd64fbc626a1133017adcd5131353fd10"]
  else if seqb network "testnet" then
    Some [default_server "0x73d05d62c18d9374e3ea529e8e0ed6161da1a141a94d3f76ae3fe4e99356db75";
          default_server "0xf5d14a81a982144ae441cd7d64b09027f116a468bd36e7eca494f750591623c8"]
  else None.

(** A trimmed text, if it is truthy. *)
Definition trimmed (o : option string) : option string :=
  s ← trim <$> o; if is_empty s then None else Some s.
(** [Number.isInteger(weight) && weight >= 1] *)
Definition positive_integer (q : Q) : option Z :=
  let r := Qred q in if (Qden r =? 1)%positive && (1 <=? Qnum r) then Some (Qnum r) else None.

Definition config_message (index : nat) (what : string) : sdk_error :=
  plain ("MemWalManual: sealServerConfigs[" +:+ pretty index +:+ "]" +:+ what).
Definition normalizeSealServerConfig (index : nat) (config : SealServerConfig) : sdk_error + ResolvedSealServerConfig :=
  match trimmed (sc_objectId config) with
  | None => inl (config_message index ".objectId is required")
  | Some objectId =>
      match positive_integer (default 1%Q (sc_weight config)) with
      | None => inl (config_message index ".weight must be a positive integer")
      | Some weight =>
          match trimmed (sc_apiKeyName config), trimmed (sc_apiKey config) with
          | Some _, None | None, Some _ => inl (config_message index " must provide both apiKeyName and apiKey, or neither")
          | Some name, Some key => inr (Resolved objectId weight (trimmed (sc_aggregatorUrl config)) (Some (name, key)))
          | None, None => inr (Resolved objectId weight (trimmed (sc_aggregatorUrl config)) None)
          end
      end
  end.
Fixpoint normalize_from (index : nat) (configs : list SealServerConfig) : sdk_error + list ResolvedSealServerConfig :=
  match configs with
  | [] => inr []
  | c :: configs' =>
      match normalizeSealServerConfig index c with
      | inl e => inl e
      | inr r => match normalize_from (S index) configs' with inl e => inl e | inr rs => inr (r :: rs) end
      end
  end.
Definition normalizeSealServerConfigs (configs : list SealServerConfig) : sdk_error + list ResolvedSealServerConfig :=
  normalize_from 0 configs.

Definition resolveSealServerConfigs (config : MemWalManualConfig) (network : string) : sdk_error + list ResolvedSealServerConfig :=
  match c_sealServerConfigs config with
  | Some configs => normalizeSealServerConfigs configs
  | None =>
      match c_sealKeyServers config with
      | Some ids => normalizeSealServerConfigs (map (λ id, SealServer (Some id) None None None None) ids)
      | None => normalizeSealServerConfigs (default [] (DEFAULT_SEAL_SERVER_CONFIGS network))
      end
  end.
Definition sealServerConfigTotalWeight (configs : list ResolvedSealServerConfig) : Z :=
  foldl (λ sum config, sum + rs_weight config) 0 configs.

(** ** Calls and answers *)
Inductive call : Type :=
| CHttp (r : http_request)
| CNow
| CUuid
| CImport (module : string)
| CSuiClient (url : string)                                   (** [new SuiClient] *)
| CSealClient (servers : list ResolvedSealServerConfig)       (** [new SealClient] *)
| CWalrusClient (network host : string)                       (** [new WalrusClient] *)
| CKeypair (suiPrivateKey : string)                           (** decoding the key, and its address *)
| CGetObject (id : string)
| CEncrypt (threshold : Q) (packageId id : string) (data : list byte)
| CSession (address packageId : string) (ttlMin : Z)          (** [SessionKey.create] *)
| CBuild (call : move_call)                                   (** building the transaction *)
| CFetchKeys (ids : list string) (txBytes : list byte) (session : string) (threshold : Q)
| CDecrypt (data : list byte) (session : string) (txBytes : list byte).

(** A response and its body, as text and as bytes. *)
Record response : Type := Response { r_status : Z; r_text : string; r_bytes : list byte }.

Record world : Type := World {
  wd_http : list call → sdk_error + response;
  wd_now : list call → Z;
  wd_uuid : list call → string;
  wd_import : list call → sdk_error + bool;        (** is the export [SuiClient] a function? *)
  wd_construct : list call → sdk_error + unit;     (** the constructors *)
  wd_keypair : list call → sdk_error + string;     (** the address *)
  wd_object : list call → sdk_error + json;
  wd_encrypt : list call → sdk_error + list byte;
  wd_session : list call → sdk_error + string;     (** a name for the session key *)
  wd_build : list call → sdk_error + list byte;
  wd_keys : list call → sdk_error + unit;
  wd_decrypt : list call → sdk_error + list byte;
}.

(** ** The client *)
Inductive sui_client : Type := Provided | Created (url : string).
Record manual : Type := Manual {
  delegatePrivateKey : list byte;
  delegatePublicKey : option (list byte);
  relayerVersionMetadata : option json;
  suiClient : option sui_client;
  sealClient : option (list ResolvedSealServerConfig);
  walrusClient : option string;              (** the host of the upload relay *)
  keypair : option string;                   (** its address *)
  trace : list call;
}.
Definition emit (c : call) (s : manual) : manual :=
  Manual (delegatePrivateKey s) (delegatePublicKey s) (relayerVersionMetadata s) (suiClient s) (sealClient s)
         (walrusClient s) (keypair s) (trace s ++ [c]).
Definition set_publicKey (pk : list byte) (s : manual) : manual :=
  Manual (delegatePrivateKey s) (Some pk) (relayerVersionMetadata s) (suiClient s) (sealClient s)
         (walrusClient s) (keypair s) (trace s).
Definition set_metadata (m : json) (s : manual) : manual :=
  Manual (delegatePrivateKey s) (delegatePublicKey s) (Some m) (suiClient s) (sealClient s)
         (walrusClient s) (keypair s) (trace s).
Definition set_suiClient (c : sui_client) (s : manual) : manual :=
  Manual (delegatePrivateKey s) (delegatePublicKey s) (relayerVersionMetadata s) (Some c) (sealClient s)
         (walrusClient s) (keypair s) (trace s).
Definition set_sealClient (c : list ResolvedSealServerConfig) (s : manual) : manual :=
  Manual (delegatePrivateKey s) (delegatePublicKey s) (relayerVersionMetadata s) (suiClient s) (Some c)
         (walrusClient s) (keypair s) (trace s).
Definition set_walrusClient (host : string) (s : manual) : manual :=
  Manual (delegatePrivateKey s) (delegatePublicKey s) (relayerVersionMetadata s) (suiClient s) (sealClient s)
         (Some host) (keypair s) (trace s).
Definition set_keypair (address : string) (s : manual) : manual :=
  Manual (delegatePrivateKey s) (delegatePublicKey s) (relayerVersionMetadata s) (suiClient s) (sealClient s)
         (walrusClient s) (Some address) (trace s).

(** [destroy()] *)
Definition destroy (s : manual) : manual :=
  Manual (zero_fill (delegatePrivateKey s)) (zero_fill <$> delegatePublicKey s) None (suiClient s) (sealClient s)
         (walrusClient s) (keypair s) (trace s).

Definition given (o : option string) : bool := match o with Some s => negb (is_empty s) | None => false end.
(** The constructor; the private key may be any truthy text, a wallet signer
    is an object. *)
Definition create (config : MemWalManualConfig) : sdk_error + manual :=
  let wallet := bool_decide (is_Some (c_walletSigner config)) in
  guard_or given (c_suiPrivateKey config) || wallet else plain "MemWalManual: provide either suiPrivateKey or walletSigner";
  guard_or negb (given (c_suiPrivateKey config) && wallet)
    else plain "MemWalManual: provide suiPrivateKey OR walletSigner, not both";
  match c_key config with
  | inr bytes => inr (Manual bytes None None None None None None [])
  | inl text =>
      match hexToBytes text with
      | inl e => inl (plain (hex_message e))
      | inr bytes => inr (Manual bytes None None None None None None [])
      end
  end.

(** ** [parseInt(b, 16)] on the pairs of an id, stored in a byte *)
Definition strip_sign (l : list ascii) : bool * list ascii :=
  match l with
  | c :: l' => if is_char 45 c then (true, l') else if is_char 43 c then (false, l') else (false, l)
  | [] => (false, [])
  end.
Definition strip_radix (l : list ascii) : list ascii :=
  match l with
  | a :: b :: l' => if is_char 48 a && (is_char 120 b || is_char 88 b) then l' else l
  | _ => l
  end.
Fixpoint hex_prefix (acc : option Z) (l : list ascii) : option Z :=
  match l with
  | c :: l' => if is_hex c then hex_prefix (Some (16 * default 0 acc + Z.of_N (hex_val c))) l' else acc
  | [] => acc
  end.
(** [None] is [NaN]. *)
Definition parse_int16 (l : list ascii) : option Z :=
  let '(neg, l1) := strip_sign (drop_while is_space l) in
  (λ z, if neg then - z else z) <$> hex_prefix None (strip_radix l1).
Definition to_uint8 (o : option Z) : byte := ascii_of_N (Z.to_N (default 0 o mod 256)).
(** [s.match(/.{1,2}/g)] *)
Fixpoint match_pairs (pending : option ascii) (l : list ascii) : list (list ascii) :=
  match l with
  | [] => match pending with Some a => [[a]] | None => [] end
  | c :: l' =>
      match pending with
      | Some a => if is_dot c then [a; c] :: match_pairs None l' else [a] :: match_pairs None l'
      | None => if is_dot c then match_pairs (Some c) l' else match_pairs None l'
      end
  end.
(** [None]: the pattern does not match, and [null.map] throws. *)
Definition id_bytes (fullId : string) : option (list byte) :=
  match match_pairs None (chars fullId) with
  | [] => None
  | pairs => Some (map (λ p, to_uint8 (parse_int16 p)) pairs)
  end.

Definition M : Type → Type := ST manual sdk_error.
Definition of_sum {A} (r : sdk_error + A) : M A := match r with inl e => throw e | inr a => mret a end.
(** What a promise settles to. *)
Definition attempt {A} (m : M A) : M (sdk_error + A) := try_catch (a ← m; mret (inr a)) (λ e, mret (inl e)).

Record RecallManualMemory : Type := Memory { m_blob_id : json; m_text : string; m_distance : json }.
Record RecallManualResult : Type := RecallResult { results : list RecallManualMemory; total : nat }.
Definition no_results : RecallManualResult := RecallResult [] 0.

Record downloaded : Type := Downloaded { d_blob_id : json; d_data : list byte; d_distance : json }.
(** The parsed ciphertext: the package and the id it names. *)
Record parsed_blob : Type := Parsed { p_blob : downloaded; p_packageId : string; p_id : string }.

Record MemWalManualRecallOptions : Type := RecallOptions {
  ro_limit : option json;
  ro_namespace : option string;
  ro_scoringWeights : option ScoringWeights;
}.

Section Client.
Context `{SuiSdk} (w : world) (config : MemWalManualConfig).
Context (sha256 : list byte → list byte) (ed_sign : list byte → list byte → list byte)
        (ed_public : list byte → list byte) (fraction : Q → string) (btoa : string → string)
        (decode_text : list byte → string)                               (** [new TextDecoder().decode] *)
        (parse_object : list byte → option (string * string)).           (** [EncryptedObject.parse] *)

Definition ask {V} (answer : list call → sdk_error + V) (c : call) : M V := λ s,
  let s' := emit c s in (s', answer (trace s')).
Definition tell {V} (answer : list call → V) (c : call) : M V := λ s, let s' := emit c s in (s', inr (answer (trace s'))).
Definition fetch (r : http_request) : M response := ask (wd_http w) (CHttp r).
Definition import_module (name : string) : M bool := ask (wd_import w) (CImport name).

(** The instance's fields that do not change. *)
Definition serverUrl : string := normalizeServerUrl (default "https://relayer.memwal.ai/" (c_serverUrl config)).
Definition namespace : string := default "default" (c_namespace config).
Definition network : string := default "mainnet" (c_suiNetwork config).
Definition isWalletMode : bool := bool_decide (is_Some (c_walletSigner config)).

(** ** Lazily created clients *)
Definition NO_SUI_CLIENT : string :=
  "SuiClient not found in @mysten/sui/client. For @mysten/sui v2.6.0+, pass suiClient in config " +:+
  "(e.g. from dapp-kit's useSuiClient())".
Definition fullnode_url : string :=
  if seqb network "testnet" then "https://fullnode.testnet.sui.io:443" else "https://fullnode.mainnet.sui.io:443".
Definition getSuiClient : M sui_client :=
  cached ← gets suiClient;
  match cached with
  | Some c => mret c
  | None =>
      if c_suiClient config then _ ← modify (set_suiClient Provided); mret Provided
      else
        found ← import_module "@mysten/sui/client";
        if negb found then throw (plain NO_SUI_CLIENT)
        else
          _ ← ask (wd_construct w) (CSuiClient fullnode_url);
          _ ← modify (set_suiClient (Created fullnode_url));
          mret (Created fullnode_url)
  end.

Definition getKeypair : M string :=
  if isWalletMode then throw (plain "getKeypair() not available in wallet signer mode")
  else
    cached ← gets keypair;
    match cached with
    | Some address => mret address
    | None =>
        _ ← import_module "@mysten/sui/cryptography";
        _ ← import_module "@mysten/sui/keypairs/ed25519";
        address ← ask (wd_keypair w) (CKeypair (default empty_str (c_suiPrivateKey config)));
        _ ← modify (set_keypair address);
        mret address
    end.

Definition getSignerAddress : M string :=
  match c_walletSigner config with Some address => mret address | None => getKeypair end.

Definition no_servers : sdk_error :=
  plain ("MemWalManual: no SEAL key servers configured for network " +:+ q2 "'" +:+ network +:+ q2 "'. " +:+
         "Please provide sealServerConfigs or sealKeyServers in config.").
Definition getSealClient : M (list ResolvedSealServerConfig) :=
  cached ← gets sealClient;
  match cached with
  | Some c => mret c
  | None =>
      _ ← import_module "@mysten/seal";
      _ ← getSuiClient;
      serverConfigs ← of_sum (resolveSealServerConfigs config network);
      if bool_decide (serverConfigs = []) then throw no_servers
      else
        _ ← ask (wd_construct w) (CSealClient serverConfigs);
        _ ← modify (set_sealClient serverConfigs);
        mret serverConfigs
  end.

(** The getter [sealThreshold]. *)
Definition sealThreshold : sdk_error + Q :=
  match c_sealThreshold config with
  | Some t => inr t
  | None =>
      match resolveSealServerConfigs config network with
      | inl e => inl e
      | inr servers =>
          let totalWeight := sealServerConfigTotalWeight servers in
          inr (if 0 <? totalWeight then inject_Z (Z.min 2 totalWeight) else 2%Q)
      end
  end.

Definition getWalrusClient : M string :=
  cached ← gets walrusClient;
  match cached with
  | Some host => mret host
  | None =>
      _ ← import_module "@mysten/walrus";
      _ ← getSuiClient;
      let uploadRelayHost := if seqb network "testnet" then "https://upload-relay.testnet.walrus.space"
                             else "https://upload-relay.mainnet.walrus.space" in
      _ ← ask (wd_construct w) (CWalrusClient network uploadRelayHost);
      _ ← modify (set_walrusClient uploadRelayHost);
      mret uploadRelayHost
  end.

(** ** Embedding *)
(** [data.data?.[0]?.embedding] *)
Definition first_of (v : json) : json :=
  match v with JArr (x :: _) => x | JObj _ => jget "0" v | _ => JUndefined end.
Definition embedding_of (body : json) : sdk_error + json :=
  match prop "data" body with
  | inl e => inl e
  | inr data =>
      let embedding := jget "embedding" (first_of data) in
      if truthy embedding then inr embedding else inl (plain "Embedding API returned no data")
  end.
Definition apiBase : string := normalizeServerUrl (default "https://api.openai.com/v1" (c_embeddingApiBase config)).
Definition embeddingModel : string :=
  default (if includes "openrouter.ai" apiBase then "openai/text-embedding-3-small" else "text-embedding-3-small")
    (c_embeddingModel config).
Definition embed_request (text : string) : http_request :=
  Http (apiBase +:+ "/embeddings") "POST"
    [("Content-Type", "application/json"); ("Authorization", "Bearer " +:+ c_embeddingApiKey config)]
    (Some (json_stringify fraction (JObj [("model", JStr embeddingModel); ("input", JStr text)]))).
Definition NO_EMBEDDING_KEY : string :=
  "MemWalManual: embeddingApiKey is required. Provide your OpenAI or OpenRouter API key in config.".
Definition embed (text : string) : M json :=
  if is_empty (c_embeddingApiKey config) then throw (plain NO_EMBEDDING_KEY)
  else
    resp ← fetch (embed_request text);
    if negb (ok_status (r_status resp))
    then throw (plain ("Embedding API error (" +:+ pretty (r_status resp) +:+ "): " +:+ r_text resp))
    else body ← of_sum (parse_body (r_text resp)); of_sum (embedding_of body).

(** ** Encryption *)
Definition identity_message (e : manual_identity_error) : sdk_error :=
  let id := c_accountId config in
  match e with
  | MNotMemWalAccount => plain ("MemWalManual: object " +:+ id +:+ " is not a " +:+ c_packageId config +:+ "::account::MemWalAccount.")
  | MNotActive => plain ("MemWalManual: account " +:+ id +:+ " is not active; refusing to encrypt.")
  | MNoOwner => plain ("MemWalManual: account " +:+ id +:+ " has no owner field. " +:+
                       "packageId/accountId may point at different contracts.")
  | MInvalidOwner => plain ("MemWalManual: account " +:+ id +:+ " has an invalid owner field.")
  | MNoCounter => plain ("MemWalManual: account " +:+ id +:+ " has no access_counter_version field. " +:+
      "This account predates SEAL identity rotation, or packageId/accountId point at different contracts.")
  | MBadCounter => plain "SyntaxError"                        (** of [BigInt] *)
  end.
Definition fetchSealIdentity : M (string * Z) :=
  _ ← getSuiClient;
  res ← ask (wd_object w) (CGetObject (c_accountId config));
  of_sum (match SealId.fetchSealIdentity (c_packageId config) res with inl e => inl (identity_message e) | inr i => inr i end).

Definition scoped_id (namespace : string) (i : string * Z) : sdk_error + string :=
  match sealScopedId namespace i.1 i.2 with
  | Some id => inr id
  | None => inl (plain ("u64ToLeHex: " +:+ pretty i.2 +:+ " is out of u64 range"))
  end.
Definition sealEncrypt (plaintext : list byte) (ns : string) : M (list byte) :=
  _ ← getSealClient;
  i ← fetchSealIdentity;
  scopedId ← of_sum (scoped_id ns i);
  threshold ← of_sum sealThreshold;
  ask (wd_encrypt w) (CEncrypt threshold (c_packageId config) scopedId plaintext).

(** ** Signed requests *)
Definition get_url (path : string) : M response := fetch (Http (serverUrl +:+ path) "GET" [] None).
Definition fetchCompatibilityMetadata : M json :=
  versionRes ← get_url "/version";
  body ← (if ok_status (r_status versionRes) then of_sum (parse_body (r_text versionRes))
          else if (r_status versionRes =? 404) || (r_status versionRes =? 405) then
            healthRes ← get_url "/health";
            if negb (ok_status (r_status healthRes))
            then throw (plain (COMPAT_FAILED +:+ pretty (r_status versionRes) +:+ ", and GET /health returned " +:+
                               pretty (r_status healthRes)))
            else of_sum (parse_body (r_text healthRes))
          else throw (plain (COMPAT_FAILED +:+ pretty (r_status versionRes))));
  match Compat.assertCompatibleRelayer body with
  | inl _ => throw (plain "incompatible relayer")
  | inr _ => _ ← modify (set_metadata body); mret body
  end.
Definition ensureCompatibleRelayer : M json :=
  m ← gets relayerVersionMetadata;
  match m with Some v => mret v | None => fetchCompatibilityMetadata end.
Definition compatibility : M json := ensureCompatibleRelayer.

Definition getDelegatePublicKey : M (list byte) :=
  cached ← gets delegatePublicKey;
  match cached with
  | Some pk => mret pk
  | None =>
      _ ← import_module "@noble/ed25519";
      key ← gets delegatePrivateKey;
      _ ← modify (set_publicKey (ed_public key));
      mret (ed_public key)
  end.

Definition sha256hex (data : string) : string := bytesToHex (sha256 (utf8 data)).
Definition signed_message (timestamp method path bodySha256 nonce : string) : string :=
  timestamp +:+ "." +:+ method +:+ "." +:+ path +:+ "." +:+ bodySha256 +:+ "." +:+ nonce +:+ "." +:+ c_accountId config.
Definition signed_headers (publicKey signature : list byte) (timestamp nonce : string) : list (string * string) :=
  [("Content-Type", "application/json"); ("x-public-key", bytesToHex publicKey);
   ("x-signature", bytesToHex signature); ("x-timestamp", timestamp); ("x-nonce", nonce);
   ("x-account-id", c_accountId config)].
Definition signed_http (key publicKey : list byte) (now : Z) (nonce method path bodyStr : string) : http_request :=
  let timestamp := pretty (now / 1000) in
  let message := signed_message timestamp method path (sha256hex bodyStr) nonce in
  Http (serverUrl +:+ path) method (signed_headers publicKey (ed_sign key (utf8 message)) timestamp nonce) (Some bodyStr).

Definition signedRequest (method path : string) (body : json) : M json :=
  _ ← ensureCompatibleRelayer;
  _ ← import_module "@noble/ed25519";
  now ← tell (wd_now w) CNow;
  let bodyStr := json_stringify fraction body in
  nonce ← tell (wd_uuid w) CUuid;
  key ← gets delegatePrivateKey;
  publicKey ← getDelegatePublicKey;
  res ← fetch (signed_http key publicKey now nonce method path bodyStr);
  if negb (ok_status (r_status res)) then throw (response_error (r_status res) (r_text res))
  else of_sum (parse_body (r_text res)).

(** ** Walrus *)
Definition publisher_url : string :=
  default (if seqb network "testnet" then "https://publisher.walrus-testnet.walrus.space"
           else "https://publisher.walrus-mainnet.walrus.space") (c_walrusPublisherUrl config).
Definition aggregator_url : string :=
  default (if seqb network "testnet" then "https://aggregator.walrus-testnet.walrus.space"
           else "https://aggregator.walrus-mainnet.walrus.space") (c_walrusAggregatorUrl config).
Definition upload_request (data : list byte) : http_request :=
  Http (publisher_url +:+ "/v1/blobs?epochs=" +:+ of_chars (number_chars fraction (default 50%Q (c_walrusEpochs config))) +:+
        "&deletable=true") "PUT" [("Content-Type", "application/octet-stream")] (Some (of_chars data)).
(** [result.newlyCreated?.blobObject?.blobId ?? result.alreadyCertified?.blobId] *)
Definition uploaded_id (result : json) : sdk_error + json :=
  match prop "newlyCreated" result with
  | inl e => inl e
  | inr newlyCreated =>
      let blobId := coalesce (jget "blobId" (jget "blobObject" newlyCreated)) (jget "blobId" (jget "alreadyCertified" result)) in
      if truthy blobId then inr blobId
      else inl (plain ("Walrus upload: unexpected response: " +:+ json_stringify fraction result))
  end.
Definition walrusUpload (data : list byte) : M json :=
  resp ← fetch (upload_request data);
  if negb (ok_status (r_status resp))
  then throw (plain ("Walrus upload failed (" +:+ pretty (r_status resp) +:+ "): " +:+ r_text resp))
  else result ← of_sum (parse_body (r_text resp)); of_sum (uploaded_id result).

Definition blob_request (blobId : json) : http_request :=
  Http (aggregator_url +:+ "/v1/blobs/" +:+ js_string blobId) "GET" [] None.
Definition walrusDownload (blobId : json) : M (list byte) :=
  resp ← fetch (blob_request blobId);
  if negb (ok_status (r_status resp))
  then throw (plain ("Walrus download failed (" +:+ pretty (r_status resp) +:+ "): " +:+ r_text resp))
  else mret (r_bytes resp).

(** ** Remember *)
Definition remember_body (encrypted : list byte) (vector : json) (ns : string) : json :=
  JObj [("encrypted_data", JStr (bytesToBase64 btoa encrypted)); ("vector", vector); ("namespace", JStr ns)].
Definition rememberManual (text : string) (ns : option string) : M json :=
  if is_empty text then throw (plain "Text cannot be empty")
  else
    let ns := default namespace ns in
    vector ← attempt (embed text);
    encrypted ← attempt (sealEncrypt (utf8 text) ns);
    vector ← of_sum vector;
    encrypted ← of_sum encrypted;
    signedRequest "POST" "/api/remember/manual" (remember_body encrypted vector ns).

(** ** Recall *)
Definition recall_body (vector limit : json) (ns : string) (weights : option ScoringWeights) : json :=
  JObj [("vector", vector); ("limit", limit); ("namespace", JStr ns);
        ("scoring_weights", scoringWeightsToWire weights)].
(** [searchResult.results], as far as [length] and [map] go: [inr None] has
    length zero. *)
Definition search_hits (searchResult : json) : sdk_error + option (list json) :=
  match prop "results" searchResult with
  | inl e => inl e
  | inr rs =>
      match rs with
      | JArr [] => inr None
      | JArr hits => inr (Some hits)
      | JStr s => if is_empty s then inr None else inl type_error
      | JObj _ => if num_is (jget "length" rs) 0 then inr None else inl type_error
      | _ => inl type_error
      end
  end.
(** One download task: [None] when the download fails; a hit without fields
    throws a second time in its [catch]. *)
Definition download (hit : json) : M (option downloaded) :=
  match prop "blob_id" hit with
  | inl e => throw e
  | inr blob_id =>
      try_catch (data ← walrusDownload blob_id; mret (Some (Downloaded blob_id data (jget "distance" hit))))
        (λ _, mret None)
  end.
Fixpoint settle_all {A B} (f : A → M B) (l : list A) : M (list (sdk_error + B)) :=
  match l with
  | [] => mret []
  | x :: l' => r ← attempt (f x); rs ← settle_all f l'; mret (r :: rs)
  end.
(** [Promise.all] *)
Fixpoint all_of {A} (l : list (sdk_error + A)) : sdk_error + list A :=
  match l with
  | [] => inr []
  | inl e :: _ => inl e
  | inr a :: l' => match all_of l' with inl e => inl e | inr r => inr (a :: r) end
  end.

(** The loop over the ciphertexts. *)
Definition parse_blob (b : downloaded) : option parsed_blob :=
  '(pkg, id) ← parse_object (d_data b);
  if seqb (normalizeSuiAddress pkg) (normalizeSuiAddress (c_packageId config)) then Some (Parsed b pkg id) else None.

Definition approve_call (idBytes : list byte) : move_call :=
  MoveCall (default (c_packageId config) (c_sealPolicyPackageId config) +:+ "::account::seal_approve")
    [PureBytes idBytes; ObjectRef (c_registryId config); ObjectRef (c_accountId config)].
Definition decrypt_blob (session : string) (b : parsed_blob) : M RecallManualMemory :=
  match id_bytes (p_id b) with
  | None => throw type_error
  | Some idBytes =>
      txBytes ← ask (wd_build w) (CBuild (approve_call idBytes));
      threshold ← of_sum sealThreshold;
      _ ← ask (wd_keys w) (CFetchKeys [p_id b] txBytes session threshold);
      plaintext ← ask (wd_decrypt w) (CDecrypt (d_data (p_blob b)) session txBytes);
      mret (Memory (d_blob_id (p_blob b)) (decode_text plaintext) (d_distance (p_blob b)))
  end.
Fixpoint decrypt_all (session : string) (l : list parsed_blob) : M (list RecallManualMemory) :=
  match l with
  | [] => mret []
  | b :: l' =>
      r ← attempt (decrypt_blob session b);
      rs ← decrypt_all session l';
      mret (match r with inl _ => rs | inr m => m :: rs end)
  end.

(** The clients and modules a recall needs. *)
Definition open_clients : M unit :=
  _ ← getSealClient;
  _ ← getSuiClient;
  _ ← import_module "@mysten/seal";
  _ ← import_module "@mysten/sui/transactions";
  _ ← import_module "@mysten/sui/utils";
  mret tt.
(** [createSigner]: the wallet, or the keypair *)
Definition createSigner : M string :=
  match c_walletSigner config with Some address => mret address | None => getKeypair end.
Definition SESSION_TTL_MIN : Z := 5.
Definition decrypt_blobs (blobs : list parsed_blob) : M RecallManualResult :=
  callerAddress ← getSignerAddress;
  _ ← createSigner;
  session ← attempt (ask (wd_session w) (CSession callerAddress (c_packageId config) SESSION_TTL_MIN));
  match session with
  | inl _ => mret no_results
  | inr sessionKey => rs ← decrypt_all sessionKey blobs; mret (RecallResult rs (length rs))
  end.
Definition recall_hits (hits : list json) : M RecallManualResult :=
  settled ← settle_all download hits;
  found ← of_sum (all_of settled);
  let downloadedBlobs := omap id found in
  if bool_decide (downloadedBlobs = []) then mret no_results
  else
    opened ← attempt open_clients;
    match opened with
    | inl _ => mret no_results
    | inr _ =>
        let parsedBlobs := omap parse_blob downloadedBlobs in
        if bool_decide (parsedBlobs = []) then mret no_results else decrypt_blobs parsedBlobs
    end.
Definition recallManual (query : string) (options : MemWalManualRecallOptions) : M RecallManualResult :=
  if is_empty query then throw (plain "Query cannot be empty")
  else
    let limit := default (jint 10) (ro_limit options) in
    let ns := default namespace (ro_namespace options) in
    vector ← embed query;
    searchResult ← signedRequest "POST" "/api/recall/manual" (recall_body vector limit ns (ro_scoringWeights options));
    hits ← of_sum (search_hits searchResult);
    match hits with
    | None => mret no_results
    | Some hits => recall_hits hits
    end.
(** The overload with a number. *)
Definition recallManual_limit (query : string) (limit : json) (ns : option string) : M RecallManualResult :=
  recallManual query (RecallOptions (Some limit) ns None).

(** ** Restore *)
(** [{ ...result, truncated: result.truncated ?? false }] *)
Definition spread (v : json) : list (string * json) :=
  match v with
  | JObj fs => fs
  | JArr l => imap (λ i x, (pretty i, x)) l
  | JStr s => imap (λ i c, (pretty i, JStr (of_chars [c]))) (chars s)
  | _ => []
  end.
Definition with_truncated (result : json) : sdk_error + json :=
  match prop "truncated" result with
  | inl e => inl e
  | inr t => inr (JObj (set_field "truncated" (coalesce t (JBool false)) (spread result)))
  end.
Definition restore (ns : string) (limit : json) : M json :=
  result ← signedRequest "POST" "/api/restore" (JObj [("namespace", JStr ns); ("limit", limit)]);
  of_sum (with_truncated result).

End Client.
