(* ===== verification/ManualSafety.v ===== *)
(** * What the manual client guarantees (packages/sdk/src/manual.ts)

    What leaves the process for a memory is a ciphertext under an identity
    read from the chain during the same call; what a recall returns was
    downloaded for a hit of its own search and decrypted under the policy of
    the configured package; every request to the relayer is signed with the
    delegate key. *)
From Stdlib Require Import Ascii QArith.
From S2P Require Import Prelude JsText JsNumber JsonParse Hex SealId Compat SdkText Ledger Manual.
From S2P Require SdkClient.
Import Hex.Hex.
Import SdkClient(http_request(..), h_headers, sdk_error(..), parse_body, prop, ok_status).
Local Open Scope Z_scope.

#[export] Instance ask_calls {V} (answer : list call → sdk_error + V) c :
  Calls trace answer (λ e : sdk_error, e) (ask answer c) c.
Proof. intros s. split; [done|]. simpl. by destruct (answer _). Qed.

(** ** Elements picked from a list, in order *)
Inductive picked {A B} (R : A → B → Prop) : list A → list B → Prop :=
| picked_nil l : picked R l []
| picked_skip x l bs : picked R l bs → picked R (x :: l) bs
| picked_keep x b l bs : R x b → picked R l bs → picked R (x :: l) (b :: bs).

Lemma picked_impl {A B} (R R' : A → B → Prop) l bs : (∀ a b, R a b → R' a b) → picked R l bs → picked R' l bs.
Proof. intros HR. induction 1; [apply picked_nil|by apply picked_skip|apply picked_keep; auto]. Qed.
Lemma picked_omap {A B C} (R : A → B → Prop) (R' : A → C → Prop) (f : B → option C) l bs :
  (∀ a b c, R a b → f b = Some c → R' a c) → picked R l bs → picked R' l (omap f bs).
Proof.
  intros Hf. induction 1 as [|x l bs _ IH|x b l bs HR _ IH]; cbn; [apply picked_nil|by apply picked_skip|].
  destruct (f b) as [c|] eqn:E; [|by apply picked_skip]. apply picked_keep; eauto.
Qed.
Lemma picked_all {A B} (R : A → B → Prop) l bs : Forall2 R l bs → picked R l bs.
Proof. induction 1; [apply picked_nil|by apply picked_keep]. Qed.
#[export] Instance mono_picked {A B} (R : list call → A → B → Prop) l bs :
  (∀ a b, Mono (λ tr, R tr a b)) → Mono (λ tr, picked (R tr) l bs).
Proof. intros HR tr ev. apply picked_impl. intros a b. apply HR. Qed.

Section Safety.
Context `{SuiSdk} (w : world) (config : MemWalManualConfig).
Context (sha256 : list byte → list byte) (ed_sign : list byte → list byte → list byte)
        (ed_public : list byte → list byte) (fraction : Q → string) (btoa : string → string)
        (decode_text : list byte → string) (parse_object : list byte → option (string * string)).

(** ** Requests *)
(** A signed request to the relayer, with some key and nonce. *)
Definition signed_with (key publicKey : list byte) (method path : string) (body : json) (r : http_request) : Prop :=
  ∃ now nonce, r = signed_http config sha256 ed_sign key publicKey now nonce method path (json_stringify fraction body).
Definition signed (method path : string) (body : json) (r : http_request) : Prop :=
  ∃ key publicKey, signed_with key publicKey method path body r.
Definition compatibility_probe (r : http_request) : Prop :=
  r = Http (serverUrl config +:+ "/version") "GET" [] None ∨ r = Http (serverUrl config +:+ "/health") "GET" [] None.

Section Calls.
Context (t0 : list call).

(** The relayer answered the signed request with [v]. *)
Definition relayer_answered (method path : string) (body v : json) (tr : list call) : Prop :=
  ∃ r resp, signed method path body r ∧ answered (wd_http w) t0 (CHttp r) resp tr ∧
    ok_status (r_status resp) = true ∧ parse_body (r_text resp) = inr v.
#[local] Instance mono_relayer method path body v : Mono (relayer_answered method path body v).
Proof. unfold relayer_answered. apply _. Qed.

(** [vector] is the embedding of [text]. *)
Definition embedded (text : string) (vector : json) (tr : list call) : Prop :=
  ∃ resp body, answered (wd_http w) t0 (CHttp (embed_request config fraction text)) resp tr ∧
    ok_status (r_status resp) = true ∧ parse_body (r_text resp) = inr body ∧ embedding_of body = inr vector.
#[local] Instance mono_embedded text vector : Mono (embedded text vector).
Proof. unfold embedded. apply _. Qed.

(** The identity is one the chain has shown during this call. *)
Definition identity_read (i : string * Z) (tr : list call) : Prop :=
  ∃ res, answered (wd_object w) t0 (CGetObject (c_accountId config)) res tr ∧
    SealId.fetchSealIdentity (c_packageId config) res = inr i.
#[local] Instance mono_identity i : Mono (identity_read i).
Proof. unfold identity_read. apply _. Qed.

(** [data] was encrypted as [encrypted] under the identity of namespace [ns]. *)
Definition encryption_call (ns : string) (data : list byte) (i : string * Z) (c : call) : Prop :=
  ∃ threshold id, c = CEncrypt threshold (c_packageId config) id data ∧
    scoped_id ns i = inr id ∧ sealThreshold config = inr threshold.
Definition encrypted_as (ns : string) (data encrypted : list byte) (tr : list call) : Prop :=
  ∃ i c, encryption_call ns data i c ∧ identity_read i tr ∧ answered (wd_encrypt w) t0 c encrypted tr.
#[local] Instance mono_encrypted ns data encrypted : Mono (encrypted_as ns data encrypted).
Proof. unfold encrypted_as. apply _. Qed.

(** ** The rule for a method's set-up calls *)
Definition setup_call (ev : call) : Prop :=
  match ev with
  | CImport _ | CNow | CUuid => True
  | CSuiClient url => url = fullnode_url config
  | CSealClient servers => resolveSealServerConfigs config (network config) = inr servers ∧ servers ≠ []
  | CKeypair key => isWalletMode config = false ∧ key = default empty_str (c_suiPrivateKey config)
  | CHttp r => compatibility_probe r
  | _ => False
  end.

Section Shared.
Context (ok : list call → call → Prop) (ok_setup : ∀ tr ev, setup_call ev → ok tr ev).
Local Notation law := (lawful trace (λ e : sdk_error, e) t0 ok).
Implicit Types F : list call → Prop.

Lemma law_fail {A} F e (R : A → list call → Prop) : law F (throw e) R.
Proof. apply (lawful_throw trace (λ e : sdk_error, e)). Qed.
Lemma law_sdk_sum {A} F (r : sdk_error + A) : law F (of_sum r) (λ a tr, F tr ∧ r = inr a).
Proof. destruct r; simpl; [apply law_fail|by apply lawful_ret]. Qed.
Lemma law_get {A B} F (f : manual → A) (k : A → M B) R : (∀ a, law F (k a) R) → law F (gets f ≫= k) R.
Proof. apply lawful_silent. intros s. by eexists. Qed.
Lemma law_set {B} F (f : manual → manual) (k : unit → M B) R :
  (∀ s, trace (f s) = trace s) → law F (k tt) R → law F (modify f ≫= k) R.
Proof. intros Hf Hk. apply lawful_silent; [intros s; exists tt; split; [done|apply Hf]|intros []; exact Hk]. Qed.
Lemma law_call {V} F (answer : list call → sdk_error + V) c : Mono F → (∀ tr, F tr → ok tr c) →
  law F (ask answer c) (λ v tr, F tr ∧ answered answer t0 c v tr).
Proof. intros HF Hok. apply (lawful_call trace answer (λ e, e) t0 ok (ask answer c) c F Hok). Qed.
Lemma law_tell {V} F (answer : list call → V) c : Mono F → (∀ tr, F tr → ok tr c) → law F (tell answer c) (λ _, F).
Proof.
  intros HF Hok. change (tell answer c) with (ask (λ tr, inr (answer tr) : sdk_error + V) c).
  eapply lawful_weaken; [by apply law_call|done|by intros v tr [? _]].
Qed.
Lemma law_called {V B} F (answer : list call → sdk_error + V) c (k : V → M B) R : Mono F → (∀ tr, F tr → ok tr c) →
  (∀ v, law (λ tr, F tr ∧ answered answer t0 c v tr) (k v) R) → law F (ask answer c ≫= k) R.
Proof. intros HF Hok Hk. eapply lawful_bind; [by apply law_call|exact Hk]. Qed.
Lemma law_known {A B} F (r : sdk_error + A) (k : A → M B) R :
  (∀ a, r = inr a → law F (k a) R) → law F (of_sum r ≫= k) R.
Proof. intros Hk. destruct r as [e|a]; [apply law_fail|by apply Hk]. Qed.
(** A promise whose failure is looked at. *)
Lemma law_attempt {A} F (m : M A) G :
  law F m G → law F (attempt m) (λ r tr, match r with inr a => G a tr | inl _ => True end).
Proof.
  intros Hm. unfold attempt. apply lawful_try; [|intros e; by apply lawful_ret].
  eapply lawful_bind; [exact Hm|]. intros a. by apply lawful_ret.
Qed.
(** Only the precondition is kept. *)
Lemma law_drop {A} F (m : M A) G : law F m (λ a tr, F tr ∧ G a tr) → law F m (λ _, F).
Proof. intros Hm. eapply lawful_weaken; [exact Hm|done|by intros a tr [? _]]. Qed.
Lemma law_import F name : Mono F → law F (import_module w name) (λ _, F).
Proof. intros HF. eapply law_drop, law_call; [done|]. intros. by apply ok_setup. Qed.

Lemma law_sui F : Mono F → law F (getSuiClient w config) (λ _, F).
Proof.
  intros HF. apply law_get; intros [c|]; [by apply lawful_ret|]. destruct (c_suiClient config).
  - apply law_set; [done|]. by apply lawful_ret.
  - eapply lawful_bind; [by apply law_import|]. intros []; [|apply law_fail]. simpl.
    eapply lawful_bind; [eapply law_drop, law_call; [done|]; intros; by apply ok_setup|intros ?; cbv beta].
    apply law_set; [done|]. by apply lawful_ret.
Qed.
Lemma law_keypair F : Mono F → law F (getKeypair w config) (λ _, F).
Proof.
  intros HF. unfold getKeypair. destruct (isWalletMode config) eqn:E; [apply law_fail|].
  apply law_get; intros [c|]; [by apply lawful_ret|].
  do 2 (eapply lawful_bind; [by apply law_import|intros ?; cbv beta]).
  eapply lawful_bind; [eapply law_drop, law_call; [done|]; intros; by apply ok_setup|]. intros addr; cbv beta.
  apply law_set; [done|]. by apply lawful_ret.
Qed.
Lemma law_seal F : Mono F → law F (getSealClient w config) (λ _, F).
Proof.
  intros HF. apply law_get; intros [c|]; [by apply lawful_ret|].
  eapply lawful_bind; [by apply law_import|intros ?; cbv beta]. eapply lawful_bind; [by apply law_sui|intros ?; cbv beta].
  apply law_known. intros servers Hr. case_bool_decide; [apply law_fail|].
  eapply lawful_bind; [eapply law_drop, law_call; [done|]; intros; by apply ok_setup|intros ?; cbv beta].
  apply law_set; [done|]. by apply lawful_ret.
Qed.

(** ** Signed requests *)
Lemma law_probe F path : Mono F → compatibility_probe (Http (serverUrl config +:+ path) "GET" [] None) →
  law F (get_url w config path) (λ _, F).
Proof. intros HF Hp. eapply law_drop, law_call; [done|]. intros. by apply ok_setup. Qed.
Lemma law_sum_drop {A} F (r : sdk_error + A) : law F (of_sum r) (λ _, F).
Proof. eapply law_drop, law_sdk_sum. Qed.
Lemma law_compatible F : Mono F → law F (ensureCompatibleRelayer w config) (λ _, F).
Proof.
  intros HF. apply law_get. intros [v|]; [by apply lawful_ret|].
  eapply lawful_bind; [apply law_probe; [done|by left]|]. intros v. cbv beta.
  eapply lawful_bind with (G := λ _, F).
  - destruct (ok_status _); [apply law_sum_drop|]. destruct (_ || _); [|apply law_fail].
    eapply lawful_bind; [apply law_probe; [done|by right]|]. intros h.
    destruct (negb _); [apply law_fail|apply law_sum_drop].
  - intros body. destruct (Compat.assertCompatibleRelayer body); [apply law_fail|].
    apply law_set; [done|]. by apply lawful_ret.
Qed.
Lemma law_public_key F : Mono F → law F (getDelegatePublicKey w ed_public) (λ _, F).
Proof.
  intros HF. apply law_get. intros [pk|]; [by apply lawful_ret|].
  eapply lawful_bind; [by apply law_import|intros ?; cbv beta]. apply law_get. intros key.
  apply law_set; [done|]. by apply lawful_ret.
Qed.
Lemma law_signed F method path body : Mono F →
  (∀ tr r, F tr → signed method path body r → ok tr (CHttp r)) →
  law F (signedRequest w config sha256 ed_sign ed_public fraction method path body)
    (λ v tr, F tr ∧ relayer_answered method path body v tr).
Proof.
  intros HF Hok. unfold signedRequest.
  eapply lawful_bind; [by apply law_compatible|intros ?; cbv beta]. eapply lawful_bind; [by apply law_import|intros ?; cbv beta].
  eapply lawful_bind; [apply law_tell; [done|intros; by apply ok_setup]|intros now; cbv beta].
  eapply lawful_bind; [apply law_tell; [done|intros; by apply ok_setup]|intros nonce; cbv beta].
  apply law_get; intros key. eapply lawful_bind; [by apply law_public_key|intros pk; cbv beta].
  set (r := signed_http _ _ _ _ _ _ _ _ _ _). assert (Hr : signed method path body r) by (by do 4 eexists).
  eapply lawful_bind; [apply law_call; [done|]; intros; by apply Hok|]. intros resp. cbv beta.
  destruct (ok_status (r_status resp)) eqn:E; [|apply law_fail]. simpl.
  eapply lawful_weaken; [apply law_sdk_sum|intros ? Ht; exact Ht|]. intros v tr [[? ?] ?]. split; [done|]. by exists r, resp.
Qed.

Lemma law_embed F text : Mono F →
  (∀ tr, F tr → ok tr (CHttp (embed_request config fraction text))) →
  law F (embed w config fraction text) (λ v tr, F tr ∧ embedded text v tr).
Proof.
  intros HF Hok. unfold embed. destruct (is_empty _); [apply law_fail|].
  apply law_called; [done..|]. intros resp.
  destruct (ok_status (r_status resp)) eqn:E; [|apply law_fail]. simpl. apply law_known. intros body Hb.
  eapply lawful_weaken; [apply law_sdk_sum|intros ? Ht; exact Ht|]. intros v tr [[? ?] ?]. split; [done|]. by exists resp, body.
Qed.

Lemma law_encrypt F plaintext ns : Mono F →
  (∀ tr, F tr → ok tr (CGetObject (c_accountId config))) →
  (∀ tr i c, F tr → identity_read i tr → encryption_call ns plaintext i c → ok tr c) →
  law F (sealEncrypt w config plaintext ns) (λ v tr, F tr ∧ encrypted_as ns plaintext v tr).
Proof.
  intros HF Hget Henc. unfold sealEncrypt. eapply lawful_bind; [by apply law_seal|intros ?; cbv beta].
  eapply lawful_bind with (G := λ i tr, F tr ∧ identity_read i tr).
  { unfold fetchSealIdentity. eapply lawful_bind; [by apply law_sui|intros ?; cbv beta].
    eapply lawful_bind; [by apply law_call|]. intros res. eapply lawful_weaken; [apply law_sdk_sum|intros ? Ht; exact Ht|].
    intros i tr [[? ?] Hi]. split; [done|]. exists res. split; [done|].
    destruct (SealId.fetchSealIdentity _ _); congruence. }
  intros i. apply law_known. intros id Hid. apply law_known. intros t Ht.
  eapply lawful_weaken; [apply law_call with (F := λ tr, F tr ∧ identity_read i tr); [apply _|]|intros tr Hi; exact Hi|].
  - intros tr [? ?]. eapply Henc; [done..|]. by exists t, id.
  - intros v tr [[? ?] ?]. split; [done|]. eexists i, _. split; [by exists t, id|done].
Qed.
End Shared.

(** ** Growth: what a failed promise leaves *)
Definition grows {A} (m : M A) : Prop := ∀ tr, invariant (λ s, tr `prefix_of` trace s) m.
Lemma mono_prefix (F : list call → Prop) tr tr' : Mono F → tr `prefix_of` tr' → F tr → F tr'.
Proof.
  intros HF [l ->] Ht. revert tr Ht. induction l as [|c l IH]; intros tr Ht; [by rewrite app_nil_r|].
  rewrite cons_middle, app_assoc. by apply IH, HF.
Qed.
Lemma grows_ask {V} (answer : list call → sdk_error + V) c : grows (ask answer c).
Proof.
  intros tr s Hs. unfold ask. assert (tr `prefix_of` trace (emit c s)) by by apply prefix_app_r.
  by destruct (answer _).
Qed.
Lemma grows_set (f : manual → manual) : (∀ s, trace (f s) = trace s) → grows (modify f).
Proof. intros Hf tr. apply triple_modify. intros s. by rewrite Hf. Qed.
Lemma grows_sum {A} (r : sdk_error + A) : grows (of_sum r).
Proof. intros tr. destruct r; [apply invariant_throw|apply invariant_ret]. Qed.
Lemma calls_grow_bind {A B} (m : M A) (k : A → M B) : grows m → (∀ a, grows (k a)) → grows (m ≫= k).
Proof. intros Hm Hk tr. apply invariant_bind; [apply Hm|intros a; apply Hk]. Qed.
Lemma calls_grow_ret {A} (a : A) : grows (mret a).
Proof. intros tr. apply invariant_ret. Qed.
Lemma grows_throw {A} e : grows (throw e : M A).
Proof. intros tr. apply invariant_throw. Qed.
Lemma grows_gets {A} (f : manual → A) : grows (gets f).
Proof. intros tr. apply invariant_gets. Qed.
#[local] Hint Resolve grows_ask grows_sum calls_grow_bind calls_grow_ret grows_throw grows_gets : core.

Ltac grow := repeat first
  [ apply grows_ask | apply calls_grow_ret | apply grows_throw | apply grows_gets | apply grows_sum
  | by apply grows_set | apply calls_grow_bind; [|intros ?] | case_match ].
Lemma grows_sui : grows (getSuiClient w config).
Proof. unfold getSuiClient, import_module. grow. Qed.
Lemma grows_open : grows (open_clients w config).
Proof. unfold open_clients, getSealClient, import_module. grow; apply grows_sui. Qed.
Lemma grows_download id : grows (walrusDownload w config id).
Proof. unfold walrusDownload, fetch. grow. Qed.
Lemma grows_decrypt session p : grows (decrypt_blob w config decode_text session p).
Proof. unfold decrypt_blob. grow. Qed.

Section Shared.
Context (ok : list call → call → Prop).
Local Notation law := (lawful trace (λ e : sdk_error, e) t0 ok).
Implicit Types F : list call → Prop.
(** Facts survive a promise that fails. *)
Lemma law_settle {A B} F (m : M A) (f : A → B) (g : sdk_error → B) G : Mono F → grows m → law F m G →
  law F (try_catch (a ← m; mret (f a)) (λ e, mret (g e)))
    (λ r tr, F tr ∧ ((∃ a, r = f a ∧ G a tr) ∨ ∃ e, r = g e)).
Proof.
  intros HF Hgrow Hm s [Hl Hf]. specialize (Hm s (conj Hl Hf)). specialize (Hgrow (trace s) s (reflexivity _)).
  unfold try_catch, mbind, st_bind. destruct (m s) as [s' [e|a]]; cbn in *; [destruct Hm as [Hl' _]|destruct Hm as [Hl' Hg]].
  - split; [done|]. split; [by eapply mono_prefix|]. right. by exists e.
  - split; [done|]. split; [by eapply mono_prefix|]. left. by exists a.
Qed.
Lemma law_settle_attempt {A} F (m : M A) G : Mono F → grows m → law F m G →
  law F (attempt m) (λ r tr, F tr ∧ match r with inr a => G a tr | inl _ => True end).
Proof.
  intros HF Hgrow Hm. eapply lawful_weaken; [by apply law_settle with (G := G)|done|].
  intros r tr [Hf [(a & -> & Hg)|[e ->]]]; done.
Qed.
End Shared.

(** ** Remember *)
Section Remember.
Context (text ns : string).
Definition remember_ok (tr : list call) (ev : call) : Prop :=
  setup_call ev ∨
  match ev with
  | CGetObject id => id = c_accountId config
  | CEncrypt _ _ _ _ => ∃ i, identity_read i tr ∧ encryption_call ns (utf8 text) i ev
  | CHttp r =>
      r = embed_request config fraction text ∨
      ∃ encrypted vector, encrypted_as ns (utf8 text) encrypted tr ∧ embedded text vector tr ∧
        signed "POST" "/api/remember/manual" (remember_body btoa encrypted vector ns) r
  | _ => False
  end.
Local Notation law := (lawful trace (λ e : sdk_error, e) t0 remember_ok).
Lemma remember_setup tr ev : setup_call ev → remember_ok tr ev.
Proof. by left. Qed.

Definition remembered (v : json) (tr : list call) : Prop :=
  ∃ encrypted vector, encrypted_as ns (utf8 text) encrypted tr ∧ embedded text vector tr ∧
    relayer_answered "POST" "/api/remember/manual" (remember_body btoa encrypted vector ns) v tr.

Lemma law_remember : text ≠ empty_str →
  law (λ _, True) (rememberManual w config sha256 ed_sign ed_public fraction btoa text (Some ns)) remembered.
Proof.
  intros Ht. unfold rememberManual. replace (is_empty text) with false by (symmetry; by apply seqb_neq). simpl.
  eapply lawful_bind; [apply law_attempt, law_embed; [apply _|]; intros tr _; right; by left|].
  intros rv. eapply lawful_bind with (G := λ r tr, match rv, r with
    | inr v, inr a => embedded text v tr ∧ encrypted_as ns (utf8 text) a tr | _, _ => True end).
  { pose (F := λ tr, match rv with inr v => embedded text v tr | inl _ => True end).
    assert (HF : Mono F) by (unfold F; destruct rv; apply _).
    eapply lawful_weaken; [apply law_attempt, (law_encrypt remember_ok remember_setup F); [done| |]| |].
    - intros tr _. by right.
    - intros tr i c _ Hi Hc. right. pose proof Hc as (? & ? & -> & _). by exists i.
    - intros tr Hv. by destruct rv; [|destruct Hv].
    - intros [?|a] tr; [by destruct rv|]. unfold F. destruct rv; [done|]. by intros [? ?]. }
  intros re. destruct rv as [e|vector]; [apply law_fail|]. destruct re as [e|encrypted]; [apply law_fail|].
  apply law_known. intros v [= <-]. apply law_known. intros a [= <-]. cbv beta.
  eapply lawful_weaken; [apply law_signed with (F := λ tr, embedded text vector tr ∧ encrypted_as ns (utf8 text) encrypted tr); [apply remember_setup|apply _|]| |].
  - intros tr r [? ?] Hr. right. right. by exists encrypted, vector.
  - done.
  - intros v tr [[? ?] ?]. by exists encrypted, vector.
Qed.
End Remember.

(** ** Recall *)
Section Recall.
Context (query : string) (options : MemWalManualRecallOptions).
Definition search_body (vector : json) : json :=
  recall_body vector (default (jint 10) (ro_limit options)) (default (namespace config) (ro_namespace options))
    (ro_scoringWeights options).
(** The relayer answered this call's search with these hits. *)
Definition searched (hits : list json) (tr : list call) : Prop :=
  ∃ vector v, embedded query vector tr ∧ relayer_answered "POST" "/api/recall/manual" (search_body vector) v tr ∧
    search_hits v = inr (Some hits).
#[local] Instance mono_searched hits : Mono (searched hits).
Proof. unfold searched. apply _. Qed.

(** The blob was downloaded for the hit. *)
Definition blob_of (tr : list call) (hit : json) (b : downloaded) : Prop :=
  ∃ resp, prop "blob_id" hit = inr (d_blob_id b) ∧ d_distance b = jget "distance" hit ∧
    answered (wd_http w) t0 (CHttp (blob_request config (d_blob_id b))) resp tr ∧
    ok_status (r_status resp) = true ∧ d_data b = r_bytes resp.
#[local] Instance mono_blob hit b : Mono (λ tr, blob_of tr hit b).
Proof. unfold blob_of. apply _. Qed.
(** It is a ciphertext of the configured package. *)
Definition own_blob (tr : list call) (hit : json) (p : parsed_blob) : Prop :=
  blob_of tr hit (p_blob p) ∧ parse_object (d_data (p_blob p)) = Some (p_packageId p, p_id p) ∧
  normalizeSuiAddress (p_packageId p) = normalizeSuiAddress (c_packageId config).
#[local] Instance mono_own hit p : Mono (λ tr, own_blob tr hit p).
Proof. unfold own_blob. apply _. Qed.
(** The session key was created in this call, for the wallet if there is one. *)
Definition session_open (session : string) (tr : list call) : Prop :=
  ∃ address, answered (wd_session w) t0 (CSession address (c_packageId config) SESSION_TTL_MIN) session tr ∧
    ∀ a, c_walletSigner config = Some a → address = a.
#[local] Instance mono_session session : Mono (session_open session).
Proof. unfold session_open. apply _. Qed.
(** Its keys were granted to the transaction that approves its id. *)
Definition granted (p : parsed_blob) (session : string) (txBytes : list byte) (tr : list call) : Prop :=
  ∃ idBytes threshold, id_bytes (p_id p) = Some idBytes ∧ sealThreshold config = inr threshold ∧
    answered (wd_build w) t0 (CBuild (approve_call config idBytes)) txBytes tr ∧
    answered (wd_keys w) t0 (CFetchKeys [p_id p] txBytes session threshold) tt tr.
#[local] Instance mono_granted p session txBytes : Mono (granted p session txBytes).
Proof. unfold granted. apply _. Qed.
Definition decrypted (tr : list call) (p : parsed_blob) (m : RecallManualMemory) : Prop :=
  ∃ session txBytes plaintext, session_open session tr ∧ granted p session txBytes tr ∧
    answered (wd_decrypt w) t0 (CDecrypt (d_data (p_blob p)) session txBytes) plaintext tr ∧
    m = Memory (d_blob_id (p_blob p)) (decode_text plaintext) (d_distance (p_blob p)).
#[local] Instance mono_decrypted p m : Mono (λ tr, decrypted tr p m).
Proof. unfold decrypted. apply _. Qed.
(** A memory that is the content of a hit. *)
Definition recalled (tr : list call) (hit : json) (m : RecallManualMemory) : Prop :=
  ∃ p, own_blob tr hit p ∧ decrypted tr p m.

(** A ciphertext of the package that was downloaded for a hit. *)
Definition hit_blob (p : parsed_blob) (tr : list call) : Prop :=
  ∃ hits hit, searched hits tr ∧ hit ∈ hits ∧ own_blob tr hit p.
#[local] Instance mono_hit_blob p : Mono (hit_blob p).
Proof. unfold hit_blob. apply _. Qed.

Definition recall_ok (tr : list call) (ev : call) : Prop :=
  setup_call ev ∨
  match ev with
  | CHttp r =>
      r = embed_request config fraction query ∨
      (∃ vector, embedded query vector tr ∧ signed "POST" "/api/recall/manual" (search_body vector) r) ∨
      (∃ hits hit id, searched hits tr ∧ hit ∈ hits ∧ prop "blob_id" hit = inr id ∧ r = blob_request config id)
  | CSession address packageId ttlMin =>
      packageId = c_packageId config ∧ ttlMin = SESSION_TTL_MIN ∧ (∀ a, c_walletSigner config = Some a → address = a) ∧
      ∃ p, hit_blob p tr
  | CBuild call => ∃ p idBytes, hit_blob p tr ∧ id_bytes (p_id p) = Some idBytes ∧ call = approve_call config idBytes
  | CFetchKeys ids txBytes session threshold =>
      ∃ p idBytes, hit_blob p tr ∧ session_open session tr ∧ ids = [p_id p] ∧ id_bytes (p_id p) = Some idBytes ∧
        answered (wd_build w) t0 (CBuild (approve_call config idBytes)) txBytes tr ∧ sealThreshold config = inr threshold
  | CDecrypt data session txBytes =>
      ∃ p, hit_blob p tr ∧ session_open session tr ∧ data = d_data (p_blob p) ∧ granted p session txBytes tr
  | _ => False
  end.
Local Notation law := (lawful trace (λ e : sdk_error, e) t0 recall_ok).
Implicit Types F : list call → Prop.
Lemma recall_setup tr ev : setup_call ev → recall_ok tr ev.
Proof. by left. Qed.
Hint Resolve recall_setup : core.

Lemma law_decrypt F session p : Mono F → (∀ tr, F tr → hit_blob p tr ∧ session_open session tr) →
  law F (decrypt_blob w config decode_text session p) (λ m tr, decrypted tr p m).
Proof.
  intros HF Hp. unfold decrypt_blob. destruct (id_bytes (p_id p)) as [idBytes|] eqn:Eid; [|apply law_fail].
  apply law_called; [done| |].
  { intros tr Ht. right. exists p, idBytes. by destruct (Hp tr Ht). }
  intros tx. apply law_known. intros th Hth. apply law_called; [apply _| |].
  { intros tr [Ht Hb]. right. exists p, idBytes. by destruct (Hp tr Ht). }
  intros []. apply lawful_weaken with (F' := λ tr, F tr ∧ granted p session tx tr) (G' := λ m tr, decrypted tr p m); [| |done].
  2: { intros tr [[Ht Hb] Hk]. split; [done|]. by exists idBytes, th. }
  apply law_called; [apply _| |].
  { intros tr [Ht Hb]. right. exists p. by destruct (Hp tr Ht). }
  intros plaintext. apply lawful_ret. intros tr [[Ht Hg] Hd]. exists session, tx, plaintext. by destruct (Hp tr Ht).
Qed.

Lemma law_decrypt_all F session ps : Mono F →
  (∀ p tr, p ∈ ps → F tr → hit_blob p tr) → (∀ tr, F tr → session_open session tr) →
  law F (decrypt_all w config decode_text session ps) (λ ms tr, F tr ∧ picked (decrypted tr) ps ms).
Proof.
  revert F. induction ps as [|p ps IH]; intros F HF Hps Hs; simpl.
  { apply lawful_ret. intros tr Ht. split; [done|constructor]. }
  eapply lawful_bind.
  { apply law_settle_attempt; [done|apply grows_decrypt|]. apply law_decrypt; [done|].
    intros tr Ht. split; [by apply Hps; [left|]|by apply Hs]. }
  intros r. cbv beta. pose (F' := λ tr, F tr ∧ match r with inr m => decrypted tr p m | inl _ => True end).
  assert (HF' : Mono F') by (unfold F'; destruct r; apply _).
  eapply lawful_bind; [apply (IH F')|].
  - done.
  - intros q tr Hq [? _]. apply Hps; [by right|done].
  - intros tr [? _]. by apply Hs.
  - intros ms. apply lawful_ret. intros tr [[Hf Hr] Hms]. split; [done|].
    destruct r; [by apply picked_skip|by apply picked_keep].
Qed.

Lemma law_download F hit : Mono F → (∀ tr, F tr → ∃ hits, searched hits tr ∧ hit ∈ hits) →
  law F (download w config hit) (λ r tr, F tr ∧ match r with Some b => blob_of tr hit b | None => True end).
Proof.
  intros HF Hhit. unfold download. destruct (prop "blob_id" hit) as [e|id] eqn:Ep; [apply law_fail|].
  eapply lawful_weaken; [apply law_settle with (f := λ data, Some (Downloaded id data (jget "distance" hit))) (g := λ _, None)
    (G := λ data tr, blob_of tr hit (Downloaded id data (jget "distance" hit)));
    [done|apply grows_download|]|done|intros r tr [Hf [(data & -> & Hb)|[e ->]]]; done].
  unfold walrusDownload. apply law_called; [done| |].
  { intros tr Ht. right. right. right. destruct (Hhit tr Ht) as (hits & ? & ?). by exists hits, hit, id. }
  intros resp. destruct (ok_status (r_status resp)) eqn:E; [|apply law_fail].
  apply lawful_ret. intros tr [_ Ha]. by exists resp.
Qed.
Lemma grows_hit hit : grows (download w config hit).
Proof.
  unfold download. destruct (prop _ hit); [apply grows_throw|]. intros tr. apply invariant_catch; [|intros e; apply invariant_ret].
  apply invariant_bind; [apply grows_download|intros a; apply invariant_ret].
Qed.

Definition settled_hit (tr : list call) (hit : json) (r : sdk_error + option downloaded) : Prop :=
  match r with inr (Some b) => blob_of tr hit b | _ => True end.
#[local] Instance mono_settled_hit hit r : Mono (λ tr, settled_hit tr hit r).
Proof. unfold settled_hit. destruct r as [|[]]; apply _. Qed.

Lemma law_downloads F hits : Mono F → (∀ hit tr, hit ∈ hits → F tr → ∃ hits, searched hits tr ∧ hit ∈ hits) →
  law F (settle_all (download w config) hits) (λ rs tr, F tr ∧ Forall2 (settled_hit tr) hits rs).
Proof.
  revert F. induction hits as [|hit hits IH]; intros F HF Hhits; simpl.
  { apply lawful_ret. intros tr Ht. by split; [|constructor]. }
  eapply lawful_bind.
  { apply law_settle_attempt; [done|apply grows_hit|]. apply law_download; [done|]. intros tr. apply Hhits. by left. }
  intros r. cbv beta. pose (F' := λ tr, F tr ∧ settled_hit tr hit r).
  apply lawful_weaken with (F' := F') (G' := λ rs tr, F tr ∧ Forall2 (settled_hit tr) (hit :: hits) rs); [|intros tr [Hf Hr]|done].
  - eapply lawful_bind; [apply (IH F'); [apply _|intros h tr Hh [? _]; apply Hhits; [by right|done]]|].
    intros rs. apply lawful_ret. intros tr [[Hf Hr] Hrs]. split; [done|by constructor].
  - split; [done|]. destruct r as [|[]]; [done| |done]. by destruct Hr.
Qed.
Lemma all_of_picked tr hits rs found : Forall2 (settled_hit tr) hits rs → all_of rs = inr found →
  picked (blob_of tr) hits (omap id found).
Proof.
  intros Hrs. revert found. induction Hrs as [|hit r hits rs Hr _ IH]; intros found Hf; simpl in Hf; simplify_eq.
  { constructor. }
  destruct r as [|o]; [done|]. destruct (all_of rs) as [|found']; simplify_eq. cbn.
  destruct o as [b|]; cbn; [apply picked_keep; [done|by apply IH]|apply picked_skip; by apply IH].
Qed.
Lemma parse_blob_own tr hit b p : blob_of tr hit b → parse_blob config parse_object b = Some p → own_blob tr hit p.
Proof.
  unfold parse_blob. intros Hb Hp. destruct (parse_object (d_data b)) as [[pkg id]|] eqn:E; [|done]. simpl in Hp.
  destruct (seqb _ _) eqn:Es; simplify_eq. apply seqb_eq in Es. done.
Qed.
Lemma picked_elem {A B} (R : A → B → Prop) l bs b : picked R l bs → b ∈ bs → ∃ a, a ∈ l ∧ R a b.
Proof.
  induction 1 as [|x l bs _ IH|x b' l bs HR _ IH]; intros Hb; [by apply elem_of_nil in Hb| |].
  - destruct (IH Hb) as (a & ? & ?). exists a. split; [by right|done].
  - apply elem_of_cons in Hb as [->|Hb]; [exists x; split; [by left|done]|].
    destruct (IH Hb) as (a & ? & ?). exists a. split; [by right|done].
Qed.
Lemma picked_trans {A B C} (R : A → B → Prop) (R' : B → C → Prop) l bs cs :
  picked R l bs → picked R' bs cs → picked (λ a c, ∃ b, R a b ∧ R' b c) l cs.
Proof.
  intros HR. revert cs. induction HR as [|x l bs _ IH|x b l bs Hx _ IH]; intros cs Hc.
  - inversion Hc. apply picked_nil.
  - by apply picked_skip, IH.
  - inversion Hc as [| |? c ? cs' ? Hcs]; subst; [apply picked_nil|by apply picked_skip, IH|].
    apply picked_keep; [by exists b|by apply IH].
Qed.

(** What a recall returns. *)
Definition recall_result (res : RecallManualResult) (tr : list call) : Prop :=
  total res = length (results res) ∧
  (results res = [] ∨ ∃ hits, searched hits tr ∧ picked (recalled tr) hits (results res)).
Lemma law_nothing F : law F (mret no_results) recall_result.
Proof. apply lawful_ret. intros tr _. split; [done|by left]. Qed.

Lemma law_address F : Mono F → law F (getSignerAddress w config) (λ a tr, F tr ∧ ∀ b, c_walletSigner config = Some b → a = b).
Proof.
  intros HF. unfold getSignerAddress. destruct (c_walletSigner config) as [b|] eqn:E.
  - apply lawful_ret. intros tr Ht. split; [done|]. by intros ? [= ->].
  - eapply lawful_weaken; [apply (law_keypair recall_ok recall_setup F HF)|done|]. intros a tr Ht. split; [done|]. congruence.
Qed.
Lemma law_signer F : Mono F → law F (createSigner w config) (λ _, F).
Proof.
  intros HF. unfold createSigner. destruct (c_walletSigner config); [by apply lawful_ret|].
  by apply (law_keypair recall_ok recall_setup F HF).
Qed.

Lemma law_decrypt_blobs hits ps : ps ≠ [] →
  law (λ tr, searched hits tr ∧ picked (own_blob tr) hits ps) (decrypt_blobs w config decode_text ps) recall_result.
Proof.
  intros Hne. unfold decrypt_blobs. set (F := λ tr, searched hits tr ∧ picked (own_blob tr) hits ps).
  assert (HF : Mono F) by apply _.
  assert (Hhit : ∀ p tr, p ∈ ps → F tr → hit_blob p tr).
  { intros p tr Hp [Hs Hpk]. destruct (picked_elem _ _ _ _ Hpk Hp) as (hit & ? & ?). by exists hits, hit. }
  eapply lawful_bind; [by apply law_address|]. intros addr. cbv beta.
  apply (lawful_know trace (λ e : sdk_error, e) t0 recall_ok (∀ b, c_walletSigner config = Some b → addr = b)); [by intros tr [_ ?]|].
  intros Haddr. apply lawful_weaken with (F' := F) (G' := recall_result); [|by intros tr [? _]|done].
  eapply lawful_bind; [by apply law_signer|]. intros signer. cbv beta.
  eapply lawful_bind.
  { apply law_settle_attempt; [done|apply grows_ask|]. apply law_call; [done|]. intros tr Ht. right. split_and!; try done.
    destruct ps as [|p ps']; [done|]. exists p. apply Hhit; [by left|done]. }
  intros [e|session]; cbv beta iota; [apply law_nothing|].
  eapply lawful_bind.
  { eapply lawful_weaken; [apply law_decrypt_all with (F := λ tr, F tr ∧ session_open session tr); [apply _| |by intros tr [_ ?]]| |intros ms tr Hms; exact Hms].
    - intros p tr Hp [Hf _]. by apply Hhit.
    - intros tr [Hf [_ Hs]]. split; [done|]. by exists addr. }
  intros ms. apply lawful_ret. intros tr [[[Hs Hpk] _] Hms]. split; [done|]. right. exists hits. split; [done|]. simpl.
  eapply picked_impl; [|by eapply picked_trans]. intros hit m (p & ? & ?). by exists p.
Qed.

Lemma law_open F : Mono F → law F (open_clients w config) (λ _, F).
Proof.
  intros HF. unfold open_clients. eapply lawful_bind; [by apply (law_seal recall_ok recall_setup)|intros ?; cbv beta].
  eapply lawful_bind; [by apply (law_sui recall_ok recall_setup)|intros ?; cbv beta].
  do 3 (eapply lawful_bind; [by apply (law_import recall_ok recall_setup)|intros ?; cbv beta]). by apply lawful_ret.
Qed.

Lemma law_recall_hits hits : law (searched hits) (recall_hits w config decode_text parse_object hits) recall_result.
Proof.
  unfold recall_hits. eapply lawful_bind.
  { apply law_downloads; [apply _|]. intros hit tr Hh Hs. by exists hits. }
  intros rs. apply law_known. intros found Hfound. cbv beta zeta.
  apply lawful_weaken with (F' := λ tr, searched hits tr ∧ picked (blob_of tr) hits (omap id found)) (G' := recall_result);
    [|intros tr [? Hrs]; split; [done|by eapply all_of_picked]|done].
  case_bool_decide; [apply law_nothing|].
  eapply lawful_bind; [apply law_settle_attempt; [apply _|apply grows_open|by apply law_open; apply _]|].
  intros [e|[]]; cbv beta iota; [apply law_nothing|]. case_bool_decide; [apply law_nothing|].
  eapply lawful_weaken; [by apply (law_decrypt_blobs hits)| |done].
  intros tr [[Hs Hpk] _]. split; [done|]. eapply picked_omap; [|exact Hpk]. intros hit b p. apply parse_blob_own.
Qed.

Lemma law_recall : query ≠ empty_str →
  law (λ _, True) (recallManual w config sha256 ed_sign ed_public fraction decode_text parse_object query options) recall_result.
Proof.
  intros Hq. unfold recallManual. replace (is_empty query) with false by (symmetry; by apply seqb_neq). cbv zeta beta iota.
  eapply lawful_bind; [apply (law_embed recall_ok (λ _, True)); [apply _|]; intros tr _; right; by left|]. intros vector. cbv beta.
  eapply lawful_bind; [apply law_signed; [apply recall_setup|apply _|]|].
  { intros tr r [_ Hv] Hr. right. right. left. by exists vector. }
  intros v. apply law_known. intros [hits|] Hh; [|apply law_nothing].
  eapply lawful_weaken; [apply law_recall_hits| |done]. intros tr [[_ Hv] Hr]. by exists vector, v.
Qed.
End Recall.

(** ** Restore *)
Section Restore.
Context (ns : string) (limit : json).
Definition restore_body : json := JObj [("namespace", JStr ns); ("limit", limit)].
Definition restore_ok (tr : list call) (ev : call) : Prop :=
  setup_call ev ∨ ∃ r, ev = CHttp r ∧ signed "POST" "/api/restore" restore_body r.
Lemma law_restore : lawful trace (λ e : sdk_error, e) t0 restore_ok (λ _, True)
  (restore w config sha256 ed_sign ed_public fraction ns limit)
  (λ v tr, ∃ u, relayer_answered "POST" "/api/restore" restore_body u tr ∧ with_truncated u = inr v).
Proof.
  unfold restore. eapply lawful_bind; [apply law_signed; [by left|apply _|]; intros tr r _ Hr; right; by exists r|].
  intros u. cbv beta. eapply lawful_weaken; [apply law_sdk_sum|intros ? Ht; exact Ht|]. intros v tr [[_ Hu] Hv]. by exists u.
Qed.
End Restore.
End Calls.

(** ** State invariants of the methods *)
(** Calls other than the signed requests and the session. *)
Definition plain_call (c : call) : Prop :=
  match c with
  | CHttp r => assoc "x-signature" (h_headers r) = None
  | CSession _ _ _ => False
  | _ => True
  end.

Section SignedInvariant.
Context (I : manual → Prop) (allowed : call → Prop).
Context (I_emit : ∀ c s, allowed c → I s → I (emit c s)) (I_metadata : ∀ m s, I s → I (set_metadata m s))
        (I_public : ∀ s, I s → I (set_publicKey (ed_public (delegatePrivateKey s)) s)).
Context (allowed_plain : ∀ c, plain_call c → allowed c).
Context (allowed_signed : ∀ s s' publicKey now nonce method path body, I s → I s' → delegatePublicKey s' = Some publicKey →
  allowed (CHttp (signed_http config sha256 ed_sign (delegatePrivateKey s) publicKey now nonce method path
    (json_stringify fraction body)))).

Lemma kept_ask {V} (answer : list call → sdk_error + V) c : allowed c → invariant I (ask answer c).
Proof. intros Hc s Hs. unfold ask. pose proof (I_emit c s Hc Hs) as Hs'. by destruct (answer _). Qed.
Lemma kept_sum {A} (r : sdk_error + A) : invariant I (of_sum r).
Proof. destruct r; [apply invariant_throw|apply invariant_ret]. Qed.
Lemma kept_compatible : invariant I (ensureCompatibleRelayer w config).
Proof.
  unfold ensureCompatibleRelayer, fetchCompatibilityMetadata, get_url, fetch.
  repeat first [ apply kept_ask, allowed_plain; done | apply invariant_ret | apply invariant_throw | apply invariant_gets
    | apply kept_sum | apply triple_modify; by auto | apply invariant_bind; [|intros ?] | case_match ].
Qed.
Lemma kept_public_key : triple I (getDelegatePublicKey w ed_public) (λ pk s, I s ∧ delegatePublicKey s = Some pk) (λ _, I).
Proof.
  intros s Hs. unfold getDelegatePublicKey, import_module, ask, modify, gets, mbind, st_bind, mret, st_ret.
  destruct (delegatePublicKey s) as [pk|] eqn:E; [done|].
  pose proof (I_emit (CImport "@noble/ed25519") s (allowed_plain (CImport "@noble/ed25519") Logic.I) Hs) as Hs'.
  destruct (wd_import w _); [exact Hs'|]. split; [exact (I_public _ Hs')|done].
Qed.
Lemma kept_signed method path body : invariant I (signedRequest w config sha256 ed_sign ed_public fraction method path body).
Proof.
  unfold signedRequest. apply invariant_bind; [apply kept_compatible|intros v].
  apply invariant_bind; [by apply kept_ask, allowed_plain|intros u].
  apply invariant_bind; [intros s Hs; exact (I_emit CNow s (allowed_plain CNow Logic.I) Hs)|intros now].
  apply invariant_bind; [intros s Hs; exact (I_emit CUuid s (allowed_plain CUuid Logic.I) Hs)|intros nonce].
  apply triple_read; intros s Hs. eapply triple_bind; [apply kept_public_key|]. intros pk.
  eapply triple_bind with (M := λ _ s', I s'); [|intros resp; case_match; [apply invariant_throw|apply kept_sum]].
  intros s' [Hs' Hpk]. apply kept_ask; [by eapply allowed_signed|done].
Qed.
End SignedInvariant.

Section Invariants.
Context (I : manual → Prop) (allowed : call → Prop).
Context (I_emit : ∀ c s, allowed c → I s → I (emit c s)) (I_sui : ∀ c s, I s → I (set_suiClient c s))
        (I_seal : ∀ c s, I s → I (set_sealClient c s)) (I_keypair : ∀ a s, I s → I (set_keypair a s)).
Context (I_signed : ∀ method path body,
  invariant I (signedRequest w config sha256 ed_sign ed_public fraction method path body)).
Context (allowed_plain : ∀ c, plain_call c → allowed c).

Lemma inv_ask {V} (answer : list call → sdk_error + V) c : allowed c → invariant I (ask answer c).
Proof. intros Hc s Hs. unfold ask. pose proof (I_emit c s Hc Hs) as Hs'. by destruct (answer _). Qed.
Lemma inv_set (f : manual → manual) : (∀ s, I s → I (f s)) → invariant I (modify f : M unit).
Proof. intros Hf. by apply triple_modify. Qed.
Lemma inv_sum {A} (r : sdk_error + A) : invariant I (of_sum r).
Proof. destruct r; [apply invariant_throw|apply invariant_ret]. Qed.
Lemma inv_attempt {A} (m : M A) : invariant I m → invariant I (attempt m).
Proof. intros Hm. apply invariant_catch; [apply invariant_bind; [done|intros a; apply invariant_ret]|intros e; apply invariant_ret]. Qed.
Ltac keeps := repeat first
  [ apply I_signed | apply inv_ask, allowed_plain; done | apply invariant_ret | apply invariant_throw | apply invariant_gets | apply inv_sum
  | apply inv_set; auto | apply inv_attempt | apply invariant_bind; [|intros ?] | case_match ].

Lemma inv_sui : invariant I (getSuiClient w config).
Proof. unfold getSuiClient, import_module. keeps. Qed.
Lemma inv_getKeypair : invariant I (getKeypair w config).
Proof. unfold getKeypair, import_module. keeps. Qed.
Lemma inv_seal : invariant I (getSealClient w config).
Proof. unfold getSealClient, import_module. keeps. Qed.
Lemma inv_embed text : invariant I (embed w config fraction text).
Proof. unfold embed, fetch. keeps. Qed.
Lemma inv_encrypt data ns : invariant I (sealEncrypt w config data ns).
Proof. unfold sealEncrypt, fetchSealIdentity. keeps. Qed.
Lemma inv_remember text ns : invariant I (rememberManual w config sha256 ed_sign ed_public fraction btoa text ns).
Proof. unfold rememberManual. keeps; apply inv_embed. Qed.
Lemma inv_restore ns limit : invariant I (restore w config sha256 ed_sign ed_public fraction ns limit).
Proof. unfold restore. keeps. Qed.

Lemma inv_download hit : invariant I (download w config hit).
Proof.
  unfold download, walrusDownload, fetch. destruct (prop _ _); [apply invariant_throw|].
  apply invariant_catch; [|intros e]; keeps.
Qed.
Lemma inv_settle_all {A B} (f : A → M B) l : (∀ x, invariant I (f x)) → invariant I (settle_all f l).
Proof. intros Hf. induction l as [|x l IH]; simpl; keeps; auto. Qed.
Lemma inv_decrypt_all session ps : invariant I (decrypt_all w config decode_text session ps).
Proof. induction ps as [|p ps IH]; simpl; [keeps|]. unfold decrypt_blob at 1. keeps; done. Qed.
Lemma inv_open : invariant I (open_clients w config).
Proof. unfold open_clients, import_module. keeps. Qed.
Lemma inv_address : invariant I (getSignerAddress w config).
Proof. unfold getSignerAddress. keeps; apply inv_getKeypair. Qed.
Lemma inv_signer : invariant I (createSigner w config).
Proof. unfold createSigner. keeps; apply inv_getKeypair. Qed.

(** Only the session is left open. *)
Lemma reaches_recall Q query options : (∀ s, I s → Q s) →
  (∀ ps, reaches I Q (decrypt_blobs w config decode_text ps)) →
  reaches I Q (recallManual w config sha256 ed_sign ed_public fraction decode_text parse_object query options).
Proof.
  intros HQ Hd. unfold recallManual. case_match; [by apply reaches_invariant; [|keeps]|].
  apply reaches_bind; [done|apply inv_embed|intros vector].
  apply reaches_bind; [done|apply I_signed|intros v]. apply reaches_bind; [done|apply inv_sum|intros [hits|]];
    [|by apply reaches_invariant; [|keeps]].
  unfold recall_hits. apply reaches_bind; [done|apply inv_settle_all, inv_download|intros rs].
  apply reaches_bind; [done|apply inv_sum|intros found]. cbv zeta.
  case_bool_decide; [by apply reaches_invariant; [|keeps]|].
  apply reaches_bind; [done|apply inv_attempt, inv_open|intros [e|u]]; [by apply reaches_invariant; [|keeps]|].
  case_bool_decide; [by apply reaches_invariant; [|keeps]|]. apply Hd.
Qed.
End Invariants.

(** ** Theorems *)
Section Theorems.
Local Abbreviation remember := (rememberManual w config sha256 ed_sign ed_public fraction btoa).
Local Abbreviation recall := (recallManual w config sha256 ed_sign ed_public fraction decode_text parse_object).
Local Abbreviation restore := (restore w config sha256 ed_sign ed_public fraction).

(** C12: a memory leaves for the relayer only as a ciphertext: of the text just
    given, under the identity of its namespace, the owner and the rotation
    counter that the chain has shown during this very call, with the vector the
    model service returned for the text; besides, only the model service is
    sent the text. *)
Theorem remember_private (s : manual) (text : string) (ns : option string) :
  let t0 := trace s in
  let n := default (namespace config) ns in
  let '(s', r) := remember text ns s in
  ∃ new, trace s' = t0 ++ new ∧ all_ok (remember_ok t0 text n) t0 new ∧
    match r with inr v => remembered t0 text n v (t0 ++ new) | inl _ => True end.
Proof.
  cbv zeta. destruct (decide (text = empty_str)) as [->|Ht].
  { exists []. by rewrite app_nil_r. }
  pose proof (lawful_run trace (λ e : sdk_error, e) (trace s) _ _ _ s (law_remember (trace s) text (default (namespace config) ns) Ht) eq_refl) as Hr.
  change (remember text ns) with (remember text (Some (default (namespace config) ns))).
  destruct (remember text (Some _) s) as [s' r]. destruct Hr as (new & E & Ha & Hv). exists new.
  split; [exact E|]. split; [exact Ha|]. by destruct r.
Qed.

(** A recall downloads, opens and decrypts only what its own search found:
    keys are asked for one ciphertext at a time, of the configured package,
    with the transaction that approves its id under the policy package; the
    memories returned are the decrypted contents of hits, in the order of the
    search, and [total] counts them. *)
Theorem recall_results_own (s : manual) (query : string) (options : MemWalManualRecallOptions) :
  let t0 := trace s in
  let '(s', r) := recall query options s in
  ∃ new, trace s' = t0 ++ new ∧ all_ok (recall_ok t0 query options) t0 new ∧
    match r with inr res => recall_result t0 query options res (t0 ++ new) | inl _ => True end.
Proof.
  cbv zeta. destruct (decide (query = empty_str)) as [->|Hq].
  { exists []. by rewrite app_nil_r. }
  pose proof (lawful_run trace (λ e : sdk_error, e) (trace s) _ _ _ s (law_recall (trace s) query options Hq) eq_refl) as Hr.
  destruct (recall query options s) as [s' r]. destruct Hr as (new & E & Ha & Hv). exists new.
  split; [exact E|]. split; [exact Ha|]. by destruct r.
Qed.

Theorem restore_answered (s : manual) (ns : string) (limit : json) :
  let t0 := trace s in
  let '(s', r) := restore ns limit s in
  ∃ new, trace s' = t0 ++ new ∧ all_ok (restore_ok ns limit) t0 new ∧
    match r with
    | inr v => ∃ u, relayer_answered t0 "POST" "/api/restore" (restore_body ns limit) u (t0 ++ new) ∧ with_truncated u = inr v
    | inl _ => True
    end.
Proof.
  cbv zeta. pose proof (lawful_run trace (λ e : sdk_error, e) (trace s) _ _ _ s (law_restore (trace s) ns limit) eq_refl) as Hr.
  destruct (restore ns limit s) as [s' r]. destruct Hr as (new & E & Ha & Hv). exists new.
  split; [exact E|]. split; [exact Ha|]. by destruct r.
Qed.

(** *** Signatures *)
Definition signed_right (key : list byte) (c : call) : Prop :=
  match c with
  | CHttp r => is_Some (assoc "x-signature" (h_headers r)) → ∃ method path body, signed_with key (ed_public key) method path body r
  | _ => True
  end.
(** The client of a key, and what it has sent since [t0]. *)
Definition client_of (key : list byte) (t0 : list call) (s : manual) : Prop :=
  delegatePrivateKey s = key ∧ (∀ pk, delegatePublicKey s = Some pk → pk = ed_public key) ∧
  ∃ new, trace s = t0 ++ new ∧ Forall (signed_right key) new.
Lemma client_emit key t0 c s : signed_right key c → client_of key t0 s → client_of key t0 (emit c s).
Proof.
  intros Hc (Hk & Hp & new & E & Hn). split; [done|]. split; [done|]. exists (new ++ [c]). cbn.
  rewrite E, app_assoc. split; [done|]. apply Forall_app. by split; [|constructor].
Qed.
Lemma plain_signed key c : plain_call c → signed_right key c.
Proof. destruct c; cbn; try done. intros -> [? ?]. done. Qed.
Lemma client_signed key t0 method path body :
  invariant (client_of key t0) (signedRequest w config sha256 ed_sign ed_public fraction method path body).
Proof.
  apply (kept_signed _ (signed_right key)); [intros c s; apply client_emit|done| |apply plain_signed|].
  - intros s (Hk & _ & Hn). split; [done|]. split; [|done]. cbn. by intros pk [= <-]; rewrite Hk.
  - intros s s' pk now nonce m p b (Hk & _) (_ & Hp & _) E _. rewrite Hk, (Hp pk E). by exists m, p, b, now, nonce.
Qed.

(** Every request to the relayer that carries a signature is signed with the
    client's delegate key over its own method, path and body, names the key's
    public half and the configured account. *)
Theorem manual_requests_signed (key : list byte) (t0 : list call) (text query ns : string) (o : option string)
    (options : MemWalManualRecallOptions) (limit : json) :
  invariant (client_of key t0) (remember text o) ∧ invariant (client_of key t0) (recall query options) ∧
  invariant (client_of key t0) (restore ns limit).
Proof.
  pose proof (client_emit key t0) as He. pose proof (client_signed key t0) as Hs. pose proof (plain_signed key) as Hp.
  split_and!.
  - apply inv_remember with (allowed := signed_right key); done.
  - apply reaches_recall with (allowed := signed_right key); try done. intros ps. unfold decrypt_blobs.
    apply reaches_bind; [done|apply inv_address with (allowed := signed_right key); done|intros a].
    apply reaches_bind; [done|apply inv_signer with (allowed := signed_right key); done|intros g].
    apply reaches_bind; [done|apply inv_attempt, inv_ask with (allowed := signed_right key); done|intros [e|session]];
      [apply invariant_ret|].
    apply invariant_bind; [apply inv_decrypt_all with (allowed := signed_right key); done|intros r; apply invariant_ret].
  - by apply inv_restore.
Qed.

(** *** Sessions *)
Definition is_session (c : call) : bool := match c with CSession _ _ _ => true | _ => false end.
Definition sessions (tr : list call) : nat := length (filter (λ c, is_session c = true) tr).
Definition sessions_are (n : nat) (s : manual) : Prop := sessions (trace s) = n.
Lemma sessions_emit n c s : is_session c = false → sessions_are n s → sessions_are n (emit c s).
Proof.
  unfold sessions_are, sessions. cbn. intros Hc <-. rewrite filter_app, length_app, filter_cons_False; [simpl; lia|].
  by rewrite Hc.
Qed.
Lemma plain_not_session c : plain_call c → is_session c = false.
Proof. by destruct c. Qed.
Lemma sessions_signed n method path body :
  invariant (sessions_are n) (signedRequest w config sha256 ed_sign ed_public fraction method path body).
Proof.
  apply (kept_signed _ (λ c, is_session c = false)); [intros c s; apply sessions_emit|done|done|apply plain_not_session|done].
Qed.

(** A recall creates at most one session, whatever it decrypts: one
    signature of the wallet. *)
Theorem recall_one_session (s : manual) (query : string) (options : MemWalManualRecallOptions) :
  (sessions (trace (recall query options s).1) <= S (sessions (trace s)))%nat.
Proof.
  set (n := sessions (trace s)). pose proof (sessions_emit n) as He. pose proof (sessions_signed n) as Hs.
  pose proof plain_not_session as Hp. set (Q := λ s, (sessions (trace s) <= S n)%nat).
  assert (HQ : ∀ s, sessions_are n s → Q s) by (unfold sessions_are, Q; lia).
  assert (HQ' : ∀ s, sessions_are (S n) s → Q s) by (unfold sessions_are, Q; lia).
  enough (reaches (sessions_are n) Q (recall query options)) as Hr.
  { specialize (Hr s eq_refl). destruct (recall query options s) as [s' [e|r]]; exact Hr. }
  apply reaches_recall with (allowed := λ c, is_session c = false); try done. intros ps. unfold decrypt_blobs.
  apply reaches_bind; [done|apply inv_address with (allowed := λ c, is_session c = false); done|intros a].
  apply reaches_bind; [done|apply inv_signer with (allowed := λ c, is_session c = false); done|intros g].
  eapply triple_bind with (M := λ _, sessions_are (S n)).
  { intros s1 Hs1. unfold attempt, try_catch, ask, mbind, st_bind.
    assert (sessions_are (S n) (emit (CSession a (c_packageId config) SESSION_TTL_MIN) s1)).
    { unfold sessions_are, sessions in *. cbn. rewrite filter_app, length_app, Hs1. simpl. lia. }
    by destruct (wd_session w _). }
  pose proof (sessions_emit (S n)) as He'. pose proof (sessions_signed (S n)) as Hs'.
  intros [e|session]; (apply reaches_invariant; [done|]); [apply invariant_ret|].
  apply invariant_bind; [apply inv_decrypt_all with (allowed := λ c, is_session c = false); done|intros r; apply invariant_ret].
Qed.
End Theorems.
End Safety.

(** ** Identities and thresholds *)
Lemma fetched_owner_length pkg res i : SealId.fetchSealIdentity pkg res = inr i → slen i.1 = 64%nat.
Proof.
  unfold SealId.fetchSealIdentity. cbv zeta. rewrite !ensure_inr. intros (_ & _ & Hi).
  destruct (jget "owner" _) as [| | | |owner| |]; try done. rewrite !ensure_inr in Hi. destruct Hi as (Hhex & _ & Hi).
  destruct (to_bigint _) as [counter|]; [|done]. injection Hi as <-. simpl.
  unfold SealId.is_hex64 in Hhex. apply andb_true_iff in Hhex as [_ Hle]. apply Nat.leb_le in Hle. unfold lower, smap.
  rewrite slen_of_chars, length_map, chars_of_chars. unfold pad64. rewrite length_app, length_replicate, length_chars. lia.
Qed.
Lemma bytesToHex_inj l1 l2 : bytesToHex l1 = bytesToHex l2 → l1 = l2.
Proof.
  intros E. apply (f_equal (λ s, hex_pairs (chars s))) in E. unfold bytesToHex in E.
  by rewrite !chars_of_chars, !hex_pairs_flat_map in E.
Qed.
Lemma scoped_id_parts ns i id : scoped_id ns i = inr id →
  (0 <= i.2 < 2 ^ 64) ∧ id = (bytesToHex (utf8 ns) +:+ i.1) +:+ bytesToHex (map (le_byte i.2) (seq 0 8)).
Proof.
  unfold scoped_id, sealScopedId. pose proof (u64ToLeHex_range i.2) as Hr.
  destruct (u64ToLeHex i.2) as [|h] eqn:E; [done|]. intros [= <-]. destruct (Hr h eq_refl) as [Hc _].
  rewrite u64ToLeHex_bytes in E by done. injection E as <-. split; [done|]. by rewrite sapp_assoc.
Qed.

(** Two memories share a key id only if they share the namespace, the owner
    and the rotation counter read from the chain: a key granted before a
    rotation opens nothing written after it, and no namespace shares a key
    with another. *)
Theorem manual_ids_injective (pkg ns1 ns2 id : string) (res1 res2 : json) (i1 i2 : string * Z) :
  SealId.fetchSealIdentity pkg res1 = inr i1 → SealId.fetchSealIdentity pkg res2 = inr i2 →
  scoped_id ns1 i1 = inr id → scoped_id ns2 i2 = inr id → ns1 = ns2 ∧ i1 = i2.
Proof.
  intros H1%fetched_owner_length H2%fetched_owner_length [Hc1 E1]%scoped_id_parts [Hc2 E2]%scoped_id_parts.
  rewrite E1 in E2. pose proof (f_equal slen E2) as El. rewrite !slen_app, !slen_bytesToHex, !length_map, !length_seq in El.
  apply sapp_inj_l in E2 as [E2 Ec]; [|rewrite !slen_app, !slen_bytesToHex; lia].
  apply sapp_inj_l in E2 as [En Eo]; [|rewrite !slen_bytesToHex; lia].
  split; [by apply utf8_inj, bytesToHex_inj|]. destruct i1 as [o1 c1], i2 as [o2 c2]. simpl in *. f_equal; [done|].
  by apply bytes_le_inj.
Qed.

Lemma normalized_weight index configs rs r : normalize_from index configs = inr rs → r ∈ rs → 1 <= rs_weight r.
Proof.
  revert index rs. induction configs as [|c configs IH]; intros index rs Hn Hr; simpl in Hn; simplify_eq.
  { by apply elem_of_nil in Hr. }
  destruct (normalizeSealServerConfig index c) as [|r'] eqn:E; [done|].
  destruct (normalize_from (S index) configs) as [|rs'] eqn:En; simplify_eq.
  apply elem_of_cons in Hr as [->|Hr]; [|by eapply IH]. unfold normalizeSealServerConfig in E.
  destruct (trimmed _); [|done]. destruct (positive_integer _) as [weight|] eqn:Ew; [|done].
  assert (1 <= weight).
  { unfold positive_integer in Ew. destruct (_ && _) eqn:Eb; simplify_eq. apply andb_true_iff in Eb as [_ Eb]. by apply Z.leb_le in Eb. }
  repeat case_match; by simplify_eq.
Qed.
Lemma total_weight_acc rs acc : (∀ r, r ∈ rs → 1 <= rs_weight r) →
  acc + Z.of_nat (length rs) <= foldl (λ sum c, sum + rs_weight c) acc rs.
Proof.
  revert acc. induction rs as [|r rs IH]; intros acc Hr; simpl; [lia|].
  pose proof (Hr r ltac:(by left)). specialize (IH (acc + rs_weight r) ltac:(intros; apply Hr; by right)). lia.
Qed.
Lemma resolved_normalized config net rs : resolveSealServerConfigs config net = inr rs → ∃ configs, normalize_from 0 configs = inr rs.
Proof. unfold resolveSealServerConfigs, normalizeSealServerConfigs. intros. repeat case_match; eauto. Qed.

(** The default threshold is met: it is at least one, at most two, and never
    above the total weight of the servers a client was created for. *)
Theorem default_threshold_met (config : MemWalManualConfig) (rs : list ResolvedSealServerConfig) :
  c_sealThreshold config = None → resolveSealServerConfigs config (network config) = inr rs → rs ≠ [] →
  ∃ t, sealThreshold config = inr (inject_Z t) ∧ 1 <= t <= 2 ∧ t <= sealServerConfigTotalWeight rs ∧
    Z.of_nat (length rs) <= sealServerConfigTotalWeight rs.
Proof.
  intros Ht Hr Hne. unfold sealThreshold. rewrite Ht, Hr. destruct (resolved_normalized _ _ _ Hr) as [configs Hc].
  pose proof (total_weight_acc rs 0 (λ r, normalized_weight 0 configs rs r Hc)) as Hw.
  change (foldl _ 0 rs) with (sealServerConfigTotalWeight rs) in Hw.
  assert (0 < Z.of_nat (length rs)) by (destruct rs; simpl in *; [done|lia]).
  destruct (0 <? sealServerConfigTotalWeight rs) eqn:E; [|apply Z.ltb_ge in E; lia].
  eexists. split; [done|]. lia.
Qed.
