(* ===== verification/SealRoutes.v ===== *)
(** * The SEAL routes of the sidecar (routes/seal.ts)

    [POST /seal/encrypt] and its migration and legacy variants,
    [POST /seal/decrypt] and [POST /seal/decrypt-batch].  Encryption, session
    keys, transaction building and key fetching are calls to the outside
    ([sevent]); the pure helpers of the SDKs are the record [seal_sdk].
    [resolveSessionKey] returns what the SDK returned for the session.

    Texts that the code does not check to be strings ([accountId], [owner]
    and [packageId] of an encryption) are read as texts. *)
From Stdlib Require Import QArith Ascii.
From S2P Require Import Prelude JsText JsNumber JsonParse Hex Base64 SealId SealConfig Config Retry Service.
From S2P Require Import Query Metadata.
From S2P Require Enoki.
Import Hex.Hex.
Local Open Scope Z_scope.

(** What the handlers use of the SDKs and of the runtime. *)
Record seal_sdk : Type := SealSdk {
  EncryptedObject_parse : list ascii → js_error + (string * string);   (** package and id *)
  getPackageId : json → string;                                        (** of a session *)
  decodeSuiPrivateKey : string → js_error + list ascii;
  keypair_address : list ascii → js_error + string;                    (** [fromSecretKey], [toSuiAddress] *)
  bcs_error : Z → js_error;
  buffer_from_other : json → js_error + list ascii;                    (** [Buffer.from(v)], [v] no string *)
}.

(** The SEAL part of the configuration, and [SealRoutePolicy]. *)
Record seal_config : Type := SealRouteConfig {
  sc_policy : seal_policy;
  sc_migration : bool;               (** [enableMigrationSealRoute] *)
  sc_legacy_seed : bool;             (** [SIDECAR_ENABLE_LEGACY_SEED_ROUTE] *)
  sc_require_committee : bool;       (** [SEAL_REQUIRE_COMMITTEE_IDENTITY] *)
  sc_committee : SealConfig.SealCommitteeIdentity;
  sc_threshold : Z;
  sc_timeout : Z;                    (** [SEAL_KEY_SERVER_TIMEOUT_MS] *)
}.

Inductive seal_route : Type :=
| Encrypt (purpose : SealEncryptPurpose)
| Decrypt
| DecryptBatch.

(** The headers that carry a credential. *)
Record seal_headers : Type := SealHeaders {
  x_seal_session : option string;
  x_delegate_key : option string;
}.

Definition flag_text (e : Config.env) (name : string) : string := lower (trim (Config.str_or (e name) empty_str)).
Definition SEAL_REQUIRE_COMMITTEE_IDENTITY (e : Config.env) : bool :=
  let raw := flag_text e "SEAL_REQUIRE_COMMITTEE_IDENTITY" in
  seqb raw "1" || seqb raw "true" || seqb raw "yes" || seqb raw "on".
Definition SIDECAR_ENABLE_LEGACY_SEED_ROUTE (e : Config.env) : bool :=
  let raw := flag_text e "SIDECAR_ENABLE_LEGACY_SEED_ROUTE" in
  seqb raw "1" || seqb raw "true" || seqb raw "yes".

Definition sealKeyFetchErrorCode (err : js_error) : string :=
  if isRetryableRpcError err then "SHARED_SERVICE_UNAVAILABLE" else "KEY_FETCH_FAILED".

(** [const { first, ... } = req.body] *)
Definition destructured (first : string) (body : json) : js_error + unit :=
  guard_or negb (is_nullish body)
    else js_type_error ("Cannot destructure property '" +:+ first +:+ "' of 'req.body' as it is " +:+ js_string body +:+ ".");
  inr tt.

(** [Buffer.toString("utf8")]; a code unit of 256 or more, and the
    replacement character, are written as [?]. *)
Fixpoint utf8_text (l : list ascii) : list ascii :=
  match l with
  | [] => []
  | c :: l' =>
      if (code c <? 128)%N then c :: utf8_text l'
      else match l' with
           | d :: l'' => if in_range 194 195 c && in_range 128 191 d
                         then ascii_of_N (code d + 64 * (code c - 194))%N :: utf8_text l''
                         else "?"%char :: utf8_text l'
           | [] => ["?"%char]
           end
  end.

(** The status and the body of [sealEncryptCommitteeFailure]. *)
Definition committee_refusal (cfg : seal_config) (expected : json) : option response :=
  match SealConfig.sealEncryptCommitteeFailure expected (sc_require_committee cfg) (sc_committee cfg) with
  | None => None
  | Some status =>
      Some (if is_undefined expected
            then refuse status ("Missing required field: expectedSealCommitteeIdentity " +:+
                   "(required because SEAL_REQUIRE_COMMITTEE_IDENTITY=true)")
            else Resp status (JObj
              [("error", JStr "Seal encryption committee does not match the migration intent");
               ("code", JStr "SEAL_COMMITTEE_MISMATCH");
               ("actualSealCommitteeIdentity", SealConfig.identity_json (sc_committee cfg))]))
  end.

(** The thrown errors of [fetchSealEncryptIdentity]. *)
Definition identity_js (accountId pkg : string) (e : seal_identity_error) : js_error :=
  let account := "account " +:+ accountId in
  match e with
  | ReadFailed => plain_error "read failed"
  | NotMemWalAccount => plain_error ("object " +:+ accountId +:+ " is not a " +:+ pkg +:+ "::account::MemWalAccount")
  | NoOwnerField => plain_error (account +:+ " has no owner field")
  | OwnerMismatch => plain_error (account +:+ " owner does not match request owner")
  | NoActiveField => plain_error (account +:+ " has no valid active field")
  | NoQuarantineField => plain_error (account +:+ " has no valid admin_quarantined field")
  | AdminQuarantined => plain_error (account +:+ " is admin quarantined")
  | NotActive => plain_error (account +:+ " is not active")
  | NoCounter => plain_error (account +:+ " has no access_counter_version field " +:+
                   "(account predates SEAL identity rotation, or accountId is not a MemWalAccount)")
  | BadCounter => js_type_error "Cannot convert access_counter_version to a BigInt"
  end.

Section SealRoutes.
Context `{SuiSdk} (sdk : seal_sdk) (sv : service) (cfg : seal_config) (traceId freshId : string).

(** [Buffer.from(v, "base64")] *)
Definition buffer_from (v : json) : js_error + list ascii :=
  match v with JStr s => inr (from_base64 s) | _ => buffer_from_other sdk v end.

Definition sendSealFailure (operation : string) (err : js_error) : SM response := λ s,
  let phase := s_phase s in
  let shared := isRetryableRpcError err in
  (s, inr (Resp (if shared then 503 else 500) (JObj (
    [("error", JStr (operation +:+ " failed during " +:+ phase +:+ ": " +:+ formattedError err +:+
        " (traceId=" +:+ traceId +:+ ", timeoutMs=" +:+ pretty (sc_timeout cfg) +:+ ")"))] ++
    (if shared then [("code", JStr "SHARED_SERVICE_UNAVAILABLE")] else []) ++
    [("traceId", JStr traceId); ("phase", JStr phase); ("timeoutMs", jint (sc_timeout cfg));
     ("errorName", JStr (errorName err))])))).

(** The key material of [x-delegate-key]. *)
Definition delegate_secret (privateKey : string) : js_error + list ascii :=
  if starts_with "suiprivkey" privateKey then decodeSuiPrivateKey sdk privateKey
  else
    guard_or sforallb is_hex privateKey && (slen privateKey =? 64)%nat
      else plain_error "privateKey must be 64-char hex string or suiprivkey bech32";
    inr (hex_pairs (chars privateKey)).

Definition resolveSessionKey (headers : seal_headers) (packageId : string) : SM (option json) :=
  let sessionHeader := Config.str_or (x_seal_session headers) empty_str in
  let privateKey := Config.str_or (x_delegate_key headers) empty_str in
  if negb (is_empty sessionHeader) then
    match json_parse (of_chars (utf8_text (from_base64 sessionHeader))) with
    | None => s_throw Enoki.syntax_error
    | Some exported => session ← call sv (SImportSession exported); mret (Some session)
    end
  else if is_empty privateKey then mret None
  else
    secret ← s_of_sum (delegate_secret privateKey);
    address ← s_of_sum (keypair_address sdk secret);
    session ← call sv (SCreateSession address packageId 5);
    mret (Some session).

(** The parsed items (position, bytes, id) and the items refused. *)
Record batch_item : Type := BatchItem { bi_index : nat; bi_data : list ascii; bi_id : string }.
Record item_error : Type := ItemError { ie_index : nat; ie_code : string; ie_error : string }.

Definition parse_item (packageId : string) (i : nat) (item : json) : item_error + batch_item :=
  match buffer_from item with
  | inl e => inl (ItemError i "CORRUPT_CIPHERTEXT" ("parse failed: " +:+ errorMessage e))
  | inr data =>
      match EncryptedObject_parse sdk data with
      | inl e => inl (ItemError i "CORRUPT_CIPHERTEXT" ("parse failed: " +:+ errorMessage e))
      | inr (pkg, id) =>
          guard_or seqb (normalizeSuiAddress pkg) (normalizeSuiAddress packageId)
            else ItemError i "CORRUPT_CIPHERTEXT" "Ciphertext packageId does not match request packageId";
          inr (BatchItem i data id)
      end
  end.
Fixpoint parseSealDecryptBatchItems (packageId : string) (i : nat) (items : list json)
    : list batch_item * list item_error :=
  match items with
  | [] => ([], [])
  | item :: items' =>
      let '(parsedItems, errors) := parseSealDecryptBatchItems packageId (S i) items' in
      match parse_item packageId i item with
      | inl e => (parsedItems, e :: errors)
      | inr p => (p :: parsedItems, errors)
      end
  end.

Definition registry_of (body : json) : option string :=
  if truthy (jget "registryId" body) then Some (text_of (jget "registryId" body)) else None.

(** The policy transaction: an empty id has no byte pairs to match. *)
Definition buildSealApproveTxBytes (body : json) (ids : list string) : SM json :=
  if existsb is_empty ids then s_throw (js_type_error "Cannot read properties of null (reading 'map')")
  else call sv (SBuildKind (buildSealApproveTx
         (text_of (sealApprovePackageId body (sp_policyPackageId (sc_policy cfg))))
         (registry_of body) (text_of (jget "accountId" body)) ids)).

(** ** POST /seal/encrypt, /migration/seal/encrypt and /e2e/legacy/seal/encrypt *)
Definition read_identity (accountId owner packageId : string) (purpose : SealEncryptPurpose) : SM seal_identity :=
  res ← call sv (SGetObject accountId);
  match fetchSealEncryptIdentity owner packageId purpose res with
  | inl e => s_throw (identity_js accountId packageId e)
  | inr identity => mret identity
  end.
Definition encrypt_for (body : json) (purpose : SealEncryptPurpose) : SM response :=
  _ ← phase_is "read_account_identity";
  identity ← read_identity (text_of (jget "accountId" body)) (text_of (jget "owner" body))
               (text_of (jget "packageId" body)) purpose;
  _ ← phase_is "encrypt";
  plaintext ← s_of_sum (buffer_from (jget "data" body));
  id ← s_of_sum (match buildSealEncryptId (si_owner identity) (si_counter identity) with
                 | Some id => inr id
                 | None => inl (bcs_error sdk (si_counter identity))
                 end);
  result ← call sv (SSealEncrypt (sc_threshold cfg) (si_package identity) id (of_chars plaintext));
  mret (ok (JObj [("encryptedData", JStr (to_base64 (bytes_of (jget "encryptedObject" result))))])).
Definition encrypt_body (purpose : SealEncryptPurpose) (body : json) : SM response :=
  _ ← s_of_sum (destructured "data" body);
  require truthy (jget "data" body) && truthy (jget "owner" body) && truthy (jget "packageId" body) &&
          truthy (jget "accountId" body)
    else refuse 400 "Missing required fields: data, owner, packageId, accountId";
  match committee_refusal cfg (jget "expectedSealCommitteeIdentity" body) with
  | Some refused => mret refused
  | None => encrypt_for body purpose
  end.
Definition encrypt_handler (purpose : SealEncryptPurpose) (body : json) : SM response :=
  _ ← phase_is "validate";
  s_catch (encrypt_body purpose body) (sendSealFailure "seal/encrypt").

(** ** POST /seal/decrypt *)
Definition missing_credential : response :=
  refuse 400 "Missing credential: provide x-seal-session (preferred) or x-delegate-key header".
Definition decrypt_with (body session : json) : SM response :=
  let packageId := text_of (jget "packageId" body) in
  _ ← phase_is "parse";
  encryptedData ← s_of_sum (buffer_from (jget "data" body));
  parsed ← s_of_sum (EncryptedObject_parse sdk encryptedData);
  match sealIdentityPackageError packageId [parsed.1] (getPackageId sdk session) with
  | Some identityError => mret (refuse 400 identityError)
  | None =>
      _ ← phase_is "build_ptb";
      txBytes ← buildSealApproveTxBytes body [parsed.2];
      _ ← phase_is "fetch_keys";
      _ ← call sv (SFetchKeys [parsed.2] txBytes session (sc_threshold cfg));
      _ ← phase_is "decrypt";
      decrypted ← call sv (SSealDecrypt (of_chars encryptedData) session txBytes);
      mret (ok (JObj [("decryptedData", JStr (to_base64 (bytes_of decrypted)))]))
  end.
Definition decrypt_body (headers : seal_headers) (body : json) : SM response :=
  _ ← s_of_sum (destructured "data" body);
  require truthy (jget "data" body) else refuse 400 "Missing required field: data";
  match sealApproveArgsError body (sc_policy cfg) with
  | Some argsError => mret (refuse 400 argsError)
  | None =>
      _ ← phase_is "resolve_session";
      sessionKey ← resolveSessionKey headers (normalizeSuiAddress (text_of (jget "packageId" body)));
      match sessionKey with
      | None => mret missing_credential
      | Some session => decrypt_with body session
      end
  end.
Definition decrypt_handler (headers : seal_headers) (body : json) : SM response :=
  _ ← phase_is "validate";
  s_catch (decrypt_body headers body) (sendSealFailure "seal/decrypt").

(** ** POST /seal/decrypt-batch *)
Definition result_json (r : nat * string) : json :=
  JObj [("index", jint (Z.of_nat r.1)); ("decryptedData", JStr r.2)].
Definition error_json (e : item_error) : json :=
  JObj [("index", jint (Z.of_nat (ie_index e))); ("code", JStr (ie_code e)); ("error", JStr (ie_error e))].
Definition batch_answer (results : list (nat * string)) (errors : list item_error) : response :=
  ok (JObj [("results", JArr (map result_json results)); ("errors", JArr (map error_json errors))]).

Fixpoint decrypt_items (session txBytes : json) (l : list batch_item) (results : list (nat * string))
    (errors : list item_error) : SM (list (nat * string) * list item_error) :=
  match l with
  | [] => mret (results, errors)
  | item :: l' =>
      r ← s_catch (v ← call sv (SSealDecrypt (of_chars (bi_data item)) session txBytes); mret (inr v))
            (λ err, mret (inl err));
      match r with
      | inr v => decrypt_items session txBytes l' (results ++ [(bi_index item, to_base64 (bytes_of v))]) errors
      | inl err => decrypt_items session txBytes l' results
          (errors ++ [ItemError (bi_index item) "DECRYPT_FAILED" ("decrypt failed: " +:+ formattedError err)])
      end
  end.
Definition fetch_failed (err : js_error) (item : batch_item) : item_error :=
  ItemError (bi_index item) (sealKeyFetchErrorCode err)
    ("fetch_keys failed: " +:+ formattedError err +:+ " (traceId=" +:+ freshId +:+ ", timeoutMs=" +:+
     pretty (sc_timeout cfg) +:+ ")").
Definition decrypt_batch_with (body session : json) (items : list json) : SM response :=
  let packageId := text_of (jget "packageId" body) in
  match sealIdentityPackageError packageId [] (getPackageId sdk session) with
  | Some identityError => mret (refuse 400 identityError)
  | None =>
      _ ← phase_is "parse";
      let '(parsedItems, errors) := parseSealDecryptBatchItems packageId 0 items in
      match parsedItems with
      | [] => mret (batch_answer [] errors)
      | _ =>
          _ ← phase_is "build_ptb";
          let allIds := unique (map bi_id parsedItems) in
          txBytes ← buildSealApproveTxBytes body allIds;
          _ ← phase_is "fetch_keys";
          fetched ← s_catch (_ ← call sv (SFetchKeys allIds txBytes session (sc_threshold cfg)); mret None)
                      (λ err, mret (Some err));
          match fetched with
          | Some err => mret (batch_answer [] (errors ++ map (fetch_failed err) parsedItems))
          | None =>
              _ ← phase_is "decrypt";
              answers ← decrypt_items session txBytes parsedItems [] errors;
              mret (batch_answer answers.1 answers.2)
          end
      end
  end.
Definition decrypt_batch_body (headers : seal_headers) (body : json) : SM response :=
  _ ← s_of_sum (destructured "items" body);
  match jget "items" body with
  | JArr ((_ :: _) as items) =>
      require negb (25 <? length items)%nat else refuse 400 "items array exceeds maximum of 25 elements";
      match sealApproveArgsError body (sc_policy cfg) with
      | Some argsError => mret (refuse 400 argsError)
      | None =>
          _ ← phase_is "resolve_session";
          sessionKey ← resolveSessionKey headers (normalizeSuiAddress (text_of (jget "packageId" body)));
          match sessionKey with
          | None => mret missing_credential
          | Some session => decrypt_batch_with body session items
          end
      end
  | _ => mret (refuse 400 "Missing required field: items (array of base64 encrypted data)")
  end.
Definition decrypt_batch_handler (headers : seal_headers) (body : json) : SM response :=
  _ ← phase_is "validate";
  s_catch (decrypt_batch_body headers body) (sendSealFailure "seal/decrypt-batch").

(** ** The registered routes *)
Definition seal_routes : list (string * seal_route) :=
  [("/seal/encrypt", Encrypt normal)] ++
  (if sc_migration cfg then [("/migration/seal/encrypt", Encrypt migration)] else []) ++
  (if sc_legacy_seed cfg then [("/e2e/legacy/seal/encrypt", Encrypt legacy_seed)] else []) ++
  [("/seal/decrypt", Decrypt); ("/seal/decrypt-batch", DecryptBatch)].
Definition seal_handler (route : seal_route) (headers : seal_headers) (body : json) : SM response :=
  match route with
  | Encrypt purpose => encrypt_handler purpose body
  | Decrypt => decrypt_handler headers body
  | DecryptBatch => decrypt_batch_handler headers body
  end.
Definition post_seal (path : string) (headers : seal_headers) (body : json) : option (SM response) :=
  (λ route, seal_handler route headers body) <$> assoc path seal_routes.
End SealRoutes.
