(* ===== verification/SealSafety.v ===== *)
(** * Theorems about the SEAL routes (routes/seal.ts) *)
From Stdlib Require Import QArith Ascii Permutation.
From S2P Require Import Prelude JsText JsNumber JsonParse Hex Base64 SealId SealConfig Config Retry Service.
From S2P Require Import Query Metadata SideEffects Ledger SealRoutes.
From S2P Require Enoki.
Local Open Scope Z_scope.

Lemma elem_of_unique x l : x ∈ unique l ↔ x ∈ l.
Proof.
  induction l as [|y l IH]; simpl; [done|]. rewrite !elem_of_cons, list_elem_of_filter, IH.
  destruct (decide (x = y)); naive_solver.
Qed.

Section Scope.
Context `{SuiSdk} (sdk : seal_sdk) (sv : service) (cfg : seal_config) (traceId freshId : string).
Context (t0 : list sevent) (body : json).

Notation answered := (answered (sv_answer sv) t0).
Notation packageId := (text_of (jget "packageId" body)).
Notation accountId := (text_of (jget "accountId" body)).

(** The ciphertexts a request brings. *)
Definition sources (route : seal_route) : list json :=
  match route with
  | Encrypt _ => []
  | Decrypt => [jget "data" body]
  | DecryptBatch => match jget "items" body with JArr l => l | _ => [] end
  end.
(** [data] is a ciphertext of the request, of its package, with SEAL id [id]. *)
Definition ciphertext (items : list json) (data : list ascii) (id : string) : Prop :=
  ∃ item pkg, item ∈ items ∧ buffer_from sdk item = inr data ∧
    EncryptedObject_parse sdk data = inr (pkg, id) ∧ normalizeSuiAddress pkg = normalizeSuiAddress packageId.

(** The session was opened by this request, for the package of the request. *)
Definition opened (session : json) (tr : list sevent) : Prop :=
  (∃ exported, answered (SImportSession exported) session tr) ∨
  (∃ address, answered (SCreateSession address (normalizeSuiAddress packageId) 5) session tr).
Definition approval (ids : list string) : list move_call :=
  buildSealApproveTx (text_of (sealApprovePackageId body (sp_policyPackageId (sc_policy cfg))))
    (registry_of body) accountId ids.

(** What justifies a call of a route. *)
Definition scoped (route : seal_route) (tr : list sevent) (ev : sevent) : Prop :=
  match ev with
  | SGetObject _ | SImportSession _ | SCreateSession _ _ _ | SBuildKind _ => True
  | SSealEncrypt threshold pkg id data =>
      ∃ purpose res identity, route = Encrypt purpose ∧ answered (SGetObject accountId) res tr ∧
        fetchSealEncryptIdentity (text_of (jget "owner" body)) packageId purpose res = inr identity ∧
        pkg = si_package identity ∧ buildSealEncryptId (si_owner identity) (si_counter identity) = Some id ∧
        committee_refusal cfg (jget "expectedSealCommitteeIdentity" body) = None ∧
        threshold = sc_threshold cfg ∧ buffer_from sdk (jget "data" body) = inr (chars data)
  | SFetchKeys ids txBytes session threshold =>
      sealApproveArgsError body (sc_policy cfg) = None ∧ threshold = sc_threshold cfg ∧
      normalizeSuiAddress (getPackageId sdk session) = normalizeSuiAddress packageId ∧
      opened session tr ∧ answered (SBuildKind (approval ids)) txBytes tr ∧
      (∀ id, id ∈ ids → ∃ data, ciphertext (sources route) data id)
  | SSealDecrypt data session txBytes =>
      ∃ ids id v, ciphertext (sources route) (chars data) id ∧ id ∈ ids ∧
        answered (SFetchKeys ids txBytes session (sc_threshold cfg)) v tr
  | _ => False
  end.

Notation lawful route := (lawful s_trace Enoki.Thrown t0 (scoped route)).

#[local] Instance mono_opened session : Mono (opened session).
Proof.
  intros tr ev [[x Hx]|[x Hx]]; [left|right]; exists x; by apply mono_answered.
Qed.

Lemma resolve_lawful route headers : lawful route (λ _, True)
  (resolveSessionKey sdk sv headers (normalizeSuiAddress packageId))
  (λ r tr, ∀ session, r = Some session → opened session tr).
Proof.
  unfold resolveSessionKey. cbv zeta. destruct (negb _).
  - destruct (json_parse _) as [exported|]; [|apply lawful_throw].
    eapply lawful_bind; [by apply lawful_asked; [apply _|]|]. intros session. apply lawful_ret.
    intros tr [_ Ha] ? [= <-]. left. by exists exported.
  - destruct (is_empty _); [by apply lawful_ret|].
    eapply lawful_bind; [apply lawful_of_sum|]. intros secret.
    eapply lawful_bind; [apply lawful_of_sum|]. intros address.
    eapply lawful_bind; [apply lawful_asked; [apply _|done]|]. intros session. apply lawful_ret.
    intros tr [_ Ha] ? [= <-]. right. by exists address.
Qed.

(** The facts on which both decryptions rest. *)
Definition session_ready (session : json) (tr : list sevent) : Prop :=
  sealApproveArgsError body (sc_policy cfg) = None ∧
  normalizeSuiAddress (getPackageId sdk session) = normalizeSuiAddress packageId ∧ opened session tr.
#[local] Instance mono_ready session : Mono (session_ready session).
Proof. unfold session_ready. apply _. Qed.

Lemma approve_lawful route session ids : lawful route (session_ready session)
  (buildSealApproveTxBytes sv cfg body ids)
  (λ txBytes tr, session_ready session tr ∧ answered (SBuildKind (approval ids)) txBytes tr).
Proof.
  unfold buildSealApproveTxBytes. destruct (existsb _ _); [apply lawful_throw|]. by apply lawful_asked; [apply _|].
Qed.
Lemma fetch_scoped route session ids txBytes tr :
  session_ready session tr ∧ answered (SBuildKind (approval ids)) txBytes tr →
  (∀ id, id ∈ ids → ∃ data, ciphertext (sources route) data id) →
  scoped route tr (SFetchKeys ids txBytes session (sc_threshold cfg)).
Proof. intros [(Ha & Hp & Ho) Hb] Hids. by split_and!. Qed.

Lemma identity_none ids session :
  sealIdentityPackageError packageId ids (getPackageId sdk session) = None →
  normalizeSuiAddress (getPackageId sdk session) = normalizeSuiAddress packageId ∧
  ∀ pkg, pkg ∈ ids → normalizeSuiAddress pkg = normalizeSuiAddress packageId.
Proof.
  unfold sealIdentityPackageError. cbv zeta. destruct (negb _) eqn:E1; [done|].
  destruct (existsb _ _) eqn:E2; [done|]. intros _. apply negb_false_iff, seqb_eq in E1. split; [done|].
  intros pkg Hpkg. destruct (seqb (normalizeSuiAddress pkg) (normalizeSuiAddress packageId)) eqn:E; [by apply seqb_eq|].
  exfalso. eapply eq_true_false_abs; [|exact E2]. apply existsb_exists. exists pkg.
  split; [by apply list_elem_of_In|]. by rewrite E.
Qed.

(** ** Answers *)

(** An answer that carries no key material or text, and is a 503 exactly when
    it says that a shared service is unavailable. *)
Definition refusal (resp : response) : Prop :=
  r_status resp ∈ [400; 409; 500; 503] ∧
  Forall (λ k, jget k (r_body resp) = JUndefined) ["encryptedData"; "decryptedData"; "results"] ∧
  (r_status resp = 503 ↔ jget "code" (r_body resp) = JStr "SHARED_SERVICE_UNAVAILABLE").
(** Every item is answered once; a result is the decryption of its item. *)
Definition item_decrypted (items : list json) (tr : list sevent) (r : nat * string) : Prop :=
  ∃ item data id session txBytes v, items !! r.1 = Some item ∧ buffer_from sdk item = inr data ∧
    ciphertext items data id ∧ answered (SSealDecrypt (of_chars data) session txBytes) v tr ∧
    r.2 = to_base64 (bytes_of v).
Definition batch_answered (tr : list sevent) (resp : response) : Prop :=
  ∃ items results errors, jget "items" body = JArr items ∧ resp = batch_answer results errors ∧
    Permutation (results.*1 ++ map ie_index errors) (seq 0 (length items)) ∧
    ∀ r, r ∈ results → item_decrypted items tr r.
Definition success (route : seal_route) (tr : list sevent) (resp : response) : Prop :=
  match route with
  | Encrypt _ => ∃ pkg id data v, answered (SSealEncrypt (sc_threshold cfg) pkg id data) v tr ∧
      resp = ok (JObj [("encryptedData", JStr (to_base64 (bytes_of (jget "encryptedObject" v))))])
  | Decrypt => ∃ data id session txBytes v, ciphertext [jget "data" body] data id ∧
      answered (SSealDecrypt (of_chars data) session txBytes) v tr ∧
      resp = ok (JObj [("decryptedData", JStr (to_base64 (bytes_of v)))])
  | DecryptBatch => batch_answered tr resp
  end.
Definition outcome (route : seal_route) (resp : response) (tr : list sevent) : Prop :=
  refusal resp ∨ success route tr resp.

Lemma refuse_refusal message : refusal (refuse 400 message).
Proof. split_and!; [by simpl; set_solver|by repeat constructor|done]. Qed.
Lemma committee_refusal_refusal expected resp : committee_refusal cfg expected = Some resp → refusal resp.
Proof.
  unfold committee_refusal, SealConfig.sealEncryptCommitteeFailure.
  destruct (is_undefined expected); [destruct (negb _)|destruct (negb _)]; intros; simplify_eq.
  - apply refuse_refusal.
  - split_and!; [simpl; set_solver|by repeat constructor|done].
Qed.
Lemma failure_lawful route operation err : lawful route (λ _, True)
  (sendSealFailure cfg traceId operation err) (outcome route).
Proof.
  intros s [Hs _]. unfold sendSealFailure. split; [done|]. left.
  destruct (isRetryableRpcError err); (split_and!; [simpl; set_solver|by repeat constructor|done]).
Qed.
Lemma refuse_lawful route F resp : refusal resp → lawful route F (mret resp) (outcome route).
Proof. intros Hr. apply lawful_ret. intros tr _. by left. Qed.

(** ** Encryption *)
Lemma read_identity_lawful purpose F : lawful (Encrypt purpose) F
  (read_identity sv accountId (text_of (jget "owner" body)) packageId purpose)
  (λ identity tr, ∃ res, answered (SGetObject accountId) res tr ∧
    fetchSealEncryptIdentity (text_of (jget "owner" body)) packageId purpose res = inr identity).
Proof.
  eapply (lawful_weaken _ _ _ _ F (λ _, True)); [|done|intros ? ? Hx; exact Hx]. unfold read_identity.
  eapply lawful_bind; [by apply lawful_asked; [apply _|]|]. intros res.
  destruct (fetchSealEncryptIdentity _ _ _ _) as [e|identity] eqn:Ef; [apply lawful_throw|].
  apply lawful_ret. intros tr [_ Ha]. by exists res.
Qed.
Lemma encrypt_lawful purpose : lawful (Encrypt purpose) (λ _, True)
  (encrypt_handler sdk sv cfg traceId purpose body) (outcome (Encrypt purpose)).
Proof.
  unfold encrypt_handler. apply lawful_phase. intros _. eapply lawful_catch; [|apply failure_lawful].
  unfold encrypt_body. eapply lawful_bind; [apply lawful_of_sum|]. intros u.
  destruct (_ && _); [|by apply refuse_lawful, refuse_refusal].
  destruct (committee_refusal _ _) as [refused|] eqn:Ec.
  { by eapply refuse_lawful, committee_refusal_refusal. }
  unfold encrypt_for. apply lawful_phase. intros _.
  eapply lawful_bind; [apply read_identity_lawful|].
  intros identity. apply lawful_phase. intros _.
  eapply lawful_bind; [apply lawful_of_sum|]. intros plaintext.
  eapply lawful_bind; [apply lawful_of_sum|]. intros id.
  eapply lawful_bind; [apply lawful_asked; [apply _|]|].
  - intros tr [[(res & Ha & Hf) Hb] Hid]. destruct (buildSealEncryptId _ _) as [id'|] eqn:Eid; [|done].
    injection Hid as ->. exists purpose, res, identity. rewrite chars_of_chars. by split_and!.
  - intros v. apply lawful_ret. intros tr [_ Ha]. right. by exists (si_package identity), id, (of_chars plaintext), v.
Qed.

(** ** Decryption *)
Lemma decrypt_with_lawful session : lawful Decrypt
  (λ tr, sealApproveArgsError body (sc_policy cfg) = None ∧ opened session tr)
  (decrypt_with sdk sv cfg body session) (outcome Decrypt).
Proof.
  unfold decrypt_with. apply lawful_phase. intros _.
  eapply lawful_bind; [apply lawful_of_sum|]. intros data.
  eapply lawful_bind; [apply lawful_of_sum|]. intros [pkg id]. simpl.
  destruct (sealIdentityPackageError _ _ _) eqn:Ei.
  { apply refuse_lawful, refuse_refusal. }
  apply identity_none in Ei as [Hs Hp]. apply lawful_phase. intros _.
  eapply lawful_know; [intros tr [[_ Hb] Hid]; exact (conj Hb Hid)|]. intros [Hb Hid].
  assert (Hc : ciphertext (sources Decrypt) data id).
  { exists (jget "data" body), pkg. split_and!; [by apply list_elem_of_singleton|done|done|].
    apply Hp. by apply list_elem_of_singleton. }
  eapply (lawful_bind _ _ _ _ _ _ _).
  { eapply lawful_weaken; [apply (approve_lawful Decrypt session [id])| |by intros ? ? Hx].
    intros tr [[[Ha Ho] _] _]. by split_and!. }
  intros txBytes. apply lawful_phase. intros _.
  eapply lawful_bind; [apply lawful_asked; [apply _|]|].
  { intros tr Ht. apply fetch_scoped; [done|]. intros id' ->%list_elem_of_singleton. by exists data. }
  intros u. apply lawful_phase. intros _.
  eapply lawful_bind; [apply lawful_asked; [apply _|]|].
  { intros tr [_ Ha]. exists [id], id, u. rewrite chars_of_chars. split_and!; [done|by apply list_elem_of_singleton|done]. }
  intros v. apply lawful_ret. intros tr [_ Ha]. right. by exists data, id, session, txBytes, v.
Qed.

(** A request whose arguments are checked and whose session is opened. *)
Lemma session_lawful route headers first refusal' (k : json → SM response) F :
  refusal refusal' →
  (∀ session, lawful route (λ tr, sealApproveArgsError body (sc_policy cfg) = None ∧ opened session tr)
     (k session) (outcome route)) →
  lawful route F (match sealApproveArgsError body (sc_policy cfg) with
    | Some argsError => mret (refuse 400 argsError)
    | None =>
        _ ← phase_is first;
        sessionKey ← resolveSessionKey sdk sv headers (normalizeSuiAddress packageId);
        match sessionKey with None => mret refusal' | Some session => k session end
    end) (outcome route).
Proof.
  intros Hr Hk. destruct (sealApproveArgsError _ _) eqn:Ea; [apply refuse_lawful, refuse_refusal|].
  apply lawful_phase. intros _.
  eapply lawful_bind; [eapply lawful_weaken; [apply resolve_lawful|done|intros ? ? Hx; exact Hx]|].
  intros [session|]; [|by apply refuse_lawful].
  eapply lawful_weaken; [apply Hk| |intros ? ? Hx; exact Hx]. intros tr Ho. split; [done|by apply Ho].
Qed.

Lemma decrypt_lawful headers : lawful Decrypt (λ _, True)
  (decrypt_handler sdk sv cfg traceId headers body) (outcome Decrypt).
Proof.
  unfold decrypt_handler. apply lawful_phase. intros _. eapply lawful_catch; [|apply failure_lawful].
  unfold decrypt_body. eapply lawful_bind; [apply lawful_of_sum|]. intros u.
  destruct (truthy _); [|by apply refuse_lawful, refuse_refusal].
  apply session_lawful; [apply refuse_refusal|apply decrypt_with_lawful].
Qed.

(** ** Batches *)
Definition parsed_of (items : list json) (k : nat) (p : batch_item) : Prop :=
  ∃ j item pkg, items !! j = Some item ∧ bi_index p = (k + j)%nat ∧ buffer_from sdk item = inr (bi_data p) ∧
    EncryptedObject_parse sdk (bi_data p) = inr (pkg, bi_id p) ∧
    normalizeSuiAddress pkg = normalizeSuiAddress packageId.

Lemma parse_item_inr k item p : parse_item sdk packageId k item = inr p → parsed_of [item] k p.
Proof.
  unfold parse_item. destruct (buffer_from sdk item) as [e|data] eqn:Eb; [done|].
  destruct (EncryptedObject_parse sdk data) as [e|[pkg id]] eqn:Ep; [done|].
  rewrite ensure_inr. intros [E%seqb_eq [= <-]]. exists 0%nat, item, pkg. split_and!; simpl; auto.
Qed.
Lemma parse_item_inl k item e : parse_item sdk packageId k item = inl e → ie_index e = k.
Proof.
  unfold parse_item. destruct (buffer_from sdk item) as [e'|data]; [by intros [= <-]|].
  destruct (EncryptedObject_parse sdk data) as [e'|[pkg id]]; [by intros [= <-]|].
  rewrite ensure_inl. intros [[_ <-]|[_ ?]]; done.
Qed.
Lemma parsed_cons item items k p : parsed_of items (S k) p → parsed_of (item :: items) k p.
Proof. intros (j & item' & pkg & Hj & Hi & Hrest). exists (S j), item', pkg. split_and!; [done|lia|apply Hrest..]. Qed.

(** Parsing splits the positions; a parsed item is of the request's package. *)
Lemma parse_items_spec k items ps es : parseSealDecryptBatchItems sdk packageId k items = (ps, es) →
  Permutation (map bi_index ps ++ map ie_index es) (seq k (length items)) ∧ Forall (parsed_of items k) ps.
Proof.
  revert k ps es. induction items as [|item items IH]; intros k ps es; cbn [parseSealDecryptBatchItems].
  { intros [= <- <-]. by split. }
  destruct (parseSealDecryptBatchItems sdk packageId (S k) items) as [ps' es'] eqn:Er.
  destruct (IH _ _ _ Er) as [Hp Hf].
  assert (Hf' : Forall (parsed_of (item :: items) k) ps').
  { eapply Forall_impl; [exact Hf|]. intros p. apply parsed_cons. }
  destruct (parse_item sdk packageId k item) as [e|p] eqn:Ei; intros [= <- <-]; simpl.
  - apply parse_item_inl in Ei as ->. split; [|done]. by rewrite <-Permutation_middle, Hp.
  - apply parse_item_inr in Ei as (j & it & pkg & Hj & Hix & Hrest).
    destruct j as [|j]; simplify_eq/=. split; [rewrite Hix, Nat.add_0_r; by constructor|].
    constructor; [|done]. by exists 0%nat, it, pkg.
Qed.

Definition indices (acc : list (nat * string) * list item_error) : list nat := acc.1.*1 ++ map ie_index acc.2.

Lemma decrypt_items_lawful items session ids txBytes : jget "items" body = JArr items →
  ∀ l results errors, Forall (parsed_of items 0) l → (∀ p, p ∈ l → bi_id p ∈ ids) →
  lawful DecryptBatch
    (λ tr, (∃ v, answered (SFetchKeys ids txBytes session (sc_threshold cfg)) v tr) ∧
           ∀ r, r ∈ results → item_decrypted items tr r)
    (decrypt_items sv session txBytes l results errors)
    (λ acc tr, Permutation (indices acc) (indices (results, errors) ++ map bi_index l) ∧
               ∀ r, r ∈ acc.1 → item_decrypted items tr r).
Proof.
  intros Hitems. induction l as [|p l IH]; intros results errors Hl Hids; cbn [decrypt_items].
  { apply lawful_ret. intros tr [_ Hr]. split; [by rewrite app_nil_r|done]. }
  apply Forall_cons in Hl as [(j & item & pkg & Hj & Hix & Hb & Hpr & Hn) Hl]. simpl in Hix.
  assert (Hc : ciphertext items (bi_data p) (bi_id p)).
  { exists item, pkg. split_and!; try done. by apply list_elem_of_lookup_2 in Hj. }
  assert (Hids' : ∀ q, q ∈ l → bi_id q ∈ ids) by (intros q Hq; apply Hids, elem_of_cons; auto).
  eapply lawful_bind; [apply lawful_caught|].
  - intros tr ev [[v Ha] Hr]. split; [exists v; by apply mono_answered|]. intros r Hin.
    destruct (Hr r Hin) as (it & d & id & ses & tx & w & H1 & H2 & H3 & H4 & H5).
    exists it, d, id, ses, tx, w. split_and!; try done. by apply mono_answered.
  - intros tr [[v Ha] _]. exists ids, (bi_id p), v. rewrite chars_of_chars. split_and!; [|by apply Hids, elem_of_cons; left|done].
    simpl. by rewrite Hitems.
  - intros [e|w].
    + eapply lawful_weaken; [by apply IH| |].
      * intros tr [[Ha Hr] _]. done.
      * intros acc tr [Hp Hr]. split; [|done]. rewrite Hp. unfold indices. simpl. rewrite map_app, <-!app_assoc. done.
    + eapply lawful_weaken; [by apply IH| |].
      * intros tr [[Ha Hr] [(w' & [= <-] & Hd)|[e [=]]]]. split; [done|]. intros r Hin.
        apply elem_of_app in Hin as [Hin| ->%list_elem_of_singleton]; [by apply Hr|]. simpl.
        exists item, (bi_data p), (bi_id p), session, txBytes, w. rewrite Hix. by split_and!.
      * intros acc tr [Hp Hr]. split; [|done]. rewrite Hp. unfold indices. simpl. rewrite fmap_app, <-!app_assoc.
        apply Permutation_app_head. simpl. by rewrite <-Permutation_middle.
Qed.

Lemma answer_all items ps es results errors tr :
  jget "items" body = JArr items → Permutation (map bi_index ps ++ map ie_index es) (seq 0 (length items)) →
  Permutation (indices (results, errors)) (map bi_index ps ++ map ie_index es) →
  (∀ r, r ∈ results → item_decrypted items tr r) → outcome DecryptBatch (batch_answer results errors) tr.
Proof.
  intros Hi Hp Hq Hr. right. exists items, results, errors. split_and!; try done. by etrans.
Qed.

Lemma batch_with_lawful items session : jget "items" body = JArr items → lawful DecryptBatch
  (λ tr, sealApproveArgsError body (sc_policy cfg) = None ∧ opened session tr)
  (decrypt_batch_with sdk sv cfg freshId body session items) (outcome DecryptBatch).
Proof.
  intros Hi. unfold decrypt_batch_with.
  destruct (sealIdentityPackageError _ _ _) eqn:Es; [apply refuse_lawful, refuse_refusal|].
  apply identity_none in Es as [Hs _]. apply lawful_phase. intros _.
  destruct (parseSealDecryptBatchItems _ _ _ _) as [ps es] eqn:Ep.
  destruct (parse_items_spec _ _ _ _ Ep) as [Hperm Hps].
  destruct ps as [|p0 ps0].
  { apply lawful_ret. intros tr _. eapply (answer_all items [] es); try done. intros r Hr. by apply elem_of_nil in Hr. }
  set (ps := p0 :: ps0) in *. apply lawful_phase. intros _.
  assert (Hc : ∀ id, id ∈ unique (map bi_id ps) → ∃ data, ciphertext (sources DecryptBatch) data id).
  { intros id Hid. apply elem_of_unique, list_elem_of_fmap in Hid as (q & -> & Hq).
    rewrite Forall_forall in Hps. destruct (Hps q Hq) as (j & item & pkg & Hj & _ & Hrest). exists (bi_data q), item, pkg.
    simpl. rewrite Hi. split; [by eapply list_elem_of_lookup_2|done]. }
  eapply lawful_bind.
  { eapply lawful_weaken; [apply (approve_lawful DecryptBatch session)| |intros ? ? Hx; exact Hx].
    intros tr [Ha Ho]. by split_and!. }
  intros txBytes. apply lawful_phase. intros _.
  eapply lawful_bind; [apply lawful_caught; [apply _|]|].
  { intros tr Ht. by apply fetch_scoped. }
  intros [err|].
  - apply lawful_ret. intros tr _. eapply answer_all; [done|done| |by intros r Hr%elem_of_nil].
    unfold indices. cbn [fst snd]. rewrite map_app, map_map. exact (Permutation_app_comm (map ie_index es) (map bi_index ps)).
  - apply lawful_phase. intros _. eapply lawful_bind.
    + eapply lawful_weaken; [apply (decrypt_items_lawful items session (unique (map bi_id ps)) txBytes Hi ps [] es Hps)| |].
      * intros q Hq. apply elem_of_unique, list_elem_of_fmap. by exists q.
      * intros tr [_ [(v & _ & Ha)|(e & [=])]]. split; [by exists v|by intros r Hr%elem_of_nil].
      * intros acc tr Hx. exact Hx.
    + intros [results errors]. apply lawful_ret. intros tr [Hp Hr]. eapply answer_all; [done|done| |done].
      rewrite Hp. unfold indices. cbn [fst snd]. apply Permutation_app_comm.
Qed.

Lemma batch_lawful headers : lawful DecryptBatch (λ _, True)
  (decrypt_batch_handler sdk sv cfg traceId freshId headers body) (outcome DecryptBatch).
Proof.
  unfold decrypt_batch_handler. apply lawful_phase. intros _. eapply lawful_catch; [|apply failure_lawful].
  unfold decrypt_batch_body. eapply lawful_bind; [apply lawful_of_sum|]. intros u.
  destruct (jget "items" body) as [| | | | |[|item items]|] eqn:Ei; try apply refuse_lawful, refuse_refusal.
  destruct (negb _); [|apply refuse_lawful, refuse_refusal].
  apply session_lawful; [apply refuse_refusal|]. intros session. by apply batch_with_lawful.
Qed.

Lemma route_lawful route headers : lawful route (λ _, True)
  (seal_handler sdk sv cfg traceId freshId route headers body) (outcome route).
Proof. destruct route; [apply encrypt_lawful|apply decrypt_lawful|apply batch_lawful]. Qed.
End Scope.

(** ** The routes *)
Section Routes.
Context `{SuiSdk} (sdk : seal_sdk) (sv : service) (cfg : seal_config) (traceId freshId : string).
Context (path : string) (headers : seal_headers) (body : json).

Lemma seal_handler_throws route s f :
  snd (seal_handler sdk sv cfg traceId freshId route headers body s) = inl f → f = Enoki.OutOfFuel.
Proof. destruct route; apply catch_total; intros e s1; by do 2 eexists. Qed.

Lemma post_seal_run h s : post_seal sdk sv cfg traceId freshId path headers body = Some h →
  ∃ route new resp, assoc path (seal_routes cfg) = Some route ∧ h s = (fst (h s), inr resp) ∧
    s_trace (fst (h s)) = s_trace s ++ new ∧ all_ok (scoped sdk sv cfg (s_trace s) body route) (s_trace s) new ∧
    outcome sdk sv cfg (s_trace s) body route resp (s_trace s ++ new).
Proof.
  unfold post_seal. rewrite fmap_Some. intros (route & Hr & ->).
  destruct (lawful_run _ _ (s_trace s) _ _ _ s (route_lawful sdk sv cfg traceId freshId (s_trace s) body route headers) eq_refl)
    as (new & Et & Hok & Ho). exists route, new.
  destruct (seal_handler _ _ _ _ _ _ _ _ s) as [s' [f|resp]] eqn:E; simpl in *; [|by exists resp].
  exfalso. destruct Ho as [e ->]. pose proof (seal_handler_throws route s (Enoki.Thrown e)) as Ht.
  rewrite E in Ht. by specialize (Ht eq_refl).
Qed.

(** C4: whatever the request and whatever the outside answers, each call of a
    SEAL route is justified by earlier answers of the same request.  A route
    encrypts only under the identity that the account's own object gives for
    the route's purpose, after the committee pin; it fetches keys only for
    ciphertexts of the request in the request's package, with a session the
    request opened for this package, and with an approval transaction built
    for exactly these ids against the policy package the sidecar is
    configured with; it decrypts only a ciphertext of the request whose keys
    were fetched with the same session and approval; and it submits nothing. *)
Theorem seal_calls_scoped h s : post_seal sdk sv cfg traceId freshId path headers body = Some h →
  ∃ route new, assoc path (seal_routes cfg) = Some route ∧ s_trace (fst (h s)) = s_trace s ++ new ∧
    ∀ pre ev post, new = pre ++ ev :: post → scoped sdk sv cfg (s_trace s) body route (s_trace s ++ pre) ev.
Proof.
  intros Hp. destruct (post_seal_run h s Hp) as (route & new & resp & Hr & _ & Et & Hok & _).
  exists route, new. split_and!; [done|done|]. intros pre ev post E. by eapply all_ok_at.
Qed.

(** A batch answers each of its items once.  A 200 of
    [/seal/decrypt-batch] lists every position of [items] exactly once, as a
    result or as an error, and each result is the base64 text of what
    decrypting the ciphertext at this position returned in this request. *)
Theorem batch_answers_each_once h s s' resp :
  path = "/seal/decrypt-batch" → post_seal sdk sv cfg traceId freshId path headers body = Some h →
  h s = (s', inr resp) → r_status resp = 200 →
  ∃ items results errors, jget "items" body = JArr items ∧
    r_body resp = JObj [("results", JArr (map result_json results)); ("errors", JArr (map error_json errors))] ∧
    Permutation (results.*1 ++ map ie_index errors) (seq 0 (length items)) ∧
    ∀ i d, (i, d) ∈ results → ∃ item data session txBytes v,
      items !! i = Some item ∧ buffer_from sdk item = inr data ∧
      reported sv s s' (SSealDecrypt (of_chars data) session txBytes) v ∧ d = to_base64 (bytes_of v).
Proof.
  intros Hpath Hp Hh Hst. destruct (post_seal_run h s Hp) as (route & new & resp' & Hr & E & Et & _ & Ho).
  rewrite Hh in E, Et. simpl in E, Et. injection E as <-. rewrite <-Et in Ho.
  assert (route = DecryptBatch) as ->.
  { subst path. unfold seal_routes in Hr. destruct (sc_migration cfg), (sc_legacy_seed cfg); by injection Hr as <-. }
  destruct Ho as [(Hs & _)|(items & results & errors & Hi & -> & Hperm & Hres)].
  { rewrite Hst, !elem_of_cons, elem_of_nil in Hs. lia. }
  exists items, results, errors. split_and!; try done. intros i d Hin.
  destruct (Hres _ Hin) as (item & data & id & session & tx & v & H1 & H2 & _ & (pre & Hpre & Hv) & H5).
  exists item, data, session, tx, v. split_and!; try done. exists pre. by split.
Qed.

(** Every request to a SEAL route is answered, and a failure discloses
    nothing: an answer other than 200 is a 400, 409, 500 or 503 without
    plaintext, ciphertext or results, it is a 503 exactly when it says that a
    shared service is unavailable, and then the caller may retry. *)
Theorem seal_always_answers h s : post_seal sdk sv cfg traceId freshId path headers body = Some h →
  ∃ s' resp, h s = (s', inr resp) ∧
    (r_status resp = 200 ∨
     r_status resp ∈ [400; 409; 500; 503] ∧
     Forall (λ k, jget k (r_body resp) = JUndefined) ["encryptedData"; "decryptedData"; "results"]) ∧
    (r_status resp = 503 ↔ jget "code" (r_body resp) = JStr "SHARED_SERVICE_UNAVAILABLE").
Proof.
  intros Hp. destruct (post_seal_run h s Hp) as (route & new & resp & Hr & E & Et & _ & Ho).
  exists (fst (h s)), resp. split; [done|]. destruct Ho as [(H1 & H2 & H3)|Ho]; [auto|].
  assert (Hok : ∃ b, resp = ok b ∧ jget "code" b = JUndefined).
  { destruct route; simpl in Ho.
    - destruct Ho as (pkg & id & data & v & _ & ->). by eexists.
    - destruct Ho as (data & id & session & tx & v & _ & _ & ->). by eexists.
    - destruct Ho as (items & results & errors & _ & -> & _). by eexists. }
  destruct Hok as (b & -> & Hb). simpl. rewrite Hb. split; [by left|done].
Qed.
End Routes.
