(* ===== verification/Settings.v ===== *)
(** * The settings a sidecar starts with (sidecar/config.ts)

    Loading the module either throws, and the process does not start, or
    yields the constants every other component runs with.  Decoding a key and
    deriving its address are the Sui SDK's. *)
From Stdlib Require Import QArith Ascii.
From S2P Require Import Prelude JsText JsNumber JsonParse SealConfig Config Retry Util.
Local Open Scope Z_scope.

Inductive route_mode : Type := full | writer.

Record settings : Type := Settings {
  SUI_NETWORK : Config.SuiNetwork;
  SUI_GRPC_URL : string;
  SUI_GRAPHQL_URL : string;
  SUI_CHAIN_IDENTIFIER : string;
  SEAL_SERVER_CONFIGS : list SealConfig.SealServerConfig;
  SEAL_THRESHOLD : Z;
  SEAL_KEY_SERVER_TIMEOUT_MS : Z;
  SIDECAR_ENABLE_MIGRATION_SEAL_ROUTE : bool;
  SIDECAR_ENABLE_LEGACY_SEAL_ABI : bool;
  SEAL_POLICY_PACKAGE_ID : string;
  SERVER_SUI_PRIVATE_KEYS : list string;
  SERVER_SUI_ADDRESSES : list string;
  WALRUS_PACKAGE_ID : string;
  WALRUS_SYSTEM_OBJECT_ID : string;
  WALRUS_STAKING_POOL_ID : string;
  WALRUS_UPLOAD_RELAY_URL : string;
  WALRUS_DIRECT_UPLOAD : bool;
  WALRUS_CLIENT_MAX_AGE_MS : Z;
  UPLOAD_RELAY_TIP_CACHE_TTL_MS : Z;
  UPLOAD_RELAY_TIP_TIMEOUT_MS : Z;
  upload_limits : Config.limits;
  SIDECAR_SHUTDOWN_TIMEOUT_MS : Z;
  ENOKI_API_KEY : option string;
  ENOKI_NETWORK : string;
  ENOKI_FALLBACK_TO_DIRECT_SIGN : bool;
  SIDECAR_PORT : option Z;            (** [None]: [NaN] *)
  SIDECAR_HOST : string;
  SIDECAR_ROUTE_MODE : route_mode;
}.

(** Why the module does not load. *)
Inductive settings_error : Type :=
| UnsupportedNetwork (value : option string)
| BadSealConfig (e : SealConfig.config_error)
| InvalidKey (index : nat) (e : js_error)
| DuplicateWallets
| InvalidRouteMode (mode : string).

Definition network_name (n : Config.SuiNetwork) : string :=
  match n with
  | Config.mainnet => "mainnet" | Config.testnet => "testnet"
  | Config.devnet => "devnet" | Config.localnet => "localnet"
  end.
Definition SUI_TYPE : string := "0x2::sui::SUI".

(** ** How a setting follows the environment *)

(** [Number.parseInt(env || "", 10)] when it is positive, else the default *)
Definition honours_positive (e : Config.env) (name : string) (fallback v : Z) : Prop :=
  0 < v ∧
  (∀ n, parse_int10 (Config.str_or (e name) empty_str) = Some n → 0 < n → v = n) ∧
  (∀ n, parse_int10 (Config.str_or (e name) empty_str) = Some n → n <= 0 → v = fallback) ∧
  (parse_int10 (Config.str_or (e name) empty_str) = None → v = fallback).
(** An opt-in is on exactly when the environment says so. *)
Definition switched_on (e : Config.env) (name : string) (v : bool) : Prop :=
  v = true ↔ lower (Config.env_trim e name) ∈ ["1"; "true"; "yes"].
(** The keys: the fields between the commas of SERVER_SUI_PRIVATE_KEYS,
    trimmed, without the empty ones; if there are none, the single
    SERVER_SUI_PRIVATE_KEY. *)
Definition configured_keys (e : Config.env) (keys : list string) : Prop := ∃ fields,
  join "," fields = Config.str_or (e "SERVER_SUI_PRIVATE_KEYS") empty_str ∧ Forall SealConfig.comma_free fields ∧
  let listed := filter (λ s, is_empty s = false) (map trim fields) in
  keys = if bool_decide (listed = []) then match e "SERVER_SUI_PRIVATE_KEY" with
                                         | Some key => if is_empty key then [] else [trim key]
                                         | None => []
                                         end
         else listed.
Lemma boolean_switched e name : switched_on e name (Config.parseBooleanEnv e name false).
Proof.
  unfold switched_on, Config.parseBooleanEnv. cbv zeta. destruct (is_empty (lower _)) eqn:E.
  - split; [done|]. intros Hin. destruct (lower _); [|done]. set_solver.
  - rewrite !orb_true_iff, !seqb_eq. set_solver.
Qed.

Section Settings.
Context (e : Config.env).
Context (normalizeSuiObjectId : string → string) (isValidSuiObjectId : string → bool).
(** [decodeSuiPrivateKey]: scheme and secret key; [fromSecretKey(..).toSuiAddress()] *)
Context (decodeSuiPrivateKey : string → js_error + (string * list ascii)).
Context (keypair_address : list ascii → js_error + string).

Definition env_or (name fallback : string) : string := Config.str_or (e name) fallback.
(** [process.env[name]?.trim() || fallback] *)
Definition trim_or (name fallback : string) : string :=
  let v := Config.env_trim e name in if is_empty v then fallback else v.

(** ** Wallet keys *)
Definition key_list : list string :=
  let keys := filter (λ s, is_empty s = false)
                (map trim (SealConfig.split_commas [] (chars (env_or "SERVER_SUI_PRIVATE_KEYS" empty_str)))) in
  match keys, e "SERVER_SUI_PRIVATE_KEY" with
  | [], Some key => if is_empty key then [] else [trim key]
  | _, _ => keys
  end.
Definition wallet_address (privateKey : string) : js_error + string :=
  match decodeSuiPrivateKey privateKey with
  | inl err => inl err
  | inr (scheme, secretKey) =>
      guard_or seqb scheme "ED25519" else plain_error ("unsupported key scheme " +:+ scheme);
      keypair_address secretKey
  end.
Fixpoint wallet_addresses (index : nat) (keys : list string) : settings_error + list string :=
  match keys with
  | [] => inr []
  | key :: keys' =>
      match wallet_address key with
      | inl err => inl (InvalidKey index err)
      | inr address =>
          match wallet_addresses (S index) keys' with
          | inl err => inl err
          | inr rest => inr (address :: rest)
          end
      end
  end.

(** ** Single settings *)
Definition chain_identifier (n : Config.SuiNetwork) : string :=
  if decide (n = Config.testnet) then "69WiPg3DAQiwdxfncX6wYQ2siKwAe6L9BZthQea3JNMD"
  else "4btiuiMPvEENsttpZC7CZ53DruC3MAgfznDbASZ7DR6S".
Definition seal_policy_package_id : string :=
  trim_or "MEMWAL_SEAL_POLICY_PACKAGE_ID" (trim_or "MEMWAL_PACKAGE_ID" (trim_or "WM_DST_PACKAGE_ID" empty_str)).
Definition walrus_package_id (n : Config.SuiNetwork) : string :=
  env_or "WALRUS_PACKAGE_ID"
    (if decide (n = Config.testnet) then "0xd84704c17fc870b8764832c535aa6b11f21a95cd6f5bb38a9b07d2cf42220c66"
     else "0xfdc88f7d7cf30afab2f82e8380d11ee8f70efb90e863d1de8616fae1bb09ea77").
Definition upload_relay_url (n : Config.SuiNetwork) : string :=
  env_or "WALRUS_UPLOAD_RELAY_URL"
    (if decide (n = Config.testnet) then "https://upload-relay.testnet.walrus.space"
     else "https://upload-relay.mainnet.walrus.space").
(** [Number.parseInt(env || "", 10)], or the fallback unless it is positive *)
Definition positive_or (name : string) (fallback : Z) : Z :=
  match parse_int10 (env_or name empty_str) with
  | Some parsed => if 0 <? parsed then parsed else fallback
  | None => fallback
  end.
Definition fallback_to_direct_sign : bool :=
  let raw := lower (trim (env_or "ENOKI_FALLBACK_TO_DIRECT_SIGN" "false")) in
  negb (seqb raw "0") && negb (seqb raw "false") && negb (seqb raw "no").
Definition route_mode_of : settings_error + route_mode :=
  let mode := lower (trim (env_or "SIDECAR_ROUTE_MODE" "full")) in
  if seqb mode "full" then inr full else if seqb mode "writer" then inr writer else inl (InvalidRouteMode mode).

(** ** The whole module, in the order of its statements *)
Definition load_settings : settings_error + settings :=
  match Config.parseSuiNetwork (e "SUI_NETWORK") with
  | None => inl (UnsupportedNetwork (e "SUI_NETWORK"))
  | Some network =>
  match SealConfig.getSealServerConfigsFromEnv normalizeSuiObjectId isValidSuiObjectId e with
  | inl err => inl (BadSealConfig err)
  | inr servers =>
  match SealConfig.getSealThresholdFromEnv servers e with
  | inl err => inl (BadSealConfig err)
  | inr threshold =>
  match wallet_addresses 0 key_list with
  | inl err => inl err
  | inr addresses =>
      guard_or bool_decide (NoDup addresses) else DuplicateWallets;
      match route_mode_of with
      | inl err => inl err
      | inr mode => inr (Settings network
          (trim_or "SUI_GRPC_URL" ("https://fullnode." +:+ network_name network +:+ ".sui.io"))
          (trim_or "SUI_GRAPHQL_URL" ("https://graphql." +:+ network_name network +:+ ".sui.io/graphql"))
          (chain_identifier network)
          servers threshold
          (Config.parsePositiveIntEnv e "SEAL_KEY_SERVER_TIMEOUT_MS" 25000 1000 120000)
          (Config.parseBooleanEnv e "SIDECAR_ENABLE_MIGRATION_SEAL_ROUTE" false)
          (Config.parseBooleanEnv e "SIDECAR_ENABLE_LEGACY_SEAL_ABI" false)
          seal_policy_package_id
          key_list addresses
          (walrus_package_id network)
          (trim_or "WALRUS_SYSTEM_OBJECT_ID" empty_str) (trim_or "WALRUS_STAKING_POOL_ID" empty_str)
          (upload_relay_url network)
          (match e "WALRUS_DIRECT_UPLOAD" with Some v => seqb v "true" | None => false end)
          (positive_or "WALRUS_CLIENT_MAX_AGE_MS" (60 * 1000))
          (positive_or "UPLOAD_RELAY_TIP_CACHE_TTL_MS" (5 * 60 * 1000))
          (Config.parsePositiveIntEnv e "UPLOAD_RELAY_TIP_TIMEOUT_MS" 10000 1 60000)
          (Config.load_limits e (length key_list))
          (Config.parsePositiveIntEnv e "SIDECAR_SHUTDOWN_TIMEOUT_MS" 330000 5000 600000)
          (e "ENOKI_API_KEY")
          (env_or "ENOKI_NETWORK" (env_or "SUI_NETWORK" "mainnet"))
          fallback_to_direct_sign
          (parse_int10 (env_or "SIDECAR_PORT" "9000"))
          (env_or "SIDECAR_HOST" "127.0.0.1")
          mode)
      end
  end end end end.

(** ** What a started sidecar can rely on *)
Lemma wallet_addresses_spec i keys :
  match wallet_addresses i keys with
  | inr addresses => Forall2 (λ k a, wallet_address k = inr a) keys addresses
  | inl err => ∃ pre k post x, keys = pre ++ k :: post ∧ wallet_address k = inl x ∧
      err = InvalidKey (i + length pre) x ∧ Forall (λ k, is_inl (wallet_address k) = false) pre
  end.
Proof.
  revert i. induction keys as [|k keys IH]; intros i; cbn; [constructor|].
  destruct (wallet_address k) as [x|a] eqn:Ek.
  - exists [], k, keys, x. cbn. rewrite Nat.add_0_r. split_and!; [done..|constructor].
  - specialize (IH (S i)). destruct (wallet_addresses (S i) keys) as [err|addresses].
    + destruct IH as (pre & k' & post & x & -> & ? & -> & ?). exists (k :: pre), k', post, x. cbn.
      split_and!; [done..|f_equal; lia|]. constructor; [by rewrite Ek|done].
    + by constructor.
Qed.
Lemma positive_or_honours name fallback : 0 < fallback → honours_positive e name fallback (positive_or name fallback).
Proof.
  intros Hf. unfold honours_positive, positive_or, env_or.
  destruct (parse_int10 _) as [z|]; [|split_and!; done]. destruct (0 <? z) eqn:Ez; split_and!; try lia; try done; intros n [= <-]; lia.
Qed.
Lemma direct_upload_on : (match e "WALRUS_DIRECT_UPLOAD" with Some v => seqb v "true" | None => false end) = true ↔
  e "WALRUS_DIRECT_UPLOAD" = Some "true".
Proof. destruct (e "WALRUS_DIRECT_UPLOAD") as [v|]; [|done]. rewrite seqb_eq. split; congruence. Qed.
Lemma direct_sign_off : fallback_to_direct_sign = false ↔ lower (trim (env_or "ENOKI_FALLBACK_TO_DIRECT_SIGN" "false")) ∈ ["0"; "false"; "no"].
Proof.
  unfold fallback_to_direct_sign. cbv zeta. rewrite !andb_false_iff, !negb_false_iff, !seqb_eq, !elem_of_cons, elem_of_nil. tauto.
Qed.
Lemma key_list_configured : configured_keys e key_list.
Proof.
  unfold configured_keys, key_list, env_or, Config.str_or.
  destruct (SealConfig.split_commas_spec (chars (Config.str_or (e "SERVER_SUI_PRIVATE_KEYS") empty_str)) [] ltac:(constructor)) as [H1 H2].
  cbn [rev app] in H1. rewrite of_chars_chars in H1. eexists. split; [exact H1|]. split; [exact H2|]. unfold Config.str_or. cbv zeta.
  destruct (filter _ _) as [|k ks] eqn:Ek; [|done]. destruct (e "SERVER_SUI_PRIVATE_KEY") as [key|]; [|done]. done.
Qed.
(** What was loaded is what the environment says, and it is consistent.
    [SIDECAR_PORT] is not validated: a text that is no number is [NaN]. *)
Definition sound (s : settings) : Prop :=
  Config.parseSuiNetwork (e "SUI_NETWORK") = Some (SUI_NETWORK s) ∧
  SealConfig.getSealServerConfigsFromEnv normalizeSuiObjectId isValidSuiObjectId e = inr (SEAL_SERVER_CONFIGS s) ∧
  SealConfig.getSealThresholdFromEnv (SEAL_SERVER_CONFIGS s) e = inr (SEAL_THRESHOLD s) ∧
  configured_keys e (SERVER_SUI_PRIVATE_KEYS s) ∧
  Forall2 (λ k a, ∃ secret, decodeSuiPrivateKey k = inr ("ED25519", secret) ∧ keypair_address secret = inr a)
    (SERVER_SUI_PRIVATE_KEYS s) (SERVER_SUI_ADDRESSES s) ∧
  NoDup (SERVER_SUI_ADDRESSES s) ∧ NoDup (SERVER_SUI_PRIVATE_KEYS s) ∧
  honours_positive e "WALRUS_CLIENT_MAX_AGE_MS" 60000 (WALRUS_CLIENT_MAX_AGE_MS s) ∧
  honours_positive e "UPLOAD_RELAY_TIP_CACHE_TTL_MS" 300000 (UPLOAD_RELAY_TIP_CACHE_TTL_MS s) ∧
  Config.honoured e "UPLOAD_RELAY_TIP_TIMEOUT_MS" 10000 1 60000 (UPLOAD_RELAY_TIP_TIMEOUT_MS s) ∧
  Config.honoured e "SEAL_KEY_SERVER_TIMEOUT_MS" 25000 1000 120000 (SEAL_KEY_SERVER_TIMEOUT_MS s) ∧
  Config.honoured e "SIDECAR_SHUTDOWN_TIMEOUT_MS" 330000 5000 600000 (SIDECAR_SHUTDOWN_TIMEOUT_MS s) ∧
  Config.limits_honoured e (length (SERVER_SUI_PRIVATE_KEYS s)) (upload_limits s) ∧
  switched_on e "SIDECAR_ENABLE_MIGRATION_SEAL_ROUTE" (SIDECAR_ENABLE_MIGRATION_SEAL_ROUTE s) ∧
  switched_on e "SIDECAR_ENABLE_LEGACY_SEAL_ABI" (SIDECAR_ENABLE_LEGACY_SEAL_ABI s) ∧
  (WALRUS_DIRECT_UPLOAD s = true ↔ e "WALRUS_DIRECT_UPLOAD" = Some "true") ∧
  (ENOKI_FALLBACK_TO_DIRECT_SIGN s = false ↔ lower (trim (env_or "ENOKI_FALLBACK_TO_DIRECT_SIGN" "false")) ∈ ["0"; "false"; "no"]) ∧
  SIDECAR_PORT s = parse_int10 (env_or "SIDECAR_PORT" "9000") ∧
  lower (trim (env_or "SIDECAR_ROUTE_MODE" "full")) = match SIDECAR_ROUTE_MODE s with full => "full" | writer => "writer" end.

(** Why it refuses to start, and nothing else makes it. *)
Definition refused (err : settings_error) : Prop :=
  match err with
  | UnsupportedNetwork value => value = e "SUI_NETWORK" ∧ Config.parseSuiNetwork value = None
  | BadSealConfig x =>
      SealConfig.getSealServerConfigsFromEnv normalizeSuiObjectId isValidSuiObjectId e = inl x ∨
      ∃ servers, SealConfig.getSealServerConfigsFromEnv normalizeSuiObjectId isValidSuiObjectId e = inr servers ∧
                 SealConfig.getSealThresholdFromEnv servers e = inl x
  | InvalidKey i x => ∃ k, key_list !! i = Some k ∧ wallet_address k = inl x
  | DuplicateWallets => ∃ i j ki kj a, i ≠ j ∧ key_list !! i = Some ki ∧ key_list !! j = Some kj ∧
      wallet_address ki = inr a ∧ wallet_address kj = inr a
  | InvalidRouteMode mode => mode ≠ "full" ∧ mode ≠ "writer" ∧ mode = lower (trim (env_or "SIDECAR_ROUTE_MODE" "full"))
  end.

Lemma wallet_address_inr k a : wallet_address k = inr a →
  ∃ secret, decodeSuiPrivateKey k = inr ("ED25519", secret) ∧ keypair_address secret = inr a.
Proof.
  unfold wallet_address. destruct (decodeSuiPrivateKey k) as [|[scheme secret]]; [done|].
  intros [Hs Ha]%ensure_inr. apply seqb_eq in Hs. subst. by exists secret.
Qed.
(** Equal keys have equal addresses. *)
Lemma keys_distinct keys addresses :
  Forall2 (λ k a, wallet_address k = inr a) keys addresses → NoDup addresses → NoDup keys.
Proof.
  induction 1 as [|k a keys addresses Hk Hf IH]; [constructor|]. inversion 1 as [|? ? Hn Hd]; subst.
  constructor; [|by apply IH]. intros Hin. apply Hn. apply list_elem_of_lookup in Hin as [i Hi].
  destruct (Forall2_lookup_l _ _ _ _ _ Hf Hi) as (a' & Ha' & Hk'). rewrite Hk in Hk'. simplify_eq.
  by eapply list_elem_of_lookup_2.
Qed.
Lemma duplicated (l : list string) : ¬ NoDup l → ∃ i j x, i ≠ j ∧ l !! i = Some x ∧ l !! j = Some x.
Proof.
  induction l as [|x l IH]; intros Hn; [destruct Hn; constructor|]. destruct (decide (x ∈ l)) as [Hin|Hout].
  - apply list_elem_of_lookup in Hin as [i Hi]. by exists 0%nat, (S i), x.
  - destruct IH as (i & j & y & Hne & Hi & Hj); [intros Hd; apply Hn; by constructor|].
    exists (S i), (S j), y. split_and!; [congruence|done..].
Qed.

(** C38: the sidecar starts exactly when its environment is consistent.  Then
    its keys are the configured ones, with one wallet address for each, in
    order, derived from an ED25519 key, and no wallet is listed twice; every
    time limit, upload limit and retry limit is the number its own variable
    gives, cut to its range, or the default; the opt-in routes and the direct
    upload are on only when asked for, and direct signing is off exactly when
    its variable says no or nothing.  The port is taken as it parses and is not checked.  Otherwise
    loading names the setting that is at fault. *)
Theorem settings_sound :
  match load_settings with inr s => sound s | inl err => refused err end.
Proof.
  unfold load_settings. destruct (Config.parseSuiNetwork _) as [n|] eqn:En; [|by split].
  destruct (SealConfig.getSealServerConfigsFromEnv _ _ _) as [x|servers] eqn:Es; [by left|].
  destruct (SealConfig.getSealThresholdFromEnv _ _) as [x|t] eqn:Et; [right; by exists servers|].
  pose proof (wallet_addresses_spec 0 key_list) as Hw. destruct (wallet_addresses 0 key_list) as [err|addresses].
  { destruct Hw as (pre & k & post & x & Hk & Hx & -> & _). exists k. split; [|done].
    rewrite Hk. apply list_lookup_middle. lia. }
  unfold ensure. case_bool_decide as Hd; cycle 1.
  { destruct (duplicated _ Hd) as (i & j & a & Hne & Hi & Hj).
    destruct (Forall2_lookup_r _ _ _ _ _ Hw Hi) as (ki & ? & ?), (Forall2_lookup_r _ _ _ _ _ Hw Hj) as (kj & ? & ?).
    by exists i, j, ki, kj, a. }
  destruct route_mode_of as [err|mode] eqn:Em.
  { unfold route_mode_of in Em. case_match eqn:E1; [done|]. case_match eqn:E2; [done|]. simplify_eq.
    split_and!; [by apply seqb_neq|by apply seqb_neq|done]. }
  unfold sound. cbn -[Config.parsePositiveIntEnv Config.parseBooleanEnv Config.load_limits Z.mul]. split_and!;
    first [exact eq_refl | assumption | apply key_list_configured | by apply positive_or_honours | apply boolean_switched | apply direct_upload_on | apply direct_sign_off | apply Config.load_limits_honoured
          | apply Config.parsePositiveIntEnv_honoured; lia | idtac].
  - eapply Forall2_impl; [exact Hw|]. apply wallet_address_inr.
  - by eapply keys_distinct.
  - unfold route_mode_of in Em. case_match eqn:E1; [by simplify_eq; apply seqb_eq|]. case_match eqn:E2; [|done].
    simplify_eq. by apply seqb_eq.
Qed.
End Settings.

(** ** [SUI_NETWORK] is read three times and normalised once

    With [SUI_NETWORK=Testnet] the sidecar runs on testnet, without key
    servers (the default list is looked up under the raw name), and tells the
    sponsor API the raw name. *)
Definition ex_network_env (name : string) : option string :=
  if seqb name "SUI_NETWORK" then Some "Testnet" else None.
Lemma network_read_raw :
  match load_settings ex_network_env (λ s, s) (λ _, true) (λ _, inl (plain_error "no key")) (λ _, inl (plain_error "no key")) with
  | inr s => SUI_NETWORK s = Config.testnet ∧ SEAL_SERVER_CONFIGS s = [] ∧ ENOKI_NETWORK s = "Testnet"
  | inl _ => False
  end.
Proof. vm_compute. done. Qed.
(** A port that is no number: the sidecar starts with [NaN]. *)
Lemma port_not_validated :
  match load_settings (λ name, if seqb name "SIDECAR_PORT" then Some "none" else None) (λ s, s) (λ _, true)
          (λ _, inl (plain_error "no key")) (λ _, inl (plain_error "no key")) with
  | inr s => SIDECAR_PORT s = None
  | inl _ => False
  end.
Proof. vm_compute. done. Qed.
