(* ===== verification/Clients.v ===== *)
(** * The sidecar's shared clients (sidecar/clients.ts)

    The Walrus client and its age, the cache of the upload relay's tip
    address, and what is read of wallets: balances, the WAL coin type and the
    snapshot over all server wallets.  The SDK clients and [fetch] answer;
    every event carries the time it was issued at.  The listings of several
    wallets, which the code starts together, run one after the other.

    The tip address that is paid came from the relay within the cache's time
    to live, whatever ran in between; the balance snapshot counts every entry
    of every page once. *)
From Stdlib Require Import QArith Ascii.
From S2P Require Import Prelude JsText JsNumber JsonParse SealId Config Settings Retry Durable.
From S2P Require Enoki.
Local Open Scope Z_scope.

(** ** Configuration of a Walrus client *)
Inductive walrus_target : Type :=
| NamedNetwork (network : string)
| PackageConfig (systemObjectId stakingPoolId : string).
Record walrus_config : Type := WalrusConfig {
  uploadRelay : option (string * number);      (** host and timeout; the tip is capped at 10 000 000 *)
  target : walrus_target;
}.
(** [Number(process.env.WALRUS_RELAY_TIMEOUT_MS) || 120_000] *)
Definition relay_timeout (raw : option string) : number :=
  match raw with
  | None => Finite 120000
  | Some r => match string_number r with
              | NaN => Finite 120000
              | Finite q => if Qeq_bool q 0 then Finite 120000 else Finite q
              | n => n
              end
  end.
Definition relay_disabled (s : settings) : bool :=
  WALRUS_DIRECT_UPLOAD s || is_empty (WALRUS_UPLOAD_RELAY_URL s) || seqb (WALRUS_UPLOAD_RELAY_URL s) "none".
Definition createWalrusClient_config (s : settings) (relayTimeout : option string) : walrus_config :=
  WalrusConfig (if relay_disabled s then None else Some (WALRUS_UPLOAD_RELAY_URL s, relay_timeout relayTimeout))
    (if negb (is_empty (WALRUS_SYSTEM_OBJECT_ID s)) && negb (is_empty (WALRUS_STAKING_POOL_ID s))
     then PackageConfig (WALRUS_SYSTEM_OBJECT_ID s) (WALRUS_STAKING_POOL_ID s)
     else NamedNetwork (network_name (SUI_NETWORK s))).

(** ** Calls to the outside *)
Inductive cevent : Type :=
| CReset                                              (** [walrusClient.reset()] *)
| CCreate (config : walrus_config)                    (** [new WalrusClient(config)] *)
| CSystemObject
| CTipConfig (url : string)                           (** [fetch(url)] and its status *)
| CTipJson                                            (** [resp.json()] *)
| CGetBalance (owner : string)
| CGetFunction                                        (** [staking::stake_with_pool] *)
| CListBalances (owner : string) (pageToken : option string).

(** A balance entry; amounts are [bigint]s. *)
Record balance_entry : Type := BalanceEntry {
  coinType : string;
  balance : option Z;
  addressBalance : option Z;
  coinBalance : option Z;
}.
(** The outside answers from the calls so far. *)
Record client_world : Type := ClientWorld {
  cw_answer : list (Z * cevent) → js_error + json;
  cw_list : list (Z * cevent) → js_error + (list balance_entry * option string);
  cw_elapsed : list (Z * cevent) → Z;
}.

Record cstate : Type := CState {
  c_trace : list (Z * cevent);
  c_clock : Z;
  walrusClientCreatedAtMs : Z;
  uploadRelayTipAddressCache : option (option string);     (** [undefined], [null] or an address *)
  uploadRelayTipAddressCacheLoadedAtMs : Z;
  walCoinType : option string;                             (** [walCoinTypePromise], fulfilled *)
}.
Definition set_created (t : Z) (s : cstate) : cstate :=
  CState (c_trace s) (c_clock s) t (uploadRelayTipAddressCache s) (uploadRelayTipAddressCacheLoadedAtMs s) (walCoinType s).
Definition set_tip (c : option (option string)) (t : Z) (s : cstate) : cstate :=
  CState (c_trace s) (c_clock s) (walrusClientCreatedAtMs s) c t (walCoinType s).
Definition set_wal_type (v : option string) (s : cstate) : cstate :=
  CState (c_trace s) (c_clock s) (walrusClientCreatedAtMs s) (uploadRelayTipAddressCache s)
         (uploadRelayTipAddressCacheLoadedAtMs s) v.
Definition issue (w : client_world) (ev : cevent) (s : cstate) : cstate :=
  let tr := c_trace s ++ [(c_clock s, ev)] in
  CState tr (c_clock s + cw_elapsed w tr) (walrusClientCreatedAtMs s) (uploadRelayTipAddressCache s)
         (uploadRelayTipAddressCacheLoadedAtMs s) (walCoinType s).

Definition CM : Type → Type := ST cstate Enoki.failure.
Definition c_throw {A} (e : js_error) : CM A := throw (Enoki.Thrown e).
Definition c_of_sum {A} (r : js_error + A) : CM A := match r with inl e => c_throw e | inr a => mret a end.
Definition c_catch {A} (m : CM A) (h : js_error → CM A) : CM A :=
  try_catch m (λ f, match f with Enoki.Thrown e => h e | Enoki.OutOfFuel => throw Enoki.OutOfFuel end).

Section Clients.
Context `{SuiTx} (w : client_world) (st : settings) (relayTimeout : option string).

Definition c_call (ev : cevent) : CM json := λ s,
  let s' := issue w ev s in
  (s', match cw_answer w (c_trace s') with inl e => inl (Enoki.Thrown e) | inr v => inr v end).
Definition c_list (owner : string) (pageToken : option string) : CM (list balance_entry * option string) := λ s,
  let s' := issue w (CListBalances owner pageToken) s in
  (s', match cw_list w (c_trace s') with inl e => inl (Enoki.Thrown e) | inr v => inr v end).

(** ** The Walrus client *)
Definition walrusClientAgeMs : CM Z := gets (λ s, c_clock s - walrusClientCreatedAtMs s).
Definition clearUploadRelayTipCache : CM unit := modify (set_tip None 0).
Definition refreshWalrusClient : CM unit :=
  _ ← c_catch (_ ← c_call CReset; mret tt) (λ _, mret tt);
  _ ← c_call (CCreate (createWalrusClient_config st relayTimeout));
  _ ← modify (λ s, set_created (c_clock s) s);
  clearUploadRelayTipCache.
Definition refreshWalrusClientIfStale (maxAgeMs : Z) : CM unit :=
  ageMs ← walrusClientAgeMs;
  if maxAgeMs <=? ageMs then refreshWalrusClient else mret tt.
Definition fetchWalrusSystemVersion : CM (option string) :=
  c_catch (sys ← c_call CSystemObject;
           let version := jget "version" sys in
           mret (if is_nullish version then None else Some (js_string version)))
    (λ _, mret None).

(** ** The tip address of the upload relay *)
Definition tip_address_of (answer : json) : option string :=
  match jget "address" (jget "send_tip" answer) with
  | JStr a => if starts_with "0x" a then Some a else None
  | _ => None
  end.
Definition tip_failed (status : json) : js_error :=
  JsError PlainError JUndefined status JUndefined JUndefined
    ("tip-config request failed (" +:+ js_string status +:+ ")")
    ("Error: tip-config request failed (" +:+ js_string status +:+ ")") "Error".
Definition load_tip_address : CM (option string) :=
  resp ← c_call (CTipConfig (WALRUS_UPLOAD_RELAY_URL st +:+ "/v1/tip-config"));
  if negb (truthy (jget "ok" resp)) then c_throw (tip_failed (jget "status" resp))
  else
    answer ← c_call CTipJson;
    _ ← c_of_sum (guard_or negb (is_nullish answer)
          else js_type_error ("Cannot read properties of " +:+ js_string answer +:+ " (reading 'send_tip')"); inr tt);
    let address := tip_address_of answer in
    _ ← modify (λ s, set_tip (Some address) (c_clock s) s);
    mret address.
Definition getUploadRelayTipAddress : CM (option string) :=
  if relay_disabled st then mret None
  else
    fresh ← gets (λ s, match uploadRelayTipAddressCache s with
                       | Some a => if c_clock s - uploadRelayTipAddressCacheLoadedAtMs s <? UPLOAD_RELAY_TIP_CACHE_TTL_MS st
                                   then Some a else None
                       | None => None
                       end);
    match fresh with Some address => mret address | None => load_tip_address end.
(** [uploadRelayTipCacheSnapshot] *)
Definition uploadRelayTipCacheSnapshot (s : cstate) : string * option Z :=
  match uploadRelayTipAddressCache s with
  | None => ("uninitialized", None)
  | Some None => ("none", Some (c_clock s - uploadRelayTipAddressCacheLoadedAtMs s))
  | Some (Some _) => ("present", Some (c_clock s - uploadRelayTipAddressCacheLoadedAtMs s))
  end.

(** ** Balances *)
Definition getSuiBalanceMist (owner : string) : CM (option string) :=
  c_catch (res ← c_call (CGetBalance owner);
           let total := coalesce (jget "balance" (jget "balance" res)) (jget "coinBalance" (jget "balance" res)) in
           mret (if is_nullish total then None else Some (js_string total)))
    (λ _, mret None).

(** [parameters[1]?.body?.typeParameterInstantiation[0]?.typeName] *)
Definition jnth (i : nat) (v : json) : json :=
  match v with JArr l => nth i l JUndefined | _ => JUndefined end.
Definition load_wal_type : CM string :=
  response ← c_call CGetFunction;
  let typeName := jget "typeName" (jnth 0 (jget "typeParameterInstantiation" (jget "body"
                    (jnth 1 (jget "parameters" (jget "function" response)))))) in
  match typeName with
  | JStr name => if is_empty name then c_throw (plain_error "canonical WAL coin type not found")
                 else mret (normalizeStructTag name)
  | _ => c_throw (plain_error "canonical WAL coin type not found")
  end.
Definition getWalCoinType : CM string :=
  known ← gets walCoinType;
  match known with
  | Some name => mret name
  | None => name ← load_wal_type; _ ← modify (set_wal_type (Some name)); mret name
  end.

Fixpoint list_pages (fuel : nat) (owner : string) (pageToken : option string) : CM (list balance_entry) :=
  match fuel with
  | O => throw Enoki.OutOfFuel
  | S fuel' =>
      page ← c_list owner pageToken;
      let '(entries, next) := page in
      match next with
      | Some token => if is_empty token then mret entries
                      else rest ← list_pages fuel' owner (Some token); mret (entries ++ rest)
      | None => mret entries
      end
  end.
Definition listAllBalances (page_fuel : nat) (owner : string) : CM (list balance_entry) := list_pages page_fuel owner None.

(** ** The snapshot over the server wallets *)
Record wallet_totals : Type := WalletTotals {
  t_sui : Z; t_suiAddress : Z; t_suiCoin : Z; t_wal : Z; t_walAddress : Z; t_walCoin : Z;
}.
Definition no_totals : wallet_totals := WalletTotals 0 0 0 0 0 0.
Definition add_totals (a b : wallet_totals) : wallet_totals :=
  WalletTotals (t_sui a + t_sui b) (t_suiAddress a + t_suiAddress b) (t_suiCoin a + t_suiCoin b)
               (t_wal a + t_wal b) (t_walAddress a + t_walAddress b) (t_walCoin a + t_walCoin b).
(** One entry, counted under its coin type: [else if], so SUI comes first. *)
Definition entry_totals (suiType walType : string) (b : balance_entry) : js_error + wallet_totals :=
  guard_or negb (is_empty (coinType b)) else plain_error "Sui gRPC balance entry has no coin type";
  let total := default 0 (balance b) in
  let address := default 0 (addressBalance b) in
  let coins := default (total - address) (coinBalance b) in
  inr (if seqb (normalizeStructTag (coinType b)) suiType then WalletTotals total address coins 0 0 0
       else if seqb (normalizeStructTag (coinType b)) walType then WalletTotals 0 0 0 total address coins
       else no_totals).
Fixpoint sum_entries (suiType walType : string) (l : list balance_entry) (acc : wallet_totals) : js_error + wallet_totals :=
  match l with
  | [] => inr acc
  | b :: l' => match entry_totals suiType walType b with
               | inl e => inl e
               | inr t => sum_entries suiType walType l' (add_totals acc t)
               end
  end.
Record WalletBalanceSnapshot : Type := BalanceSnapshot {
  walletTotals : wallet_totals;
  walletSuiAddressFundedCount : Z;
  walletWalAddressFundedCount : Z;
  perWallet : list (string * string * string);    (** address, SUI, WAL *)
}.
Definition add_wallet (owner : string) (t : wallet_totals) (s : WalletBalanceSnapshot) : WalletBalanceSnapshot :=
  BalanceSnapshot (add_totals (walletTotals s) t)
    (walletSuiAddressFundedCount s + if 0 <? t_suiAddress t then 1 else 0)
    (walletWalAddressFundedCount s + if 0 <? t_walAddress t then 1 else 0)
    (perWallet s ++ [(owner, pretty (t_sui t), pretty (t_wal t))]).
Fixpoint add_wallets (suiType walType : string) (l : list (string * list balance_entry)) (acc : WalletBalanceSnapshot)
    : js_error + WalletBalanceSnapshot :=
  match l with
  | [] => inr acc
  | (owner, balances) :: l' =>
      match sum_entries suiType walType balances no_totals with
      | inl e => inl e
      | inr t => add_wallets suiType walType l' (add_wallet owner t acc)
      end
  end.
Fixpoint list_wallets (page_fuel : nat) (owners : list string) : CM (list (string * list balance_entry)) :=
  match owners with
  | [] => mret []
  | owner :: owners' =>
      balances ← listAllBalances page_fuel owner;
      rest ← list_wallets page_fuel owners';
      mret ((owner, balances) :: rest)
  end.
Definition loadWalletBalanceSnapshot (page_fuel : nat) (owners : list string) : CM WalletBalanceSnapshot :=
  walType ← getWalCoinType;
  balancesByOwner ← list_wallets page_fuel owners;
  c_of_sum (add_wallets (normalizeStructTag SUI_TYPE) walType balancesByOwner (BalanceSnapshot no_totals 0 0 [])).
End Clients.

(** ** Guarantees *)
Section Safety.
Context `{SuiTx} (w : client_world) (st : settings) (relayTimeout : option string).

(** ** Any sequence of operations *)
Inductive op : Type :=
| OTip | ORefresh | ORefreshIfStale (maxAgeMs : Z) | OVersion | OBalance (owner : string)
| OSnapshot (page_fuel : nat) (owners : list string) | OPass (ms : Z).
Definition run_op (o : op) (s : cstate) : cstate :=
  match o with
  | OTip => fst (getUploadRelayTipAddress w st s)
  | ORefresh => fst (refreshWalrusClient w st relayTimeout s)
  | ORefreshIfStale maxAgeMs => fst (refreshWalrusClientIfStale w st relayTimeout maxAgeMs s)
  | OVersion => fst (fetchWalrusSystemVersion w s)
  | OBalance owner => fst (getSuiBalanceMist w owner s)
  | OSnapshot page_fuel owners => fst (loadWalletBalanceSnapshot w page_fuel owners s)
  | OPass ms => CState (c_trace s) (c_clock s + Z.max 0 ms) (walrusClientCreatedAtMs s) (uploadRelayTipAddressCache s)
                       (uploadRelayTipAddressCacheLoadedAtMs s) (walCoinType s)
  end.
Definition started_at (t : Z) : cstate := CState [] t t None 0 None.

(** The relay said [address], and its answer was in at [t]. *)
Definition served (address : option string) (t : Z) (tr : list (Z * cevent)) : Prop :=
  ∃ pre t0 t1 resp answer,
    let config := pre ++ [(t0, CTipConfig (WALRUS_UPLOAD_RELAY_URL st +:+ "/v1/tip-config"))] in
    let read := config ++ [(t1, CTipJson)] in
    read `prefix_of` tr ∧
    cw_answer w config = inr resp ∧ truthy (jget "ok" resp) = true ∧
    cw_answer w read = inr answer ∧ address = tip_address_of answer ∧ t = t1 + cw_elapsed w read.
Definition tip_backed (s : cstate) : Prop :=
  ∀ address, uploadRelayTipAddressCache s = Some address →
    served address (uploadRelayTipAddressCacheLoadedAtMs s) (c_trace s).

Lemma served_later address t tr tr' : served address t tr → tr `prefix_of` tr' → served address t tr'.
Proof.
  intros (pre & t0 & t1 & resp & answer & Hp & Hrest) Htr. exists pre, t0, t1, resp, answer.
  split; [by etrans|done].
Qed.

(** ** Every operation keeps the cache backed *)
Definition anyway {A} (P : cstate → Prop) (m : CM A) : Prop := triple P m (λ _, P) (λ _, P).
Lemma issue_backed ev s : tip_backed s → tip_backed (issue w ev s).
Proof. intros Hs address Ha. eapply served_later; [by apply Hs|]. by apply prefix_app_r. Qed.
Lemma call_backed ev : anyway tip_backed (c_call w ev).
Proof. intros s Hs. unfold c_call. destruct (cw_answer _ _); by apply issue_backed. Qed.
Lemma list_backed owner token : anyway tip_backed (c_list w owner token).
Proof. intros s Hs. unfold c_list. destruct (cw_list _ _); by apply issue_backed. Qed.
Lemma catch_anyway {A} P (m : CM A) h : anyway P m → (∀ e, anyway P (h e)) → anyway P (c_catch m h).
Proof. intros Hm Hh. eapply triple_catch; [exact Hm|]. intros [e|]; [apply Hh|by intros s Hs]. Qed.
Lemma bind_anyway {A B} P (m : CM A) (k : A → CM B) : anyway P m → (∀ a, anyway P (k a)) → anyway P (m ≫= k).
Proof. intros Hm Hk. by eapply triple_bind. Qed.
Lemma ret_anyway {A} P (a : A) : anyway P (mret a).
Proof. by intros s Hs. Qed.
Lemma throw_anyway {A} P f : anyway P (throw f : CM A).
Proof. by intros s Hs. Qed.
Lemma c_throw_anyway {A} P e : anyway P (c_throw e : CM A).
Proof. apply throw_anyway. Qed.
Lemma sum_anyway {A} P (r : js_error + A) : anyway P (c_of_sum r).
Proof. destruct r; by intros s Hs. Qed.
Lemma gets_anyway {A} P (f : cstate → A) : anyway P (gets f).
Proof. by intros s Hs. Qed.
Lemma modify_backed (f : cstate → cstate) : (∀ s, tip_backed s → tip_backed (f s)) → anyway tip_backed (modify f).
Proof. intros Hf s Hs. by apply Hf. Qed.
Lemma if_anyway {A} P (b : bool) (m m' : CM A) : anyway P m → anyway P m' → anyway P (if b then m else m').
Proof. by destruct b. Qed.
End Safety.
Create HintDb backed.
#[export] Hint Resolve call_backed list_backed catch_anyway bind_anyway ret_anyway throw_anyway c_throw_anyway sum_anyway gets_anyway
  if_anyway : backed.
#[export] Hint Extern 1 (anyway _ (modify _)) => apply modify_backed; intros ? Hbacked; first [exact Hbacked | by intros ? ?] : backed.

Section Ops.
Context `{SuiTx} (w : client_world) (st : settings) (relayTimeout : option string).
Notation tip_backed := (tip_backed w st).
Notation served := (served w st).

(** What a load leaves behind: the served address, or nothing changed. *)
Lemma load_tip_spec s : tip_backed s →
  match load_tip_address w st s with
  | (s', inr a) => uploadRelayTipAddressCache s' = Some a ∧ uploadRelayTipAddressCacheLoadedAtMs s' = c_clock s' ∧
                   served a (c_clock s') (c_trace s')
  | (s', inl f) => tip_backed s' ∧ uploadRelayTipAddressCache s' = uploadRelayTipAddressCache s
  end.
Proof.
  intros Hs. unfold load_tip_address, mbind, st_bind, c_call at 1. cbv zeta.
  set (s1 := issue w (CTipConfig _) s). assert (H1 : tip_backed s1) by by apply issue_backed.
  destruct (cw_answer w (c_trace s1)) as [e|resp] eqn:Eresp; [done|].
  destruct (truthy (jget "ok" resp)) eqn:Eok; [|done]. cbn [negb].
  unfold c_call. cbv zeta. set (s2 := issue w CTipJson s1). assert (H2 : tip_backed s2) by by apply issue_backed.
  destruct (cw_answer w (c_trace s2)) as [e|answer] eqn:Eans; [done|].
  destruct (SealId.is_nullish answer); [done|]. cbn. split_and!; [done..|].
  by exists (c_trace s), (c_clock s), (c_clock s1), resp, answer.
Qed.

Lemma tip_keeps : anyway tip_backed (getUploadRelayTipAddress w st).
Proof.
  unfold getUploadRelayTipAddress. apply if_anyway; [by auto with backed|]. apply bind_anyway; [by auto with backed|].
  intros [a|]; [by auto with backed|]. intros s Hs. pose proof (load_tip_spec s Hs) as Hl.
  destruct (load_tip_address w st s) as [s' [f|a]]; [by destruct Hl|]. destruct Hl as (E1 & E2 & Hserved).
  intros a' Ha. rewrite E2. by simplify_eq.
Qed.

Lemma refresh_keeps : anyway tip_backed (refreshWalrusClient w st relayTimeout).
Proof. unfold refreshWalrusClient, clearUploadRelayTipCache. auto 10 with backed. Qed.
Lemma pages_keep fuel owner token : anyway tip_backed (list_pages w fuel owner token).
Proof.
  revert token. induction fuel as [|fuel IH]; intros token; cbn [list_pages]; [auto with backed|].
  apply bind_anyway; [auto with backed|]. intros [entries [t|]]; auto with backed.
Qed.
Lemma wallets_keep fuel owners : anyway tip_backed (list_wallets w fuel owners).
Proof.
  induction owners as [|owner owners IH]; cbn; [auto with backed|].
  apply bind_anyway; [apply pages_keep|]. auto with backed.
Qed.
Lemma wal_type_keeps : anyway tip_backed (getWalCoinType w).
Proof.
  unfold getWalCoinType, load_wal_type. apply bind_anyway; [auto with backed|]. intros [name|]; [auto with backed|].
  apply bind_anyway; [|auto with backed]. apply bind_anyway; [auto with backed|]. intros v. cbv zeta. repeat case_match; auto with backed.
Qed.
Lemma snapshot_keeps fuel owners : anyway tip_backed (loadWalletBalanceSnapshot w fuel owners).
Proof.
  apply bind_anyway; [apply wal_type_keeps|]. intros name. apply bind_anyway; [apply wallets_keep|]. auto with backed.
Qed.

Lemma op_keeps o s : tip_backed s → tip_backed (run_op w st relayTimeout o s).
Proof.
  intros Hs. assert (Hkeep : ∀ A (m : CM A), anyway tip_backed m → tip_backed (fst (m s))).
  { intros A m Hm. specialize (Hm s Hs). by destruct (m s) as [s' []]. }
  destruct o as [| |ms| |owner|fuel owners|ms]; cbn [run_op]; try apply Hkeep.
  - apply tip_keeps.
  - apply refresh_keeps.
  - unfold refreshWalrusClientIfStale, walrusClientAgeMs. apply bind_anyway; [auto with backed|]. intros age.
    apply if_anyway; [apply refresh_keeps|auto with backed].
  - unfold fetchWalrusSystemVersion. auto with backed.
  - unfold getSuiBalanceMist. auto with backed.
  - apply snapshot_keeps.
  - exact Hs.
Qed.
Lemma ops_keep ops t : tip_backed (foldl (λ s o, run_op w st relayTimeout o s) (started_at t) ops).
Proof.
  assert (∀ s, tip_backed s → tip_backed (foldl (λ s o, run_op w st relayTimeout o s) s ops)) as Hk.
  { induction ops as [|o ops IH]; intros s Hs; [done|]. cbn. by apply IH, op_keeps. }
  apply Hk. by intros a Ha.
Qed.

(** Whatever the sidecar did before, an upload relay tip goes to an address
    that the relay named less than the cache's time to live ago, or to nobody
    when no relay is used or the relay named none; when the relay cannot be
    asked the call throws, so no transaction is built without a required tip,
    and the cache is left as it was. *)
Theorem tip_address_fresh (ops : list op) (t : Z) :
  0 < UPLOAD_RELAY_TIP_CACHE_TTL_MS st →
  let s := foldl (λ s o, run_op w st relayTimeout o s) (started_at t) ops in
  match getUploadRelayTipAddress w st s with
  | (s', inr address) =>
      (relay_disabled st = true ∧ address = None ∧ s' = s) ∨
      (relay_disabled st = false ∧ ∃ loaded, served address loaded (c_trace s') ∧
         c_clock s' - loaded < UPLOAD_RELAY_TIP_CACHE_TTL_MS st)
  | (s', inl f) => uploadRelayTipAddressCache s' = uploadRelayTipAddressCache s
  end.
Proof.
  intros Httl s. pose proof (ops_keep ops t : tip_backed s) as Hs. unfold getUploadRelayTipAddress.
  destruct (relay_disabled st); [by left|]. unfold mbind at 1, st_bind at 1, gets. cbn iota beta.
  destruct (uploadRelayTipAddressCache s) as [a|] eqn:Ec.
  - destruct (_ <? _) eqn:Et.
    + right. split; [done|]. exists (uploadRelayTipAddressCacheLoadedAtMs s). split; [by apply Hs|]. cbn. lia.
    + pose proof (load_tip_spec s Hs) as Hl. destruct (load_tip_address w st s) as [s' [f|a']].
      * by rewrite (proj2 Hl).
      * right. split; [done|]. exists (c_clock s'). split; [apply Hl|lia].
  - pose proof (load_tip_spec s Hs) as Hl. destruct (load_tip_address w st s) as [s' [f|a']].
    + by rewrite (proj2 Hl).
    + right. split; [done|]. exists (c_clock s'). split; [apply Hl|lia].
Qed.
End Ops.

(** ** The balance snapshot *)
Section Balances.
Context `{SuiTx} (w : client_world) (suiType walType : string).

(** All pages of an owner's balances, from a page token on. *)
Inductive paged (chain : string → option string → js_error + (list balance_entry * option string)) (owner : string)
    : option string → list balance_entry → Prop :=
| paged_last token entries next : chain owner token = inr (entries, next) →
    default empty_str next = empty_str → paged chain owner token entries
| paged_more token entries next rest : chain owner token = inr (entries, Some next) →
    next ≠ empty_str → paged chain owner (Some next) rest → paged chain owner token (entries ++ rest).

(** What one entry adds, when it has a coin type. *)
Definition amounts (b : balance_entry) : wallet_totals :=
  match entry_totals suiType walType b with inr t => t | inl _ => no_totals end.
Definition sum_of (l : list balance_entry) : wallet_totals := foldr add_totals no_totals (map amounts l).

Lemma add_totals_assoc a b c : add_totals a (add_totals b c) = add_totals (add_totals a b) c.
Proof. unfold add_totals. cbn. f_equal; lia. Qed.
Lemma add_no_totals a : add_totals a no_totals = a.
Proof. destruct a. unfold add_totals. cbn. f_equal; lia. Qed.
Lemma no_totals_add a : add_totals no_totals a = a.
Proof. by destruct a. Qed.
Lemma sum_of_app l l' : sum_of (l ++ l') = add_totals (sum_of l) (sum_of l').
Proof.
  unfold sum_of. induction l as [|b l IH]; cbn; [by rewrite no_totals_add|].
  by rewrite IH, add_totals_assoc.
Qed.

Lemma sum_entries_spec l acc t : sum_entries suiType walType l acc = inr t →
  t = add_totals acc (sum_of l) ∧ Forall (λ b, coinType b ≠ empty_str) l.
Proof.
  revert acc. induction l as [|b l IH]; intros acc; cbn [sum_entries]; [intros [= <-]; split; [symmetry; apply add_no_totals|constructor]|].
  destruct (entry_totals suiType walType b) as [e|tb] eqn:Eb; [done|]. intros Hs.
  destruct (IH _ Hs) as [-> Hl]. cbn. unfold amounts at 1. rewrite Eb, <-add_totals_assoc. split; [done|].
  constructor; [|done]. unfold entry_totals in Eb. apply ensure_inr in Eb as [Hc _]. intros E. by rewrite E in Hc.
Qed.

Definition wallet_row (ow : string * list balance_entry) : string * string * string :=
  (ow.1, pretty (t_sui (sum_of ow.2)), pretty (t_wal (sum_of ow.2))).
Definition funded (amount : wallet_totals → Z) (l : list (string * list balance_entry)) : Z :=
  Z.of_nat (length (filter (λ ow, 0 < amount (sum_of ow.2)) l)).
Lemma funded_cons amount ow l : funded amount (ow :: l) = (if 0 <? amount (sum_of ow.2) then 1 else 0) + funded amount l.
Proof.
  unfold funded. rewrite filter_cons. destruct (decide _) as [Hp|Hp]; cbn [length];
    destruct (0 <? amount (sum_of ow.2)) eqn:E; lia.
Qed.

Lemma add_wallets_spec l acc snap : add_wallets suiType walType l acc = inr snap →
  walletTotals snap = add_totals (walletTotals acc) (sum_of (concat l.*2)) ∧
  walletSuiAddressFundedCount snap = walletSuiAddressFundedCount acc + funded t_suiAddress l ∧
  walletWalAddressFundedCount snap = walletWalAddressFundedCount acc + funded t_walAddress l ∧
  perWallet snap = perWallet acc ++ map wallet_row l ∧
  Forall (λ b, coinType b ≠ empty_str) (concat l.*2).
Proof.
  revert acc. induction l as [|[owner balances] l IH]; intros acc; cbn [add_wallets].
  - intros [= <-]. rewrite add_no_totals, app_nil_r. unfold funded. cbn. split_and!; [done|lia..|done|constructor].
  - destruct (sum_entries _ _ _ _) as [e|t] eqn:Et; [done|]. intros Hs.
    destruct (sum_entries_spec _ _ _ Et) as [-> Hb]. rewrite no_totals_add in *.
    destruct (IH _ Hs) as (-> & -> & -> & -> & Hl).
    change (((owner, balances) :: l).*2) with (balances :: l.*2). cbn [concat add_wallet walletTotals
      walletSuiAddressFundedCount walletWalAddressFundedCount perWallet]. rewrite sum_of_app, add_totals_assoc, !funded_cons.
    cbn [snd]. split_and!; [done|lia..| |by apply Forall_app]. by rewrite <-app_assoc.
Qed.

(** Balances reported as held by the address or as coins add up. *)
Definition split_evenly (b : balance_entry) : Prop :=
  default (default 0 (balance b) - default 0 (addressBalance b)) (coinBalance b) =
  default 0 (balance b) - default 0 (addressBalance b).
Definition adds_up (t : wallet_totals) : Prop := t_sui t = t_suiAddress t + t_suiCoin t ∧ t_wal t = t_walAddress t + t_walCoin t.
Lemma sum_adds_up l : Forall split_evenly l → adds_up (sum_of l).
Proof.
  induction 1 as [|b l Hb _ [IH1 IH2]]; [done|]. unfold split_evenly in Hb.
  assert (adds_up (amounts b)) as [H1 H2].
  { unfold amounts, entry_totals, ensure. destruct (negb _); [|done].
    destruct (seqb _ suiType); [|destruct (seqb _ walType)]; cbn; split; cbn; lia. }
  change (sum_of (b :: l)) with (add_totals (amounts b) (sum_of l)). unfold adds_up, add_totals.
  cbn [t_sui t_suiAddress t_suiCoin t_wal t_walAddress t_walCoin]. lia.
Qed.
End Balances.

Section Snapshot.
Context `{SuiTx} (w : client_world).
Context (chain : string → option string → js_error + (list balance_entry * option string)).
Context (stable : ∀ tr t owner token, cw_list w (tr ++ [(t, CListBalances owner token)]) = chain owner token).

Lemma pages_complete fuel owner token s s' entries :
  list_pages w fuel owner token s = (s', inr entries) → paged chain owner token entries.
Proof.
  revert token s s' entries. induction fuel as [|fuel IH]; intros token s s' entries; cbn [list_pages]; [done|].
  intros (s1 & [page next] & Hp & Hk)%bind_inr. unfold c_list in Hp. cbv zeta in Hp. cbn in Hp.
  rewrite stable in Hp. destruct (chain owner token) as [|p] eqn:Ec; simplify_eq/=.
  destruct next as [next|]; [|unfold mret, st_ret in Hk; simplify_eq; eapply paged_last; [exact Ec|done]].
  destruct (is_empty next) eqn:En.
  - unfold mret, st_ret in Hk. simplify_eq. eapply paged_last; [exact Ec|]. by apply seqb_eq in En.
  - apply bind_inr in Hk as (s2 & rest & Hr & Hk). unfold mret, st_ret in Hk. simplify_eq.
    eapply paged_more; [exact Ec| |by eapply IH]. intros ->. by unfold is_empty in En; rewrite seqb_refl in En.
Qed.
Lemma wallets_complete fuel owners s s' l : list_wallets w fuel owners s = (s', inr l) →
  l.*1 = owners ∧ Forall (λ ow, paged chain ow.1 None ow.2) l.
Proof.
  revert s s' l. induction owners as [|owner owners IH]; intros s s' l; cbn [list_wallets]; [intros [= <- <-]; split; [done|constructor]|].
  intros (s1 & balances & Hp & (s2 & rest & Hr & Hk)%bind_inr)%bind_inr. unfold mret, st_ret in Hk. simplify_eq.
  destruct (IH _ _ _ Hr) as [<- Hl]. split; [done|]. constructor; [by eapply pages_complete|done].
Qed.

(** A balance snapshot counts every entry of every page of every server
    wallet exactly once, under the coin type it is of: one row per wallet in
    the order of the configuration, totals that are the sums of the rows'
    entries, and the number of wallets with a positive address balance.  If
    the chain's entries add up, so do the totals.  An entry without a coin
    type is never skipped: the snapshot fails instead. *)
Theorem balance_snapshot_exact (page_fuel : nat) (owners : list string) (s s' : cstate) (snap : WalletBalanceSnapshot) :
  loadWalletBalanceSnapshot w page_fuel owners s = (s', inr snap) →
  ∃ walType (wallets : list (string * list balance_entry)),
    let suiType := normalizeStructTag SUI_TYPE in
    wallets.*1 = owners ∧ Forall (λ ow, paged chain ow.1 None ow.2) wallets ∧
    perWallet snap = map (wallet_row suiType walType) wallets ∧
    walletTotals snap = sum_of suiType walType (concat wallets.*2) ∧
    walletSuiAddressFundedCount snap = funded suiType walType t_suiAddress wallets ∧
    walletWalAddressFundedCount snap = funded suiType walType t_walAddress wallets ∧
    Forall (λ b, coinType b ≠ empty_str) (concat wallets.*2) ∧
    (Forall split_evenly (concat wallets.*2) → adds_up (walletTotals snap)).
Proof.
  intros (s1 & walType & _ & (s2 & wallets & Hw & Hk)%bind_inr)%bind_inr.
  destruct (wallets_complete _ _ _ _ _ Hw) as [Ho Hp].
  destruct (add_wallets _ _ _ _) as [e|snap'] eqn:Ea; [done|]; cbn [c_of_sum] in Hk; unfold mret, st_ret in Hk; simplify_eq.
  destruct (add_wallets_spec _ _ _ _ _ Ea) as (Et & Es & Ewal & Er & Hc).
  cbn [walletTotals walletSuiAddressFundedCount walletWalAddressFundedCount perWallet] in *. rewrite no_totals_add in Et.
  exists walType, wallets. cbv zeta. split_and!; [done|done|exact Er|exact Et|rewrite Es; lia|rewrite Ewal; lia|done|]. intros Hs. rewrite Et. by apply sum_adds_up.
Qed.
End Snapshot.

(** ** Concrete clients: a relay that names an address, two pages of balances *)
#[local] Instance ex_tx : SuiTx := {|
  tx_digest _ := "digest"; tx_from_bytes _ := inl (plain_error "no transaction"); tx_sign _ _ := "signature";
  tx_verify _ _ _ := None; normalizeStructTag s := s |}.
Definition ex_chain (owner : string) (token : option string) : js_error + (list balance_entry * option string) :=
  match token with
  | None => inr ([BalanceEntry SUI_TYPE (Some 10) (Some 4) None], Some "page-2")
  | Some _ => inr ([BalanceEntry "0x9::wal::WAL" (Some 7) None (Some 7); BalanceEntry "0x5::x::X" (Some 1) None None], None)
  end.
Definition ex_clients : client_world :=
  ClientWorld
    (λ tr, match last tr with
           | Some (_, CTipConfig _) => inr (JObj [("ok", JBool true); ("status", jint 200)])
           | Some (_, CTipJson) => inr (JObj [("send_tip", JObj [("address", JStr "0xtip")])])
           | Some (_, CGetFunction) => inr (JObj [("function", JObj [("parameters", JArr [JNull; JObj [("body",
               JObj [("typeParameterInstantiation", JArr [JObj [("typeName", JStr "0x9::wal::WAL")]])])]])])])
           | _ => inr JNull
           end)
    (λ tr, match last tr with Some (_, CListBalances owner token) => ex_chain owner token | _ => inl (plain_error "no list") end)
    (λ _, 3).
Lemma ex_clients_stable tr t owner token :
  cw_list ex_clients (tr ++ [(t, CListBalances owner token)]) = ex_chain owner token.
Proof. cbn. by rewrite last_snoc. Qed.
Definition ex_settings : settings :=
  match load_settings (λ _, None) (λ s, s) (λ _, true) (λ _, inl (plain_error "no key")) (λ _, inl (plain_error "no key")) with
  | inr s => s
  | inl _ => Settings Config.mainnet empty_str empty_str empty_str [] 0 0 false false empty_str [] [] empty_str empty_str
               empty_str empty_str false 0 0 0 (Config.Limits 0 0 0 0 0 0 0 0 0) 0 None empty_str false None empty_str full
  end.
Definition ex_ops : list op := [OTip; OPass 1000; ORefresh; OVersion; OTip; OPass 299000].

Lemma tip_address_fresh_witness :
  let s := foldl (λ s o, run_op ex_clients ex_settings None o s) (started_at 0) ex_ops in
  snd (getUploadRelayTipAddress ex_clients ex_settings s) = inr (Some "0xtip") ∧
  (relay_disabled ex_settings = false ∧ ∃ loaded,
     served ex_clients ex_settings (Some "0xtip") loaded (c_trace (fst (getUploadRelayTipAddress ex_clients ex_settings s))) ∧
     c_clock (fst (getUploadRelayTipAddress ex_clients ex_settings s)) - loaded < UPLOAD_RELAY_TIP_CACHE_TTL_MS ex_settings).
Proof.
  intros s. assert (E : snd (getUploadRelayTipAddress ex_clients ex_settings s) = inr (Some "0xtip")) by (vm_compute; reflexivity).
  split; [exact E|]. pose proof (tip_address_fresh ex_clients ex_settings None ex_ops 0 ltac:(vm_compute; reflexivity)) as H.
  cbv zeta in H. fold s in H. destruct (getUploadRelayTipAddress ex_clients ex_settings s) as [s' [f|a]]; [discriminate E|].
  cbn in E. simplify_eq. destruct H as [(_ & H & _)|H]; [discriminate H|exact H].
Defined.

Lemma balance_snapshot_exact_witness :
  let r := loadWalletBalanceSnapshot ex_clients 5 ["0xa"; "0xb"] (started_at 0) in
  ∃ s' snap, r = (s', inr snap) ∧
    perWallet snap = [("0xa", "10", "7"); ("0xb", "10", "7")] ∧
    walletTotals snap = WalletTotals 20 8 12 14 0 14 ∧
    adds_up (walletTotals snap).
Proof.
  intros r. destruct r as [s' [f|snap]] eqn:Er; [vm_compute in Er; discriminate Er|]. exists s', snap.
  destruct (balance_snapshot_exact ex_clients ex_chain ex_clients_stable 5 ["0xa"; "0xb"] (started_at 0) s' snap Er)
    as (walType & wallets & _ & _ & _ & Et & _).
  vm_compute in Er. simplify_eq. split_and!; done.
Defined.
