(* ===== verification/Health.v ===== *)
(** * Observability endpoints (routes/health.ts, sidecar/state.ts)

    [GET /health], [/ready], [/metrics/wallet] and, behind the shared secret,
    [/internal/wallet-balances].  What the process reports of itself is a
    record; the balance snapshot of [Clients] is one call. *)
From Stdlib Require Import QArith.
From S2P Require Import Prelude JsText JsNumber SealId SealConfig Config Retry Service Settings Clients Blob Durable Journal.
From S2P Require Enoki.
Local Open Scope Z_scope.

(** [process], the upload counters and the shared clients at the time of asking. *)
Record process_info : Type := ProcessInfo {
  pid : Z;
  rss : Z; heapUsed : Z; heapTotal : Z; external : Z;      (** bytes *)
  sidecarStartedAtMs : Z;
  activeUploads : Z; queuedUploads : Z;
  tipCache : string * option Z;                            (** [uploadRelayTipCacheSnapshot()] *)
  clientAgeMs : Z;                                         (** [walrusClientAgeMs()] *)
}.

Definition megabytes (bytes : Z) : json := jint (math_round (bytes # 1048576)%Q).
Definition upload_limits_json (st : settings) : json :=
  let l := upload_limits st in
  JObj [("globalCapacity", jint (Config.WALRUS_UPLOAD_MAX_CONCURRENCY l));
        ("perWalletCapacity", jint (Config.WALRUS_UPLOAD_PER_WALLET_CONCURRENCY l));
        ("acquireTimeoutMs", jint (Config.WALRUS_UPLOAD_ACQUIRE_TIMEOUT_MS l))].
Definition jcount {A} (l : list A) : json := jint (Z.of_nat (length l)).
Definition enoki_enabled (st : settings) : bool := negb (Enoki.api_key_missing (ENOKI_API_KEY st)).

(** ** state.ts *)
Definition sidecarStateSnapshot (p : process_info) (st : settings) (m : Enoki.metrics) (now : Z) : list (string * json) :=
  [("pid", jint (pid p)); ("uptimeMs", jint (now - sidecarStartedAtMs p));
   ("memory", JObj [("rssMb", megabytes (rss p)); ("heapUsedMb", megabytes (heapUsed p));
                    ("heapTotalMb", megabytes (heapTotal p)); ("externalMb", megabytes (external p))]);
   ("activeWalrusUploads", jint (activeUploads p)); ("queuedWalrusUploads", jint (queuedUploads p));
   ("walrusUploadLimits", upload_limits_json st);
   ("walletSubmittedTotal", jint (Enoki.walletSubmittedTotal m));
   ("walletLockErrorsTotal", jint (Enoki.walletLockErrorsTotal m));
   ("walletObjectLockEquivocationTotal", jint (Enoki.walletObjectLockEquivocationTotal m));
   ("walletPermanentFailuresTotal", jint (Enoki.walletPermanentFailuresTotal m));
   ("uploadRelayTipCache", JStr (tipCache p).1);
   ("uploadRelayTipCacheAgeMs", match (tipCache p).2 with Some ms => jint ms | None => JNull end);
   ("walrusClientAgeMs", jint (clientAgeMs p));
   ("serverKeyCount", jcount (SERVER_SUI_PRIVATE_KEYS st));
   ("sealServerCount", jcount (SEAL_SERVER_CONFIGS st));
   ("sealThreshold", jint (SEAL_THRESHOLD st));
   ("sealKeyServerTimeoutMs", jint (SEAL_KEY_SERVER_TIMEOUT_MS st));
   ("suiNetwork", JStr (network_name (SUI_NETWORK st)));
   ("enokiNetwork", JStr (ENOKI_NETWORK st));
   ("enokiEnabled", JBool (enoki_enabled st));
   ("fallbackToDirectSign", JBool (ENOKI_FALLBACK_TO_DIRECT_SIGN st));
   ("enokiTransientMaxAttempts", jint (Config.ENOKI_TRANSIENT_MAX_ATTEMPTS (upload_limits st)));
   ("enokiInvalidatedMaxAttempts", jint (Config.ENOKI_INVALIDATED_MAX_ATTEMPTS (upload_limits st)))].

(** The fields of a [WalletBalanceSnapshot], in the order of its literal. *)
Definition snapshot_fields (b : WalletBalanceSnapshot) : list (string * json) :=
  let t := walletTotals b in
  [("walletSuiBalanceMist", JStr (pretty (t_sui t))); ("walletSuiAddressBalanceMist", JStr (pretty (t_suiAddress t)));
   ("walletSuiCoinBalanceMist", JStr (pretty (t_suiCoin t)));
   ("walletSuiAddressFundedCount", jint (walletSuiAddressFundedCount b));
   ("walletWalBalanceFrost", JStr (pretty (t_wal t))); ("walletWalAddressBalanceFrost", JStr (pretty (t_walAddress t)));
   ("walletWalCoinBalanceFrost", JStr (pretty (t_walCoin t)));
   ("walletWalAddressFundedCount", jint (walletWalAddressFundedCount b));
   ("perWallet", JArr (map (λ r, JObj [("address", JStr r.1.1); ("suiMist", JStr r.1.2); ("walFrost", JStr r.2)])
                          (perWallet b)))].

(** [delete o.k] and [{ ...a, ...b }] on own fields *)
Definition without (k : string) (o : list (string * json)) : list (string * json) := filter (λ f, f.1 ≠ k) o.
Definition set_field (o : list (string * json)) (f : string * json) : list (string * json) :=
  if existsb (λ g, seqb g.1 f.1) o then map (λ g, if seqb g.1 f.1 then f else g) o else o ++ [f].
Definition spread (a b : list (string * json)) : list (string * json) := foldl set_field a b.
Definition own_fields (v : json) : list (string * json) := match v with JObj fs => fs | _ => [] end.

Section Health.
Context `{SuiSdk} `{WalrusSdk} `{SuiTx} (sv : service) (st : settings) (p : process_info).

Definition uptime (s : sstate) : json := jint (s_clock s - sidecarStartedAtMs p).
(** ** GET /health *)
Definition health_handler : SM response :=
  up ← gets uptime; mret (ok (JObj [("status", JStr "ok"); ("uptimeMs", up)])).

(** ** GET /ready *)
Definition assertProvenanceEndpointIdentity : SM unit :=
  result ← call sv SProvenanceChain;
  let failed := match jget "errors" result with JArr (_ :: _) => true | _ => false end in
  if failed || negb (Enoki.is_str (jget "chainIdentifier" (jget "data" result)) (SUI_CHAIN_IDENTIFIER st))
  then s_throw (plain_error ("Sui archival GraphQL endpoint does not match " +:+ network_name (SUI_NETWORK st)))
  else mret tt.
Definition identity_json (id : string * string) : json :=
  JObj [("chainIdentifier", JStr id.1); ("walrusPackageId", JStr id.2)].
Definition ready_body (identity : string * string) (up : json) : json :=
  JObj [("status", JStr "ok"); ("uptimeMs", up);
        ("activeWalrusUploads", jint (activeUploads p)); ("queuedWalrusUploads", jint (queuedUploads p));
        ("serverKeyCount", jcount (SERVER_SUI_PRIVATE_KEYS st));
        ("serverKeyAddresses", JArr (map JStr (SERVER_SUI_ADDRESSES st)));
        ("suiNetwork", JStr (network_name (SUI_NETWORK st)));
        ("uploadProtocolVersion", jint DURABLE_UPLOAD_PROTOCOL_VERSION);
        ("durableUploadDirectSign", JBool (negb (enoki_enabled st)));
        ("durableUploadAddressBalance", JBool true);
        ("uploadExecutionIdentity", identity_json identity);
        ("sealCommitteeIdentity",
          SealConfig.identity_json (SealConfig.getSealCommitteeIdentity (SEAL_SERVER_CONFIGS st) (SEAL_THRESHOLD st)));
        ("sealServerCount", jcount (SEAL_SERVER_CONFIGS st)); ("sealThreshold", jint (SEAL_THRESHOLD st));
        ("walrusUploadLimits", upload_limits_json st)].
Definition executionIdentity_of : SM (string * string) :=
  executionIdentity sv (WALRUS_PACKAGE_ID st) (SUI_CHAIN_IDENTIFIER st) (network_name (SUI_NETWORK st)).
Definition ready_handler (requireProvenance : bool) : SM response :=
  s_catch
    (identity ← executionIdentity_of;
     _ ← (if requireProvenance then assertProvenanceEndpointIdentity else mret tt);
     up ← gets uptime;
     mret (ok (ready_body identity up)))
    (λ _, mret (Resp 503 (JObj [("status", JStr "error"); ("error", JStr "Upload execution identity unavailable")]))).

(** ** GET /metrics/wallet and /internal/wallet-balances *)
Definition wallet_metrics_handler : SM response :=
  snapshot ← gets (λ s, sidecarStateSnapshot p st (Enoki.sidecarMetrics (s_wallet s)) (s_clock s));
  s_catch
    (balances ← call sv (SWalletBalances (SERVER_SUI_ADDRESSES st));
     mret (ok (JObj (spread snapshot (without "perWallet" (own_fields balances))))))
    (λ _, mret (ok (JObj snapshot))).
Definition wallet_balances_handler : SM response :=
  s_catch
    (balances ← call sv (SWalletBalances (SERVER_SUI_ADDRESSES st));
     mret (ok (JObj [("perWallet", jget "perWallet" balances)])))
    (λ _, mret (refuse 503 "Wallet balances unavailable")).
End Health.
