(* ===== verification/AddressBalance.v ===== *)
(** * Address-balance coin intents (sidecar/address-balance.ts, sidecar/wallet.ts)

    The serialization and build plugins that keep the SDK from falling back
    to owned coins: the intents must be covered by the address balance,
    resolving them must not bring a coin object in, and gas must not come
    from one.  A coin that the caller had put among the inputs itself, before
    the first pass, is not looked at.

    The SDK resolves a transaction in several passes over the plugins;
    [next] is the rest of a pass. *)
From Stdlib Require Import QArith.
From S2P Require Import Prelude JsText JsNumber JsonParse SealId Retry Settings Durable.
Local Open Scope Z_scope.

(** What the plugins read of a transaction. *)
Record tx_input : Type := TxInput {
  in_owned : json;         (** [input.Object?.ImmOrOwnedObject?.objectId] *)
  in_unresolved : json;    (** [input.UnresolvedObject?.objectId] *)
}.
Inductive tx_command : Type :=
| Intent (name : string) (type balance : json)    (** [$kind === "$Intent"] *)
| OtherCommand.
Record transaction_data : Type := TransactionData {
  inputs : list tx_input;
  commands : list tx_command;
  td_sender : option string;
  gas_payment : option (list string);
}.
Definition COIN_WITH_BALANCE_INTENT : string := "CoinWithBalance".
Definition text_value (v : json) : option string := match v with JStr s => Some s | _ => None end.

(** ** [patchGasCoinIntents] *)
Definition patch_command (c : tx_command) : tx_command :=
  match c with
  | Intent name type balance =>
      if seqb name COIN_WITH_BALANCE_INTENT && Enoki.is_str type "gas"
      then Intent name (JStr SUI_TYPE) balance else c
  | OtherCommand => c
  end.
Definition patchGasCoinIntents (td : transaction_data) : transaction_data :=
  TransactionData (inputs td) (map patch_command (commands td)) (td_sender td) (gas_payment td).

Section Plugin.
Context `{SuiTx}.
(** [parseStructTag(type)]: address, module and name. *)
Context (parseStructTag : string → js_error + (string * string * string)) (SUI_FRAMEWORK_ADDRESS : string).

(** What the plugin's closure remembers between passes. *)
Record closure : Type := Closure {
  initialOwnedObjectIds : option (list string);
  hasCoinWithBalanceIntents : bool;
}.
Definition fresh_closure : closure := Closure None false.

Definition owned_before (l : list tx_input) : list string :=
  omap (λ i, text_value (coalesce (in_owned i) (in_unresolved i))) l.
Definition owned_after (l : list tx_input) : list string := omap (λ i, text_value (in_owned i)) l.

(** A map in insertion order: [requiredByType]. *)
Fixpoint add_required (coinType : string) (amount : Z) (m : list (string * Z)) : list (string * Z) :=
  match m with
  | [] => [(coinType, amount)]
  | (k, v) :: m' => if seqb k coinType then (k, v + amount) :: m' else (k, v) :: add_required coinType amount m'
  end.
Definition is_amount (v : json) : bool := match v with JNum _ | JStr _ => true | _ => false end.
Fixpoint required_by_type (l : list tx_command) (m : list (string * Z)) : js_error + list (string * Z) :=
  match l with
  | [] => inr m
  | Intent name (JStr type) balance :: l' =>
      if seqb name COIN_WITH_BALANCE_INTENT && is_amount balance then
        match to_bigint balance with
        | None => inl (plain_error ("Cannot convert " +:+ js_string balance +:+ " to a BigInt"))
        | Some amount =>
            let coinType := if seqb type "gas" then SUI_TYPE else normalizeStructTag type in
            required_by_type l' (add_required coinType amount m)
        end
      else required_by_type l' m
  | _ :: l' => required_by_type l' m
  end.

(** The client of the build options, when it has these methods. *)
Record sui_client : Type := SuiClient {
  getBalance : option (string → string → js_error + json);
  getObjects : option (list string → js_error + list (js_error + json));
}.

Definition check_balance (get : string → string → js_error + json) (owner : string) (r : string * Z) : js_error + unit :=
  match get owner r.1 with
  | inl e => inl e
  | inr response =>
      match to_bigint (coalesce (jget "addressBalance" (jget "balance" response)) (jint 0)) with
      | None => inl (plain_error "Cannot convert addressBalance to a BigInt")
      | Some available =>
          guard_or negb (available <? r.2)
            else plain_error ("Insufficient " +:+ r.1 +:+ " address balance: required " +:+ pretty r.2 +:+
                              ", available " +:+ pretty available);
          inr tt
      end
  end.
Fixpoint check_balances (get : string → string → js_error + json) (owner : string) (l : list (string * Z)) : js_error + unit :=
  match l with
  | [] => inr tt
  | r :: l' => match check_balance get owner r with inl e => inl e | inr _ => check_balances get owner l' end
  end.
(** A resolved object: its id when it is a [0x2::coin::Coin]. *)
Definition coin_id (object : js_error + json) : js_error + option string :=
  match object with
  | inl e => inl (plain_error ("Address-balance upload could not verify resolved object: " +:+ errorMessage e))
  | inr o =>
      match jget "type" o with
      | JStr type =>
          match parseStructTag type with
          | inl e => inl e
          | inr (address, module, name) =>
              inr (if seqb address SUI_FRAMEWORK_ADDRESS && seqb module "coin" && seqb name "Coin"
                   then text_value (jget "objectId" o) else None)
          end
      | _ => inl (plain_error ("Address-balance upload could not verify resolved object " +:+
                               js_string (coalesce (jget "objectId" o) (JStr empty_str))))
      end
  end.
Fixpoint coin_ids (l : list (js_error + json)) : js_error + list string :=
  match l with
  | [] => inr []
  | o :: l' => match coin_id o with
               | inl e => inl e
               | inr id => match coin_ids l' with
                           | inl e => inl e
                           | inr ids => inr (option_list id ++ ids)
                           end
               end
  end.

(** One pass of the serialization plugin. *)
Definition required_of (td : transaction_data) : js_error + list (string * Z) := required_by_type (commands td) [].
Definition newly_owned (initial : list string) (td : transaction_data) : list string :=
  filter (λ id, id ∉ initial) (owned_after (inputs td)).
Definition verify_resolved (client : sui_client) (newly : list string) : js_error + unit :=
  match getObjects client with
  | None => inl (plain_error "Address-balance upload could not verify newly resolved objects")
  | Some get =>
      match get newly with
      | inl e => inl e
      | inr objects =>
          match coin_ids objects with
          | inl e => inl e
          | inr [] => inr tt
          | inr ids => inl (plain_error ("Address-balance upload resolved owned coin objects: " +:+ join ", " ids))
          end
      end
  end.
Definition cover_intents (client : sui_client) (td : transaction_data) (required : list (string * Z)) : js_error + unit :=
  match getBalance client, td_sender td with
  | Some get, Some owner =>
      if is_empty owner then inl (plain_error "Address-balance upload requires a sender and Sui client")
      else check_balances get owner required
  | _, _ => inl (plain_error "Address-balance upload requires a sender and Sui client")
  end.
Definition plugin_pass (client : sui_client) (next : transaction_data → js_error + transaction_data)
    (c : closure) (td : transaction_data) : closure * (js_error + transaction_data) :=
  let initial := default (owned_before (inputs td)) (initialOwnedObjectIds c) in
  let c1 := Closure (Some initial) (hasCoinWithBalanceIntents c) in
  match required_of td with
  | inl e => (c1, inl e)
  | inr required =>
      let intents := negb (bool_decide (required = [])) in
      let c2 := Closure (Some initial) (hasCoinWithBalanceIntents c || intents) in
      match (if intents then cover_intents client td required else inr tt) with
      | inl e => (c2, inl e)
      | inr _ =>
          match next td with
          | inl e => (c2, inl e)
          | inr td' =>
              let newly := newly_owned initial td' in
              if hasCoinWithBalanceIntents c2 && negb (bool_decide (newly = []))
              then (c2, match verify_resolved client newly with inl e => inl e | inr _ => inr td' end)
              else (c2, inr td')
          end
      end
  end.
(** The build plugin: gas must not come from an owned coin. *)
Definition build_plugin (next : transaction_data → js_error + transaction_data) (td : transaction_data)
    : js_error + transaction_data :=
  match next td with
  | inl e => inl e
  | inr td' =>
      guard_or match gas_payment td' with Some (_ :: _) => false | _ => true end
        else plain_error "Address-balance upload resolved gas from an owned coin";
      inr td'
  end.

(** The passes of one transaction: each with the data it starts from and the
    rest of the pass; what is between two passes is the SDK's. *)
Notation pass := (transaction_data * (transaction_data → js_error + transaction_data))%type.
Fixpoint run_passes (client : sui_client) (c : closure) (l : list pass) : closure * (js_error + list transaction_data) :=
  match l with
  | [] => (c, inr [])
  | (td, next) :: l' =>
      match plugin_pass client next c td with
      | (c1, inl e) => (c1, inl e)
      | (c1, inr td') => match run_passes client c1 l' with
                         | (c2, inl e) => (c2, inl e)
                         | (c2, inr tds) => (c2, inr (td' :: tds))
                         end
      end
  end.

(** ** What a successful pass guarantees *)

(** The total of the intents of a coin type. *)
Definition intent_of (c : tx_command) : option (string * Z) :=
  match c with
  | Intent name (JStr type) balance =>
      if seqb name COIN_WITH_BALANCE_INTENT && is_amount balance then
        (λ amount, (if seqb type "gas" then SUI_TYPE else normalizeStructTag type, amount)) <$> to_bigint balance
      else None
  | _ => None
  end.
Definition total_of (coinType : string) (l : list (string * Z)) : Z :=
  foldr (λ r acc, (if seqb r.1 coinType then r.2 else 0) + acc) 0 l.

Lemma total_cons ct r l : total_of ct (r :: l) = (if seqb r.1 ct then r.2 else 0) + total_of ct l.
Proof. done. Qed.
Lemma add_required_total k amount m ct :
  total_of ct (add_required k amount m) = (if seqb k ct then amount else 0) + total_of ct m.
Proof.
  induction m as [|[k' v] m IH]; cbn [add_required]; [done|]. destruct (seqb k' k) eqn:Ek; rewrite !total_cons; cbn [fst snd].
  - apply seqb_eq in Ek. subst. destruct (seqb k ct); lia.
  - rewrite IH. lia.
Qed.
Lemma add_required_in k amount m x : x ∈ (add_required k amount m).*1 ↔ x = k ∨ x ∈ m.*1.
Proof.
  induction m as [|[k' v] m IH]; cbn [add_required fmap list_fmap fst].
  - rewrite elem_of_cons. tauto.
  - destruct (seqb k' k) eqn:Ek; cbn [fmap list_fmap fst]; rewrite !elem_of_cons.
    + apply seqb_eq in Ek. subst. tauto.
    + rewrite IH. tauto.
Qed.
Lemma add_required_nodup k amount m : NoDup m.*1 → NoDup (add_required k amount m).*1.
Proof.
  induction m as [|[k' v] m IH]; cbn; intros Hnd; [apply NoDup_singleton|].
  inversion Hnd as [|? ? Hn Hd]; subst. destruct (seqb k' k) eqn:Ek; cbn; [by constructor|].
  apply seqb_neq in Ek. constructor; [|by apply IH]. rewrite add_required_in. by intros [?|?].
Qed.
Lemma total_single (m : list (string * Z)) ct r : NoDup m.*1 → (ct, r) ∈ m → total_of ct m = r.
Proof.
  assert (Hz : ∀ l : list (string * Z), ct ∉ l.*1 → total_of ct l = 0).
  { induction l as [|[k v] l IHl]; [done|]. intros [Hne Hn]%not_elem_of_cons. rewrite total_cons. cbn [fst snd].
    cbn in Hne. assert (seqb k ct = false) as -> by (apply seqb_neq; congruence). by rewrite IHl. }
  induction m as [|[k v] m IH]; intros Hnd Hin; [by apply elem_of_nil in Hin|]. rewrite total_cons. cbn [fst snd].
  inversion Hnd as [|? ? Hn Hd]; subst. apply elem_of_cons in Hin as [[= <- <-]|Hin].
  - rewrite seqb_refl, Hz by done. lia.
  - rewrite (IH Hd Hin). assert (seqb k ct = false) as ->; [|lia]. apply seqb_neq. intros ->. apply Hn.
    by apply (list_elem_of_fmap_2 fst _ (ct, r)).
Qed.
Lemma required_by_type_spec l : ∀ m m', required_by_type l m = inr m' → NoDup m.*1 →
  NoDup m'.*1 ∧ (∀ ct, total_of ct m' = total_of ct m + total_of ct (omap intent_of l)) ∧
  ∀ ct, ct ∈ m'.*1 ↔ ct ∈ m.*1 ∨ ct ∈ (omap intent_of l).*1.
Proof.
  induction l as [|c l IH]; intros m m'; cbn [required_by_type].
  - intros [= <-] Hd. split; [done|]. split; intros ct; cbn; [lia|]. rewrite elem_of_nil. tauto.
  - assert (Hskip : intent_of c = None → required_by_type l m = inr m' → NoDup m.*1 →
      NoDup m'.*1 ∧ (∀ ct, total_of ct m' = total_of ct m + total_of ct (omap intent_of (c :: l))) ∧
      ∀ ct, ct ∈ m'.*1 ↔ ct ∈ m.*1 ∨ ct ∈ (omap intent_of (c :: l)).*1).
    { intros Hn. cbn [omap list_omap]. rewrite Hn. by apply IH. }
    destruct c as [name [| | | |type| |] balance|]; try by apply Hskip.
    cbn [intent_of] in Hskip. destruct (seqb name _ && is_amount balance) eqn:En; [|by apply Hskip].
    destruct (to_bigint balance) as [amount|] eqn:Eb; [|done]. cbv zeta. intros Hr Hd.
    destruct (IH _ _ Hr) as (H1 & H2 & H3); [by apply add_required_nodup|]. split; [done|].
    cbn [omap list_omap intent_of]. rewrite En, Eb. cbn [fmap option_fmap option_map]. split; intros ct.
    + rewrite H2, add_required_total, total_cons. cbn [fst snd]. lia.
    + rewrite H3, add_required_in. cbn [fmap list_fmap fst]. rewrite elem_of_cons. tauto.
Qed.

Lemma check_balances_spec get owner l : check_balances get owner l = inr tt → ∀ ct r, (ct, r) ∈ l →
  ∃ response available, get owner ct = inr response ∧
    to_bigint (coalesce (jget "addressBalance" (jget "balance" response)) (jint 0)) = Some available ∧ r <= available.
Proof.
  induction l as [|[ct' r'] l IH]; cbn [check_balances]; [intros _ ct r Hin; by apply elem_of_nil in Hin|].
  destruct (check_balance get owner (ct', r')) as [e|[]] eqn:Ec; [done|]. intros Hl ct r [[= -> ->]|Hin]%elem_of_cons; [|by apply IH].
  unfold check_balance in Ec. cbn [fst snd] in Ec. destruct (get owner ct') as [|response] eqn:Eg; [done|].
  destruct (to_bigint _) as [available|] eqn:Ea; [|done]. apply ensure_inr in Ec as [Hlt _]. exists response, available.
  split_and!; [done..|]. destruct (available <? r') eqn:E; [done|lia].
Qed.
Definition no_coin (object : js_error + json) : Prop :=
  ∃ o type address module name, object = inr o ∧ jget "type" o = JStr type ∧
    parseStructTag type = inr (address, module, name) ∧
    (¬ (address = SUI_FRAMEWORK_ADDRESS ∧ module = "coin" ∧ name = "Coin") ∨ text_value (jget "objectId" o) = None).
Lemma coin_ids_none l : coin_ids l = inr [] → Forall no_coin l.
Proof.
  induction l as [|o l IH]; cbn [coin_ids]; [constructor|]. destruct (coin_id o) as [|id] eqn:Eo; [done|].
  destruct (coin_ids l) as [|ids] eqn:El; [done|]. intros [= E]. destruct id as [id|]; [done|]. cbn in E. subst ids.
  constructor; [|by apply IH]. unfold coin_id in Eo. destruct o as [|o]; [done|].
  destruct (jget "type" o) eqn:Et; try done. destruct (parseStructTag s) as [|[[address module] name]] eqn:Ep; [done|].
  exists o, s, address, module, name. split_and!; [done..|]. destruct (seqb address _ && _ && _) eqn:Ec; [right; by simplify_eq|].
  left. intros (-> & -> & ->). by rewrite !seqb_refl in Ec.
Qed.

(** The intents of [td] are covered by the address balance of its sender. *)
Definition covered (client : sui_client) (td : transaction_data) : Prop :=
  ∀ coinType, coinType ∈ (omap intent_of (commands td)).*1 →
    ∃ get owner response available, getBalance client = Some get ∧ td_sender td = Some owner ∧ get owner coinType = inr response ∧
      to_bigint (coalesce (jget "addressBalance" (jget "balance" response)) (jint 0)) = Some available ∧
      total_of coinType (omap intent_of (commands td)) <= available.
Definition has_intents (td : transaction_data) : Prop := omap intent_of (commands td) ≠ [].
(** What [td] owns beyond [initial] was looked up, and none of it is a coin. *)
Definition no_new_coin (client : sui_client) (initial : list string) (td : transaction_data) : Prop :=
  newly_owned initial td = [] ∨
  ∃ get objects, getObjects client = Some get ∧ get (newly_owned initial td) = inr objects ∧ Forall no_coin objects.
Lemma required_intents td required : required_of td = inr required → (required = [] ↔ omap intent_of (commands td) = []).
Proof.
  intros Hr. destruct (required_by_type_spec _ _ _ Hr NoDup_nil_2) as (_ & _ & Hk).
  split; intros E; rewrite E in Hk; [destruct (omap _ _) as [|[k v] l]|destruct required as [|[k v] l]]; [done| |done|].
  1-2: specialize (Hk k); cbn in Hk; rewrite !elem_of_cons, ?elem_of_nil in Hk; tauto.
Qed.
Lemma plugin_pass_sound client next c td c' td' : plugin_pass client next c td = (c', inr td') →
  covered client td ∧ next td = inr td' ∧
  initialOwnedObjectIds c' = Some (default (owned_before (inputs td)) (initialOwnedObjectIds c)) ∧
  (hasCoinWithBalanceIntents c' = true ↔ hasCoinWithBalanceIntents c = true ∨ has_intents td) ∧
  (hasCoinWithBalanceIntents c' = true → no_new_coin client (default (owned_before (inputs td)) (initialOwnedObjectIds c)) td').
Proof.
  unfold plugin_pass. destruct (required_of td) as [|required] eqn:Er; [done|]. cbv zeta.
  destruct (required_by_type_spec _ _ _ Er NoDup_nil_2) as (Hnd & Htotal & Hkeys). pose proof (required_intents _ _ Er) as Hnone.
  set (c2 := Closure _ (_ || _)). intros Hp.
  destruct (if negb _ then _ else _) as [|u] eqn:Ecover in Hp; [done|].
  destruct (next td) as [|td1] eqn:En; [done|].
  assert (Hc : c' = c2 ∧ td1 = td') by by (revert Hp; repeat case_match; intros; simplify_eq).
  destruct Hc as [-> ->]. split; [|split; [done|split; [done|split]]].
  - intros coinType Hin. assert (Hin' : coinType ∈ required.*1) by (apply Hkeys; by right).
    apply list_elem_of_fmap in Hin' as ([ct r] & -> & Hr). cbn [fst] in *.
    rewrite bool_decide_false in Ecover by (intros ->; by apply elem_of_nil in Hr). cbn in Ecover.
    unfold cover_intents in Ecover. destruct (getBalance client) as [get|]; [|done].
    destruct (td_sender td) as [owner|]; [|done]. destruct (is_empty owner); [done|]. destruct u.
    destruct (check_balances_spec _ _ _ Ecover _ _ Hr) as (response & available & ? & ? & ?).
    exists get, owner, response, available. split_and!; [done..|]. assert (total_of ct required = r) as E by by apply total_single.
    rewrite Htotal in E. cbn in E. lia.
  - cbn. unfold has_intents. rewrite orb_true_iff, negb_true_iff, bool_decide_eq_false. tauto.
  - intros Hi. rewrite Hi in Hp. cbn [andb] in Hp. unfold no_new_coin.
    case_bool_decide as Hnew; [by left|right]. cbn in Hp. destruct (verify_resolved _ _) as [|v] eqn:Ev; [by simplify_eq|].
    unfold verify_resolved in Ev. destruct (getObjects client) as [get|]; [|done].
    destruct (get _) as [|objects] eqn:Eg; [done|]. destruct (coin_ids objects) as [|[|]] eqn:Ei; try done.
    exists get, objects. split_and!; [done|done|by apply coin_ids_none].
Qed.
(** The passes from a closure that knows what was owned at first. *)
Lemma run_passes_sound client initial (l : list pass) : ∀ c results,
  snd (run_passes client c l) = inr results → initialOwnedObjectIds c = Some initial →
  Forall2 (λ p td', covered client p.1 ∧ p.2 p.1 = inr td') l results ∧
  ∀ i td next td', l !! i = Some (td, next) → results !! i = Some td' →
    hasCoinWithBalanceIntents c = true ∨ (∃ p, p ∈ take (S i) l ∧ has_intents p.1) → no_new_coin client initial td'.
Proof.
  induction l as [|[td next] l IH]; intros c results Hr Hc; cbn in Hr.
  - injection Hr as <-. split; [constructor|]. intros i td next td' Hi. by rewrite lookup_nil in Hi.
  - destruct (plugin_pass client next c td) as [c1 [e|td1]] eqn:Ep; [done|].
    destruct (run_passes client c1 l) as [c2 [e|tds]] eqn:El; [done|]. injection Hr as <-.
    apply plugin_pass_sound in Ep as (Hcov & Hn & Hi1 & Hf1 & Hnew). rewrite Hc in Hi1, Hnew. cbn in Hi1, Hnew.
    destruct (IH c1 tds) as [Hall Hlater]; [by rewrite El|done|]. split; [by constructor|].
    intros [|i] td0 next0 td' Hl Ht Hseen; cbn in Hl, Ht.
    + injection Hl as -> ->. injection Ht as ->. apply Hnew, Hf1. destruct Hseen as [?|(p & Hp & ?)]; [by left|right].
      cbn in Hp. rewrite take_0 in Hp. by apply list_elem_of_singleton in Hp as ->.
    + apply (Hlater i td0 next0 td'); [done..|]. destruct Hseen as [?|(p & Hp & Hh)]; [left; apply Hf1; by left|].
      rewrite firstn_cons in Hp. apply elem_of_cons in Hp as [->|Hp]; [left; apply Hf1; by right|right; by exists p].
Qed.

(** C8: the SDK does not fall back to owned coins.  When the passes of a
    transaction and its build succeed under the plugins, every pass had, for
    each coin type, an address balance of the sender that covers the sum of
    its intents; from the first pass with an intent on, every object the
    resolved transaction owns beyond what it owned before the first pass was
    looked up and is no [0x2::coin::Coin]; and the built transaction pays its
    gas with no coin object. *)
Theorem address_balance_enforced client td0 next0 (l : list pass) results next_build td td_built :
  snd (run_passes client fresh_closure ((td0, next0) :: l)) = inr results →
  build_plugin next_build td = inr td_built →
  Forall2 (λ p td', covered client p.1 ∧ p.2 p.1 = inr td') ((td0, next0) :: l) results ∧
  (∀ i p td', ((td0, next0) :: l) !! i = Some p → results !! i = Some td' →
     (∃ q, q ∈ take (S i) ((td0, next0) :: l) ∧ has_intents q.1) → no_new_coin client (owned_before (inputs td0)) td') ∧
  next_build td = inr td_built ∧ default [] (gas_payment td_built) = [].
Proof.
  intros Hr Hb. unfold build_plugin in Hb. destruct (next_build td) as [e|td1] eqn:En; [done|].
  apply ensure_inr in Hb as [Hgas Hb]. injection Hb as ->.
  assert (Hg : default [] (gas_payment td_built) = []) by by destruct (gas_payment td_built) as [[|]|].
  set (c0 := Closure (Some (owned_before (inputs td0))) false).
  assert (Hfirst : plugin_pass client next0 fresh_closure td0 = plugin_pass client next0 c0 td0) by done.
  assert (Hr' : snd (run_passes client c0 ((td0, next0) :: l)) = inr results) by (cbn [run_passes] in *; by rewrite <-Hfirst).
  destruct (run_passes_sound client _ _ c0 results Hr' eq_refl) as [Hall Hnew]. split; [exact Hall|]. split; [|done].
  intros i [td2 next2] td' Hi Ht Hq. apply (Hnew i td2 next2 td' Hi Ht). by right.
Qed.
End Plugin.

(** ** A pass: one gas intent covered by the balance, one storage object resolved *)
#[local] Instance ex_balance_tx : SuiTx := {|
  tx_digest _ := "digest"; tx_from_bytes _ := inl (plain_error "no transaction"); tx_sign _ _ := "signature";
  tx_verify _ _ _ := None; normalizeStructTag s := s |}.
Definition ex_parse_tag (type : string) : js_error + (string * string * string) :=
  match split2 type with
  | [address; module; name] => inr (address, module, name)
  | _ => inl (plain_error "Invalid struct tag")
  end.
Definition ex_sui_client : sui_client := SuiClient
  (Some (λ _ _, inr (JObj [("balance", JObj [("addressBalance", JStr "10")])])))
  (Some (λ _, inr [inr (JObj [("objectId", JStr "0x51"); ("type", JStr "0x9::storage_resource::Storage")])])).
Definition ex_td : transaction_data :=
  TransactionData [] [Intent "CoinWithBalance" (JStr "gas") (JStr "5"); OtherCommand] (Some "0xwallet") None.
Definition ex_resolved : transaction_data :=
  TransactionData [TxInput (JStr "0x51") JUndefined] [OtherCommand] (Some "0xwallet") None.

Lemma address_balance_enforced_witness :
  covered ex_sui_client ex_td ∧ no_new_coin ex_parse_tag "0x2" ex_sui_client [] ex_resolved ∧ newly_owned [] ex_resolved = ["0x51"] ∧
  default [] (gas_payment ex_resolved) = [].
Proof.
  destruct (address_balance_enforced ex_parse_tag "0x2" ex_sui_client ex_td (λ _, inr ex_resolved) [(ex_resolved, λ td, inr td)]
    [ex_resolved; ex_resolved] (λ td, inr td) ex_resolved ex_resolved) as (Hall & Hnew & _ & Hgas); [vm_compute; reflexivity|reflexivity|].
  split; [inversion Hall as [|? ? ? ? H1 H2]; exact (proj1 H1)|]. split; [|split; [vm_compute; reflexivity|exact Hgas]].
  (** The second pass has no intent of its own; the first one counts. *)
  apply (Hnew 1%nat (ex_resolved, λ td, inr td) ex_resolved eq_refl eq_refl).
  exists (ex_td, λ _, inr ex_resolved). split; [apply list_elem_of_In; left; reflexivity|]. vm_compute. discriminate.
Defined.
