(* ===== verification/Sponsor.v ===== *)
(** * The sponsorship proxy of the frontend (routes/sponsor.ts)

    [POST /sponsor] asks the sponsor API for a gas-paid transaction;
    [POST /sponsor/execute] hands it the user's signature and, on request,
    confirms on chain that the transaction took effect. *)
From Stdlib Require Import Ascii.
From S2P Require Import Prelude JsText JsNumber JsonParse SealId Retry Service SealRoutes.
From S2P Require Enoki.
From S2P Require Import Ledger EnokiSafety.
Local Open Scope Z_scope.

(** What [verifyExecutedTransaction] reports. *)
Record verdict : Type := Verdict { v_success : bool; v_sender : json; v_error : option string }.

(** A transaction as the fullnode returns it, found or not. *)
Definition verdict_of (result : json) : option verdict :=
  let tx := coalesce (jget "Transaction" result) (jget "FailedTransaction" result) in
  if truthy tx then
    let success := Enoki.is_bool (jget "success" (jget "status" tx)) true in
    Some (Verdict success (coalesce (jget "sender" (jget "transaction" tx)) JNull)
            (if success then None
             else Some (js_string (coalesce (jget "error" (jget "status" tx)) (JStr "transaction failed")))))
  else None.

(** [value.digest.length] *)
Definition digest_length (value : json) : js_error + unit :=
  guard_or negb (is_nullish value)
    else js_type_error ("Cannot read properties of " +:+ js_string value +:+ " (reading 'digest')");
  guard_or negb (is_nullish (jget "digest" value))
    else js_type_error ("Cannot read properties of " +:+ js_string (jget "digest" value) +:+ " (reading 'length')");
  inr tt.

Section Sponsor.
Context (sv : service).
(** The sponsor API: see [Enoki.callEnoki]. *)
Context (w : Enoki.world) (date_parse : string → option Z).
Context (ENOKI_API_KEY : option string) (MAX_ATTEMPTS : nat) (BASE_DELAY MAX_DELAY : Z).
Context (ENOKI_NETWORK : string) (timeout_reason abort_error : js_error).
Context (traceId : string).

Definition enoki (path : string) (payload : json) : SM json :=
  wallet false (Enoki.callEnoki w date_parse ENOKI_API_KEY MAX_ATTEMPTS BASE_DELAY MAX_DELAY
                  timeout_reason abort_error path payload).

(** The attempts that are left, and the last error caught. *)
Fixpoint verify_from (left attempt : nat) (digest : string) (lastError : option js_error) : SM verdict :=
  match left with
  | O => s_throw (plain_error ("executed transaction not found on-chain after retries: " +:+
           match lastError with Some e => errorMessage e | None => "undefined" end))
  | S left' =>
      found ← s_catch (v ← call sv (SGetTransaction digest); mret (inr (verdict_of v)))
                (λ err, mret (inl err));
      match found with
      | inr (Some verdict) => mret verdict
      | inr None => _ ← s_sleep (1000 + Z.of_nat attempt * 500); verify_from left' (S attempt) digest lastError
      | inl err => _ ← s_sleep (1000 + Z.of_nat attempt * 500); verify_from left' (S attempt) digest (Some err)
      end
  end.
Definition verifyExecutedTransaction (digest : string) : SM verdict := verify_from 10 0 digest None.

Definition sponsor_failed (err : js_error) : SM response :=
  mret (Resp 500 (JObj [("error", JStr (errorMessage err)); ("traceId", JStr traceId)])).
Definition not_configured : response :=
  refuse 503 "Enoki sponsorship is not configured (ENOKI_API_KEY missing)".

(** ** POST /sponsor *)
Definition sponsor_body (body : json) : SM response :=
  _ ← s_of_sum (destructured "transactionBlockKindBytes" body);
  let kindBytes := jget "transactionBlockKindBytes" body in
  let sender := jget "sender" body in
  require truthy kindBytes && truthy sender
    else refuse 400 "Missing required fields: transactionBlockKindBytes, sender";
  require negb (Enoki.api_key_missing ENOKI_API_KEY) else not_configured;
  sponsored ← enoki Enoki.SPONSOR_PATH (JObj
    [("network", JStr ENOKI_NETWORK); ("transactionBlockKindBytes", kindBytes); ("sender", sender)]);
  _ ← s_of_sum (digest_length sponsored);
  mret (ok sponsored).
Definition sponsor_handler (body : json) : SM response := s_catch (sponsor_body body) sponsor_failed.

(** ** POST /sponsor/execute *)
Definition execute_answer (digest executed : json) : SM response :=
  _ ← s_of_sum (guard_or negb (is_nullish executed)
        else js_type_error ("Cannot read properties of " +:+ js_string executed +:+ " (reading 'digest')"); inr tt);
  verdict ← verifyExecutedTransaction (js_string (coalesce (jget "digest" executed) digest));
  require v_success verdict
    else refuse 422 ("sponsored transaction did not succeed on-chain: " +:+ default "unknown" (v_error verdict));
  mret (ok (JObj [("digest", jget "digest" executed); ("sender", v_sender verdict)])).
Definition execute_body (body : json) : SM response :=
  _ ← s_of_sum (destructured "digest" body);
  let digest := jget "digest" body in
  let signature := jget "signature" body in
  require truthy digest && truthy signature else refuse 400 "Missing required fields: digest, signature";
  require negb (Enoki.api_key_missing ENOKI_API_KEY) else not_configured;
  executed ← enoki (Enoki.execute_path digest) (JObj [("digest", digest); ("signature", signature)]);
  if Enoki.is_bool (jget "verifyEffects" body) true
  then execute_answer digest executed
  else mret (ok executed).
Definition execute_handler (body : json) : SM response := s_catch (execute_body body) sponsor_failed.
End Sponsor.

(** ** Theorems about the sponsorship proxy (routes/sponsor.ts) *)

(** ** The digest is one segment of the path *)
Definition path_special (c : ascii) : bool := is_char 47 c || is_char 63 c || is_char 35 c || is_char 92 c.
Lemma unreserved_plain c : Enoki.is_unreserved c = true → path_special c = false.
Proof. destruct c as [[] [] [] [] [] [] [] []]; vm_compute; congruence. Qed.
Lemma hex_plain n : (n < 16)%N → path_special (Enoki.upper_hex n) = false.
Proof.
  intros Hn. assert (n = 0 ∨ n = 1 ∨ n = 2 ∨ n = 3 ∨ n = 4 ∨ n = 5 ∨ n = 6 ∨ n = 7 ∨ n = 8 ∨ n = 9 ∨ n = 10 ∨
    n = 11 ∨ n = 12 ∨ n = 13 ∨ n = 14 ∨ n = 15)%N as H by lia.
  repeat destruct H as [->|H]; [reflexivity..|]. by subst.
Qed.
Lemma escape_plain c : Forall (λ c, path_special c = false)
  (flat_map (λ b, ["%"%char; Enoki.upper_hex (code b / 16); Enoki.upper_hex (code b mod 16)]%N) (utf8_char c)).
Proof.
  induction (utf8_char c) as [|b l IH]; cbn [flat_map]; [constructor|]. pose proof (N_ascii_bounded b).
  repeat (constructor; [first [reflexivity|apply hex_plain]|]); try exact IH.
  - apply N.Div0.div_lt_upper_bound. unfold code. lia.
  - by apply N.mod_lt.
Qed.
(** No character of an encoded text ends a path segment or starts a query or
    a fragment. *)
Lemma encoded_plain s : Forall (λ c, path_special c = false) (chars (Enoki.encodeURIComponent s)).
Proof.
  unfold Enoki.encodeURIComponent. rewrite chars_of_chars. induction (chars s) as [|c l IH]; cbn [flat_map]; [constructor|].
  apply Forall_app. split; [|exact IH]. destruct (Enoki.is_unreserved c) eqn:Ec; [|apply escape_plain].
  constructor; [by apply unreserved_plain|constructor].
Qed.
(** Dots are not escaped: the segment [..] passes unchanged. *)
Lemma dots_not_encoded : Enoki.execute_path (JStr "..") = "/transaction-blocks/sponsor/..".
Proof. reflexivity. Qed.

(** ** Wallet and sponsor-API calls inside a request *)
Lemma wallet_law {A} (m : Enoki.M A) (P : Enoki.event → Prop) t0 ok (F : list sevent → Prop) `{!Mono F} :
  (∀ s, ∃ evs, Enoki.trace (fst (m s)) = Enoki.trace s ++ evs ∧ Forall P evs ∧ snd (m s) ≠ inl Enoki.OutOfFuel) →
  (∀ tr e, F tr → P e → ok tr (SWallet e)) →
  lawful s_trace Enoki.Thrown t0 ok F (wallet false m) (λ _, F).
Proof.
  intros Hm Hok s [Hl Hf]. unfold wallet. destruct (Hm (s_wallet s)) as (evs & Et & Hp & Ho).
  destruct (m (s_wallet s)) as [ws r]; cbn in *. rewrite Et, drop_app_length.
  assert (Hall : ∀ l s0, Forall P l → ledger s_trace t0 ok s0 → F (s_trace s0) →
    F (s_trace s0 ++ map SWallet l) ∧ ∃ new, s_trace s0 ++ map SWallet l = t0 ++ new ∧ all_ok ok t0 new).
  { induction l as [|e l IH]; intros s0 Hpl Hl0 Hf0; cbn [map].
    - rewrite app_nil_r. split; [done|]. exact Hl0.
    - inversion Hpl as [|? ? He Hpl']; subst.
      pose proof (ledger_snoc s_trace t0 ok s0 (s_emit (SWallet e) s0) (SWallet e) Hl0 (Hok _ _ Hf0 He) eq_refl) as Hl1.
      destruct (IH (s_emit (SWallet e) s0) Hpl' Hl1) as [H1 H2]; [by apply mono|]. cbn in H1, H2.
      rewrite <-app_assoc in *. done. }
  destruct (Hall evs s Hp Hl Hf) as [HF HL]. destruct r as [[e|]|a]; [|done|]; cbn; (split; [exact HL|]); [by exists e|done].
Qed.

Section Sponsor.
Context (sv : service) (w : Enoki.world) (date_parse : string → option Z).
Context (ENOKI_API_KEY : option string) (MAX_ATTEMPTS : nat) (BASE_DELAY MAX_DELAY : Z).
Context (ENOKI_NETWORK : string) (timeout_reason abort_error : js_error) (traceId : string).
Context (Hduration : ∀ tr, 0 <= (Enoki.w_fetch w tr).1) (Hdelay : 0 <= MAX_DELAY) (Hattempts : (1 ≤ MAX_ATTEMPTS)%nat).
Notation enoki := (enoki w date_parse ENOKI_API_KEY MAX_ATTEMPTS BASE_DELAY MAX_DELAY timeout_reason abort_error).
Notation execute_handler := (execute_handler sv w date_parse ENOKI_API_KEY MAX_ATTEMPTS BASE_DELAY MAX_DELAY
  timeout_reason abort_error traceId).

Lemma enoki_law t0 ok (F : list sevent → Prop) `{!Mono F} path payload :
  (∀ tr e, F tr → call_event MAX_DELAY path payload e → ok tr (SWallet e)) →
  lawful s_trace Enoki.Thrown t0 ok F (enoki path payload) (λ _, F).
Proof.
  intros Hok. apply (wallet_law _ (call_event MAX_DELAY path payload)); [done| |exact Hok]. intros s.
  destruct (callEnoki_out w date_parse ENOKI_API_KEY MAX_ATTEMPTS BASE_DELAY MAX_DELAY timeout_reason abort_error
    Hduration Hdelay path payload s Hattempts) as (evs & ? & ? & _ & _ & ?). by exists evs.
Qed.

Section Execute.
Context (body : json) (t0 : list sevent).
Let digest := jget "digest" body.

(** The only calls a proxied execution makes. *)
Definition proxied (tr : list sevent) (ev : sevent) : Prop :=
  match ev with
  | SWallet e => call_event MAX_DELAY (Enoki.execute_path digest)
                   (JObj [("digest", digest); ("signature", jget "signature" body)]) e
  | SGetTransaction _ | SSleep _ => True
  | _ => False
  end.
Notation law := (lawful s_trace Enoki.Thrown t0 proxied).
Definition on_chain (d : string) (v : verdict) (tr : list sevent) : Prop :=
  ∃ result, answered (sv_answer sv) t0 (SGetTransaction d) result tr ∧ verdict_of result = Some v.
#[local] Instance mono_on_chain d v : Mono (on_chain d v).
Proof. intros tr ev (r & Hr & Hv). exists r. split; [by apply mono|done]. Qed.

(** What an answer of a verified execution says. *)
Definition verified (resp : response) (tr : list sevent) : Prop :=
  Enoki.is_bool (jget "verifyEffects" body) true = true →
  (r_status resp = 200 → ∃ executed v, on_chain (js_string (coalesce (jget "digest" executed) digest)) v tr ∧
     v_success v = true ∧ r_body resp = JObj [("digest", jget "digest" executed); ("sender", v_sender v)]) ∧
  (r_status resp = 422 → ∃ d v, on_chain d v tr ∧ v_success v = false).

Lemma sleep_law F `{!Mono F} ms : law F (s_sleep ms) (λ _, F).
Proof.
  intros s [Hl Hf]. cbn. split; [|by apply mono].
  by apply (ledger_snoc s_trace t0 proxied s _ (SSleep ms)).
Qed.
Lemma verify_law left : ∀ attempt d lastError, law (λ _, True) (verify_from sv left attempt d lastError) (λ v, on_chain d v).
Proof.
  induction left as [|left IH]; intros attempt d lastError; cbn [verify_from]; [apply lawful_throw|].
  eapply lawful_bind.
  { eapply (lawful_caught t0 proxied sv (λ _, True) (SGetTransaction d) (λ v, inr (verdict_of v)) inl); [apply _|done]. }
  intros [err|[v|]].
  - eapply lawful_bind; [eapply lawful_weaken; [apply (sleep_law (λ _, True))|done|]; intros u tr Htr; exact Htr|].
    intros u. apply IH.
  - apply lawful_ret. intros tr [_ [(r & [= Hr] & Hans)|(e & He)]]; [|done]. by exists r.
  - eapply lawful_bind; [eapply lawful_weaken; [apply (sleep_law (λ _, True))|done|]; intros u tr Htr; exact Htr|].
    intros u. apply IH.
Qed.
Lemma early_verified resp (F : list sevent → Prop) : r_status resp ≠ 200 → r_status resp ≠ 422 →
  law F (mret resp) (λ resp, verified resp).
Proof. intros H1 H2. apply lawful_ret. intros tr _ _. by split. Qed.
Lemma execute_answer_law (executed : json) :
  law (λ _, True) (execute_answer sv digest executed) (λ resp, verified resp).
Proof.
  unfold execute_answer. eapply lawful_bind; [apply (lawful_of_sum t0 proxied (λ _, True))|]. intros u.
  eapply lawful_weaken with (F' := λ _, True); [|done|intros resp tr Htr; exact Htr].
  eapply lawful_bind; [apply verify_law|]. intros v. destruct (v_success v) eqn:Ev.
  - apply lawful_ret. intros tr Htr _. split; [|done]. intros _. by exists executed, v.
  - apply lawful_ret. intros tr Htr _. split; [done|]. intros _. by eexists _, v.
Qed.
Lemma sponsor_execute_law : law (λ _, True) (execute_handler body) (λ resp, verified resp).
Proof.
  unfold Sponsor.execute_handler. apply lawful_catch; [|intros e; by apply early_verified].
  unfold execute_body. eapply lawful_bind; [apply (lawful_of_sum t0 proxied (λ _, True))|]. intros u.
  eapply lawful_weaken with (F' := λ _, True); [|done|intros resp tr Htr; exact Htr]. cbv zeta. fold digest.
  destruct (truthy digest && _); [|by apply early_verified].
  destruct (negb _); [|by apply early_verified].
  eapply lawful_bind; [by apply enoki_law|]. intros executed.
  destruct (Enoki.is_bool _ true) eqn:Eb; [apply execute_answer_law|].
  apply lawful_ret. intros tr _ H. unfold verified in *. congruence.
Qed.
End Execute.

(** C10: the sponsorship proxy always answers, and executing a transaction only
    hands the user's digest and signature to the sponsor API, as one path
    segment, and looks the digest up: it never builds, signs or submits
    anything with a server wallet.  With [verifyEffects] it answers 200 only
    after the chain reported that transaction successful, naming the sender
    the chain reported, and 422 only after the chain reported a failure. *)
Theorem sponsor_execute_verified (body : json) (s : sstate) :
  let out := execute_handler body s in
  ∃ resp new, snd out = inr resp ∧ s_trace (fst out) = s_trace s ++ new ∧
    all_ok (proxied body) (s_trace s) new ∧
    verified body (s_trace s) resp (s_trace (fst out)) ∧
    Forall (λ c, path_special c = false) (chars (Enoki.encodeURIComponent (js_string (jget "digest" body)))).
Proof.
  intros out. destruct (lawful_run s_trace Enoki.Thrown (s_trace s) (proxied body) (execute_handler body)
    (λ resp, verified body (s_trace s) resp) s (sponsor_execute_law body (s_trace s)) eq_refl) as (new & Et & Hok & Hr).
  fold out in Et, Hr. destruct (snd out) as [f|resp] eqn:Eo.
  - destruct Hr as [e ->]. assert (Enoki.Thrown e = Enoki.OutOfFuel) as [=].
    eapply (catch_total _ _ s); [|exact Eo]. intros err s1. by eexists _, _.
  - exists resp, new. rewrite Et. split_and!; try done. apply encoded_plain.
Qed.
End Sponsor.
