(* ===== verification/App.v ===== *)
(** * The sidecar's HTTP application (sidecar/app.ts, sidecar/middleware.ts)

    [createSidecarApp] is the list of its layers in registration order; a
    request passes through them until one answers.  Whether a registered
    method and path match a request is Express's ([matches]); request bodies
    are taken after [express.json()].  The MCP endpoints authenticate their
    callers themselves and are modelled in [McpSessions].  The second half
    holds the theorems about the application. *)
From Stdlib Require Import QArith Ascii.
From S2P Require Import Prelude JsText JsNumber SealId SealConfig Config Retry Service Settings Clients Blob Durable.
From S2P Require Import Wallet Ledger Journal Metadata Upload Query SealRoutes Sponsor Health.
From S2P Require Enoki.
Local Open Scope Z_scope.

(** ** Requests and layers *)
Record http_request : Type := HttpRequest {
  rq_method : string;
  rq_path : string;
  rq_authorization : option string;
  rq_x_request_id : json;
  rq_x_correlation_id : json;
  rq_seal : seal_headers;
  rq_body : json;
}.

Inductive endpoint : Type :=
| Health | Ready (requireProvenance : bool) | WalletMetrics
| McpSse | McpMessages | McpStreamable
| WalletBalances
| Seal (path : string)
| UploadStep | UploadBlob | SetMetadata (requireDurableIdentity : bool) | SetMetadataBatch
| VerifyBlob | QueryBlobs | FindBlobByJob
| SponsorCreate | SponsorExecute.
Inductive layer : Type :=
| RequestIdMiddleware | StripCorsMiddleware | SharedSecretAuthMiddleware
| Route (method path : string) (e : endpoint).

Definition post (path : string) (e : endpoint) : layer := Route "POST" path e.
Definition get (path : string) (e : endpoint) : layer := Route "GET" path e.

(** [registerHealthRoute], [mountMcpRoutes], [registerWalrusMetadataRoutes], ... *)
Definition health_routes (requireProvenance : bool) : list layer :=
  [get "/health" Health; get "/ready" (Ready requireProvenance)].
Definition mcp_routes : list layer :=
  [get "/mcp/sse" McpSse; post "/mcp/messages" McpMessages;
   get "/mcp" McpStreamable; post "/mcp" McpStreamable; Route "DELETE" "/mcp" McpStreamable].
Definition seal_layers (cfg : seal_config) : list layer := map (λ r, post r.1 (Seal r.1)) (seal_routes cfg).
Definition query_routes : list layer :=
  [post "/walrus/verify-blob" VerifyBlob; post "/walrus/query-blobs" QueryBlobs;
   post "/walrus/find-blob-by-job" FindBlobByJob].
Definition sponsor_routes : list layer := [post "/sponsor" SponsorCreate; post "/sponsor/execute" SponsorExecute].
Definition upload_journal_route : layer := post "/walrus/upload-step-v3" UploadStep.

Definition createSidecarApp (mode : route_mode) (cfg : seal_config) : list layer :=
  [RequestIdMiddleware; StripCorsMiddleware] ++
  health_routes (match mode with full => true | writer => false end) ++
  (match mode with full => mcp_routes | writer => [] end) ++
  [get "/metrics/wallet" WalletMetrics; SharedSecretAuthMiddleware;
   get "/internal/wallet-balances" WalletBalances] ++
  match mode with
  | writer => [upload_journal_route; post "/walrus/set-metadata" (SetMetadata true)]
  | full => seal_layers cfg ++ [upload_journal_route; post "/walrus/upload" UploadBlob] ++
            [post "/walrus/set-metadata-batch" SetMetadataBatch; post "/walrus/set-metadata" (SetMetadata false)] ++
            query_routes ++ sponsor_routes
  end.

(** ** middleware.ts *)
(** [s.replace(p, "")]: the first occurrence. *)
Fixpoint remove_first (p l : list ascii) : list ascii :=
  if prefix_of p l then drop (length p) l
  else match l with [] => [] | c :: l' => c :: remove_first p l' end.
Definition bearer_token (authorization : option string) : string :=
  match authorization with
  | Some a => of_chars (remove_first (chars "Bearer ") (chars a))
  | None => empty_str
  end.
(** Buffers of equal length, compared byte by byte. *)
Definition timingSafeEqual (a b : list ascii) : bool := forallb (λ c, Ascii.eqb c.1 c.2) (zip a b).
Definition token_valid (SIDECAR_AUTH_TOKEN : string) (rq : http_request) : bool :=
  let secretBuf := utf8 SIDECAR_AUTH_TOKEN in
  let providedBuf := utf8 (bearer_token (rq_authorization rq)) in
  (length providedBuf =? length secretBuf)%nat && timingSafeEqual providedBuf secretBuf.
(** [sanitizeRequestId(x-request-id) ?? sanitizeRequestId(x-correlation-id) ?? randomUUID()] *)
Definition request_id (rq : http_request) (uuid : string) : string :=
  match sanitizeRequestId (rq_x_request_id rq) with
  | Some i => i
  | None => default uuid (sanitizeRequestId (rq_x_correlation_id rq))
  end.

(** ** Dispatch *)
Inductive outcome : Type :=
| Answered (r : response)                       (** by a middleware *)
| Handled (e : endpoint) (requestId : string)
| NotFound.                                     (** no layer answers: Express's 404 *)

Section App.
Context (matches : string → string → http_request → bool).
Context (SIDECAR_AUTH_TOKEN : string).

Fixpoint dispatch (layers : list layer) (rq : http_request) (uuid requestId : string) : outcome :=
  match layers with
  | [] => NotFound
  | RequestIdMiddleware :: rest => dispatch rest rq uuid (request_id rq uuid)
  | StripCorsMiddleware :: rest =>
      if seqb (rq_method rq) "OPTIONS" then Answered (Resp 204 (JStr "No Content"))
      else dispatch rest rq uuid requestId
  | SharedSecretAuthMiddleware :: rest =>
      if token_valid SIDECAR_AUTH_TOKEN rq then dispatch rest rq uuid requestId
      else Answered (refuse 401 "Unauthorized")
  | Route method path e :: rest =>
      if matches method path rq then Handled e requestId else dispatch rest rq uuid requestId
  end.

(** ** The handlers behind the routes

    Everything they are configured with comes from the environment. *)
Context `{SuiSdk} `{WalrusSdk} `{SuiTx} `{Wallet} (sv : service).
Context (env : Config.env) (st : settings) (p : process_info) (sdk : seal_sdk) (page_fuel : nat) (freshId : string).
(** [decodeSuiPrivateKey] and the address of an ED25519 key: see [Settings]. *)
Context (decodeSuiPrivateKey : string → js_error + (string * list ascii)) (keypair_address : list ascii → js_error + string).
(** The sponsor API: see [Enoki.callEnoki]. *)
Context (w : Enoki.world) (date_parse : string → option Z) (timeout_reason abort_error : js_error).

Definition seal_cfg : seal_config :=
  SealRouteConfig (SealPolicy (SIDECAR_ENABLE_LEGACY_SEAL_ABI st) (SEAL_POLICY_PACKAGE_ID st))
    (SIDECAR_ENABLE_MIGRATION_SEAL_ROUTE st) (SIDECAR_ENABLE_LEGACY_SEED_ROUTE env) (SEAL_REQUIRE_COMMITTEE_IDENTITY env)
    (SealConfig.getSealCommitteeIdentity (SEAL_SERVER_CONFIGS st) (SEAL_THRESHOLD st))
    (SEAL_THRESHOLD st) (SEAL_KEY_SERVER_TIMEOUT_MS st).
Definition upload_cfg : journal_config :=
  JournalConfig (SERVER_SUI_PRIVATE_KEYS st) (wallet_address decodeSuiPrivateKey keypair_address) (SUI_NETWORK st)
    (Config.DEFAULT_WALRUS_EPOCHS env (SUI_NETWORK st)) (enoki_enabled st) (ENOKI_FALLBACK_TO_DIRECT_SIGN st).
Definition network : string := network_name (SUI_NETWORK st).
Definition attempts : nat := Z.to_nat (Config.ENOKI_TRANSIENT_MAX_ATTEMPTS (upload_limits st)).
Definition base_delay : Z := Config.ENOKI_TRANSIENT_BASE_DELAY_MS (upload_limits st).
Definition max_delay : Z := Config.ENOKI_TRANSIENT_MAX_DELAY_MS (upload_limits st).

(** [None]: the MCP endpoints, whose handlers keep their own state. *)
Definition handle (e : endpoint) (requestId : string) (rq : http_request) : option (SM response) :=
  let body := rq_body rq in
  match e with
  | Health => Some (health_handler p)
  | Ready requireProvenance => Some (ready_handler sv st p requireProvenance)
  | WalletMetrics => Some (wallet_metrics_handler sv st p)
  | McpSse | McpMessages | McpStreamable => None
  | WalletBalances => Some (wallet_balances_handler sv st)
  | Seal path => post_seal sdk sv seal_cfg requestId freshId path (rq_seal rq) body
  | UploadStep => Some (upload_step_handler sv upload_cfg (WALRUS_PACKAGE_ID st) SUI_TYPE (SUI_CHAIN_IDENTIFIER st)
                          network requestId body)
  | UploadBlob => Some (upload_handler sv upload_cfg (sc_policy seal_cfg) env requestId body)
  | SetMetadata requireDurableIdentity =>
      Some (set_metadata_handler sv upload_cfg (sc_policy seal_cfg) (WALRUS_PACKAGE_ID st) (SUI_CHAIN_IDENTIFIER st)
              network requestId requireDurableIdentity body)
  | SetMetadataBatch => Some (set_metadata_batch_handler sv upload_cfg (sc_policy seal_cfg) requestId body)
  | VerifyBlob => Some (verify_blob_handler sv (WALRUS_PACKAGE_ID st) body)
  | QueryBlobs => Some (query_blobs_handler sv (SERVER_SUI_ADDRESSES st) (WALRUS_PACKAGE_ID st) page_fuel body)
  | FindBlobByJob => Some (find_blob_by_job_handler sv (SERVER_SUI_ADDRESSES st) (WALRUS_PACKAGE_ID st) page_fuel body)
  | SponsorCreate => Some (sponsor_handler w date_parse (ENOKI_API_KEY st) attempts base_delay max_delay
                             (ENOKI_NETWORK st) timeout_reason abort_error requestId body)
  | SponsorExecute => Some (execute_handler sv w date_parse (ENOKI_API_KEY st) attempts base_delay max_delay
                              timeout_reason abort_error requestId body)
  end.

(** A request to the running application. *)
Inductive served : Type :=
| Plain (r : response)
| Run (m : SM response)
| Delegated (e : endpoint)
| Unrouted.
Definition serve (rq : http_request) (uuid : string) : served :=
  match dispatch (createSidecarApp (SIDECAR_ROUTE_MODE st) seal_cfg) rq uuid uuid with
  | Answered r => Plain r
  | Handled e requestId => match handle e requestId rq with Some m => Run m | None => Delegated e end
  | NotFound => Unrouted
  end.
End App.

(** ** The shared secret *)
Lemma timing_safe_equal a b : length a = length b → timingSafeEqual a b = true → a = b.
Proof.
  revert b. induction a as [|x a IH]; intros [|y b]; try done. cbn. intros [=] [Hx Hr]%andb_prop.
  apply Ascii.eqb_eq in Hx. subst. f_equal. by apply IH.
Qed.
Lemma timing_safe_refl a : timingSafeEqual a a = true.
Proof. induction a as [|x a IH]; [done|]. cbn. by rewrite Ascii.eqb_refl. Qed.
(** The byte comparison accepts the configured token and no other. *)
Lemma token_valid_iff secret rq : token_valid secret rq = true ↔ bearer_token (rq_authorization rq) = secret.
Proof.
  unfold token_valid. rewrite andb_true_iff, Nat.eqb_eq. split.
  - intros [Hl Ht]. apply utf8_inj. by apply timing_safe_equal.
  - intros ->. split; [done|apply timing_safe_refl].
Qed.

(** ** What stands in front of the secret *)
Definition public (e : endpoint) : bool :=
  match e with Health | Ready _ | WalletMetrics | McpSse | McpMessages | McpStreamable => true | _ => false end.
Definition guarded_by_auth (layers : list layer) : bool :=
  (fix go l := match l with
               | [] => false
               | SharedSecretAuthMiddleware :: _ => true
               | Route _ _ e :: l' => public e && go l'
               | _ :: l' => go l'
               end) layers.

Section Gate.
Context (matches : string → string → http_request → bool) (SIDECAR_AUTH_TOKEN : string).
Notation dispatch := (dispatch matches SIDECAR_AUTH_TOKEN).

Lemma dispatch_gated layers rq uuid requestId :
  guarded_by_auth layers = true → token_valid SIDECAR_AUTH_TOKEN rq = false →
  match dispatch layers rq uuid requestId with
  | Answered r => r = refuse 401 "Unauthorized" ∨ rq_method rq = "OPTIONS" ∧ r = Resp 204 (JStr "No Content")
  | Handled e _ => public e = true
  | NotFound => False
  end.
Proof.
  intros Hg Ht. revert requestId Hg. induction layers as [|[| | |method path e] rest IH]; intros requestId Hg; cbn in *.
  - done.
  - by apply IH.
  - destruct (seqb _ "OPTIONS") eqn:Eo; [right; split; [by apply seqb_eq|done]|by apply IH].
  - rewrite Ht. by left.
  - apply andb_prop in Hg as [Hp Hg]. destruct (matches _ _ _); [done|by apply IH].
Qed.
Lemma app_gated mode cfg : guarded_by_auth (createSidecarApp mode cfg) = true.
Proof. by destruct mode. Qed.

(** The routes a writer registers. *)
Definition writer_surface (e : endpoint) : bool :=
  match e with
  | Health | Ready false | WalletMetrics | WalletBalances | UploadStep | SetMetadata true => true
  | _ => false
  end.
Lemma writer_dispatch cfg rq uuid requestId e i :
  dispatch (createSidecarApp writer cfg) rq uuid requestId = Handled e i → writer_surface e = true.
Proof.
  cbn. destruct (seqb _ _); [done|]. repeat (destruct (matches _ _ _); [by intros [= <- _]|]).
  destruct (token_valid _ _); [|done]. repeat (destruct (matches _ _ _); [by intros [= <- _]|]). done.
Qed.
End Gate.

(** ** What the public handlers do *)
Definition observes (tr : list sevent) (ev : sevent) : Prop :=
  match ev with SServiceInfo | SProvenanceChain | SWalletBalances _ => True | _ => False end.

Lemma assoc_absent {A} k (o : list (string * A)) : k ∉ o.*1 → assoc k o = None.
Proof.
  induction o as [|[k' v] o IH]; cbn; [done|]. intros [Hne Hn]%not_elem_of_cons.
  assert (seqb k k' = false) as -> by by apply seqb_neq. by apply IH.
Qed.
Lemma set_field_keys o f k : k ∈ (set_field o f).*1 → k ∈ o.*1 ∨ k = f.1.
Proof.
  unfold set_field. destruct (existsb _ o).
  - intros Hk. left. apply list_elem_of_fmap in Hk as (g & -> & Hg). apply list_elem_of_In, in_map_iff in Hg as (g' & E & Hg').
    destruct (seqb g'.1 f.1) eqn:Es.
    + apply seqb_eq in Es. subst g. rewrite <-Es. by apply list_elem_of_fmap_2, list_elem_of_In.
    + subst g. by apply list_elem_of_fmap_2, list_elem_of_In.
  - rewrite fmap_app. set_solver.
Qed.
Lemma spread_keys b : ∀ a k, k ∈ (spread a b).*1 → k ∈ a.*1 ∨ k ∈ b.*1.
Proof.
  induction b as [|f b IH]; intros a k; cbn; [by left|]. intros Hk. destruct (IH _ _ Hk) as [Ha|Hb].
  - apply set_field_keys in Ha as [?| ->]; [by left|right; by left].
  - right. by right.
Qed.
Lemma without_absent k o : k ∉ (without k o).*1.
Proof. intros (f & -> & Hf)%list_elem_of_fmap. by apply list_elem_of_filter in Hf as [? _]. Qed.

Section Public.
Context `{SuiSdk} `{WalrusSdk} `{SuiTx} (sv : service) (st : settings) (p : process_info) (t0 : list sevent).
Notation law := (lawful s_trace Enoki.Thrown t0 observes).

Lemma observe_law ev (F : list sevent → Prop) `{!Mono F} : observes [] ev → law F (call sv ev) (λ _, F).
Proof.
  intros Hev. eapply lawful_weaken; [apply (lawful_asked t0 observes sv F ev); [done|by destruct ev]|done|].
  by intros v tr [? _].
Qed.
Lemma gets_law {A} (f : sstate → A) (F : list sevent → Prop) : law F (gets f) (λ _, F).
Proof. by intros s Hs. Qed.
Lemma identity_law : law (λ _, True) (executionIdentity_of sv st) (λ _ _, True).
Proof.
  unfold executionIdentity_of, executionIdentity.
  assert (Hf : law (λ _, True) (fetch_identity sv (WALRUS_PACKAGE_ID st) (SUI_CHAIN_IDENTIFIER st)
    (network_name (SUI_NETWORK st))) (λ _ _, True)).
  { eapply lawful_bind; [by apply observe_law|]. intros info.
    eapply lawful_bind with (G := λ _ _, True); [destruct (check_identity _ _ _ _); [apply lawful_throw|by apply lawful_ret]|].
    intros value. eapply lawful_bind; [apply (gets_law s_clock (λ _, True))|]. intros now. cbv beta.
    apply lawful_silent; [intros s; by exists tt|]. intros u. by apply lawful_ret. }
  eapply lawful_bind; [apply (gets_law s_clock)|]. intros now.
  eapply lawful_bind; [apply (gets_law s_identityCache)|]. intros [[value checkedAtMs]|]; [|exact Hf].
  destruct (_ <? _); [by apply lawful_ret|exact Hf].
Qed.

Definition anonymous (resp : response) (tr : list sevent) : Prop := jget "perWallet" (r_body resp) = JUndefined.
Lemma ready_law requireProvenance : law (λ _, True) (ready_handler sv st p requireProvenance) anonymous.
Proof.
  unfold ready_handler. apply lawful_catch; [|intros e; by apply lawful_ret].
  eapply lawful_bind; [apply identity_law|]. intros identity. eapply lawful_bind.
  - destruct requireProvenance; [|by apply (lawful_ret _ _ _ _ (λ _, True) tt (λ _ _, True))].
    eapply lawful_bind; [by apply observe_law|]. intros result.
    cbv zeta. destruct (orb _ _); [apply lawful_throw|by apply (lawful_ret _ _ _ _ (λ _, True) tt (λ _ _, True))].
  - intros u. eapply lawful_bind; [apply (gets_law _ (λ _, True))|]. intros up. by apply lawful_ret.
Qed.
Lemma metrics_law : law (λ _, True) (wallet_metrics_handler sv st p) anonymous.
Proof.
  unfold wallet_metrics_handler. set (Snap := λ snapshot : list (string * json), "perWallet" ∉ snapshot.*1).
  eapply lawful_bind with (G := λ snapshot _, Snap snapshot).
  { intros s [Hl _]. split; [exact Hl|]. unfold Snap. cbn. set_solver. }
  intros snapshot. apply (lawful_know s_trace Enoki.Thrown t0 observes (Snap snapshot)); [by intros|]. intros Hsnap. unfold Snap in *.
  eapply lawful_weaken with (F' := λ _, True); [|done|intros resp tr Hr; exact Hr].
  assert (Hout : ∀ o : list (string * json), "perWallet" ∉ o.*1 → jget "perWallet" (JObj o) = JUndefined).
  { intros o Ho. cbn. by rewrite assoc_absent. }
  apply lawful_catch.
  - eapply lawful_bind; [by apply observe_law|]. intros balances. apply lawful_ret. intros tr _.
    apply Hout. intros [Hk|Hk]%spread_keys; [by apply Hsnap|by eapply without_absent].
  - intros e. apply lawful_ret. intros tr _. by apply Hout.
Qed.
Lemma health_law : law (λ _, True) (health_handler p) anonymous.
Proof. unfold health_handler. eapply lawful_bind; [apply gets_law|]. intros up. by apply lawful_ret. Qed.
End Public.

(** A handler that catches every error answers. *)
Lemma law_answers t0 (m : SM response) s :
  lawful s_trace Enoki.Thrown t0 observes (λ _, True) m anonymous → s_trace s = t0 → (∀ f, snd (m s) ≠ inl f) →
  ∃ resp new, snd (m s) = inr resp ∧ s_trace (fst (m s)) = t0 ++ new ∧ Forall (observes []) new ∧
    jget "perWallet" (r_body resp) = JUndefined.
Proof.
  intros Hm Ht Hno. destruct (lawful_run s_trace Enoki.Thrown t0 observes m anonymous s Hm Ht) as (new & E & Hok & Hr).
  destruct (snd (m s)) as [f|resp] eqn:Eo; [by destruct (Hno f)|]. exists resp, new. split_and!; [done..| |exact Hr].
  clear -Hok. revert t0 Hok. induction new as [|ev new IH]; intros t0 Hok; [constructor|].
  destruct Hok as [H1 H2]. constructor; [by destruct ev|by eapply IH].
Qed.
Lemma caught (m : SM response) h s f : (∀ e s, ∃ s' a, h e s = (s', inr a)) →
  lawful s_trace Enoki.Thrown (s_trace s) observes (λ _, True) (s_catch m h) anonymous → snd (s_catch m h s) ≠ inl f.
Proof.
  intros Hh Hm E. pose proof (catch_total m h s f Hh E) as ->.
  destruct (lawful_run s_trace Enoki.Thrown (s_trace s) observes _ _ s Hm eq_refl) as (new & _ & _ & Hr).
  rewrite E in Hr. by destruct Hr as [e [=]].
Qed.

Section Application.
Context (matches : string → string → http_request → bool) (SIDECAR_AUTH_TOKEN : string).
Context `{SuiSdk} `{WalrusSdk} `{SuiTx} `{Wallet} (sv : service).
Context (env : Config.env) (st : settings) (p : process_info) (sdk : seal_sdk) (page_fuel : nat) (freshId : string).
Context (decodeSuiPrivateKey : string → js_error + (string * list ascii)) (keypair_address : list ascii → js_error + string).
Context (w : Enoki.world) (date_parse : string → option Z) (timeout_reason abort_error : js_error).
Notation serve := (serve matches SIDECAR_AUTH_TOKEN sv env st p sdk page_fuel freshId decodeSuiPrivateKey keypair_address
  w date_parse timeout_reason abort_error).

(** C5: without the shared secret nothing privileged happens, whatever the
    method, path, headers and body: a request is refused with 401, or is a
    preflight answered 204, or reaches a probe that always answers, only reads
    the chain identity and the balances, and never shows a single wallet's
    balance; in full mode it may be handed to the MCP endpoints, which
    authenticate it themselves.  So it neither signs, submits, uploads,
    encrypts nor decrypts anything.  In writer mode, secret or not, nothing
    but the probes, the balances, the upload journal and the durable metadata
    route can be reached. *)
Theorem unauthenticated_harmless (rq : http_request) (uuid : string) (s : sstate) :
  (bearer_token (rq_authorization rq) ≠ SIDECAR_AUTH_TOKEN →
   match serve rq uuid with
   | Plain r => r = refuse 401 "Unauthorized" ∨ rq_method rq = "OPTIONS" ∧ r = Resp 204 (JStr "No Content")
   | Run m => ∃ resp new, snd (m s) = inr resp ∧ s_trace (fst (m s)) = s_trace s ++ new ∧
                Forall (observes []) new ∧ jget "perWallet" (r_body resp) = JUndefined
   | Delegated e => e ∈ [McpSse; McpMessages; McpStreamable] ∧ SIDECAR_ROUTE_MODE st = full
   | Unrouted => False
   end) ∧
  (SIDECAR_ROUTE_MODE st = writer → ∀ e i,
   dispatch matches SIDECAR_AUTH_TOKEN (createSidecarApp writer (seal_cfg env st)) rq uuid uuid = Handled e i →
   e ∈ [Health; Ready false; WalletMetrics; WalletBalances; UploadStep; SetMetadata true]).
Proof.
  split.
  - intros Ht. assert (Hv : token_valid SIDECAR_AUTH_TOKEN rq = false).
    { apply not_true_is_false. by rewrite token_valid_iff. }
    unfold App.serve. pose proof (dispatch_gated matches SIDECAR_AUTH_TOKEN
      (createSidecarApp (SIDECAR_ROUTE_MODE st) (seal_cfg env st)) rq uuid uuid (app_gated _ _) Hv) as Hd.
    destruct (dispatch _ _ _ _ _ _) as [r|e i|] eqn:Ed; [done| |done].
    destruct e; try done; cbn [handle].
    + apply law_answers; [apply health_law|done|done].
    + apply law_answers; [apply ready_law|done|]. intros f.
      apply caught; [intros e s1; by eexists _, _|apply ready_law].
    + apply law_answers; [apply metrics_law|done|]. intros f. unfold wallet_metrics_handler, mbind, st_bind, gets.
      intros E. pose proof (catch_total _ _ s f (λ e s1, ex_intro _ s1 (ex_intro _ _ eq_refl)) E) as ->.
      revert E. unfold s_catch, try_catch, mbind, st_bind, call. cbv zeta.
      by destruct (sv_answer sv _).
    + split; [set_solver|]. destruct (SIDECAR_ROUTE_MODE st); [done|]. by apply writer_dispatch in Ed.
    + split; [set_solver|]. destruct (SIDECAR_ROUTE_MODE st); [done|]. by apply writer_dispatch in Ed.
    + split; [set_solver|]. destruct (SIDECAR_ROUTE_MODE st); [done|]. by apply writer_dispatch in Ed.
  - intros _ e i Ed. apply writer_dispatch in Ed. destruct e as [|[]| | | | | | | | |[]| | | | | |]; cbn in Ed; try done; set_solver.
Qed.
End Application.

(** The readiness probe, which needs no secret, names every server wallet. *)
Lemma ready_names_wallets st p identity up :
  jget "serverKeyAddresses" (ready_body st p identity up) = JArr (map JStr (SERVER_SUI_ADDRESSES st)).
Proof. reflexivity. Qed.
