(* ===== verification/McpCreds.v ===== *)
(** * The MCP bridge's credentials file (packages/mcp/src/auth.ts, crypto.ts)

    [~/.memwal/credentials.json]: what is a valid file, how it is written,
    read and removed, and the key pair a login generates.  Ed25519 and BLAKE2b
    are the noble libraries'. *)
From Stdlib Require Import QArith Ascii.
From S2P Require Import Prelude JsText JsNumber JsonParse Hex LineReader.
Local Open Scope nat_scope.

Record MemWalCredentials : Type := Creds {
  delegatePrivateKey : string;
  delegatePublicKeyHex : string;
  delegateAddress : string;
  walletAddress : string;
  accountId : string;
  packageId : string;
  relayerUrl : string;
  label : option string;
  createdAt : string;
}.

(** ** crypto.ts *)
Record Keypair : Type := KeypairOf { privateKeyHex : string; publicKeyHex : string; suiAddress : string }.

Section Keys.
Context (ed25519_public : list ascii → list ascii) (blake2b_256 : list ascii → list ascii).

Definition deriveSuiAddress (pubKey : list ascii) : string :=
  "0x" +:+ Hex.bytesToHex (blake2b_256 (ascii_of_nat 0 :: pubKey)).
(** [generateKeypair] with the random [seed] *)
Definition generateKeypair (seed : list ascii) : Keypair :=
  let pub := ed25519_public seed in
  KeypairOf (Hex.bytesToHex seed) (Hex.bytesToHex pub) (deriveSuiAddress pub).
End Keys.

(** ** The JSON of the file *)
Definition creds_json (c : MemWalCredentials) : json := JObj
  [("delegatePrivateKey", JStr (delegatePrivateKey c));
   ("delegatePublicKeyHex", JStr (delegatePublicKeyHex c));
   ("delegateAddress", JStr (delegateAddress c));
   ("walletAddress", JStr (walletAddress c));
   ("accountId", JStr (accountId c));
   ("packageId", JStr (packageId c));
   ("relayerUrl", JStr (relayerUrl c));
   ("label", match label c with Some l => JStr l | None => JUndefined end);
   ("createdAt", JStr (createdAt c));
   ("version", jint 1)].

Definition is_string (v : json) : bool := match v with JStr _ => true | _ => false end.
Definition string_is (p : string → bool) (v : json) : bool := match v with JStr s => p s | _ => false end.
(** [/^[0-9a-fA-F]{64}$/] *)
Definition is_hex64 (s : string) : bool := (slen s =? 64) && sforallb is_hex s.

Definition isValid (o : json) : bool :=
  match o with
  | JObj _ | JArr _ =>
      string_is is_hex64 (jget "delegatePrivateKey" o) &&
      is_string (jget "delegatePublicKeyHex" o) &&
      is_string (jget "delegateAddress" o) &&
      is_string (jget "walletAddress" o) &&
      string_is is_full_address (jget "accountId" o) &&
      is_string (jget "packageId" o) &&
      is_string (jget "relayerUrl" o) &&
      is_string (jget "createdAt" o) &&
      num_is (jget "version" o) 1
  | _ => false
  end.

Definition text (v : json) : string := match v with JStr s => s | _ => empty_str end.
(** [parsed as MemWalCredentials]; a label that is no string is only logged. *)
Definition parsed_creds (o : json) : MemWalCredentials :=
  Creds (text (jget "delegatePrivateKey" o)) (text (jget "delegatePublicKeyHex" o))
        (text (jget "delegateAddress" o)) (text (jget "walletAddress" o)) (text (jget "accountId" o))
        (text (jget "packageId" o)) (text (jget "relayerUrl" o))
        (match jget "label" o with JStr l => Some l | _ => None end) (text (jget "createdAt" o)).

(** [JSON.stringify(fields, null, 2)] of an object whose values are no objects
    or arrays. *)
Definition indented_field (kv : string * json) : list ascii :=
  chars "  " ++ quote_chars kv.1 ++ chars ": " ++ stringify_chars (λ _, "[number]") kv.2.
Fixpoint indented_fields (fs : list (string * json)) : list ascii :=
  match fs with
  | [] => []
  | [f] => LF :: indented_field f ++ [LF]
  | f :: fs' => LF :: indented_field f ++ ","%char :: indented_fields fs'
  end.
Definition stringify_indented (v : json) : string :=
  match v with
  | JObj fs =>
      of_chars ("{"%char :: indented_fields (List.filter (λ kv, negb (is_undefined kv.2)) fs) ++ ["}"%char])
  | _ => json_stringify (λ _, "[number]") v
  end.

(** ** The file *)
Record file : Type := File { content : string; mode : Z }.
Definition MODE_0600 : Z := 6 * 64.

Definition loadCreds (disk : option file) : option MemWalCredentials :=
  f ← disk; o ← json_parse (content f); if isValid o then Some (parsed_creds o) else None.
(** [saveCreds]; [writable] is false when creating the directory or writing
    throws, [chmods] when the permission of an existing file can be set. *)
Definition saveCreds (writable chmods : bool) (c : MemWalCredentials) (disk : option file) : option (option file) :=
  if writable then
    Some (Some (File (stringify_indented (creds_json c))
                  (if chmods then MODE_0600 else match disk with Some f => mode f | None => MODE_0600 end)))
  else None.
Definition clearCreds (unlinks : bool) (disk : option file) : option file :=
  match disk with Some f => if unlinks then None else Some f | None => None end.

(** ** Reading back what was written *)
(** The values of the file: texts and the version number. *)
Definition flat (v : json) : bool :=
  match v with JStr _ => true | JNum (Qmake (Zpos xH) xH) => true | _ => false end.
(** What may follow a value: a comma or the end of the line. *)
Definition separator (c : ascii) : bool := Ascii.eqb c "," || Ascii.eqb c LF.
Definition flat_chars : json → list ascii := stringify_chars (λ _, "[number]").

Lemma parse_value_quote fuel l : parse_value (S fuel) (" "%char :: "034"%char :: l) =
  ('(s, r) ← parse_chars l; Some (JStr (of_chars s), r)).
Proof. reflexivity. Qed.
Lemma parse_flat v fuel c l : flat v = true → separator c = true →
  parse_value (S fuel) (" "%char :: flat_chars v ++ c :: l) = Some (v, c :: l).
Proof.
  destruct v as [| | |[[|[]|] []]|s| |]; try done; intros _ Hc.
  - apply orb_true_iff in Hc as [Hc|Hc]; apply Ascii.eqb_eq in Hc as ->; reflexivity.
  - unfold flat_chars. cbn [stringify_chars]. rewrite quote_chars_eq, parse_value_quote, parse_quoted.
    cbn. by rewrite of_chars_chars.
Qed.

Lemma parse_field k v fs c l fuel : flat v = true → separator c = true →
  parse_members (S (S fuel)) fs (LF :: indented_field (k, v) ++ c :: l) =
  (match drop_while is_json_space (c :: l) with
   | d :: r => if is_char 125 d then Some (JObj (set_field k v fs), r)
               else if is_char 44 d then parse_members (S fuel) (set_field k v fs) r
               else None
   | [] => None
   end).
Proof.
  intros Hv Hc. unfold indented_field. cbn [fst snd]. rewrite <-!app_assoc, quote_chars_eq.
  pose proof (parse_flat v fuel c l Hv Hc) as Hval. fold flat_chars.
  assert (Hspace : ∀ x, drop_while is_json_space (LF :: chars "  " ++ "034"%char :: x) = "034"%char :: x)
    by reflexivity.
  remember (S fuel) as n eqn:Hn. cbn [parse_members]. rewrite Hspace.
  change (is_char 34 "034") with true. cbn iota. rewrite parse_quoted. cbn [mbind option_bind].
  change (drop_while is_json_space (chars ": " ++ flat_chars v ++ c :: l))
    with (":"%char :: " "%char :: flat_chars v ++ c :: l).
  change (is_char 58 ":") with true. cbn iota. rewrite Hval. cbn [mbind option_bind].
  by rewrite of_chars_chars.
Qed.

Lemma parse_fields fs : ∀ done fuel, fs ≠ [] → Forall (λ kv, flat kv.2 = true) fs →
  NoDup (done ++ fs).*1 → length fs < fuel →
  parse_members fuel done (indented_fields fs ++ ["}"%char]) = Some (JObj (done ++ fs), []).
Proof.
  induction fs as [|[k v] fs IH]; intros acc fuel Hne Hflat Hnd Hfuel; [done|].
  inversion_clear Hflat as [|? ? Hv Hflat']. destruct fuel as [|[|fuel]]; simpl in Hfuel; [lia..|].
  assert (Hfresh : set_field k v acc = acc ++ [(k, v)]).
  { apply set_field_fresh. rewrite fmap_app in Hnd. apply NoDup_app in Hnd as (_ & Hd & _).
    intros Hk. apply (Hd k Hk). by left. }
  destruct fs as [|f fs].
  - cbn [indented_fields]. rewrite <-app_comm_cons, <-app_assoc. simpl app at 2.
    rewrite parse_field by done. rewrite Hfresh. reflexivity.
  - change (indented_fields ((k, v) :: f :: fs))
      with (LF :: indented_field (k, v) ++ ","%char :: indented_fields (f :: fs)).
    rewrite <-app_comm_cons, <-app_assoc, <-app_comm_cons. rewrite parse_field by done.
    change (drop_while is_json_space (","%char :: indented_fields (f :: fs) ++ ["}"%char]))
      with (","%char :: indented_fields (f :: fs) ++ ["}"%char]).
    change (is_char 125 ",") with false. change (is_char 44 ",") with true. cbn iota.
    rewrite Hfresh, IH; [by rewrite <-app_assoc|done|done| |simpl in *; lia].
    by rewrite <-app_assoc.
Qed.
Lemma length_indented fs : length fs ≤ length (indented_fields fs).
Proof.
  induction fs as [|f fs IH]; [done|]. destruct fs as [|f' fs]; [simpl; lia|].
  change (indented_fields (f :: f' :: fs)) with (LF :: indented_field f ++ ","%char :: indented_fields (f' :: fs)).
  remember (indented_fields (f' :: fs)) as l. cbn [length] in *. rewrite length_app. cbn [length]. lia.
Qed.
Lemma parse_object fs : fs ≠ [] → Forall (λ kv, flat kv.2 = true) fs → NoDup fs.*1 →
  json_parse (stringify_indented (JObj fs)) = Some (JObj fs).
Proof.
  intros Hne Hflat Hnd. unfold stringify_indented.
  assert (Hf : List.filter (λ kv, negb (is_undefined kv.2)) fs = fs).
  { clear -Hflat. induction Hflat as [|[k v] fs Hv _ IH]; [done|]. simpl. rewrite IH. by destruct v. }
  rewrite Hf. unfold json_parse. rewrite slen_of_chars, chars_of_chars.
  set (body := indented_fields fs ++ ["}"%char]).
  assert (Hlen : length fs < length body).
  { unfold body. rewrite length_app. pose proof (length_indented fs). simpl. lia. }
  assert (Hstep : ∀ n, parse_value (S n) ("{"%char :: body) = parse_members n [] body).
  { intros n. unfold body. destruct fs as [|f [|f' fs]]; [done|reflexivity..]. }
  replace (2 * length ("{"%char :: body) + 2) with (S (2 * length body + 3)) by (simpl; lia).
  rewrite Hstep. unfold body. rewrite parse_fields; [done..|]. fold body. lia.
Qed.

(** The fields that are written. *)
Definition written_fields (c : MemWalCredentials) : list (string * json) :=
  match creds_json c with JObj fs => List.filter (λ kv, negb (is_undefined kv.2)) fs | _ => [] end.
Lemma written_read c : is_hex64 (delegatePrivateKey c) = true → is_full_address (accountId c) = true →
  isValid (JObj (written_fields c)) = true ∧ parsed_creds (JObj (written_fields c)) = c.
Proof.
  intros Hk Ha. destruct c as [k p d wa a pk r [l|] t];
    cbn [delegatePrivateKey accountId] in Hk, Ha; (split; [|reflexivity]);
    change (is_hex64 k && true && true && true && is_full_address a && true && true && true && true = true);
    by rewrite Hk, Ha.
Qed.
Lemma written_parsed c : json_parse (stringify_indented (creds_json c)) = Some (JObj (written_fields c)).
Proof.
  replace (stringify_indented (creds_json c)) with (stringify_indented (JObj (written_fields c)))
    by (destruct c as [? ? ? ? ? ? ? [?|] ?]; reflexivity).
  apply parse_object; destruct c as [? ? ? ? ? ? ? [?|] ?]; try done.
  all: try (repeat constructor; done).
  all: apply (bool_decide_unpack _); by vm_compute.
Qed.

Lemma load_file s m o : json_parse s = Some o → isValid o = true →
  loadCreds (Some (File s m)) = Some (parsed_creds o).
Proof. intros Hs Ho. unfold loadCreds. simpl. rewrite Hs. simpl. by rewrite Ho. Qed.

(** C40: What a login writes, the next start reads back unchanged, and a new
    file (or one whose permission could be set) is private to its owner. *)
Theorem credentials_roundtrip (c : MemWalCredentials) (chmods : bool) (disk : option file) :
  is_hex64 (delegatePrivateKey c) = true → is_full_address (accountId c) = true →
  ∃ f, saveCreds true chmods c disk = Some (Some f) ∧ loadCreds (Some f) = Some c ∧
    (chmods = true ∨ disk = None → mode f = MODE_0600).
Proof.
  intros Hk Ha. destruct (written_read c Hk Ha) as [Hv Hp].
  exists (File (stringify_indented (creds_json c))
            (if chmods then MODE_0600 else match disk with Some f => mode f | None => MODE_0600 end)).
  split; [reflexivity|]. split.
  - rewrite <-Hp at 2. apply load_file; [apply written_parsed|exact Hv].
  - cbn [mode]. intros [->| ->]; [reflexivity|]. by destruct chmods.
Qed.
