(* ===== verification/StatusServer.v ===== *)
(** * The status server (apps/status/server.mjs)

    A Node server that probes the relayers, stores the checks, serves their
    history with the incidents an administrator records, and feeds of both.
    A request runs alone: promises shared by concurrent requests are those of
    [SingleFlight].  The database, the relayers, the file system, clocks and
    the URL class of the platform are arguments; dates are milliseconds. *)
From Stdlib Require Import Ascii QArith Qround Lqa.
From S2P Require Import Prelude JsText JsNumber JsonParse Retry Ledger.
From S2P Require SealRoutes.
Local Open Scope Z_scope.

(** ** Days *)
Definition utcDateKey (ms : Z) : string := take_s 10 (toISOString ms).
Definition addUtcDays (ms days : Z) : Z := ms + days * DAY_MS.
Definition startOfUtcDay (ms : Z) : Z := ms / DAY_MS * DAY_MS.

(** ** Configuration *)
Definition DEFAULT_RELAYER_PRODUCTION_URL : string := "https://relayer.memory.walrus.xyz".
Definition DEFAULT_RELAYER_STAGING_URL : string := "https://relayer-staging.memory.walrus.xyz".
Definition DEFAULT_HEALTH_PATH : string := "/health".
Definition HISTORY_TARGET : string := "relayer".
Record component : Type := Component { c_id : string; c_name : string; c_url : string }.

Section Env.
Context (env : string → option string).
(** [process.env.A || process.env.B || fallback] *)
Fixpoint first_of (names : list string) (fallback : string) : string :=
  match names with
  | [] => fallback
  | n :: names' => match env n with Some v => if is_empty v then first_of names' fallback else v | None => first_of names' fallback end
  end.
Definition getRelayerComponents : list component :=
  [Component "relayer-production" "Walrus Memory Relayer production (mainnet)"
     (trim (first_of ["STATUS_RELAYER_PRODUCTION_URL"; "STATUS_RELAYER_URL"] DEFAULT_RELAYER_PRODUCTION_URL));
   Component "relayer-staging" "Walrus Memory Relayer staging (testnet)"
     (trim (first_of ["STATUS_RELAYER_STAGING_URL"] DEFAULT_RELAYER_STAGING_URL))].
Definition readNumberEnv (name : string) (fallback minimum maximum : Z) : Z :=
  let v := first_of [name] empty_str in
  let value := if is_empty v then Finite (inject_Z fallback) else string_number v in
  match value with
  | Finite q => if negb (Qle_bool (inject_Z minimum) q) || negb (Qle_bool q (inject_Z maximum)) then fallback else math_round q
  | _ => fallback
  end.
Definition getTimeoutMs : Z := readNumberEnv "STATUS_REQUEST_TIMEOUT_MS" 8000 1000 30000.
Definition getPollIntervalMs : Z := readNumberEnv "STATUS_POLL_INTERVAL_MS" 60000 10000 3600000.
Definition getHistoryDays : Z := readNumberEnv "STATUS_HISTORY_DAYS" 90 1 365.
Definition databaseUrl : string := trim (first_of ["DATABASE_URL"; "STATUS_DATABASE_URL"] empty_str).
Definition adminApiKey : string := trim (first_of ["STATUS_ADMIN_API_KEY"] empty_str).
Definition isDatabaseConfigured : bool := negb (is_empty databaseUrl).
Definition relayerBaseUrl : string :=
  trim (first_of ["STATUS_RELAYER_URL"; "MEMWAL_SERVER_URL"; "VITE_MEMWAL_SERVER_URL"] DEFAULT_RELAYER_PRODUCTION_URL).

(** A parsed URL, without its query. *)
Record url : Type := Url { u_origin : string; u_pathname : string; u_hash : string }.
Definition url_text (u : url) : string := u_origin u +:+ u_pathname u +:+ u_hash u.
Context (url_parse : string → js_error + url).
Definition is_slash (c : ascii) : bool := is_char 47 c.
Definition strip_leading (s : string) : string := of_chars (drop_while is_slash (chars s)).
Definition strip_trailing (s : string) : string := of_chars (rev (drop_while is_slash (rev (chars s)))).
(** [s.replace(/\/{2,}/g, "/")] *)
Fixpoint single_slashes (after_slash : bool) (l : list ascii) : list ascii :=
  match l with
  | [] => []
  | c :: l' => if is_slash c then (if after_slash then single_slashes true l' else c :: single_slashes true l') else c :: single_slashes false l'
  end.
(** [/\/health\/?$/] *)
Definition HEALTH_PATTERN : re := rseq [rlit "/health"; ropt (rlit "/"); REnd].
Definition resolveHealthUrl (rawBase : string) : js_error + string :=
  let base := trim (if is_empty rawBase then relayerBaseUrl else rawBase) in
  let given := first_of ["STATUS_HEALTH_PATH"] empty_str in
  let path := trim (if is_empty given then DEFAULT_HEALTH_PATH else given) in
  let healthPath := if is_empty path then DEFAULT_HEALTH_PATH else path in
  match url_parse base with
  | inl e => inl e
  | inr u =>
      if is_empty given && re_test HEALTH_PATTERN (u_pathname u) then inr (url_text u) else
      let nextPath := strip_trailing (u_pathname u) +:+ "/" +:+ strip_leading healthPath in
      inr (url_text (Url (u_origin u) (of_chars (single_slashes false (chars nextPath))) (u_hash u)))
  end.
End Env.

(** ** The administrator's key *)
Definition isAdminAuthValid (key : string) (header : option string) : bool :=
  let header := default empty_str header in
  if is_empty key then false else
  if negb (slen header =? slen key)%nat then false else
  (* timingSafeEqual, which throws on different lengths *)
  bool_decide (utf8 header = utf8 key).
Definition ALLOWED_INCIDENT_STATUSES : list string := ["investigating"; "identified"; "monitoring"; "resolved"].
Definition ALLOWED_SEVERITIES : list string := ["minor"; "major"; "critical"].
Definition one_of (l : list string) (v : json) : bool := match v with JStr s => existsb (seqb s) l | _ => false end.
Definition isValidStatus : json → bool := one_of ALLOWED_INCIDENT_STATUSES.
Definition isValidSeverity : json → bool := one_of ALLOWED_SEVERITIES.

(** ** The database *)
Record relayer : Type := Relayer {
  r_id : string; r_name : string; r_status : string; r_url : string; r_httpStatus : json; r_latencyMs : json;
  r_checkedAt : Z; r_health : json; r_error : json;
}.
Record check_row : Type := CheckRow {
  k_target : string; k_checked_at : Z; k_status : string; k_http_status : json; k_latency_ms : json; k_error : json; k_payload : json;
}.
Record incident : Type := Incident {
  i_id : Z; i_identifier : json; i_title : json; i_status : json; i_severity : json; i_component : json; i_message : json;
  i_started_at : Z; i_resolved_at : option Z; i_created_at : Z; i_updated_at : Z;
}.
Record update_row : Type := UpdateRow { w_id : Z; w_incident_id : Z; w_status : json; w_message : json; w_created_at : Z }.
Record day_row : Type := DayRow { d_day : Z + string; d_total : Z; d_ok : Z; d_degraded : Z; d_outage : Z }.

(** A date as a parameter of a statement: [None] is an invalid one. *)
Definition date_param : Type := option Z.
Inductive statement : Type :=
| SCreateTables (k : nat)
| SInsertCheck (r : relayer)
| SLatestCheck (target : string)
| SHistory (target : string) (days : Z)
| SIncidents (limit offset : Z)
| SUpdatesIn (ids : list Z)
| SIncident (id : Z)
| SUpdates (id : Z)
| SRecentIncidents (days : Z)
| SUpdatesInArray (ids : list Z)       (** [IN (${ids})], the array as one parameter *)
| SIncidentStatus (id : Z)
| SBegin | SCommit | SRollback
| SInsertIncident (title status severity component message : json) (startedAt : date_param)
| SSetIdentifier (id : Z) (identifier : string)
| SInsertUpdate (id : Z) (status message : json) (createdAt : option date_param)
| SUpdateIncident (id : Z) (title status severity component message : json) (startedAt : date_param) (resolvedAt : option date_param)
| SSetStatus (id : Z) (status : json) (resolved : bool)
| SDeleteIncident (id : Z).
Inductive st_event : Type := EvSql (s : statement) | EvFetch (target : string) | EvStat (path : string).
Record st_world : Type := StWorld {
  db_done : list st_event → js_error + unit;
  db_checks : list st_event → js_error + list check_row;
  db_days : list st_event → js_error + list day_row;
  db_incidents : list st_event → js_error + list incident;
  db_updates : list st_event → js_error + list update_row;
  db_statuses : list st_event → js_error + list json;
  db_inserted : list st_event → js_error + option Z;
  db_count : list st_event → js_error + Z;
  st_fetch : list st_event → js_error + (Z * string * string);      (** status, status text, body *)
  st_stat : list st_event → js_error + option Z;                    (** the size of a file *)
  st_now : list st_event → Z;
  st_perf : list st_event → Q;
}.
Record srv : Type := Srv { databaseReady : bool; databaseError : option string; s_trace : list st_event }.
Definition SV : Type → Type := ST srv js_error.
Definition sask {V} (outside : list st_event → js_error + V) (ev : st_event) : SV V := λ s,
  let tr := s_trace s ++ [ev] in
  let s' := Srv (databaseReady s) (databaseError s) tr in
  match outside tr with inl e => (s', inl e) | inr v => (s', inr v) end.
#[export] Instance sask_calls {V} (outside : list st_event → js_error + V) ev : Calls s_trace outside (λ e, e) (sask outside ev) ev.
Proof. intros s. unfold sask. simpl. by destruct (outside _). Qed.
Definition sv_sum {A} (r : js_error + A) : SV A := match r with inl e => throw e | inr a => mret a end.
Definition set_db (ready : bool) (error : option string) : SV unit := modify (λ s, Srv ready error (s_trace s)).
Definition truncateError (message : string) : string :=
  if is_empty message then "Health check failed" else if (500 <? slen message)%nat then take_s 500 message +:+ "..." else message.
(** [error?.message || String(error)] *)
Definition failure_text (e : js_error) : string := error_text e.

(** ** Probes and checks *)
Section Server.
Context (w : st_world) (env : string → option string) (url_parse : string → js_error + url).
Context (date_parse : string → option Z) (distDir : string).
Definition now : SV Z := λ s, (s, inr (st_now w (s_trace s))).
Definition sql_done (s : statement) : SV unit := sask (db_done w) (EvSql s).

Fixpoint create_tables (k n : nat) : SV unit :=
  match n with O => mret tt | S n' => _ ← sql_done (SCreateTables k); create_tables (S k) n' end.
Definition initializeDatabase : SV bool :=
  if negb (isDatabaseConfigured env) then _ ← set_db false None; mret false else
  try_catch (_ ← create_tables 0 6; _ ← set_db true None; mret true)
    (λ error, _ ← set_db false (Some (truncateError (failure_text error))); mret false).
Definition ensureDatabaseReady : SV bool :=
  if negb (isDatabaseConfigured env) then mret false else
  ready ← gets databaseReady;
  if ready : bool then mret true else initializeDatabase.

Definition is_record (v : json) : bool := match v with JObj _ => true | _ => false end.
Definition parsed_record (text : string) : json :=
  match json_parse text with Some v => if is_record v then v else JNull | None => JNull end.
Definition response_ok (status : Z) : bool := (200 <=? status) && (status <=? 299).
Definition probe_result (name target url : string) (checkedAt : Z) (latency : Z) (answer : Z * string * string) : relayer :=
  let '(status, statusText, text) := answer in
  let health := if is_empty text then JNull else parsed_record text in
  let reportedOk := is_record health && equals_text "ok" (jget "status" health) in
  Relayer target name
    (if response_ok status then (if reportedOk then "operational" else "degraded") else "outage") url (jint status) (jint latency) checkedAt health
    (if response_ok status then JNull else JStr (truncateError (if is_empty text then statusText else text))).
Definition probe_failure (name target url : string) (checkedAt latency : Z) (error : js_error) : relayer :=
  let message := if seqb (e_name error) "AbortError" then "Timed out after " +:+ pretty (getTimeoutMs env) +:+ " ms" else failure_text error in
  Relayer target name "outage" url JNull (jint latency) checkedAt JNull (JStr (truncateError message)).
Definition latency_since (startedAt : Q) : SV Z := λ s,
  (s, inr (Z.max 1 (math_round (st_perf w (s_trace s) - startedAt)))).
Definition probeRelayer (name rawBase target : string) : SV relayer :=
  checkedAt ← now;
  url ← sv_sum (resolveHealthUrl env url_parse rawBase);
  startedAt ← gets (λ s, st_perf w (s_trace s));
  try_catch (answer ← sask (st_fetch w) (EvFetch url); latencyMs ← latency_since startedAt;
             mret (probe_result name target url checkedAt latencyMs answer))
    (λ error, latencyMs ← latency_since startedAt; mret (probe_failure name target url checkedAt latencyMs error)).
Definition insertCheck (r : relayer) : SV bool :=
  ready ← ensureDatabaseReady;
  if negb ready then mret false else
  try_catch (_ ← sql_done (SInsertCheck r); _ ← set_db true None; mret true)
    (λ error, _ ← set_db false (Some (truncateError (failure_text error))); mret false).

Fixpoint probe_all (l : list component) : SV (list relayer) :=
  match l with
  | [] => mret []
  | c :: l' => r ← probeRelayer (c_name c) (c_url c) (c_id c); rs ← probe_all l'; mret (r :: rs)
  end.
Fixpoint insert_all (l : list relayer) : SV unit :=
  match l with [] => mret tt | r :: l' => _ ← insertCheck r; insert_all l' end.
Definition probeAndStore : SV (list relayer) :=
  results ← probe_all (getRelayerComponents env); _ ← insert_all results; mret results.

Definition normalizePayload (payload : json) : json :=
  match payload with
  | JObj _ => payload
  | JStr s => if is_empty s then JNull else parsed_record s
  | _ => JNull
  end.
Fixpoint find_component (target : string) (l : list component) : option component :=
  match l with [] => None | c :: l' => if seqb (c_id c) target then Some c else find_component target l' end.
Definition rowToRelayer (row : check_row) : js_error + relayer :=
  let component := find_component (k_target row) (getRelayerComponents env) in
  match resolveHealthUrl env url_parse (match component with Some c => c_url c | None => empty_str end) with
  | inl e => inl e
  | inr url => inr (Relayer (if is_empty (k_target row) then HISTORY_TARGET else k_target row)
      (match component with Some c => if is_empty (c_name c) then "Walrus Memory Relayer" else c_name c | None => "Walrus Memory Relayer" end)
      (k_status row) url (k_http_status row) (k_latency_ms row) (k_checked_at row) (normalizePayload (k_payload row)) (k_error row))
  end.
Definition readLatestCheck (target : string) : SV (option relayer) :=
  ready ← ensureDatabaseReady;
  if negb ready then mret None else
  rows ← sask (db_checks w) (EvSql (SLatestCheck target));
  match rows with [] => mret None | row :: _ => r ← sv_sum (rowToRelayer row); mret (Some r) end.

(** ** Incidents *)
Definition update_json (u : update_row) : json :=
  JObj [("id", jint (w_id u)); ("status", w_status u); ("message", w_message u); ("createdAt", JStr (toISOString (w_created_at u)))].
Definition incident_json (i : incident) (updates : list update_row) : json :=
  JObj [("id", jint (i_id i)); ("identifier", i_identifier i); ("title", i_title i); ("status", i_status i);
        ("severity", i_severity i); ("component", i_component i); ("message", i_message i);
        ("startedAt", JStr (toISOString (i_started_at i)));
        ("resolvedAt", match i_resolved_at i with Some ms => JStr (toISOString ms) | None => JNull end);
        ("createdAt", JStr (toISOString (i_created_at i))); ("updatedAt", JStr (toISOString (i_updated_at i)));
        ("updates", JArr (map update_json updates))].
Definition updates_of (id : Z) (updates : list update_row) : list update_row := List.filter (λ u, w_incident_id u =? id) updates.
Definition with_updates (rows : list incident) (updates : list update_row) : list (incident * list update_row) :=
  map (λ i, (i, updates_of (i_id i) updates)) rows.
Definition listIncidents : SV (list (incident * list update_row)) :=
  ready ← ensureDatabaseReady;
  if negb ready then mret [] else
  rows ← sask (db_incidents w) (EvSql (SIncidents 50 0));
  if bool_decide (rows = []) then mret [] else
  updateRows ← sask (db_updates w) (EvSql (SUpdatesIn (map i_id rows)));
  mret (with_updates rows updateRows).
Definition getIncidentWithUpdates (id : Z) : SV (option (incident * list update_row)) :=
  ready ← ensureDatabaseReady;
  if negb ready then mret None else
  rows ← sask (db_incidents w) (EvSql (SIncident id));
  match rows with
  | [] => mret None
  | row :: _ => updates ← sask (db_updates w) (EvSql (SUpdates (i_id row))); mret (Some (row, updates))
  end.

(** [new Date(v)] *)
Definition new_date (v : json) : date_param :=
  match v with
  | JStr s => date_parse s
  | JNum q => if Qle_bool (- 8640000000000000) q && Qle_bool q 8640000000000000 then Some (if Qle_bool 0 q then Qfloor q else Qceiling q) else None
  | JBool b => Some (if b then 1 else 0)
  | JNull => Some 0
  | JUndefined => None
  | JObj _ | JArr _ => date_parse (js_string v)
  end.
Definition isValidDate (v : json) : bool := truthy v && bool_decide (new_date v ≠ None).
(** [new Date(v || Date.now())] *)
Definition date_or_now (v : json) : SV date_param := t ← now; mret (if truthy v then new_date v else Some t).
(** [v || null] *)
Definition or_null (v : json) : json := if truthy v then v else JNull.

(** [trx.begin]: committed at the end, rolled back on a failure. *)
Definition transaction {A} (body : SV A) : SV A :=
  _ ← sql_done SBegin;
  r ← try_catch (a ← body; mret (inr a : js_error + A)) (λ e, mret (inl e));
  match r with
  | inr a => _ ← sql_done SCommit; mret a
  | inl e => _ ← try_catch (sql_done SRollback) (λ _, mret tt); throw e
  end.
Fixpoint insert_updates (id : Z) (updates : list json) : SV unit :=
  match updates with
  | [] => mret tt
  | u :: updates' =>
      status ← sv_sum (read_of "status" u);
      createdAt ← date_or_now (jget "createdAt" u);
      _ ← sql_done (SInsertUpdate id status (jget "message" u) (Some createdAt));
      insert_updates id updates'
  end.
(** What [for (const update of payload.updates)] goes through, if
    [payload.updates?.length] is not zero. *)
Definition listed_updates (v : json) : option (js_error + list json) :=
  match v with
  | JArr [] => None
  | JArr l => Some (inr l)
  | JStr s => if is_empty s then None else Some (inr (map (λ c, JStr (of_chars [c])) (chars s)))
  | JObj _ => if truthy (jget "length" v) then Some (inl (js_type_error "payload.updates is not iterable")) else None
  | _ => None
  end.
Definition insert_incident (payload : json) : SV (option Z) :=
  startedAt ← date_or_now (jget "startedAt" payload);
  inserted ← sask (db_inserted w) (EvSql (SInsertIncident (jget "title" payload) (jget "status" payload) (jget "severity" payload)
    (or_null (jget "component" payload)) (jget "message" payload) startedAt));
  match inserted with
  | None => mret None
  | Some id =>
      if id =? 0 then mret None else
      _ ← sql_done (SSetIdentifier id ("WM-INC-" +:+ pretty id));
      _ ← (match listed_updates (jget "updates" payload) with
           | Some updates => l ← sv_sum updates; insert_updates id l
           | None => sql_done (SInsertUpdate id (jget "status" payload) (jget "message" payload) None)
           end);
      mret (Some id)
  end.
Definition createIncident (payload : json) : SV (option (incident * list update_row)) :=
  ready ← ensureDatabaseReady;
  if negb ready then mret None else
  id ← transaction (insert_incident payload);
  match id with None => mret None | Some id => getIncidentWithUpdates id end.

(** [a === b], where the column [b] is a text *)
Definition same_text (a b : json) : bool := match b with JStr s => equals_text s a | _ => false end.
(** [payload.k !== undefined ? payload.k : existing] *)
Definition given (k : string) (payload existing : json) : json := if is_undefined (jget k payload) then existing else jget k payload.
Definition resolution (payload status existing_status : json) (existing : option Z) : SV (option date_param) :=
  let v := jget "resolvedAt" payload in
  if negb (is_undefined v) then mret (if truthy v then Some (new_date v) else None) else
  if equals_text "resolved" status && negb (equals_text "resolved" existing_status)
  then t ← now; mret (Some (Some t))
  else mret (Some <$> existing).
Definition updateIncident (id : Z) (payload : json) : SV (option (incident * list update_row)) :=
  ready ← ensureDatabaseReady;
  if negb ready then mret None else
  found ← getIncidentWithUpdates id;
  match found with
  | None => mret None
  | Some (existing, _) =>
      let status := given "status" payload (i_status existing) in
      let startedAt := if is_undefined (jget "startedAt" payload) then Some (i_started_at existing) else new_date (jget "startedAt" payload) in
      resolvedAt ← resolution payload status (i_status existing) (i_resolved_at existing);
      _ ← sql_done (SUpdateIncident id (given "title" payload (i_title existing)) status (given "severity" payload (i_severity existing))
            (given "component" payload (i_component existing)) (given "message" payload (i_message existing)) startedAt resolvedAt);
      _ ← (if equals_text "resolved" (jget "status" payload) && negb (equals_text "resolved" (i_status existing))
           then let message := jget "message" payload in
                sql_done (SInsertUpdate id (JStr "resolved")
                  (if truthy message && negb (same_text message (i_message existing)) then message else JStr "Incident resolved.") None)
           else mret tt);
      getIncidentWithUpdates id
  end.
Definition addIncidentUpdate (incidentId : Z) (payload : json) : SV (option (incident * list update_row)) :=
  ready ← ensureDatabaseReady;
  if negb ready then mret None else
  existingRows ← sask (db_statuses w) (EvSql (SIncidentStatus incidentId));
  let existingStatus := match existingRows with [] => JUndefined | s :: _ => s end in
  let status := jget "status" payload in
  let transitioningToResolved := equals_text "resolved" status && negb (equals_text "resolved" existingStatus) in
  createdAt ← date_or_now (jget "createdAt" payload);
  _ ← sql_done (SInsertUpdate incidentId status (jget "message" payload) (Some createdAt));
  _ ← (if truthy status then sql_done (SSetStatus incidentId status transitioningToResolved) else mret tt);
  getIncidentWithUpdates incidentId.
Definition deleteIncident (id : Z) : SV bool :=
  ready ← ensureDatabaseReady;
  if negb ready then mret false else
  count ← sask (db_count w) (EvSql (SDeleteIncident id));
  mret (0 <? count).
Definition is_resolved (i : incident) : bool := equals_text "resolved" (i_status i).
Record incident_lists : Type := IncidentLists { active : list (incident * list update_row); recent : list (incident * list update_row) }.
Definition readActiveAndRecentIncidents : SV incident_lists :=
  ready ← ensureDatabaseReady;
  if negb ready then mret (IncidentLists [] []) else
  rows ← sask (db_incidents w) (EvSql (SRecentIncidents 30));
  updateRows ← (match rows with [] => mret [] | _ => sask (db_updates w) (EvSql (SUpdatesInArray (map i_id rows))) end);
  let incidents := with_updates rows updateRows in
  mret (IncidentLists (List.filter (λ x, negb (is_resolved x.1)) incidents) (List.filter (λ x, is_resolved x.1) incidents)).

(** ** History *)
Record bucket : Type := Bucket { b_date : string; b_status : string; b_total : Z; b_ok : Z; b_degraded : Z; b_outage : Z }.
Record history : Type := History {
  h_enabled : bool; h_source : string; h_days : Z; h_target : string; h_totalChecks : Z; h_uptimePct : json;
  h_unavailableReason : option string; h_buckets : list bucket;
}.
Definition bucketStatus (total degraded outage : Z) : string :=
  if total =? 0 then "unknown" else
  let outagePct := (inject_Z outage / inject_Z total)%Q in
  let degradedPct := (inject_Z degraded / inject_Z total)%Q in
  if negb (Qle_bool outagePct (5 # 100)) then "outage" else
  if negb (Qle_bool outagePct 0) || negb (Qle_bool degradedPct (5 # 100)) then "degraded" else "operational".
(** The dates of the last [days] days, the last of them that of [ms]. *)
Definition day_keys (ms days : Z) : list string :=
  let firstDay := addUtcDays (startOfUtcDay ms) (- (days - 1)) in
  map (λ k, utcDateKey (addUtcDays firstDay (Z.of_nat k))) (seq 0 (Z.to_nat days)).
Definition makeEmptyHistory (ms : Z) (reason : option string) (target : string) : history :=
  History false "live" (getHistoryDays env) target 0 JNull reason
    (map (λ d, Bucket d "unknown" 0 0 0 0) (day_keys ms (getHistoryDays env))).
Definition row_key (row : day_row) : string := match d_day row with inl ms => utcDateKey ms | inr s => take_s 10 s end.
Definition by_day (rows : list day_row) : gmap string day_row := foldl (λ m row, <[row_key row := row]> m) ∅ rows.
Definition bucket_of (byDay : gmap string day_row) (date : string) : bucket :=
  let row := default (DayRow (inr date) 0 0 0 0) (byDay !! date) in
  Bucket date (bucketStatus (d_total row) (d_degraded row) (d_outage row)) (d_total row) (d_ok row) (d_degraded row) (d_outage row).
(** [Number(q.toFixed(2))] *)
Definition to_number_2 (q : Q) : json := match string_number (to_fixed 2 q) with Finite q => JNum q | _ => JUndefined end.
Definition total_of (f : bucket → Z) (l : list bucket) : Z := fold_right (λ b n, f b + n) 0 l.
Definition history_of (rows : list day_row) (ms : Z) (target : string) : history :=
  let days := getHistoryDays env in
  let buckets := map (bucket_of (by_day rows)) (day_keys ms days) in
  let totalChecks := total_of b_total buckets in
  let upChecks := total_of (λ b, b_ok b + b_degraded b) buckets in
  History true "postgres" days target totalChecks
    (if 0 <? totalChecks then to_number_2 (inject_Z upChecks / inject_Z totalChecks * 100) else JNull) None buckets.
Definition readHistory (target : string) : SV history :=
  ready ← ensureDatabaseReady;
  if negb ready then error ← gets databaseError; ms ← now; mret (makeEmptyHistory ms error target) else
  try_catch (rows ← sask (db_days w) (EvSql (SHistory target (getHistoryDays env))); ms ← now; mret (history_of rows ms target))
    (λ e, let reason := Some (truncateError (failure_text e)) in
          _ ← set_db false reason; ms ← now; mret (makeEmptyHistory ms reason target)).

(** ** The payload of /api/status *)
(** [latestAgeMs > 1.5 * interval] *)
Definition is_stale (ms : Z) (latest : option relayer) : bool :=
  match latest with None => true | Some r => (3 * getPollIntervalMs env <? 2 * (ms - r_checkedAt r)) end.
Fixpoint latest_checks (l : list component) : SV (bool * list (option relayer)) :=
  match l with
  | [] => mret (false, [])
  | c :: l' =>
      latest ← readLatestCheck (c_id c);
      ms ← now;
      '(stale, rest) ← latest_checks l';
      mret (is_stale ms latest || stale, latest :: rest)
  end.
Fixpoint read_latest (l : list component) : SV (list (option relayer)) :=
  match l with [] => mret [] | c :: l' => latest ← readLatestCheck (c_id c); rest ← read_latest l'; mret (latest :: rest) end.
Definition getRelayerSnapshot : SV (list (option relayer)) :=
  let components := getRelayerComponents env in
  if negb (isDatabaseConfigured env) then rs ← probe_all components; mret (map Some rs) else
  '(needsPoll, latest) ← latest_checks components;
  if needsPoll : bool then _ ← probeAndStore; read_latest components else mret latest.

Record snapshot : Type := Snapshot {
  sn_generatedAt : string; sn_status : string; sn_historyEnabled : bool; sn_components : list relayer;
  sn_histories : list (string * history); sn_incidents : incident_lists; sn_ready : bool; sn_error : option string;
}.
(** [components.map(...)] reads the id of each, which throws on [null]. *)
Fixpoint read_histories (l : list (option relayer)) : SV (list relayer * list (string * history)) :=
  match l with
  | [] => mret ([], [])
  | None :: _ => throw (js_type_error "Cannot read properties of null (reading 'id')")
  | Some r :: l' => h ← readHistory (r_id r); '(rs, hs) ← read_histories l'; mret (r :: rs, (r_id r, h) :: hs)
  end.
Definition has_status (s : string) (r : relayer) : bool := seqb (r_status r) s.
Definition service_status (components : list relayer) : string :=
  if existsb (has_status "outage") components then "outage" else
  if existsb (has_status "degraded") components then "degraded" else "operational".
Definition statusPayload : SV snapshot :=
  latest ← getRelayerSnapshot;
  '(components, histories) ← read_histories latest;
  incidents ← readActiveAndRecentIncidents;
  ms ← now;
  s ← gets id;
  mret (Snapshot (toISOString ms) (service_status components) (existsb (λ h, h_enabled h.2) histories) components histories incidents
    (databaseReady s) (databaseError s)).

Definition text_or_null (o : option string) : json := match o with Some s => JStr s | None => JNull end.
Definition relayer_json (r : relayer) : json :=
  JObj [("id", JStr (r_id r)); ("name", JStr (r_name r)); ("status", JStr (r_status r)); ("url", JStr (r_url r));
        ("httpStatus", r_httpStatus r); ("latencyMs", r_latencyMs r); ("checkedAt", JStr (toISOString (r_checkedAt r)));
        ("health", r_health r); ("error", r_error r)].
Definition bucket_json (b : bucket) : json :=
  JObj [("date", JStr (b_date b)); ("status", JStr (b_status b)); ("total", jint (b_total b)); ("ok", jint (b_ok b));
        ("degraded", jint (b_degraded b)); ("outage", jint (b_outage b))].
Definition history_json (h : history) : json :=
  JObj [("enabled", JBool (h_enabled h)); ("source", JStr (h_source h)); ("days", jint (h_days h)); ("target", JStr (h_target h));
        ("totalChecks", jint (h_totalChecks h)); ("uptimePct", h_uptimePct h); ("unavailableReason", text_or_null (h_unavailableReason h));
        ("buckets", JArr (map bucket_json (h_buckets h)))].
Definition database_json (ready : bool) (error : option string) : json :=
  JObj [("configured", JBool (isDatabaseConfigured env)); ("ready", JBool ready); ("error", text_or_null error)].
Definition dependency (name url : string) : json := JObj [("name", JStr name); ("status", JStr "monitoring"); ("url", JStr url)].
Definition pairs_json (l : list (incident * list update_row)) : json := JArr (map (λ x, incident_json x.1 x.2) l).
Definition snapshot_json (s : snapshot) : json :=
  JObj [("generatedAt", JStr (sn_generatedAt s));
        ("service", JObj [("name", JStr "Walrus Memory Status"); ("status", JStr (sn_status s)); ("runtime", JStr "node");
                          ("historyEnabled", JBool (sn_historyEnabled s))]);
        ("components", JArr (map relayer_json (sn_components s)));
        ("histories", JObj (foldl (λ fs h, set_field h.1 (history_json h.2) fs) [] (sn_histories s)));
        ("incidents", JObj [("active", pairs_json (active (sn_incidents s))); ("recent", pairs_json (recent (sn_incidents s)))]);
        ("database", database_json (sn_ready s) (sn_error s));
        ("dependencies", JArr [dependency "Sui network" (first_of env ["STATUS_SUI_STATUS_URL"] "https://status.sui.io/");
                               dependency "Walrus storage" (first_of env ["STATUS_WALRUS_URL"] "https://www.walrus.xyz/")])].

(** ** Feeds *)
Definition xml_escape (c : ascii) : list ascii :=
  if is_char 38 c then chars "&amp;" else
  if is_char 60 c then chars "&lt;" else
  if is_char 62 c then chars "&gt;" else
  if is_char 34 c then chars "&quot;" else
  if is_char 39 c then chars "&apos;" else [c].
Definition escapeXml (value : string) : string := of_chars (flat_map xml_escape (chars value)).
Record feed_entry : Type := Entry { f_id : string; f_title : string; f_updated : string; f_summary : string; f_link : string }.
Definition find_status (s : string) (l : list relayer) : option relayer := List.find (has_status s) l.
Definition incident_entry (baseUrl : string) (i : incident) : feed_entry :=
  Entry (baseUrl +:+ "/history#" +:+ js_string (i_identifier i))
    (js_string (i_identifier i) +:+ ": " +:+ js_string (i_title i) +:+ " (" +:+ js_string (i_status i) +:+ ")")
    (toISOString (i_updated_at i)) (js_string (i_message i)) (baseUrl +:+ "/history").
Definition plural (n : Z) (what : string) : string := pretty n +:+ " " +:+ what +:+ " check" +:+ (if n =? 1 then empty_str else "s") +:+ " recorded.".
Definition bucket_entry (baseUrl : string) (b : bucket) : option feed_entry :=
  let outage := seqb (b_status b) "outage" in
  if negb outage && negb (seqb (b_status b) "degraded") then None else
  Some (Entry (baseUrl +:+ "/history#" +:+ b_date b)
    ((if outage then "Major outage on " else "Degraded performance on ") +:+ b_date b) (b_date b +:+ "T00:00:00.000Z")
    (if outage then plural (b_outage b) "outage" else plural (b_degraded b) "degraded") (baseUrl +:+ "/history")).
Definition state_entry (snap : snapshot) (baseUrl : string) : feed_entry :=
  let components := sn_components snap in
  let production := match List.find (λ r, seqb (r_id r) "relayer-production") components with Some r => Some r | None => head components end in
  let worst := match find_status "outage" components with
               | Some r => Some r
               | None => match find_status "degraded" components with Some r => Some r | None => production end
               end in
  let at_time o := match o with Some r => toISOString (r_checkedAt r) | None => sn_generatedAt snap end in
  if seqb (sn_status snap) "operational"
  then Entry (baseUrl +:+ "/") "All Systems Operational" (at_time production)
         "Walrus Memory Relayers are operational. No incidents reported." (baseUrl +:+ "/")
  else
    let status dflt := match worst with Some r => if is_empty (r_status r) then dflt else r_status r | None => dflt end in
    Entry (baseUrl +:+ "/") ("Walrus Memory Relayer " +:+ status "unavailable") (at_time worst)
      (match worst with
       | Some r => if truthy (r_error r) then js_string (r_error r) else "Relayer status is " +:+ status "unknown" +:+ "."
       | None => "Relayer status is unknown."
       end) (baseUrl +:+ "/").
Definition feedEntries (snap : snapshot) (baseUrl : string) : list feed_entry :=
  let allIncidents := active (sn_incidents snap) ++ recent (sn_incidents snap) in
  let entries := match allIncidents with
                 | [] => [state_entry snap baseUrl]
                 | _ => map (λ x, incident_entry baseUrl x.1) (take 10 allIncidents)
                 end in
  let buckets := match List.find (λ h, seqb h.1 "relayer-production") (rev (sn_histories snap)) with Some h => h_buckets h.2 | None => [] end in
  take 20 (entries ++ omap (bucket_entry baseUrl) buckets).
Definition lf : string := String.String "010" empty_str.
Definition lines (l : list string) : string := join lf l.
Definition tag (name content : string) : string := "<" +:+ name +:+ ">" +:+ content +:+ "</" +:+ name +:+ ">".
Definition attribute (name value : string) : string := name +:+ "=" +:+ q2 "'" +:+ value +:+ q2 "'".
Definition atom_entry (e : feed_entry) : string :=
  lines [empty_str; "    <entry>"; "      " +:+ tag "id" (escapeXml (f_id e)); "      " +:+ tag "title" (escapeXml (f_title e));
         "      " +:+ tag "updated" (escapeXml (f_updated e)); "      <link " +:+ attribute "href" (escapeXml (f_link e)) +:+ " />";
         "      " +:+ tag "summary" (escapeXml (f_summary e)); "    </entry>"].
Definition XML_HEADER : string := "<?xml " +:+ attribute "version" "1.0" +:+ " " +:+ attribute "encoding" "UTF-8" +:+ "?>".
Definition atomFeed (snap : snapshot) (baseUrl : string) : string :=
  lines [XML_HEADER; "<feed " +:+ attribute "xmlns" "http://www.w3.org/2005/Atom" +:+ ">"; "  <id>" +:+ escapeXml baseUrl +:+ "/history.atom</id>";
         "  <title>Walrus Memory Status History</title>"; "  " +:+ tag "updated" (escapeXml (sn_generatedAt snap));
         "  <link " +:+ attribute "href" (escapeXml baseUrl +:+ "/history.atom") +:+ " " +:+ attribute "rel" "self" +:+ " />";
         "  <link " +:+ attribute "href" (escapeXml baseUrl +:+ "/") +:+ " />";
         "  " +:+ join empty_str (map atom_entry (feedEntries snap baseUrl)); "</feed>"].
(** [new Date(s).toUTCString()] *)
Definition utc_text (s : string) : string := match date_parse s with Some ms => toUTCString ms | None => "Invalid Date" end.
Definition rss_item (e : feed_entry) : string :=
  lines [empty_str; "      <item>"; "        " +:+ tag "guid" (escapeXml (f_id e)); "        " +:+ tag "title" (escapeXml (f_title e));
         "        " +:+ tag "link" (escapeXml (f_link e)); "        " +:+ tag "pubDate" (escapeXml (utc_text (f_updated e)));
         "        " +:+ tag "description" (escapeXml (f_summary e)); "      </item>"].
Definition rssFeed (snap : snapshot) (baseUrl : string) : string :=
  lines [XML_HEADER; "<rss " +:+ attribute "version" "2.0" +:+ ">"; "  <channel>"; "    <title>Walrus Memory Status History</title>";
         "    <link>" +:+ escapeXml baseUrl +:+ "/</link>";
         "    <description>Real-time and historical status updates for Walrus Memory.</description>";
         "    " +:+ tag "lastBuildDate" (escapeXml (utc_text (sn_generatedAt snap)));
         "    " +:+ join empty_str (map rss_item (feedEntries snap baseUrl)); "  </channel>"; "</rss>"].

(** ** Requests *)
Record request : Type := Request {
  q_method : string; q_url : string; q_header : string → option string;
  q_chunks : list (list ascii); q_failure : option js_error;     (** the body, and an error while it is read *)
}.
Inductive response : Type :=
| RJson (status : Z) (body : json)
| RNoContent
| RText (status : Z) (body : string)
| RXml (body contentType : string)
| RNotAllowed (allow : list string)
| RFile (path : string) (size : Z) (contentType cacheControl : string) (with_body : bool).
Definition sendJson (status : Z) (body : json) : response := if status =? 204 then RNoContent else RJson status body.
Definition error_json (message : string) : json := JObj [("error", JStr message)].
Definition refuse (status : Z) (message : string) : SV response := mret (sendJson status (error_json message)).

(** [decodeURIComponent]; a code unit of 256 or more is written as [?]. *)
Definition hex_byte (a b : ascii) : option N :=
  match hex_value a, hex_value b with Some x, Some y => Some (16 * x + y)%N | _, _ => None end.
Definition code_point (n least : N) : option ascii :=
  if ((n <? least) || (1114111 <? n) || ((55296 <=? n) && (n <=? 57343)))%N then None
  else Some (if (n <? 256)%N then ascii_of_N n else "?"%char).
(** The leading byte of a sequence: its continuation bytes, its bits and the
    least code point it may stand for. *)
Definition leading (v : N) : option (nat * N * N) :=
  (if (v <? 194) || (244 <? v) then None else
   if v <? 224 then Some (0%nat, v - 192, 128) else
   if v <? 240 then Some (1%nat, v - 224, 2048) else Some (2%nat, v - 240, 65536))%N.
Fixpoint decode_uri (pending : option (nat * N * N)) (l : list ascii) : option (list ascii) :=
  match l with
  | [] => match pending with None => Some [] | Some _ => None end
  | c :: l1 =>
      if negb (is_char 37 c) then match pending with None => cons c <$> decode_uri None l1 | Some _ => None end else
      match l1 with
      | a :: b :: l2 =>
          match hex_byte a b, pending with
          | None, _ => None
          | Some v, None =>
              if (v <? 128)%N then cons (ascii_of_N v) <$> decode_uri None l2 else
              match leading v with Some next => decode_uri (Some next) l2 | None => None end
          | Some v, Some (more, acc, least) =>
              if negb ((128 <=? v) && (v <? 192))%N then None else
              let acc := (64 * acc + (v - 128))%N in
              match more with
              | S more' => decode_uri (Some (more', acc, least)) l2
              | O => match code_point acc least with Some u => cons u <$> decode_uri None l2 | None => None end
              end
          end
      | _ => None
      end
  end.
Definition decodeURIComponent (s : string) : option string := of_chars <$> decode_uri None (chars s).
(** The path of a request, or [None] when reading it throws. *)
Definition request_path (q : request) : option string :=
  match url_parse (if is_empty (q_url q) then "/" else q_url q) with
  | inl _ => None
  | inr u => decodeURIComponent (u_pathname u)
  end.

Definition MAX_BODY : nat := 256000.
Fixpoint too_large (received : nat) (chunks : list (list ascii)) : bool :=
  match chunks with
  | [] => false
  | c :: chunks' => let received := (received + length c)%nat in (MAX_BODY <? received)%nat || too_large received chunks'
  end.
Definition readJsonBody (q : request) : js_error + json :=
  if too_large 0 (q_chunks q) then inl (plain_error "Request body too large") else
  match q_failure q with
  | Some e => inl e
  | None =>
      let raw := of_chars (SealRoutes.utf8_text (concat (q_chunks q))) in
      if is_empty raw then inr (JObj []) else
      match json_parse raw with Some v => inr v | None => inl (plain_error "Invalid JSON") end
  end.

(** [/^(localhost|127\.0\.0\.1|\[::1\])(?::\d+)?$/], from the start *)
Definition LOCAL_HOST : re :=
  rseq [ralt [rlit "localhost"; rlit "127.0.0.1"; rlit "[::1]"]; ropt (RSeq (rlit ":") (rplus (RChar is_digit))); REnd].
Definition matches (r : re) (s : string) : bool := rm r None (chars s) (λ _ _, true).
Fixpoint until_comma (l : list ascii) : list ascii :=
  match l with [] => [] | c :: l' => if is_char 44 c then [] else c :: until_comma l' end.
Definition first_listed (s : string) : string := trim (of_chars (until_comma (chars s))).
Definition number_text (n : number) : string :=
  match n with Finite q => js_string (JNum q) | NaN => "NaN" | Infinite neg => (if neg then "-Infinity" else "Infinity") end.
Definition port : number := let v := first_of env ["PORT"] empty_str in if is_empty v then Finite (inject_Z 3000) else string_number v.
Definition header_or (q : request) (name dflt : string) : string :=
  match q_header q name with Some v => if is_empty v then dflt else v | None => dflt end.
Definition publicBaseUrl (q : request) : string :=
  let configured := strip_trailing (trim (first_of env ["STATUS_PUBLIC_URL"] empty_str)) in
  if negb (is_empty configured) then configured else
  let firstHost := first_listed (header_or q "x-forwarded-host" (header_or q "host" ("localhost:" +:+ number_text port))) in
  let fallbackProto := if matches LOCAL_HOST firstHost then "http" else "https" in
  first_listed (header_or q "x-forwarded-proto" fallbackProto) +:+ "://" +:+ firstHost.

(** ** The static files *)
Definition is_file_like : re :=
  let part := rplus (RChar (λ c, negb (is_char 47 c || is_char 63 c || is_char 35 c))) in rseq [rlit "/"; part; rlit "."; part; REnd].
Definition contentTypes : list (string * string) :=
  [(empty_str, "text/plain; charset=utf-8"); (".css", "text/css; charset=utf-8"); (".gif", "image/gif"); (".html", "text/html; charset=utf-8");
   (".ico", "image/x-icon"); (".jpeg", "image/jpeg"); (".jpg", "image/jpeg"); (".js", "application/javascript; charset=utf-8");
   (".json", "application/json; charset=utf-8"); (".map", "application/json; charset=utf-8"); (".png", "image/png");
   (".svg", "image/svg+xml; charset=utf-8"); (".webmanifest", "application/manifest+json; charset=utf-8"); (".webp", "image/webp")].
Definition cacheControlFor (pathname : string) (servingIndex : bool) : string :=
  if servingIndex then "no-store" else
  if starts_with "/assets/" pathname then "public, max-age=31536000, immutable" else "public, max-age=300, must-revalidate".
(** The parts of a path between its slashes. *)
Fixpoint segments (acc l : list ascii) : list string :=
  match l with
  | [] => [of_chars (rev acc)]
  | c :: l' => if is_slash c then of_chars (rev acc) :: segments [] l' else segments (c :: acc) l'
  end.
Definition step_into (at_ : list string) (segment : string) : list string :=
  if is_empty segment || seqb segment "." then at_ else
  if seqb segment ".." then take (length at_ - 1) at_ else at_ ++ [segment].
(** [path.resolve(dir, relative)], of an absolute directory *)
Definition path_resolve (dir relative : string) : string :=
  "/" +:+ join "/" (foldl step_into [] (segments [] (chars dir) ++ segments [] (chars relative))).
Definition resolveDistPath (pathname : string) : option string :=
  let resolved := path_resolve distDir (strip_leading pathname) in
  if negb (seqb resolved distDir) && negb (starts_with (distDir +:+ "/") resolved) then None else Some resolved.
(** [path.extname(p).toLowerCase()], of a path without [..]; [l] is the name
    backwards. *)
Fixpoint last_dot (suffix l : list ascii) : option (list ascii) :=
  match l with
  | [] => None
  | c :: l' => if is_char 46 c then (match l' with [] => None | _ => Some (c :: suffix) end) else last_dot (c :: suffix) l'
  end.
Definition extension (p : string) : string :=
  match last_dot [] (rev (chars (List.last (segments [] (chars p)) empty_str))) with Some l => lower (of_chars l) | None => empty_str end.
Definition serveFile (method filePath pathname : string) (servingIndex : bool) : SV (option response) :=
  file ← sask (st_stat w) (EvStat filePath);
  match file with
  | None => mret None
  | Some size =>
      mret (Some (RFile filePath size (default "application/octet-stream" (assoc (extension filePath) contentTypes))
        (cacheControlFor pathname servingIndex) (negb (seqb method "HEAD"))))
  end.
Definition serveStatic (method pathname : string) : SV response :=
  match resolveDistPath pathname with
  | None => mret (RText 403 "Forbidden")
  | Some staticPath =>
      served ← try_catch (serveFile method staticPath pathname false)
        (λ error, mret (if equals_text "ENOENT" (e_code error) then None else Some (RText 500 "Internal server error")));
      match served with
      | Some r => mret r
      | None =>
          if re_test is_file_like pathname then mret (RText 404 "Not found") else
          try_catch (index ← serveFile method (distDir +:+ "/index.html") pathname true;
                     mret (default (RText 500 "Internal server error") index))
            (λ _, mret (RText 500 "Internal server error"))
      end
  end.

(** ** The routes *)
Definition is_read (method : string) : bool := seqb method "GET" || seqb method "HEAD".
Definition allowedMethods (pathname : string) : list string :=
  if starts_with "/api/" pathname then ["GET"; "HEAD"; "POST"; "PATCH"; "DELETE"] else ["GET"; "HEAD"].
(** [/^\/api\/incidents\/(\d+)$/], with what follows the number *)
Fixpoint leading_digits (acc l : list ascii) : list ascii * list ascii :=
  match l with
  | [] => (rev acc, [])
  | c :: l' => if is_digit c then leading_digits (c :: acc) l' else (rev acc, l)
  end.
Definition incident_path (suffix pathname : string) : option Z :=
  if negb (starts_with "/api/incidents/" pathname) then None else
  let '(number, rest) := leading_digits [] (chars (drop_s 15 pathname)) in
  match number with
  | [] => None
  | _ => if seqb (of_chars rest) suffix then Some (digits_value 0 number) else None
  end.
Definition health (ms : Z) (ready : bool) (error : option string) : json :=
  JObj [("status", JStr "ok"); ("service", JStr "walrus-memory-status"); ("generatedAt", JStr (toISOString ms));
        ("database", database_json ready error)].
Definition serveHealth : SV response := ms ← now; s ← gets id; mret (sendJson 200 (health ms (databaseReady s) (databaseError s))).
Definition payload_failure (ms : Z) : json :=
  JObj [("generatedAt", JStr (toISOString ms));
        ("service", JObj [("name", JStr "Walrus Memory Status"); ("status", JStr "degraded")]);
        ("error", JStr "Status service failed to build payload")].
Definition serveStatus : SV response :=
  try_catch (snapshot ← statusPayload; mret (sendJson 200 (snapshot_json snapshot)))
    (λ _, ms ← now; mret (sendJson 500 (payload_failure ms))).
Definition serveFeed (q : request) (pathname : string) : SV response :=
  try_catch (snapshot ← statusPayload;
             let baseUrl := publicBaseUrl q in
             mret (if seqb pathname "/history.atom" then RXml (atomFeed snapshot baseUrl) "application/atom+xml"
                   else RXml (rssFeed snapshot baseUrl) "application/rss+xml"))
    (λ _, mret (RText 500 "Status feed failed to build")).

(** [try { ... } catch { sendJson(res, 500, { error: message }) }] *)
Definition or_fail (message : string) (m : SV response) : SV response := try_catch m (λ _, refuse 500 message).
Definition authorized (q : request) (m : SV response) : SV response :=
  if negb (isAdminAuthValid (adminApiKey env) (q_header q "x-admin-api-key")) then refuse 401 "Unauthorized" else m.
Definition answer (status : Z) (missing : Z * string) (found : option (incident * list update_row)) : SV response :=
  match found with None => refuse missing.1 missing.2 | Some x => mret (sendJson status (incident_json x.1 x.2)) end.
Definition invalid (what : string) (allowed : list string) : string := "Invalid " +:+ what +:+ ". Allowed: " +:+ join ", " allowed.

Definition check_new_incident (body : json) : js_error + option string :=
  match read_of "title" body with
  | inl e => inl e
  | inr title =>
      inr (if negb (truthy title) || negb (truthy (jget "status" body)) || negb (truthy (jget "severity" body)) || negb (truthy (jget "message" body))
           then Some "Missing required fields: title, status, severity, message" else
           if negb (isValidStatus (jget "status" body)) then Some (invalid "status" ALLOWED_INCIDENT_STATUSES) else
           if negb (isValidSeverity (jget "severity" body)) then Some (invalid "severity" ALLOWED_SEVERITIES) else
           if truthy (jget "startedAt" body) && negb (isValidDate (jget "startedAt" body)) then Some "Invalid startedAt date" else None)
  end.
Definition check_patch (body : json) : js_error + option string :=
  match read_of "status" body with
  | inl e => inl e
  | inr status =>
      inr (if negb (is_undefined status) && negb (isValidStatus status) then Some (invalid "status" ALLOWED_INCIDENT_STATUSES) else
           if negb (is_undefined (jget "severity" body)) && negb (isValidSeverity (jget "severity" body)) then Some (invalid "severity" ALLOWED_SEVERITIES) else
           if negb (is_undefined (jget "startedAt" body)) && negb (isValidDate (jget "startedAt" body)) then Some "Invalid startedAt date" else
           if negb (is_undefined (jget "resolvedAt" body)) && truthy (jget "resolvedAt" body) && negb (isValidDate (jget "resolvedAt" body))
           then Some "Invalid resolvedAt date" else None)
  end.
Definition check_update (body : json) : js_error + option string :=
  match read_of "status" body with
  | inl e => inl e
  | inr status =>
      inr (if negb (truthy status) || negb (truthy (jget "message" body)) then Some "Missing required fields: status, message" else
           if negb (isValidStatus status) then Some (invalid "status" ALLOWED_INCIDENT_STATUSES) else
           if truthy (jget "createdAt" body) && negb (isValidDate (jget "createdAt" body)) then Some "Invalid createdAt date" else None)
  end.
(** A route that reads the body, checks it and applies it. *)
Definition with_body_of (q : request) (check_body : json → js_error + option string) (apply_body : json → SV response) : SV response :=
  body ← sv_sum (readJsonBody q);
  problem ← sv_sum (check_body body);
  match problem with Some message => refuse 400 message | None => apply_body body end.

Definition postIncident (q : request) : SV response :=
  authorized q (or_fail "Failed to create incident"
    (with_body_of q check_new_incident (λ body, found ← createIncident body; answer 201 (500, "Failed to create incident") found))).
Definition patchIncident (q : request) (id : Z) : SV response :=
  authorized q (or_fail "Failed to update incident"
    (with_body_of q check_patch (λ body, found ← updateIncident id body; answer 200 (404, "Incident not found") found))).
Definition removeIncident (q : request) (id : Z) : SV response :=
  authorized q (or_fail "Failed to delete incident"
    (deleted ← deleteIncident id; if negb deleted then refuse 404 "Incident not found" else mret (sendJson 204 JNull))).
Definition postUpdate (q : request) (id : Z) : SV response :=
  authorized q (or_fail "Failed to add incident update"
    (with_body_of q check_update (λ body, found ← addIncidentUpdate id body; answer 201 (404, "Incident not found") found))).
Definition getIncidents : SV response :=
  or_fail "Failed to list incidents" (l ← listIncidents; mret (sendJson 200 (JObj [("incidents", pairs_json l)]))).
Definition getIncident (id : Z) : SV response :=
  or_fail "Failed to get incident" (found ← getIncidentWithUpdates id; answer 200 (404, "Incident not found") found).

Definition has_nul (s : string) : bool := negb (sforallb (λ c, negb (is_char 0 c)) s).
Definition serve (q : request) : SV response :=
  let method := if is_empty (q_method q) then "GET" else q_method q in
  match request_path q with
  | None => mret (RText 400 "Bad request")
  | Some pathname =>
      if has_nul pathname then mret (RText 400 "Bad request") else
      if negb (existsb (seqb method) (allowedMethods pathname)) then mret (RNotAllowed (allowedMethods pathname)) else
      if seqb pathname "/health" then serveHealth else
      if seqb pathname "/api/status" then (if negb (is_read method) then refuse 405 "Method not allowed" else serveStatus) else
      if seqb pathname "/api/incidents" then
        (if is_read method then getIncidents else
         if seqb method "POST" then postIncident q else refuse 405 "Method not allowed") else
      match incident_path empty_str pathname with
      | Some id =>
          if is_read method then getIncident id else
          if seqb method "PATCH" then patchIncident q id else
          if seqb method "DELETE" then removeIncident q id else refuse 405 "Method not allowed"
      | None =>
          match incident_path "/updates" pathname with
          | Some id => if seqb method "POST" then postUpdate q id else refuse 405 "Method not allowed"
          | None =>
              if seqb pathname "/history.atom" || seqb pathname "/history.rss"
              then (if negb (is_read method) then refuse 405 "Method not allowed" else serveFeed q pathname)
              else serveStatic method pathname
          end
      end
  end.
(** [runPollCycle], and the first cycle of [startPolling] *)
Definition runPollCycle : SV (list relayer) := probeAndStore.
Definition startPolling : SV unit := if negb (isDatabaseConfigured env) then mret tt else _ ← runPollCycle; mret tt.

End Server.

(** ** What leaves the incidents alone *)
Definition writes_incidents (s : statement) : bool :=
  match s with
  | SBegin | SCommit | SRollback | SInsertIncident _ _ _ _ _ _ | SSetIdentifier _ _ | SInsertUpdate _ _ _ _
  | SUpdateIncident _ _ _ _ _ _ _ _ | SSetStatus _ _ _ | SDeleteIncident _ => true
  | _ => false
  end.
Definition harmless (ev : st_event) : Prop := match ev with EvSql s => writes_incidents s = false | _ => True end.
Definition kept (I : list st_event → Prop) : Prop := ∀ tr ev, harmless ev → I tr → I (tr ++ [ev]).
Notation quiet m := (∀ I, kept I → invariant (λ s, I (s_trace s)) m).
Create HintDb quiet discriminated.
Ltac quiet :=
  let I := fresh "I" in let HI := fresh "HI" in
  intros I HI;
  repeat first [apply invariant_ret | apply invariant_throw | apply invariant_gets | solve [eauto with quiet]
               | apply invariant_bind; [|intros ?] | apply invariant_catch; [|intros ?] | case_match].

Section Quiet.
Context (w : st_world) (env : string → option string) (url_parse : string → js_error + url).
Context (date_parse : string → option Z) (distDir : string).

Lemma still_ask {V} (outside : list st_event → js_error + V) ev : harmless ev → quiet (sask outside ev).
Proof. intros Hev I HI s Hs. unfold sask. simpl. by destruct (outside _); apply HI. Qed.
Lemma still_done s : writes_incidents s = false → quiet (sql_done w s).
Proof. intros Hs. by apply still_ask. Qed.
Lemma still_set ready error : quiet (set_db ready error).
Proof. by intros I HI s Hs. Qed.
Lemma still_now : quiet (now w).
Proof. by intros I HI s Hs. Qed.
Lemma still_latency startedAt : quiet (latency_since w startedAt).
Proof. by intros I HI s Hs. Qed.
Lemma still_sum {A} (r : js_error + A) : quiet (sv_sum r).
Proof. destruct r; quiet. Qed.
Hint Resolve still_ask still_done still_set still_now still_latency still_sum : quiet.
Hint Extern 1 (harmless _) => exact Logic.I || reflexivity : quiet.
Hint Extern 1 (writes_incidents _ = false) => reflexivity : quiet.

Lemma still_tables n k : quiet (create_tables w k n).
Proof. revert k. induction n as [|n IH]; intros k; simpl; quiet. Qed.
Hint Resolve still_tables : quiet.
Lemma still_init : quiet (initializeDatabase w env).
Proof. unfold initializeDatabase. quiet. Qed.
Hint Resolve still_init : quiet.
Lemma still_ready : quiet (ensureDatabaseReady w env).
Proof. unfold ensureDatabaseReady. quiet. Qed.
Hint Resolve still_ready : quiet.
Lemma still_probe name base target : quiet (probeRelayer w env url_parse name base target).
Proof. unfold probeRelayer. quiet. Qed.
Lemma still_insert r : quiet (insertCheck w env r).
Proof. unfold insertCheck. quiet. Qed.
Hint Resolve still_probe still_insert : quiet.
Lemma still_probes l : quiet (probe_all w env url_parse l).
Proof. induction l as [|c l IH]; simpl; quiet. Qed.
Lemma still_inserts l : quiet (insert_all w env l).
Proof. induction l as [|c l IH]; simpl; quiet. Qed.
Hint Resolve still_probes still_inserts : quiet.
Lemma still_poll : quiet (probeAndStore w env url_parse).
Proof. unfold probeAndStore. quiet. Qed.
Lemma still_latest target : quiet (readLatestCheck w env url_parse target).
Proof. unfold readLatestCheck. quiet. Qed.
Hint Resolve still_poll still_latest : quiet.
Lemma still_checks l : quiet (latest_checks w env url_parse l).
Proof. induction l as [|c l IH]; simpl; quiet. Qed.
Lemma still_read_latest l : quiet (read_latest w env url_parse l).
Proof. induction l as [|c l IH]; simpl; quiet. Qed.
Lemma still_history target : quiet (readHistory w env target).
Proof. unfold readHistory. quiet. Qed.
Hint Resolve still_checks still_read_latest still_history : quiet.
Lemma still_histories l : quiet (read_histories w env l).
Proof. induction l as [|[r|] l IH]; simpl; quiet. Qed.
Lemma still_recent : quiet (readActiveAndRecentIncidents w env).
Proof. unfold readActiveAndRecentIncidents. quiet. Qed.
Lemma still_get id : quiet (getIncidentWithUpdates w env id).
Proof. unfold getIncidentWithUpdates. quiet. Qed.
Lemma still_list : quiet (listIncidents w env).
Proof. unfold listIncidents. quiet. Qed.
Hint Resolve still_histories still_recent still_get still_list : quiet.
Lemma still_snapshot : quiet (statusPayload w env url_parse).
Proof. unfold statusPayload, getRelayerSnapshot. quiet. Qed.
Lemma still_serve_file method path pathname index : quiet (serveFile w method path pathname index).
Proof. unfold serveFile. quiet. Qed.
Hint Resolve still_snapshot still_serve_file : quiet.
Lemma still_static method pathname : quiet (serveStatic w distDir method pathname).
Proof. unfold serveStatic. quiet. Qed.
Lemma still_health : quiet (serveHealth w env).
Proof. unfold serveHealth. quiet. Qed.
Lemma still_status : quiet (serveStatus w env url_parse).
Proof. unfold serveStatus. quiet. Qed.
Lemma still_feed q pathname : quiet (serveFeed w env url_parse date_parse q pathname).
Proof. unfold serveFeed. quiet. Qed.
Lemma still_get_one id : quiet (getIncident w env id).
Proof. unfold getIncident, or_fail, answer, refuse. quiet. Qed.
Lemma still_get_all : quiet (getIncidents w env).
Proof. unfold getIncidents, or_fail, refuse. quiet. Qed.
End Quiet.

(** ** Every write of an incident is justified *)
Section Writes.
Context (w : st_world) (env : string → option string) (url_parse : string → js_error + url).
Context (date_parse : string → option Z) (distDir : string) (q : request) (t0 : list st_event).
Notation authorised := (isAdminAuthValid (adminApiKey env) (q_header q "x-admin-api-key") = true).

(** The database has just given the id for a new incident of this request. *)
Definition inserted (id : Z) (tr : list st_event) : Prop :=
  ∃ title status severity component message startedAt,
    answered (db_inserted w) t0 (EvSql (SInsertIncident title status severity component message startedAt)) (Some id) tr.
(** What a row must be, given the body of the request.  The updates that the
    body of a new incident lists are stored as they are; title, component
    and message of a patch too. *)
Definition row_ok (tr : list st_event) (s : statement) : Prop :=
  match s with
  | SInsertIncident title status severity component message startedAt =>
      ∃ body, readJsonBody q = inr body ∧
        title = jget "title" body ∧ status = jget "status" body ∧ severity = jget "severity" body ∧
        component = or_null (jget "component" body) ∧ message = jget "message" body ∧
        truthy title = true ∧ truthy message = true ∧ isValidStatus status = true ∧ isValidSeverity severity = true ∧ startedAt ≠ None
  | SSetIdentifier id identifier => inserted id tr ∧ identifier = "WM-INC-" +:+ pretty id
  | SInsertUpdate id status message createdAt =>
      (isValidStatus status = true ∧ truthy message = true ∧ createdAt ≠ Some None) ∨
      (inserted id tr ∧ ∃ body l u, readJsonBody q = inr body ∧ listed_updates (jget "updates" body) = Some (inr l) ∧ u ∈ l ∧
         status = jget "status" u ∧ message = jget "message" u)
  | SUpdateIncident id title status severity component message startedAt resolvedAt =>
      ∃ body existing rows, readJsonBody q = inr body ∧ answered (db_incidents w) t0 (EvSql (SIncident id)) (existing :: rows) tr ∧
        title = given "title" body (i_title existing) ∧ component = given "component" body (i_component existing) ∧
        message = given "message" body (i_message existing) ∧
        (isValidStatus status = true ∨ status = i_status existing) ∧
        (isValidSeverity severity = true ∨ severity = i_severity existing) ∧ startedAt ≠ None ∧ resolvedAt ≠ Some None
  | SSetStatus id status resolved =>
      isValidStatus status = true ∧ ∃ rows, answered (db_statuses w) t0 (EvSql (SIncidentStatus id)) rows tr ∧
        resolved = equals_text "resolved" status && negb (equals_text "resolved" (default JUndefined (head rows)))
  | _ => True
  end.
Definition justified (tr : list st_event) (ev : st_event) : Prop :=
  match ev with EvSql s => writes_incidents s = true → authorised ∧ row_ok tr s | _ => True end.
Notation law := (lawful s_trace (λ e : js_error, e) t0 justified).

Lemma inc_quiet {A} F `{!Mono F} (m : SV A) : quiet m → law F m (λ _ tr, F tr).
Proof.
  intros Hm s Hs. pose (I tr := (∃ new, tr = t0 ++ new ∧ all_ok justified t0 new) ∧ F tr).
  assert (HI : kept I).
  { intros tr ev Hev [(new & -> & Hn) Hf]. split; [|by apply mono]. exists (new ++ [ev]). rewrite app_assoc. split; [done|].
    apply all_ok_snoc; [done|]. destruct ev as [st| |]; [|done..]. simpl in *. congruence. }
  specialize (Hm I HI s). destruct (m s) as [s' [e|a]]; destruct (Hm Hs) as [Hl Hf]; (split; [done|]); [by exists e|done].
Qed.
Lemma inc_throw {A} F e (R : A → list st_event → Prop) : law F (throw e) R.
Proof. apply (lawful_throw s_trace (λ e : js_error, e)). Qed.
Lemma inc_sum {A B} F (r : js_error + A) (k : A → SV B) R : (∀ a, r = inr a → law F (k a) R) → law F (sv_sum r ≫= k) R.
Proof. intros Hk. destruct r; simpl; [apply inc_throw|by apply Hk]. Qed.
Lemma inc_bind {A B} F `{!Mono F} (m : SV A) (k : A → SV B) R : quiet m → (∀ a, law F (k a) R) → law F (m ≫= k) R.
Proof. intros Hm Hk. eapply lawful_bind; [by apply inc_quiet|exact Hk]. Qed.
Lemma inc_then {A B} F (m : SV A) (k : A → SV B) R : law F m (λ _ tr, F tr) → (∀ a, law F (k a) R) → law F (m ≫= k) R.
Proof. intros Hm Hk. eapply lawful_bind; [exact Hm|exact Hk]. Qed.
Lemma inc_ask {V} F `{!Mono F} (outside : list st_event → js_error + V) ev : (∀ tr, F tr → justified tr ev) →
  law F (sask outside ev) (λ v tr, F tr ∧ answered outside t0 ev v tr).
Proof. intros Hok. apply (lawful_call s_trace outside (λ e, e) t0 justified (sask outside ev) ev F Hok). Qed.
Lemma inc_write F `{!Mono F} s : authorised → (∀ tr, F tr → row_ok tr s) → law F (sql_done w s) (λ _ tr, F tr).
Proof.
  intros Ha Hr. apply (lawful_weaken _ _ _ _ F F _ (λ _ tr, F tr) (λ v tr, F tr ∧ answered (db_done w) t0 (EvSql s) v tr)); [|done|by intros ? ? [? _]].
  apply (inc_ask F). intros tr Hf _. split; [exact Ha|by apply Hr].
Qed.

(** [new Date(v || Date.now())] *)
Lemma inc_date F v {B} (k : date_param → SV B) R :
  (∀ d, ((truthy v = true → isValidDate date_parse v = true) → d ≠ None) → law F (k d) R) → law F (date_or_now w date_parse v ≫= k) R.
Proof.
  intros Hk s Hs. refine (Hk (if truthy v then new_date date_parse v else Some (st_now w (s_trace s))) _ s Hs).
  unfold isValidDate. destruct (truthy v); [|done]. simpl. intros Hv. by specialize (Hv eq_refl); bool_to_prop.
Qed.
Lemma read_value k v x : read_of k v = inr x → x = jget k v.
Proof. by destruct v; intros; simplify_eq/=. Qed.
#[local] Instance inserted_mono id : Mono (inserted id).
Proof. intros tr ev (title & st & sev & comp & message & d & Ha). exists title, st, sev, comp, message, d. by apply mono. Qed.
Lemma inc_updates id body l k : authorised → readJsonBody q = inr body → listed_updates (jget "updates" body) = Some (inr l) →
  (∀ u, u ∈ k → u ∈ l) → law (inserted id) (insert_updates w date_parse id k) (λ _ _, True).
Proof.
  intros Ha Hb Hl. induction k as [|u k IH]; intros Hk; simpl; [by apply lawful_ret|].
  apply inc_sum. intros status ->%read_value. apply inc_date. intros d _. apply inc_then; [|intros _; apply IH; intros v Hv; apply Hk; by right].
  apply inc_write; [apply _|done|]. intros tr Hi. right. split; [done|]. exists body, l, u. split; [done|]. split; [done|]. split; [apply Hk; by left|done].
Qed.
Lemma inc_transaction {A} (body : SV A) : authorised → law (λ _, True) body (λ _ _, True) → law (λ _, True) (transaction w body) (λ _ _, True).
Proof.
  intros Ha Hb. unfold transaction. apply inc_then; [by apply inc_write|intros _].
  eapply (lawful_bind _ _ _ _ _ _ _ (λ _ _, True)); [eapply lawful_try|].
  - eapply lawful_bind; [exact Hb|]. intros a. by apply lawful_ret.
  - intros e. by apply lawful_ret.
  - intros [e|a]; [|by apply inc_then; [by apply inc_write|intros _; apply lawful_ret]].
    eapply (lawful_bind _ _ _ _ _ _ _ (λ _ _, True)); [|intros _; apply inc_throw].
    eapply lawful_try; [by apply inc_write|]. intros e'. by apply lawful_ret.
Qed.
Lemma inc_get F `{!Mono F} id :
 law F (getIncidentWithUpdates w env id) (λ found tr, F tr ∧ ∀ i us, found = Some (i, us) →
    ∃ rows, answered (db_incidents w) t0 (EvSql (SIncident id)) (i :: rows) tr).
Proof.
  unfold getIncidentWithUpdates. apply inc_bind; [apply _|exact (still_ready w env)|]. intros [|]; simpl; [|by apply lawful_ret].
  eapply lawful_bind; [by apply (inc_ask F)|]. intros [|i rows]; simpl; [apply lawful_ret; by intros tr [? ?]|].
  eapply lawful_bind; [apply inc_quiet; [apply _|by apply (still_ask (db_updates w))]|]. intros us. apply lawful_ret.
  intros tr [Hf Ha]. split; [done|]. intros i' us' [= <- <-]. by exists rows.
Qed.
(** Of the rest of a request nothing is to be shown. *)
Lemma inc_forget {A} F G (m : SV A) : law F m (λ _ tr, G tr) → law F m (λ _ _, True).
Proof. intros Hm. by eapply lawful_weaken. Qed.
Lemma inc_reread id : law (λ _, True) (getIncidentWithUpdates w env id) (λ _ _, True).
Proof. apply inc_quiet; [apply _|exact (still_get w env id)]. Qed.

Lemma check_new_ok body : check_new_incident date_parse body = inr None →
  truthy (jget "title" body) = true ∧ truthy (jget "message" body) = true ∧ isValidStatus (jget "status" body) = true ∧
  isValidSeverity (jget "severity" body) = true ∧
  (truthy (jget "startedAt" body) = true → isValidDate date_parse (jget "startedAt" body) = true).
Proof.
  unfold check_new_incident. destruct (read_of "title" body) as [e|title] eqn:Et; [done|]. apply read_value in Et as ->.
  intros [= Hc]. do 4 (case_match; [done|]). split_andb. split; [assumption|]. split; [assumption|]. split; [assumption|]. split; [assumption|].
  intros Ht. destruct (isValidDate _ _); [done|]. by rewrite Ht in *.
Qed.
Lemma inc_create body : authorised → readJsonBody q = inr body → check_new_incident date_parse body = inr None →
  law (λ _, True) (createIncident w env date_parse body) (λ _ _, True).
Proof.
  intros Ha Hb Hc. unfold createIncident. apply inc_bind; [apply _|exact (still_ready w env)|]. intros [|]; simpl; [|by apply lawful_ret].
  apply inc_then; [|by intros [id|]; [apply inc_reread|apply lawful_ret]]. apply inc_transaction; [done|].
  destruct (check_new_ok body Hc) as (H1 & H2 & H3 & H4 & H5). unfold insert_incident. apply inc_date. intros d Hd.
  eapply lawful_bind.
  - apply (inc_ask (λ _, True)). intros tr _ _. split; [done|]. exists body. repeat (split; [done|]). by apply Hd.
  - intros [id|]; [|by apply lawful_ret]. destruct (id =? 0); [by apply lawful_ret|].
    apply (lawful_weaken _ _ _ _ _ (inserted id) _ (λ _ _, True) (λ _ _, True)); [|intros tr [_ Hi]; by do 6 eexists|done].
    eapply lawful_bind; [apply inc_write; [apply _|done|by intros tr Hi]|intros u].
    eapply (lawful_bind _ _ _ _ _ _ _ (λ _ _, True)); [|intros u0; by apply lawful_ret].
    destruct (listed_updates _) as [ups|] eqn:El.
    + apply inc_sum. intros l Hl. rewrite Hl in El. by apply (inc_updates id body l l).
    + eapply inc_forget, inc_write; [apply _|done|]. intros tr _. by left.
Qed.

Lemma inc_resolution F payload status was existing {B} (k : option date_param → SV B) R :
  (truthy (jget "resolvedAt" payload) = true → isValidDate date_parse (jget "resolvedAt" payload) = true) →
  (∀ d, d ≠ Some None → law F (k d) R) → law F (resolution w date_parse payload status was existing ≫= k) R.
Proof.
  intros Hv Hk. unfold resolution. destruct (negb _); [|destruct (_ && _)].
  - refine (Hk _ _). unfold isValidDate in Hv. destruct (truthy _); [|done]. simpl in Hv. specialize (Hv eq_refl). bool_to_prop. congruence.
  - intros s Hs. by refine (Hk (Some (Some (st_now w (s_trace s)))) _ s Hs).
  - refine (Hk _ _). by destruct existing.
Qed.
Lemma check_patch_ok body : check_patch date_parse body = inr None →
  (is_undefined (jget "status" body) = true ∨ isValidStatus (jget "status" body) = true) ∧
  (is_undefined (jget "severity" body) = true ∨ isValidSeverity (jget "severity" body) = true) ∧
  (is_undefined (jget "startedAt" body) = true ∨ isValidDate date_parse (jget "startedAt" body) = true) ∧
  (truthy (jget "resolvedAt" body) = true → isValidDate date_parse (jget "resolvedAt" body) = true).
Proof.
  unfold check_patch. destruct (read_of "status" body) as [e|status] eqn:Es; [done|].
  assert (jget "status" body = status) as -> by (by destruct body; simplify_eq/=).
  assert (Hor : ∀ a b : bool, negb a && negb b = false → a = true ∨ b = true) by (intros [|] [|]; auto).
  intros [= Hc]. do 4 (case_match; [done|]).
  split; [by apply Hor|]. split; [by apply Hor|]. split; [by apply Hor|]. intros Ht.
  destruct (isValidDate _ (jget "resolvedAt" _)); [done|]. by destruct (jget "resolvedAt" body); simpl in *; rewrite ?Ht in *.
Qed.
Lemma given_ok (P : json → bool) k body old :
  is_undefined (jget k body) = true ∨ P (jget k body) = true → P (given k body old) = true ∨ given k body old = old.
Proof. unfold given. intros [->|Hp]; [by right|]. case_match; [by right|by left]. Qed.
Lemma inc_update id body : authorised → readJsonBody q = inr body → check_patch date_parse body = inr None →
  law (λ _, True) (updateIncident w env date_parse id body) (λ _ _, True).
Proof.
  intros Ha Hb Hc. unfold updateIncident. apply inc_bind; [apply _|exact (still_ready w env)|]. intros [|]; simpl; [|by apply lawful_ret].
  eapply lawful_bind; [apply (inc_get (λ _, True))|]. intros [[i us]|]; [|by apply lawful_ret].
  destruct (check_patch_ok _ Hc) as (Hs & Hv & Hd & Hr). apply inc_resolution; [done|]. intros resolvedAt Hres.
  eapply (lawful_bind _ _ _ _ _ _ _ (λ _ _, True)).
  { eapply lawful_weaken; [eapply inc_forget, (inc_write (λ tr, ∃ rows, answered (db_incidents w) t0 (EvSql (SIncident id)) (i :: rows) tr))
                            |intros tr [_ Hi]; exact (Hi _ _ eq_refl)|done]; [done|]. intros tr [rows Hrows].
    exists body, i, rows. split; [done|]. split; [done|]. split; [done|]. split; [done|]. split; [done|]. split; [by apply given_ok|]. split; [by apply given_ok|]. split; [|done].
    destruct Hd as [->|Hd]; [done|]. unfold isValidDate in Hd. bool_to_prop. by case_match. }
  intros u. apply inc_then; [|intros ?; apply inc_reread]. destruct (_ && _); [|by apply lawful_ret].
  apply inc_write; [apply _|done|]. intros tr _. left. split; [done|]. split; [|done]. destruct (truthy (jget "message" body)) eqn:Em; simpl; [by case_match|done].
Qed.
Lemma check_update_ok body : check_update date_parse body = inr None →
  truthy (jget "status" body) = true ∧ truthy (jget "message" body) = true ∧ isValidStatus (jget "status" body) = true ∧
  (truthy (jget "createdAt" body) = true → isValidDate date_parse (jget "createdAt" body) = true).
Proof.
  unfold check_update. destruct (read_of "status" body) as [e|status] eqn:Et; [done|]. apply read_value in Et as ->.
  intros [= Hc]. do 3 (case_match; [done|]). split_andb. split; [assumption|]. split; [assumption|]. split; [assumption|].
  intros Ht. destruct (isValidDate _ _); [done|]. by rewrite Ht in *.
Qed.
Lemma inc_add id body : authorised → check_update date_parse body = inr None →
  law (λ _, True) (addIncidentUpdate w env date_parse id body) (λ _ _, True).
Proof.
  intros Ha Hc. destruct (check_update_ok body Hc) as (H1 & H2 & H3 & H4).
  unfold addIncidentUpdate. apply inc_bind; [apply _|exact (still_ready w env)|]. intros [|]; simpl; [|by apply lawful_ret].
  eapply lawful_bind; [by apply (inc_ask (λ _, True))|]. intros rows. apply inc_date. intros d Hd.
  apply inc_then; [apply inc_write; [apply _|done|]|intros _].
  { intros tr _. left. split; [done|]. split; [done|]. specialize (Hd H4). congruence. }
  rewrite H1. eapply (lawful_bind _ _ _ _ _ _ _ (λ _ _, True)); [|intros ?; apply inc_reread]. eapply inc_forget, inc_write; [apply _|done|].
  intros tr [_ Hrows]. split; [done|]. exists rows. split; [done|]. by destruct rows.
Qed.
Lemma inc_delete id : authorised → law (λ _, True) (deleteIncident w env id) (λ _ _, True).
Proof.
  intros Ha. unfold deleteIncident. apply inc_bind; [apply _|exact (still_ready w env)|]. intros [|]; simpl; [|by apply lawful_ret].
  eapply lawful_bind; [by apply (inc_ask (λ _, True))|]. intros n. by apply lawful_ret.
Qed.

Lemma inc_refuse status message : law (λ _, True) (refuse status message) (λ _ _, True).
Proof. by apply lawful_ret. Qed.
Lemma inc_authorized m : (authorised → law (λ _, True) m (λ _ _, True)) → law (λ _, True) (authorized env q m) (λ _ _, True).
Proof. intros Hm. unfold authorized. destruct (isAdminAuthValid _ _); simpl; [by apply Hm|apply inc_refuse]. Qed.
Lemma inc_or_fail message m : law (λ _, True) m (λ _ _, True) → law (λ _, True) (or_fail message m) (λ _ _, True).
Proof. intros Hm. apply lawful_try; [done|]. intros e. apply inc_refuse. Qed.
Lemma inc_answer status missing found : law (λ _, True) (answer status missing found) (λ _ _, True).
Proof. destruct found; by apply lawful_ret. Qed.
Lemma inc_body check m : (∀ body, readJsonBody q = inr body → check body = inr None → law (λ _, True) (m body) (λ _ _, True)) →
  law (λ _, True) (with_body_of q check m) (λ _ _, True).
Proof.
  intros Hm. apply inc_sum. intros body Hb. apply inc_sum. intros [problem|] Hc; [apply inc_refuse|by apply Hm].
Qed.
(** A route of the administrator, and one of everybody. *)
Lemma inc_route message check (m : json → SV (option (incident * list update_row))) status missing :
  (∀ body, authorised → readJsonBody q = inr body → check body = inr None → law (λ _, True) (m body) (λ _ _, True)) →
  law (λ _, True) (authorized env q (or_fail message (with_body_of q check (λ body, found ← m body; answer status missing found)))) (λ _ _, True).
Proof.
  intros Hm. apply inc_authorized. intros Ha. apply inc_or_fail, inc_body. intros body Hb Hc.
  apply inc_then; [by apply Hm|intros found; apply inc_answer].
Qed.
Lemma inc_remove id : law (λ _, True) (removeIncident w env q id) (λ _ _, True).
Proof.
  apply inc_authorized. intros Ha. apply inc_or_fail. apply inc_then; [by apply inc_delete|].
  intros [|]; [by apply lawful_ret|apply inc_refuse].
Qed.
Lemma inc_reads m : quiet m → law (λ _, True) m (λ (_ : response) _, True).
Proof. intros Hm. by apply inc_quiet; [apply _|]. Qed.
Lemma inc_serve : law (λ _, True) (serve w env url_parse date_parse distDir q) (λ _ _, True).
Proof.
  unfold serve. generalize (if is_empty (q_method q) then "GET" else q_method q). intros method.
  destruct (request_path url_parse q) as [pathname|]; [|by apply lawful_ret].
  case_match; [by apply lawful_ret|]. case_match; [by apply lawful_ret|].
  case_match; [apply inc_reads, still_health|].
  case_match; [case_match; [apply inc_refuse|apply inc_reads, still_status]|].
  case_match.
  { case_match; [apply inc_reads, still_get_all|]. case_match; [|apply inc_refuse]. apply inc_route. intros. by apply inc_create. }
  case_match.
  { case_match; [apply inc_reads, still_get_one|]. case_match; [apply inc_route; intros; by apply inc_update|].
    case_match; [apply inc_remove|apply inc_refuse]. }
  case_match.
  { case_match; [|apply inc_refuse]. apply inc_route. intros. by apply inc_add. }
  case_match; [case_match; [apply inc_refuse|apply inc_reads, still_feed]|]. apply inc_reads, still_static.
Qed.

(** C27: the incidents belong to the administrator.  Every statement by which
    a request changes an incident is made with the configured key in its
    header.  A new incident is what the body says, with a title, a message, a
    known status and severity and a real start date; a patch keeps what the
    database answered for that incident or gives a known status, a known
    severity and valid dates, and takes title, component and message from
    the body unchecked; an update has a known status, a message and a valid
    date, but for those that the body of a new incident lists, which go to
    the database unchecked, under the id it has just given; a status is
    set to a known one, and resolves the incident only if it was not. *)
Theorem incident_writes_justified s pre st post :
  s_trace s = t0 →
  s_trace (fst (serve w env url_parse date_parse distDir q s)) = t0 ++ pre ++ EvSql st :: post →
  writes_incidents st = true → authorised ∧ row_ok (t0 ++ pre) st.
Proof.
  intros Ht Htr. refine (lawful_each s_trace (λ e : js_error, e) t0 justified (λ _, True) _ (λ _ _, True) s pre (EvSql st) post inc_serve Ht _ Htr).
  done.
Qed.
End Writes.

(** ** Every request is answered *)
Definition answers {A} (m : SV A) : Prop := ∀ s, ∃ s' a, m s = (s', inr a).
Lemma answers_ret {A} (a : A) : answers (mret a).
Proof. intros s. by eexists _, _. Qed.
Lemma answers_gets {A} (f : srv → A) : answers (gets f).
Proof. intros s. by eexists _, _. Qed.
Lemma answers_bind {A B} (m : SV A) (k : A → SV B) : answers m → (∀ a, answers (k a)) → answers (m ≫= k).
Proof. intros Hm Hk s. destruct (Hm s) as (s' & a & Hs). unfold mbind, st_bind. rewrite Hs. apply Hk. Qed.
Lemma answers_try {E A} (m : ST srv E A) (h : E → SV A) : (∀ e, answers (h e)) → answers (try_catch m h).
Proof. intros Hh s. unfold try_catch. destruct (m s) as [s' [e|r]]; [apply Hh|by eexists _, _]. Qed.
Section Answers.
Context (w : st_world) (env : string → option string) (url_parse : string → js_error + url).
Context (date_parse : string → option Z) (distDir : string).
Lemma answers_or_fail message m : answers (or_fail message m).
Proof. apply answers_try. intros e. apply answers_ret. Qed.
Lemma answers_authorized q m : answers m → answers (authorized env q m).
Proof. intros Hm. unfold authorized. case_match; [apply answers_ret|done]. Qed.
Lemma answers_static method pathname : answers (serveStatic w distDir method pathname).
Proof.
  unfold serveStatic. destruct (resolveDistPath _ _) as [p|]; [|apply answers_ret].
  apply answers_bind; [apply answers_try; intros e; apply answers_ret|intros [r|]; [apply answers_ret|]].
  destruct (re_test _ _); [apply answers_ret|]. apply answers_try. intros e. apply answers_ret.
Qed.
Lemma answers_now : answers (now w).
Proof. intros s. by eexists _, _. Qed.
(** The server answers every request, whatever its outside does. *)
Theorem serve_answers q : answers (serve w env url_parse date_parse distDir q).
Proof.
  unfold serve. generalize (if is_empty (q_method q) then "GET" else q_method q). intros method.
  repeat first [apply answers_ret | apply answers_or_fail | apply answers_authorized | apply answers_static
               | apply answers_now | apply answers_gets | apply answers_try; intros ? | apply answers_bind; intros | case_match].
Qed.
(** Without the key, the administrator's routes answer 401 and do nothing. *)
Lemma refused_untouched q m s :
  isAdminAuthValid (adminApiKey env) (q_header q "x-admin-api-key") = false →
  authorized env q m s = (s, inr (RJson 401 (error_json "Unauthorized"))).
Proof. intros Ha. unfold authorized. by rewrite Ha. Qed.
(** A server without a key has no administrator. *)
Lemma no_key_no_admin header : adminApiKey env = empty_str → isAdminAuthValid (adminApiKey env) header = false.
Proof. by intros ->. Qed.
End Answers.

(** ** Probes *)
Section Probe.
Context (w : st_world) (env : string → option string) (url_parse : string → js_error + url).
Lemma latency_positive startedAt s : ∃ n, latency_since w startedAt s = (s, inr n) ∧ 1 <= n.
Proof. eexists. split; [done|]. lia. Qed.
Lemma probe_result_status name target u checkedAt latency status statusText text :
  let r := probe_result name target u checkedAt latency (status, statusText, text) in
  (r_status r = "operational" ↔ response_ok status = true ∧ ∃ health, json_parse text = Some health ∧ is_record health = true ∧ equals_text "ok" (jget "status" health) = true) ∧
  (r_status r = "outage" ↔ response_ok status = false).
Proof.
  intros r. subst r. unfold probe_result, parsed_record, r_status. assert (Hn : json_parse empty_str = None) by reflexivity.
  destruct (response_ok status); [|split; split; [done|by intros [? _]|done|done]].
  assert (Hd : ("degraded" : string) = "operational" ↔ False) by done.
  destruct (is_empty text) eqn:Et; cbn [is_record andb].
  { apply bool_decide_eq_true in Et as ->. rewrite Hn. split; split; try done. by intros (_ & h & ? & _). }
  destruct (json_parse text) as [v|]; cbn [is_record andb]; [|split; split; try done; by intros (_ & h & ? & _)].
  destruct (is_record v) eqn:Hr; cbn [andb is_record]; [rewrite Hr; cbn [andb]|].
  - destruct (equals_text "ok" (jget "status" v)) eqn:He; split; split; try done; [by eexists; eauto|].
    intros (_ & h & [= <-] & _ & Hh). congruence.
  - split; split; try done. intros (_ & h & [= <-] & Hh & _). congruence.
Qed.
(** A probe is one fetch and always gives a check: up only if the relayer says
    so itself, an outage if it does not answer with success. *)
Theorem probe_classifies name base target u s :
  resolveHealthUrl env url_parse base = inr u →
  ∃ s' r, probeRelayer w env url_parse name base target s = (s', inr r) ∧ s_trace s' = s_trace s ++ [EvFetch u] ∧
    r_id r = target ∧ r_name r = name ∧ r_url r = u ∧ r_checkedAt r = st_now w (s_trace s) ∧
    match st_fetch w (s_trace s ++ [EvFetch u]) with
    | inl e => r_status r = "outage" ∧ r_error r ≠ JNull
    | inr (status, statusText, text) =>
        (r_status r = "operational" ↔ response_ok status = true ∧ ∃ health, json_parse text = Some health ∧ is_record health = true ∧ equals_text "ok" (jget "status" health) = true) ∧
        (r_status r = "outage" ↔ response_ok status = false)
    end.
Proof.
  intros Hu. unfold probeRelayer, now, mbind, st_bind. rewrite Hu. simpl. unfold sask, try_catch. simpl.
  destruct (st_fetch w (s_trace s ++ [EvFetch u])) as [e|[[status statusText] text]]; simpl; eexists _, _; (split; [reflexivity|]).
  - by repeat split.
  - repeat (split; [done|]). apply probe_result_status.
Qed.
End Probe.

(** ** The database is down *)
Section Down.
Context (w : st_world) (env : string → option string) (url_parse : string → js_error + url).
Context (Hconfigured : isDatabaseConfigured env = true) (Hdown : ∀ tr, ∃ e, db_done w tr = inl e).
Notation down := (λ s, databaseReady s = false).
Notation when_down m Q := (triple down m (λ a s, Q a ∧ down s) (λ _ s, down s)).
Lemma down_ready : when_down (ensureDatabaseReady w env) (λ ready, ready = false).
Proof.
  intros s Hs. unfold ensureDatabaseReady, initializeDatabase. rewrite Hconfigured. simpl.
  unfold gets, mbind, st_bind. rewrite Hs. unfold try_catch, sql_done, sask. simpl.
  destruct (Hdown (s_trace s ++ [EvSql (SCreateTables 0)])) as [e ->]. done.
Qed.
Lemma down_probe name base target : when_down (probeRelayer w env url_parse name base target) (λ _, True).
Proof.
  intros s Hs. unfold probeRelayer, now, mbind, st_bind, sv_sum, throw. destruct (resolveHealthUrl _ _ _); [done|].
  unfold mret, st_ret, gets, try_catch, sask. by destruct (st_fetch _ _) as [e|a].
Qed.
Lemma down_probes l : when_down (probe_all w env url_parse l) (λ _, True).
Proof.
  induction l as [|c l IH]; [by intros s|]. simpl. eapply triple_bind; [apply down_probe|]. intros r.
  eapply triple_bind; [intros s [_ Hs]; exact (IH s Hs)|]. by intros rs s [_ Hs].
Qed.
Lemma down_not_ready {A} (m : SV A) (a : A) : when_down (ready ← ensureDatabaseReady w env; if negb ready then mret a else m) (λ x, x = a).
Proof. eapply triple_bind; [apply down_ready|]. by intros ready s [-> Hs]. Qed.
Lemma down_inserts l : when_down (insert_all w env l) (λ _, True).
Proof.
  induction l as [|r l IH]; [by intros s|]. simpl. eapply triple_bind; [apply down_not_ready|].
  intros b s [_ Hs]. exact (IH s Hs).
Qed.
Lemma down_poll : when_down (probeAndStore w env url_parse) (λ _, True).
Proof.
  eapply triple_bind; [apply down_probes|]. intros rs. eapply triple_bind; [intros s [_ Hs]; exact (down_inserts rs s Hs)|]. by intros u s [_ Hs].
Qed.
Lemma down_latest target : when_down (readLatestCheck w env url_parse target) (λ latest, latest = None).
Proof. apply down_not_ready. Qed.
Lemma down_checks l : when_down (latest_checks w env url_parse l) (λ x, x.1 = bool_decide (l ≠ [])).
Proof.
  induction l as [|c l IH]; [by intros s|]. simpl. eapply triple_bind; [apply down_latest|]. intros latest.
  intros s [-> Hs]. unfold now, mbind, st_bind. specialize (IH s Hs).
  destruct (latest_checks w env url_parse l s) as [s' [e|[stale rest]]]; [exact IH|]. split; [done|apply IH].
Qed.
Lemma down_read_latest l : when_down (read_latest w env url_parse l) (λ x, head x = (λ _, None) <$> head l).
Proof.
  destruct l as [|c l]; [by intros s|]. simpl. eapply triple_bind; [apply down_latest|]. intros latest s [-> Hs].
  assert (Hl : when_down (read_latest w env url_parse l) (λ _, True)).
  { clear s Hs. induction l as [|c' l IH]; [by intros s|]. simpl. eapply triple_bind; [apply down_latest|]. intros latest s [_ Hs].
    unfold mbind, st_bind. specialize (IH s Hs). destruct (read_latest _ _ _ _ s) as [s' [e|a]]; [exact IH|]. exact (conj Logic.I (proj2 IH)). }
  specialize (Hl s Hs). unfold mbind, st_bind. destruct (read_latest _ _ _ _ s) as [s' [e|a]]; [exact Hl|]. exact (conj eq_refl (proj2 Hl)).
Qed.
Lemma down_snapshot : when_down (getRelayerSnapshot w env url_parse) (λ l, head l = Some None).
Proof.
  unfold getRelayerSnapshot. rewrite Hconfigured. simpl negb. cbv iota. eapply triple_bind; [apply down_checks|].
  intros [needsPoll latest] s [Hn Hs]. simpl in Hn. subst needsPoll. simpl.
  pose proof (down_poll s Hs) as Hp. unfold mbind, st_bind. destruct (probeAndStore w env url_parse s) as [s' [e|rs]]; [done|].
  exact (down_read_latest (getRelayerComponents env) s' (proj2 Hp)).
Qed.
(** With a database that is configured but down there are no checks to read,
    and the status route answers 500: it does not fall back on live checks. *)
Theorem status_down s : databaseReady s = false →
  ∃ s' ms, serveStatus w env url_parse s = (s', inr (RJson 500 (payload_failure ms))).
Proof.
  intros Hs. unfold serveStatus, try_catch, statusPayload, mbind, st_bind. pose proof (down_snapshot s Hs) as Hl.
  destruct (getRelayerSnapshot w env url_parse s) as [s1 [e|[|[r|] l]]]; destruct Hl; try done; by eexists _, _.
Qed.
End Down.

(** ** History *)
(** A day is an outage above one check in twenty, degraded at any outage or
    above one degraded check in twenty. *)
Lemma pct_above total n : 0 < total → negb (Qle_bool (inject_Z n / inject_Z total) (5 # 100)) = (total <? 20 * n).
Proof.
  intros Ht. destruct total as [|p|p]; try lia. unfold Qle_bool, Qdiv, Qmult, Qinv, inject_Z. simpl.
  rewrite Z.mul_1_r. destruct (Z.pos p <? 20 * n) eqn:E; bool_to_prop;
    [apply negb_true_iff, Z.leb_gt|apply negb_false_iff, Z.leb_le]; lia.
Qed.
Lemma pct_positive total n : 0 < total → negb (Qle_bool (inject_Z n / inject_Z total) 0) = (0 <? n).
Proof.
  intros Ht. destruct total as [|p|p]; try lia. unfold Qle_bool, Qdiv, Qmult, Qinv, inject_Z. simpl.
  rewrite !Z.mul_1_r. destruct (0 <? n) eqn:E; bool_to_prop; [apply negb_true_iff, Z.leb_gt|apply negb_false_iff, Z.leb_le]; lia.
Qed.
Theorem bucketStatus_spec total degraded outage : 0 < total →
  bucketStatus total degraded outage =
    if total <? 20 * outage then "outage" else if (0 <? outage) || (total <? 20 * degraded) then "degraded" else "operational".
Proof.
  intros Ht. unfold bucketStatus. rewrite !pct_above, pct_positive by done. destruct (total =? 0) eqn:E; [bool_to_prop; lia|done].
Qed.
Lemma math_round_bounds q a b : Qle_bool (inject_Z a) q = true → Qle_bool q (inject_Z b) = true → a <= math_round q <= b.
Proof.
  intros Ha Hb. apply Qle_bool_iff in Ha, Hb. unfold math_round. split.
  - rewrite <-(Qfloor_Z a). apply Qfloor_resp_le. lra.
  - pose proof (Qfloor_le (q + (1 # 2))) as Hq. apply Z.lt_succ_r. rewrite Zlt_Qlt. unfold Z.succ. rewrite inject_Z_plus. change (inject_Z 1) with 1%Q. lra.
Qed.
(** A number of the environment stays in its range. *)
Lemma readNumberEnv_bounds env name fallback minimum maximum :
  minimum <= fallback <= maximum → minimum <= readNumberEnv env name fallback minimum maximum <= maximum.
Proof.
  intros Hf. unfold readNumberEnv. destruct (if is_empty _ then _ else _) as [| |q]; [done..|].
  destruct (negb _ || negb _) eqn:E; [done|]. bool_to_prop. by apply math_round_bounds.
Qed.
Section History.
Context (env : string → option string).
Lemma getHistoryDays_bounds : 1 <= getHistoryDays env <= 365.
Proof. by apply readNumberEnv_bounds. Qed.
(** A history has one bucket per day, with or without the database, today's
    last; its total is that of its buckets. *)
Theorem history_covers_days rows ms reason target :
  map b_date (h_buckets (history_of env rows ms target)) = day_keys ms (getHistoryDays env) ∧
  map b_date (h_buckets (makeEmptyHistory env ms reason target)) = day_keys ms (getHistoryDays env) ∧
  length (day_keys ms (getHistoryDays env)) = Z.to_nat (getHistoryDays env) ∧
  last (day_keys ms (getHistoryDays env)) = Some (utcDateKey (startOfUtcDay ms)) ∧
  h_totalChecks (history_of env rows ms target) = total_of b_total (h_buckets (history_of env rows ms target)).
Proof.
  pose proof getHistoryDays_bounds as Hb. unfold history_of, makeEmptyHistory. simpl. rewrite !map_map. simpl. rewrite !map_id.
  split; [done|]. split; [done|]. split; [unfold day_keys; by rewrite length_map, length_seq|]. split; [|done].
  unfold day_keys. destruct (Z.to_nat (getHistoryDays env)) as [|n] eqn:En; [lia|].
  rewrite seq_S, map_app. simpl. rewrite last_snoc. do 2 f_equal. unfold addUtcDays. lia.
Qed.
End History.

(** ** Feeds *)
Definition count_of (n : N) (s : string) : nat := length (List.filter (is_char n) (chars s)).
Lemma count_of_app n s t : count_of n (s +:+ t) = (count_of n s + count_of n t)%nat.
Proof. unfold count_of. by rewrite chars_app, List.filter_app, length_app. Qed.
Lemma count_of_join n sep l : count_of n sep = 0%nat → count_of n (join sep l) = sum_list (map (count_of n) l).
Proof.
  intros Hs. induction l as [|s [|s' l] IH]; [done|simpl; lia|].
  change (join sep (s :: s' :: l)) with (s +:+ sep +:+ join sep (s' :: l)). rewrite !count_of_app, IH, Hs. done.
Qed.
Definition inert (c : ascii) : bool := negb (is_char 60 c || is_char 62 c || is_char 34 c || is_char 39 c).
Lemma escapeXml_inert s : sforallb inert (escapeXml s) = true.
Proof.
  unfold sforallb, escapeXml. rewrite chars_of_chars. induction (chars s) as [|c l IH]; [done|]. simpl. rewrite forallb_app, IH, andb_true_r.
  clear. by destruct c as [[] [] [] [] [] [] [] []].
Qed.
Lemma count_of_escaped s : count_of 60 (escapeXml s) = 0%nat.
Proof.
  pose proof (escapeXml_inert s) as Hs. unfold sforallb, count_of in *. induction (chars (escapeXml s)) as [|c l IH]; [done|].
  simpl in *. apply andb_true_iff in Hs as [Hc Hl]. unfold inert in Hc. destruct (is_char 60 c); [done|by apply IH].
Qed.
Lemma markup_of_entries (f : feed_entry → string) k l :
  (∀ e, count_of 60 (f e) = k) → count_of 60 (join empty_str (map f l)) = (k * length l)%nat.
Proof. intros Hf. rewrite count_of_join by done. induction l as [|e l IH]; simpl; [lia|]. rewrite IH, Hf. lia. Qed.
Ltac count_markup := unfold lines, tag, attribute; rewrite count_of_join by done; cbn [map sum_list]; rewrite !count_of_app, !count_of_escaped; reflexivity.
Lemma atom_entry_markup e : count_of 60 (atom_entry e) = 11%nat.
Proof. unfold atom_entry. count_markup. Qed.
Section Feeds.
Context (date_parse : string → option Z).
Lemma rss_item_markup e : count_of 60 (rss_item date_parse e) = 12%nat.
Proof. unfold rss_item. count_markup. Qed.
Lemma feedEntries_bound snap baseUrl : (length (feedEntries snap baseUrl) <= 20)%nat.
Proof. unfold feedEntries. rewrite length_take. lia. Qed.
(** The markup of the feeds is the server's: it depends on the number of
    entries, at most twenty, and on none of the texts of an incident, of a
    relayer or of a header. *)
Theorem feeds_markup_fixed snap baseUrl :
  let n := length (feedEntries snap baseUrl) in
  (n <= 20)%nat ∧
  count_of 60 (atomFeed snap baseUrl) = (11 + 11 * n)%nat ∧
  count_of 60 (rssFeed date_parse snap baseUrl) = (13 + 12 * n)%nat.
Proof.
  split; [apply feedEntries_bound|]. split.
  - unfold atomFeed, lines, tag, attribute. rewrite count_of_join by done. cbn [map sum_list].
    rewrite !count_of_app, (markup_of_entries _ _ _ atom_entry_markup), !count_of_escaped.
    generalize (11 * length (feedEntries snap baseUrl))%nat. intros k. cbv -[Nat.add]. lia.
  - unfold rssFeed, lines, tag, attribute. rewrite count_of_join by done. cbn [map sum_list].
    rewrite !count_of_app, (markup_of_entries _ _ _ rss_item_markup), !count_of_escaped.
    generalize (12 * length (feedEntries snap baseUrl))%nat. intros k. cbv -[Nat.add]. lia.
Qed.
End Feeds.

(** ** Static files *)
Definition slash_free (s : string) : bool := sforallb (λ c, negb (is_slash c)) s.
Definition proper (s : string) : Prop := slash_free s = true ∧ s ≠ "." ∧ s ≠ "..".
Lemma segments_app acc l l' : segments acc (l ++ "/"%char :: l') = segments acc l ++ segments [] l'.
Proof.
  revert acc. induction l as [|c l IH]; intros acc; simpl; [done|]. destruct (is_slash c); [|apply IH].
  simpl. by rewrite IH.
Qed.
Lemma segments_slash s t : segments [] (chars (s +:+ "/" +:+ t)) = segments [] (chars s) ++ segments [] (chars t).
Proof. rewrite !chars_app. apply segments_app. Qed.
Lemma segments_one acc l : forallb (λ c, negb (is_slash c)) l = true → segments acc l = [of_chars (rev acc ++ l)].
Proof.
  revert acc. induction l as [|c l IH]; intros acc; simpl; [by rewrite app_nil_r|]. intros [Hc Hl]%andb_true_iff.
  apply negb_true_iff in Hc. rewrite Hc, IH by done. simpl. by rewrite <-app_assoc.
Qed.
Lemma segments_slash_free acc l : forallb (λ c, negb (is_slash c)) acc = true → Forall (λ s, slash_free s = true) (segments acc l).
Proof.
  assert (Hrev : ∀ acc, forallb (λ c, negb (is_slash c)) acc = true → slash_free (of_chars (rev acc)) = true).
  { intros a Ha. unfold slash_free, sforallb. rewrite chars_of_chars. apply forallb_forall. intros c Hc%in_rev. by eapply forallb_forall in Ha. }
  revert acc. induction l as [|c l IH]; intros acc Ha; simpl; [by constructor; [apply Hrev|]|].
  destruct (is_slash c) eqn:Ec; [constructor; [by apply Hrev|by apply IH]|]. apply IH. simpl. by rewrite Ec.
Qed.
Lemma segments_join S : S ≠ [] → Forall (λ s, slash_free s = true) S → segments [] (chars (join "/" S)) = S.
Proof.
  intros Hn HS. induction S as [|s [|s' S] IH]; [done| |]; apply Forall_cons in HS as [Hs HS].
  - simpl. rewrite segments_one by done. simpl. by rewrite of_chars_chars.
  - change (join "/" (s :: s' :: S)) with (s +:+ "/" +:+ join "/" (s' :: S)). rewrite segments_slash, IH by done. rewrite segments_one by done. simpl. by rewrite of_chars_chars.
Qed.
Lemma step_into_proper l at_ : Forall (λ s, slash_free s = true) l → Forall proper at_ → Forall proper (foldl step_into at_ l).
Proof.
  revert at_. induction l as [|s l IH]; intros at_ Hl Ha; simpl; [done|]. apply Forall_cons in Hl as [Hs Hl]. apply IH; [done|].
  unfold step_into. destruct (is_empty s || seqb s ".") eqn:E1; [done|]. destruct (seqb s "..") eqn:E2; [by apply Forall_take|].
  apply Forall_app. split; [done|]. constructor; [|done]. apply orb_false_iff in E1 as [_ E1]. unfold seqb in *. bool_to_prop. done.
Qed.
Lemma segments_nonempty acc l : segments acc l ≠ [].
Proof. revert acc. induction l as [|c l IH]; intros acc; simpl; [done|]. by destruct (is_slash c). Qed.
Lemma prefix_of_inv p l : prefix_of p l = true → ∃ r, l = p ++ r.
Proof.
  revert l. induction p as [|a p IH]; intros l; [by exists l|]. destruct l as [|c l]; [done|]. simpl.
  intros [->%Ascii.eqb_eq [r ->]%IH]%andb_true_iff. by exists r.
Qed.
(** What is served lies under the directory: after its name no part of the
    path goes up. *)
Theorem resolveDistPath_inside distDir pathname p : resolveDistPath distDir pathname = Some p →
  p = distDir ∨ ∃ rest, p = distDir +:+ "/" +:+ rest ∧ ∀ s, s ∈ segments [] (chars rest) → s ≠ ".." ∧ s ≠ ".".
Proof.
  unfold resolveDistPath. intros Hp. destruct (seqb _ distDir) eqn:E1; simpl in Hp.
  { simplify_eq. left. by apply bool_decide_eq_true in E1. }
  destruct (starts_with _ _) eqn:E2; simplify_eq/=. right. unfold path_resolve in *.
  set (S := foldl step_into [] _) in *.
  assert (HS : Forall proper S).
  { apply step_into_proper; [|done]. apply Forall_app. split; by apply segments_slash_free. }
  clearbody S. clear E1. apply prefix_of_inv in E2 as [rest Hr].
  assert (Hp : "/" +:+ join "/" S = distDir +:+ "/" +:+ of_chars rest).
  { apply chars_inj. by rewrite Hr, !chars_app, chars_of_chars, <-app_assoc. }
  exists (of_chars rest). split; [done|]. intros s Hs. apply (f_equal (λ p, segments [] (chars p))) in Hp.
  rewrite segments_slash in Hp. change ("/" +:+ join "/" S) with (empty_str +:+ "/" +:+ join "/" S) in Hp. rewrite segments_slash in Hp.
  assert (Hin : s ∈ segments [] (chars (join "/" S))).
  { destruct (segments [] (chars distDir)) as [|d ds] eqn:Ed; [by apply segments_nonempty in Ed|]. simpl in Hp. injection Hp as _ Hp.
    rewrite Hp. apply elem_of_app. by right. }
  destruct (decide (S = [])) as [->|Hn]; [by apply list_elem_of_singleton in Hin as ->|].
  rewrite segments_join in Hin by (done || by eapply Forall_impl; [exact HS|intros ? []]).
  by destruct (proj1 (Forall_forall _ _) HS _ Hin) as (_ & ? & ?).
Qed.

(** ** A day of the server *)
Module ExampleServer.
Definition env (name : string) : option string :=
  if seqb name "DATABASE_URL" then Some "postgres://db" else if seqb name "STATUS_ADMIN_API_KEY" then Some "k3y" else None.
Definition url_parse (s : string) : js_error + url := inr (Url "http://localhost" s empty_str).
Definition date_parse (s : string) : option Z := if seqb s "noon" then Some 43200000 else None.
Definition the_incident : incident :=
  Incident 7 (JStr "WM-INC-7") (JStr "Slow") (JStr "investigating") (JStr "minor") JNull (JStr "Slow reads") 0 None 0 0.
Definition world : st_world :=
  {| db_done := λ _, inr tt; db_checks := λ _, inr []; db_days := λ _, inr []; db_incidents := λ _, inr [the_incident];
     db_updates := λ _, inr []; db_statuses := λ _, inr [JStr "investigating"]; db_inserted := λ _, inr (Some 7); db_count := λ _, inr 1;
     st_fetch := λ _, inr (200, "OK", q2 "{'status':'ok'}"); st_stat := λ _, inr None; st_now := λ _, 43200000; st_perf := λ _, 0%Q |}.
Definition request_of (method url body : string) (key : option string) : request :=
  Request method url (λ name, if seqb name "x-admin-api-key" then key else None) [chars body] None.
Definition handle (q : request) : srv * (js_error + response) :=
  serve world env url_parse date_parse "/app/dist" q (Srv true None []).
Definition new_incident : request :=
  request_of "POST" "/api/incidents" (q2 "{'title':'Slow','status':'investigating','severity':'minor','message':'Slow reads','startedAt':'noon'}") (Some "k3y").
Definition close_incident : request := request_of "PATCH" "/api/incidents/7" (q2 "{'status':'resolved'}") (Some "k3y").

Example created : s_trace (fst (handle new_incident)) =
  [EvSql SBegin;
   EvSql (SInsertIncident (JStr "Slow") (JStr "investigating") (JStr "minor") JNull (JStr "Slow reads") (Some 43200000));
   EvSql (SSetIdentifier 7 "WM-INC-7"); EvSql (SInsertUpdate 7 (JStr "investigating") (JStr "Slow reads") None);
   EvSql SCommit; EvSql (SIncident 7); EvSql (SUpdates 7)].
Proof. vm_compute. reflexivity. Qed.
Example closed : s_trace (fst (handle close_incident)) =
  [EvSql (SIncident 7); EvSql (SUpdates 7);
   EvSql (SUpdateIncident 7 (JStr "Slow") (JStr "resolved") (JStr "minor") JNull (JStr "Slow reads") (Some 0) (Some (Some 43200000)));
   EvSql (SInsertUpdate 7 (JStr "resolved") (JStr "Incident resolved.") None); EvSql (SIncident 7); EvSql (SUpdates 7)].
Proof. vm_compute. reflexivity. Qed.
(** Wrong key, wrong status, wrong date, no body. *)
Example refusals :
  map (λ q, let '(s, r) := handle q in (s_trace s, match r with inr (RJson status _) => status | _ => 0 end))
    [request_of "POST" "/api/incidents" (q2 "{}") None; request_of "POST" "/api/incidents" (q2 "{}") (Some "kex");
     request_of "POST" "/api/incidents" (q2 "{}") (Some "k3y");
     request_of "PATCH" "/api/incidents/7" (q2 "{'status':'gone'}") (Some "k3y");
     request_of "PATCH" "/api/incidents/7" (q2 "{'startedAt':'never'}") (Some "k3y");
     request_of "POST" "/api/incidents/7" empty_str (Some "k3y"); request_of "DELETE" "/health" empty_str (Some "k3y")]
  = [([], 401); ([], 401); ([], 400); ([], 400); ([], 400); ([], 405); ([], 0)].
Proof. vm_compute. reflexivity. Qed.
(** A path that climbs out of the directory, and the single-page fallback. *)
Example escapes : snd (handle (request_of "GET" "/assets/%2e%2e/%2e%2e/etc/passwd" empty_str None)) = inr (RText 403 "Forbidden").
Proof. vm_compute. reflexivity. Qed.
(** Reopening an incident keeps the date at which it was resolved. *)
Definition resolved_world : st_world :=
  {| db_done := λ _, inr tt; db_checks := λ _, inr []; db_days := λ _, inr [];
     db_incidents := λ _, inr [Incident 7 (JStr "WM-INC-7") (JStr "Slow") (JStr "resolved") (JStr "minor") JNull (JStr "Slow reads") 0 (Some 5) 0 0];
     db_updates := λ _, inr []; db_statuses := λ _, inr [JStr "resolved"]; db_inserted := λ _, inr None; db_count := λ _, inr 1;
     st_fetch := λ _, inr (200, "OK", empty_str); st_stat := λ _, inr None; st_now := λ _, 43200000; st_perf := λ _, 0%Q |}.
Example reopened_resolved : nth_error (s_trace (fst (serve resolved_world env url_parse date_parse "/app/dist"
    (request_of "PATCH" "/api/incidents/7" (q2 "{'status':'monitoring'}") (Some "k3y")) (Srv true None [])))) 2 =
  Some (EvSql (SUpdateIncident 7 (JStr "Slow") (JStr "monitoring") (JStr "minor") JNull (JStr "Slow reads") (Some 0) (Some (Some 5)))).
Proof. vm_compute. reflexivity. Qed.
(** A database that fails every statement. *)
Definition down_world : st_world :=
  {| db_done := λ _, inl (plain_error "down"); db_checks := λ _, inr []; db_days := λ _, inr []; db_incidents := λ _, inr [];
     db_updates := λ _, inr []; db_statuses := λ _, inr []; db_inserted := λ _, inr None; db_count := λ _, inr 0;
     st_fetch := λ _, inr (200, "OK", q2 "{'status':'ok'}"); st_stat := λ _, inr None; st_now := λ _, 0; st_perf := λ _, 0%Q |}.

(** An update without a text, in the list of a new incident, is stored (its
    status is checked by the table alone); the route of the updates refuses
    it.  A patch may take the title away. *)
Definition listing_incident : request :=
  request_of "POST" "/api/incidents"
    (q2 "{'title':'Slow','status':'investigating','severity':'minor','message':'Slow reads','updates':[{'status':'resolved','message':''}]}") (Some "k3y").
Example listed_unchecked :
  nth_error (s_trace (fst (handle listing_incident))) 3 = Some (EvSql (SInsertUpdate 7 (JStr "resolved") (JStr empty_str) (Some (Some 43200000)))) ∧
  (let '(s, r) := handle (request_of "POST" "/api/incidents/7/updates" (q2 "{'status':'resolved','message':''}") (Some "k3y")) in
   s_trace s = [] ∧ match r with inr (RJson status _) => status = 400 | _ => False end) ∧
  nth_error (s_trace (fst (handle (request_of "PATCH" "/api/incidents/7" (q2 "{'title':''}") (Some "k3y"))))) 2 =
    Some (EvSql (SUpdateIncident 7 (JStr empty_str) (JStr "investigating") (JStr "minor") JNull (JStr "Slow reads") (Some 0) None)).
Proof. split; [vm_compute; reflexivity|]. split; [vm_compute; by split|]. vm_compute. reflexivity. Qed.
Definition added_update : request :=
  request_of "POST" "/api/incidents/7/updates" (q2 "{'status':'monitoring','message':'Better','createdAt':'noon'}") (Some "k3y").
Lemma incident_writes_justified_witness :
  isAdminAuthValid (adminApiKey env) (Some "k3y") = true ∧
  row_ok world added_update [] [EvSql (SIncidentStatus 7)] (SInsertUpdate 7 (JStr "monitoring") (JStr "Better") (Some (Some 43200000))).
Proof.
  refine (incident_writes_justified world env url_parse date_parse "/app/dist" added_update [] (Srv true None [])
    [EvSql (SIncidentStatus 7)] (SInsertUpdate 7 (JStr "monitoring") (JStr "Better") (Some (Some 43200000)))
    [EvSql (SSetStatus 7 (JStr "monitoring") false); EvSql (SIncident 7); EvSql (SUpdates 7)] eq_refl _ eq_refl).
  vm_compute. reflexivity.
Defined.
Lemma status_down_witness : ∃ s' ms, serveStatus down_world env url_parse (Srv false None []) = (s', inr (RJson 500 (payload_failure ms))).
Proof. by apply status_down; [|intros tr; eexists|]. Defined.
End ExampleServer.
