(* ===== verification/NoterAuth.v ===== *)
(** * Authentication of the Noter (apps/noter/package/feature/auth)

    Sessions are given out against a proof: a wallet signature, a signed
    single-use challenge kept in Redis, or a delegate key that an account on
    the chain lists.  The state is the database and Redis; the procedures of
    the router are programs over it, and [ticks] counts the calls to the
    outside, each of which may fail.  A procedure is run by itself; the
    registrations, which look a user up and write it in two calls, also run
    cut at that await, with other requests in between ([interleaved]).

    Signatures, key derivation, hashing, the chain, uuids, [isIP] and the
    base64 of the SDK are arguments of the world; dates are milliseconds. *)
From Stdlib Require Import Ascii QArith.
From S2P Require Import Prelude JsText JsNumber JsonParse Retry.
From S2P Require Hex SealConfig Base64.
From S2P Require Import SealId.
Local Open Scope Z_scope.

(** ** The database and Redis *)
Record user_row : Type := User {
  us_id : string; us_suiAddress : string; us_authMethod : string; us_walletType : option string; us_name : option string;
  us_email : option string; us_avatar : option string; us_delegatePrivateKey : option string; us_delegateAccountId : option string;
  us_lastSeenAt : Z;
}.
Record session_row : Type := Session {
  se_id : string; se_userId : option string; se_walletAddress : string; se_walletType : string; se_signedMessage : string;
  se_signature : string; se_signedAt : Z; se_expiresAt : Z;
}.
Inductive redis_value : Type := RText (s : string) | RCount (n : Z).
Record redis_entry : Type := Entry { en_value : redis_value; en_expires : option Z }.
Record noter : Type := Noter {
  users : list user_row; walletSessions : list session_row; zkLoginSessions : list string; redis : gmap string redis_entry; ticks : nat;
}.
Record world : Type := World {
  w_env : string → option string;
  w_clock : nat → Z;
  w_down : nat → option js_error;                    (** a call that fails *)
  w_redis_ready : nat → bool;                        (** [client.isReady] *)
  w_uuid : nat → string;
  w_verifyPersonalMessageSignature : list ascii → string → option string → option string;   (** the signer, [None] when it throws *)
  w_getPublicKey : list ascii → list ascii;          (** Ed25519 *)
  w_blake2b : list ascii → list ascii;
  w_fromBase64 : string → option (list ascii);
  w_getObject : nat → string → js_error + json;
  w_isUuid : string → bool;
  w_isIP : string → bool;
  w_memwalPackageId : string;
}.

(** What the procedures throw. *)
Inductive failure : Type :=
| TRPC (code message : string)
| SharedRedisUnavailable
| DelegateCredentialConflict
| DelegateAccountBinding (message : string)
| AuthRateLimit (code : string)
| Thrown (e : js_error).
Definition failure_message (e : failure) : string :=
  match e with
  | TRPC _ message | DelegateAccountBinding message => message
  | SharedRedisUnavailable => "Shared Redis is unavailable"
  | DelegateCredentialConflict => "Delegate credentials already provisioned for this address"
  | AuthRateLimit code => if seqb code "TOO_MANY_REQUESTS" then "Too many authentication requests" else "Authentication limiter unavailable"
  | Thrown e => e_message e
  end.
Definition NM : Type → Type := ST noter failure.
Definition set_ticks (n : nat) (s : noter) : noter := Noter (users s) (walletSessions s) (zkLoginSessions s) (redis s) n.
Definition set_users (l : list user_row) (s : noter) : noter := Noter l (walletSessions s) (zkLoginSessions s) (redis s) (ticks s).
Definition set_sessions (l : list session_row) (s : noter) : noter := Noter (users s) l (zkLoginSessions s) (redis s) (ticks s).
Definition set_zk (l : list string) (s : noter) : noter := Noter (users s) (walletSessions s) l (redis s) (ticks s).
Definition set_redis (m : gmap string redis_entry) (s : noter) : noter := Noter (users s) (walletSessions s) (zkLoginSessions s) m (ticks s).

Definition value_text (v : redis_value) : string := match v with RText s => s | RCount n => pretty n end.
Section Noter.
Context `{SuiSdk} (w : world).
Definition now : NM Z := λ s, (s, inr (w_clock w (ticks s))).
Definition uuid : NM string := λ s, (set_ticks (S (ticks s)) s, inr (w_uuid w (ticks s))).
(** A call to the outside: it may fail, and then has no effect. *)
Definition external {A} (f : Z → noter → failure + (noter * A)) : NM A := λ s,
  let s := set_ticks (S (ticks s)) s in
  match w_down w (ticks s) with
  | Some e => (s, inl (Thrown e))
  | None => match f (w_clock w (ticks s)) s with inl e => (s, inl e) | inr (s', a) => (s', inr a) end
  end.
Definition select {A} (f : noter → A) : NM A := external (λ _ s, inr (s, f s)).
Definition update (f : noter → noter) : NM unit := external (λ _ s, inr (f s, tt)).

(** *** Redis *)
Definition live (t : Z) (e : redis_entry) : bool := match en_expires e with Some x => t <? x | None => true end.
Definition redis_get (t : Z) (key : string) (m : gmap string redis_entry) : option redis_value :=
  match m !! key with Some e => if live t e then Some (en_value e) else None | None => None end.
Definition requireSharedRedisClient : NM unit := λ s,
  let s := set_ticks (S (ticks s)) s in
  if w_redis_ready w (ticks s) then (s, inr tt) else (s, inl SharedRedisUnavailable).
(** [set(key, value, { EX: seconds, NX: true })] *)
Definition redis_set_new (key value : string) (seconds : Z) : NM bool :=
  external (λ t s, inr (match redis_get t key (redis s) with
                        | Some _ => (s, false)
                        | None => (set_redis (<[key := Entry (RText value) (Some (t + 1000 * seconds))]> (redis s)) s, true)
                        end)).
(** [getDel(key)] *)
Definition redis_get_del (key : string) : NM (option string) :=
  external (λ t s, match redis_get t key (redis s) with
                   | None => inr (s, None)
                   | Some v => inr (set_redis (delete key (redis s)) s, Some (value_text v))
                   end).

(** *** The challenges (lib/enoki-challenge.ts) *)
Definition CHALLENGE_TTL_SECONDS : Z := 300.
Definition CHALLENGE_REDIS_PREFIX : string := "enoki-auth:challenge:".
Definition MAX_SIGNATURE_LENGTH : nat := 8192.
Inductive ChallengePurpose : Type := signin | export.
Definition purpose_text (p : ChallengePurpose) : string := match p with signin => "signin" | export => "export" end.
Definition PURPOSE_PROMPT (p : ChallengePurpose) : string :=
  match p with signin => "Sign in to Walrus Memory Noter" | export => "Export your Walrus Memory Noter delegate key" end.
Definition newline : string := String.String "010" empty_str.
Definition challenge_message (p : ChallengePurpose) (address nonce : string) (issuedAt : Z) : string :=
  join newline [PURPOSE_PROMPT p; "Address: " +:+ address; "Nonce: " +:+ nonce; "Issued at: " +:+ toISOString issuedAt].
Definition challenge_record (address message : string) (p : ChallengePurpose) : json :=
  JObj [("address", JStr address); ("message", JStr message); ("purpose", JStr (purpose_text p))].
Definition challenge_text (address message : string) (p : ChallengePurpose) : string :=
  json_stringify (λ _, empty_str) (challenge_record address message p).
Record EnokiChallenge : Type := Challenge { challengeId : string; ch_message : string }.
Definition issueEnokiChallenge (rawAddress : string) (purpose : ChallengePurpose) : NM EnokiChallenge :=
  let address := normalizeSuiAddress rawAddress in
  nonce ← uuid;
  issuedAt ← now;
  let message := challenge_message purpose address nonce issuedAt in
  _ ← requireSharedRedisClient;
  stored ← redis_set_new (CHALLENGE_REDIS_PREFIX +:+ nonce) (challenge_text address message purpose) CHALLENGE_TTL_SECONDS;
  if negb stored then throw SharedRedisUnavailable else mret (Challenge nonce message).

(** The signature over the record that Redis gave back. *)
Definition challenge_satisfied (address signature : string) (purpose : ChallengePurpose) (issued : json) : failure + bool :=
  match read_of "message" issued with
  | inl e => inl (Thrown e)
  | inr (JStr message) =>
      inr (equals_text address (jget "address" issued) && equals_text (purpose_text purpose) (jget "purpose" issued) &&
           bool_decide (w_verifyPersonalMessageSignature w (utf8 message) signature (Some address) = Some address))
  | inr _ => inr false
  end.
Definition n_of_sum {A} (r : failure + A) : NM A := match r with inl e => throw e | inr a => mret a end.
Definition verifyAndConsumeEnokiChallenge (rawAddress id signature : string) (purpose : ChallengePurpose) : NM bool :=
  if is_empty id || is_empty signature || (MAX_SIGNATURE_LENGTH <? slen signature)%nat then mret false else
  let address := normalizeSuiAddress rawAddress in
  stored ← try_catch (_ ← requireSharedRedisClient; redis_get_del (CHALLENGE_REDIS_PREFIX +:+ id)) (λ _, throw SharedRedisUnavailable);
  match stored with
  | None => mret false
  | Some text =>
      if is_empty text then mret false else
      match json_parse text with
      | None => mret false
      | Some issued => n_of_sum (challenge_satisfied address signature purpose issued)
      end
  end.

(** *** The delegate accounts (lib/delegate-account.ts) *)
Definition is_hex64 (s : string) : bool := sforallb is_hex s && (slen s =? 64)%nat.
(** [/^0x[0-9a-f]{64}$/i] *)
Definition is_address_i (s : string) : bool := is_full_address (lower s).
Definition deriveDelegatePublicKeyHex (privateKeyHex : string) : string :=
  lower (Hex.Hex.bytesToHex (w_getPublicKey w (Hex.Hex.hex_pairs (chars privateKeyHex)))).
Definition as_byte (v : json) : option ascii :=
  match as_safe_int v with Some z => if (0 <=? z) && (z <=? 255) then Some (ascii_of_N (Z.to_N z)) else None | None => None end.
Definition publicKeyHex (value : json) : option string :=
  match value with
  | JStr s => match w_fromBase64 w s with
              | Some bytes => Some (lower (Hex.Hex.bytesToHex bytes))
              | None => if is_hex64 s then Some (lower s) else None
              end
  | JArr l => if (length l =? 32)%nat then (λ bytes, lower (Hex.Hex.bytesToHex bytes)) <$> mapM as_byte l else None
  | _ => None
  end.
Definition is_account_type (objectType packageId : string) : bool :=
  match split2 objectType with
  | typePackage :: moduleName :: structName :: _ =>
      negb (is_empty typePackage) && seqb (normalizeSuiAddress typePackage) (normalizeSuiAddress packageId) &&
      seqb moduleName "account" && seqb structName "MemWalAccount"
  | _ => false
  end.
Definition lists_key (expectedKey : string) (entry : json) : bool :=
  match entry with
  | JObj _ | JArr _ => bool_decide (publicKeyHex (jget "public_key" entry) = Some expectedKey)
  | _ => false
  end.
Definition delegateAccountBindingError (objectType fields : json) (owner : option string) (publicKey packageId : string) : option string :=
  match objectType with
  | JStr typ =>
      if negb (is_account_type typ packageId) then Some "Object is not a configured MemWalAccount" else
      match fields with
      | JObj _ =>
          if negb (match jget "active" fields with JBool true => true | _ => false end) then Some "Walrus Memory account is inactive" else
          if negb (match owner with
                   | None => true
                   | Some expected => match jget "owner" fields with JStr o => seqb (normalizeSuiAddress o) (normalizeSuiAddress expected) | _ => false end
                   end)
          then Some "Walrus Memory account owner does not match the authenticated wallet" else
          match jget "delegate_keys" fields with
          | JArr keys => if existsb (lists_key (lower publicKey)) keys then None else Some "Delegate key is not registered on the Walrus Memory account"
          | _ => Some "Walrus Memory account has no delegate key list"
          end
      | _ => Some "Account object has no readable fields"
      end
  | _ => Some "Account object has no Move type"
  end.
Definition read_object (accountId : string) : NM json := λ s,
  let s := set_ticks (S (ticks s)) s in
  match w_getObject w (ticks s) accountId with inl e => (s, inl (Thrown e)) | inr v => (s, inr v) end.
Definition assertDelegateAccountBinding (accountId : string) (owner : option string) (publicKey : string) : NM unit :=
  if negb (is_address_i accountId) then throw (DelegateAccountBinding "Invalid Walrus Memory account ID") else
  if is_empty (w_memwalPackageId w) then throw (DelegateAccountBinding "Walrus Memory package is not configured") else
  object ← try_catch (read_object accountId) (λ _, throw (DelegateAccountBinding "Unable to verify Walrus Memory account"));
  match delegateAccountBindingError (jget "type" object) (jget "json" object) owner publicKey (w_memwalPackageId w) with
  | Some error => throw (DelegateAccountBinding error)
  | None => mret tt
  end.

(** *** The limit of public requests (lib/auth-rate-limit.ts) *)
Definition AUTH_RATE_LIMIT_TTL_SECONDS : Z := 60.
Definition AUTH_RATE_LIMIT_PER_IP : Z := 10.
Definition AUTH_RATE_LIMIT_GLOBAL : Z := 150.
Definition redis_count (t : Z) (key : string) (m : gmap string redis_entry) : option Z :=
  match redis_get t key m with None => Some 0 | Some (RCount n) => Some n | Some (RText _) => None end.
(** [INCR], and [EXPIRE] when the count is one *)
Definition redis_incr (t ttl : Z) (key : string) (m : gmap string redis_entry) : gmap string redis_entry :=
  let '(n, expires) := match m !! key with
                       | Some (Entry (RCount n) x) => if live t (Entry (RCount n) x) then (n, x) else (0, None)
                       | _ => (0, None)
                       end in
  <[key := Entry (RCount (n + 1)) (if n + 1 =? 1 then Some (t + 1000 * ttl) else expires)]> m.
(** [AUTH_RATE_LIMIT_LUA], which Redis runs alone; [None] is an error of the
    script, which then has done nothing. *)
Definition rate_script (t : Z) (ip_key global_key : string) (ip_limit global_limit ttl : Z) (m : gmap string redis_entry) :
    option (gmap string redis_entry * Z) :=
  match redis_count t ip_key m, redis_count t global_key m with
  | Some ip_count, Some global_count =>
      if (ip_limit <=? ip_count) || (global_limit <=? global_count) then Some (m, 0) else
      Some (redis_incr t ttl global_key (redis_incr t ttl ip_key m), 1)
  | _, _ => None
  end.
Definition redis_eval (ip_key global_key : string) (ip_limit global_limit ttl : Z) : NM Z :=
  external (λ t s, match rate_script t ip_key global_key ip_limit global_limit ttl (redis s) with
                   | Some (m, r) => inr (set_redis m s, r)
                   | None => inl (Thrown (plain_error "ERR Error running script"))
                   end).
Definition validIp (value : option string) : option string :=
  match value with
  | None => None
  | Some v => let candidate := trim v in if negb (is_empty candidate) && w_isIP w candidate then Some candidate else None
  end.
Definition split_list (s : string) : list string := SealConfig.SealConfig.split_commas [] (chars s).
Definition env_set (name : string) : bool := match w_env w name with Some v => negb (is_empty v) | None => false end.
Definition clientIp (header : string → option string) : option string :=
  if env_set "VERCEL" then validIp (v ← header "x-vercel-forwarded-for"; head (split_list v)) else
  match validIp (header "x-real-ip") with
  | Some ip => Some ip
  | None => validIp (v ← header "x-forwarded-for"; last (split_list v))
  end.
Definition ip_rate_key (ip : string) : string := "noter-auth-rate:{noter-auth}:ip:" +:+ ip.
Definition global_rate_key : string := "noter-auth-rate:{noter-auth}:global".
Definition checkPublicAuthRateLimit (header : string → option string) : NM unit :=
  if negb (bool_decide (w_env w "NODE_ENV" = Some "production")) then mret tt else
  try_catch (_ ← requireSharedRedisClient;
             let ip := default "unknown" (clientIp header) in
             result ← redis_eval (ip_rate_key ip) global_rate_key AUTH_RATE_LIMIT_PER_IP AUTH_RATE_LIMIT_GLOBAL AUTH_RATE_LIMIT_TTL_SECONDS;
             if negb (result =? 1) then throw (AuthRateLimit "TOO_MANY_REQUESTS") else mret tt)
    (λ e, match e with AuthRateLimit _ => throw e | _ => throw (AuthRateLimit "SERVICE_UNAVAILABLE") end).

(** *** The service (domain/service.ts) *)
Definition text_or_null (o : option string) : json := match o with Some s => JStr s | None => JNull end.
Definition toSafeUser (u : user_row) : json :=
  JObj [("id", JStr (us_id u)); ("suiAddress", JStr (us_suiAddress u)); ("name", text_or_null (us_name u)); ("avatar", text_or_null (us_avatar u));
        ("authMethod", JStr (us_authMethod u)); ("delegateAccountId", text_or_null (us_delegateAccountId u))].
Definition at_address (a : string) (u : user_row) : bool := seqb (us_suiAddress u) a.
Definition with_id (i : string) (u : user_row) : bool := seqb (us_id u) i.
Definition set_where (p : user_row → bool) (f : user_row → user_row) (l : list user_row) : list user_row := map (λ u, if p u then f u else u) l.
Definition find_user (p : user_row → bool) : NM (option user_row) := select (λ s, List.find p (users s)).
(** [update(users).set(f).where(id).returning()] *)
Definition update_user (i : string) (f : user_row → user_row) : NM (option user_row) :=
  external (λ _ s, let l := set_where (with_id i) f (users s) in inr (set_users l s, List.find (with_id i) l)).
(** The unique columns are the id and the address. *)
Definition insert_user (u : user_row) : NM user_row :=
  external (λ _ s, if existsb (λ v, with_id (us_id u) v || at_address (us_suiAddress u) v) (users s)
                   then inl (Thrown (plain_error "duplicate key value violates unique constraint"))
                   else inr (set_users (users s ++ [u]) s, u)).
Definition insert_session (se : session_row) : NM unit :=
  external (λ _ s, if existsb (λ v, seqb (se_id v) (se_id se)) (walletSessions s)
                   then inl (Thrown (plain_error "duplicate key value violates unique constraint"))
                   else inr (set_sessions (walletSessions s ++ [se]) s, tt)).
(** A row that [returning()] does not give back: reading it throws. *)
Definition returned {A} (o : option A) : NM A :=
  match o with Some a => mret a | None => throw (Thrown (js_type_error "Cannot read properties of undefined")) end.
Definition is_some_text (o : option string) : bool := match o with Some s => negb (is_empty s) | None => false end.

Definition touch_wallet (walletType : string) (t : Z) (u : user_row) : user_row :=
  User (us_id u) (us_suiAddress u) (us_authMethod u) (Some walletType) (us_name u) (us_email u) (us_avatar u)
    (us_delegatePrivateKey u) (us_delegateAccountId u) t.
(** What an upsert does with the row that its lookup found. *)
Definition wallet_write (address walletType : string) (existing : option user_row) : NM user_row :=
  match existing with
  | Some u =>
      t ← now;
      updated ← update_user (us_id u) (touch_wallet walletType t);
      returned updated
  | None =>
      i ← uuid;
      t ← now;
      insert_user (User i address "wallet" (Some walletType) (Some (walletType +:+ " User")) None None None None t)
  end.
Definition upsertWalletUser (address walletType : string) : NM user_row :=
  existing ← find_user (at_address address);
  wallet_write address walletType existing.
Definition provision (delegatePrivateKey delegateAccountId : string) (t : Z) (u : user_row) : user_row :=
  User (us_id u) (us_suiAddress u) "enoki" (us_walletType u) (us_name u) (us_email u) (us_avatar u)
    (Some delegatePrivateKey) (Some delegateAccountId) t.
Definition enoki_write (suiAddress delegatePrivateKey delegateAccountId : string) (existing : option user_row) : NM user_row :=
  match existing with
  | Some u =>
      if is_some_text (us_delegatePrivateKey u) then throw DelegateCredentialConflict else
      t ← now;
      updated ← update_user (us_id u) (provision delegatePrivateKey delegateAccountId t);
      returned updated
  | None =>
      i ← uuid;
      t ← now;
      insert_user (User i suiAddress "enoki" None (Some "Enoki User") None None (Some delegatePrivateKey) (Some delegateAccountId) t)
  end.
Definition upsertEnokiUser (suiAddress delegatePrivateKey delegateAccountId : string) : NM user_row :=
  existing ← find_user (at_address suiAddress);
  enoki_write suiAddress delegatePrivateKey delegateAccountId existing.
Definition provisioned (u : user_row) : bool := is_some_text (us_delegatePrivateKey u) && is_some_text (us_delegateAccountId u).
Definition getEnokiUserBySuiAddress (suiAddress : string) : NM (option user_row) :=
  found ← find_user (λ u, at_address suiAddress u && seqb (us_authMethod u) "enoki");
  mret (match found with Some u => if provisioned u then Some u else None | None => None end).
Definition getDelegateKeyForOwner (suiAddress : string) : NM (option (string * string)) :=
  found ← find_user (at_address suiAddress);
  mret (match found with
        | Some u => match us_delegatePrivateKey u, us_delegateAccountId u with
                    | Some key, Some account => if provisioned u then Some (key, account) else None
                    | _, _ => None
                    end
        | None => None
        end).
Definition getUserAddressById (userId : string) : NM (option string) := found ← find_user (with_id userId); mret (us_suiAddress <$> found).
Definition createEnokiSession (sessionId userId suiAddress : string) : NM (string * Z) :=
  t ← now;
  _ ← insert_session (Session sessionId (Some userId) suiAddress "enoki" "enoki-zklogin" empty_str t (t + DAY_MS));
  mret (sessionId, t + DAY_MS).
Definition find_session (i : string) : NM (option session_row) := select (λ s, List.find (λ se, seqb (se_id se) i) (walletSessions s)).
(** The user of a session that has not expired. *)
Definition session_user (t : Z) (se : option session_row) : option (session_row * string) :=
  match se with
  | Some row => match se_userId row with
                | Some uid => if negb (is_empty uid) && (t <? se_expiresAt row) then Some (row, uid) else None
                | None => None
                end
  | None => None
  end.
Definition getActiveSession (sessionId : string) : NM json :=
  found ← find_session sessionId;
  t ← now;
  match session_user t found with
  | None => mret JNull
  | Some (row, uid) =>
      u ← find_user (with_id uid);
      mret (match u with
            | Some u => JObj [("user", toSafeUser u); ("sessionId", JStr (se_id row)); ("suiAddress", JStr (us_suiAddress u));
                              ("expiresAt", JStr (toISOString (se_expiresAt row)))]
            | None => JNull
            end)
  end.
Definition deleteSession (sessionId : string) : NM unit :=
  _ ← update (λ s, set_zk (List.filter (λ i, negb (seqb i sessionId)) (zkLoginSessions s)) s);
  update (λ s, set_sessions (List.filter (λ se, negb (seqb (se_id se) sessionId)) (walletSessions s)) s).

(** *** The procedures (shared/lib/trpc/init.ts, api/route.ts) *)
Definition bad_input {A} : NM A := throw (TRPC "BAD_REQUEST" "Invalid input").
Definition text_field (k : string) (ok : string → bool) (input : json) : option string :=
  match jget k input with JStr s => if ok s then Some s else None | _ => None end.
(** [z.string()....optional()] *)
Definition optional_field (k : string) (ok : string → bool) (input : json) : option (option string) :=
  match jget k input with JUndefined => Some None | JStr s => if ok s then Some (Some s) else None | _ => None end.
Definition non_empty (s : string) : bool := negb (is_empty s).
Definition with_input {I A} (parse : json → option I) (input : json) (k : I → NM A) : NM A :=
  match input with JObj _ => match parse input with Some i => k i | None => bad_input end | _ => bad_input end.
Definition internal (e : failure) : failure := TRPC "INTERNAL_SERVER_ERROR" (failure_message e).
(** The catch of a procedure: a tRPC error passes, [known] says what becomes
    of the errors it names. *)
Definition as_trpc {A} (known : failure → option failure) (m : NM A) : NM A :=
  try_catch m (λ e, match e with TRPC _ _ => throw e | _ => throw (default (internal e) (known e)) end).
Definition none_known (e : failure) : option failure := None.
Definition unavailable_error : failure := TRPC "SERVICE_UNAVAILABLE" "Authentication service temporarily unavailable".
Definition redis_known (e : failure) : option failure := match e with SharedRedisUnavailable => Some unavailable_error | _ => None end.
Definition credentials_known (e : failure) : option failure :=
  match e with
  | DelegateCredentialConflict => Some (TRPC "CONFLICT" (failure_message e))
  | DelegateAccountBinding message => Some (TRPC "UNAUTHORIZED" message)
  | _ => None
  end.
Definition key_login_known (e : failure) : option failure :=
  match e with AuthRateLimit code => Some (TRPC code (failure_message e)) | _ => credentials_known e end.

Definition createContext (header : string → option string) : NM (option string) :=
  match header "x-session-id" with
  | None => mret None
  | Some i => if is_empty i then mret None else
      found ← find_session i;
      t ← now;
      mret (snd <$> session_user t found)
  end.
Definition protected {A} (userId : option string) (k : string → NM A) : NM A :=
  match userId with Some uid => k uid | None => throw (TRPC "UNAUTHORIZED" "Authentication required") end.

Definition session_reply (u : user_row) (sessionId : string) (expiresAt : Z) : list (string * json) :=
  [("user", toSafeUser u); ("sessionId", JStr sessionId);
   ("sessionData", JObj [("sessionId", JStr sessionId); ("expiresAt", JStr (toISOString expiresAt))])].
(** A new session of [u] at [suiAddress], and its reply. *)
Definition open_session (u : user_row) (suiAddress : string) : NM (list (string * json)) :=
  sessionId ← uuid;
  '(i, expiresAt) ← createEnokiSession sessionId (us_id u) suiAddress;
  mret (session_reply u i expiresAt).

Record wallet_input : Type := WalletInput { wi_walletType : string; wi_address : string; wi_signature : string; wi_message : string }.
Definition any_text (s : string) : bool := true.
Definition parse_wallet (input : json) : option wallet_input :=
  walletType ← text_field "walletType" (seqb "slush") input;
  address ← text_field "address" any_text input;
  signature ← text_field "signature" any_text input;
  message ← text_field "message" any_text input;
  Some (WalletInput walletType address signature message).
Definition connectWallet (input : json) : NM json :=
  with_input parse_wallet input (λ i, as_trpc none_known (
    match w_verifyPersonalMessageSignature w (utf8 (wi_message i)) (wi_signature i) None with
    | None => throw (TRPC "UNAUTHORIZED" "Invalid signature")
    | Some signer =>
        if negb (seqb signer (wi_address i)) then throw (TRPC "UNAUTHORIZED" "Signature does not match address") else
        u ← upsertWalletUser (wi_address i) (wi_walletType i);
        sessionId ← uuid;
        t ← now;
        _ ← insert_session (Session sessionId (Some (us_id u)) (wi_address i) (wi_walletType i) (wi_message i) (wi_signature i) t (t + DAY_MS));
        mret (JObj (session_reply u sessionId (t + DAY_MS)))
    end)).
Definition challenge_json (c : EnokiChallenge) : json := JObj [("challengeId", JStr (challengeId c)); ("message", JStr (ch_message c))].
Definition issueSigninChallenge (input : json) : NM json :=
  with_input (text_field "suiAddress" is_address_i) input (λ suiAddress,
    as_trpc redis_known (c ← issueEnokiChallenge suiAddress signin; mret (challenge_json c))).

Definition ownership_refused : failure := TRPC "UNAUTHORIZED" "Wallet ownership verification failed".
(** The gate of [connectEnoki] and [exportDelegateKey]. *)
Definition prove_ownership (suiAddress id signature : string) (purpose : ChallengePurpose) : NM unit :=
  verified ← try_catch (verifyAndConsumeEnokiChallenge suiAddress id signature purpose)
               (λ e, throw (match e with SharedRedisUnavailable => unavailable_error | _ => e end));
  if negb verified then throw ownership_refused else mret tt.
Record enoki_input : Type := EnokiInput { ei_suiAddress : string; ei_challengeId : string; ei_signature : string; ei_privateKey : option string; ei_accountId : option string }.
Definition parse_enoki (input : json) : option enoki_input :=
  suiAddress ← text_field "suiAddress" is_address_i input;
  id ← text_field "challengeId" non_empty input;
  signature ← text_field "signature" non_empty input;
  privateKey ← optional_field "privateKey" is_hex64 input;
  accountId ← optional_field "accountId" is_address_i input;
  Some (EnokiInput suiAddress id signature privateKey accountId).
Definition needs_setup (b : bool) : string * json := ("needsSetup", JBool b).
Definition connectEnoki (input : json) : NM json :=
  with_input parse_enoki input (λ i,
    let suiAddress := normalizeSuiAddress (ei_suiAddress i) in
    as_trpc credentials_known (
      _ ← prove_ownership suiAddress (ei_challengeId i) (ei_signature i) signin;
      match ei_privateKey i, ei_accountId i with
      | None, None =>
          existing ← getEnokiUserBySuiAddress suiAddress;
          match existing with
          | Some u => reply ← open_session u suiAddress; mret (JObj (needs_setup false :: reply))
          | None => mret (JObj [needs_setup true])
          end
      | Some privateKey, Some accountId =>
          _ ← assertDelegateAccountBinding accountId (Some suiAddress) (deriveDelegatePublicKeyHex privateKey);
          u ← upsertEnokiUser suiAddress privateKey accountId;
          reply ← open_session u suiAddress;
          mret (JObj (needs_setup false :: reply))
      | _, _ => throw (TRPC "BAD_REQUEST" "privateKey and accountId required")
      end)).
Definition issueExportChallenge (userId : string) : NM json :=
  as_trpc redis_known (
    address ← getUserAddressById userId;
    match address with
    | Some a => if is_empty a then throw (TRPC "NOT_FOUND" "User not found") else c ← issueEnokiChallenge a export; mret (challenge_json c)
    | None => throw (TRPC "NOT_FOUND" "User not found")
    end).
Record export_input : Type := ExportInput { xi_suiAddress : string; xi_challengeId : string; xi_signature : string }.
Definition parse_export (input : json) : option export_input :=
  suiAddress ← text_field "suiAddress" is_address_i input;
  id ← text_field "challengeId" non_empty input;
  signature ← text_field "signature" non_empty input;
  Some (ExportInput suiAddress id signature).
Definition own_address (sessionAddress : option string) (suiAddress : string) : bool :=
  match sessionAddress with Some a => negb (is_empty a) && seqb (normalizeSuiAddress a) suiAddress | None => false end.
Definition exportDelegateKey (userId : string) (input : json) : NM json :=
  with_input parse_export input (λ i,
    let suiAddress := normalizeSuiAddress (xi_suiAddress i) in
    as_trpc none_known (
      sessionAddress ← getUserAddressById userId;
      if negb (own_address sessionAddress suiAddress) then throw (TRPC "FORBIDDEN" "You can only export the key for your own session") else
      _ ← prove_ownership suiAddress (xi_challengeId i) (xi_signature i) export;
      key ← getDelegateKeyForOwner suiAddress;
      match key with
      | None => throw (TRPC "NOT_FOUND" "No delegate key found for this address")
      | Some (delegatePrivateKey, delegateAccountId) =>
          mret (JObj [("delegatePrivateKey", JStr delegatePrivateKey); ("delegateAccountId", JStr delegateAccountId)])
      end)).
Definition parse_key (input : json) : option (string * string) :=
  privateKey ← text_field "privateKey" is_hex64 input;
  accountId ← text_field "accountId" is_address_i input;
  Some (privateKey, accountId).
(** The address of the key itself: its Ed25519 scheme flag and public key. *)
Definition key_address (publicKey : string) : string :=
  "0x" +:+ Hex.Hex.bytesToHex (w_blake2b w ("000"%char :: Hex.Hex.hex_pairs (chars publicKey))).
Definition connectDelegateKey (header : string → option string) (input : json) : NM json :=
  with_input parse_key input (λ '(privateKey, accountId), as_trpc key_login_known (
    _ ← checkPublicAuthRateLimit header;
    let publicKey := deriveDelegatePublicKeyHex privateKey in
    _ ← assertDelegateAccountBinding accountId None publicKey;
    let suiAddress := key_address publicKey in
    u ← upsertEnokiUser suiAddress privateKey accountId;
    reply ← open_session u suiAddress;
    mret (JObj reply))).
Definition parse_session (input : json) : option string := text_field "sessionId" (w_isUuid w) input.
Definition getSession (input : json) : NM json := with_input parse_session input getActiveSession.
Definition logout (input : json) : NM json :=
  with_input parse_session input (λ sessionId, _ ← deleteSession sessionId; mret (JObj [("success", JBool true)])).

Inductive procedure : Type :=
| PGetSession | PLogout | PConnectWallet | PIssueEnokiChallenge | PConnectEnoki | PIssueExportChallenge | PExportDelegateKey | PConnectDelegateKey.
(** A request of [authRouter]. *)
Definition handle (header : string → option string) (p : procedure) (input : json) : NM json :=
  userId ← createContext header;
  match p with
  | PGetSession => getSession input
  | PLogout => logout input
  | PConnectWallet => connectWallet input
  | PIssueEnokiChallenge => issueSigninChallenge input
  | PConnectEnoki => connectEnoki input
  | PIssueExportChallenge => protected userId issueExportChallenge
  | PExportDelegateKey => protected userId (λ uid, exportDelegateKey uid input)
  | PConnectDelegateKey => connectDelegateKey header input
  end.
End Noter.

(** ** What leaves the rows alone *)
Definition rows (s : noter) : list user_row * list session_row := (users s, walletSessions s).
Notation tame m := (∀ P, invariant (λ s, P (rows s)) m).
Create HintDb tame discriminated.
Ltac tame :=
  let P := fresh "P" in
  intros P;
  repeat first [apply invariant_ret | apply invariant_throw | apply invariant_gets | solve [eauto with tame]
               | apply invariant_bind; [|intros ?] | apply invariant_catch; [|intros ?] | case_match].

Section Rows.
Context `{SuiSdk} (w : world).
Lemma tame_external {A} (f : Z → noter → failure + (noter * A)) :
  (∀ t s s' a, f t s = inr (s', a) → rows s' = rows s) → tame (external w f).
Proof.
  intros Hf P s Hs. unfold external. destruct (w_down w _); [done|].
  destruct (f _ _) as [e|[s' a]] eqn:E; [done|]. apply Hf in E. rewrite E. exact Hs.
Qed.
Lemma tame_select {A} (f : noter → A) : tame (select w f).
Proof. apply tame_external. by intros t s s' a [= <- <-]. Qed.
Lemma tame_now : tame (now w).
Proof. by intros P s Hs. Qed.
Lemma tame_uuid : tame (uuid w).
Proof. by intros P s Hs. Qed.
Lemma tame_client : tame (requireSharedRedisClient w).
Proof. intros P s Hs. unfold requireSharedRedisClient. by destruct (w_redis_ready w _). Qed.
Lemma tame_set_new key value seconds : tame (redis_set_new w key value seconds).
Proof. apply tame_external. intros t s s' a. by destruct (redis_get _ _ _); intros [= <- <-]. Qed.
Lemma tame_get_del key : tame (redis_get_del w key).
Proof. apply tame_external. intros t s s' a. by destruct (redis_get _ _ _); intros [= <- <-]. Qed.
Lemma tame_eval ik gk il gl ttl : tame (redis_eval w ik gk il gl ttl).
Proof. apply tame_external. intros t s s' a. by destruct (rate_script _ _ _ _ _ _ _) as [[m r]|]; intros Hf; simplify_eq. Qed.
Lemma tame_object accountId : tame (read_object w accountId).
Proof. intros P s Hs. unfold read_object. by destruct (w_getObject w _ _). Qed.
Lemma tame_sum {A} (r : failure + A) : tame (n_of_sum r).
Proof. destruct r; tame. Qed.
Lemma tame_find p : tame (find_user w p).
Proof. apply tame_select. Qed.
Lemma tame_find_session i : tame (find_session w i).
Proof. apply tame_select. Qed.
Hint Resolve tame_now tame_uuid tame_client tame_set_new tame_get_del tame_eval tame_object tame_sum tame_find tame_find_session : tame.
Lemma tame_returned {A} (o : option A) : tame (returned o).
Proof. destruct o; tame. Qed.
Lemma tame_issue a p : tame (issueEnokiChallenge w a p).
Proof. unfold issueEnokiChallenge. tame. Qed.
Lemma tame_verify a i sg p : tame (verifyAndConsumeEnokiChallenge w a i sg p).
Proof. unfold verifyAndConsumeEnokiChallenge. tame. Qed.
Lemma tame_binding accountId owner key : tame (assertDelegateAccountBinding w accountId owner key).
Proof. unfold assertDelegateAccountBinding. tame. Qed.
Lemma tame_limit header : tame (checkPublicAuthRateLimit w header).
Proof. unfold checkPublicAuthRateLimit. tame. Qed.
Hint Resolve tame_returned tame_issue tame_verify tame_binding tame_limit : tame.
Lemma tame_prove a i sg p : tame (prove_ownership w a i sg p).
Proof. unfold prove_ownership. tame. Qed.
Lemma tame_context header : tame (createContext w header).
Proof. unfold createContext. tame. Qed.
Lemma tame_active i : tame (getActiveSession w i).
Proof. unfold getActiveSession. tame. Qed.
Lemma tame_enoki_user a : tame (getEnokiUserBySuiAddress w a).
Proof. unfold getEnokiUserBySuiAddress. tame. Qed.
Lemma tame_owner_key a : tame (getDelegateKeyForOwner w a).
Proof. unfold getDelegateKeyForOwner. tame. Qed.
Lemma tame_address i : tame (getUserAddressById w i).
Proof. unfold getUserAddressById. tame. Qed.
Hint Resolve tame_prove tame_context tame_active tame_enoki_user tame_owner_key tame_address : tame.
Lemma tame_get_session input : tame (getSession w input).
Proof. unfold getSession, with_input, bad_input. tame. Qed.
Lemma tame_issue_signin input : tame (issueSigninChallenge w input).
Proof. unfold issueSigninChallenge, with_input, as_trpc, bad_input. tame. Qed.
Lemma tame_issue_export i : tame (issueExportChallenge w i).
Proof. unfold issueExportChallenge, as_trpc. tame. Qed.
Lemma tame_export i input : tame (exportDelegateKey w i input).
Proof. unfold exportDelegateKey, with_input, as_trpc, bad_input. tame. Qed.
End Rows.
#[export] Hint Resolve tame_now tame_uuid tame_client tame_returned tame_binding tame_limit tame_prove tame_context tame_get_session
  tame_issue_signin tame_issue_export tame_export tame_enoki_user : tame.

(** ** What a request may do to the rows *)
(** The proof that a challenge, as Redis has it, was signed by [address]. *)
Definition challenge_proof (w : world) (m : gmap string redis_entry) (address id signature : string) (p : ChallengePurpose) : Prop :=
  ∃ t e issued message,
    m !! (CHALLENGE_REDIS_PREFIX +:+ id) = Some e ∧ live t e = true ∧ json_parse (value_text (en_value e)) = Some issued ∧
    jget "message" issued = JStr message ∧ jget "address" issued = JStr address ∧ jget "purpose" issued = JStr (purpose_text p) ∧
    w_verifyPersonalMessageSignature w (utf8 message) signature (Some address) = Some address.
(** The proof that an account of the chain lists the key. *)
Definition key_proof `{SuiSdk} (w : world) (privateKey accountId : string) (owner : option string) : Prop :=
  ∃ n object, w_getObject w n accountId = inr object ∧
    delegateAccountBindingError w (jget "type" object) (jget "json" object) owner (deriveDelegatePublicKeyHex w privateKey) (w_memwalPackageId w) = None.
(** What justifies a session of [address]. *)
Inductive proven `{SuiSdk} (w : world) (m : gmap string redis_entry) (input : json) : procedure → string → Prop :=
| proven_wallet i :
    parse_wallet input = Some i → w_verifyPersonalMessageSignature w (utf8 (wi_message i)) (wi_signature i) None = Some (wi_address i) →
    proven w m input PConnectWallet (wi_address i)
| proven_enoki i :
    parse_enoki input = Some i → challenge_proof w m (normalizeSuiAddress (normalizeSuiAddress (ei_suiAddress i))) (ei_challengeId i) (ei_signature i) signin →
    (∀ privateKey, ei_privateKey i = Some privateKey → ∃ accountId, key_proof w privateKey accountId (Some (normalizeSuiAddress (ei_suiAddress i)))) →
    proven w m input PConnectEnoki (normalizeSuiAddress (ei_suiAddress i))
| proven_key privateKey accountId :
    parse_key input = Some (privateKey, accountId) → key_proof w privateKey accountId None →
    proven w m input PConnectDelegateKey (key_address w (deriveDelegatePublicKeyHex w privateKey)).

Notation table := (list user_row * list session_row)%type.
Record closed (P : table → Prop) (allowed : string → Prop) : Prop := Closed {
  closed_unique l ss : P (l, ss) → NoDup (us_id <$> l);
  closed_touch l ss u walletType t : P (l, ss) → u ∈ l → P (set_where (with_id (us_id u)) (touch_wallet walletType t) l, ss);
  closed_provision l ss u key account t : P (l, ss) → u ∈ l → is_some_text (us_delegatePrivateKey u) = false →
    P (set_where (with_id (us_id u)) (provision key account t) l, ss);
  closed_insert l ss u : P (l, ss) → existsb (λ v, with_id (us_id u) v || at_address (us_suiAddress u) v) l = false → P (l ++ [u], ss);
  closed_session l ss u se : P (l, ss) → u ∈ l → us_suiAddress u = se_walletAddress se → se_userId se = Some (us_id u) →
    allowed (se_walletAddress se) → P (l, ss ++ [se]);
  closed_delete l ss f : P (l, ss) → P (l, List.filter f ss);
}.

Lemma find_some_in {A} (p : A → bool) l x : List.find p l = Some x → x ∈ l ∧ p x = true.
Proof. intros Hf. apply List.find_some in Hf as [? ?]. by rewrite list_elem_of_In. Qed.
Lemma seqb_true a b : seqb a b = true ↔ a = b.
Proof. apply bool_decide_eq_true. Qed.
(** With distinct ids an update finds the row it was for. *)
Lemma find_updated l u f : NoDup (us_id <$> l) → u ∈ l → us_id (f u) = us_id u →
  List.find (with_id (us_id u)) (set_where (with_id (us_id u)) f l) = Some (f u).
Proof.
  intros Hnd Hu Hf. induction l as [|v l IH]; [by apply elem_of_nil in Hu|]. cbn [fmap list_fmap] in Hnd. apply NoDup_cons in Hnd as [Hv Hnd].
  unfold set_where. cbn [map List.find]. destruct (with_id (us_id u) v) eqn:E.
  - apply seqb_true in E. assert (v = u) as ->.
    { apply elem_of_cons in Hu as [->|Hu]; [done|]. destruct Hv. rewrite E. by apply list_elem_of_fmap_2. }
    unfold with_id. rewrite Hf. by rewrite (proj2 (seqb_true _ _)).
  - rewrite E. apply IH; [done|]. apply elem_of_cons in Hu as [->|Hu]; [|done]. unfold with_id in E. by rewrite (proj2 (seqb_true _ _)) in E.
Qed.
Lemma updated_in l u f : u ∈ l → f u ∈ set_where (with_id (us_id u)) f l.
Proof.
  intros Hu. unfold set_where. apply list_elem_of_In, in_map_iff. exists u. split; [|by apply list_elem_of_In].
  unfold with_id. by rewrite (proj2 (seqb_true _ _)).
Qed.

Section Closed.
Context `{SuiSdk} (w : world) (P : table → Prop) (allowed : string → Prop) (HP : closed P allowed).
Notation inv m := (invariant (λ s, P (rows s)) m).
Notation owned a u := (λ r : table, P r ∧ u ∈ r.1 ∧ us_suiAddress u = a).
Notation gives m a := (triple (λ s, P (rows s)) m (λ u s, owned a u (rows s)) (λ _ s, P (rows s))).

Lemma external_rule {A} (f : Z → noter → failure + (noter * A)) (I : table → Prop) (Q : A → table → Prop) (R : table → Prop) :
  (∀ l ss, I (l, ss) → R (l, ss)) →
  (∀ t s s' a, I (rows s) → f t s = inr (s', a) → Q a (rows s')) →
  triple (λ s, I (rows s)) (external w f) (λ a s, Q a (rows s)) (λ _ s, R (rows s)).
Proof.
  intros HR HQ s Hs. unfold external. destruct (w_down w _); [by apply HR|].
  destruct (f _ _) as [e|[s' a]] eqn:E; [by apply HR|]. by apply HQ in E.
Qed.
Lemma tame_rule {A} (m : NM A) (I R : table → Prop) :
  tame m → (∀ r, I r → R r) → triple (λ s, I (rows s)) m (λ _ s, I (rows s)) (λ _ s, R (rows s)).
Proof. intros Hm HR. eapply triple_conseq; [exact (Hm I)|done|done|]. intros e s Hs. by apply HR. Qed.
Lemma find_rule p : triple (λ s, P (rows s)) (find_user w p) (λ o s, P (rows s) ∧ o = List.find p (rows s).1) (λ _ s, P (rows s)).
Proof. apply (external_rule _ P (λ o r, P r ∧ o = List.find p r.1) P); [done|]. by intros t s s' a Hs [= <- <-]. Qed.
(** An update that keeps the id and the address gives the row back. *)
Lemma update_rule u f : us_id (f u) = us_id u → us_suiAddress (f u) = us_suiAddress u →
  (∀ l ss, P (l, ss) → u ∈ l → P (set_where (with_id (us_id u)) f l, ss)) →
  triple (λ s, P (rows s) ∧ u ∈ (rows s).1) (updated ← update_user w (us_id u) f; returned updated)
    (λ v s, owned (us_suiAddress u) v (rows s)) (λ _ s, P (rows s)).
Proof.
  intros Hid Ha Hf. eapply triple_bind.
  - apply (external_rule _ (λ r, P r ∧ u ∈ r.1) (λ o r, o = Some (f u) ∧ owned (us_suiAddress u) (f u) r) P); [by intros l ss [? ?]|].
    intros t s s' a [Hs Hu] [= <- <-]. unfold rows in *. cbn in *. split; [apply find_updated; [by eapply closed_unique|done..]|].
    split; [by apply Hf|]. split; [by apply updated_in|done].
  - intros o s [-> Hs]. exact Hs.
Qed.
Lemma insert_rule u : gives (insert_user w u) (us_suiAddress u).
Proof.
  apply (external_rule _ P (λ v r, owned (us_suiAddress u) v r) P); [done|]. intros t s s' a Hs E.
  destruct (existsb _ _) eqn:Ex; [done|]. injection E as <- <-. unfold rows in *. cbn in *.
  split; [by apply closed_insert with allowed|]. split; [|done]. apply elem_of_app. right. by apply list_elem_of_singleton.
Qed.
Lemma upsert_wallet_rule a walletType : gives (upsertWalletUser w a walletType) a.
Proof.
  unfold upsertWalletUser. eapply triple_bind; [apply find_rule|]. intros [u|] s [Hs Ho].
  - symmetry in Ho. apply find_some_in in Ho as [Hu Ha]. apply seqb_true in Ha. subst a.
    refine (update_rule u (touch_wallet walletType (w_clock w (ticks s))) _ _ _ s _); try done. intros l ss Hl Hin. by eapply closed_touch.
  - refine (triple_bind _ (λ _ s, P (rows s)) _ _ _ _ (tame_rule (uuid w) P P (tame_uuid w) (λ _ Hr, Hr)) _ s Hs). intros i s1 Hs1.
    exact (insert_rule (User i a "wallet" _ _ None None None None (w_clock w (ticks s1))) s1 Hs1).
Qed.
Lemma upsert_enoki_rule a key account : gives (upsertEnokiUser w a key account) a.
Proof.
  unfold upsertEnokiUser. eapply triple_bind; [apply find_rule|]. intros [u|] s [Hs Ho].
  - symmetry in Ho. apply find_some_in in Ho as [Hu Ha]. apply seqb_true in Ha. subst a.
    unfold enoki_write. destruct (is_some_text (us_delegatePrivateKey u)) eqn:Ek; [exact Hs|].
    refine (update_rule u (provision key account (w_clock w (ticks s))) _ _ _ s _); try done. intros l ss Hl Hin. by eapply closed_provision.
  - refine (triple_bind _ (λ _ s, P (rows s)) _ _ _ _ (tame_rule (uuid w) P P (tame_uuid w) (λ _ Hr, Hr)) _ s Hs). intros i s1 Hs1.
    exact (insert_rule (User i a "enoki" None _ None None (Some key) (Some account) (w_clock w (ticks s1))) s1 Hs1).
Qed.
Lemma insert_session_rule u se : se_userId se = Some (us_id u) → allowed (se_walletAddress se) →
  triple (λ s, owned (se_walletAddress se) u (rows s)) (insert_session w se) (λ _ s, P (rows s)) (λ _ s, P (rows s)).
Proof.
  intros Hid Ha. apply (external_rule _ (owned (se_walletAddress se) u) (λ _ r, P r) P); [by intros l ss [? ?]|].
  intros t s s' x (Hs & Hu & Hw) E. destruct (existsb _ _); [done|]. injection E as <- <-. unfold rows in *. cbn in *.
  by eapply closed_session.
Qed.
Lemma open_rule u a : allowed a → triple (λ s, owned a u (rows s)) (open_session w u a) (λ _ s, P (rows s)) (λ _ s, P (rows s)).
Proof.
  intros Ha. unfold open_session, createEnokiSession.
  eapply triple_bind; [apply (tame_rule (uuid w) (owned a u) P (tame_uuid w)); by intros r [? _]|]. intros i.
  eapply (triple_bind _ (λ _ s, P (rows s))); [|by intros [i1 x] s1 Hs].
  intros s Hs. pose proof (insert_session_rule u (Session i (Some (us_id u)) a "enoki" "enoki-zklogin" empty_str
    (w_clock w (ticks s)) (w_clock w (ticks s) + DAY_MS)) eq_refl Ha s Hs) as Hi.
  unfold now, mbind, st_bind. by destruct (insert_session w _ s) as [s' [e|x]].
Qed.
Lemma delete_rule i : inv (deleteSession w i).
Proof.
  unfold deleteSession. eapply (triple_bind _ (λ _ s, P (rows s))); [|intros u].
  - apply (external_rule _ P (λ _ r, P r) P); [done|]. by intros t s s' a Hs [= <- <-].
  - apply (external_rule _ P (λ _ r, P r) P); [done|]. intros t s s' a Hs [= <- <-]. exact (closed_delete P allowed HP _ _ _ Hs).
Qed.
End Closed.

(** ** Reading only *)
Section Frozen.
Context `{SuiSdk} (w : world).
Definition frozen {A} (m : NM A) : Prop := ∀ s, rows (fst (m s)) = rows s ∧ redis (fst (m s)) = redis s.
Lemma frozen_ret {A} (a : A) : frozen (mret a).
Proof. by intros s. Qed.
Lemma frozen_now : frozen (now w).
Proof. by intros s. Qed.
Lemma frozen_bind {A B} (m : NM A) (k : A → NM B) : frozen m → (∀ a, frozen (k a)) → frozen (m ≫= k).
Proof.
  intros Hm Hk s. unfold mbind, st_bind. destruct (Hm s) as [Hr Hd]. destruct (m s) as [s1 [e|a]]; [done|].
  destruct (Hk a s1) as [Hr' Hd']. simpl in *. by rewrite Hr', Hd'.
Qed.
Lemma frozen_find p : frozen (find_user w p).
Proof. intros s. unfold find_user, select, external. by destruct (w_down w _). Qed.
Lemma frozen_find_session i : frozen (find_session w i).
Proof. intros s. unfold find_session, select, external. by destruct (w_down w _). Qed.
Lemma frozen_context header : frozen (createContext w header).
Proof.
  unfold createContext. destruct (header _) as [i|]; [|apply frozen_ret]. destruct (is_empty i); [apply frozen_ret|].
  apply frozen_bind; [apply frozen_find_session|intros found]. apply frozen_bind; [apply frozen_now|intros t]. apply frozen_ret.
Qed.
Lemma frozen_address i : frozen (getUserAddressById w i).
Proof. unfold getUserAddressById. apply frozen_bind; [apply frozen_find|intros u; apply frozen_ret]. Qed.
Lemma frozen_client s : rows (fst (requireSharedRedisClient w s)) = rows s ∧ redis (fst (requireSharedRedisClient w s)) = redis s.
Proof. unfold requireSharedRedisClient. by destruct (w_redis_ready w _). Qed.

(** What [GETDEL] gives back is what was stored, and is gone. *)
Lemma get_del_run key s s' text : redis_get_del w key s = (s', inr (Some text)) →
  ∃ t e, redis s !! key = Some e ∧ live t e = true ∧ text = value_text (en_value e) ∧ redis s' = delete key (redis s) ∧ rows s' = rows s.
Proof.
  unfold redis_get_del, external. destruct (w_down w _); [done|]. unfold redis_get. cbn.
  destruct (redis s !! key) as [e|] eqn:Ek; [|done]. destruct (live _ e) eqn:El; [|done]. intros [= <- <-].
  eexists _, e. split; [done|]. split; [exact El|]. done.
Qed.
(** A challenge that verifies was stored for that address and purpose, was
    signed by it, and cannot be used again. *)
Lemma verify_run raw id signature p s s' : verifyAndConsumeEnokiChallenge w raw id signature p s = (s', inr true) →
  challenge_proof w (redis s) (normalizeSuiAddress raw) id signature p ∧
  redis s' = delete (CHALLENGE_REDIS_PREFIX +:+ id) (redis s) ∧ rows s' = rows s.
Proof.
  unfold verifyAndConsumeEnokiChallenge. destruct (_ || _); [done|]. intros Hv.
  apply bind_inr in Hv as (s1 & stored & Hv & Hk). unfold try_catch in Hv.
  destruct ((_ ← requireSharedRedisClient w; redis_get_del w (CHALLENGE_REDIS_PREFIX +:+ id)) s) as [s2 [e|o]] eqn:Er; [done|].
  injection Hv as -> ->. apply bind_inr in Er as (s3 & u & Hc & Hg). destruct (frozen_client s) as [Hr Hd]. rewrite Hc in Hr, Hd. simpl in *.
  destruct stored as [text|]; [|done]. destruct (is_empty text); [done|]. destruct (json_parse text) as [issued|] eqn:Ej; [|done].
  apply get_del_run in Hg as (t & e & He & Hl & -> & Hdel & Hrows). rewrite Hd in He, Hdel. rewrite Hr in Hrows.
  destruct (challenge_satisfied _ _ _ _ _) as [f|b] eqn:Ec; [done|]. injection Hk as <- ->.
  split; [|done]. unfold challenge_satisfied in Ec. destruct (read_of "message" issued) as [f|m] eqn:Em; [done|].
  assert (Hm : jget "message" issued = m) by (by destruct issued; simplify_eq/=). destruct m; try done.
  injection Ec as Ec. apply andb_true_iff in Ec as [Ec Hsig%bool_decide_eq_true]. apply andb_true_iff in Ec as [Ha Hp].
  assert (Htext : ∀ x v, equals_text x v = true → v = JStr x).
  { intros x v. unfold equals_text. destruct v; try done. by intros ->%seqb_true. }
  eexists t, e, issued, _. repeat (split; [by eauto|]). done.
Qed.
End Frozen.

(** ** The requests *)
Section Requests.
Context `{SuiSdk} (w : world) (P : table → Prop) (allowed : string → Prop) (HP : closed P allowed) (m0 : gmap string redis_entry).
Notation inv m := (invariant (λ s, P (rows s)) m).
Notation start m := (triple (λ s, P (rows s) ∧ redis s = m0) m (λ _ s, P (rows s)) (λ _ s, P (rows s))).

Lemma start_tame {A} (m : NM A) : tame m → start m.
Proof. intros Hm s [Hs _]. exact (Hm P s Hs). Qed.
Lemma start_bad {A} : start (bad_input (A := A)).
Proof. by intros s [Hs _]. Qed.
Lemma start_input {I A} (parse : json → option I) input (k : I → NM A) :
  (∀ i, parse input = Some i → start (k i)) → start (with_input parse input k).
Proof.
  intros Hk. unfold with_input. destruct input; try exact start_bad. destruct (parse _) as [i|]; [by apply Hk|exact start_bad].
Qed.
Lemma start_catch {A} known (m : NM A) : start m → start (as_trpc known m).
Proof.
  intros Hm s Hs. specialize (Hm s Hs). unfold as_trpc, try_catch. destruct (m s) as [s' [e|a]]; [by destruct e|done].
Qed.
Lemma prove_rule a id signature p :
  triple (λ s, P (rows s) ∧ redis s = m0) (prove_ownership w a id signature p)
    (λ _ s, P (rows s) ∧ challenge_proof w m0 (normalizeSuiAddress a) id signature p) (λ _ s, P (rows s)).
Proof.
  intros s [Hs Hm]. pose proof (tame_verify w a id signature p P s Hs) as Ht. pose proof (verify_run w a id signature p s) as Hv.
  unfold prove_ownership, try_catch, mbind, st_bind.
  destruct (verifyAndConsumeEnokiChallenge w a id signature p s) as [s' [e|[|]]]; [exact Ht| |exact Ht].
  destruct (Hv s' eq_refl) as (Hc & _). rewrite Hm in Hc. done.
Qed.
Lemma tame_pure {A} (m : NM A) (F : A → Prop) :
  tame m → (∀ s s' a, m s = (s', inr a) → F a) → triple (λ s, P (rows s)) m (λ a s, P (rows s) ∧ F a) (λ _ s, P (rows s)).
Proof.
  intros Hm HF s Hs. specialize (Hm P s Hs). destruct (m s) as [s' [e|a]] eqn:E; [exact Hm|]. split; [exact Hm|by eapply HF].
Qed.
Lemma binding_run privateKey accountId owner s s' u :
  assertDelegateAccountBinding w accountId owner (deriveDelegatePublicKeyHex w privateKey) s = (s', inr u) → key_proof w privateKey accountId owner.
Proof.
  unfold assertDelegateAccountBinding. destruct (negb _); [done|]. destruct (is_empty _); [done|]. intros Hb.
  apply bind_inr in Hb as (s1 & object & Hr & Hb). unfold try_catch, read_object in Hr.
  destruct (w_getObject w _ accountId) as [e|v] eqn:Eo; [done|]. injection Hr as <- <-.
  destruct (delegateAccountBindingError _ _ _ _ _ _) eqn:Ed; [done|]. by eexists _, _.
Qed.
Lemma enoki_user_run a s s' u : P (rows s) → getEnokiUserBySuiAddress w a s = (s', inr (Some u)) → u ∈ (rows s').1 ∧ us_suiAddress u = a.
Proof.
  intros Hs Hg. unfold getEnokiUserBySuiAddress in Hg. apply bind_inr in Hg as (s1 & o & Hf & Hg).
  pose proof (find_rule w P (λ u, at_address a u && seqb (us_authMethod u) "enoki") s Hs) as Hr. rewrite Hf in Hr. destruct Hr as [_ Hr].
  destruct o as [v|]; [|done]. destruct (provisioned v); [|done]. injection Hg as <- ->. symmetry in Hr.
  apply find_some_in in Hr as [Hin Ha]. apply andb_true_iff in Ha as [Ha _]. apply seqb_true in Ha. done.
Qed.

Lemma wallet_request input : (∀ a, proven w m0 input PConnectWallet a → allowed a) → start (connectWallet w input).
Proof.
  intros Ha. apply start_input. intros i Hi. apply start_catch. intros s [Hs _].
  destruct (w_verifyPersonalMessageSignature w _ _ None) as [signer|] eqn:Ev; [|exact Hs].
  destruct (negb (seqb signer (wi_address i))) eqn:Es; [exact Hs|]. apply negb_false_iff, seqb_true in Es. subst signer.
  assert (Hall : allowed (wi_address i)) by (by apply Ha, proven_wallet). revert s Hs.
  eapply triple_bind; [apply (upsert_wallet_rule w P allowed HP)|]. intros u.
  eapply triple_bind; [apply (tame_rule (uuid w) (λ r, P r ∧ u ∈ r.1 ∧ us_suiAddress u = wi_address i) P (tame_uuid w)); by intros r [? _]|]. intros sid s Hs.
  pose proof (insert_session_rule w P allowed HP u (Session sid (Some (us_id u)) (wi_address i) (wi_walletType i) (wi_message i) (wi_signature i)
    (w_clock w (ticks s)) (w_clock w (ticks s) + DAY_MS)) eq_refl Hall s Hs) as Hi'.
  unfold now, mbind, st_bind. by destruct (insert_session w _ s) as [s' [e|x]].
Qed.
Lemma open_last {B} u a (k : list (string * json) → B) : allowed a →
  triple (λ s, P (rows s) ∧ u ∈ (rows s).1 ∧ us_suiAddress u = a) (reply ← open_session w u a; mret (k reply)) (λ _ s, P (rows s)) (λ _ s, P (rows s)).
Proof. intros Ha. eapply triple_bind; [by apply (open_rule w P allowed HP)|]. by intros reply s Hs. Qed.
Lemma enoki_request input : (∀ a, proven w m0 input PConnectEnoki a → allowed a) → start (connectEnoki w input).
Proof.
  intros Ha. apply start_input. intros i Hi. apply start_catch. eapply triple_bind; [apply prove_rule|]. intros x0.
  destruct (ei_privateKey i) as [privateKey|] eqn:Ek, (ei_accountId i) as [accountId|] eqn:Ea; try (by intros s [Hs _]).
  - intros s [Hs Hc]. revert s Hs. eapply triple_bind; [apply (tame_pure _ (λ _, key_proof w privateKey accountId (Some (normalizeSuiAddress (ei_suiAddress i)))));
      [apply tame_binding|intros s s' u; apply binding_run]|]. intros u s [Hs Hk].
    assert (Hall : allowed (normalizeSuiAddress (ei_suiAddress i))).
    { apply Ha, proven_enoki; [done|done|]. intros k Hk'. exists accountId. congruence. }
    revert s Hs. eapply triple_bind; [apply (upsert_enoki_rule w P allowed HP)|]. intros v. by apply open_last.
  - intros s [Hs Hc]. assert (Hall : allowed (normalizeSuiAddress (ei_suiAddress i))).
    { apply Ha, proven_enoki; [done|done|]. intros k Hk. congruence. }
    pose proof (tame_enoki_user w (normalizeSuiAddress (ei_suiAddress i)) P s Hs) as Ht.
    pose proof (λ s' u, enoki_user_run (normalizeSuiAddress (ei_suiAddress i)) s s' u Hs) as Hu.
    unfold mbind, st_bind at 1. destruct (getEnokiUserBySuiAddress w _ s) as [s1 [e|[u|]]]; [exact Ht| |exact Ht].
    exact (open_last u _ _ Hall s1 (conj Ht (Hu s1 u eq_refl))).
Qed.
Lemma key_request header input : (∀ a, proven w m0 input PConnectDelegateKey a → allowed a) → start (connectDelegateKey w header input).
Proof.
  intros Ha. apply start_input. intros [privateKey accountId] Hi. apply start_catch. intros s [Hs _]. revert s Hs.
  eapply triple_bind; [exact (tame_limit w header P)|]. intros u.
  eapply triple_bind; [apply (tame_pure _ (λ _, key_proof w privateKey accountId None)); [apply tame_binding|intros s s' v; apply binding_run]|].
  intros v s [Hs Hk]. assert (Hall : allowed (key_address w (deriveDelegatePublicKeyHex w privateKey))) by (by apply Ha; econstructor).
  revert s Hs. eapply triple_bind; [apply (upsert_enoki_rule w P allowed HP)|]. intros x. by apply open_last.
Qed.
Lemma logout_request input : start (logout w input).
Proof.
  apply start_input. intros i _ s [Hs _]. revert s Hs. eapply triple_bind; [apply (delete_rule w P allowed HP)|]. by intros u s Hs.
Qed.
Lemma request_rule header p input : (∀ a, proven w m0 input p a → allowed a) → start (handle w header p input).
Proof.
  intros Ha s [Hs Hm]. destruct (frozen_context w header s) as [Hr Hd]. unfold handle, mbind, st_bind.
  destruct (createContext w header s) as [s1 [e|uid]]; simpl in *; [by rewrite Hr|].
  assert (Hs1 : P (rows s1) ∧ redis s1 = m0) by (by rewrite Hr, Hd).
  destruct p; cbv beta iota.
  - exact (start_tame _ (tame_get_session w input) s1 Hs1).
  - exact (logout_request input s1 Hs1).
  - exact (wallet_request input Ha s1 Hs1).
  - exact (start_tame _ (tame_issue_signin w input) s1 Hs1).
  - exact (enoki_request input Ha s1 Hs1).
  - destruct uid as [uid|]; [exact (start_tame _ (tame_issue_export w uid) s1 Hs1)|exact (proj1 Hs1)].
  - destruct uid as [uid|]; [exact (start_tame _ (tame_export w uid input) s1 Hs1)|exact (proj1 Hs1)].
  - exact (key_request header input Ha s1 Hs1).
Qed.
End Requests.

(** ** Sessions and credentials *)
(** The rows of a database: distinct ids and addresses, and each session
    belongs to the user of its address. *)
Definition wf (r : table) : Prop :=
  NoDup (us_id <$> r.1) ∧ NoDup (us_suiAddress <$> r.1) ∧
  ∀ se uid, se ∈ r.2 → se_userId se = Some uid → ∃ u, u ∈ r.1 ∧ us_id u = uid ∧ us_suiAddress u = se_walletAddress se.
Definition distinct (l : list user_row) : Prop := NoDup (us_id <$> l) ∧ NoDup (us_suiAddress <$> l).
Definition has_key (u : user_row) : bool := is_some_text (us_delegatePrivateKey u).
Definition same_credentials (u v : user_row) : Prop :=
  us_delegatePrivateKey v = us_delegatePrivateKey u ∧ us_delegateAccountId v = us_delegateAccountId u.
(** The user [u] keeps its id and address and, where [c] holds, the
    credentials it has. *)
Definition kept_user (c : Prop) (u : user_row) (l : list user_row) : Prop :=
  ∃ v, v ∈ l ∧ us_id v = us_id u ∧ us_suiAddress v = us_suiAddress u ∧ (c → has_key u = true → same_credentials u v).

(** *** Requests that overlap
    An upsert awaits its lookup before it writes, and other requests run in
    between.  A registration in flight is a thread that has not looked its
    row up yet, or that holds what its lookup found; what its request does
    before and after leaves the users alone ([il_other]).  A request that
    nothing interrupts is one step. *)
Inductive registration : Type :=
| WalletSignIn (address walletType : string)
| Provisioning (suiAddress delegatePrivateKey delegateAccountId : string).
Definition reg_address (r : registration) : string := match r with WalletSignIn a _ => a | Provisioning a _ _ => a end.
Definition reg_write (w : world) (r : registration) (existing : option user_row) : NM user_row :=
  match r with
  | WalletSignIn a walletType => wallet_write w a walletType existing
  | Provisioning a key account => enoki_write w a key account existing
  end.
(** The upsert as a whole. *)
Definition registering (w : world) (r : registration) : NM user_row :=
  match r with
  | WalletSignIn a walletType => upsertWalletUser w a walletType
  | Provisioning a key account => upsertEnokiUser w a key account
  end.
Inductive thread : Type :=
| Waiting (r : registration)
| Looked (r : registration) (existing : option user_row)
| Over.
Definition after_lookup (r : registration) (found : failure + option user_row) : thread :=
  match found with inl _ => Over | inr existing => Looked r existing end.
Inductive interleaved `{SuiSdk} : noter * gmap nat thread → noter * gmap nat thread → Prop :=
| il_request w header p input s ts : interleaved (s, ts) (fst (handle w header p input s), ts)
| il_arrive i r s ts : ts !! i = None → interleaved (s, ts) (s, <[i := Waiting r]> ts)
| il_look w i r s ts : ts !! i = Some (Waiting r) →
    interleaved (s, ts) (fst (find_user w (at_address (reg_address r)) s),
                         <[i := after_lookup r (snd (find_user w (at_address (reg_address r)) s))]> ts)
| il_write w i r existing s ts : ts !! i = Some (Looked r existing) →
    interleaved (s, ts) (fst (reg_write w r existing s), <[i := Over]> ts)
| il_other s s' ts : users s' = users s → interleaved (s, ts) (s', ts).
(** A provisioning in flight that saw the row of [uid] without a key. *)
Definition stale (uid : string) (ts : gmap nat thread) : Prop :=
  ∃ i a key account u, ts !! i = Some (Looked (Provisioning a key account) (Some u)) ∧ us_id u = uid ∧ has_key u = false.

Lemma set_where_map {B} (g : user_row → B) i f l : (∀ u, g (f u) = g u) → g <$> set_where (with_id i) f l = g <$> l.
Proof.
  intros Hg. unfold set_where. induction l as [|u l IH]; [done|]. cbn [map]. rewrite !fmap_cons, IH. f_equal. by destruct (with_id i u).
Qed.
Lemma set_where_in i f l u : u ∈ l → ∃ v, v ∈ set_where (with_id i) f l ∧ ((v = u ∧ us_id u ≠ i) ∨ (v = f u ∧ us_id u = i)).
Proof.
  intros Hu. exists (if with_id i u then f u else u). split.
  - apply list_elem_of_In, in_map_iff. exists u. split; [done|by apply list_elem_of_In].
  - destruct (with_id i u) eqn:E; [right|left; split; [done|]]; unfold with_id in E; [by apply seqb_true in E|]. intros Hi. by rewrite (proj2 (seqb_true _ _)) in E.
Qed.
Lemma wf_set l ss i f : (∀ u, us_id (f u) = us_id u) → (∀ u, us_suiAddress (f u) = us_suiAddress u) → wf (l, ss) → wf (set_where (with_id i) f l, ss).
Proof.
  intros Hi Ha (Hid & Had & Hse). unfold wf. cbn. rewrite !set_where_map by done. split; [done|]. split; [done|].
  intros se uid Hin Hu. destruct (Hse se uid Hin Hu) as (u & Hul & <- & Hw). destruct (set_where_in i f l u Hul) as (v & Hv & [[-> _]|[-> _]]).
  - by exists u.
  - exists (f u). by rewrite Hi, Ha.
Qed.
Lemma wf_insert l ss u : existsb (λ v, with_id (us_id u) v || at_address (us_suiAddress u) v) l = false → wf (l, ss) → wf (l ++ [u], ss).
Proof.
  intros Hf (Hid & Had & Hse).
  assert (Hn : ∀ v, v ∈ l → us_id v ≠ us_id u ∧ us_suiAddress v ≠ us_suiAddress u).
  { intros v Hv. assert (Hb : with_id (us_id u) v || at_address (us_suiAddress u) v = false).
    { destruct (with_id _ _ || _) eqn:E; [|done]. rewrite <-Hf. symmetry. apply existsb_exists. exists v. split; [by apply list_elem_of_In|done]. }
    apply orb_false_iff in Hb as [H1 H2]. unfold with_id, at_address in *.
    split; intros He; [by rewrite (proj2 (seqb_true _ _) He) in H1|by rewrite (proj2 (seqb_true _ _) He) in H2]. }
  split; [|split]; cbn.
  1-2: rewrite fmap_app; apply NoDup_app; split; [done|]; split; [|apply NoDup_singleton]; intros x Hx Hx';
    apply list_elem_of_fmap in Hx as (v & -> & Hv); apply list_elem_of_singleton in Hx'; by destruct (Hn v Hv).
  intros se uid Hin Hu. destruct (Hse se uid Hin Hu) as (v & Hv & ? & ?). exists v. split; [|done]. apply elem_of_app. by left.
Qed.
Lemma closed_wf (Q : table → Prop) (allowed : string → Prop) :
  (∀ l ss u walletType t, wf (l, ss) → Q (l, ss) → u ∈ l → Q (set_where (with_id (us_id u)) (touch_wallet walletType t) l, ss)) →
  (∀ l ss u key account t, wf (l, ss) → Q (l, ss) → u ∈ l → is_some_text (us_delegatePrivateKey u) = false →
     Q (set_where (with_id (us_id u)) (provision key account t) l, ss)) →
  (∀ l ss u, Q (l, ss) → Q (l ++ [u], ss)) →
  (∀ l ss se, Q (l, ss) → allowed (se_walletAddress se) → Q (l, ss ++ [se])) →
  (∀ l ss f, Q (l, ss) → Q (l, List.filter f ss)) →
  closed (λ r, wf r ∧ Q r) allowed.
Proof.
  intros H1 H2 H3 H4 H5. split.
  - intros l ss [(Hid & _) _]. exact Hid.
  - intros l ss u wt t [Hw Hq] Hu. split; [by apply wf_set|by apply H1].
  - intros l ss u k a t [Hw Hq] Hu Hk. split; [by apply wf_set|by apply H2].
  - intros l ss u [Hw Hq] Hf. split; [by apply wf_insert|by apply H3].
  - intros l ss u se [(Hid & Had & Hse) Hq] Hu Hw Hid' Hall. split; [|by apply H4]. split; [done|]. split; [done|].
    intros se' uid Hin Hu'. cbn in Hin. apply elem_of_app in Hin as [Hin| ->%list_elem_of_singleton]; [by apply Hse|].
    exists u. cbn. split; [done|]. split; [congruence|done].
  - intros l ss f [(Hid & Had & Hse) Hq]. split; [|by apply H5]. split; [done|]. split; [done|].
    intros se uid Hin Hu. apply Hse; [|done]. cbn in *. apply list_elem_of_In, filter_In in Hin as [Hin _]. by apply list_elem_of_In.
Qed.

Section Guarantees.
Context `{SuiSdk} (w : world).
(** C18: no session without a proof.  A session that a request opens belongs
    to an address that the request proved: by a wallet signature, by a
    sign-in challenge of that address that Redis held, signed by it, with an
    account of that owner for new credentials, or by a delegate key that an
    account on the chain lists, for the address of the key itself. *)
Theorem session_needs_proof header p input s se :
  wf (rows s) → se ∈ walletSessions (fst (handle w header p input s)) → se ∉ walletSessions s →
  proven w (redis s) input p (se_walletAddress se).
Proof.
  intros Hwf Hin Hnew. pose (proof := proven w (redis s) input p).
  pose (Q (r : table) := ∀ se, se ∈ r.2 → se ∈ walletSessions s ∨ proof (se_walletAddress se)).
  assert (HQ : closed (λ r, wf r ∧ Q r) proof).
  { apply closed_wf; unfold Q; cbn; try done.
    - intros l ss se' Hq Ha x Hx. apply elem_of_app in Hx as [Hx| ->%list_elem_of_singleton]; [by apply Hq|by right].
    - intros l ss f Hq x Hx. apply Hq. apply list_elem_of_In, filter_In in Hx as [Hx _]. by apply list_elem_of_In. }
  assert (Hs : (wf (rows s) ∧ Q (rows s)) ∧ redis s = redis s) by (split; [split; [done|by left]|done]).
  pose proof (request_rule w _ proof HQ (redis s) header p input (λ a Ha, Ha) s Hs) as Hr.
  assert (Hq : Q (rows (fst (handle w header p input s)))) by (destruct (handle w header p input s) as [s' [e|r]]; apply Hr).
  by destruct (Hq se Hin).
Qed.

(** The rows stay well-formed. *)
Lemma request_wf header p input s : wf (rows s) → wf (rows (fst (handle w header p input s))).
Proof.
  intros Hwf. assert (HQ : closed (λ r, wf r ∧ True) (λ _, True)) by (by apply closed_wf).
  pose proof (request_rule w _ _ HQ (redis s) header p input (λ a _, Logic.I) s (conj (conj Hwf Logic.I) eq_refl)) as Hr.
  destruct (handle w header p input s) as [s' [e|r]]; apply Hr.
Qed.
End Guarantees.

(** ** The export of a key *)
Section KeyExport.
Context `{SuiSdk} (w : world).
Lemma find_run p s s' o : find_user w p s = (s', inr o) → o = List.find p (users s) ∧ rows s' = rows s ∧ redis s' = redis s.
Proof. unfold find_user, select, external. destruct (w_down w _); [done|]. by intros [= <- <-]. Qed.
Lemma context_run header s s' uid : createContext w header s = (s', inr (Some uid)) →
  ∃ sid se, header "x-session-id" = Some sid ∧ se ∈ walletSessions s ∧ se_id se = sid ∧ se_userId se = Some uid ∧
    w_clock w (S (ticks s)) < se_expiresAt se.
Proof.
  unfold createContext. destruct (header _) as [sid|]; [|done]. destruct (is_empty sid); [done|].
  intros Hc. apply bind_inr in Hc as (s1 & found & Hf & Hc). apply bind_inr in Hc as (s2 & t & [= <- <-] & Hc). injection Hc as -> Hu.
  unfold find_session, select, external in Hf. destruct (w_down w _); [done|]. injection Hf as <- <-. cbn in Hu.
  destruct (List.find _ _) as [se|] eqn:Ef; [|done]. apply find_some_in in Ef as [Hin Hid%seqb_true]. cbn in Hu.
  destruct (se_userId se) as [u|] eqn:Eu; [|done]. destruct (negb (is_empty u) && _) eqn:Et; [|done].
  apply andb_true_iff in Et as [_ Et%Z.ltb_lt]. injection Hu as ->. by exists sid, se.
Qed.
Lemma as_trpc_run {A} known (m : NM A) s s' a : as_trpc known m s = (s', inr a) → m s = (s', inr a).
Proof. unfold as_trpc, try_catch. destruct (m s) as [s1 [e|b]]; [by destruct e|done]. Qed.
Lemma with_input_run {I A} (parse : json → option I) input (k : I → NM A) s s' a :
  with_input parse input k s = (s', inr a) → ∃ i, parse input = Some i ∧ k i s = (s', inr a).
Proof. unfold with_input. destruct input; try done. destruct (parse _) as [i|] eqn:Ei; [|done]. by exists i. Qed.
Lemma prove_run a id signature p s s' u : prove_ownership w a id signature p s = (s', inr u) →
  challenge_proof w (redis s) (normalizeSuiAddress a) id signature p ∧
  redis s' = delete (CHALLENGE_REDIS_PREFIX +:+ id) (redis s) ∧ rows s' = rows s.
Proof.
  intros Hp. apply bind_inr in Hp as (s1 & b & Hv & Hk). unfold try_catch in Hv.
  destruct (verifyAndConsumeEnokiChallenge w a id signature p s) as [s2 [e|[|]]] eqn:E; [done| |]; injection Hv as -> <-; [|done].
  injection Hk as ->. by apply verify_run.
Qed.

(** C19: a key is exported to its owner.  The reply is the key of the row of
    one address; the request carried a session, not expired, of a user of
    that address, and an export challenge of that address that Redis held,
    signed by it, which is gone afterwards. *)
Theorem key_export_owned header input s s' reply :
  handle w header PExportDelegateKey input s = (s', inr reply) →
  ∃ i sid se uid u owner key account,
    let a := normalizeSuiAddress (xi_suiAddress i) in
    parse_export input = Some i ∧
    (header "x-session-id" = Some sid ∧ se ∈ walletSessions s ∧ se_id se = sid ∧ se_userId se = Some uid ∧ w_clock w (S (ticks s)) < se_expiresAt se) ∧
    (u ∈ users s ∧ us_id u = uid ∧ normalizeSuiAddress (us_suiAddress u) = a) ∧
    challenge_proof w (redis s) (normalizeSuiAddress a) (xi_challengeId i) (xi_signature i) export ∧
    (owner ∈ users s ∧ us_suiAddress owner = a ∧ us_delegatePrivateKey owner = Some key ∧ us_delegateAccountId owner = Some account) ∧
    reply = JObj [("delegatePrivateKey", JStr key); ("delegateAccountId", JStr account)] ∧
    redis s' !! (CHALLENGE_REDIS_PREFIX +:+ xi_challengeId i) = None.
Proof.
  intros Hh. apply bind_inr in Hh as (s1 & userId & Hc & Hh). destruct userId as [uid|]; [|done].
  destruct (frozen_context w header s) as [Hr Hd]. rewrite Hc in Hr, Hd. simpl in Hr, Hd.
  apply context_run in Hc as (sid & se & Hsession).
  apply with_input_run in Hh as (i & Hi & Hh). apply as_trpc_run in Hh.
  apply bind_inr in Hh as (s2 & address & Ha & Hh). apply bind_inr in Ha as (s2' & found & Hf & [= <- <-]).
  apply find_run in Hf as (Hf & Hr2 & Hd2). destruct (own_address _ _) eqn:Eo; [|done]. simpl in Hh.
  destruct found as [u|]; [|done]. symmetry in Hf. apply find_some_in in Hf as [Hu Hid%seqb_true].
  simpl in Eo. apply andb_true_iff in Eo as [_ Eo%seqb_true].
  apply bind_inr in Hh as (s3 & x & Hp & Hh). apply prove_run in Hp as (Hproof & Hdel & Hr3).
  apply bind_inr in Hh as (s4 & key & Hk & Hh). apply bind_inr in Hk as (s4' & o & Hk & [= <- <-]).
  apply find_run in Hk as (Hk & Hr4 & Hd4). destruct o as [owner|]; [|done]. symmetry in Hk. apply find_some_in in Hk as [Ho Hoa%seqb_true].
  destruct (us_delegatePrivateKey owner) as [k|] eqn:Ek; [|done]. destruct (us_delegateAccountId owner) as [acc|] eqn:Eacc; [|done].
  destruct (provisioned owner); [|done]. injection Hh as <- <-. unfold rows in *. simplify_eq.
  exists i, sid, se, (us_id u), u, owner, k, acc. cbn zeta. split; [done|]. split; [done|]. split; [split; [congruence|done]|].
  split; [by rewrite <-Hd, <-Hd2|]. split; [split; [congruence|done]|]. split; [done|]. rewrite Hd4, Hdel. apply lookup_delete_eq.
Qed.

(** ** A challenge is for one purpose, and once *)
Lemma challenge_parses a m p : json_parse (challenge_text a m p) = Some (challenge_record a m p).
Proof.
  apply json_roundtrip. split; [|by repeat split].
  cbn. repeat (apply NoDup_cons; split; [by rewrite ?not_elem_of_cons; repeat split; try done; apply not_elem_of_nil|]). apply NoDup_nil_2.
Qed.
Lemma issue_run address p s s' c : issueEnokiChallenge w address p s = (s', inr c) →
  ∃ t, ch_message c = challenge_message p (normalizeSuiAddress address) (challengeId c) (w_clock w (S (ticks s))) ∧
    redis s' !! (CHALLENGE_REDIS_PREFIX +:+ challengeId c) =
      Some (Entry (RText (challenge_text (normalizeSuiAddress address) (ch_message c) p)) (Some (w_clock w t + 300000))) ∧ (ticks s < t)%nat.
Proof.
  intros Hi. apply bind_inr in Hi as (s1 & nonce & [= <- <-] & Hi). apply bind_inr in Hi as (s2 & t & [= <- <-] & Hi).
  apply bind_inr in Hi as (s3 & u & Hc & Hi). unfold requireSharedRedisClient in Hc. destruct (w_redis_ready w _); [|done]. injection Hc as <- <-.
  apply bind_inr in Hi as (s4 & stored & Hst & Hi). unfold redis_set_new, external in Hst. destruct (w_down w _); [done|]. cbn in Hst.
  destruct (redis_get _ _ _); injection Hst as <- <-; [done|]. injection Hi as <- <-. eexists. cbn.
  split; [done|]. split; [apply lookup_insert_eq|]. lia.
Qed.
(** Verified later, while Redis still holds it and answers: exactly for its
    address, its purpose and a signature of its message by that address; and
    it is gone afterwards, whatever the outcome. *)
Theorem challenge_scoped address p s s1 c s2 raw signature q :
  issueEnokiChallenge w address p s = (s1, inr c) → challengeId c ≠ empty_str → signature ≠ empty_str → (slen signature <= 8192)%nat →
  redis s2 !! (CHALLENGE_REDIS_PREFIX +:+ challengeId c) = redis s1 !! (CHALLENGE_REDIS_PREFIX +:+ challengeId c) →
  w_redis_ready w (S (ticks s2)) = true → w_down w (S (S (ticks s2))) = None →
  (∀ n, (ticks s < n)%nat → w_clock w (S (S (ticks s2))) < w_clock w n + 300000) →
  ∃ s3, redis s3 !! (CHALLENGE_REDIS_PREFIX +:+ challengeId c) = None ∧
    verifyAndConsumeEnokiChallenge w raw (challengeId c) signature q s2 =
      (s3, inr (seqb (normalizeSuiAddress raw) (normalizeSuiAddress address) && seqb (purpose_text q) (purpose_text p) &&
                bool_decide (w_verifyPersonalMessageSignature w (utf8 (ch_message c)) signature (Some (normalizeSuiAddress raw)) = Some (normalizeSuiAddress raw)))).
Proof.
  intros Hi Hid Hsig Hlen Hr Hready Hup Ht. apply issue_run in Hi as (t & _ & Hst & Htt). rewrite Hst in Hr. clear Hst s1.
  unfold verifyAndConsumeEnokiChallenge. destruct (is_empty (challengeId c)) eqn:E1; [by apply bool_decide_eq_true in E1|].
  destruct (is_empty signature) eqn:E2; [by apply bool_decide_eq_true in E2|]. unfold MAX_SIGNATURE_LENGTH.
  rewrite (proj2 (Nat.ltb_ge 8192 (slen signature)) Hlen). cbn [orb].
  unfold mbind, st_bind, try_catch, requireSharedRedisClient. cbn [ticks set_ticks]. rewrite Hready.
  unfold redis_get_del, external. cbn [ticks set_ticks redis]. rewrite Hup. unfold redis_get. rewrite Hr. unfold live. cbn [en_expires].
  rewrite (proj2 (Z.ltb_lt _ _) (Ht t Htt)). cbn [en_value value_text].
  destruct (is_empty (challenge_text _ _ _)) eqn:E3.
  { apply bool_decide_eq_true in E3. pose proof (challenge_parses (normalizeSuiAddress address) (ch_message c) p) as Hp. by rewrite E3 in Hp. }
  rewrite challenge_parses. eexists. split; [|unfold n_of_sum; reflexivity]. apply lookup_delete_eq.
Qed.
End KeyExport.

(** ** Overlapping registrations *)
Section Overlap.
Context `{SuiSdk}.
Lemma same_row l u v : distinct l → u ∈ l → v ∈ l → us_id u = us_id v → u = v.
Proof.
  intros [Hid _] Hu Hv He. apply list_elem_of_lookup in Hu as [i Hi], Hv as [j Hj]. assert (i = j) as ->; [|congruence].
  eapply NoDup_lookup; [exact Hid|by rewrite list_lookup_fmap, Hi|]. rewrite list_lookup_fmap, Hj. cbn. by rewrite He.
Qed.
Lemma distinct_set l i f : (∀ u, us_id (f u) = us_id u) → (∀ u, us_suiAddress (f u) = us_suiAddress u) → distinct l → distinct (set_where (with_id i) f l).
Proof. intros Hi Ha. unfold distinct. by rewrite !set_where_map. Qed.
Lemma distinct_insert l u : existsb (λ v, with_id (us_id u) v || at_address (us_suiAddress u) v) l = false → distinct l → distinct (l ++ [u]).
Proof.
  intros Hf [Hid Had]. destruct (wf_insert l [] u Hf) as (? & ? & _); [|done].
  split; [done|]. split; [done|]. intros se uid Hin. by apply elem_of_nil in Hin.
Qed.
Lemma kept_insert c u l v : kept_user c u l → kept_user c u (l ++ [v]).
Proof. intros (x & Hx & Hk). exists x. split; [apply elem_of_app; by left|done]. Qed.
Lemma kept_set c u l i f : distinct l → kept_user c u l → (∀ v, us_id (f v) = us_id v) → (∀ v, us_suiAddress (f v) = us_suiAddress v) →
  (c → has_key u = true → ∀ v, v ∈ l → us_id v = i → us_id v = us_id u → has_key v = true → same_credentials v (f v)) →
  kept_user c u (set_where (with_id i) f l).
Proof.
  intros Hl (v & Hv & Hid & Ha & Hk) Hfi Hfa Hf. destruct (set_where_in i f l v Hv) as (x & Hx & [[-> _]|[-> Hi]]); [by exists v|].
  exists (f v). rewrite Hfi, Hfa. split; [done|]. split; [done|]. split; [done|]. intros Hc Hu. destruct (Hk Hc Hu) as [Hkey Hacc].
  destruct (Hf Hc Hu v Hv Hi Hid) as [H1 H2]; [unfold has_key in *; by rewrite Hkey|]. split; congruence.
Qed.
(** A request that nothing interrupts keeps the users. *)
Lemma closed_kept c u : closed (λ r, distinct r.1 ∧ kept_user c u r.1) (λ _, True).
Proof.
  split; cbn.
  - by intros l ss [[? _] _].
  - intros l ss v walletType t [Hl Hk] Hv. split; [by apply distinct_set|by apply kept_set].
  - intros l ss v key account t [Hl Hk] Hv Hnone. split; [by apply distinct_set|]. apply kept_set; [done..|].
    intros _ _ x Hx Hi _ Hkey. assert (x = v) as -> by (by apply (same_row l)). unfold has_key in Hkey. congruence.
  - intros l ss v [Hl Hk] Hf. split; [by apply distinct_insert|by apply kept_insert].
  - by intros l ss v se Hs _ _ _ _.
  - by intros l ss f Hs.
Qed.
Lemma request_kept w header p input c u s : distinct (users s) → kept_user c u (users s) →
  distinct (users (fst (handle w header p input s))) ∧ kept_user c u (users (fst (handle w header p input s))).
Proof.
  intros Hl Hk. pose proof (request_rule w _ _ (closed_kept c u) (redis s) header p input (λ a _, Logic.I) s (conj (conj Hl Hk) eq_refl)) as Hr.
  destruct (handle w header p input s) as [s' [e|r]]; apply Hr.
Qed.
(** An upsert is its thread run alone. *)
Lemma registering_eq w r s : registering w r s = (find_user w (at_address (reg_address r)) ≫= reg_write w r) s.
Proof. by destruct r. Qed.
Lemma registering_alone w i r s ts : ts !! i = None → rtc interleaved (s, ts) (fst (registering w r s), <[i := Over]> ts).
Proof.
  intros Hi. rewrite registering_eq. eapply rtc_l; [exact (il_arrive i r s ts Hi)|]. eapply rtc_l; [apply (il_look w i r), lookup_insert_eq|].
  unfold mbind, st_bind. destruct (find_user w _ s) as [s1 [e|o]]; cbn [fst snd after_lookup]; rewrite insert_insert_eq; [apply rtc_refl|].
  eapply rtc_l; [apply (il_write w i r o), lookup_insert_eq|]. rewrite insert_insert_eq. apply rtc_refl.
Qed.
(** What a write does to the users: nothing, one update of the row that was
    looked up, or one insertion. *)
Lemma external_users {A} w (f : Z → noter → failure + (noter * A)) s :
  users (fst (external w f s)) = users s ∨ ∃ t s0 s' a, users s0 = users s ∧ f t s0 = inr (s', a) ∧ users (fst (external w f s)) = users s'.
Proof.
  unfold external. destruct (w_down w _); [by left|]. destruct (f _ _) as [e|[s' a]] eqn:E; [by left|].
  right. by eexists _, (set_ticks (S (ticks s)) s), s', a.
Qed.
Lemma returned_users {A} (m : NM (option A)) s : users (fst ((updated ← m; returned updated) s)) = users (fst (m s)).
Proof. unfold mbind, st_bind. by destruct (m s) as [s' [e|[a|]]]. Qed.
Lemma insert_users w u s : users (fst (insert_user w u s)) = users s ∨
  existsb (λ v, with_id (us_id u) v || at_address (us_suiAddress u) v) (users s) = false ∧ users (fst (insert_user w u s)) = users s ++ [u].
Proof.
  unfold insert_user. match goal with |- context [external w ?f s] => pose proof (external_users w f s) as Hw end; destruct Hw
    as [E|(t & s0 & s' & a & H0 & E & ->)];
    [by left|]. right. rewrite H0 in E. destruct (existsb _ _); [done|]. by injection E as <- <-.
Qed.
Lemma update_users w i f s : users (fst (update_user w i f s)) = users s ∨ users (fst (update_user w i f s)) = set_where (with_id i) f (users s).
Proof.
  unfold update_user. match goal with |- context [external w ?f s] => pose proof (external_users w f s) as Hw end; destruct Hw
    as [E|(t & s0 & s' & a & H0 & E & ->)]; [by left|]. right. injection E as <- _. cbn. by rewrite H0.
Qed.
Lemma write_users w r existing s : let l := users (fst (reg_write w r existing s)) in
  l = users s ∨
  (∃ u, existsb (λ v, with_id (us_id u) v || at_address (us_suiAddress u) v) (users s) = false ∧ l = users s ++ [u]) ∨
  (∃ u0 a walletType t, r = WalletSignIn a walletType ∧ l = set_where (with_id (us_id u0)) (touch_wallet walletType t) (users s)) ∨
  (∃ u0 a key account t, r = Provisioning a key account ∧ existing = Some u0 ∧ has_key u0 = false ∧
     l = set_where (with_id (us_id u0)) (provision key account t) (users s)).
Proof.
  destruct r as [a walletType|a key account], existing as [u0|]; cbn [reg_write wallet_write enoki_write].
  - unfold mbind, st_bind, now; cbv beta iota. 
    pose proof (returned_users (update_user w (us_id u0) (touch_wallet walletType (w_clock w (ticks s)))) s) as E.
    unfold mbind, st_bind in E. cbv beta in E. rewrite E. destruct (update_users w (us_id u0) (touch_wallet walletType (w_clock w (ticks s))) s) as [->| ->]; [by left|].
    right; right; left. by eexists u0, a, walletType, _.
  - unfold mbind, st_bind, now, uuid; cbv beta iota zeta.
    destruct (insert_users w (User (w_uuid w (ticks s)) a "wallet" (Some walletType) (Some (walletType +:+ " User")) None None None None
      (w_clock w (ticks (set_ticks (S (ticks s)) s)))) (set_ticks (S (ticks s)) s)) as [->|[Hf ->]]; [by left|]. right; left. by eexists.
  - fold (has_key u0). destruct (has_key u0) eqn:Ek; [by left|]. unfold mbind, st_bind, now; cbv beta iota.
    pose proof (returned_users (update_user w (us_id u0) (provision key account (w_clock w (ticks s)))) s) as E.
    unfold mbind, st_bind in E. cbv beta in E. rewrite E. destruct (update_users w (us_id u0) (provision key account (w_clock w (ticks s))) s) as [->| ->]; [by left|].
    right; right; right. by eexists u0, a, key, account, _.
  - unfold mbind, st_bind, now, uuid; cbv beta iota zeta.
    destruct (insert_users w (User (w_uuid w (ticks s)) a "enoki" None (Some "Enoki User") None None (Some key) (Some account)
      (w_clock w (ticks (set_ticks (S (ticks s)) s)))) (set_ticks (S (ticks s)) s)) as [->|[Hf ->]]; [by left|]. right; left. by eexists.
Qed.
Lemma find_users w p s : users (fst (find_user w p s)) = users s.
Proof. by destruct (frozen_find w p s) as [[= -> _] _]. Qed.
(** One step: no user is lost, and no thread sees a key that is there as
    missing. *)
Lemma stale_insert uid i t ts : stale uid (<[i := t]> ts) →
  stale uid ts ∨ ∃ a key account u, t = Looked (Provisioning a key account) (Some u) ∧ us_id u = uid ∧ has_key u = false.
Proof.
  intros (j & a & key & account & u & Hj & Hu). destruct (decide (j = i)) as [->|Hne].
  - rewrite lookup_insert_eq in Hj. injection Hj as ->. right. by exists a, key, account, u.
  - rewrite lookup_insert_ne in Hj by done. left. by exists j, a, key, account, u.
Qed.
Notation safe c u x := (distinct (users x.1) ∧ kept_user c u (users x.1) ∧ (c → has_key u = true → ¬ stale (us_id u) x.2)).
Lemma interleaved_safe c u x y : interleaved x y → safe c u x → safe c u y.
Proof.
  intros Hs (Hl & Hk & Hns). destruct Hs as [w header p input s ts|i r s ts Hi|w i r s ts Hi|w i r existing s ts Hi|s s' ts Hu]; cbn [fst snd] in *.
  - destruct (request_kept w header p input c u s Hl Hk). done.
  - split; [done|]. split; [done|]. intros Hc Hu [Hst|(a & k & acc & v & E & _)]%stale_insert; [by apply Hns|done].
  - rewrite find_users. split; [done|]. split; [done|]. intros Hc Hu [Hst|(a & k & acc & v & E & Hv & Hnone)]%stale_insert; [by apply Hns|].
    destruct (find_user w _ s) as [s1 [e|o]] eqn:Ef; [done|]. cbn in E. injection E as -> ->. apply find_run in Ef as (Hf & _ & _).
    symmetry in Hf. apply find_some_in in Hf as [Hv' _]. destruct Hk as (x & Hx & Hid & _ & Hcred). destruct (Hcred Hc Hu) as [Hkey _].
    assert (v = x) as -> by (apply (same_row (users s)); [done..|congruence]). unfold has_key in *. rewrite Hkey in Hnone. congruence.
  - assert (Hrest : c → has_key u = true → ¬ stale (us_id u) (<[i:=Over]> ts)).
    { intros Hc Hu [Hst|(a & k & acc & v & E & _)]%stale_insert; [by apply Hns|done]. }
    destruct (write_users w r existing s) as [->|[(v & Hf & ->)|[(u0 & a & wt & t & -> & ->)|(u0 & a & k & acc & t & -> & -> & Hnone & ->)]]].
    + done.
    + split; [by apply distinct_insert|]. split; [by apply kept_insert|done].
    + split; [by apply distinct_set|]. split; [by apply kept_set|done].
    + split; [by apply distinct_set|]. split; [|done]. apply kept_set; [done..|]. intros Hc Hu v Hv Hi0 Hiu Hkey.
      destruct (Hns Hc Hu). exists i, a, k, acc, u0. split; [done|]. split; [congruence|done].
  - rewrite Hu. done.
Qed.
Lemma runs_safe c u x y : rtc interleaved x y → safe c u x → safe c u y.
Proof. induction 1 as [x|x y z Hxy _ IH]; [done|]. intros Hx. by apply IH, (interleaved_safe c u x y). Qed.
(** C20: credentials are written once.  Requests of every kind come in any
    order and fail as they like, and registrations overlap: others run
    between the lookup and the write of one.  The rows keep distinct ids and
    addresses, every user keeps its id and address, and a user who has a
    delegate key keeps that key and its account, unless a provisioning was
    already in flight that had looked the row up while it had no key: the
    write is for the id alone and does not look again. *)
Theorem credentials_written_once s ts s' ts' u :
  rtc interleaved (s, ts) (s', ts') → distinct (users s) → u ∈ users s →
  distinct (users s') ∧
  ∃ v, v ∈ users s' ∧ us_id v = us_id u ∧ us_suiAddress v = us_suiAddress u ∧
    (¬ stale (us_id u) ts → has_key u = true → same_credentials u v).
Proof.
  intros Hs Hl Hu. assert (Hi : safe (¬ stale (us_id u) ts) u (s, ts)) by (split; [done|]; split; [by exists u|done]).
  assert (Hend : safe (¬ stale (us_id u) ts) u (s', ts')); [|by destruct Hend as (? & ? & _)].
  by apply (runs_safe _ _ _ _ Hs).
Qed.
End Overlap.

(** ** The key in nobody else's reply *)
Section Confidential.
Context `{SuiSdk} (w : world).
(** Users who differ in the text of their keys only. *)
Definition alike_user (u v : user_row) : Prop :=
  us_id v = us_id u ∧ us_suiAddress v = us_suiAddress u ∧ us_authMethod v = us_authMethod u ∧ us_walletType v = us_walletType u ∧
  us_name v = us_name u ∧ us_email v = us_email u ∧ us_avatar v = us_avatar u ∧
  is_some_text (us_delegatePrivateKey v) = is_some_text (us_delegatePrivateKey u) ∧
  us_delegateAccountId v = us_delegateAccountId u ∧ us_lastSeenAt v = us_lastSeenAt u.
Definition alike (s1 s2 : noter) : Prop :=
  Forall2 alike_user (users s1) (users s2) ∧ walletSessions s1 = walletSessions s2 ∧ zkLoginSessions s1 = zkLoginSessions s2 ∧
  redis s1 = redis s2 ∧ ticks s1 = ticks s2.
Definition agree {A} (R : A → A → Prop) (r1 r2 : failure + A) : Prop :=
  match r1, r2 with inl e1, inl e2 => e1 = e2 | inr a, inr b => R a b | _, _ => False end.
Definition blind {A} (R : A → A → Prop) (m1 m2 : NM A) : Prop := ∀ s1 s2, alike s1 s2 →
  alike (fst (m1 s1)) (fst (m2 s2)) ∧ agree R (snd (m1 s1)) (snd (m2 s2)).
Notation blind_eq m := (blind eq m m).

Lemma blind_ret {A} (R : A → A → Prop) a b : R a b → blind R (mret a) (mret b).
Proof. by intros Hr s1 s2 Hs. Qed.
Lemma blind_throw {A} (R : A → A → Prop) e : blind R (throw e) (throw e).
Proof. by intros s1 s2 Hs. Qed.
Lemma blind_bind {A B} (R : A → A → Prop) (R' : B → B → Prop) m1 m2 k1 k2 :
  blind R m1 m2 → (∀ a b, R a b → blind R' (k1 a) (k2 b)) → blind R' (m1 ≫= k1) (m2 ≫= k2).
Proof.
  intros Hm Hk s1 s2 Hs. destruct (Hm s1 s2 Hs) as [Ha Hr]. unfold mbind, st_bind.
  destruct (m1 s1) as [s1' [e1|a]], (m2 s2) as [s2' [e2|b]]; simpl in *; try done. by apply Hk.
Qed.
Lemma blind_then {A B} (R' : B → B → Prop) (m : NM A) k1 k2 : blind_eq m → (∀ a, blind R' (k1 a) (k2 a)) → blind R' (m ≫= k1) (m ≫= k2).
Proof. intros Hm Hk. eapply blind_bind; [exact Hm|]. by intros a b ->. Qed.
Lemma blind_catch {A} (R : A → A → Prop) m1 m2 h : blind R m1 m2 → (∀ e, blind R (h e) (h e)) → blind R (try_catch m1 h) (try_catch m2 h).
Proof.
  intros Hm Hh s1 s2 Hs. destruct (Hm s1 s2 Hs) as [Ha Hr]. unfold try_catch.
  destruct (m1 s1) as [s1' [e1|a]], (m2 s2) as [s2' [e2|b]]; simpl in *; try done. subst e2. by apply Hh.
Qed.
Lemma alike_ticks s1 s2 n : alike s1 s2 → alike (set_ticks n s1) (set_ticks n s2).
Proof. by intros (? & ? & ? & ? & _). Qed.
Lemma blind_external {A} (R : A → A → Prop) f g :
  (∀ t s1 s2, alike s1 s2 → agree (λ x y, alike x.1 y.1 ∧ R x.2 y.2) (f t s1) (g t s2)) → blind R (external w f) (external w g).
Proof.
  intros Hf s1 s2 Hs. assert (Ht : ticks s1 = ticks s2) by apply Hs. unfold external. cbn. rewrite <-Ht.
  pose proof (alike_ticks _ _ (S (ticks s1)) Hs) as Ha. destruct (w_down w _); [done|].
  specialize (Hf (w_clock w (S (ticks s1))) _ _ Ha). destruct (f _ _) as [e1|[s1' a]], (g _ _) as [e2|[s2' b]]; simpl in *; try done; by subst.
Qed.
(** A part that works on Redis, or on the sessions. *)
Lemma blind_now : blind_eq (now w).
Proof. intros s1 s2 Hs. split; [exact Hs|]. cbn. by destruct Hs as (_ & _ & _ & _ & ->). Qed.
Lemma blind_uuid : blind_eq (uuid w).
Proof. intros s1 s2 Hs. assert (Ht : ticks s1 = ticks s2) by apply Hs. cbn. rewrite Ht. split; [by apply alike_ticks|done]. Qed.
Lemma blind_client : blind_eq (requireSharedRedisClient w).
Proof.
  intros s1 s2 Hs. assert (Ht : ticks s1 = ticks s2) by apply Hs. unfold requireSharedRedisClient. cbn. rewrite Ht.
  destruct (w_redis_ready w _); (split; [by apply alike_ticks|done]).
Qed.
Lemma blind_object accountId : blind_eq (read_object w accountId).
Proof.
  intros s1 s2 Hs. assert (Ht : ticks s1 = ticks s2) by apply Hs. unfold read_object. cbn. rewrite Ht.
  destruct (w_getObject w _ _); (split; [by apply alike_ticks|done]).
Qed.
Lemma alike_redis s1 s2 m : alike s1 s2 → alike (set_redis m s1) (set_redis m s2).
Proof. by intros (? & ? & ? & ? & ?). Qed.
Lemma blind_set_new key value seconds : blind_eq (redis_set_new w key value seconds).
Proof.
  apply blind_external. intros t s1 s2 Hs. assert (Hr : redis s1 = redis s2) by apply Hs. rewrite Hr.
  destruct (redis_get _ _ _); cbn; [done|]. split; [by apply alike_redis|done].
Qed.
Lemma blind_get_del key : blind_eq (redis_get_del w key).
Proof.
  apply blind_external. intros t s1 s2 Hs. assert (Hr : redis s1 = redis s2) by apply Hs. rewrite Hr.
  destruct (redis_get _ _ _); cbn; [|done]. split; [by apply alike_redis|done].
Qed.
Lemma blind_eval ik gk il gl ttl : blind_eq (redis_eval w ik gk il gl ttl).
Proof.
  apply blind_external. intros t s1 s2 Hs. assert (Hr : redis s1 = redis s2) by apply Hs. rewrite Hr.
  destruct (rate_script _ _ _ _ _ _ _) as [[m r]|]; cbn; [|done]. split; [by apply alike_redis|done].
Qed.
Lemma blind_sum {A} (r : failure + A) : blind_eq (n_of_sum r).
Proof. destruct r; [apply blind_throw|by apply blind_ret]. Qed.
Lemma blind_find_session i : blind_eq (find_session w i).
Proof. apply blind_external. intros t s1 s2 Hs. cbn. split; [done|]. by destruct Hs as (_ & -> & _). Qed.

(** The rows of users. *)
Definition alike_option (o1 o2 : option user_row) : Prop :=
  match o1, o2 with Some u, Some v => alike_user u v | None, None => True | _, _ => False end.
Definition respects (p : user_row → bool) : Prop := ∀ u v, alike_user u v → p v = p u.
Lemma alike_find p l1 l2 : respects p → Forall2 alike_user l1 l2 → alike_option (List.find p l1) (List.find p l2).
Proof.
  intros Hp Hl. induction Hl as [|u v l1 l2 Huv _ IH]; [done|]. cbn. rewrite (Hp u v Huv). by destruct (p u).
Qed.
Lemma alike_exists p l1 l2 : respects p → Forall2 alike_user l1 l2 → existsb p l2 = existsb p l1.
Proof. intros Hp Hl. induction Hl as [|u v l1 l2 Huv _ IH]; [done|]. cbn. by rewrite (Hp u v Huv), IH. Qed.
Lemma respects_id i : respects (with_id i).
Proof. intros u v (He & _). unfold with_id. by rewrite He. Qed.
Lemma respects_address a : respects (at_address a).
Proof. intros u v (_ & He & _). unfold at_address. by rewrite He. Qed.
Lemma blind_find p : respects p → blind alike_option (find_user w p) (find_user w p).
Proof. intros Hp. apply blind_external. intros t s1 s2 Hs. cbn. split; [done|]. apply alike_find; [done|apply Hs]. Qed.
Lemma alike_users s1 s2 l1 l2 : alike s1 s2 → Forall2 alike_user l1 l2 → alike (set_users l1 s1) (set_users l2 s2).
Proof. by intros (_ & ? & ? & ? & ?). Qed.
Lemma blind_update i f g : (∀ u v, alike_user u v → alike_user (f u) (g v)) → blind alike_option (update_user w i f) (update_user w i g).
Proof.
  intros Hf. apply blind_external. intros t s1 s2 Hs.
  assert (Hl : Forall2 alike_user (set_where (with_id i) f (users s1)) (set_where (with_id i) g (users s2))).
  { destruct Hs as (Hu & _). unfold set_where. induction Hu as [|u v l1 l2 Huv _ IH]; [done|]. cbn. rewrite (respects_id i u v Huv).
    constructor; [|exact IH]. destruct (with_id i u); [by apply Hf|done]. }
  cbn. split; [by apply alike_users|]. by apply alike_find; [apply respects_id|].
Qed.
Lemma blind_insert u : blind alike_user (insert_user w u) (insert_user w u).
Proof.
  apply blind_external. intros t s1 s2 Hs. assert (Hu : Forall2 alike_user (users s1) (users s2)) by apply Hs.
  rewrite (alike_exists _ (users s1) (users s2)); [|intros x y Hxy; by rewrite (respects_id _ x y Hxy), (respects_address _ x y Hxy)|done].
  destruct (existsb _ _); cbn; [done|]. split; [|done]. apply alike_users; [done|]. apply Forall2_app; [done|]. by constructor.
Qed.
Lemma blind_insert_session se : blind_eq (insert_session w se).
Proof.
  apply blind_external. intros t s1 s2 Hs. assert (He : walletSessions s1 = walletSessions s2) by apply Hs. rewrite <-He.
  destruct (existsb _ _); cbn; [done|]. split; [|done]. destruct Hs as (? & _ & ? & ? & ?). done.
Qed.
Lemma blind_returned (o1 o2 : option user_row) : alike_option o1 o2 → blind alike_user (returned o1) (returned o2).
Proof. by destruct o1, o2; intros Ho; [apply blind_ret| | |]. Qed.
Lemma alike_touch walletType t u v : alike_user u v → alike_user (touch_wallet walletType t u) (touch_wallet walletType t v).
Proof. intros (? & ? & ? & ? & ? & ? & ? & ? & ? & ?). done. Qed.
Lemma alike_provision key account t u v : alike_user u v → alike_user (provision key account t u) (provision key account t v).
Proof. intros (? & ? & ? & ? & ? & ? & ? & ? & ? & ?). done. Qed.
Lemma alike_safe u v : alike_user u v → toSafeUser v = toSafeUser u.
Proof. intros (? & ? & ? & ? & ? & ? & ? & ? & ? & ?). unfold toSafeUser. congruence. Qed.
Lemma blind_upsert_wallet a walletType : blind alike_user (upsertWalletUser w a walletType) (upsertWalletUser w a walletType).
Proof.
  eapply blind_bind; [apply blind_find, respects_address|]. unfold wallet_write. intros [u|] [v|] Huv; try done.
  - apply blind_then; [apply blind_now|intros t]. cbn in Huv. assert (us_id v = us_id u) as -> by apply Huv.
    eapply blind_bind; [apply blind_update; intros x y; apply alike_touch|apply blind_returned].
  - apply blind_then; [apply blind_uuid|intros i]. apply blind_then; [apply blind_now|intros t]. apply blind_insert.
Qed.
Lemma blind_upsert_enoki a key account : blind alike_user (upsertEnokiUser w a key account) (upsertEnokiUser w a key account).
Proof.
  eapply blind_bind; [apply blind_find, respects_address|]. unfold enoki_write. intros [u|] [v|] Huv; try done.
  - cbn in Huv. assert (us_id v = us_id u) as -> by apply Huv. assert (is_some_text (us_delegatePrivateKey v) = is_some_text (us_delegatePrivateKey u)) as -> by apply Huv.
    destruct (is_some_text _); [apply blind_throw|]. apply blind_then; [apply blind_now|intros t].
    eapply blind_bind; [apply blind_update; intros x y; apply alike_provision|apply blind_returned].
  - apply blind_then; [apply blind_uuid|intros i]. apply blind_then; [apply blind_now|intros t]. apply blind_insert.
Qed.
Lemma blind_open u v a : alike_user u v → blind eq (open_session w u a) (open_session w v a).
Proof.
  intros Huv. assert (Hid : us_id v = us_id u) by apply Huv. unfold open_session, createEnokiSession. apply blind_then; [apply blind_uuid|intros i]. rewrite Hid.
  apply blind_then; [|intros [j x]; apply blind_ret; unfold session_reply; by rewrite (alike_safe u v)].
  apply blind_then; [apply blind_now|intros t]. apply blind_then; [apply blind_insert_session|intros y; by apply blind_ret].
Qed.

(** The procedures. *)
Create HintDb blind discriminated.
Hint Resolve blind_now blind_uuid blind_client blind_object blind_set_new blind_get_del blind_eval blind_sum blind_find_session : blind.
Ltac blind :=
  repeat first [apply blind_throw | apply blind_ret; reflexivity | solve [eauto with blind] | apply blind_then; [|intros ?]
               | apply blind_catch; [|intros ?] | case_match].
Lemma blind_issue a p : blind_eq (issueEnokiChallenge w a p).
Proof. unfold issueEnokiChallenge. blind. Qed.
Lemma blind_verify a i sg p : blind_eq (verifyAndConsumeEnokiChallenge w a i sg p).
Proof. unfold verifyAndConsumeEnokiChallenge. blind. Qed.
Lemma blind_binding accountId owner key : blind_eq (assertDelegateAccountBinding w accountId owner key).
Proof. unfold assertDelegateAccountBinding. blind. Qed.
Lemma blind_limit header : blind_eq (checkPublicAuthRateLimit w header).
Proof. unfold checkPublicAuthRateLimit. blind. Qed.
Lemma blind_context header : blind_eq (createContext w header).
Proof. unfold createContext. blind. Qed.
Lemma blind_address i : blind_eq (getUserAddressById w i).
Proof.
  eapply blind_bind; [apply blind_find, respects_id|]. intros [u|] [v|] Huv; try done; apply blind_ret.
  cbn. f_equal. symmetry. apply Huv.
Qed.
Lemma blind_delete i : blind_eq (deleteSession w i).
Proof.
  unfold deleteSession. apply blind_then; [|intros u]; apply blind_external; intros t s1 s2 (? & He & Hz & ? & ?); cbn; (split; [|done]).
  - by rewrite Hz.
  - by rewrite He.
Qed.
Lemma blind_active i : blind_eq (getActiveSession w i).
Proof.
  unfold getActiveSession. apply blind_then; [apply blind_find_session|intros found]. apply blind_then; [apply blind_now|intros t].
  destruct (session_user t found) as [[row uid]|]; [|by apply blind_ret].
  eapply blind_bind; [apply blind_find, respects_id|]. intros [u|] [v|] Huv; try done; apply blind_ret.
  cbn in Huv. rewrite (alike_safe u v Huv). assert (us_suiAddress v = us_suiAddress u) as -> by apply Huv. done.
Qed.
Lemma blind_enoki_user a : blind alike_option (getEnokiUserBySuiAddress w a) (getEnokiUserBySuiAddress w a).
Proof.
  eapply blind_bind; [apply blind_find|].
  - intros u v Huv. rewrite (respects_address a u v Huv). by destruct Huv as (_ & _ & -> & _).
  - intros [u|] [v|] Huv; try done; apply blind_ret. cbn in Huv.
    assert (provisioned v = provisioned u) as ->.
    { destruct Huv as (_ & _ & _ & _ & _ & _ & _ & Hk & Ha & _). unfold provisioned. by rewrite Hk, Ha. }
    by destruct (provisioned u).
Qed.
Hint Resolve blind_issue blind_verify blind_binding blind_limit blind_context blind_address blind_delete blind_active : blind.
Lemma blind_input {I} (parse : json → option I) input (k : I → NM json) : (∀ i, blind_eq (k i)) → blind_eq (with_input parse input k).
Proof. intros Hk. unfold with_input, bad_input. destruct input; try apply blind_throw. destruct (parse _); [by apply Hk|apply blind_throw]. Qed.
Lemma blind_trpc known (m : NM json) : blind_eq m → blind_eq (as_trpc known m).
Proof. intros Hm. apply blind_catch; [exact Hm|]. intros e. destruct e; apply blind_throw. Qed.
Lemma blind_prove a i sg p : blind_eq (prove_ownership w a i sg p).
Proof. unfold prove_ownership. blind. Qed.
Lemma blind_session u v a (k : list (string * json) → json) : alike_user u v →
  blind eq (reply ← open_session w u a; mret (k reply)) (reply ← open_session w v a; mret (k reply)).
Proof. intros Huv. eapply blind_bind; [by apply blind_open|]. intros x y ->. by apply blind_ret. Qed.
Lemma blind_register a key account (k : list (string * json) → json) :
  blind_eq (u ← upsertEnokiUser w a key account; reply ← open_session w u a; mret (k reply)).
Proof. eapply blind_bind; [apply blind_upsert_enoki|]. intros u v Huv. by apply blind_session. Qed.

(** C21: only the export gives keys out.  Two servers that differ in nothing
    but the texts of the stored private keys answer every other request
    alike, and stay alike: no reply, error or later state depends on a key. *)
Theorem delegate_keys_confidential header p input : p ≠ PExportDelegateKey → blind_eq (handle w header p input).
Proof.
  intros Hp. unfold handle. apply blind_then; [apply blind_context|intros uid]. destruct p; try done.
  - apply blind_input. intros i. apply blind_active.
  - apply blind_input. intros i. blind.
  - apply blind_input. intros i. apply blind_trpc. destruct (w_verifyPersonalMessageSignature _ _ _ _) as [signer|]; [|apply blind_throw].
    destruct (negb _); [apply blind_throw|]. eapply blind_bind; [apply blind_upsert_wallet|]. intros u v Huv.
    apply blind_then; [apply blind_uuid|intros sid]. apply blind_then; [apply blind_now|intros t].
    assert (us_id v = us_id u) as -> by apply Huv. apply blind_then; [apply blind_insert_session|intros x].
    apply blind_ret. unfold session_reply. by rewrite (alike_safe u v Huv).
  - apply blind_input. intros i. apply blind_trpc. blind.
  - apply blind_input. intros i. apply blind_trpc. apply blind_then; [apply blind_prove|intros x].
    destruct (ei_privateKey i) as [key|], (ei_accountId i) as [account|]; try apply blind_throw.
    + apply blind_then; [apply blind_binding|intros y]. apply blind_register.
    + eapply blind_bind; [apply blind_enoki_user|]. intros [u|] [v|] Huv; try done. by apply blind_session.
  - destruct uid as [uid|]; [|apply blind_throw]. apply blind_trpc. apply blind_then; [apply blind_address|intros a]. blind.
  - apply blind_input. intros [key account]. apply blind_trpc. apply blind_then; [apply blind_limit|intros x].
    apply blind_then; [apply blind_binding|intros y]. apply blind_register.
Qed.
End Confidential.

(** ** The limit of public requests *)
Lemma redis_count_incr t ttl key m n : 0 < ttl → redis_count t key m = Some n → redis_count t key (redis_incr t ttl key m) = Some (n + 1).
Proof.
  intros Ht. unfold redis_count, redis_incr, redis_get.
  assert (Hnew : live t (Entry (RCount 1) (Some (t + 1000 * ttl))) = true) by (apply Z.ltb_lt; lia).
  destruct (m !! key) as [[[x|x] e]|] eqn:Em.
  - cbn [en_value]. destruct (live t (Entry (RText x) e)); intros [= <-]. rewrite lookup_insert_eq. change (0 + 1) with 1.
    cbn -[Z.mul live]. by rewrite Hnew.
  - cbn [en_value]. destruct (live t (Entry (RCount x) e)) eqn:El; intros [= <-]; rewrite lookup_insert_eq.
    + destruct (x + 1 =? 1) eqn:Ex; [|unfold live in *; cbn in *; by rewrite El]. unfold live in *. cbn -[Z.mul] in *. by rewrite Hnew.
    + change (0 + 1) with 1. cbn -[Z.mul live]. by rewrite Hnew.
  - intros [= <-]. rewrite lookup_insert_eq. change (0 + 1) with 1. cbn -[Z.mul live]. by rewrite Hnew.
Qed.
Lemma redis_count_other t ttl key key' m : key ≠ key' → redis_count t key (redis_incr t ttl key' m) = redis_count t key m.
Proof.
  intros Hne. unfold redis_count, redis_get, redis_incr. destruct (match m !! key' with Some _ => _ | None => _ end) as [n x].
  by rewrite lookup_insert_ne.
Qed.
(** A request is admitted when both counts are below their limits, and then
    counts once in each; a refused one changes nothing. *)
Theorem rate_script_spec t ik gk il gl ttl m m' r : ik ≠ gk → 0 < ttl → rate_script t ik gk il gl ttl m = Some (m', r) →
  ∃ i g, redis_count t ik m = Some i ∧ redis_count t gk m = Some g ∧
    ((r = 1 ∧ i < il ∧ g < gl ∧ redis_count t ik m' = Some (i + 1) ∧ redis_count t gk m' = Some (g + 1)) ∨
     (r = 0 ∧ (il <= i ∨ gl <= g) ∧ m' = m)).
Proof.
  intros Hne Ht. unfold rate_script. destruct (redis_count t ik m) as [i|] eqn:Ei; [|done]. destruct (redis_count t gk m) as [g|] eqn:Eg; [|done].
  intros Hr. exists i, g. split; [done|]. split; [done|]. destruct (_ || _) eqn:E; injection Hr as <- <-.
  - right. split; [done|]. split; [|done]. apply orb_true_iff in E as [E|E]; bool_to_prop; [left|right]; lia.
  - left. apply orb_false_iff in E as [E1 E2]. bool_to_prop. split; [done|]. split; [lia|]. split; [lia|]. split.
    + rewrite redis_count_other by done. by apply redis_count_incr.
    + apply redis_count_incr; [done|]. rewrite redis_count_other by done. done.
Qed.

(** ** Logging in with a key works once *)
Section Once.
Context `{SuiSdk} (w : world).
Lemma tame_rows {A} (m : NM A) s s' a : tame m → m s = (s', inr a) → rows s' = rows s.
Proof. intros Hm E. specialize (Hm (λ r, r = rows s) s eq_refl). by rewrite E in Hm. Qed.
(** A second login with the same delegate key never succeeds: its row has the
    key already, which [upsertEnokiUser] refuses. *)
Theorem key_login_once header input key account u s s' r :
  parse_key input = Some (key, account) → NoDup (us_suiAddress <$> users s) → u ∈ users s →
  us_suiAddress u = key_address w (deriveDelegatePublicKeyHex w key) → is_some_text (us_delegatePrivateKey u) = true →
  connectDelegateKey w header input s = (s', r) → is_inl r = true.
Proof.
  intros Hp Hnd Hu Ha Hk Hc. destruct r as [e|reply]; [done|]. exfalso.
  apply with_input_run in Hc as (i & Hi & Hc). rewrite Hp in Hi. injection Hi as <-. cbn beta iota in Hc. apply as_trpc_run in Hc.
  apply bind_inr in Hc as (s1 & x & H1 & Hc). apply tame_rows in H1; [|apply tame_limit].
  apply bind_inr in Hc as (s2 & y & H2 & Hc). apply tame_rows in H2; [|apply tame_binding].
  apply bind_inr in Hc as (s3 & v & H3 & Hc). unfold upsertEnokiUser in H3. apply bind_inr in H3 as (s4 & o & Hf & H3).
  apply find_run in Hf as (Hf & _ & _). unfold rows in *. injection H1 as H1 _. injection H2 as H2 _. rewrite H2, H1 in Hf.
  destruct o as [v'|].
  - symmetry in Hf. apply find_some_in in Hf as [Hv Hva%seqb_true]. assert (v' = u) as ->; [|unfold enoki_write in H3; by rewrite Hk in H3].
    apply list_elem_of_lookup in Hv as [i Hi], Hu as [j Hj]. assert (i = j) as ->; [|congruence].
    eapply NoDup_lookup; [exact Hnd|by rewrite list_lookup_fmap, Hi|]. rewrite list_lookup_fmap, Hj. cbn. congruence.
  - symmetry in Hf. eapply List.find_none in Hf; [|by apply list_elem_of_In]. unfold at_address in Hf. by rewrite (proj2 (seqb_true _ _) Ha) in Hf.
Qed.
End Once.

(** ** A day of the Noter *)
Module ExampleNoter.
Definition digit64 (c : ascii) : string := "0x" +:+ of_chars (replicate 64 c).
Definition alice : string := digit64 "a".
Definition alice_account : string := digit64 "b".
Definition key : string := of_chars (replicate 64 "1"%char).
(** A signature is valid if it names its signer; a public key is its private
    key; the chain has one account, of Alice, that lists the key. *)
Definition account : json :=
  JObj [("type", JStr ("0x7::account::MemWalAccount"));
        ("json", JObj [("active", JBool true); ("owner", JStr alice); ("delegate_keys", JArr [JObj [("public_key", JArr (replicate 32 (jint 17)))]])])].
Definition w : world :=
  {| w_env := λ _, None; w_clock := λ n, Z.of_nat n; w_down := λ _, None; w_redis_ready := λ _, true; w_uuid := λ n, "uuid-" +:+ pretty n;
     w_verifyPersonalMessageSignature := λ _ signature _, if is_full_address signature then Some signature else None;
     w_getPublicKey := λ l, l; w_blake2b := λ l, take 32 l; w_fromBase64 := λ s, Some (Base64.from_base64 s);
     w_getObject := λ _ i, if seqb i alice_account then inr account else inl (plain_error "not found");
     w_isUuid := λ _, true; w_isIP := λ _, true; w_memwalPackageId := "0x7" |}.
Definition empty_noter : noter := Noter [] [] [] ∅ 0.
Definition no_header (_ : string) : option string := None.
Definition session_header (i : string) (name : string) : option string := if seqb name "x-session-id" then Some i else None.
Definition requested (header : string → option string) (p : procedure) (input : json) (s : noter) : noter := fst (handle w header p input s).
Definition reply_code (header : string → option string) (p : procedure) (input : json) (s : noter) : string :=
  match snd (handle w header p input s) with inl (TRPC code _) => code | inl _ => "?" | inr _ => "OK" end.

(** Alice registers: a challenge, then her key and account. *)
Definition ask_signin : json := JObj [("suiAddress", JStr alice)].
Definition signed (id : string) : list (string * json) := [("suiAddress", JStr alice); ("challengeId", JStr id); ("signature", JStr alice)].
Definition register (id : string) : json := JObj (signed id ++ [("privateKey", JStr key); ("accountId", JStr alice_account)]).
Definition s1 : noter := requested no_header PIssueEnokiChallenge ask_signin empty_noter.
Definition s2 : noter := requested no_header PConnectEnoki (register "uuid-0") s1.
(** She asks for an export with the session of the registration. *)
Definition alice_session : string := default empty_str (se_id <$> head (walletSessions s2)).
Definition s3 : noter := requested (session_header "uuid-9") PIssueExportChallenge JUndefined s2.
Example registered : (us_suiAddress <$> users s2, us_delegatePrivateKey <$> users s2, alice_session, map (fst) (map_to_list (redis s3))) =
  ([alice], [Some key], "uuid-9", ["enoki-auth:challenge:uuid-13"]).
Proof. vm_compute. reflexivity. Qed.
(** The challenge of a sign-in neither serves twice nor exports. *)
Example replays :
  (reply_code no_header PConnectEnoki (register "uuid-0") s2,
   reply_code (session_header "uuid-9") PExportDelegateKey (JObj (signed "uuid-13")) s3,
   reply_code (session_header "uuid-9") PExportDelegateKey (JObj (signed "uuid-0")) s3,
   reply_code no_header PConnectEnoki (JObj (signed "uuid-13")) s3,
   reply_code no_header PExportDelegateKey (JObj (signed "uuid-13")) s3) =
  ("UNAUTHORIZED", "OK", "UNAUTHORIZED", "UNAUTHORIZED", "UNAUTHORIZED").
Proof. vm_compute. reflexivity. Qed.
(** A login by key alone: the second one is refused. *)
Definition key_login : json := JObj [("privateKey", JStr key); ("accountId", JStr alice_account)].
Example second_key_login :
  (reply_code no_header PConnectDelegateKey key_login empty_noter,
   reply_code no_header PConnectDelegateKey key_login (requested no_header PConnectDelegateKey key_login empty_noter)) = ("OK", "CONFLICT").
Proof. vm_compute. reflexivity. Qed.
(** A wallet login takes any message that the wallet ever signed, and takes
    it again. *)
Definition wallet_login : json :=
  JObj [("walletType", JStr "slush"); ("address", JStr alice); ("signature", JStr alice); ("message", JStr "I like cats")].
Example replayed_wallet_login :
  (reply_code no_header PConnectWallet wallet_login empty_noter,
   length (walletSessions (requested no_header PConnectWallet wallet_login (requested no_header PConnectWallet wallet_login empty_noter)))) = ("OK", 2%nat).
Proof. vm_compute. reflexivity. Qed.
(** A key that the chain gives in hexadecimal is read as base64. *)
Example hex_key_unlisted : lists_key w key (JObj [("public_key", JStr key)]) = false.
Proof. vm_compute. reflexivity. Qed.

Definition wallet_session : session_row := Session "uuid-1" (Some "uuid-1") alice "slush" "I like cats" alice 2 86400002.
Lemma wf_empty : wf (rows empty_noter).
Proof. split; [apply NoDup_nil_2|]. split; [apply NoDup_nil_2|]. intros se uid Hin. by apply elem_of_nil in Hin. Qed.
Lemma session_needs_proof_witness : ∃ a, proven w (redis empty_noter) wallet_login PConnectWallet a ∧ a = alice.
Proof.
  exists (se_walletAddress (Session "uuid-3" (Some "uuid-1") alice "slush" "I like cats" alice 4 86400004)). split; [|reflexivity].
  apply (session_needs_proof w no_header PConnectWallet wallet_login empty_noter); [exact wf_empty| |apply not_elem_of_nil].
  apply list_elem_of_In. vm_compute. left. reflexivity.
Defined.
(** Alice, who has her key, registers another one. *)
Definition other_key : string := of_chars (replicate 64 "2"%char).
Definition second : registration := Provisioning alice other_key alice_account.
Definition s2_again : noter := fst (registering w second s2).
Lemma credentials_written_once_witness : ∃ v, v ∈ users s2_again ∧ us_delegatePrivateKey v = Some key.
Proof.
  assert (Hu : ∃ u, u ∈ users s2 ∧ us_delegatePrivateKey u = Some key).
  { eexists. split; [apply list_elem_of_In; vm_compute; left; reflexivity|reflexivity]. }
  destruct Hu as (u & Hu & Hk). assert (Hd : distinct (users s2)) by (apply (bool_decide_unpack _); vm_compute; exact Logic.I).
  destruct (credentials_written_once s2 ∅ s2_again (<[0%nat := Over]> ∅) u) as (_ & v & Hv & _ & _ & Hc); [|exact Hd|exact Hu|].
  - apply registering_alone, lookup_empty.
  - exists v. split; [exact Hv|]. destruct Hc as [Hkey _]; [|unfold has_key; rewrite Hk; vm_compute; reflexivity|congruence].
    intros (i & a & k & acc & x & Hi & _). rewrite lookup_empty in Hi. discriminate.
Defined.
(** Two registrations of Alice, who signed in with her wallet, overlap: both
    look her row up before either writes, and the second replaces the key
    that the first has stored. *)
Definition looked (r : registration) (s : noter) : noter * thread :=
  let '(s1, found) := find_user w (at_address (reg_address r)) s in (s1, after_lookup r found).
Definition written (t : thread) (s : noter) : noter := match t with Looked r o => fst (reg_write w r o s) | _ => s end.
Definition wallet_alice : noter := requested no_header PConnectWallet wallet_login empty_noter.
Definition first : registration := Provisioning alice key alice_account.
Definition both_looked : noter := fst (looked second (fst (looked first wallet_alice))).
Definition first_wrote : noter := written (snd (looked first wallet_alice)) both_looked.
Definition second_wrote : noter := written (snd (looked second (fst (looked first wallet_alice)))) first_wrote.
Example registrations_race :
  (us_delegatePrivateKey <$> users wallet_alice, us_delegatePrivateKey <$> users first_wrote, us_delegatePrivateKey <$> users second_wrote) =
  ([None], [Some key], [Some other_key]).
Proof. vm_compute. reflexivity. Qed.
Lemma registrations_overlap : ∃ ts, rtc interleaved (wallet_alice, ∅) (second_wrote, ts).
Proof.
  eexists. eapply rtc_l; [apply (il_arrive 0%nat first), lookup_empty|]. eapply rtc_l; [apply (il_arrive 1%nat second); reflexivity|].
  eapply rtc_l; [apply (il_look w 0%nat first); reflexivity|]. eapply rtc_l; [apply (il_look w 1%nat second); reflexivity|].
  eapply rtc_l; [apply (il_write w 0%nat first (head (users wallet_alice))); vm_compute; reflexivity|].
  eapply rtc_l; [apply (il_write w 1%nat second (head (users wallet_alice))); vm_compute; reflexivity|].
  match goal with |- rtc _ (?s, _) _ => assert (s = second_wrote) as -> by (vm_compute; reflexivity) end. apply rtc_refl.
Qed.
Lemma delegate_keys_confidential_witness : blind eq (handle w no_header PConnectWallet wallet_login) (handle w no_header PConnectWallet wallet_login).
Proof. apply (delegate_keys_confidential w no_header PConnectWallet wallet_login). discriminate. Defined.
Lemma key_export_owned_witness : ∃ i owner k, parse_export (JObj (signed "uuid-13")) = Some i ∧ owner ∈ users s3 ∧ us_delegatePrivateKey owner = Some k.
Proof.
  destruct (key_export_owned w (session_header "uuid-9") (JObj (signed "uuid-13")) s3
    (requested (session_header "uuid-9") PExportDelegateKey (JObj (signed "uuid-13")) s3)
    (JObj [("delegatePrivateKey", JStr key); ("delegateAccountId", JStr alice_account)]))
    as (i & sid & se & uid & u & owner & k & acc & Hi & _ & _ & _ & (Ho & _ & Hk & _) & _); [vm_compute; reflexivity|].
  exists i, owner, k. split; [exact Hi|]. split; [exact Ho|exact Hk].
Defined.
End ExampleNoter.
