(* ===== verification/ResearchDb.v ===== *)
(** * The database of the Researcher (apps/researcher/lib/db)

    The tables of schema.ts with their keys, and every query of queries.ts.
    A query is a program of the monad [RM] over the tables: a call to the
    outside may fail, and then has no effect; a query turns every failure
    into its own [ChatbotError].  An insert respects the primary, unique and
    foreign keys of the schema, a removal the foreign keys.

    The ids that the database draws, the distance of embeddings and the text
    search of Postgres are arguments of the world, and so are the model, the
    memory client and the token library that the routes of [Researcher] use.
    Dates are milliseconds; rows that compare equal keep their order. *)
From Stdlib Require Import Ascii QArith.
From stdpp Require Import sorting.
From S2P Require Import Prelude JsText JsNumber Retry.
From S2P Require NoterAuth.
Local Open Scope Z_scope.

(** ** The tables (schema.ts) *)
Record user_row : Type := User {
  u_id : string; u_email : string; u_publicKey : option string; u_suiAddress : option string;
  u_delegatePrivateKey : option string; u_accountId : option string;
}.
Record chat_row : Type := Chat {
  ch_id : string; ch_createdAt : Z; ch_title : string; ch_userId : string; ch_visibility : string;
  ch_sprintIds : option (list string); ch_sprintContext : option string;
}.
Record message_row : Type := Message {
  ms_id : string; ms_chatId : string; ms_role : string; ms_parts : json; ms_attachments : json; ms_createdAt : Z;
}.
Record stream_row : Type := Stream { st_id : string; st_chatId : string; st_createdAt : Z }.
Record source_row : Type := Source {
  so_id : string; so_chatId : option string; so_userId : string; so_type : string; so_title : option string; so_url : option string;
  so_summary : option string; so_claims : option (list string); so_chunkCount : Z; so_createdAt : Z;
}.
Record chunk_row : Type := Chunk {
  ck_id : string; ck_sourceId : string; ck_section : string; ck_content : string; ck_embedding : list Q;
  ck_chunkIndex : Z; ck_tokenCount : Z; ck_expiresAt : Z;
}.
(** lib/sprint/types.ts *)
Record Citation : Type := Cite {
  ci_refIndex : Z; ci_sourceId : string; ci_sourceTitle : string; ci_sourceUrl : option string; ci_section : string;
  ci_supportingChunks : list string; ci_scope : string;
}.
Record SourceMeta : Type := Meta { sm_sourceId : string; sm_title : option string; sm_url : option string; sm_type : string }.
Record blob_row : Type := Blob {
  rb_id : string; rb_blobId : string; rb_userId : string; rb_chatId : option string; rb_title : string; rb_summary : option string;
  rb_reportContent : option string; rb_tags : option (list string); rb_citations : option (list Citation);
  rb_sources : option (list SourceMeta); rb_memoryCount : Z; rb_createdAt : Z;
}.
Record db : Type := Db {
  users : list user_row; chats : list chat_row; messages : list message_row; streams : list stream_row;
  sources : list source_row; chunks : list chunk_row; blobs : list blob_row;
}.
Definition set_users (l : list user_row) (t : db) : db := Db l (chats t) (messages t) (streams t) (sources t) (chunks t) (blobs t).
Definition set_chats (l : list chat_row) (t : db) : db := Db (users t) l (messages t) (streams t) (sources t) (chunks t) (blobs t).
Definition set_messages (l : list message_row) (t : db) : db := Db (users t) (chats t) l (streams t) (sources t) (chunks t) (blobs t).
Definition set_streams (l : list stream_row) (t : db) : db := Db (users t) (chats t) (messages t) l (sources t) (chunks t) (blobs t).
Definition set_sources (l : list source_row) (t : db) : db := Db (users t) (chats t) (messages t) (streams t) l (chunks t) (blobs t).
Definition set_chunks (l : list chunk_row) (t : db) : db := Db (users t) (chats t) (messages t) (streams t) (sources t) l (blobs t).
Definition set_blobs (l : list blob_row) (t : db) : db := Db (users t) (chats t) (messages t) (streams t) (sources t) (chunks t) l.

(** ** Errors (lib/errors.ts) *)
Inductive failure : Type :=
| Chatbot (type surface : string) (cause : option string)
| Thrown (e : js_error).
Definition getMessageByErrorCode (type surface : string) : string :=
  let code := type +:+ ":" +:+ surface in
  if includes "database" code then "An error occurred while executing a database query." else
  if seqb code "bad_request:api" then "The request couldn't be processed. Please check your input and try again." else
  if seqb code "bad_request:activate_gateway" then "AI Gateway requires a valid credit card on file to service requests. Please visit https://vercel.com/d?to=%2F%5Bteam%5D%2F%7E%2Fai%3Fmodal%3Dadd-credit-card to add a card and unlock your free credits." else
  if seqb code "unauthorized:auth" then "You need to sign in before continuing." else
  if seqb code "forbidden:auth" then "Your account does not have access to this feature." else
  if seqb code "rate_limit:chat" then "You have exceeded your maximum number of messages for the day. Please try again later." else
  if seqb code "not_found:chat" then "The requested chat was not found. Please check the chat ID and try again." else
  if seqb code "forbidden:chat" then "This chat belongs to another user. Please check the chat ID and try again." else
  if seqb code "unauthorized:chat" then "You need to sign in to view this chat. Please sign in and try again." else
  if seqb code "offline:chat" then "We're having trouble sending your message. Please check your internet connection and try again." else
  "Something went wrong. Please try again later.".
Definition getStatusCodeByType (type : string) : Z :=
  if seqb type "bad_request" then 400 else if seqb type "unauthorized" then 401 else if seqb type "forbidden" then 403 else
  if seqb type "not_found" then 404 else if seqb type "rate_limit" then 429 else if seqb type "offline" then 503 else 500.
Definition text_or_undefined (o : option string) : json := match o with Some s => JStr s | None => JUndefined end.
(** [toResponse]: what the database says stays in the log. *)
Definition error_response (type surface : string) (cause : option string) : Z * json :=
  (getStatusCodeByType type,
   if seqb surface "database" then JObj [("code", JStr empty_str); ("message", JStr "Something went wrong. Please try again later.")] else
   JObj [("code", JStr (type +:+ ":" +:+ surface)); ("message", JStr (getMessageByErrorCode type surface)); ("cause", text_or_undefined cause)]).
Definition failure_message (e : failure) : string :=
  match e with Chatbot type surface _ => getMessageByErrorCode type surface | Thrown e => e_message e end.

(** ** The world *)
Record ui_message : Type := UiMessage { ui_id : string; ui_role : string; ui_parts : json }.
Inductive system_prompt : Type := researchPrompt | sprintResumePrompt.
(** What the server does to the outside, the streams of its answers included. *)
Inductive call : Type :=
| CRecall (key accountId query : string) (limit : Z)
| CRemember (key accountId text : string)
| CPut (blobKey : string)
| CDownload (url : string)
| CAnswer (system : system_prompt) (context : option string) (history : list ui_message)
| CSend (event : string) (data : json)
| CSetCookie (name value : string) (maxAge : Z).
Record research : Type := Research { tables : db; redis : gmap string NoterAuth.redis_entry; calls : list call; ticks : nat }.
Record http_reply : Type := Http { hr_status : Z; hr_statusText : string; hr_text : string }.
Record Metadata : Type := Meta_data { md_title : string; md_summary : string; md_claims : list string }.
Record ManifestEntry : Type := Entry {
  me_chunkId : string; me_sourceId : string; me_sourceTitle : option string; me_sourceUrl : option string; me_section : string;
  me_chunkIndex : Z; me_preview : string;
}.
Record SprintReport : Type := Report { rp_title : string; rp_summary : string; rp_content : string; rp_citations : list Citation }.
(** A tool call of the model, and what a turn of the model ends with. *)
Inductive tool_call : Type :=
| ListSources
| SearchSourceContent (query : string) (sourceId : option string) (limit : Z) (includeContent : bool)
| GetChunkContent (chunkIds : list string)
| GetSourceContext (chunkId : string) (windowSize : Z)
| RecallSprint (query : string) (limit : Z).
Record world : Type := World {
  w_env : string → option string;
  w_clock : nat → Z;
  w_down : nat → option js_error;                        (** a call that fails *)
  w_uuid : nat → string;
  w_isUuid : string → bool;
  w_url : string → option (string * string * string);    (** [new URL]: protocol, host and hostname *)
  w_isIP : string → bool;
  w_redis_ready : nat → bool;
  (* Postgres *)
  w_distance : list Q → list Q → Q;                      (** [cosineDistance] *)
  w_matches : string → string → bool;                    (** [@@ plainto_tsquery] *)
  w_ts_rank : string → string → Q;
  (* jose: signing claims, and the payload of a token that verifies under the secret at a time *)
  w_jwtSign : string → json → string;
  w_jwtVerify : Z → string → string → option json;
  (* Sui *)
  w_verifyPersonalMessageSignature : list ascii → string → option string → option string;
  w_getPublicKey : list ascii → list ascii;
  w_fromBase64 : string → option (list ascii);
  w_getObject : nat → string → json;
  w_memwalPackageId : string;
  (* the model *)
  w_metadata : nat → string → Metadata;
  w_chunks : nat → string → string → list (string * string);
  w_embed : nat → list string → list (list Q);
  w_rerank : nat → string → list (string * string) → list (Z * Q);
  w_queries : nat → blob_row → list string;
  w_report : nat → list ManifestEntry → string → SprintReport;
  w_suggest : nat → list blob_row → json;
  w_title : nat → string → string;
  w_turn : nat → list tool_call;                         (** the tools it calls while it answers *)
  w_finished : nat → list ui_message → list ui_message;  (** [onFinish]: from the original messages *)
  (* the outside *)
  w_reader : nat → string → http_reply;                  (** the page that the reader service extracts *)
  w_pdf : nat → string → string;
  w_download : nat → string → http_reply;
  w_recall : nat → string → string → string → Z → list (string * Q);    (** text and distance *)
  w_remember : nat → string → string → string → string;                 (** the blob id *)
}.
Definition RM : Type → Type := ST research failure.

Definition with_tables (t : db) (s : research) : research := Research t (redis s) (calls s) (ticks s).
Definition tick (s : research) : research := Research (tables s) (redis s) (calls s) (S (ticks s)).

Section Queries.
Context (w : world).
Definition now : RM Z := λ s, (s, inr (w_clock w (ticks s))).
Definition uuid : RM string := λ s, (tick s, inr (w_uuid w (ticks s))).
(** A call to the outside: it may fail, and then has no effect. *)
Definition external {A} (f : nat → db → failure + (db * A)) : RM A := λ s,
  let s := tick s in
  match w_down w (ticks s) with
  | Some e => (s, inl (Thrown e))
  | None => match f (ticks s) (tables s) with inl e => (s, inl e) | inr (t, a) => (with_tables t s, inr a) end
  end.
Definition select {A} (f : db → A) : RM A := external (λ _ t, inr (t, f t)).
Definition answer {A} (f : nat → A) : RM A := external (λ n t, inr (t, f n)).
Definition update (f : db → db) : RM unit := external (λ _ t, inr (f t, tt)).
(** A call that the trace keeps. *)
Definition record_call (c : call) : RM unit := λ s, (Research (tables s) (redis s) (calls s ++ [c]) (ticks s), inr tt).
Definition violates (what : string) : failure := Thrown (plain_error (what +:+ " constraint violated")).

(** *** Keys *)
Definition has_chat (id : string) (t : db) : bool := existsb (λ c, seqb (ch_id c) id) (chats t).
Definition has_user (id : string) (t : db) : bool := existsb (λ u, seqb (u_id u) id) (users t).
Definition has_source (id : string) (t : db) : bool := existsb (λ s, seqb (so_id s) id) (sources t).
Definition mem (l : list string) (id : string) : bool := existsb (seqb id) l.
Definition same_text (a b : option string) : bool := match a, b with Some x, Some y => seqb x y | _, _ => false end.
Definition by_date {A} (date : A → Z) : list A → list A := merge_sort (λ a b, Is_true (date a <=? date b)).
Definition newest {A} (date : A → Z) : list A → list A := merge_sort (λ a b, Is_true (date b <=? date a)).

(** Every query names its failure. *)
Definition or_database {A} (cause : string) (m : RM A) : RM A :=
  try_catch m (λ _, throw (Chatbot "bad_request" "database" (Some cause))).
(** A row that [returning()] does not give back: reading it throws. *)
Definition returned {A} (o : option A) : RM A :=
  match o with Some a => mret a | None => throw (Thrown (js_type_error "Cannot read properties of undefined")) end.

(** ** User queries *)
Definition getUserById (id : string) : RM (option user_row) :=
  or_database "Failed to get user by id" (select (λ t, List.find (λ u, seqb (u_id u) id) (users t))).
Definition getUserByPublicKey (publicKey : string) : RM (option user_row) :=
  or_database "Failed to get user by public key" (select (λ t, List.find (λ u, same_text (u_publicKey u) (Some publicKey)) (users t))).
Definition getUserBySuiAddress (suiAddress : string) : RM (option user_row) :=
  or_database "Failed to get user by Sui address" (select (λ t, List.find (λ u, same_text (u_suiAddress u) (Some suiAddress)) (users t))).
(** Ids, public keys and addresses are unique. *)
Definition user_clash (u v : user_row) : bool :=
  seqb (u_id u) (u_id v) || same_text (u_publicKey u) (u_publicKey v) || same_text (u_suiAddress u) (u_suiAddress v).
Definition insert_user (email : string) (publicKey suiAddress delegatePrivateKey accountId : option string) : RM user_row :=
  external (λ n t, let u := User (w_uuid w n) email publicKey suiAddress delegatePrivateKey accountId in
                   if existsb (user_clash u) (users t) then inl (violates "unique") else inr (set_users (users t ++ [u]) t, u)).
Definition update_user (id : string) (f : user_row → user_row) : RM (option user_row) :=
  external (λ _ t, let l := map (λ u, if seqb (u_id u) id then f u else u) (users t) in
                   let changed := List.find (λ u, seqb (u_id u) id) l in
                   if existsb (λ u, negb (seqb (u_id u) id) && match changed with Some v => user_clash v u | None => false end) l
                   then inl (violates "unique") else inr (set_users l t, changed)).
Definition createUserByPublicKey (publicKey : string) : RM user_row :=
  or_database "Failed to create user" (insert_user ("key-" +:+ take_s 8 publicKey +:+ "@ed25519") (Some publicKey) None None None).
Definition with_credentials (key account : string) (u : user_row) : user_row :=
  User (u_id u) (u_email u) (u_publicKey u) (u_suiAddress u) (Some key) (Some account).
Definition upsertDelegateCredentialsByPublicKey (publicKey delegatePrivateKey accountId : string) : RM (option user_row) :=
  existing ← getUserByPublicKey publicKey;
  or_database "Failed to store delegate credentials"
    match existing with
    | Some u => update_user (u_id u) (with_credentials delegatePrivateKey accountId)
    | None => created ← insert_user ("key-" +:+ take_s 8 publicKey +:+ "@ed25519") (Some publicKey) None (Some delegatePrivateKey) (Some accountId);
              mret (Some created)
    end.
Definition createEnokiUser (publicKey suiAddress delegatePrivateKey accountId : string) : RM user_row :=
  or_database "Failed to create Enoki user"
    (insert_user ("enoki-" +:+ take_s 8 suiAddress +:+ "@zklogin") (Some publicKey) (Some suiAddress) (Some delegatePrivateKey) (Some accountId)).
Definition rotate (publicKey key account : string) (u : user_row) : user_row :=
  User (u_id u) (u_email u) (Some publicKey) (u_suiAddress u) (Some key) (Some account).
Definition updateEnokiUserCredentials (userId publicKey delegatePrivateKey accountId : string) : RM unit :=
  or_database "Failed to update Enoki user credentials"
    (_ ← update_user userId (rotate publicKey delegatePrivateKey accountId); mret tt).

(** ** Chat queries *)
Definition insert_chat (c : chat_row) : RM unit :=
  external (λ _ t, if has_chat (ch_id c) t then inl (violates "primary key") else
                   if negb (has_user (ch_userId c) t) then inl (violates "foreign key") else inr (set_chats (chats t ++ [c]) t, tt)).
Definition saveChat (id userId title : string) (visibility : string) (sprintIds : option (list string)) : RM unit :=
  createdAt ← now;
  or_database "Failed to save chat" (insert_chat (Chat id createdAt title userId visibility sprintIds None)).
Definition delete_messages_of (ids : list string) : RM unit :=
  update (λ t, set_messages (List.filter (λ m, negb (mem ids (ms_chatId m))) (messages t)) t).
Definition delete_streams_of (ids : list string) : RM unit :=
  update (λ t, set_streams (List.filter (λ x, negb (mem ids (st_chatId x))) (streams t)) t).
Definition refers (ids : list string) (o : option string) : bool := match o with Some id => mem ids id | None => false end.
Definition without_chat (b : blob_row) : blob_row :=
  Blob (rb_id b) (rb_blobId b) (rb_userId b) None (rb_title b) (rb_summary b) (rb_reportContent b) (rb_tags b) (rb_citations b)
    (rb_sources b) (rb_memoryCount b) (rb_createdAt b).
Definition detach_blobs (ids : list string) : RM unit :=
  update (λ t, set_blobs (map (λ b, if refers ids (rb_chatId b) then without_chat b else b) (blobs t)) t).
Definition unlinked (x : source_row) : source_row :=
  Source (so_id x) None (so_userId x) (so_type x) (so_title x) (so_url x) (so_summary x) (so_claims x) (so_chunkCount x) (so_createdAt x).
(** Messages, streams and blobs keep a chat; a source loses its reference. *)
Definition delete_chats (p : chat_row → bool) : RM (list chat_row) :=
  external (λ _ t,
    let gone := List.filter p (chats t) in
    let ids := map ch_id gone in
    if existsb (λ m, mem ids (ms_chatId m)) (messages t) || existsb (λ x, mem ids (st_chatId x)) (streams t) ||
       existsb (λ b, refers ids (rb_chatId b)) (blobs t) then inl (violates "foreign key") else
    inr (set_sources (map (λ x, if refers ids (so_chatId x) then unlinked x else x) (sources t))
           (set_chats (List.filter (λ c, negb (p c)) (chats t)) t), gone)).
Definition deleteChatById (id : string) : RM (option chat_row) :=
  or_database "Failed to delete chat by id"
    (_ ← delete_messages_of [id];
     _ ← delete_streams_of [id];
     _ ← detach_blobs [id];
     chatsDeleted ← delete_chats (λ c, seqb (ch_id c) id);
     mret (head chatsDeleted)).
Definition of_user (userId : string) (c : chat_row) : bool := seqb (ch_userId c) userId.
Definition deleteAllChatsByUserId (userId : string) : RM Z :=
  or_database "Failed to delete all chats by user id"
    (chatIds ← select (λ t, map ch_id (List.filter (of_user userId) (chats t)));
     match chatIds with
     | [] => mret 0
     | _ => _ ← delete_messages_of chatIds;
            _ ← delete_streams_of chatIds;
            _ ← detach_blobs chatIds;
            deletedChats ← delete_chats (of_user userId);
            mret (Z.of_nat (length deletedChats))
     end).
(** [None] is [NaN]: no such limit, nor a negative one, is accepted. *)
Definition chats_page (id : string) (p : chat_row → bool) (limit : option Z) : RM (list chat_row) :=
  external (λ _ t, match limit with
                   | Some n => if n <? 0 then inl (Thrown (plain_error "LIMIT must not be negative")) else
                               inr (t, take (Z.to_nat n) (newest ch_createdAt (List.filter (λ c, p c && of_user id c) (chats t))))
                   | None => inl (Thrown (plain_error "invalid input syntax for type bigint"))
                   end).
Definition find_chat (id : string) : RM (option chat_row) := select (λ t, List.find (λ c, seqb (ch_id c) id) (chats t)).
Definition given (o : option string) : option string := match o with Some x => if is_empty x then None else Some x | None => None end.
(** The page relative to the date of another chat. *)
Definition relative_page (id cursor : string) (p : Z → chat_row → bool) (extendedLimit : option Z) : RM (list chat_row) :=
  selectedChat ← find_chat cursor;
  match selectedChat with
  | None => throw (Chatbot "not_found" "database" (Some ("Chat with id " +:+ cursor +:+ " not found")))
  | Some c => chats_page id (p (ch_createdAt c)) extendedLimit
  end.
Definition getChatsByUserId (id : string) (limit : option Z) (startingAfter endingBefore : option string) : RM (list chat_row * bool) :=
  let extendedLimit := Z.succ <$> limit in
  or_database "Failed to get chats by user id"
    (filteredChats ← match given startingAfter, given endingBefore with
                     | Some cursor, _ => relative_page id cursor (λ t c, t <? ch_createdAt c) extendedLimit
                     | None, Some cursor => relative_page id cursor (λ t c, ch_createdAt c <? t) extendedLimit
                     | None, None => chats_page id (λ _, true) extendedLimit
                     end;
     let n := default 0 limit in
     let hasMore := n <? Z.of_nat (length filteredChats) in
     mret (if hasMore then take (Z.to_nat n) filteredChats else filteredChats, hasMore)).
Definition getChatById (id : string) : RM (option chat_row) := or_database "Failed to get chat by id" (find_chat id).

(** ** Message queries *)
Definition insert_messages (l : list message_row) : RM unit :=
  external (λ _ t, if negb (bool_decide (NoDup (map ms_id (messages t ++ l)))) then inl (violates "primary key") else
                   if negb (forallb (λ m, has_chat (ms_chatId m) t) l) then inl (violates "foreign key") else
                   inr (set_messages (messages t ++ l) t, tt)).
Definition saveMessages (l : list message_row) : RM unit := or_database "Failed to save messages" (insert_messages l).
Definition with_parts (parts : json) (m : message_row) : message_row :=
  Message (ms_id m) (ms_chatId m) (ms_role m) parts (ms_attachments m) (ms_createdAt m).
Definition updateMessage (id : string) (parts : json) : RM unit :=
  or_database "Failed to update message"
    (update (λ t, set_messages (map (λ m, if seqb (ms_id m) id then with_parts parts m else m) (messages t)) t)).
Definition getMessagesByChatId (id : string) : RM (list message_row) :=
  or_database "Failed to get messages by chat id"
    (select (λ t, by_date ms_createdAt (List.filter (λ m, seqb (ms_chatId m) id) (messages t)))).
Definition getMessageById (id : string) : RM (list message_row) :=
  or_database "Failed to get message by id" (select (λ t, List.filter (λ m, seqb (ms_id m) id) (messages t))).
Definition deleteMessagesByChatIdAfterTimestamp (chatId : string) (timestamp : Z) : RM unit :=
  or_database "Failed to delete messages by chat id after timestamp"
    (messageIds ← select (λ t, map ms_id (List.filter (λ m, seqb (ms_chatId m) chatId && (timestamp <=? ms_createdAt m)) (messages t)));
     match messageIds with
     | [] => mret tt
     | _ => update (λ t, set_messages (List.filter (λ m, negb (seqb (ms_chatId m) chatId && mem messageIds (ms_id m))) (messages t)) t)
     end).
Definition getMessageCountByUserId (id : string) (differenceInHours : Z) : RM Z :=
  t0 ← now;
  let twentyFourHoursAgo := t0 - differenceInHours * 60 * 60 * 1000 in
  or_database "Failed to get message count by user id"
    (select (λ t, Z.of_nat (length (List.filter (λ m,
       existsb (λ c, seqb (ch_id c) (ms_chatId m) && of_user id c) (chats t) &&
       (twentyFourHoursAgo <=? ms_createdAt m) && seqb (ms_role m) "user") (messages t))))).

(** ** Columns of a chat *)
Definition update_chat (id : string) (f : chat_row → chat_row) : RM unit :=
  update (λ t, set_chats (map (λ c, if seqb (ch_id c) id then f c else c) (chats t)) t).
Definition with_visibility (v : string) (c : chat_row) : chat_row :=
  Chat (ch_id c) (ch_createdAt c) (ch_title c) (ch_userId c) v (ch_sprintIds c) (ch_sprintContext c).
Definition with_context (x : string) (c : chat_row) : chat_row :=
  Chat (ch_id c) (ch_createdAt c) (ch_title c) (ch_userId c) (ch_visibility c) (ch_sprintIds c) (Some x).
Definition with_title (x : string) (c : chat_row) : chat_row :=
  Chat (ch_id c) (ch_createdAt c) x (ch_userId c) (ch_visibility c) (ch_sprintIds c) (ch_sprintContext c).
Definition updateChatVisibilityById (chatId : string) (v : string) : RM unit :=
  or_database "Failed to update chat visibility by id" (update_chat chatId (with_visibility v)).
Definition updateChatSprintContext (chatId sprintContext : string) : RM unit :=
  or_database "Failed to update chat sprint context" (update_chat chatId (with_context sprintContext)).
(** A failure is logged only. *)
Definition updateChatTitleById (chatId title : string) : RM unit :=
  try_catch (update_chat chatId (with_title title)) (λ _, mret tt).

(** ** Stream queries *)
Definition createStreamId (streamId chatId : string) : RM unit :=
  createdAt ← now;
  or_database "Failed to create stream id"
    (external (λ _ t, if existsb (λ x, seqb (st_id x) streamId) (streams t) then inl (violates "primary key") else
                      if negb (has_chat chatId t) then inl (violates "foreign key") else
                      inr (set_streams (streams t ++ [Stream streamId chatId createdAt]) t, tt))).
Definition getStreamIdsByChatId (chatId : string) : RM (list string) :=
  or_database "Failed to get stream ids by chat id"
    (select (λ t, map st_id (by_date st_createdAt (List.filter (λ x, seqb (st_chatId x) chatId) (streams t))))).

(** ** Source queries *)
Definition createSource (chatId : option string) (userId typ : string) (title url summary : option string) (claims : option (list string))
    (chunkCount : Z) : RM source_row :=
  or_database "Failed to create source"
    (external (λ n t, let x := Source (w_uuid w n) chatId userId typ title url summary claims chunkCount (w_clock w n) in
                      if has_source (so_id x) t then inl (violates "primary key") else
                      if negb (has_user userId t) || negb (match chatId with Some c => has_chat c t | None => true end)
                      then inl (violates "foreign key") else inr (set_sources (sources t ++ [x]) t, x))).
Definition of_source_user (userId : string) (x : source_row) : bool := seqb (so_userId x) userId.
Definition getSourcesByUserId (userId : string) : RM (list source_row) :=
  or_database "Failed to get sources by user id"
    (select (λ t, newest so_createdAt (List.filter (of_source_user userId) (sources t)))).
Record new_chunk : Type := NewChunk {
  nc_sourceId : string; nc_section : string; nc_content : string; nc_embedding : list Q; nc_chunkIndex : Z; nc_tokenCount : Z; nc_expiresAt : Z;
}.
Definition stored_chunk (n i : nat) (c : new_chunk) : chunk_row :=
  Chunk (w_uuid w (n + i)%nat) (nc_sourceId c) (nc_section c) (nc_content c) (nc_embedding c) (nc_chunkIndex c) (nc_tokenCount c) (nc_expiresAt c).
Definition createSourceChunks (l : list new_chunk) : RM unit :=
  or_database "Failed to create source chunks"
    (external (λ n t, let rows := imap (stored_chunk n) l in
                      if negb (bool_decide (NoDup (map ck_id (chunks t ++ rows)))) then inl (violates "primary key") else
                      if negb (forallb (λ c, has_source (nc_sourceId c) t) l) then inl (violates "foreign key") else
                      inr (set_chunks (chunks t ++ rows) t, tt))).
(** [innerJoin] on the source, for one user and chunks that have not expired. *)
Definition joined (userId : string) (time : Z) (t : db) : list (chunk_row * source_row) :=
  List.filter (λ r, seqb (so_userId r.2) userId && (time <? ck_expiresAt r.1))
    (flat_map (λ c, map (λ x, (c, x)) (List.filter (λ x, seqb (so_id x) (ck_sourceId c)) (sources t))) (chunks t)).
Definition by_index {A} (index : A → Z) : list A → list A := by_date index.
Definition getChunksByIds (chunkIds : list string) (userId : string) : RM (list (chunk_row * source_row)) :=
  match chunkIds with
  | [] => mret []
  | _ => time ← now;
         or_database "Failed to get chunks by ids"
           (select (λ t, by_index (λ r, ck_chunkIndex r.1) (List.filter (λ r, mem chunkIds (ck_id r.1)) (joined userId time t))))
  end.
Definition getChunkNeighbors (chunkId : string) (windowSize : Z) (userId : string) : RM (list chunk_row) :=
  time ← now;
  or_database "Failed to get chunk neighbors"
    (target ← select (λ t, head (List.filter (λ r, seqb (ck_id r.1) chunkId) (joined userId time t)));
     match target with
     | None => mret []
     | Some (c, _) =>
         later ← now;
         select (λ t, by_index ck_chunkIndex (List.filter (λ x,
           seqb (ck_sourceId x) (ck_sourceId c) && (ck_chunkIndex c - windowSize <=? ck_chunkIndex x) &&
           (ck_chunkIndex x <=? ck_chunkIndex c + windowSize) && (later <? ck_expiresAt x)) (chunks t)))
     end).

(** ** Research blob queries *)
Definition insert_blob (f : nat → blob_row) : RM blob_row :=
  external (λ n t, let b := f n in
                   if existsb (λ x, seqb (rb_id x) (rb_id b) || seqb (rb_blobId x) (rb_blobId b)) (blobs t) then inl (violates "unique") else
                   if negb (has_user (rb_userId b) t) || negb (match rb_chatId b with Some c => has_chat c t | None => true end)
                   then inl (violates "foreign key") else inr (set_blobs (blobs t ++ [b]) t, b)).
Definition createResearchBlob (blobId userId title : string) (summary : option string) (tags : option (list string)) : RM blob_row :=
  or_database "Failed to create research blob"
    (insert_blob (λ n, Blob (w_uuid w n) blobId userId None title summary None tags None None 0 (w_clock w n))).
Definition of_blob_user (userId : string) (b : blob_row) : bool := seqb (rb_userId b) userId.
Definition getResearchBlobsByUserId (userId : string) : RM (list blob_row) :=
  or_database "Failed to get research blobs by user id" (select (λ t, newest rb_createdAt (List.filter (of_blob_user userId) (blobs t)))).
Definition createSprintBlob (chatId userId blobId title : string) (summary : option string) (reportContent : string)
    (citations : list Citation) (metas : list SourceMeta) (tags : option (list string)) (memoryCount : Z) : RM blob_row :=
  or_database "Failed to create sprint blob"
    (insert_blob (λ n, Blob (w_uuid w n) blobId userId (Some chatId) title summary (Some reportContent) tags (Some citations) (Some metas)
                         memoryCount (w_clock w n))).
(** The only type of a blob is "sprint". *)
Definition getSprintByChatId (chatId : string) : RM (option blob_row) :=
  or_database "Failed to get sprint by chat id" (select (λ t, List.find (λ b, refers [chatId] (rb_chatId b)) (blobs t))).
Definition getSprintsByUserId (userId : string) : RM (list blob_row) :=
  or_database "Failed to get sprints by user id" (select (λ t, newest rb_createdAt (List.filter (of_blob_user userId) (blobs t)))).
Definition getSprintsByIds (sprintIds : list string) (userId : string) : RM (list blob_row) :=
  match sprintIds with
  | [] => mret []
  | _ => or_database "Failed to get sprints by ids"
           (select (λ t, newest rb_createdAt (List.filter (λ b, mem sprintIds (rb_id b) && of_blob_user userId b) (blobs t))))
  end.
End Queries.

(** ** The rows of the other users

    What belongs to the users other than one: their rows, chats, sources and
    blobs, the messages and streams of their chats, the chunks of their
    sources.  Of the messages in a given list the parts do not count. *)
Record well_formed (t : db) : Prop := WellFormed {
  wf_chats : NoDup (map ch_id (chats t));
  wf_sources : NoDup (map so_id (sources t));
  wf_chunks : NoDup (map ck_id (chunks t));
  wf_blobs : ∀ b c, b ∈ blobs t → rb_chatId b = Some c → ∃ x, x ∈ chats t ∧ ch_id x = c ∧ ch_userId x = rb_userId b;
  wf_links : ∀ y c, y ∈ sources t → so_chatId y = Some c → ∃ x, x ∈ chats t ∧ ch_id x = c ∧ ch_userId x = so_userId y;
}.
Definition other_chats (u : string) (t : db) : list chat_row := List.filter (λ c, negb (of_user u c)) (chats t).
Definition other_sources (u : string) (t : db) : list source_row := List.filter (λ x, negb (of_source_user u x)) (sources t).
Definition chat_of_others (u : string) (t : db) (id : string) : bool := mem (map ch_id (other_chats u t)) id.
Definition source_of_others (u : string) (t : db) (id : string) : bool := mem (map so_id (other_sources u t)) id.
Definition other_chunks (u : string) (t : db) : list chunk_row := List.filter (λ c, source_of_others u t (ck_sourceId c)) (chunks t).
Definition chunk_of_others (u : string) (t : db) (id : string) : bool := mem (map ck_id (other_chunks u t)) id.
Definition masked (A : list string) (m : message_row) : message_row := if mem A (ms_id m) then with_parts JNull m else m.
Definition others (u : string) (A : list string) (t : db) :
    list user_row * list chat_row * list message_row * list stream_row * list source_row * list chunk_row * list blob_row :=
  (List.filter (λ x, negb (seqb (u_id x) u)) (users t), other_chats u t,
   map (masked A) (List.filter (λ m, chat_of_others u t (ms_chatId m)) (messages t)),
   List.filter (λ x, chat_of_others u t (st_chatId x)) (streams t),
   other_sources u t, other_chunks u t, List.filter (λ b, negb (of_blob_user u b)) (blobs t)).

Lemma mem_in l id : mem l id = true ↔ id ∈ l.
Proof.
  unfold mem. rewrite existsb_exists. split.
  - intros (x & Hx & ->%seqb_eq). by apply list_elem_of_In.
  - intros Hi. exists id. split; [by apply list_elem_of_In|apply seqb_refl].
Qed.
Lemma in_filter {A} (p : A → bool) l x : x ∈ List.filter p l ↔ x ∈ l ∧ p x = true.
Proof. rewrite !list_elem_of_In. apply filter_In. Qed.
Lemma in_map {A B} (f : A → B) l y : y ∈ map f l ↔ ∃ x, y = f x ∧ x ∈ l.
Proof. apply list_elem_of_fmap. Qed.
Lemma same_key {A} (key : A → string) l x y : NoDup (map key l) → x ∈ l → y ∈ l → key x = key y → x = y.
Proof.
  intros Hn Hx Hy Hk. apply list_elem_of_lookup in Hx as [i Hi], Hy as [j Hj].
  assert (i = j) as ->; [|congruence]. eapply NoDup_lookup; [exact Hn|by rewrite list_lookup_fmap, Hi|].
  rewrite list_lookup_fmap, Hj. cbn. by rewrite Hk.
Qed.
Lemma filter_nested {A} (p q : A → bool) l : (∀ x, x ∈ l → p x = true → q x = true) → List.filter p (List.filter q l) = List.filter p l.
Proof.
  induction l as [|x l IH]; intros Hpq; cbn; [done|]. destruct (q x) eqn:Eq; cbn; destruct (p x) eqn:Ep.
  - f_equal. apply IH. intros; apply Hpq; [by right|done].
  - apply IH. intros; apply Hpq; [by right|done].
  - rewrite Hpq in Eq; [done|by left|done].
  - apply IH. intros; apply Hpq; [by right|done].
Qed.
Lemma filter_mapped {A B} (p : A → bool) (f : A → A) (g : A → B) l :
  (∀ x, x ∈ l → p (f x) = p x) → (∀ x, x ∈ l → p x = true → g (f x) = g x) → map g (List.filter p (map f l)) = map g (List.filter p l).
Proof.
  induction l as [|x l IH]; intros Hp Hg; cbn; [done|]. rewrite Hp by by left.
  assert (IHl : map g (List.filter p (map f l)) = map g (List.filter p l)) by (apply IH; intros; [apply Hp|apply Hg]; by try right).
  destruct (p x) eqn:E; cbn; [|done]. by rewrite Hg, IHl by first [by left|done].
Qed.
Lemma filter_fixed {A} (p : A → bool) (f : A → A) l :
  (∀ x, x ∈ l → p (f x) = p x) → (∀ x, x ∈ l → p x = true → f x = x) → List.filter p (map f l) = List.filter p l.
Proof. intros Hp Hf. pose proof (filter_mapped p f (λ x, x) l Hp Hf) as H. by rewrite !map_id in H. Qed.
Lemma filter_none {A} (p : A → bool) l : (∀ x, x ∈ l → p x = false) → List.filter p l = [].
Proof. induction l as [|x l IH]; intros Hp; cbn; [done|]. rewrite Hp by by left. apply IH. intros; apply Hp. by right. Qed.
Lemma filter_ext_in' {A} (p q : A → bool) l : (∀ x, x ∈ l → p x = q x) → List.filter p l = List.filter q l.
Proof. intros Hp. apply List.filter_ext_in. intros x Hx. by apply Hp, list_elem_of_In. Qed.
Lemma filter_keys {A} (key : A → string) p l : NoDup (map key l) → NoDup (map key (List.filter p l)).
Proof.
  induction l as [|x l IH]; cbn; [done|]. intros [Hx Hl]%NoDup_cons. destruct (p x); [|by apply IH]. cbn. apply NoDup_cons. split; [|by apply IH].
  intros (y & Hy & [Hin _]%in_filter)%in_map. apply Hx, in_map. by exists y.
Qed.

Section Frame.
Context (w : world) (u : string) (A : list string) (t0 : db).
Definition kept (t : db) : Prop := well_formed t ∧ others u A t = others u A t0.
Definition own_chat (id : string) : Prop := chat_of_others u t0 id = false.
Definition own_source (id : string) : Prop := source_of_others u t0 id = false.
Definition own_chunk (id : string) : Prop := chunk_of_others u t0 id = false.

Lemma kept_same t : kept t →
  (∀ id, chat_of_others u t id = chat_of_others u t0 id) ∧ (∀ id, source_of_others u t id = source_of_others u t0 id) ∧
  (∀ id, chunk_of_others u t id = chunk_of_others u t0 id).
Proof.
  intros [_ He]. unfold others in He. injection He as _ Hc _ _ Hs Hk _. unfold chat_of_others, source_of_others, chunk_of_others.
  by rewrite Hc, Hs, Hk.
Qed.
Lemma kept_next t t' : kept t → well_formed t' → others u A t' = others u A t → kept t'.
Proof. intros [_ He] Hw Ho. split; [done|by rewrite Ho]. Qed.
Lemma kept_messages t l : kept t →
  map (masked A) (List.filter (λ m, chat_of_others u t (ms_chatId m)) l) =
  map (masked A) (List.filter (λ m, chat_of_others u t (ms_chatId m)) (messages t)) → kept (set_messages l t).
Proof. intros Hk Hl. apply (kept_next t); [done|destruct Hk as [[] _]; by split|]. unfold others. cbn. f_equal. f_equal. f_equal. f_equal. by f_equal. Qed.
Lemma kept_streams t l : kept t →
  List.filter (λ x, chat_of_others u t (st_chatId x)) l = List.filter (λ x, chat_of_others u t (st_chatId x)) (streams t) → kept (set_streams l t).
Proof. intros Hk Hl. apply (kept_next t); [done|destruct Hk as [[] _]; by split|]. unfold others. cbn. f_equal. f_equal. f_equal. by f_equal. Qed.
Lemma kept_blobs t l : kept t → (∀ b c, b ∈ l → rb_chatId b = Some c → ∃ x, x ∈ chats t ∧ ch_id x = c ∧ ch_userId x = rb_userId b) →
  List.filter (λ b, negb (of_blob_user u b)) l = List.filter (λ b, negb (of_blob_user u b)) (blobs t) → kept (set_blobs l t).
Proof. intros Hk Hw Hl. apply (kept_next t); [done|destruct Hk as [[] _]; by split|]. unfold others. cbn. by f_equal. Qed.
Lemma kept_chunks t l : kept t → NoDup (map ck_id l) →
  List.filter (λ c, source_of_others u t (ck_sourceId c)) l = other_chunks u t → kept (set_chunks l t).
Proof. intros Hk Hw Hl. apply (kept_next t); [done|destruct Hk as [[] _]; by split|]. unfold others. cbn. f_equal. by f_equal. Qed.
Lemma kept_sources t l : kept t → NoDup (map so_id l) →
  (∀ y c, y ∈ l → so_chatId y = Some c → ∃ x, x ∈ chats t ∧ ch_id x = c ∧ ch_userId x = so_userId y) →
  List.filter (λ x, negb (of_source_user u x)) l = other_sources u t → kept (set_sources l t).
Proof.
  intros Hk Hw Hc Hl. apply (kept_next t); [done|destruct Hk as [[] _]; by split|]. unfold others, other_chunks, source_of_others, other_sources in *. cbn. by rewrite Hl.
Qed.
Lemma kept_chats t l : kept t → NoDup (map ch_id l) →
  (∀ b c, b ∈ blobs t → rb_chatId b = Some c → ∃ x, x ∈ l ∧ ch_id x = c ∧ ch_userId x = rb_userId b) →
  (∀ y c, y ∈ sources t → so_chatId y = Some c → ∃ x, x ∈ l ∧ ch_id x = c ∧ ch_userId x = so_userId y) →
  List.filter (λ c, negb (of_user u c)) l = other_chats u t → kept (set_chats l t).
Proof.
  intros Hk Hw Hb Hs Hl. apply (kept_next t); [done|destruct Hk as [[] _]; by split|]. unfold others, chat_of_others, other_chats in *. cbn. by rewrite Hl.
Qed.

(** The chat of a row of the user is none of the others'. *)
Lemma own_of_row t c : kept t → c ∈ chats t → ch_userId c = u → own_chat (ch_id c).
Proof.
  intros Hk Hc Hu. destruct (kept_same t Hk) as (Hsame & _). unfold own_chat. rewrite <-Hsame. unfold chat_of_others.
  destruct (mem _ _) eqn:E; [|done]. apply mem_in, in_map in E as (x & Hx & [Hin Hn]%in_filter). destruct Hk as [Hw _].
  rewrite (same_key ch_id (chats t) c x) in Hu; [|apply Hw|done..]. unfold of_user in Hn. by rewrite Hu, seqb_refl in Hn.
Qed.
Lemma row_of_own t c : kept t → c ∈ chats t → own_chat (ch_id c) → ch_userId c = u.
Proof.
  intros Hk Hc Ho. destruct (kept_same t Hk) as (Hsame & _). unfold own_chat in Ho. rewrite <-Hsame in Ho.
  destruct (of_user u c) eqn:E; [by apply seqb_eq in E|]. assert (Ht : chat_of_others u t (ch_id c) = true); [|congruence].
  apply mem_in, in_map. exists c. split; [done|]. apply in_filter. by rewrite E.
Qed.
Lemma own_absent t id : kept t → has_chat id t = false → own_chat id.
Proof.
  intros Hk Hn. destruct (kept_same t Hk) as (Hsame & _). unfold own_chat. rewrite <-Hsame. unfold chat_of_others.
  destruct (mem _ _) eqn:E; [|done]. apply mem_in, in_map in E as (x & -> & [Hin _]%in_filter).
  assert (Ht : has_chat (ch_id x) t = true); [|congruence]. apply existsb_exists. exists x. split; [by apply list_elem_of_In|apply seqb_refl].
Qed.
Lemma not_mem_own t ids id : kept t → Forall own_chat ids → chat_of_others u t id = true → mem ids id = false.
Proof.
  intros Hk Hf Ho. destruct (mem ids id) eqn:E; [|done]. apply mem_in in E. rewrite Forall_forall in Hf. specialize (Hf id E).
  unfold own_chat in Hf. destruct (kept_same t Hk) as (Hsame & _). congruence.
Qed.

(** What is said to the outside: memory is used with the credentials [K],
    files are put in the user's own directory. *)
Context (K : option (string * string)) (calls0 : list call).
Definition call_ok (c : call) : Prop :=
  match c with
  | CRecall key accountId _ _ | CRemember key accountId _ => K = Some (key, accountId)
  | CPut key => ∃ name, key = "users/" +:+ u +:+ "/" +:+ name
  | _ => True
  end.
Definition safe (s : research) : Prop := kept (tables s) ∧ ∃ new, calls s = calls0 ++ new ∧ Forall call_ok new.
Lemma safe_external {B} (f : nat → db → failure + (db * B)) :
  (∀ n t t' b, kept t → f n t = inr (t', b) → kept t') → invariant safe (external w f).
Proof.
  intros Hf s Hs. unfold external. destruct (w_down w _); [exact Hs|]. destruct (f _ _) as [e|[t' b]] eqn:E; [exact Hs|].
  destruct Hs as [Hk Hc]. split; [by eapply Hf in E|exact Hc].
Qed.
Lemma safe_select {B} (f : db → B) : invariant safe (select w f).
Proof. apply safe_external. by intros n t t' b Hk [= <- _]. Qed.
Lemma safe_answer {B} (f : nat → B) : invariant safe (answer w f).
Proof. apply safe_external. by intros n t t' b Hk [= <- _]. Qed.
Lemma safe_update (f : db → db) : (∀ t, kept t → kept (f t)) → invariant safe (update w f).
Proof. intros Hf. apply safe_external. intros n t t' b Hk [= <- _]. by apply Hf. Qed.
Lemma safe_now : invariant safe (now w).
Proof. by intros s Hs. Qed.
Lemma safe_uuid : invariant safe (uuid w).
Proof. by intros s Hs. Qed.
Lemma safe_record c : call_ok c → invariant safe (record_call c).
Proof.
  intros Hc s [Hk (new & Hn & Hf)]. split; [done|]. exists (new ++ [c]). cbn. rewrite Hn, app_assoc. split; [done|]. apply Forall_app. by split; [|constructor].
Qed.
Lemma safe_database {B} cause (m : RM B) : invariant safe m → invariant safe (or_database cause m).
Proof. intros Hm. apply invariant_catch; [done|]. intros e. apply invariant_throw. Qed.
(** What a read returns is a fact about tables that are kept. *)
Lemma select_found {B} (f : db → B) (F : B → Prop) : (∀ t, kept t → F (f t)) → triple safe (select w f) (λ b s, safe s ∧ F b) (λ _, safe).
Proof.
  intros Hf s Hs. unfold select, external. destruct (w_down w _); [exact Hs|]. split; [exact Hs|]. by apply Hf, Hs.
Qed.
Lemma database_found {B} cause (m : RM B) (F : B → Prop) :
  triple safe m (λ b s, safe s ∧ F b) (λ _, safe) → triple safe (or_database cause m) (λ b s, safe s ∧ F b) (λ _, safe).
Proof. intros Hm. eapply triple_catch; [exact Hm|]. by intros e s Hs. Qed.
Lemma found_bind {B C} (m : RM B) (k : B → RM C) (F : B → Prop) :
  triple safe m (λ b s, safe s ∧ F b) (λ _, safe) → (∀ b, F b → invariant safe (k b)) → invariant safe (m ≫= k).
Proof. intros Hm Hk. eapply triple_bind; [exact Hm|]. intros b s [Hs HF]. by apply Hk. Qed.

(** *** Users are only read here *)
Lemma safe_user id : invariant safe (getUserById w id).
Proof. apply safe_database, safe_select. Qed.

(** *** Chats *)
Lemma chat_found id : triple safe (getChatById w id)
  (λ o s, safe s ∧ match o with Some c => ch_id c = id ∧ (ch_userId c = u → own_chat id) | None => own_chat id end) (λ _, safe).
Proof.
  apply database_found, select_found. intros t Hk. destruct (List.find _ _) as [c|] eqn:Ef.
  - apply find_some in Ef as [Hin Hid%seqb_eq]. subst id. split; [done|]. intros Hu. by eapply own_of_row; [|apply list_elem_of_In|].
  - apply (own_absent t); [done|]. unfold has_chat. destruct (existsb _ _) eqn:E; [|done].
    apply existsb_exists in E as (c & Hin & Hc). by rewrite (find_none _ _ Ef c Hin) in Hc.
Qed.
Lemma kept_insert_chat t c : kept t → ch_userId c = u → has_chat (ch_id c) t = false → kept (set_chats (chats t ++ [c]) t).
Proof.
  intros Hk Hu Hn. apply (kept_chats t); try done.
  - rewrite map_app. apply NoDup_app. split; [apply (wf_chats _ (proj1 Hk))|]. split; [|apply NoDup_singleton].
    intros x (d & -> & Hd)%in_map Hx%list_elem_of_singleton. enough (has_chat (ch_id c) t = true) by congruence.
    apply existsb_exists. exists d. split; [by apply list_elem_of_In|]. by rewrite Hx, seqb_refl.
  - intros b d Hb Hd. destruct (wf_blobs _ (proj1 Hk) b d Hb Hd) as (x & Hx & ?). exists x. split; [|done]. apply elem_of_app. by left.
  - intros y d Hy Hd. destruct (wf_links _ (proj1 Hk) y d Hy Hd) as (x & Hx & ?). exists x. split; [|done]. apply elem_of_app. by left.
  - rewrite List.filter_app. cbn. unfold of_user at 2. rewrite Hu, seqb_refl. cbn. by rewrite app_nil_r.
Qed.
(** A chat that was just stored is the user's: its id was free. *)
Lemma saved_chat_found id title v ids : triple safe (saveChat w id u title v ids) (λ _ s, safe s ∧ own_chat id) (λ _, safe).
Proof.
  eapply triple_bind; [apply safe_now|intros t1]. apply database_found. intros s Hs. unfold insert_chat, external.
  destruct (w_down w _); [exact Hs|]. cbn [ch_id tables tick]. destruct (has_chat id (tables s)) eqn:Eh; [exact Hs|].
  destruct (negb _); [exact Hs|]. destruct Hs as [Hk Hc]. split; [|by eapply own_absent].
  split; [by apply kept_insert_chat|exact Hc].
Qed.
Lemma safe_save_chat id title v ids : invariant safe (saveChat w id u title v ids).
Proof. eapply triple_conseq; [apply saved_chat_found|done|by intros a s [? _]|done]. Qed.
Lemma safe_update_chat id f : own_chat id → (∀ c, ch_id (f c) = ch_id c) → (∀ c, ch_userId (f c) = ch_userId c) → invariant safe (update_chat w id f).
Proof.
  intros Ho Hi Hu. apply safe_update. intros t Hk. set (g c := if seqb (ch_id c) id then f c else c).
  assert (Hgi : ∀ c, ch_id (g c) = ch_id c) by (intros c; unfold g; by case_match).
  assert (Hgu : ∀ c, ch_userId (g c) = ch_userId c) by (intros c; unfold g; by case_match).
  assert (Hin : ∀ x P, x ∈ chats t → (∀ y, ch_id y = ch_id x → ch_userId y = ch_userId x → P y) → ∃ y, y ∈ map g (chats t) ∧ P y).
  { intros x P Hx HP. exists (g x). split; [apply in_map; by exists x|]. by apply HP. }
  apply (kept_chats t); try done.
  - rewrite map_map. erewrite map_ext; [apply (wf_chats _ (proj1 Hk))|done].
  - intros b c Hb Hc. destruct (wf_blobs _ (proj1 Hk) b c Hb Hc) as (x & Hx & Hxi & Hxu). apply (Hin x); [done|]. intros y -> ->. done.
  - intros b c Hb Hc. destruct (wf_links _ (proj1 Hk) b c Hb Hc) as (x & Hx & Hxi & Hxu). apply (Hin x); [done|]. intros y -> ->. done.
  - apply filter_fixed; intros c Hc; [unfold of_user; by rewrite Hgu|]. intros Hn. unfold g. destruct (seqb (ch_id c) id) eqn:E; [|done].
    apply seqb_eq in E. subst id. rewrite (row_of_own t c Hk Hc Ho) in Hn || unfold of_user in Hn.
    rewrite (row_of_own t c Hk Hc Ho), seqb_refl in Hn. done.
Qed.
Lemma safe_title id title : own_chat id → invariant safe (updateChatTitleById w id title).
Proof. intros Ho. apply invariant_catch; [by apply safe_update_chat|]. intros e. apply invariant_ret. Qed.
Lemma safe_context id x : own_chat id → invariant safe (updateChatSprintContext w id x).
Proof. intros Ho. by apply safe_database, safe_update_chat. Qed.
Lemma safe_visibility id v : own_chat id → invariant safe (updateChatVisibilityById w id v).
Proof. intros Ho. by apply safe_database, safe_update_chat. Qed.

(** *** Messages and streams *)
Lemma safe_save_messages l : Forall (λ m, own_chat (ms_chatId m)) l → invariant safe (saveMessages w l).
Proof.
  intros Hl. apply safe_database, safe_external. intros n t t' b Hk. destruct (negb _); [done|]. destruct (negb _); [done|]. intros [= <- _].
  apply kept_messages; [done|]. rewrite List.filter_app. rewrite (filter_none _ l); [by rewrite app_nil_r|].
  intros m Hm. rewrite Forall_forall in Hl. destruct (kept_same t Hk) as (Hs & _). rewrite Hs. by apply Hl.
Qed.
Lemma safe_update_message id parts : mem A id = true → invariant safe (updateMessage w id parts).
Proof.
  intros HA. apply safe_database, safe_update. intros t Hk. apply kept_messages; [done|]. apply filter_mapped; intros m Hm.
  - by destruct (seqb (ms_id m) id).
  - intros _. destruct (seqb (ms_id m) id) eqn:E; [|done]. apply seqb_eq in E. unfold masked. cbn. rewrite E, HA. done.
Qed.
Lemma safe_delete_messages (p : message_row → bool) : (∀ m, p m = true → own_chat (ms_chatId m)) →
  invariant safe (update w (λ t, set_messages (List.filter (λ m, negb (p m)) (messages t)) t)).
Proof.
  intros Hp. apply safe_update. intros t Hk. apply kept_messages; [done|]. f_equal. apply filter_nested. intros m _ Ho.
  destruct (p m) eqn:E; [|done]. apply Hp in E. destruct (kept_same t Hk) as (Hs & _). unfold own_chat in E. congruence.
Qed.
Lemma own_ids ids id : Forall own_chat ids → mem ids id = true → own_chat id.
Proof. rewrite Forall_forall, mem_in. auto. Qed.
Lemma safe_delete_messages_of ids : Forall own_chat ids → invariant safe (delete_messages_of w ids).
Proof. intros Hi. apply (safe_delete_messages (λ m, mem ids (ms_chatId m))). intros m. by apply own_ids. Qed.
Lemma safe_delete_after id t1 : own_chat id → invariant safe (deleteMessagesByChatIdAfterTimestamp w id t1).
Proof.
  intros Ho. apply safe_database, invariant_bind; [apply safe_select|intros [|i l]; [apply invariant_ret|]].
  apply (safe_delete_messages (λ m, seqb (ms_chatId m) id && mem (i :: l) (ms_id m))).
  intros m [Hm _]%andb_true_iff. apply seqb_eq in Hm. by rewrite Hm.
Qed.
Lemma safe_delete_streams_of ids : Forall own_chat ids → invariant safe (delete_streams_of w ids).
Proof.
  intros Hi. apply safe_update. intros t Hk. apply kept_streams; [done|]. apply filter_nested. intros x _ Hx.
  destruct (kept_same t Hk) as (Hs & _). destruct (mem ids (st_chatId x)) eqn:E; [|done]. apply (own_ids ids) in E; [|done]. unfold own_chat in E. congruence.
Qed.
Lemma safe_stream sid id : own_chat id → invariant safe (createStreamId w sid id).
Proof.
  intros Ho. apply invariant_bind; [apply safe_now|intros t1]. apply safe_database, safe_external. intros n t t' b Hk.
  destruct (existsb _ _); [done|]. destruct (negb _); [done|]. intros [= <- _]. apply kept_streams; [done|].
  rewrite List.filter_app. cbn. destruct (kept_same t Hk) as (Hs & _). rewrite Hs, Ho. by rewrite app_nil_r.
Qed.

(** *** Removing chats *)
Lemma blob_of_other t b c : kept t → b ∈ blobs t → rb_chatId b = Some c → own_chat c → rb_userId b = u.
Proof.
  intros Hk Hb Hc Ho. destruct (wf_blobs _ (proj1 Hk) b c Hb Hc) as (x & Hx & <- & <-). by eapply row_of_own.
Qed.
Lemma source_of_other t y c : kept t → y ∈ sources t → so_chatId y = Some c → own_chat c → so_userId y = u.
Proof.
  intros Hk Hb Hc Ho. destruct (wf_links _ (proj1 Hk) y c Hb Hc) as (x & Hx & <- & <-). by eapply row_of_own.
Qed.
Lemma refers_some ids o : refers ids o = true → ∃ c, o = Some c ∧ mem ids c = true.
Proof. destruct o as [c|]; [|done]. by exists c. Qed.
Lemma safe_detach ids : Forall own_chat ids → invariant safe (detach_blobs w ids).
Proof.
  intros Hi. apply safe_update. intros t Hk. apply kept_blobs; [done| |].
  - intros b c (x & -> & Hx)%in_map. destruct (refers ids (rb_chatId x)); [done|]. intros Hc. by eapply (wf_blobs _ (proj1 Hk)).
  - apply filter_fixed; intros b Hb; [by destruct (refers _ _)|]. intros Hn.
    destruct (refers ids (rb_chatId b)) eqn:E; [|done]. apply refers_some in E as (c & Hc & Hm). unfold of_blob_user in Hn.
    rewrite (blob_of_other t b c) in Hn; [by rewrite seqb_refl in Hn|done..|]. by eapply own_ids.
Qed.
Lemma safe_delete_chats p : (∀ t c, kept t → c ∈ chats t → p c = true → ch_userId c = u) → invariant safe (delete_chats w p).
Proof.
  intros Hp. apply safe_external. intros n t t' b Hk. cbv zeta. destruct (existsb _ _ || existsb _ _ || existsb _ _) eqn:E; [done|]. intros [= <- _].
  apply orb_false_iff in E as [_ Hfree]. set (gone := List.filter p (chats t)) in *.
  assert (Hstay : ∀ x, x ∈ chats t → mem (map ch_id gone) (ch_id x) = false → x ∈ List.filter (λ c, negb (p c)) (chats t)).
  { intros x Hx Hm. apply in_filter. split; [done|]. destruct (p x) eqn:Epx; [|done]. enough (mem (map ch_id gone) (ch_id x) = true) by congruence.
    apply mem_in, in_map. exists x. split; [done|]. by apply in_filter. }
  assert (Hgone : ∀ id, mem (map ch_id gone) id = true → own_chat id).
  { intros id (x & -> & [Hx Hpx]%in_filter)%mem_in%in_map. eapply own_of_row; [done..|]. by eapply Hp. }
  set (unlink x := if refers (map ch_id gone) (so_chatId x) then unlinked x else x).
  assert (Hks : kept (set_sources (map unlink (sources t)) t)).
  { apply kept_sources; [done| | |].
    - rewrite map_map. erewrite map_ext; [apply (wf_sources _ (proj1 Hk))|]. intros x. unfold unlink. by case_match.
    - intros y c (x & -> & Hx)%in_map. unfold unlink. destruct (refers _ _); [done|]. intros Hc. by eapply (wf_links _ (proj1 Hk)).
    - apply filter_fixed; intros y Hy; [unfold unlink; by case_match|]. intros Hn. unfold unlink.
      destruct (refers _ _) eqn:Er; [|done]. apply refers_some in Er as (c & Hc & Hm). unfold of_source_user in Hn.
      rewrite (source_of_other t y c) in Hn; [by rewrite seqb_refl in Hn|done..|]. by apply Hgone. }
  apply (kept_chats _ (List.filter (λ c, negb (p c)) (chats t))) in Hks; cbn in *; [done| | | |].
  - apply filter_keys, (wf_chats _ (proj1 Hk)).
  - intros b0 c Hb Hc. destruct (wf_blobs _ (proj1 Hk) b0 c Hb Hc) as (x & Hx & Hxc & Hxu). exists x. split; [|done]. apply Hstay; [done|].
    destruct (mem _ _) eqn:Em; [|done]. assert (Ht : existsb (λ b, refers (map ch_id gone) (rb_chatId b)) (blobs t) = true); [|congruence].
    apply existsb_exists. exists b0. split; [by apply list_elem_of_In|]. by rewrite Hc, <-Hxc.
  - intros y c (x0 & -> & Hx0)%in_map. unfold unlink. destruct (refers _ _) eqn:Er; [done|]. intros Hc.
    destruct (wf_links _ (proj1 Hk) x0 c Hx0 Hc) as (x & Hx & Hxc & Hxu). exists x. split; [|done]. apply Hstay; [done|].
    rewrite Hc in Er. by rewrite Hxc.
  - apply filter_nested. intros c Hc Hn. destruct (p c) eqn:Epc; [|done]. unfold of_user in Hn. by rewrite (Hp t c Hk Hc Epc), seqb_refl in Hn.
Qed.
Lemma deleted_found id : own_chat id → triple safe (deleteChatById w id) (λ o s, safe s ∧ ∀ c, o = Some c → ch_userId c = u) (λ _, safe).
Proof.
  intros Ho. assert (Hi : Forall own_chat [id]) by by repeat constructor. apply database_found.
  eapply triple_bind; [by apply safe_delete_messages_of|intros x1]. eapply triple_bind; [by apply safe_delete_streams_of|intros x2].
  eapply triple_bind; [by apply safe_detach|intros x0]. set (p c := seqb (ch_id c) id).
  assert (Hp : ∀ t c, kept t → c ∈ chats t → p c = true → ch_userId c = u).
  { intros t c Hk Hc E%seqb_eq. eapply row_of_own; [done..|]. by rewrite E. }
  eapply (triple_bind _ (λ l s, safe s ∧ Forall (λ c, ch_userId c = u) l)).
  - intros s Hs. pose proof (safe_delete_chats p Hp s Hs) as Hd. unfold delete_chats, external in *. destruct (w_down w _); [done|].
    cbv zeta in *. destruct (existsb _ _ || existsb _ _ || existsb _ _); [done|]. split; [done|]. apply Forall_forall.
    intros c [Hc Hpc]%in_filter. eapply Hp; [apply Hs|done..].
  - intros l s [Hs Hl]. split; [done|]. intros c Hc. destruct l as [|x l]; [done|]. injection Hc as ->. by apply Forall_cons in Hl as [? _].
Qed.
Lemma safe_delete_chat id : own_chat id → invariant safe (deleteChatById w id).
Proof. intros Ho. eapply triple_conseq; [by apply deleted_found|done|by intros a s [? _]|done]. Qed.
Lemma safe_delete_all : invariant safe (deleteAllChatsByUserId w u).
Proof.
  apply safe_database. apply (found_bind _ _ (Forall own_chat)).
  - apply select_found. intros t Hk. apply Forall_forall. intros id (c & -> & [Hc Hu]%in_filter)%in_map.
    eapply own_of_row; [done..|]. by apply seqb_eq in Hu.
  - intros [|i l] Hi; [apply invariant_ret|]. apply invariant_bind; [by apply safe_delete_messages_of|intros _].
    apply invariant_bind; [by apply safe_delete_streams_of|intros _]. apply invariant_bind; [by apply safe_detach|intros _].
    apply invariant_bind; [|intros r; apply invariant_ret]. apply safe_delete_chats. intros t c _ _ Hc. by apply seqb_eq in Hc.
Qed.

(** *** Sources, chunks and blobs *)
Lemma safe_source typ title url summary claims n :
  triple safe (createSource w None u typ title url summary claims n) (λ x s, safe s ∧ own_source (so_id x)) (λ _, safe).
Proof.
  apply database_found. intros s0 Hs0. unfold external. destruct (w_down w _); [exact Hs0|].
  set (x := Source _ _ _ _ _ _ _ _ _ _). destruct (has_source (so_id x) _) eqn:Eh; [exact Hs0|].
  change (has_source (so_id x) (tables s0) = false) in Eh. cbn [tables tick]. destruct (negb _ || _); [exact Hs0|].
  destruct Hs0 as [Hs Hcalls]. set (t := tables s0) in *. assert (Hx : ∀ y, y ∈ sources t → so_id y ≠ so_id x).
  { intros y Hy E. enough (has_source (so_id x) t = true) by congruence. apply existsb_exists. exists y.
    split; [by apply list_elem_of_In|]. by rewrite E, seqb_refl. }
  split; [split; [|exact Hcalls]|].
  - apply kept_sources; [done| | |].
    + rewrite map_app. apply NoDup_app. split; [apply (wf_sources _ (proj1 Hs))|]. split; [|apply NoDup_singleton].
      intros i (y & -> & Hy)%in_map Hi%list_elem_of_singleton. by apply (Hx y).
    + intros y c [Hy| ->%list_elem_of_singleton]%elem_of_app Hc; [by eapply (wf_links _ (proj1 Hs))|done].
    + rewrite List.filter_app. cbn. unfold of_source_user at 2. cbn. rewrite seqb_refl. cbn. by rewrite app_nil_r.
  - destruct (kept_same t Hs) as (_ & Hso & _). unfold own_source. rewrite <-Hso. unfold source_of_others.
    destruct (mem _ _) eqn:E; [|done]. apply mem_in, in_map in E as (y & Hy & [Hin _]%in_filter). symmetry in Hy. by destruct (Hx y Hin).
Qed.
Lemma safe_chunks l : Forall (λ c, own_source (nc_sourceId c)) l → invariant safe (createSourceChunks w l).
Proof.
  intros Hl. apply safe_database, safe_external. intros n t t' b Hk. cbv zeta. destruct (bool_decide _) eqn:En; [|done]. cbn [negb].
  destruct (negb _); [done|]. intros [= <- _]. apply bool_decide_eq_true in En. apply kept_chunks; [done..|].
  rewrite List.filter_app. rewrite (filter_none _ (imap _ _)); [by rewrite app_nil_r|]. intros c (i & x & -> & Hx)%elem_of_lookup_imap.
  destruct (kept_same t Hk) as (_ & Hs & _). rewrite Hs. rewrite Forall_lookup in Hl. by eapply Hl.
Qed.
(** The rows of the join are chunks of the user's own sources. *)
Lemma joined_own t time r : kept t → r ∈ joined u time t →
  r.1 ∈ chunks t ∧ r.2 ∈ sources t ∧ so_userId r.2 = u ∧ so_id r.2 = ck_sourceId r.1 ∧ own_chunk (ck_id r.1) ∧ time < ck_expiresAt r.1.
Proof.
  intros Hk [Hin [Hu%seqb_eq Ht]%andb_true_iff]%in_filter. apply list_elem_of_In, in_flat_map in Hin as (c & Hc & Hin).
  apply list_elem_of_In, in_map in Hin as (x & -> & [Hx Hxc%seqb_eq]%in_filter). apply list_elem_of_In in Hc. cbn in *.
  apply Z.ltb_lt in Ht. split_and!; try done. destruct (kept_same t Hk) as (_ & _ & Hs). unfold own_chunk. rewrite <-Hs.
  unfold chunk_of_others. destruct (mem _ _) eqn:E; [|done].
  apply mem_in, in_map in E as (d & Hd & [Hin Ho]%in_filter). apply mem_in, in_map in Ho as (y & Hy & [Hyin Hyu]%in_filter).
  rewrite (same_key ck_id (chunks t) d c (wf_chunks _ (proj1 Hk)) Hin Hc (eq_sym Hd)) in Hy.
  rewrite (same_key so_id (sources t) y x (wf_sources _ (proj1 Hk)) Hyin Hx) in Hyu by congruence.
  unfold of_source_user in Hyu. by rewrite Hu, seqb_refl in Hyu.
Qed.
Lemma safe_own_chunks ids f : Forall own_chunk ids → (∀ c, ck_id (f c) = ck_id c) → (∀ c, ck_sourceId (f c) = ck_sourceId c) →
  invariant safe (update w (λ t, set_chunks (map (λ c, if mem ids (ck_id c) then f c else c) (chunks t)) t)).
Proof.
  intros Hi Hf Hs. apply safe_update. intros t Hk. apply kept_chunks; [done| |].
  - rewrite map_map. erewrite map_ext; [apply (wf_chunks _ (proj1 Hk))|]. intros c. cbn. destruct (mem _ _); by rewrite ?Hf.
  - apply filter_fixed; intros c Hc; [cbn; destruct (mem ids _); by rewrite ?Hs|]. intros Ho. cbn. destruct (mem ids (ck_id c)) eqn:E; [|done].
    apply mem_in in E. rewrite Forall_forall in Hi. specialize (Hi _ E). destruct (kept_same t Hk) as (_ & _ & Hc').
    unfold own_chunk in Hi. rewrite <-Hc' in Hi. enough (chunk_of_others u t (ck_id c) = true) by congruence.
    apply mem_in, in_map. exists c. split; [done|]. by apply in_filter.
Qed.
Definition own_row (r : chunk_row * source_row) : Prop := so_userId r.2 = u ∧ so_id r.2 = ck_sourceId r.1 ∧ own_chunk (ck_id r.1).
Lemma by_date_in {B} (date : B → Z) l x : x ∈ by_date date l ↔ x ∈ l.
Proof. unfold by_date. by rewrite (merge_sort_Permutation (λ a b, Is_true (date a <=? date b)) l). Qed.
Lemma newest_in {B} (date : B → Z) l x : x ∈ newest date l ↔ x ∈ l.
Proof. unfold newest. by rewrite (merge_sort_Permutation (λ a b, Is_true (date b <=? date a)) l). Qed.
Lemma chunks_found ids : triple safe (getChunksByIds w ids u) (λ l s, safe s ∧ Forall own_row l) (λ _, safe).
Proof.
  destruct ids as [|i ids]; [by intros s Hs|]. eapply triple_bind; [apply safe_now|intros time]. apply database_found, select_found.
  intros t Hk. apply Forall_forall. intros r Hr. apply by_date_in, in_filter in Hr as [Hr _]. apply joined_own in Hr; [|done]. unfold own_row. naive_solver.
Qed.
Lemma neighbors_found id n : triple safe (getChunkNeighbors w id n u) (λ l s, safe s ∧ Forall (λ c, source_of_others u t0 (ck_sourceId c) = false) l) (λ _, safe).
Proof.
  eapply triple_bind; [apply safe_now|intros time]. apply database_found.
  apply (triple_bind _ (λ o s, safe s ∧ match o with Some (c, _) => own_source (ck_sourceId c) | None => True end)).
  - apply select_found. intros t Hk. destruct (head _) as [[c x]|] eqn:E; [|done]. apply head_Some_elem_of in E.
    apply in_filter in E as [E _]. apply joined_own in E as (_ & Hx & Hu & Hi & _); [|done]. cbn in *.
    destruct (kept_same t Hk) as (_ & Hs & _). unfold own_source. rewrite <-Hs, <-Hi. unfold source_of_others.
    destruct (mem _ _) eqn:E; [|done]. apply mem_in, in_map in E as (y & Hy & [Hyin Hyu]%in_filter).
    rewrite (same_key so_id (sources t) y x (wf_sources _ (proj1 Hk)) Hyin Hx (eq_sym Hy)) in Hyu.
    unfold of_source_user in Hyu. by rewrite Hu, seqb_refl in Hyu.
  - intros [[c x]|] s [Hs Ho]; [|by split]. cbn in *.
    revert s Hs. eapply triple_bind; [apply safe_now|intros later]. apply select_found. intros t Hk. apply Forall_forall.
    intros d Hd. apply by_date_in, in_filter in Hd as [_ Hd]. apply andb_true_iff in Hd as [Hd _]. apply andb_true_iff in Hd as [Hd _].
    apply andb_true_iff in Hd as [Hd%seqb_eq _]. by rewrite Hd.
Qed.
Lemma safe_sprint_blob chatId blobId title summary content citations metas tags n :
  own_chat chatId → invariant safe (createSprintBlob w chatId u blobId title summary content citations metas tags n).
Proof.
  intros Ho. apply safe_database, safe_external. intros k t t' b Hk. cbv zeta. destruct (existsb _ _); [done|].
  cbn. destruct (has_chat chatId t) eqn:Ec; [|by rewrite orb_true_r]. destruct (negb _ || _); [done|]. intros [= <- _]. apply kept_blobs; [done| |].
  - intros x c [Hx| ->%list_elem_of_singleton]%elem_of_app Hc; [by eapply (wf_blobs _ (proj1 Hk))|]. cbn in Hc. injection Hc as <-.
    apply existsb_exists in Ec as (y & Hy%list_elem_of_In & Hyc%seqb_eq). exists y. split; [done|]. split; [done|]. cbn.
    eapply row_of_own; [done..|]. by rewrite Hyc.
  - rewrite List.filter_app. cbn. unfold of_blob_user at 2. cbn. rewrite seqb_refl. cbn. by rewrite app_nil_r.
Qed.

(** *** Lists of one user *)
Notation own_chats := (Forall (λ c, ch_userId c = u)).
Lemma page_found p n : triple safe (chats_page w u p n) (λ l s, safe s ∧ own_chats l) (λ _, safe).
Proof.
  intros s Hs. unfold chats_page, external. destruct (w_down w _); [exact Hs|]. destruct n as [n|]; [|exact Hs].
  destruct (n <? 0); [exact Hs|]. split; [exact Hs|]. apply Forall_take, Forall_forall. intros c Hc.
  apply newest_in, in_filter in Hc as [_ Hc]. apply andb_true_iff in Hc as [_ Hc]. by apply seqb_eq.
Qed.
Lemma relative_found cursor p n : triple safe (relative_page w u cursor p n) (λ l s, safe s ∧ own_chats l) (λ _, safe).
Proof. eapply triple_bind; [apply safe_select|intros [c|]]; [apply page_found|]. by intros s Hs. Qed.
Lemma chats_found limit a b : triple safe (getChatsByUserId w u limit a b) (λ r s, safe s ∧ own_chats r.1) (λ _, safe).
Proof.
  apply database_found. apply (triple_bind _ (λ l s, safe s ∧ own_chats l)).
  - destruct (given a); [apply relative_found|]. destruct (given b); [apply relative_found|apply page_found].
  - intros l s [Hs Hl]. split; [done|]. cbn. case_match; [by apply Forall_take|done].
Qed.
Lemma sources_found : triple safe (getSourcesByUserId w u) (λ l s, safe s ∧ Forall (λ x, so_userId x = u) l) (λ _, safe).
Proof.
  apply database_found, select_found. intros t Hk. apply Forall_forall. intros x Hx. apply newest_in, in_filter in Hx as [_ Hx]. by apply seqb_eq.
Qed.
Lemma sprints_found : triple safe (getSprintsByUserId w u) (λ l s, safe s ∧ Forall (λ x, rb_userId x = u) l) (λ _, safe).
Proof.
  apply database_found, select_found. intros t Hk. apply Forall_forall. intros x Hx. apply newest_in, in_filter in Hx as [_ Hx]. by apply seqb_eq.
Qed.
Lemma chosen_sprints_found ids : triple safe (getSprintsByIds w ids u) (λ l s, safe s ∧ Forall (λ x, rb_userId x = u) l) (λ _, safe).
Proof.
  destruct ids; [by intros s Hs|]. apply database_found, select_found. intros t Hk. apply Forall_forall. intros x Hx.
  apply newest_in, in_filter in Hx as [_ Hx]. apply andb_true_iff in Hx as [_ Hx]. by apply seqb_eq.
Qed.
(** A sprint of an own chat is the user's: a sprint and its chat have one
    owner. *)
Lemma sprint_of_chat_found id : own_chat id →
  triple safe (getSprintByChatId w id) (λ o s, safe s ∧ ∀ b, o = Some b → rb_userId b = u) (λ _, safe).
Proof.
  intros Ho. apply database_found, select_found. intros t Hk b Hb. apply find_some in Hb as [Hin Hr%refers_some].
  destruct Hr as (c & Hc & Hci%mem_in). apply list_elem_of_singleton in Hci as ->.
  destruct (wf_blobs t (proj1 Hk) b id) as (x & Hx & Hid & Hu); [by apply list_elem_of_In|done|]. rewrite <-Hu.
  destruct (of_user u x) eqn:E; [by apply seqb_eq in E|]. exfalso.
  unfold own_chat in Ho. rewrite <-(proj1 (kept_same t Hk)) in Ho. apply not_true_iff_false in Ho. apply Ho, mem_in, in_map.
  exists x. split; [done|]. apply in_filter. by rewrite E.
Qed.
Lemma messages_found id : triple safe (getMessagesByChatId w id) (λ l s, safe s ∧ Forall (λ m, ms_chatId m = id) l) (λ _, safe).
Proof.
  apply database_found, select_found. intros t Hk. apply Forall_forall. intros x Hx. apply by_date_in, in_filter in Hx as [_ Hx]. by apply seqb_eq.
Qed.
End Frame.
