(* ===== verification/ResearchAuth.v ===== *)
(** * Signing in to the Researcher (apps/researcher/lib/auth, app/api/auth)

    A session cookie is given out against a proof: a signature over a
    single-use challenge, which the server signs into a cookie and keeps in
    Redis, or a delegate key that an account on the chain lists.  The routes
    are programs over the database and Redis of [ResearchDb]; the proxy
    decides which requests reach a page.

    jose, the chain, signatures and key derivation are arguments of the
    world; that the verification of a signature refuses another signer when
    it is given an address is what the SDK documents. *)
From Stdlib Require Import Ascii.
From S2P Require Import Prelude JsText JsNumber JsonParse Retry ResearchDb Researcher.
From S2P Require Hex NoterAuth.
From S2P Require Import SealId.
Local Open Scope Z_scope.

(** ** Errors of the routes *)
Inductive auth_failure : Type :=
| SharedRedisUnavailableError
| AuthRateLimitError (status : Z)
| DelegateAccountBindingError (message : string)
| Other (e : failure).
Definition AM : Type → Type := ST research auth_failure.
Definition lift {A} (m : RM A) : AM A := try_catch m (λ e, throw (Other e)).
Definition raise {A} (e : js_error) : AM A := throw (Other (Thrown e)).
(** A reply: status, the [Retry-After] header and the JSON body. *)
Record auth_reply : Type := Reply { ar_status : Z; ar_retryAfter : option string; ar_body : json }.
Definition error_body (message : string) : json := JObj [("error", JStr message)].
Definition reply_error (status : Z) (message : string) : AM auth_reply := mret (Reply status None (error_body message)).

(** ** Requests of the same origin (lib/auth/request-security.ts) *)
Definition isSameOriginRequest (w : world) (header : string → option string) : bool :=
  match given (header "origin"), given (header "host") with
  | Some originHeader, Some host =>
      match w_url w originHeader with
      | None => false
      | Some (protocol, origin_host, hostname) =>
          seqb origin_host host &&
          (seqb protocol "https:" || (seqb protocol "http:" && mem ["localhost"; "127.0.0.1"; "[::1]"] hostname))
      end
  | _, _ => false
  end.

(** ** Which requests pass (proxy.ts) *)
Inductive passage : Type := Pong | Next | ToLogin | ToHome.
Definition proxy (w : world) (t : Z) (pathname : string) (session : option string) : passage :=
  if starts_with "/ping" pathname then Pong else
  if starts_with "/api/auth" pathname then Next else
  let isAuthenticated := match given session with
                         | Some token => bool_decide (is_Some (w_jwtVerify w t (secret w) token))
                         | None => false
                         end in
  if negb isAuthenticated then if seqb pathname "/login" then Next else ToLogin else
  if seqb pathname "/login" || seqb pathname "/register" then ToHome else Next.

Section Auth.
Context `{SuiSdk} (w : world).

(** ** The limit of the sign-in routes (lib/ratelimit.ts) *)
Inductive AuthRateLimitBucket : Type := challenge | verify.
Definition bucket_name (b : AuthRateLimitBucket) : string := match b with challenge => "challenge" | verify => "verify" end.
Definition per_ip (b : AuthRateLimitBucket) : Z := match b with challenge => 20 | verify => 10 end.
Definition global (b : AuthRateLimitBucket) : Z := match b with challenge => 300 | verify => 150 end.
Definition AUTH_RATE_LIMIT_TTL_SECONDS : Z := 60.
Definition ip_key (b : AuthRateLimitBucket) (ip : string) : string := "auth-rate-limit:{" +:+ bucket_name b +:+ "}:ip:" +:+ ip.
Definition global_key (b : AuthRateLimitBucket) : string := "auth-rate-limit:{" +:+ bucket_name b +:+ "}:global".
Definition checkAuthRateLimit (header : string → option string) (b : AuthRateLimitBucket) : AM unit :=
  let ip := default "unknown" (getClientIp w header) in
  try_catch
    (_ ← lift (redis_client w);
     result ← lift (redis_command w (λ t m, NoterAuth.rate_script t (ip_key b ip) (global_key b) (per_ip b) (global b) AUTH_RATE_LIMIT_TTL_SECONDS m));
     if negb (result =? 1) then throw (AuthRateLimitError 429) else mret tt)
    (λ e, throw (match e with AuthRateLimitError _ => e | _ => AuthRateLimitError 503 end)).

(** ** Challenges (lib/auth/enoki-challenge.ts) *)
Definition CHALLENGE_COOKIE : string := "enoki-auth-challenge".
Definition CHALLENGE_TTL_SECONDS : Z := 5 * 60.
Definition CHALLENGE_REDIS_PREFIX : string := "enoki-auth:challenge:".
Definition CHALLENGE_AUDIENCE : string := "enoki-auth".
Definition CHALLENGE_ISSUER : string := "walrus-memory-researcher".
Definition getSecret : option string := checked (λ s, (32 <=? slen s)%nat) (w_env w "AUTH_SECRET").
Definition challenge_message (address nonce : string) (issuedAt : Z) : string :=
  join nl ["Sign in to Walrus Memory Researcher"; "Address: " +:+ address; "Nonce: " +:+ nonce; "Issued at: " +:+ toISOString issuedAt].
Definition challenge_claims (address message nonce : string) (now : Z) : json :=
  JObj [("address", JStr address); ("message", JStr message); ("aud", JStr CHALLENGE_AUDIENCE); ("iss", JStr CHALLENGE_ISSUER);
        ("jti", JStr nonce); ("iat", jint (now / 1000)); ("exp", jint (now / 1000 + CHALLENGE_TTL_SECONDS))].
Definition challenge_text (address message : string) : string :=
  json_stringify (λ _, empty_str) (JObj [("address", JStr address); ("message", JStr message)]).
(** [set(key, value, { EX: seconds, NX: true })] *)
Definition redis_set_new (key value : string) (seconds t : Z) (m : gmap string NoterAuth.redis_entry) :
    option (gmap string NoterAuth.redis_entry * bool) :=
  match NoterAuth.redis_get t key m with
  | Some _ => Some (m, false)
  | None => Some (<[key := NoterAuth.Entry (NoterAuth.RText value) (Some (t + 1000 * seconds))]> m, true)
  end.
(** [getDel(key)] *)
Definition redis_get_del (key : string) (t : Z) (m : gmap string NoterAuth.redis_entry) : option (gmap string NoterAuth.redis_entry * option string) :=
  Some (delete key m, NoterAuth.value_text <$> NoterAuth.redis_get t key m).
Definition issueEnokiChallenge (rawAddress : string) : AM string :=
  let address := normalizeSuiAddress rawAddress in
  nonce ← lift (uuid w);
  issuedAt ← lift (now w);
  let message := challenge_message address nonce issuedAt in
  match getSecret with
  | None => raise (plain_error "AUTH_SECRET must contain at least 32 characters")
  | Some key =>
      t ← lift (now w);
      let token := w_jwtSign w key (challenge_claims address message nonce t) in
      result ← try_catch (lift (_ ← redis_client w;
                                redis_command w (redis_set_new (CHALLENGE_REDIS_PREFIX +:+ nonce) (challenge_text address message) CHALLENGE_TTL_SECONDS)))
                         (λ _, throw SharedRedisUnavailableError);
      if negb result then throw SharedRedisUnavailableError else
      _ ← lift (record_call (CSetCookie CHALLENGE_COOKIE token CHALLENGE_TTL_SECONDS));
      mret message
  end.
(** [audience: "enoki-auth"]: one of the audiences of the token *)
Definition for_audience (payload : json) : bool :=
  match jget "aud" payload with
  | JStr a => seqb CHALLENGE_AUDIENCE a
  | JArr l => existsb (equals_text CHALLENGE_AUDIENCE) l
  | _ => false
  end.
(** The challenge of the cookie: its id and message, when it is for the address. *)
Definition challenge_of (t : Z) (token address : string) : option (string * string) :=
  key ← getSecret;
  payload ← w_jwtVerify w t key token;
  if negb (for_audience payload && equals_text CHALLENGE_ISSUER (jget "iss" payload)) then None else
  if negb (equals_text address (jget "address" payload)) then None else
  match jget "message" payload, jget "jti" payload with JStr message, JStr jti => Some (jti, message) | _, _ => None end.
(** The record that Redis gave back is the challenge, and the address signed it. *)
Definition answered_by (address message signature text : string) : bool :=
  match json_parse text with
  | None => false
  | Some issued =>
      equals_text address (jget "address" issued) && equals_text message (jget "message" issued) &&
      bool_decide (is_Some (w_verifyPersonalMessageSignature w (utf8 message) signature (Some address)))
  end.
Definition verifyAndConsumeEnokiChallenge (cookie : option string) (rawAddress : json) (signature : string) : AM bool :=
  _ ← lift (record_call (CSetCookie CHALLENGE_COOKIE empty_str 0));
  t ← lift (now w);
  match given cookie, rawAddress with
  | Some token, JStr raw =>
      let address := normalizeSuiAddress raw in
      match challenge_of t token address with
      | None => mret false
      | Some (jti, message) =>
          stored ← try_catch (lift (_ ← redis_client w; redis_command w (redis_get_del (CHALLENGE_REDIS_PREFIX +:+ jti))))
                             (λ _, throw SharedRedisUnavailableError);
          match given stored with
          | None => mret false
          | Some text => mret (answered_by address message signature text)
          end
      end
  | _, _ => mret false   (* [normalizeSuiAddress] of another value throws *)
  end.

(** ** The delegate accounts (lib/auth/delegate-account.ts) *)
Definition publicKeyHex (value : json) : option string :=
  match value with
  | JStr s => if NoterAuth.is_hex64 s then Some (lower s) else
              bytes ← checked (λ l, (length l =? 32)%nat) (w_fromBase64 w s);
              Some (lower (Hex.Hex.bytesToHex bytes))
  | JArr l => if (length l =? 32)%nat then (λ bytes, lower (Hex.Hex.bytesToHex bytes)) <$> mapM NoterAuth.as_byte l else None
  | _ => None
  end.
Definition lists_key (expectedKey : string) (entry : json) : bool :=
  match entry with
  | JObj _ | JArr _ => bool_decide (publicKeyHex (jget "public_key" entry) = Some expectedKey)
  | _ => false
  end.
Definition delegateAccountBindingError (objectType fields : json) (publicKey packageId : string) : option string :=
  match objectType with
  | JStr typ =>
      if negb (NoterAuth.is_account_type typ packageId) then Some "Object is not a configured MemWalAccount" else
      match fields with
      | JObj _ =>
          if negb (match jget "active" fields with JBool true => true | _ => false end) then Some "Walrus Memory account is inactive" else
          match jget "delegate_keys" fields with
          | JArr keys => if existsb (lists_key (lower publicKey)) keys then None else Some "Delegate key is not registered on the Walrus Memory account"
          | _ => Some "Walrus Memory account has no delegate key list"
          end
      | _ => Some "Account object has no readable fields"
      end
  | _ => Some "Account object has no Move type"
  end.
Definition assertDelegateAccountBinding (accountId publicKey : string) : AM unit :=
  if negb (NoterAuth.is_address_i accountId) then throw (DelegateAccountBindingError "Invalid Walrus Memory account ID") else
  if is_empty (w_memwalPackageId w) then throw (DelegateAccountBindingError "Walrus Memory package is not configured") else
  object ← try_catch (lift (answer w (λ n, w_getObject w n accountId))) (λ _, throw (DelegateAccountBindingError "Unable to verify Walrus Memory account"));
  match delegateAccountBindingError (jget "type" object) (jget "json" object) publicKey (w_memwalPackageId w) with
  | Some error => throw (DelegateAccountBindingError error)
  | None => mret tt
  end.

(** ** The routes (app/api/auth) *)
Definition rate_reply (status : Z) : auth_reply :=
  if status =? 429 then Reply status (Some "60") (error_body "Too many authentication requests")
  else Reply status (Some "5") (error_body "Authentication service temporarily unavailable").
Definition with_retry (otherwise : string) (e : auth_failure) : AM auth_reply :=
  match e with
  | AuthRateLimitError status => mret (rate_reply status)
  | SharedRedisUnavailableError => mret (rate_reply 503)
  | _ => reply_error 500 otherwise
  end.
(** [await request.json()], and the fields that are taken out of it *)
Definition read_body (body : option json) : AM json :=
  match body with
  | Some JNull => raise (js_type_error "Cannot destructure 'null' as it is null.")
  | Some b => mret b
  | None => raise (js_type_error "Unexpected end of JSON input")
  end.
Definition address_in (v : json) : option string := checked NoterAuth.is_address_i (text_in v).
Definition key_in (v : json) : option string := checked NoterAuth.is_hex64 (text_in v).
Definition public_key_of (privateKey : string) : string := Hex.Hex.bytesToHex (w_getPublicKey w (Hex.Hex.hex_pairs (chars privateKey))).
Definition success (fields : list (string * json)) : AM auth_reply := mret (Reply 200 None (JObj (("success", JBool true) :: fields))).
Definition same_origin (header : string → option string) (m : AM auth_reply) : AM auth_reply :=
  if isSameOriginRequest w header then m else reply_error 403 "Invalid request origin".
Definition post_challenge (header : string → option string) (body : option json) : AM auth_reply :=
  same_origin header (try_catch
    (_ ← checkAuthRateLimit header challenge;
     b ← read_body body;
     match address_in (jget "suiAddress" b) with
     | None => reply_error 400 "Invalid Sui address"
     | Some suiAddress => message ← issueEnokiChallenge suiAddress; mret (Reply 200 None (JObj [("message", JStr message)]))
     end) (with_retry "Unable to create challenge")).
(** A returning user, known by the address that signed. *)
Definition sign_in_again (suiAddress : string) : AM auth_reply :=
  existing ← lift (getUserBySuiAddress w suiAddress);
  let stored := u ← existing; _ ← given (u_delegatePrivateKey u); publicKey ← given (u_publicKey u); accountId ← given (u_accountId u);
                Some (u_id u, publicKey, accountId) in
  match stored with
  | Some (id, publicKey, accountId) => _ ← lift (createSession w id publicKey accountId); success [("needsSetup", JBool false)]
  | None => success [("needsSetup", JBool true)]
  end.
Definition register (suiAddress privateKey accountId : string) : AM auth_reply :=
  let publicKey := public_key_of privateKey in
  existing ← lift (getUserBySuiAddress w suiAddress);
  id ← match existing with
       | Some u => _ ← lift (updateEnokiUserCredentials w (u_id u) publicKey privateKey accountId); mret (u_id u)
       | None => created ← lift (ResearchDb.createEnokiUser w publicKey suiAddress privateKey accountId); mret (u_id created)
       end;
  _ ← lift (createSession w id publicKey accountId);
  success [("needsSetup", JBool false)].
Definition signature_in (v : json) : option string := checked (λ s, negb (is_empty s) && (slen s <=? 8192)%nat) (text_in v).
Definition ownership_refused : AM auth_reply := reply_error 401 "Wallet ownership verification failed.".
Definition post_enoki (header : string → option string) (cookie : option string) (body : option json) : AM auth_reply :=
  same_origin header (try_catch
    (_ ← checkAuthRateLimit header verify;
     b ← read_body body;
     let suiAddress := jget "suiAddress" b in
     (* [RegExp.test] turns its argument into text *)
     if negb (truthy suiAddress && NoterAuth.is_address_i (text_of suiAddress)) then reply_error 400 "Invalid Sui address." else
     match signature_in (jget "signature" b) with
     | None => ownership_refused
     | Some signature =>
         proven ← verifyAndConsumeEnokiChallenge cookie suiAddress signature;
         if negb proven then ownership_refused else
         let privateKey := jget "privateKey" b in
         let accountId := jget "accountId" b in
         if negb (truthy privateKey) && negb (truthy accountId) then sign_in_again (text_of suiAddress) else
         match key_in privateKey with
         | None => reply_error 400 "Invalid private key. Expected 64 hex characters."
         | Some key => match address_in accountId with
                       | None => reply_error 400 "Valid account ID is required (0x... format)."
                       | Some account => register (text_of suiAddress) key account
                       end
         end
     end) (with_retry "Authentication failed")).
Definition post_key (header : string → option string) (body : option json) : AM auth_reply :=
  same_origin header (try_catch
    (_ ← checkAuthRateLimit header verify;
     b ← read_body body;
     match key_in (jget "privateKey" b) with
     | None => reply_error 400 "Invalid private key. Expected 64 hex characters."
     | Some privateKey =>
         let publicKey := public_key_of privateKey in
         match address_in (jget "accountId" b) with
         | None => reply_error 400 "Valid account ID is required (0x... format)."
         | Some accountId =>
             _ ← assertDelegateAccountBinding accountId publicKey;
             user ← lift (u ← upsertDelegateCredentialsByPublicKey w publicKey privateKey accountId; returned u);
             _ ← lift (createSession w (u_id user) publicKey accountId);
             success []
         end
     end)
    (λ e, match e with
          | DelegateAccountBindingError message => reply_error 401 message
          | AuthRateLimitError status => mret (rate_reply status)
          | _ => reply_error 500 "Authentication failed"
          end)).
Definition post_signout (header : string → option string) : AM auth_reply :=
  same_origin header (_ ← lift clearSession; success []).
Definition or_none (o : option string) : json := match o with Some s => JStr s | None => JNull end.
Definition profile_of (user : SessionUser) (u : user_row) : json :=
  JObj [("id", JStr (u_id u)); ("email", JStr (u_email u)); ("publicKey", or_none (u_publicKey u)); ("suiAddress", or_none (u_suiAddress u));
        ("accountId", JStr (default (su_accountId user) (u_accountId u)));
        ("authMethod", JStr (if bool_decide (is_Some (given (u_suiAddress u))) then "enoki" else "key"));
        ("hasPrivateKey", JBool (negb (is_empty (su_privateKey user))))].
Definition get_profile (session : option string) : AM auth_reply :=
  found ← lift (getSession w session);
  match found with
  | None => reply_error 401 "Not authenticated"
  | Some user =>
      dbUser ← lift (getUserById w (su_id user));
      match dbUser with None => reply_error 404 "User not found" | Some u => mret (Reply 200 None (profile_of user u)) end
  end.
Definition export_key : AM auth_reply := reply_error 410 "Delegate private-key export is disabled".

Inductive auth_request : Type :=
| PostChallenge (body : option json)
| PostEnoki (body : option json)
| PostKey (body : option json)
| PostSignout
| GetProfile
| ExportKey.
(** The cookies of a request: the session and the challenge. *)
Definition auth_handle (header : string → option string) (session cookie : option string) (r : auth_request) : AM auth_reply :=
  match r with
  | PostChallenge body => post_challenge header body
  | PostEnoki body => post_enoki header cookie body
  | PostKey body => post_key header body
  | PostSignout => post_signout header
  | GetProfile => get_profile session
  | ExportKey => export_key
  end.
End Auth.

(** ** What a sign-in rests on *)
Section Proofs.
Context `{SuiSdk} (w : world) (s0 : research).
(** A call that opens no session. *)
Definition opens_none (c : call) : Prop := match c with CSetCookie name value _ => name = "session" → value = empty_str | _ => True end.
(** Nothing has happened but other cookies. *)
Definition still (s : research) : Prop := tables s = tables s0 ∧ ∃ new, calls s = calls s0 ++ new ∧ Forall opens_none new.
Definition challenge_key (jti : string) : string := CHALLENGE_REDIS_PREFIX +:+ jti.
(** ... and the challenges in Redis are there as before. *)
Definition waiting (s : research) : Prop := still s ∧ ∀ jti, redis s !! challenge_key jti = redis s0 !! challenge_key jti.
(** The cookie holds a challenge for the address, which Redis held and holds
    no longer, and the signature over its message is that of the address. *)
Definition wallet_proof (cookie : option string) (address signature : string) (m : gmap string NoterAuth.redis_entry) : Prop :=
  ∃ token t jti message e t', given cookie = Some token ∧ challenge_of w t token address = Some (jti, message) ∧
    redis s0 !! challenge_key jti = Some e ∧ NoterAuth.live t' e = true ∧
    answered_by w address message signature (NoterAuth.value_text (NoterAuth.en_value e)) = true ∧
    m !! challenge_key jti = None.
(** An account on the chain is active and lists the key. *)
Definition key_proof (privateKey accountId : string) : Prop :=
  ∃ n, let object := w_getObject w n accountId in
       delegateAccountBindingError w (jget "type" object) (jget "json" object) (public_key_of w privateKey) (w_memwalPackageId w) = None.
Inductive grounds (cookie : option string) (m : gmap string NoterAuth.redis_entry) : auth_request → user_row → Prop :=
| by_wallet b raw signature u :
    jget "suiAddress" b = JStr raw → signature_in (jget "signature" b) = Some signature →
    wallet_proof cookie (normalizeSuiAddress raw) signature m → u_suiAddress u = Some raw → grounds cookie m (PostEnoki (Some b)) u
| by_key b privateKey accountId u :
    key_in (jget "privateKey" b) = Some privateKey → address_in (jget "accountId" b) = Some accountId → key_proof privateKey accountId →
    u_publicKey u = Some (public_key_of w privateKey) → grounds cookie m (PostKey (Some b)) u.
(** A session of the user's row is the last thing that was done, and no other
    row of the database is another one. *)
Definition opened (u : user_row) (s : research) : Prop :=
  u ∈ users (tables s) ∧ tables s = set_users (users (tables s)) (tables s0) ∧
  List.filter (λ x, negb (seqb (u_id x) (u_id u))) (users (tables s)) = List.filter (λ x, negb (seqb (u_id x) (u_id u))) (users (tables s0)) ∧
  ∃ new t publicKey accountId, u_publicKey u = Some publicKey ∧ u_accountId u = Some accountId ∧ Forall opens_none new ∧
    calls s = calls s0 ++ new ++ [CSetCookie "session" (w_jwtSign w (secret w) (session_claims (u_id u) publicKey accountId t)) SESSION_MAX_AGE_SECONDS].
Definition outcome (cookie : option string) (r : auth_request) (s : research) : Prop :=
  still s ∨ ∃ u, opened u s ∧ grounds cookie (redis s) r u.

(** *** Programs that only look *)
Definition view (s : research) : db * list call * gmap string NoterAuth.redis_entry := (tables s, calls s, redis s).
Definition looks {A} (m : RM A) : Prop := ∀ s, view (fst (m s)) = view s.
Lemma looks_select {A} (f : db → A) : looks (select w f).
Proof. intros s. unfold select, external. by destruct (w_down w _). Qed.
Lemma looks_answer {A} (f : nat → A) : looks (answer w f).
Proof. intros s. unfold answer, external. by destruct (w_down w _). Qed.
Lemma looks_database {A} cause (m : RM A) : looks m → looks (or_database cause m).
Proof. intros Hm s. unfold or_database, try_catch. specialize (Hm s). by destruct (m s) as [s' [e|a]]. Qed.
Lemma looks_client : looks (redis_client w).
Proof. intros s. unfold redis_client. by destruct (w_redis_ready w _). Qed.
Lemma looks_invariant {A} (P : db * list call * gmap string NoterAuth.redis_entry → Prop) (m : RM A) : looks m → invariant (λ s, P (view s)) (lift m).
Proof. intros Hm s Hs. unfold lift, try_catch. specialize (Hm s). destruct (m s) as [s' [e|a]]; cbn in *; by rewrite Hm. Qed.
Lemma still_view s s' : view s' = view s → still s → still s'.
Proof. intros [= Ht Hc _] [H1 H2]. split; [by rewrite Ht|by rewrite Hc]. Qed.
Lemma waiting_view s s' : view s' = view s → waiting s → waiting s'.
Proof. intros Hv [Hs Hr]. split; [by eapply still_view|]. injection Hv as _ _ ->. exact Hr. Qed.
Lemma looks_still {A} (m : RM A) : looks m → invariant still (lift m).
Proof. intros Hm s Hs. unfold lift, try_catch. specialize (Hm s). destruct (m s) as [s' [e|a]]; cbn in *; by eapply still_view. Qed.
Lemma looks_waiting {A} (m : RM A) : looks m → invariant waiting (lift m).
Proof. intros Hm s Hs. unfold lift, try_catch. specialize (Hm s). destruct (m s) as [s' [e|a]]; cbn in *; by eapply waiting_view. Qed.
Lemma waiting_still s : waiting s → still s.
Proof. by intros [? _]. Qed.
Lemma still_call s c : opens_none c → still s → still (Research (tables s) (redis s) (calls s ++ [c]) (ticks s)).
Proof.
  intros Hc [Ht (new & Hn & Hf)]. split; [done|]. exists (new ++ [c]). cbn. rewrite Hn, <-app_assoc. split; [done|].
  apply Forall_app. split; [done|by constructor].
Qed.
(** The counters of the limits are no challenges. *)
Lemma incr_other t ttl k k' m : k ≠ k' → NoterAuth.redis_incr t ttl k' m !! k = m !! k.
Proof. intros Hk. unfold NoterAuth.redis_incr. case_match. by rewrite lookup_insert_ne. Qed.
Lemma waiting_limit header b : invariant waiting (checkAuthRateLimit w header b).
Proof.
  unfold checkAuthRateLimit. apply invariant_catch; [|intros e; apply invariant_throw]. apply invariant_bind; [apply looks_waiting, looks_client|].
  intros []. apply invariant_bind; [|intros n; case_match; [apply invariant_throw|apply invariant_ret]].
  intros s Hs. unfold lift, try_catch, redis_command. destruct (w_down w _); [exact Hs|]. unfold NoterAuth.rate_script.
  destruct (NoterAuth.redis_count _ _ _); [|exact Hs]. destruct (NoterAuth.redis_count _ _ _); [|exact Hs]. destruct (_ || _); [exact Hs|].
  cbn. destruct Hs as [Hs Hr]. split; [exact Hs|]. intros jti. cbn. rewrite !incr_other; [apply Hr| |]; by destruct b.
Qed.
Lemma keeps_body (I : research → Prop) body : triple I (read_body body) (λ b s, I s ∧ body = Some b) (λ _, I).
Proof. intros s Hs. by destruct body as [[]|]. Qed.

(** *** The challenge *)
Lemma verify_rule cookie v signature : triple waiting (verifyAndConsumeEnokiChallenge w cookie v signature)
  (λ b s, still s ∧ (b = true → ∃ raw, v = JStr raw ∧ wallet_proof cookie (normalizeSuiAddress raw) signature (redis s))) (λ _, still).
Proof.
  intros s Hs. unfold verifyAndConsumeEnokiChallenge, lift, record_call, now, try_catch, mbind, st_bind. cbv beta iota.
  set (s1 := Research _ _ _ _). assert (H1 : waiting s1) by (split; [apply still_call; [done|apply Hs]|apply Hs]). clearbody s1. clear Hs.
  destruct (given cookie) as [token|] eqn:Eg; [|split; [apply H1|done]]. destruct v as [| | | |raw| |]; try (split; [apply H1|done]). cbv zeta.
  destruct (challenge_of w _ token (normalizeSuiAddress raw)) as [[jti message]|] eqn:Ec; [|split; [apply H1|done]].
  unfold redis_client. destruct (w_redis_ready w _); [|exact (waiting_still _ H1)].
  unfold redis_command. destruct (w_down w _); [exact (waiting_still _ H1)|]. cbn. unfold NoterAuth.redis_get. destruct H1 as [H1 Hr].
  pose proof (Hr jti) as Hj. unfold challenge_key in Hj.
  destruct (redis s1 !! (CHALLENGE_REDIS_PREFIX +:+ jti)) as [e|] eqn:Ee; [|split; [exact H1|done]].
  destruct (NoterAuth.live _ e) eqn:El; [|split; [exact H1|done]]. cbn. destruct (is_empty _); [split; [exact H1|done]|].
  split; [exact H1|]. intros Ha. exists raw. split; [done|]. eexists token, _, jti, message, e, _. split_and!; try done.
  cbn. apply lookup_delete_eq.
Qed.

(** *** The session *)
Lemma find_row {A} (p : A → bool) l x : List.find p l = Some x → x ∈ l ∧ p x = true.
Proof. intros [Hx Hp]%find_some. by rewrite list_elem_of_In. Qed.
Lemma same_text_eq o x : same_text o (Some x) = true → o = Some x.
Proof. destruct o as [y|]; cbn; [|done]. by intros ->%seqb_eq. Qed.
(** The row of the user is there, and only that row is another one. *)
Definition written (u : user_row) (s : research) : Prop :=
  u ∈ users (tables s) ∧ tables s = set_users (users (tables s)) (tables s0) ∧
  List.filter (λ x, negb (seqb (u_id x) (u_id u))) (users (tables s)) = List.filter (λ x, negb (seqb (u_id x) (u_id u))) (users (tables s0)) ∧
  ∃ new, calls s = calls s0 ++ new ∧ Forall opens_none new.
Lemma written_now s u : still s → u ∈ users (tables s) → written u s.
Proof. intros [Ht Hc] Hu. rewrite Ht in *. unfold written. rewrite Ht. split_and!; try done. by destruct (tables s0). Qed.
Lemma session_rule u publicKey accountId (m : gmap string NoterAuth.redis_entry) : u_publicKey u = Some publicKey → u_accountId u = Some accountId →
  triple (λ s, written u s ∧ redis s = m) (lift (createSession w (u_id u) publicKey accountId)) (λ _ s, opened u s ∧ redis s = m) (λ _ _, False).
Proof.
  intros Hp Ha s [(Hu & Ht & Hf & new & Hn & Hc) Hr]. split; [|exact Hr]. split; [exact Hu|]. split; [exact Ht|]. split; [exact Hf|].
  exists new, (w_clock w (ticks s)), publicKey, accountId. split_and!; try done. cbn. by rewrite Hn, <-app_assoc.
Qed.
Lemma lift_database {A} cause (m : RM A) s : lift (or_database cause m) s =
  match m s with (s', inr a) => (s', inr a) | (s', inl _) => (s', inl (Other (Chatbot "bad_request" "database" (Some cause)))) end.
Proof. unfold lift, or_database, try_catch. by destruct (m s) as [s' [e|a]]. Qed.
(** Looking a user up. *)
Definition finds_user (p : user_row → bool) (m : RM (option user_row)) : Prop :=
  ∀ s, view (fst (m s)) = view s ∧ ∀ u, snd (m s) = inr (Some u) → u ∈ users (tables s) ∧ p u = true.
Lemma finds_by cause p : finds_user p (or_database cause (select w (λ t, List.find p (users t)))).
Proof.
  intros s. split; [apply looks_database, looks_select|]. intros u. unfold or_database, try_catch, select, external.
  destruct (w_down w _); [done|]. cbn. intros [= Hu]. by apply find_row.
Qed.
Lemma find_user_rule p m (R : gmap string NoterAuth.redis_entry) : finds_user p m →
  triple (λ s, still s ∧ redis s = R) (lift m) (λ o s, (still s ∧ redis s = R) ∧ ∀ u, o = Some u → u ∈ users (tables s) ∧ p u = true) (λ _ s, still s).
Proof.
  intros Hm s [Hs Hr]. specialize (Hm s) as [Hv Hu]. unfold lift, try_catch. destruct (m s) as [s' [e|o]]; cbn in *; [by eapply still_view|].
  split; [split; [by eapply still_view|]; injection Hv as _ _ ->; exact Hr|]. intros u ->. injection Hv as -> _ _. by apply Hu.
Qed.
(** A row that is written over, and a row that is added. *)
Lemma update_row v f s : (∀ x, u_id (f x) = u_id x) → still s → v ∈ users (tables s) →
  match update_user w (u_id v) f s with
  | (s', inl _) => still s'
  | (s', inr o) => redis s' = redis s ∧ written (f v) s' ∧ (NoDup (map u_id (users (tables s0))) → o = Some (f v))
  end.
Proof.
  intros Hf [Ht Hc] Hv. unfold update_user, external. destruct (w_down w _); [by split|]. destruct (existsb _ _); [by split|]. cbn.
  rewrite Ht in *. set (g u := if seqb (u_id u) (u_id v) then f u else u). assert (Hg : ∀ x, u_id (g x) = u_id x) by (intros x; unfold g; by case_match).
  assert (Hin : f v ∈ map g (users (tables s0))) by (apply in_map; exists v; unfold g; by rewrite seqb_refl).
  split; [done|]. split.
  - unfold written. cbn. split; [done|]. split; [by destruct (tables s0)|]. split; [|done]. rewrite Hf. apply filter_fixed.
    + intros x _. by rewrite Hg.
    + intros x _ Hx. unfold g. by destruct (seqb (u_id x) (u_id v)).
  - intros Hn. destruct (List.find (λ u, seqb (u_id u) (u_id v)) (map g (users (tables s0)))) as [x|] eqn:E.
    + apply find_row in E as [Hx Hi%seqb_eq]. f_equal. apply (same_key u_id (map g (users (tables s0)))); [|done|done|by rewrite Hf].
      rewrite map_map. by rewrite (map_ext _ _ Hg).
    + exfalso. eapply List.find_none in E; [|by apply list_elem_of_In]. by rewrite Hf, seqb_refl in E.
Qed.
Lemma insert_row email publicKey suiAddress key account s : still s →
  match insert_user w email publicKey suiAddress key account s with
  | (s', inl _) => still s'
  | (s', inr u) => redis s' = redis s ∧ written u s' ∧ u_publicKey u = publicKey ∧ u_suiAddress u = suiAddress ∧ u_accountId u = account
  end.
Proof.
  intros [Ht Hc]. unfold insert_user, external. destruct (w_down w _); [by split|]. destruct (existsb _ _); [by split|]. cbn.
  split; [done|]. split; [|done]. unfold written. cbn. rewrite Ht. split; [apply elem_of_app; right; by left|]. split; [by destruct (tables s0)|].
  split; [|done]. rewrite List.filter_app. cbn. by rewrite seqb_refl, app_nil_r.
Qed.
(** What ends in a session of a row. *)
Definition ends (P : gmap string NoterAuth.redis_entry → user_row → Prop) (s : research) : Prop := still s ∨ ∃ u, opened u s ∧ P (redis s) u.
Lemma ends_still {A} (P : gmap string NoterAuth.redis_entry → user_row → Prop) (m : AM A) : invariant still m → triple still m (λ _, ends P) (λ _, ends P).
Proof. intros Hm. eapply triple_conseq; [exact Hm|done|by left|by left]. Qed.
Lemma last_session {B} u publicKey accountId (P : gmap string NoterAuth.redis_entry → user_row → Prop) (a : B) m :
  u_publicKey u = Some publicKey → u_accountId u = Some accountId → P m u →
  triple (λ s, written u s ∧ redis s = m) (_ ← lift (createSession w (u_id u) publicKey accountId); mret a) (λ _, ends P) (λ _, ends P).
Proof.
  intros Hp Ha Hg. eapply triple_bind.
  - eapply triple_conseq; [by apply (session_rule u publicKey accountId m)|done|intros x s Hs; exact Hs|done].
  - intros x. apply triple_ret. intros s [Ho <-]. right. by exists u.
Qed.
Lemma address_finds a : finds_user (λ u, same_text (u_suiAddress u) (Some a)) (getUserBySuiAddress w a).
Proof. apply finds_by. Qed.
Lemma again_rule raw m (P : gmap string NoterAuth.redis_entry → user_row → Prop) : (∀ u, u_suiAddress u = Some raw → P m u) →
  triple (λ s, still s ∧ redis s = m) (sign_in_again w raw) (λ _, ends P) (λ _, ends P).
Proof.
  intros HP. unfold sign_in_again. eapply triple_bind.
  { eapply triple_conseq; [apply (find_user_rule _ _ m (address_finds raw))|done|intros o s Hs; exact Hs|]. intros e s Hs. by left. }
  intros o s [[Hs Hm] Ho]. destruct o as [u|]; [|by left]. destruct (Ho u eq_refl) as [Hu Ha%same_text_eq]. cbn [mbind option_bind].
  destruct (given (u_delegatePrivateKey u)); [|by left]. destruct (given (u_publicKey u)) as [pk|] eqn:Ep; [|by left].
  destruct (given (u_accountId u)) as [acct|] eqn:Eacct; [|by left]. cbn [mbind option_bind].
  assert (Hg : ∀ o x, given o = Some x → o = Some x) by (intros [y|] x; cbn; [by case_match|done]).
  apply Hg in Ep, Eacct. eapply last_session; [exact Ep|exact Eacct|by apply HP|]. split; [by apply written_now|exact Hm].
Qed.
Lemma register_rule raw key account m (P : gmap string NoterAuth.redis_entry → user_row → Prop) : (∀ u, u_suiAddress u = Some raw → P m u) →
  triple (λ s, still s ∧ redis s = m) (register w raw key account) (λ _, ends P) (λ _, ends P).
Proof.
  intros HP. unfold register. cbv zeta. eapply triple_bind.
  { eapply triple_conseq; [apply (find_user_rule _ _ m (address_finds raw))|done|intros o s Hs; exact Hs|]. intros e s Hs. by left. }
  intros o s [[Hs Hm] Ho]. unfold mbind at 1, st_bind at 1. destruct o as [u|].
  - destruct (Ho u eq_refl) as [Hu Ha%same_text_eq]. pose proof (update_row u (rotate (public_key_of w key) key account) s (λ x, eq_refl) Hs Hu) as Hrow.
    unfold mbind at 1, st_bind at 1, updateEnokiUserCredentials. rewrite lift_database. unfold mbind at 1, st_bind at 1.
    destruct (update_user w (u_id u) _ s) as [s' [e|r]]; cbn -[lift createSession mbind]; [by left|]. destruct Hrow as (Hr & Hw & _).
    apply (last_session (rotate (public_key_of w key) key account u) _ _ P _ m); [done|done|by apply HP|]. split; [done|congruence].
  - pose proof (insert_row ("enoki-" +:+ take_s 8 raw +:+ "@zklogin") (Some (public_key_of w key)) (Some raw) (Some key) (Some account) s Hs) as Hrow.
    unfold mbind at 1, st_bind at 1, ResearchDb.createEnokiUser. rewrite lift_database.
    destruct (insert_user w _ _ _ _ _ s) as [s' [e|u]]; cbn -[lift createSession mbind]; [by left|]. destruct Hrow as (Hr & Hw & Hp & Ha & Hacct).
    apply (last_session u _ _ P _ m); [done|done|by apply HP|]. split; [done|congruence].
Qed.
Lemma binding_rule key account : triple still (assertDelegateAccountBinding w account (public_key_of w key))
  (λ _ s, still s ∧ key_proof key account) (λ _, still).
Proof.
  unfold assertDelegateAccountBinding. case_match; [by intros s Hs|]. case_match; [by intros s Hs|].
  intros s Hs. pose proof (looks_answer (λ n, w_getObject w n account) s) as Hv. unfold mbind, st_bind, lift, try_catch, answer, external in *.
  destruct (w_down w _); [by eapply still_view|]. cbv beta iota. cbn in Hv.
  destruct (delegateAccountBindingError w _ _ _ _) eqn:Ed; [by eapply still_view|]. split; [by eapply still_view|]. by eexists.
Qed.
Lemma upsert_rule publicKey key account : NoDup (map u_id (users (tables s0))) →
  triple still (lift (u ← upsertDelegateCredentialsByPublicKey w publicKey key account; returned u))
    (λ u s, written u s ∧ u_publicKey u = Some publicKey ∧ u_accountId u = Some account) (λ _, still).
Proof.
  intros Hn s Hs. pose proof (finds_by "Failed to get user by public key" (λ u, same_text (u_publicKey u) (Some publicKey)) s) as [Hv Hu].
  unfold upsertDelegateCredentialsByPublicKey, lift, try_catch, mbind, st_bind. fold (getUserByPublicKey w publicKey) in Hv, Hu.
  destruct (getUserByPublicKey w publicKey s) as [s1 [e|o]]; cbn in Hv, Hu; [by eapply still_view|].
  assert (H1 : still s1) by (by eapply still_view). unfold or_database, try_catch. destruct o as [u|].
  - destruct (Hu u eq_refl) as [Hin Hp%same_text_eq]. assert (Hin1 : u ∈ users (tables s1)) by (by injection Hv as -> _ _).
    pose proof (update_row u (with_credentials key account) s1 (λ x, eq_refl) H1 Hin1) as Hrow.
    destruct (update_user w (u_id u) _ s1) as [s2 [e|r]]; [exact Hrow|]. destruct Hrow as (_ & Hw & Hr). rewrite (Hr Hn). cbn. by split_and!.
  - pose proof (insert_row ("key-" +:+ take_s 8 publicKey +:+ "@ed25519") (Some publicKey) None (Some key) (Some account) s1 H1) as Hrow.
    unfold mbind, st_bind. destruct (insert_user w _ _ _ _ _ s1) as [s2 [e|u]]; [exact Hrow|]. cbn. by destruct Hrow as (_ & Hw & Hp & _ & Ha).
Qed.

(** *** The routes *)
Notation finishes r cookie m := (triple waiting m (λ _, outcome cookie r) (λ _, outcome cookie r)).
Lemma still_outcome {A} cookie r (m : AM A) : invariant still m → finishes r cookie m.
Proof. intros Hm. eapply triple_conseq; [exact Hm|apply waiting_still|by left|by left]. Qed.
Lemma caught_reply cookie r (m : AM auth_reply) (h : auth_failure → AM auth_reply) : (∀ e s, fst (h e s) = s) → finishes r cookie m → finishes r cookie (try_catch m h).
Proof. intros Hh Hm. eapply triple_catch; [exact Hm|]. intros e s Hs. specialize (Hh e s). destruct (h e s) as [s' [f|a]]; cbn in Hh; by subst. Qed.
Lemma handled text e s : fst (with_retry text e s) = s.
Proof. by destruct e. Qed.
Lemma limited cookie r b k header body : (∀ v, body = Some v → triple waiting (k v) (λ _ : auth_reply, outcome cookie r) (λ _, outcome cookie r)) →
  finishes r cookie (_ ← checkAuthRateLimit w header b; v ← read_body body; k v).
Proof.
  intros Hk. eapply triple_bind; [eapply triple_conseq; [apply waiting_limit|done|intros x s Hs; exact Hs|intros e s Hs; by left; apply waiting_still]|].
  intros x. eapply triple_bind; [eapply triple_conseq; [apply (keeps_body waiting)|done|intros v s Hs; exact Hs|intros e s Hs; by left; apply waiting_still]|].
  intros v s [Hs Hb]. exact (Hk v Hb s Hs).
Qed.
Lemma enoki_ends header cookie body : finishes (PostEnoki body) cookie (post_enoki w header cookie body).
Proof.
  unfold post_enoki, same_origin. destruct (isSameOriginRequest w header); [|apply still_outcome, invariant_ret].
  apply caught_reply; [intros; apply handled|]. apply limited. intros b ->. cbv zeta. destruct (negb _); [apply still_outcome, invariant_ret|].
  destruct (signature_in _) as [signature|] eqn:Es; [|apply still_outcome, invariant_ret].
  eapply triple_bind; [eapply triple_conseq; [apply verify_rule|done|intros x s Hs; exact Hs|intros e s Hs; by left]|].
  intros [|] s [Hs Hp]; [|by left]. destruct (Hp eq_refl) as (raw & Hraw & Hw). rewrite Hraw. cbn [negb text_of]. clear Hp.
  assert (HP : ∀ u, u_suiAddress u = Some raw → grounds cookie (redis s) (PostEnoki (Some b)) u) by (intros u Hu; by eapply by_wallet).
  set (R := redis s) in *. assert (Hst : still s ∧ redis s = R) by done. clearbody R. revert s Hs Hw Hst. intros s _ _ Hst.
  assert (Hend : ∀ m : AM auth_reply, triple (λ s, still s ∧ redis s = R) m (λ _, ends (λ m u, grounds cookie m (PostEnoki (Some b)) u)) (λ _, ends (λ m u, grounds cookie m (PostEnoki (Some b)) u)) →
    match m s with (s', inr _) | (s', inl _) => outcome cookie (PostEnoki (Some b)) s' end).
  { intros m Hm. specialize (Hm s Hst). by destruct (m s) as [s' [e|a]]. }
  destruct (negb _ && negb _); [apply Hend, (again_rule raw R); exact HP|].
  destruct (key_in _) as [key|]; [|left; apply Hst]. destruct (address_in _) as [account|]; [|left; apply Hst].
  apply Hend, (register_rule raw key account R). exact HP.
Qed.
Lemma key_route_ends header cookie body : NoDup (map u_id (users (tables s0))) → finishes (PostKey body) cookie (post_key w header body).
Proof.
  intros Hn. unfold post_key, same_origin. destruct (isSameOriginRequest w header); [|apply still_outcome, invariant_ret].
  apply caught_reply; [by intros []|]. apply limited. intros b ->. destruct (key_in _) as [key|] eqn:Ek; [|apply still_outcome, invariant_ret]. cbv zeta.
  destruct (address_in _) as [account|] eqn:Ea; [|apply still_outcome, invariant_ret].
  eapply triple_bind; [eapply triple_conseq; [apply binding_rule|apply waiting_still|intros x s Hs; exact Hs|intros e s Hs; by left]|].
  intros x s [Hs Hk]. revert s Hs.
  eapply triple_bind; [eapply triple_conseq; [by apply upsert_rule|done|intros u s Hs; exact Hs|intros e s Hs; by left]|].
  intros u s (Hw & Hp & Ha).
  assert (HP : grounds cookie (redis s) (PostKey (Some b)) u) by (by eapply by_key).
  exact (last_session u _ _ (λ m u, grounds cookie m (PostKey (Some b)) u) (Reply 200 None (JObj [("success", JBool true)])) (redis s) Hp Ha HP s (conj Hw eq_refl)).
Qed.
Lemma challenge_ends header cookie body : finishes (PostChallenge body) cookie (post_challenge w header body).
Proof.
  unfold post_challenge, same_origin. destruct (isSameOriginRequest w header); [|apply still_outcome, invariant_ret].
  apply caught_reply; [intros; apply handled|]. apply limited. intros b _. destruct (address_in _) as [a|]; [|apply still_outcome, invariant_ret].
  apply still_outcome. apply invariant_bind; [|intros m; apply invariant_ret]. unfold issueEnokiChallenge. cbv zeta.
  apply invariant_bind; [by apply looks_still; intros z|]. intros nonce. apply invariant_bind; [by apply looks_still; intros z|]. intros t.
  destruct getSecret as [secretText|]; [|apply invariant_throw]. apply invariant_bind; [by apply looks_still; intros z|]. intros t'.
  apply invariant_bind.
  - apply invariant_catch; [|intros e; apply invariant_throw]. intros z Hs. unfold lift, try_catch, redis_client, mbind, st_bind.
    destruct (w_redis_ready w _); [|exact Hs]. unfold redis_command. destruct (w_down w _); [exact Hs|]. unfold redis_set_new.
    by destruct (NoterAuth.redis_get _ _ _).
  - intros stored. case_match; [apply invariant_throw|]. apply invariant_bind; [|intros y; apply invariant_ret]. intros z Hs. by apply still_call.
Qed.
Lemma profile_still session : invariant still (get_profile w session).
Proof.
  unfold get_profile. apply invariant_bind.
  - apply looks_still. intros s. unfold getSession, now, mbind, st_bind. destruct (token_user w _ session); [|done].
    unfold try_catch, mbind, st_bind. pose proof (looks_database "Failed to get user by id" _ (looks_select (λ t, List.find (λ x, seqb (u_id x) s1) (users t))) s) as Hv.
    unfold getUserById. by destruct (or_database _ _ s) as [s' [e|o]].
  - intros [user|]; [|apply invariant_ret]. apply invariant_bind; [apply looks_still, looks_database, looks_select|].
    intros [u|]; apply invariant_ret.
Qed.
End Proofs.

(** C25: a session of the Researcher needs a proof.  A request of the sign-in
    routes leaves the database as it is and opens no session, or it comes
    from the server's own origin, ends with one session cookie for one user,
    whose row alone is written, and that user's address signed the challenge
    which the cookie held and Redis gives out no more, or the account on the
    chain lists the user's delegate key. *)
Theorem researcher_session_needs_proof `{SuiSdk} w header session cookie r s :
  NoDup (map u_id (users (tables s))) →
  let s' := fst (auth_handle w header session cookie r s) in
  still s s' ∨ isSameOriginRequest w header = true ∧ ∃ u, opened w s u s' ∧ grounds w s cookie (redis s') r u.
Proof.
  intros Hn. assert (Hw : waiting s s) by (split; [split; [done|]; exists []; rewrite app_nil_r; by split; [|constructor]|done]). cbv zeta.
  destruct (isSameOriginRequest w header) eqn:Eo.
  - assert (Hall : outcome w s cookie r (fst (auth_handle w header session cookie r s))); [|destruct Hall as [Hs|Hu]; [by left|by right]].
    destruct r as [body|body|body| | |]; cbn [auth_handle].
    + pose proof (challenge_ends w s header cookie body s Hw) as Hc. by destruct (post_challenge w header body s) as [s' [e|a]].
    + pose proof (enoki_ends w s header cookie body s Hw) as Hc. by destruct (post_enoki w header cookie body s) as [s' [e|a]].
    + pose proof (key_route_ends w s header cookie body Hn s Hw) as Hc. by destruct (post_key w header body s) as [s' [e|a]].
    + unfold post_signout, same_origin. rewrite Eo. left. by apply still_call; [|apply Hw].
    + left. pose proof (profile_still w s session s (proj1 Hw)) as Hc. by destruct (get_profile w session s) as [s' [e|a]].
    + left. apply Hw.
  - left. destruct r as [body|body|body| | |]; cbn [auth_handle];
      try (unfold post_challenge, post_enoki, post_key, post_signout, same_origin; rewrite Eo; apply Hw); [|apply Hw].
    pose proof (profile_still w s session s (proj1 Hw)) as Hc. by destruct (get_profile w session s) as [s' [e|a]].
Qed.

(** ** Concrete sign-ins *)
Module ExampleSignIn.
Definition alice : string := NoterAuth.ExampleNoter.digit64 "a".
Definition alice_upper : string := "0x" +:+ of_chars (replicate 64 "A"%char).
Definition account_id : string := NoterAuth.ExampleNoter.digit64 "b".
Definition key : string := NoterAuth.ExampleNoter.key.
(** Tokens are their claims; every signature is good; a public key is its
    private key; the account lists the key. *)
Definition w : world := {|
  w_env := λ name, if seqb name "AUTH_SECRET" then Some "a secret of thirty-two characters" else None;
  w_clock := λ n, 1000 * Z.of_nat n; w_down := λ _, None; w_uuid := λ n, pretty (Z.of_nat n); w_isUuid := λ _, true;
  w_url := λ s, Some ("https:", "research.example", "research.example"); w_isIP := λ _, true; w_redis_ready := λ _, true;
  w_distance := λ _ _, QArith_base.inject_Z 0; w_matches := λ _ _, true; w_ts_rank := λ _ _, QArith_base.inject_Z 1;
  w_jwtSign := λ _ claims, json_stringify (λ _, empty_str) claims; w_jwtVerify := λ _ _ token, json_parse token;
  w_verifyPersonalMessageSignature := λ _ _ signer, signer; w_getPublicKey := λ l, l; w_fromBase64 := λ _, None;
  w_getObject := λ _ i, if seqb i account_id then NoterAuth.ExampleNoter.account else JNull; w_memwalPackageId := "0x7";
  w_metadata := λ _ _, Meta_data "T" "S" []; w_chunks := λ _ _ _, []; w_embed := λ _ l, map (λ _, []) l; w_rerank := λ _ _ _, [];
  w_queries := λ _ _, ["q"]; w_report := λ _ _ _, Report "T" "S" "C" []; w_suggest := λ _ _, JNull; w_title := λ _ s, s; w_turn := λ _, [];
  w_finished := λ _ l, l;
  w_reader := λ _ _, Http 200 "OK" "page"; w_pdf := λ _ s, s; w_download := λ _ _, Http 200 "OK" "file"; w_recall := λ _ _ _ _ _, [];
  w_remember := λ _ _ _ _, "blob" |}.
Definition header (name : string) : option string :=
  if seqb name "origin" then Some "https://research.example" else if seqb name "host" then Some "research.example" else None.
Definition nobody : research := Research (Db [] [] [] [] [] [] []) ∅ [] 0.
Definition sent (cookie : option string) (r : auth_request) (s : research) : research := fst (auth_handle w header None cookie r s).
Definition status (cookie : option string) (r : auth_request) (s : research) : Z :=
  match snd (auth_handle w header None cookie r s) with inr a => ar_status a | inl _ => 0 end.
Definition key_login : auth_request := PostKey (Some (JObj [("privateKey", JStr key); ("accountId", JStr account_id)])).

(** A login with a delegate key that the account lists. *)
Lemma researcher_session_needs_proof_witness : NoDup (map u_id (users (tables nobody))) ∧
  length (users (tables (sent None key_login nobody))) = 1%nat ∧
  (still nobody (sent None key_login nobody) ∨ isSameOriginRequest w header = true ∧
   ∃ u, opened w nobody u (sent None key_login nobody) ∧ grounds w nobody None (redis (sent None key_login nobody)) key_login u).
Proof.
  split; [constructor|]. split; [vm_compute; reflexivity|]. apply (researcher_session_needs_proof w header None None key_login nobody). constructor.
Defined.

(** A challenge and its cookie; the signature signs in once. *)
Definition asked : research := sent None (PostChallenge (Some (JObj [("suiAddress", JStr alice)]))) nobody.
Definition challenge_cookie : option string := match last (calls asked) with Some (CSetCookie _ token _) => Some token | _ => None end.
Definition sign_in (address : string) : auth_request :=
  PostEnoki (Some (JObj [("suiAddress", JStr address); ("signature", JStr "s"); ("privateKey", JStr key); ("accountId", JStr account_id)])).
Example challenge_used_once :
  status challenge_cookie (sign_in alice) asked = 200 ∧
  status challenge_cookie (sign_in alice) (sent challenge_cookie (sign_in alice) asked) = 401.
Proof. vm_compute. split; reflexivity. Qed.
(** The user is looked up by the address as it is spelled: the same wallet
    asks again with capitals, and its user is not found. *)
Example spelling_matters :
  let registered := sent challenge_cookie (sign_in alice) asked in
  let again := sent None (PostChallenge (Some (JObj [("suiAddress", JStr alice_upper)]))) registered in
  let token := match last (calls again) with Some (CSetCookie _ token _) => Some token | _ => None end in
  normalizeSuiAddress alice_upper = normalizeSuiAddress alice ∧
  ∃ s, auth_handle w header None token (PostEnoki (Some (JObj [("suiAddress", JStr alice_upper); ("signature", JStr "s")]))) again =
       (s, inr (Reply 200 None (JObj [("success", JBool true); ("needsSetup", JBool true)]))).
Proof. vm_compute. split; [reflexivity|]. eexists. reflexivity. Qed.
(** The challenge cookie is a token of the same secret: the proxy lets it
    pass for a session, the session itself does not. *)
Example challenge_passes_proxy :
  proxy w 3000 "/" challenge_cookie = Next ∧ token_user w 3000 challenge_cookie = None.
Proof. vm_compute. split; reflexivity. Qed.
End ExampleSignIn.
