(* ===== verification/AuthRequired.v ===== *)
(** * The MCP server without credentials (packages/mcp/src/auth-required.ts)

    Until a login has written credentials, a minimal server answers the
    client's lines; the first tool call (or tool list) after that hands
    everything it has read over to the bridge.  The texts shown to the user
    and the tools' descriptions are left out. *)
From Stdlib Require Import QArith Ascii.
From S2P Require Import Prelude JsText JsNumber JsonParse LineReader McpCreds.
Local Open Scope nat_scope.

(** [AuthRequiredConfig] and [BridgeConfig] *)
Record Config : Type := MkConfig {
  cfg_relayerUrl : string;
  cfg_webUrl : string;
  cfg_label : string;
  cfg_namespace : option string;
}.

(** [TOOL_DEFINITIONS], without the descriptions *)
Definition tool (name title : string) (destructive : bool) (properties : list (string * json))
    (required : option (list string)) : json := JObj
  [("name", JStr name); ("title", JStr title);
   ("annotations", JObj [("readOnlyHint", JBool false); ("destructiveHint", JBool destructive)]);
   ("inputSchema", JObj ([("type", JStr "object"); ("properties", JObj properties)] ++
      match required with Some r => [("required", JArr (map JStr r))] | None => [] end ++
      [("additionalProperties", JBool false)]))].
Definition text_schema : json := JObj [("type", JStr "string"); ("minLength", jint 1)].
Definition limit_schema : json :=
  JObj [("type", JStr "integer"); ("minimum", jint 1); ("maximum", jint 100); ("default", jint 10)].
Definition plain_schema : json := JObj [("type", JStr "string")].
Definition TOOL_DEFINITIONS : list json :=
  [tool "memwal_remember" "Remember a Fact" false
     [("text", text_schema); ("namespace", plain_schema)] (Some ["text"]);
   tool "memwal_recall" "Recall Memories" true
     [("query", text_schema); ("limit", limit_schema); ("namespace", plain_schema)] (Some ["query"]);
   tool "memwal_analyze" "Analyze and Remember" true
     [("text", text_schema); ("namespace", plain_schema)] (Some ["text"]);
   tool "memwal_restore" "Restore Memory Index" false
     [("namespace", text_schema); ("limit", limit_schema)] (Some ["namespace"]);
   tool "memwal_login" "Sign In to Walrus Memory" false [] None].

(** What is written to stdout for a request. *)
Inductive answer : Type :=
| Initialized (id : json)
| Tools (id : json) (tools : list json)
| LoginStarted (id : json)     (** answered when the listener has its URL *)
| SignInFirst (id : json)
| MethodNotFound (id : json) (method : string).

(** [handleLoginToolCall]: the result's [isError] and the URL it shows, from
    the URL of the listener, if it was ready in time. *)
Definition handleLoginToolCall (url : option string) : bool * option string :=
  match url with Some u => (false, Some u) | None => (true, None) end.

(** ** [handleAuthLine] *)
Inductive line_result : Type :=
| Handled (out : list answer)
| HandOff (creds : MemWalCredentials)
| Crash.                        (** a property of [null] is read: not caught *)

Definition is_text (s : string) (v : json) : bool := match v with JStr t => seqb s t | _ => false end.

Definition sign_in_or (disk : option file) (out : answer) : line_result :=
  match loadCreds disk with Some creds => HandOff creds | None => Handled [out] end.

Definition handleAuthLine (disk : option file) (line : string) : line_result :=
  match json_parse line with
  | None => Handled []
  | Some JNull => Crash
  | Some req =>
      let method := jget "method" req in
      if is_nothing (jget "id" req) && is_string method then Handled [] else
      let id := coalesce (jget "id" req) JNull in
      if is_text "initialize" method then Handled [Initialized id]
      else if is_text "tools/list" method then sign_in_or disk (Tools id TOOL_DEFINITIONS)
      else if is_text "tools/call" method then
        if is_text "memwal_login" (jget "name" (jget "params" req)) then Handled [LoginStarted id]
        else sign_in_or disk (SignInFirst id)
      else Handled [MethodNotFound id
             ("Method not found: " +:+ js_string (coalesce method (JStr "(missing)")))]
  end.

(** ** [runAuthRequiredServer]

    Credentials are looked up on the disk of the moment a chunk arrives.  A
    hand-over leaves [lost], an incomplete line in the buffer of the old
    reader, and [unread], the chunks still on stdin. *)
Record AuthHandoff : Type := Handoff { h_creds : MemWalCredentials; h_pendingLines : list string }.

Inductive lines_result : Type :=
| Served (out : list answer)
| Handing (out : list answer) (h : AuthHandoff)
| Crashing (out : list answer).
Definition after (out : list answer) (r : lines_result) : lines_result :=
  match r with
  | Served o => Served (out ++ o)
  | Handing o h => Handing (out ++ o) h
  | Crashing o => Crashing (out ++ o)
  end.

Fixpoint serve_lines (disk : option file) (ps : list (list ascii)) : lines_result :=
  match ps with
  | [] => Served []
  | p :: ps' =>
      let raw := strip_cr p in
      if bool_decide (raw = []) then serve_lines disk ps'
      else match handleAuthLine disk (of_chars raw) with
           | Handled out => after out (serve_lines disk ps')
           | HandOff creds => Handing [] (Handoff creds (of_chars raw :: stdin_lines ps'))
           | Crash => Crashing []
           end
  end.

Inductive auth_result : Type :=
| Closed (out : list answer)
| Handed (out : list answer) (h : AuthHandoff) (lost : list ascii) (unread : list string)
| Crashed (out : list answer).
Definition after_all (out : list answer) (r : auth_result) : auth_result :=
  match r with
  | Closed o => Closed (out ++ o)
  | Handed o h l u => Handed (out ++ o) h l u
  | Crashed o => Crashed (out ++ o)
  end.

Fixpoint runAuthRequiredServer (buf : list ascii) (input : list (option file * string)) : auth_result :=
  match input with
  | [] => Closed []
  | (disk, chunk) :: input' =>
      let (ps, rest) := cut line_end [] (buf ++ chars chunk) in
      match serve_lines disk ps with
      | Served out => after_all out (runAuthRequiredServer rest input')
      | Handing out h => Handed out h rest (input'.*2)
      | Crashing out => Crashed out
      end
  end.

(** ** No line is lost *)

(** Lines that were answered locally, with their answers. *)
Definition answered (disks : list (option file)) (served : list (string * list answer)) : Prop :=
  Forall (λ lo, ∃ disk, disk ∈ disks ∧ handleAuthLine disk lo.1 = Handled lo.2) served.

Lemma stdin_lines_cons p ps :
  stdin_lines (p :: ps) =
  (if bool_decide (strip_cr p = []) then stdin_lines ps else of_chars (strip_cr p) :: stdin_lines ps).
Proof.
  unfold stdin_lines. cbn [map]. destruct (bool_decide _) eqn:E; bool_to_prop.
  - by rewrite filter_cons_False by naive_solver.
  - by rewrite filter_cons_True by done.
Qed.
Lemma stdin_lines_app ps qs : stdin_lines (ps ++ qs) = stdin_lines ps ++ stdin_lines qs.
Proof. unfold stdin_lines. by rewrite map_app, filter_app, map_app. Qed.

Lemma sign_in_hands disk out creds : sign_in_or disk out = HandOff creds → loadCreds disk = Some creds.
Proof. unfold sign_in_or. destruct (loadCreds disk); naive_solver. Qed.
Lemma line_hands disk line creds : handleAuthLine disk line = HandOff creds → loadCreds disk = Some creds.
Proof. unfold handleAuthLine. repeat case_match; naive_solver eauto using sign_in_hands. Qed.
Lemma serve_lines_kept disk ps : match serve_lines disk ps with
  | Served out => ∃ served, answered [disk] served ∧ stdin_lines ps = served.*1 ∧ out = concat (served.*2)
  | Handing out h => ∃ served, answered [disk] served ∧ out = concat (served.*2) ∧
      stdin_lines ps = served.*1 ++ h_pendingLines h ∧ loadCreds disk = Some (h_creds h)
  | Crashing out => True
  end.
Proof.
  induction ps as [|p ps IH]; [by exists []; repeat split; constructor|]. cbn [serve_lines].
  pose proof (stdin_lines_cons p ps) as Hl.
  destruct (bool_decide (strip_cr p = [])); [by rewrite Hl|].
  destruct (handleAuthLine disk _) as [out|creds|] eqn:Hh; [| |done].
  - assert (Hp : ∃ d, d ∈ [disk] ∧ handleAuthLine d (of_chars (strip_cr p)) = Handled out)
      by (exists disk; split; [by left|done]).
    destruct (serve_lines disk ps) as [o|o h|o]; cbn [after]; [| |done].
    + destruct IH as (served & Ha & Hs & ->). exists ((of_chars (strip_cr p), out) :: served).
      split; [by constructor|]. by rewrite Hl, Hs.
    + destruct IH as (served & Ha & -> & Hs & Hd). exists ((of_chars (strip_cr p), out) :: served).
      split; [by constructor|]. by rewrite Hl, Hs.
  - exists []. split; [constructor|]. repeat split; [by rewrite Hl|]. by eapply line_hands.
Qed.

Lemma feed_step complete buf chunk chunks : (feed complete buf (chunk :: chunks)).1 =
  (cut complete [] (buf ++ chars chunk)).1 ++ (feed complete (cut complete [] (buf ++ chars chunk)).2 chunks).1.
Proof.
  cbn [feed]. destruct (cut complete [] (buf ++ chars chunk)) as [ps r]. cbn.
  by destruct (feed complete r chunks).
Qed.

(** When the server without credentials hands over to the bridge, every
    complete line of stdin was answered locally or is handed over, in order;
    only an incomplete line in its buffer ([lost]) is read by neither, and
    the credentials handed over are the ones on the disk. *)
Theorem handoff_keeps_lines (input : list (option file * string)) (buf : list ascii)
    (out : list answer) (h : AuthHandoff) (lost : list ascii) (unread : list string) :
  runAuthRequiredServer buf input = Handed out h lost unread →
  ∃ served, answered (input.*1) served ∧ out = concat (served.*2) ∧
    (∃ disk, disk ∈ input.*1 ∧ loadCreds disk = Some (h_creds h)) ∧
    stdin_lines (feed line_end buf (input.*2)).1 =
      served.*1 ++ h_pendingLines h ++ stdin_lines (feed line_end lost unread).1.
Proof.
  revert buf out. induction input as [|[disk chunk] input IH]; intros buf out; [done|].
  change (((disk, chunk) :: input).*2) with (chunk :: input.*2).
  change (((disk, chunk) :: input).*1) with (disk :: input.*1). cbn [runAuthRequiredServer].
  rewrite feed_step. destruct (cut line_end [] (buf ++ chars chunk)) as [ps rest] eqn:Hcut. cbn [fst snd].
  pose proof (serve_lines_kept disk ps) as Hk. destruct (serve_lines disk ps) as [o|o h'|o]; [| |done].
  - destruct Hk as (served & Ha & Hs & ->). intros Hr.
    destruct (runAuthRequiredServer rest input) as [?|o' h' l u|?] eqn:Hrun; try done. cbn in Hr. simplify_eq.
    destruct (IH _ _ Hrun) as (served' & Ha' & -> & (d & Hd & Hc) & Hl). exists (served ++ served').
    rewrite !fmap_app, concat_app. repeat split.
    + apply Forall_app. split; (eapply Forall_impl; [done|]); intros [l' o'] (d' & Hd' & ?); exists d';
        (split; [|done]); [set_solver|by right].
    + exists d. split; [by right|done].
    + by rewrite stdin_lines_app, Hs, Hl, <-app_assoc.
  - destruct Hk as (served & Ha & -> & Hs & Hc). intros [= <- <- <- <-]. exists served. repeat split.
    + eapply Forall_impl; [done|]. intros [l' o'] (d' & Hd' & ?). exists d'. split; [set_solver|done].
    + exists disk. split; [by left|done].
    + by rewrite stdin_lines_app, Hs, <-app_assoc.
Qed.

(** ** The stream the two readers share

    Node's readable stream as its documentation has it: it flows, is paused
    explicitly, or has not been started; a [data] listener starts a stream
    that was not paused explicitly. *)
Record stdin : Type := Stdin {
  readableFlowing : option bool;
  dataListeners : nat;
  buffered : list string;
}.
Definition on_data (s : stdin) : stdin :=
  Stdin (match readableFlowing s with Some false => Some false | _ => Some true end)
        (S (dataListeners s)) (buffered s).
Definition removeListener (s : stdin) : stdin :=
  Stdin (readableFlowing s) (pred (dataListeners s)) (buffered s).
Definition pause (s : stdin) : stdin := Stdin (Some false) (dataListeners s) (buffered s).
(** A chunk arrives: what a listener gets of it. *)
Definition arrive (chunk : string) (s : stdin) : stdin * option string :=
  match readableFlowing s, dataListeners s with
  | Some true, S _ => (s, Some chunk)
  | _, _ => (Stdin (readableFlowing s) (dataListeners s) (buffered s ++ [chunk]), None)
  end.

(** [detach()] and [pause()] at the hand-over, then [readStdinLines] of the
    bridge, which attaches its listener and does not call [resume()]. *)
Definition handed_over (s : stdin) : stdin := on_data (pause (removeListener s)).

Fixpoint arrive_all (chunks : list string) (s : stdin) : stdin * list string :=
  match chunks with
  | [] => (s, [])
  | c :: cs =>
      let (s1, o) := arrive c s in
      let (s2, os) := arrive_all cs s1 in
      (s2, match o with Some x => x :: os | None => os end)
  end.

(** After a hand-over the bridge's listener gets nothing: the stream was
    paused explicitly and stays so. *)
Lemma handoff_stops_reading (chunks : list string) (s : stdin) :
  (arrive_all chunks (handed_over s)).2 = [] ∧
  buffered (arrive_all chunks (handed_over s)).1 = buffered s ++ chunks.
Proof.
  unfold handed_over, pause, on_data, removeListener. cbn [readableFlowing dataListeners buffered].
  generalize (S (pred (dataListeners s))) as n, (buffered s) as b.
  induction chunks as [|c cs IH]; intros n b; cbn; [by rewrite app_nil_r|].
  destruct (IH n (b ++ [c])) as [H1 H2]. destruct (arrive_all cs _) as [s2 os]. cbn in *. subst.
  by rewrite <-app_assoc in H2.
Qed.
