(* ===== verification/McpLogin.v ===== *)
(** * The browser login of the MCP bridge (packages/mcp/src/login.ts)

    A listener on the loopback interface waits for the dashboard to prove
    that it knows the login's secret state, and then for the callback that
    names the account.  A request runs up to its body and then in one piece;
    the events of the listener are steps.

    [URL] is Node's: the origin of a URL and the path of a request target
    are parameters, [None] where the constructor throws. *)
From Stdlib Require Import QArith Ascii.
From S2P Require Import Prelude JsText JsNumber JsonParse Hex Enoki McpCreds AuthRequired.
Local Open Scope nat_scope.

(** [url.replace(/\/+$/, "")] *)
Definition strip_slashes (url : string) : string :=
  of_chars (rev (drop_while (is_char 47) (rev (chars url)))).

Section Login.
Context (url_origin : string → option string) (url_pathname : string → option string).

Definition normalizeOrigin (url : string) : string :=
  match url_origin url with Some o => o | None => strip_slashes url end.
Definition normalizeUrl (url : string) : string := strip_slashes url.

(** ** Payloads *)
Definition is_lower_hex (c : ascii) : bool := is_digit c || in_range 97 102 c.
(** [/^[0-9a-f]{64}$/] *)
Definition is_token (s : string) : bool := (slen s =? 64) && sforallb is_lower_hex s.
Definition isHexAddress (v : json) : bool := string_is is_full_address v.
Definition isCallback (o : json) : bool :=
  isHexAddress (jget "accountId" o) && isHexAddress (jget "walletAddress" o) &&
  isHexAddress (jget "packageId" o) && string_is is_token (jget "state" o).
Definition isPreflight (o : json) : bool :=
  string_is is_token (jget "state" o) && string_is is_hex64 (jget "publicKey" o) &&
  string_is (λ s, negb (is_empty s)) (jget "relayer" o).

(** [Buffer.from(s, "hex")] stops at the first pair that is not hex. *)
Fixpoint hex_buffer (l : list ascii) : list byte :=
  match l with
  | a :: b :: l' =>
      if is_hex a && is_hex b then ascii_of_N (16 * Hex.hex_val a + Hex.hex_val b) :: hex_buffer l' else []
  | _ => []
  end.
(** [timingSafeEqual] throws on buffers of different lengths; caught. *)
Definition stateEquals (a b : string) : bool :=
  (slen a =? slen b) && bool_decide (hex_buffer (chars a) = hex_buffer (chars b)).

(** ** The listener *)
Record LoginOptions : Type := Options { o_webUrl : string; o_relayerUrl : string; o_label : string; o_timeoutMs : Z }.

(** What one login has generated. *)
Record session : Type := Session {
  cfg : LoginOptions;
  keypair : Keypair;
  stateToken : string;
  port : Z;
}.

Definition connectUrl (s : session) : string :=
  strip_slashes (o_webUrl (cfg s)) +:+ "/connect/mcp" +:+ "?port=" +:+ pretty (port s) +:+
  "&publicKey=" +:+ encodeURIComponent (publicKeyHex (keypair s)) +:+
  "&delegateAddress=" +:+ encodeURIComponent (suiAddress (keypair s)) +:+
  "&label=" +:+ encodeURIComponent (o_label (cfg s)) +:+
  "&relayer=" +:+ encodeURIComponent (o_relayerUrl (cfg s)) +:+ "&connectState=" +:+ stateToken s.

Record request : Type := Request {
  rq_method : string;
  rq_url : string;
  rq_host : option string;
  rq_origin : option string;
  rq_content_type : option string;
  rq_private_network : bool;   (** [access-control-request-private-network: true] *)
  rq_body : string;
}.

(** Responses: the status, and what is sent. *)
Inductive reply : Type :=
| NoContent (allowPrivateNetwork : bool)
| Forbidden | NotFound | UnsupportedMedia
| InvalidPreflight | PreflightMismatch
| PreflightOk (publicKey label relayer : string)
| PreflightRequired | InvalidCallback | StateMismatch | Success | InternalError
| Unhandled.                (** [new URL] throws outside the [try]: a rejection nobody handles *)
Definition status (r : reply) : option Z :=
  match r with
  | NoContent _ => Some 204%Z
  | Forbidden | PreflightMismatch | StateMismatch => Some 403%Z
  | NotFound => Some 404%Z
  | UnsupportedMedia => Some 415%Z
  | InvalidPreflight | InvalidCallback => Some 400%Z
  | PreflightOk _ _ _ | Success => Some 200%Z
  | PreflightRequired => Some 428%Z
  | InternalError => Some 500%Z
  | Unhandled => None
  end.

Inductive login_error : Type := TimedOut | CallbackError | WithoutCredentials.
(** What happened at the listener, most recent first. *)
Inductive event : Type :=
| Verified (rq : request)                          (** a preflight was accepted *)
| Consumed (rq : request) (c : MemWalCredentials)  (** a callback was accepted *).

Record listener : Type := Listener {
  preflightVerified : bool;
  l_creds : option MemWalCredentials;
  l_error : option login_error;
  settled : bool;                                  (** [done] is resolved *)
  disk : option file;
  events : list event;
}.
Definition start (d : option file) : listener := Listener false None None false d [].

Definition allowedHosts (s : session) : list string :=
  ["127.0.0.1:" +:+ pretty (port s); "localhost:" +:+ pretty (port s)].
Definition MAX_BODY : nat := 16 * 1024.
(** [readBody] and [JSON.parse]: [None] when one of them throws *)
Definition read_json (body : string) : option json :=
  if MAX_BODY <? length (utf8 body) then None else json_parse body.

(** Everything before the body: a reply, or the path of a POST to go on with. *)
Definition admit_request (s : session) (rq : request) : reply + string :=
  if seqb (rq_method rq) "OPTIONS" then inl (NoContent (rq_private_network rq)) else
  guard_or existsb (seqb (lower (default empty_str (rq_host rq)))) (allowedHosts s) else Forbidden;
  match url_pathname (rq_url rq) with
  | None => inl Unhandled
  | Some path =>
      guard_or seqb (rq_method rq) "POST" && (seqb path "/preflight" || seqb path "/callback") else NotFound;
      guard_or match rq_origin rq with
               | Some o => seqb (normalizeOrigin o) (normalizeOrigin (o_webUrl (cfg s)))
               | None => false
               end else Forbidden;
      guard_or starts_with "application/json" (lower (default empty_str (rq_content_type rq))) else UnsupportedMedia;
      inr path
  end.

Definition preflight_valid (s : session) (v : json) : bool :=
  stateEquals (text (jget "state" v)) (stateToken s) &&
  stateEquals (lower (text (jget "publicKey" v))) (lower (publicKeyHex (keypair s))) &&
  seqb (normalizeUrl (text (jget "relayer" v))) (normalizeUrl (o_relayerUrl (cfg s))).

Definition callback_creds (s : session) (now : string) (v : json) : MemWalCredentials :=
  Creds (privateKeyHex (keypair s)) (publicKeyHex (keypair s)) (suiAddress (keypair s))
        (text (jget "walletAddress" v)) (text (jget "accountId" v)) (text (jget "packageId" v))
        (o_relayerUrl (cfg s)) (Some (o_label (cfg s))) now.

Definition fails (l : listener) : listener * reply :=
  (Listener (preflightVerified l) (l_creds l) (Some CallbackError) true (disk l) (events l), InternalError).

(** The rest of the handler.  [saved]: what is on disk after [saveCreds], or
    [None] when it throws. *)
Definition handle_body (s : session) (rq : request) (path now : string)
    (writable chmods : bool) (l : listener) : listener * reply :=
  match read_json (rq_body rq) with
  | None => fails l
  | Some v =>
      if seqb path "/preflight" then
        if negb (isPreflight v) then (l, InvalidPreflight)
        else if negb (preflight_valid s v) then (l, PreflightMismatch)
        else (Listener true (l_creds l) (l_error l) (settled l) (disk l) (Verified rq :: events l),
              PreflightOk (publicKeyHex (keypair s)) (o_label (cfg s)) (o_relayerUrl (cfg s)))
      else if negb (preflightVerified l) then (l, PreflightRequired)
      else if negb (isCallback v) then (l, InvalidCallback)
      else if negb (stateEquals (text (jget "state" v)) (stateToken s)) then (l, StateMismatch)
      else
        let c := callback_creds s now v in
        let l' := Listener false (Some c) (l_error l) (settled l) (disk l) (Consumed rq c :: events l) in
        match saveCreds writable chmods c (disk l) with
        | None => fails l'
        | Some d => (Listener false (Some c) (l_error l) true d (Consumed rq c :: events l), Success)
        end
  end.

Definition on_request (s : session) (rq : request) (now : string) (writable chmods : bool)
    (l : listener) : listener * reply :=
  match admit_request s rq with
  | inl r => (l, r)
  | inr path => handle_body s rq path now writable chmods l
  end.
(** The timer *)
Definition on_timeout (l : listener) : listener :=
  match l_creds l with
  | None => Listener (preflightVerified l) None (Some TimedOut) true (disk l) (events l)
  | Some _ => l
  end.
(** What [loginFlow] returns after [await done]. *)
Definition result (l : listener) : login_error + MemWalCredentials :=
  match l_error l with
  | Some e => inl e
  | None => match l_creds l with Some c => inr c | None => inl WithoutCredentials end
  end.

(** Closing the server leaves open connections, so requests may follow. *)
Inductive step (s : session) : listener → listener → Prop :=
| Step_request rq now writable chmods l :
    step s l (on_request s rq now writable chmods l).1
| Step_timeout l : step s l (on_timeout l).
Inductive reachable (s : session) (d : option file) : listener → Prop :=
| reachable_start : reachable s d (start d)
| reachable_step l l' : reachable s d l → step s l l' → reachable s d l'.

End Login.

(** ** What a login of the MCP bridge guarantees (packages/mcp/src/login.ts)

    Credentials are accepted only from an authentic callback that carries the
    login's state and follows an authentic preflight of its own; what is
    returned is what the next start reads from the disk. *)

(** ** Comparing tokens *)
Lemma hex_buffer_pairs l : forallb is_hex l = true → length l mod 2 = 0 → hex_buffer l = Hex.hex_pairs l.
Proof.
  revert l. fix IH 1. intros [|a [|b l]] Hl Hev; [done..|]. simpl in Hl.
  apply andb_true_iff in Hl as [Ha Hl]. apply andb_true_iff in Hl as [Hb Hl]. simpl. rewrite Ha, Hb. simpl. f_equal. apply IH; [done|].
  simpl length in Hev. replace (S (S (length l))) with (length l + 1 * 2) in Hev by lia. by rewrite Nat.Div0.mod_add in Hev.
Qed.
Lemma stateEquals_lower a b : sforallb is_hex a = true → sforallb is_hex b = true → slen a mod 2 = 0 →
  stateEquals a b = true → lower a = lower b.
Proof.
  unfold sforallb, stateEquals. rewrite <-!length_chars. intros Ha Hb Hev H.
  apply andb_true_iff in H as [Hlen H]. apply bool_decide_eq_true in H. apply Nat.eqb_eq in Hlen.
  rewrite !hex_buffer_pairs in H by congruence.
  unfold lower, smap. f_equal. rewrite <-!Hex.bytesToHex_hex_pairs by congruence. by rewrite H.
Qed.
Lemma lower_hex_is_hex c : is_lower_hex c = true → is_hex c = true.
Proof. unfold is_lower_hex, is_hex. by intros ->. Qed.
Lemma lower_lower_hex c : is_lower_hex c = true → lower_ascii c = c.
Proof. destruct c as [[] [] [] [] [] [] [] []]; vm_compute; congruence. Qed.
Lemma token_facts a : is_token a = true → slen a = 64 ∧ sforallb is_hex a = true ∧ lower a = a.
Proof.
  unfold is_token, sforallb. intros H.
  apply andb_true_iff in H as [Hlen H]. apply Nat.eqb_eq in Hlen. split; [done|]. rewrite forallb_forall in H. split.
  - apply forallb_forall. eauto using lower_hex_is_hex.
  - unfold lower, smap. rewrite <-(of_chars_chars a) at 2. f_equal. rewrite <-(map_id (chars a)) at 2.
    apply map_ext_in. eauto using lower_lower_hex.
Qed.

(** [stateEquals] on tokens is equality. *)
Lemma stateEquals_token a b : is_token a = true → is_token b = true → stateEquals a b = true ↔ a = b.
Proof.
  intros Ha Hb. destruct (token_facts a Ha) as (La & Xa & Ea), (token_facts b Hb) as (Lb & Xb & Eb). split.
  - intros H. rewrite <-Ea, <-Eb. apply stateEquals_lower; [done..|by rewrite La|done].
  - intros ->. unfold stateEquals. by rewrite Nat.eqb_refl, bool_decide_true.
Qed.

Section Safety.
Context (url_origin url_pathname : string → option string) (s : session) (d : option file).
Local Abbreviation reachable := (McpLogin.reachable url_origin url_pathname s d).

(** A POST to [path] from the dashboard's page to this listener. *)
Definition authentic (path : string) (rq : request) : Prop :=
  rq_method rq = "POST" ∧ url_pathname (rq_url rq) = Some path ∧
  (∃ h, rq_host rq = Some h ∧ lower h ∈ allowedHosts s) ∧
  (∃ o, rq_origin rq = Some o ∧ normalizeOrigin url_origin o = normalizeOrigin url_origin (o_webUrl (cfg s))) ∧
  (∃ ct, rq_content_type rq = Some ct ∧ starts_with "application/json" (lower ct) = true).

Lemma admit_authentic rq path : admit_request url_origin url_pathname s rq = inr path →
  authentic path rq ∧ (path = "/preflight" ∨ path = "/callback").
Proof.
  unfold admit_request. destruct (seqb (rq_method rq) "OPTIONS"); [done|].
  rewrite ensure_inr. intros [Hhost H]. destruct (url_pathname (rq_url rq)) as [p|] eqn:Hp; [|done].
  rewrite !ensure_inr in H. destruct H as (Hpost & Horigin & Hct & [= ->]).
  apply andb_true_iff in Hpost as [Hm Hpath]. apply seqb_eq in Hm.
  apply existsb_exists in Hhost as (h & Hin & Hh). apply seqb_eq in Hh.
  destruct (rq_origin rq) as [o|] eqn:Ho; [|done]. apply seqb_eq in Horigin.
  split; [|by apply orb_true_iff in Hpath as [?%seqb_eq| ?%seqb_eq]; auto].
  split_and!; [done|done| |by exists o|].
  - destruct (rq_host rq) as [h'|]; subst h; [exists h'; split; [done|by apply list_elem_of_In]|].
    cbn in Hin. by destruct Hin as [?|[?|?]].
  - destruct (rq_content_type rq) as [ct|]; [by exists ct|done].
Qed.

(** The preflight's tuple is the listener's own. *)
Definition preflight_exact (rq : request) : Prop :=
  authentic "/preflight" rq ∧ ∃ v, read_json (rq_body rq) = Some v ∧
    text (jget "state" v) = stateToken s ∧
    lower (text (jget "publicKey" v)) = lower (publicKeyHex (keypair s)) ∧
    strip_slashes (text (jget "relayer" v)) = strip_slashes (o_relayerUrl (cfg s)).
(** The callback carries the state and names the account; the rest of the
    credentials is the login's own. *)
Definition callback_exact (rq : request) (c : MemWalCredentials) : Prop :=
  authentic "/callback" rq ∧ ∃ v now, read_json (rq_body rq) = Some v ∧
    text (jget "state" v) = stateToken s ∧ c = callback_creds s now v ∧
    is_full_address (accountId c) = true ∧ is_full_address (walletAddress c) = true ∧
    is_full_address (packageId c) = true.

(** An accepted preflight that no callback has used yet. *)
Fixpoint armed (es : list event) : Prop :=
  match es with
  | [] => False
  | Verified rq :: _ => preflight_exact rq
  | Consumed _ _ :: _ => False
  end.
Fixpoint justified (es : list event) : Prop :=
  match es with
  | [] => True
  | Verified rq :: es' => preflight_exact rq ∧ justified es'
  | Consumed rq c :: es' => callback_exact rq c ∧ armed es' ∧ justified es'
  end.
(** The credentials accepted last. *)
Fixpoint accepted (es : list event) : option MemWalCredentials :=
  match es with
  | [] => None
  | Verified _ :: es' => accepted es'
  | Consumed _ c :: _ => Some c
  end.

Hypothesis token_ok : is_token (stateToken s) = true.
Hypothesis key_ok : is_hex64 (privateKeyHex (keypair s)) = true.
Hypothesis pub_ok : is_hex64 (publicKeyHex (keypair s)) = true.

Record login_inv (l : listener) : Prop := LoginInv {
  inv_armed : preflightVerified l = true → armed (events l);
  inv_justified : justified (events l);
  inv_accepted : l_creds l = accepted (events l);
  inv_disk : l_error l = None →
    match accepted (events l) with Some c => loadCreds (disk l) = Some c | None => disk l = d end;
  inv_settled : settled l = true ↔ is_Some (l_creds l) ∨ is_Some (l_error l);
}.

Lemma start_login_inv : login_inv (start d).
Proof. split; cbn; try done. split; [done|]. intros [[? ?]|[? ?]]; done. Qed.

Lemma fails_inv l : login_inv l → login_inv (fails l).1.
Proof.
  intros [Ha Hj Hc Hd Hs]. split; cbn; [exact Ha|exact Hj|exact Hc|done|].
  split; [intros _; right; by eexists|done].
Qed.

Lemma is_hex64_facts a : is_hex64 a = true → slen a = 64 ∧ sforallb is_hex a = true.
Proof. unfold is_hex64. intros [H ?]%andb_true_iff. by apply Nat.eqb_eq in H. Qed.
Lemma lower_ascii_is_hex c : is_hex c = true → is_hex (lower_ascii c) = true ∧ lower_ascii (lower_ascii c) = lower_ascii c.
Proof. destruct c as [[] [] [] [] [] [] [] []]; vm_compute; (congruence || done). Qed.
Lemma lower_facts a : is_hex64 a = true →
  slen (lower a) = 64 ∧ sforallb is_hex (lower a) = true ∧ lower (lower a) = lower a.
Proof.
  intros [Hl Hx]%is_hex64_facts. unfold sforallb in *. rewrite forallb_forall in Hx.
  unfold lower, smap. rewrite slen_of_chars, length_map, !chars_of_chars. split; [by rewrite length_chars|]. split.
  - apply forallb_forall. intros c (x & <- & Hin)%in_map_iff. by apply lower_ascii_is_hex, Hx.
  - f_equal. rewrite map_map. apply map_ext_in. intros c Hin. by apply lower_ascii_is_hex, Hx.
Qed.

Lemma preflight_ok rq v : authentic "/preflight" rq → read_json (rq_body rq) = Some v →
  isPreflight v = true → preflight_valid s v = true → preflight_exact rq.
Proof.
  intros Hauth Hv Hp Hvalid. split; [done|]. exists v. split; [done|].
  unfold preflight_valid, normalizeUrl in Hvalid.
  unfold isPreflight in Hp. apply andb_true_iff in Hp as [[Hst Hpk]%andb_true_iff _].
  destruct (jget "state" v) as [| | | |st| |]; try done. destruct (jget "publicKey" v) as [| | | |pk| |]; try done.
  cbn [text string_is] in *.
  apply andb_true_iff in Hvalid as [[H1 H2]%andb_true_iff H3%seqb_eq].
  split; [by apply (proj1 (stateEquals_token _ _ Hst token_ok))|]. split; [|done].
  destruct (lower_facts pk Hpk) as (L1 & X1 & E1), (lower_facts _ pub_ok) as (L2 & X2 & E2).
  rewrite <-E1, <-E2. apply stateEquals_lower; [done|done|by rewrite L1|done].
Qed.
Lemma callback_ok rq v now : authentic "/callback" rq → read_json (rq_body rq) = Some v →
  isCallback v = true → stateEquals (text (jget "state" v)) (stateToken s) = true →
  callback_exact rq (callback_creds s now v).
Proof.
  intros Hauth Hv Hcb Hst. split; [done|]. exists v, now. split; [done|].
  unfold isCallback, isHexAddress in Hcb. apply andb_true_iff in Hcb as [[[Ha Hw]%andb_true_iff Hp]%andb_true_iff Ht].
  cbn [callback_creds accountId walletAddress packageId].
  destruct (jget "state" v), (jget "accountId" v), (jget "walletAddress" v), (jget "packageId" v); try done.
  cbn [text string_is] in *. split_and!; try done. by apply (proj1 (stateEquals_token _ _ Ht token_ok)).
Qed.

Lemma body_inv rq path now writable chmods l : login_inv l → authentic path rq →
  path = "/preflight" ∨ path = "/callback" → login_inv (handle_body s rq path now writable chmods l).1.
Proof.
  intros Hl Hauth Hpath. unfold handle_body. destruct (read_json (rq_body rq)) as [v|] eqn:Hv; [|by apply fails_inv].
  pose proof Hl as [Ha Hj Hc Hd Hs]. destruct Hpath as [->| ->].
  - change (seqb "/preflight" "/preflight") with true. cbn iota.
    destruct (isPreflight v) eqn:Hp; [|done]. destruct (preflight_valid s v) eqn:Hvalid; [|done]. cbn.
    assert (preflight_exact rq) by (eapply preflight_ok; eauto). by split.
  - change (seqb "/callback" "/preflight") with false. cbn iota.
    destruct (preflightVerified l) eqn:Hver; [|done]. destruct (isCallback v) eqn:Hcb; [|done].
    destruct (stateEquals _ _) eqn:Hst; [|done]. cbn [negb]. cbv zeta.
    assert (Hex : callback_exact rq (callback_creds s now v)) by (eapply callback_ok; eauto).
    assert (Hj' : justified (Consumed rq (callback_creds s now v) :: events l)) by (split_and!; auto).
    destruct (saveCreds writable chmods _ (disk l)) as [dk|] eqn:Hsave.
    + split; cbn; [done|exact Hj'|done| |].
      * intros _. destruct Hex as [_ (v' & now' & _ & _ & Heq & Haddr & _)].
        destruct writable; [|done].
        destruct (credentials_roundtrip (callback_creds s now v) chmods (disk l) key_ok Haddr) as (f & Hf & Hload & _).
        by rewrite Hf in Hsave; simplify_eq.
      * split; [intros _; left; by eexists|done].
    + split; cbn; [done|exact Hj'|done|done|]. split; [intros _; left; by eexists|done].
Qed.

Lemma reachable_login_inv l : reachable l → login_inv l.
Proof.
  induction 1 as [|l l' Hr IH Hstep]; [apply start_login_inv|]. destruct Hstep as [rq now w c l|l].
  - unfold on_request. destruct (admit_request _ _ s rq) as [r|path] eqn:Hadm; [done|].
    apply admit_authentic in Hadm as [Hauth Hpath]. by apply body_inv.
  - unfold on_timeout. destruct (l_creds l) eqn:Hcr; [done|]. destruct IH as [Ha Hj Hc Hd Hs].
    split; cbn; [exact Ha|exact Hj|by rewrite <-Hc|done|]. split; [intros _; right; by eexists|done].
Qed.

(** C29: A login returns credentials only if an authentic callback with its
    state carried them, after an authentic preflight with its exact state,
    key and relayer that no other callback had used; they hold the key the
    login generated, and the disk holds just them. *)
Theorem login_authorized (l : listener) (c : MemWalCredentials) :
  reachable l → result l = inr c →
  loadCreds (disk l) = Some c ∧
  ∃ later rq es, events l = later ++ Consumed rq c :: es ∧ accepted later = None ∧
    callback_exact rq c ∧ armed es.
Proof.
  intros Hr Hres. destruct (reachable_login_inv l Hr) as [_ Hj Hc Hd _].
  unfold result in Hres. destruct (l_error l); [done|]. destruct (l_creds l) as [c'|]; [|done]. simplify_eq.
  rewrite <-Hc in Hd. split; [by apply Hd|]. clear Hd Hr.
  induction (events l) as [|[rq|rq c'] es IH]; [done| |]; cbn in Hc, Hj.
  - destruct IH as (later & rq' & es' & -> & Hl & ?); [tauto|done|]. by exists (Verified rq :: later), rq', es'.
  - simplify_eq. exists [], rq, es. tauto.
Qed.
End Safety.
