(* ===== verification/Deletion.v ===== *)
(** * Deleting memories for good (apps/app/src: useSecurityDeletion,
    securityDeleteApi, securityDeleteAuth)

    A deletion runs in batches: the service prepares a transaction, the
    wallet signs it, the service submits it.  The hook is a program over what
    it keeps between renders; the outside (service, wallet, user) answers from
    the trace of events so far.  While the program waits, the user may press
    cancel, switch the account or leave, and other callers may request, cache
    or clear tokens; the request of a cancel that the user pressed runs beside the
    program, and its end is an event of its own.  One run of the hook is
    modelled at a time; a callback or an analytics event that throws is not,
    and counts are exact. *)
From Stdlib Require Import Ascii QArith Qround.
From S2P Require Import Prelude JsText JsNumber JsonParse Retry Ledger.
From S2P Require Enoki.
From S2P Require Import SealId.
Local Open Scope Z_scope.

(** ** Errors and requests (securityDeleteApi.ts) *)
Inductive SdAction : Type := REAUTH | REFETCH | RE_PREPARE | RETRY_AFTER | NO_ACTION.
#[export] Instance action_dec : EqDecision SdAction.
Proof. solve_decision. Defined.
Record sd_error : Type := SdApiError {
  sd_code : string; sd_action : SdAction; sd_retriable : bool; sd_status : Z; sd_message : string; sd_details : json;
}.
Inductive failure : Type := Api (e : sd_error) | DeletionCancelledError (message : string) | Thrown (e : js_error) | OutOfFuel.
Definition ACTIONS : list (string * SdAction) :=
  [("REAUTH", REAUTH); ("REFETCH", REFETCH); ("RE_PREPARE", RE_PREPARE); ("RETRY_AFTER", RETRY_AFTER); ("NONE", NO_ACTION)].
Definition ERROR_CONTRACT : list (string * (Z * SdAction * bool)) :=
  [("AUTH_CHALLENGE_EXPIRED", (401, REAUTH, false)); ("AUTH_INVALID_SIGNATURE", (401, NO_ACTION, false)); ("AUTH_TOKEN_EXPIRED", (401, REAUTH, false));
   ("INVALID_REQUEST", (400, NO_ACTION, false)); ("ACTIVE_BATCH_LIMIT", (409, REFETCH, false)); ("BATCH_CONFLICT", (409, REFETCH, false));
   ("BATCH_NOT_FOUND", (404, REFETCH, false)); ("BATCH_ALREADY_RESOLVED", (409, REFETCH, false)); ("BATCH_EXPIRED", (410, RE_PREPARE, false));
   ("TX_EXECUTION_FAILED", (502, RE_PREPARE, false)); ("SPONSOR_FUNDS_UNAVAILABLE", (503, RETRY_AFTER, true)); ("INVALID_SIGNATURE", (400, NO_ACTION, false));
   ("RATE_LIMITED", (429, RETRY_AFTER, true)); ("RPC_UNAVAILABLE", (503, RETRY_AFTER, true)); ("INTERNAL_ERROR", (500, RETRY_AFTER, true));
   ("FEATURE_DISABLED", (404, NO_ACTION, false))].
Definition BLOB_STATES : list string := ["deletable"; "deleting"; "deleted"; "deleted_external"; "not_owner"; "expired"].
Definition BATCH_STATES : list string := ["awaiting_signature"; "executing"; "completed"; "failed"; "rolled_back"].
Inductive deletion_body : Type := DeleteAll | DeleteSelection (blobIds : list string).
Inductive sd_request : Type :=
| QChallenge (address : string)
| QVerify (challengeId address signature : string)
| QList (token : string) (state cursor limit : option string)
| QPrepare (token : string) (body : deletion_body)
| QSubmit (token batchId signature : string)
| QCancel (token batchId : string)
| QStatus (token batchId : string).
Definition body_json (b : deletion_body) : json :=
  match b with
  | DeleteAll => JObj [("mode", JStr "all")]
  | DeleteSelection blobIds => JObj [("mode", JStr "selection"); ("blobIds", JArr (map JStr blobIds))]
  end.
Definition batch_path (batchId : string) : string := "/api/security-deletions/" +:+ Enoki.encodeURIComponent batchId.
(** Method, path, body, token and time limit of a request. *)
Record http_request : Type := HttpRequest { hq_method : string; hq_path : string; hq_body : option json; hq_token : option string; hq_timeoutMs : Z }.
(** [URLSearchParams] *)
Definition form_encode (s : string) : string :=
  of_chars (flat_map (λ c, if is_word c || existsb (λ n, is_char n c) [45; 46; 42]%N then [c] else if is_char 32 c then ["+"%char]
    else flat_map (λ b, ["%"%char; Enoki.upper_hex (code b / 16); Enoki.upper_hex (code b mod 16)]%N) (utf8_char c)) (chars s)).
Definition query_of (l : list (string * option string)) : string :=
  let given := omap (λ x, v ← x.2; if is_empty v then None else Some (x.1 +:+ "=" +:+ form_encode v)) l in
  if (length given =? 0)%nat then empty_str else "?" +:+ join "&" given.
Definition http_of (q : sd_request) : http_request :=
  match q with
  | QChallenge address => HttpRequest "POST" "/api/security-delete-auth/challenge" (Some (JObj [("address", JStr address)])) None 15000
  | QVerify challengeId address signature =>
      HttpRequest "POST" "/api/security-delete-auth/verify"
        (Some (JObj [("challengeId", JStr challengeId); ("address", JStr address); ("signature", JStr signature)])) None 15000
  | QList token state cursor limit =>
      HttpRequest "GET" ("/api/security-deletable-blobs" +:+ query_of [("state", state); ("cursor", cursor); ("limit", limit)]) None (Some token) 15000
  | QPrepare token body => HttpRequest "POST" "/api/security-deletions" (Some (body_json body)) (Some token) 15000
  | QSubmit token batchId signature =>
      HttpRequest "POST" (batch_path batchId +:+ "/submit") (Some (JObj [("signature", JStr signature)])) (Some token) 120000
  | QCancel token batchId => HttpRequest "DELETE" (batch_path batchId) None (Some token) 15000
  | QStatus token batchId => HttpRequest "GET" (batch_path batchId) None (Some token) 15000
  end.

(** *** What an answer must look like *)
Definition isRecord (v : json) : bool := match v with JObj _ => true | _ => false end.
Definition string_in (v : json) : option string := match v with JStr s => Some s | _ => None end.
Definition filled (v : json) : option string := s ← string_in v; if is_empty s then None else Some s.
Definition nullable (v : json) : option (option string) := match v with JNull => Some None | JStr s => Some (Some s) | _ => None end.
Definition count_in (v : json) : option Z :=
  match v with JNum q => let r := Qred q in if (Qden r =? 1)%positive && (0 <=? Qnum r) then Some (Qnum r) else None | _ => None end.
Definition positive_in (v : json) : option Z := n ← count_in v; if 0 <? n then Some n else None.
Definition one_of (l : list string) (s : string) : bool := existsb (seqb s) l.
Definition require_that (b : bool) : option unit := if b then Some tt else None.
Definition is_b64 (c : ascii) : bool := is_digit c || in_range 65 90 c || in_range 97 122 c || is_char 43 c || is_char 47 c.
(** [/^(?:[A-Za-z0-9+/]{4})*(?:[A-Za-z0-9+/]{2}==|[A-Za-z0-9+/]{3}=)?$/] *)
Fixpoint quads (l : list ascii) : bool :=
  match l with
  | [] => true
  | [a; b; c; d] => is_b64 a && is_b64 b && ((is_b64 c && is_b64 d) || (is_b64 c && is_char 61 d) || (is_char 61 c && is_char 61 d))
  | a :: b :: c :: d :: l' => is_b64 a && is_b64 b && is_b64 c && is_b64 d && quads l'
  | _ => false
  end.
Definition isStandardBase64 (s : string) : bool := negb (is_empty s) && quads (chars s).
Record PrepareResponse : Type := Prepared { pr_batchId : option string; pr_txBytes : option string; pr_included : Z }.
Definition excluded_ok (v : json) : option unit :=
  _ ← require_that (isRecord v); _ ← filled (jget "blobId" v);
  require_that (one_of ["already_deleted"; "expired"; "not_owner"] (js_string (jget "reason" v))).
Definition parse_prepare (v : json) : option PrepareResponse :=
  _ ← require_that (isRecord v);
  batchId ← nullable (jget "batchId" v);
  txBytes ← nullable (jget "txBytes" v);
  included ← count_in (jget "included" v);
  excluded ← match jget "excluded" v with JArr l => Some l | _ => None end;
  expiresAt ← nullable (jget "expiresAt" v);
  _ ← match batchId, txBytes with
      | None, None => require_that ((included =? 0) && bool_decide (expiresAt = None))
      | Some id, Some bytes => require_that (negb (included =? 0) && negb (is_empty id) && isStandardBase64 bytes &&
                                             match expiresAt with Some e => negb (is_empty e) | None => false end)
      | _, _ => None
      end;
  _ ← mapM excluded_ok excluded;
  Some (Prepared batchId txBytes included).
Definition parse_submit (v : json) : option Z :=
  _ ← require_that (isRecord v && equals_text "completed" (jget "state" v));
  deleted ← count_in (jget "deleted" v);
  _ ← filled (jget "digest" v);
  Some deleted.
Record BatchStatus : Type := Status { bs_state : string; bs_blobCount : Z }.
Definition parseStatus (v : json) : option BatchStatus :=
  _ ← require_that (isRecord v);
  state ← string_in (jget "state" v);
  _ ← require_that (one_of BATCH_STATES state);
  blobCount ← count_in (jget "blobCount" v);
  _ ← nullable (jget "digest" v);
  _ ← nullable (jget "resolvedAt" v);
  Some (Status state blobCount).
Definition parse_challenge (v : json) : option (string * string) :=
  _ ← require_that (isRecord v);
  challengeId ← filled (jget "challengeId" v);
  challenge ← filled (jget "challenge" v);
  _ ← positive_in (jget "expiresInSecs" v);
  Some (challengeId, challenge).
Definition parse_verified (v : json) : option (string * Z) :=
  _ ← require_that (isRecord v);
  token ← filled (jget "token" v);
  expiresInSecs ← positive_in (jget "expiresInSecs" v);
  Some (token, expiresInSecs).
Definition COUNT_KEYS : list string := ["total"; "deletable"; "deleting"; "deleted"; "deletedExternal"; "notOwner"; "expired"].
Definition item_ok (is_date : string → bool) (v : json) : option string :=
  _ ← require_that (isRecord v);
  blobId ← filled (jget "blobId" v);
  _ ← nullable (jget "objectId" v);
  createdAt ← string_in (jget "createdAt" v);
  _ ← require_that (is_date createdAt);
  state ← string_in (jget "state" v);
  _ ← require_that (one_of BLOB_STATES state);
  Some blobId.
(** The ids of a page, the batch limit and the next cursor. *)
Definition parse_list (is_date : string → bool) (v : json) : option (list string * Z * option string) :=
  _ ← require_that (isRecord v);
  items ← match jget "items" v with JArr l => Some l | _ => None end;
  _ ← require_that (length items <=? 200)%nat;
  _ ← require_that (isRecord (jget "counts" v) && isRecord (jget "limits" v));
  deleteBatchMax ← positive_in (jget "deleteBatchMax" (jget "limits" v));
  _ ← require_that (deleteBatchMax <=? 900);
  nextCursor ← nullable (jget "nextCursor" v);
  _ ← mapM (λ k, count_in (jget k (jget "counts" v))) COUNT_KEYS;
  ids ← mapM (item_ok is_date) items;
  Some (ids, deleteBatchMax, nextCursor).

(** [sdFetch], from what [fetch] and [response.json()] give: an error of the
    contract, or one without an action. *)
Definition unknown_error (status : Z) (message : string) : sd_error := SdApiError "UNKNOWN" NO_ACTION false status message (JObj []).
Definition malformed : sd_error := unknown_error 0 "The server returned an invalid response.".
Definition network_error : sd_error := SdApiError "NETWORK_ERROR" RETRY_AFTER true 0 "Unable to reach the deletion service." (JObj []).
Definition bool_in (v : json) : option bool := match v with JBool b => Some b | _ => None end.
Definition contract_error (status : Z) (body : json) : option sd_error :=
  _ ← require_that (isRecord body && isRecord (jget "error" body));
  let envelope := jget "error" body in
  code ← string_in (jget "code" envelope);
  action ← (name ← string_in (jget "action" envelope); assoc name ACTIONS);
  retriable ← bool_in (jget "retriable" envelope);
  message ← string_in (jget "message" envelope);
  _ ← require_that (isRecord (jget "details" envelope));
  '(status', action', retriable') ← assoc code ERROR_CONTRACT;
  _ ← require_that ((status' =? status) && bool_decide (action' = action) && Bool.eqb retriable' retriable);
  Some (SdApiError code action retriable status message (jget "details" envelope)).
Definition sd_answer (r : js_error + (Z * option json)) : sd_error + json :=
  match r with
  | inl _ => inl network_error
  | inr (status, body) =>
      let body := default JNull body in
      if (200 <=? status) && (status <=? 299) then inr body
      else inl (default (unknown_error status "Request failed.") (contract_error status body))
  end.
Definition checked_answer {A} (parse : json → option A) (r : js_error + (Z * option json)) : sd_error + A :=
  match sd_answer r with
  | inl e => inl e
  | inr v => match parse v with Some a => inr a | None => inl malformed end
  end.

(** ** The hook's state and what surrounds it *)
Inductive phase : Type :=
| Idle
| Preparing (batch : Z)
| Signing (batch : Z) (totalBatches : option Z)
| Executing (batch : Z)
| DonePhase (deletedBlobs : Z)
| ErrorPhase (message code : string).
(** What happens besides the program: the user's actions, and what other
    callers do to the tokens. *)
Inductive user_event : Type :=
| CancelPressed
| CancelSettled (batchId : string) (run : nat) (failed : option (string * string))
| Switched (address : string)
| Unmounted
| TokenRequested (address : string)
| TokenSettled (address : string) (cached : option (string * Z))
| TokenCleared (address : string).
Inductive event : Type :=
| Asked (q : sd_request)
| SignedMessage (challenge : string)
| SignedTransaction (txBytes : string)
| Joined (address : string)   (** [inflight.get(address)] is awaited *)
| Slept (ms : Q)
| SetPhase (p : phase)
| StateChanged
| User (u : user_event).
Record hook_state : Type := Hook {
  trace : list event; tokens : gmap string (string * Z); inflight : gset string; generations : gmap string nat; address : string; mounted : bool;
  generation : nat; cancellationGeneration : nat; running : bool; activeBatch : option string;
}.
Record world : Type := World {
  w_fetch : list event → js_error + (Z * option json);   (** [fetch]; [None] is a body that is no JSON *)
  w_sign : list event → js_error + string;               (** the wallet, [Transaction.from] included *)
  w_join : list event → (sd_error + js_error) + string;  (** the request of another caller *)
  w_user : list event → list user_event;                 (** what happens while the program waits *)
  w_clock : list event → Z;
}.
Definition DM : Type → Type := ST hook_state failure.
Definition log (ev : event) (s : hook_state) : hook_state :=
  Hook (trace s ++ [ev]) (tokens s) (inflight s) (generations s) (address s) (mounted s) (generation s) (cancellationGeneration s) (running s) (activeBatch s).
Definition set_tokens (t : gmap string (string * Z)) (f : gset string) (s : hook_state) : hook_state :=
  Hook (trace s) t f (generations s) (address s) (mounted s) (generation s) (cancellationGeneration s) (running s) (activeBatch s).
Definition set_active (b : option string) (s : hook_state) : hook_state :=
  Hook (trace s) (tokens s) (inflight s) (generations s) (address s) (mounted s) (generation s) (cancellationGeneration s) (running s) b.
Definition set_running (b : bool) (s : hook_state) : hook_state :=
  Hook (trace s) (tokens s) (inflight s) (generations s) (address s) (mounted s) (generation s) (cancellationGeneration s) b (activeBatch s).
Definition bump_cancellation (s : hook_state) : hook_state :=
  Hook (trace s) (tokens s) (inflight s) (generations s) (address s) (mounted s) (generation s) (S (cancellationGeneration s)) (running s) (activeBatch s).
(** [clearToken] of a normalized address *)
Definition clear_token (a : string) (s : hook_state) : hook_state :=
  Hook (trace s) (delete a (tokens s)) (inflight s ∖ {[a]}) (<[a := S (default 0%nat (generations s !! a))]> (generations s)) (address s) (mounted s)
    (generation s) (cancellationGeneration s) (running s) (activeBatch s).
(** [useEffect(..., [address])] *)
Definition switch (a : string) (s : hook_state) : hook_state :=
  Hook (trace s) (tokens s) (inflight s) (generations s) a (mounted s) (S (generation s)) (S (cancellationGeneration s)) false None.
Definition unmount (s : hook_state) : hook_state :=
  Hook (trace s) (tokens s) (inflight s) (generations s) (address s) false (generation s) (cancellationGeneration s) (running s) (activeBatch s).
Definition safe_phase (p : phase) (run : nat) (s : hook_state) : hook_state :=
  if mounted s && (generation s =? run)%nat then log (SetPhase p) s else s.
(** [if (activeBatch.current === batchId) activeBatch.current = null] *)
Definition drop_active (batchId : string) (s : hook_state) : hook_state := if bool_decide (activeBatch s = Some batchId) then set_active None s else s.
(** The end of [cancelActive] *)
Definition cancel_end (batchId : string) (run : nat) (failed : option (string * string)) (s : hook_state) : hook_state :=
  let s := safe_phase (match failed with Some (message, code) => ErrorPhase message code | None => Idle end) run s in
  log StateChanged (drop_active batchId s).
Definition user (s : hook_state) (u : user_event) : hook_state :=
  let s' := log (User u) s in
  match u with
  | CancelPressed => bump_cancellation s'
  | CancelSettled batchId run failed => cancel_end batchId run failed s'
  | Switched a => if seqb a (address s) then s else log (SetPhase Idle) (switch a s')
  | Unmounted => unmount s'
  | TokenRequested a => set_tokens (tokens s) ({[a]} ∪ inflight s) s'
  | TokenSettled a cached => set_tokens (from_option (λ t, <[a := t]> (tokens s)) (tokens s) cached) (inflight s ∖ {[a]}) s'
  | TokenCleared a => clear_token a s'
  end.
Definition errorInfo (e : failure) : string * string :=
  match e with
  | Api e => (sd_message e, sd_code e)
  | DeletionCancelledError message => (message, "UNKNOWN")
  | Thrown e => (e_message e, "UNKNOWN")
  | OutOfFuel => (empty_str, "UNKNOWN")
  end.
Definition has_action (a : SdAction) (e : failure) : bool := match e with Api e => bool_decide (sd_action e = a) | _ => false end.
(** [retryDelayMs(details.retryAfterSecs, fallback)] *)
Definition retryDelayMs (value : json) (fallbackSeconds : Q) : Q :=
  let seconds := match value with JNum q => q | _ => fallbackSeconds end in
  let positive := if Qle_bool seconds 0 then 0%Q else seconds in
  ((if Qle_bool 60 positive then 60 else positive) * 1000)%Q.

Section Hook.
Context `{SuiSdk} (w : world).
(** A call: one event, and what happens until it is answered. *)
Definition await (ev : event) : DM (list event) := λ s,
  let s := log ev s in (foldl user s (w_user w (trace s)), inr (trace s)).
Definition d_of_sum {A} (r : failure + A) : DM A := match r with inl e => throw e | inr a => mret a end.
Definition sd_call {A} (parse : json → option A) (q : sd_request) : DM A :=
  tr ← await (Asked q);
  d_of_sum match checked_answer parse (w_fetch w tr) with inl e => inl (Api e) | inr a => inr a end.
Definition sign (ev : event) : DM string :=
  tr ← await ev; d_of_sum match w_sign w tr with inl e => inl (Thrown e) | inr a => inr a end.
Definition sleep (ms : Q) : DM unit := _ ← await (Slept ms); mret tt.
Definition requestChallenge (a : string) : DM (string * string) := sd_call parse_challenge (QChallenge a).
Definition verifyChallenge (challengeId a signature : string) : DM (string * Z) := sd_call parse_verified (QVerify challengeId a signature).
Definition prepareDeletion (token : string) (body : deletion_body) : DM PrepareResponse := sd_call parse_prepare (QPrepare token body).
Definition submitDeletion (token batchId signature : string) : DM Z := sd_call parse_submit (QSubmit token batchId signature).
Definition cancelDeletion (token batchId : string) : DM BatchStatus := sd_call parseStatus (QCancel token batchId).
Definition getDeletionStatus (token batchId : string) : DM BatchStatus := sd_call parseStatus (QStatus token batchId).
Definition listBlobs (is_date : string → bool) (token : string) (state cursor limit : option string) : DM (list string * Z * option string) :=
  sd_call (parse_list is_date) (QList token state cursor limit).

(** ** Tokens (securityDeleteAuth.ts) *)
Definition abort_error : js_error := plain_error "Authentication was invalidated by an identity change.".
Definition token_generation (a : string) (s : hook_state) : nat := default 0%nat (generations s !! a).
Fixpoint issueToken (attempts : nat) (a : string) (gen : nat) : DM string :=
  match attempts with
  | O => throw (Thrown (plain_error "unreachable"))
  | S more =>
      try_catch
        ('(challengeId, challenge) ← requestChallenge a;
         signature ← sign (SignedMessage challenge);
         '(token, expiresInSecs) ← verifyChallenge challengeId a signature;
         current ← gets (token_generation a);
         if negb (current =? gen)%nat then throw (Thrown abort_error) else
         t ← gets (λ s, w_clock w (trace s));
         _ ← modify (λ s, set_tokens (<[a := (token, t + expiresInSecs * 1000)]> (tokens s)) (inflight s) s);
         mret token)
        (λ e, if has_action REAUTH e && negb (more =? 0)%nat then issueToken more a gen else throw e)
  end.
Definition join_token (a : string) : DM string :=
  tr ← await (Joined a);
  d_of_sum match w_join w tr with inl (inl e) => inl (Api e) | inl (inr e) => inl (Thrown e) | inr token => inr token end.
Definition getToken (rawAddress : string) : DM string :=
  let a := normalizeSuiAddress rawAddress in
  cached ← gets (λ s, '(token, expiresAtMs) ← tokens s !! a; if 60000 <=? expiresAtMs - w_clock w (trace s) then Some token else None);
  match cached with
  | Some token => mret token
  | None =>
      existing ← gets (λ s : hook_state, bool_decide (a ∈ inflight s));
      if negb existing then gen ← gets (token_generation a); issueToken 2 a gen else join_token a
  end.
Definition withAuth {A} (rawAddress : string) (call : string → DM A) : DM A :=
  token ← getToken rawAddress;
  try_catch (call token)
    (λ e, if negb (has_action REAUTH e) then throw e else
          _ ← modify (clear_token (normalizeSuiAddress rawAddress));
          token ← getToken rawAddress;
          call token).

(** ** The run (useSecurityDeletion.ts)

    [addr] is the account of the render the run belongs to. *)
Context (addr : string).
Definition set_phase (p : phase) (run : nat) : DM unit := modify (safe_phase p run).
Definition onStateChanged : DM unit := modify (log StateChanged).
Definition clear_active (batchId : string) : DM unit := modify (drop_active batchId).
Definition authed {A} (call : string → DM A) : DM A :=
  if is_empty addr then throw (Thrown (plain_error "Connect a wallet to delete memories.")) else withAuth addr call.
Definition quietly {A} (m : DM A) : DM unit := try_catch (_ ← m; mret tt) (λ _, mret tt).
Definition cancelActive : DM unit :=
  _ ← modify bump_cancellation;
  active ← gets activeBatch;
  match active with
  | None => mret tt
  | Some batchId =>
      if is_empty addr then mret tt else
      run ← gets generation;
      failed ← try_catch (_ ← authed (λ token, cancelDeletion token batchId); mret None) (λ e, mret (Some (errorInfo e)));
      modify (cancel_end batchId run failed)
  end.
Fixpoint prepare_with_retry (delays : nat) (body : deletion_body) : DM PrepareResponse :=
  try_catch (authed (λ token, prepareDeletion token body))
    (λ e, match e, delays with
          | Api err, S more =>
              if has_action RETRY_AFTER e
              then _ ← sleep (retryDelayMs (jget "retryAfterSecs" (sd_details err)) 5); prepare_with_retry more body
              else throw e
          | _, _ => throw e
          end).
Definition prepareWithRetry : deletion_body → DM PrepareResponse := prepare_with_retry 1.
Definition error_status (e : failure) : Z := match e with Api e => sd_status e | _ => 0 end.
Definition no_details : json := JObj [].
Definition submitWithRecovery (batchId signature : string) : DM Z :=
  try_catch (authed (λ token, submitDeletion token batchId signature))
    (λ e, match e with
          | Api err =>
              if negb (has_action RETRY_AFTER e) then throw e else
              _ ← sleep (retryDelayMs (jget "retryAfterSecs" (sd_details err)) 2);
              status ← try_catch (authed (λ token, getDeletionStatus token batchId))
                (λ e', throw (Api (SdApiError "BATCH_STATUS_UNAVAILABLE" REFETCH true (error_status e')
                                   "Submission status is temporarily unavailable. Check the Deleted tab." no_details)));
              if seqb (bs_state status) "completed" then mret (bs_blobCount status) else
              if seqb (bs_state status) "awaiting_signature" then authed (λ token, submitDeletion token batchId signature) else
              if seqb (bs_state status) "failed" || seqb (bs_state status) "rolled_back"
              then if seqb (sd_code err) "SPONSOR_FUNDS_UNAVAILABLE" then throw e
                   else throw (Api (SdApiError "BATCH_RECOVERED_FAILED" RE_PREPARE true 409 "The batch must be prepared again." no_details))
              else throw (Api (SdApiError "BATCH_EXECUTING" REFETCH true 409 "Deletion is still executing. Check the Deleted tab." no_details))
          | _ => throw e
          end).
Definition current (run : nat) (s : hook_state) : bool := mounted s && (generation s =? run)%nat.
Definition abandon {A} (batchId message : string) : DM A :=
  _ ← quietly (authed (λ token, cancelDeletion token batchId));
  _ ← clear_active batchId;
  throw (DeletionCancelledError message).
Definition again {A} (more : nat) (m : DM A) : DM (option A) :=
  try_catch (a ← m; mret (Some a)) (λ e, if has_action RE_PREPARE e && negb (more =? 0)%nat then mret None else throw e).
Definition sign_batch (batchId txBytes : string) (batch : Z) (total : option Z) (run : nat) : DM string :=
  ok ← gets (current run);
  if negb ok then abandon batchId "Deletion was cancelled before signing." else
  preparedCancellation ← gets cancellationGeneration;
  _ ← set_phase (Signing batch total) run;
  signature ← try_catch (sign (SignedTransaction txBytes)) (λ e, _ ← quietly cancelActive; throw e);
  ok ← gets (λ s, current run s && (cancellationGeneration s =? preparedCancellation)%nat);
  if negb ok then abandon batchId "Deletion was cancelled before submission." else
  _ ← set_phase (Executing batch) run;
  mret signature.
(** [runChunk]: [cycles] are left; [None] when there is nothing to delete. *)
Fixpoint run_chunk (cycles : nat) (body : deletion_body) (batch : Z) (total : option Z) (run : nat) : DM (option Z) :=
  match cycles with
  | O => throw (Api (SdApiError "RE_PREPARE_EXHAUSTED" NO_ACTION false 0 "Deletion could not converge after three attempts." no_details))
  | S more =>
      _ ← set_phase (Preparing batch) run;
      prepared ← again more (prepareWithRetry body);
      match prepared with
      | None => run_chunk more body batch total run
      | Some p =>
          match pr_batchId p with
          | None => mret None
          | Some batchId =>
              match pr_txBytes p with
              | None => throw (Api (unknown_error 0 "The server omitted transaction bytes."))
              | Some txBytes =>
                  _ ← modify (set_active (Some batchId));
                  signature ← sign_batch batchId txBytes batch total run;
                  result ← again more (try_catch (submitWithRecovery batchId signature) (λ e, _ ← modify (set_active None); throw e));
                  match result with
                  | None => run_chunk more body batch total run
                  | Some deleted => _ ← modify (set_active None); _ ← onStateChanged; mret (Some deleted)
                  end
              end
          end
      end
  end.
Definition runChunk : deletion_body → Z → option Z → nat → DM (option Z) := run_chunk 3.
Fixpoint run_selection (i : Z) (total : Z) (run : nat) (deleted : Z) (chunks : list (list string)) : DM Z :=
  match chunks with
  | [] => mret deleted
  | c :: chunks => n ← runChunk (DeleteSelection c) i (Some total) run; run_selection (i + 1) total run (deleted + default 0 n) chunks
  end.
Fixpoint run_all (fuel : nat) (i : Z) (run : nat) (deleted : Z) : DM Z :=
  match fuel with
  | O => throw OutOfFuel
  | S fuel => n ← runChunk DeleteAll i None run;
              match n with None => mret deleted | Some d => run_all fuel (i + 1) run (deleted + d) end
  end.
Definition execute (body : nat → DM Z) : DM unit :=
  busy ← gets running;
  if busy || is_empty addr then mret tt else
  _ ← modify (set_running true);
  run ← gets generation;
  _ ← try_catch (deleted ← body run;
                 _ ← set_phase (DonePhase deleted) run;
                 onStateChanged)
        (λ e, match e with
              | OutOfFuel => throw OutOfFuel
              | DeletionCancelledError _ => set_phase Idle run
              | _ => _ ← set_phase (ErrorPhase (errorInfo e).1 (errorInfo e).2) run;
                     if has_action REFETCH e then onStateChanged else mret tt
              end);
  modify (λ s, if (generation s =? run)%nat then set_running false s else s).
Definition add_id (l : list string) (x : string) : list string := if one_of l x then l else l ++ [x].
Definition unique_ids (l : list string) : list string := foldl add_id [] l.
Fixpoint cut (fuel size : nat) (l : list string) : list (list string) :=
  match fuel, l with
  | S fuel, _ :: _ => take size l :: cut fuel size (drop size l)
  | _, _ => []
  end.
(** [Math.min(900, Math.max(1, Math.floor(deleteBatchMax)))], one when it is not finite *)
Definition chunk_size (deleteBatchMax : number) : nat :=
  Z.to_nat (Z.min 900 (Z.max 1 match deleteBatchMax with Finite q => Qfloor q | _ => 1 end)).
Definition selection_chunks (blobIds : list string) (deleteBatchMax : number) : list (list string) :=
  let unique := unique_ids blobIds in cut (length unique) (chunk_size deleteBatchMax) unique.
Definition deleteAll (fuel : nat) : DM unit := execute (λ run, run_all fuel 1 run 0).
Definition deleteSelection (blobIds : list string) (deleteBatchMax : number) : DM unit :=
  let chunks := selection_chunks blobIds deleteBatchMax in
  execute (λ run, run_selection 1 (Z.of_nat (length chunks)) run 0 chunks).
End Hook.

(** ** What the user agreed to *)
Definition is_leaving (ev : event) : bool := match ev with User (Switched _) | User Unmounted => true | _ => false end.
Definition is_hostile (ev : event) : bool := match ev with User CancelPressed => true | _ => is_leaving ev end.
Definition staying (ev : event) : Prop := is_leaving ev = false.
Definition calm (ev : event) : Prop := is_hostile ev = false.
Definition plain (ev : event) : Prop :=
  match ev with Asked (QSubmit _ _ _) | Asked (QStatus _ _) | SetPhase (DonePhase _) => False | _ => True end.
(** What the service reported as deleted with the answer of a request. *)
Definition reported_by (w : world) (tr : list event) (ev : event) : Z :=
  let r := w_fetch w (tr ++ [ev]) in
  match ev with
  | Asked (QSubmit _ _ _) => match checked_answer parse_submit r with inr d => d | inl _ => 0 end
  | Asked (QStatus _ _) =>
      match checked_answer parseStatus r with inr st => if seqb (bs_state st) "completed" then bs_blobCount st else 0 | inl _ => 0 end
  | _ => 0
  end.
Fixpoint reported (w : world) (tr new : list event) : Z :=
  match new with [] => 0 | ev :: new => reported_by w tr ev + reported w (tr ++ [ev]) new end.
Lemma reported_snoc w tr new ev : reported w tr (new ++ [ev]) = reported w tr new + reported_by w (tr ++ new) ev.
Proof.
  revert tr. induction new as [|e new IH]; intros tr; simpl; [rewrite app_nil_r; lia|].
  rewrite IH, <-app_assoc. simpl. lia.
Qed.
Lemma reported_plain w tr new : Forall plain new → reported w tr new = 0.
Proof.
  intros Hp. revert tr. induction Hp as [|ev new He _ IH]; intros tr; simpl; [done|]. rewrite IH.
  by destruct ev as [[]| | | | | | |].
Qed.

(** *** A move of the state *)
Record moved (s : hook_state) (new : list event) (s' : hook_state) : Prop := Moved {
  moved_trace : trace s' = trace s ++ new;
  moved_gen : (generation s <= generation s')%nat;
  moved_cancel : (cancellationGeneration s <= cancellationGeneration s')%nat;
  moved_stay : generation s' = generation s → mounted s' = true → mounted s = true ∧ Forall staying new;
  moved_calm : generation s' = generation s → mounted s' = true → cancellationGeneration s' = cancellationGeneration s → Forall calm new;
}.
Lemma moved_trans s a s1 b s2 : moved s a s1 → moved s1 b s2 → moved s (a ++ b) s2.
Proof.
  intros [t1 g1 c1 m1 k1] [t2 g2 c2 m2 k2]. split; [by rewrite t2, t1, app_assoc|lia|lia|..].
  - intros Hg Hm. destruct m2 as [Hm1 ?]; [lia|done|]. destruct m1 as [? ?]; [lia|done|]. split; [done|]. by apply Forall_app.
  - intros Hg Hm Hc. destruct m2 as [Hm1 ?]; [lia|done|]. apply Forall_app. split; [apply k1|apply k2]; (done || lia).
Qed.
(** A change that the trace does not show. *)
Lemma moved_silent s s' : trace s' = trace s → generation s' = generation s → mounted s' = mounted s →
  (cancellationGeneration s <= cancellationGeneration s')%nat → moved s [] s'.
Proof. intros Ht Hg Hm Hc. split; [by rewrite app_nil_r|lia|done| |done]. rewrite Hm. done. Qed.
Lemma moved_refl s : moved s [] s.
Proof. by apply moved_silent. Qed.
Lemma moved_log ev s : calm ev → moved s [ev] (log ev s).
Proof.
  intros Hc. assert (staying ev) by (unfold staying, calm, is_hostile in *; by destruct ev as [| | | | | | |[]]).
  split; simpl; [done|lia|lia|..]; auto.
Qed.
Definition gently (f : hook_state → hook_state) : Prop := ∀ s, ∃ new, moved s new (f s) ∧ Forall plain new.
Lemma gently_log ev : calm ev → plain ev → gently (log ev).
Proof. intros Hc Hp s. exists [ev]. split; [by apply moved_log|by constructor]. Qed.
Lemma gently_comp f g : gently f → gently g → gently (λ s, g (f s)).
Proof.
  intros Hf Hg s. destruct (Hf s) as (a & Ha & Pa), (Hg (f s)) as (b & Hb & Pb). exists (a ++ b).
  split; [by eapply moved_trans|]. by apply Forall_app.
Qed.
Lemma gently_silent f : (∀ s, trace (f s) = trace s ∧ generation (f s) = generation s ∧ mounted (f s) = mounted s ∧
  (cancellationGeneration s <= cancellationGeneration (f s))%nat) → gently f.
Proof. intros Hf s. exists []. destruct (Hf s) as (? & ? & ? & ?). split; [by apply moved_silent|done]. Qed.
Lemma gently_if (b : hook_state → bool) f g : gently f → gently g → gently (λ s, if b s then f s else g s).
Proof. intros Hf Hg s. destruct (b s); [apply Hf|apply Hg]. Qed.
Lemma gently_id : gently (λ s, s).
Proof. by apply gently_silent. Qed.
Definition plain_phase (p : phase) : Prop := match p with DonePhase _ => False | _ => True end.
Lemma gently_phase p run : plain_phase p → gently (safe_phase p run).
Proof.
  intros Hp. unfold safe_phase. apply (gently_if (λ s, mounted s && (generation s =? run)%nat)); [|apply gently_id].
  by apply gently_log; [|destruct p].
Qed.
Lemma gently_cleared batchId : gently (drop_active batchId).
Proof. unfold drop_active. apply (gently_if (λ s, bool_decide (activeBatch s = Some batchId))); [by apply gently_silent|apply gently_id]. Qed.
Lemma gently_cancel_end batchId run failed : gently (cancel_end batchId run failed).
Proof.
  unfold cancel_end. cbv zeta.
  apply (gently_comp (safe_phase (match failed with Some (message, code) => ErrorPhase message code | None => Idle end) run)
    (λ s, log StateChanged (drop_active batchId s))).
  - apply gently_phase. by destruct failed as [[]|].
  - apply (gently_comp _ (log StateChanged)); [apply gently_cleared|by apply gently_log].
Qed.
Lemma moved_user s u : ∃ new, moved s new (user s u) ∧ Forall plain new.
Proof.
  destruct u as [|batchId run failed|a| |a|a cached|a]; simpl.
  - exists [User CancelPressed]. split; [|by repeat constructor]. split; simpl; [done|lia|lia| |lia]. intros _ Hm. split; [done|by constructor].
  - apply (gently_comp (log _) (cancel_end batchId run failed)); [by apply gently_log|apply gently_cancel_end].
  - destruct (seqb a (address s)); [exists []; by split; [apply moved_refl|]|].
    exists ([User (Switched a)] ++ [SetPhase Idle]). split; [|by repeat constructor]. apply moved_trans with (switch a (log (User (Switched a)) s)).
    + split; simpl; [done|lia|lia|lia|lia].
    + by apply moved_log.
  - exists [User Unmounted]. split; [|by repeat constructor]. split; simpl; [done|lia|lia|done|done].
  - apply (gently_comp (log _) (λ s', set_tokens (tokens s) ({[a]} ∪ inflight s) s')); [by apply gently_log|by apply gently_silent].
  - apply (gently_comp (log _) (λ s', set_tokens _ _ s')); [by apply gently_log|by apply gently_silent].
  - apply (gently_comp (log _) (clear_token a)); [by apply gently_log|by apply gently_silent].
Qed.
Lemma moved_users us s : ∃ new, moved s new (foldl user s us) ∧ Forall plain new.
Proof.
  revert s. induction us as [|u us IH]; intros s; simpl; [exists []; by split; [apply moved_refl|]|].
  destruct (moved_user s u) as (a & Ha & Pa), (IH (user s u)) as (b & Hb & Pb). exists (a ++ b).
  split; [by eapply moved_trans|]. by apply Forall_app.
Qed.

Section Consent.
Context `{SuiSdk} (w : world) (addr : string).
(** Programs that submit nothing and claim nothing. *)
Definition gentle {A} (m : DM A) : Prop := gently (λ s, (m s).1).
Lemma gentle_ret {A} (a : A) : gentle (mret a : DM A).
Proof. apply gently_id. Qed.
Lemma gentle_throw {A} e : gentle (throw e : DM A).
Proof. apply gently_id. Qed.
Lemma gentle_gets {A} (f : hook_state → A) : gentle (gets f : DM A).
Proof. apply gently_id. Qed.
Lemma gentle_modify f : gently f → gentle (modify f).
Proof. done. Qed.
Lemma gentle_bind {A B} (m : DM A) (k : A → DM B) : gentle m → (∀ a, gentle (k a)) → gentle (m ≫= k).
Proof.
  intros Hm Hk s. destruct (Hm s) as (a & Ha & Pa). unfold mbind, st_bind. destruct (m s) as [s1 [e|x]]; simpl in *; [by exists a|].
  destruct (Hk x s1) as (b & Hb & Pb). exists (a ++ b). split; [by eapply moved_trans|]. by apply Forall_app.
Qed.
Lemma gentle_catch {A} (m : DM A) (h : failure → DM A) : gentle m → (∀ e, gentle (h e)) → gentle (try_catch m h).
Proof.
  intros Hm Hh s. destruct (Hm s) as (a & Ha & Pa). unfold try_catch. destruct (m s) as [s1 [e|x]]; simpl in *; [|by exists a].
  destruct (Hh e s1) as (b & Hb & Pb). exists (a ++ b). split; [by eapply moved_trans|]. by apply Forall_app.
Qed.
Lemma moved_await ev s : calm ev → ∃ new, moved s (ev :: new) (await w ev s).1 ∧ Forall plain new.
Proof.
  intros Hc. destruct (moved_users (w_user w (trace (log ev s))) (log ev s)) as (new & Hn & Pn). exists new. split; [|done].
  apply (moved_trans s [ev] (log ev s) new); [by apply moved_log|done].
Qed.
Lemma gentle_await ev : calm ev → plain ev → gentle (await w ev).
Proof. intros Hc Hp s. destruct (moved_await ev s Hc) as (new & Hm & Pn). exists (ev :: new). split; [done|by constructor]. Qed.
Lemma gentle_sum {A} (r : failure + A) : gentle (d_of_sum r).
Proof. destruct r; [apply gentle_throw|apply gentle_ret]. Qed.
Create HintDb gentle discriminated.
Hint Resolve gentle_ret gentle_throw gentle_gets gentle_modify gentle_bind gentle_catch gentle_await gentle_sum gently_id gently_phase gently_cleared gently_cancel_end : gentle.
Ltac gentle_step :=
  match goal with
  | |- gentle (_ ≫= _) => apply gentle_bind; [|intros]
  | |- gentle (try_catch _ _) => apply gentle_catch; [|intros]
  | |- gentle (await _ _) => by apply gentle_await
  | |- gentle (modify (log _)) => apply gentle_modify; by apply gently_log
  | |- gentle (modify _) => apply gentle_modify
  | |- gently (λ _, set_active _ _) => by apply gently_silent
  | |- gently _ => first [by auto with gentle|by apply gently_silent; intros; simpl; auto]
  | |- gentle _ => solve [auto with gentle]
  | |- gentle (match ?x with _ => _ end) => destruct x
  | |- gentle _ => progress cbv beta zeta
  end.
Ltac gentle_all := repeat gentle_step.
Lemma gentle_ask {A} (parse : json → option A) q : plain (Asked q) → gentle (sd_call w parse q).
Proof. intros Hp. unfold sd_call. gentle_all. Qed.
Hint Resolve gentle_ask : gentle.
Lemma gentle_sign ev : calm ev → plain ev → gentle (sign w ev).
Proof. intros Hc Hp. unfold sign. apply gentle_bind; [by apply gentle_await|]. intros. gentle_all. Qed.
Lemma gentle_sleep ms : gentle (sleep w ms).
Proof. apply (gentle_bind (await w (Slept ms))); [by apply gentle_await|intros; apply gentle_ret]. Qed.
Lemma gentle_issue attempts a gen : gentle (issueToken w attempts a gen).
Proof.
  induction attempts as [|more IH]; simpl; [gentle_all|]. apply gentle_catch; [|intros e; by destruct (_ && _); auto with gentle].
  unfold requestChallenge, verifyChallenge. apply gentle_bind; [by apply gentle_ask|]. intros [challengeId challenge].
  apply gentle_bind; [by apply gentle_sign|]. intros signature. apply gentle_bind; [by apply gentle_ask|]. intros [token expires].
  gentle_all.
Qed.
Lemma gentle_token a : gentle (getToken w a).
Proof. unfold getToken, join_token. gentle_all. apply gentle_issue. Qed.
Hint Resolve gentle_token : gentle.
Lemma gentle_authed {A} (call : string → DM A) : (∀ token, gentle (call token)) → gentle (authed w addr call).
Proof. intros Hc. unfold authed, withAuth. gentle_all; by auto with gentle. Qed.
Lemma gentle_quietly {A} (m : DM A) : gentle m → gentle (quietly m).
Proof. intros Hm. unfold quietly. gentle_all; done. Qed.
Lemma gentle_cancel : gentle (cancelActive w addr).
Proof.
  unfold cancelActive. gentle_all. apply gentle_authed. intros token. by apply gentle_ask.
Qed.
Lemma gentle_abandon {A} batchId message : gentle (abandon w addr batchId message : DM A).
Proof.
  unfold abandon, clear_active. apply gentle_bind; [|intros; gentle_all]. apply gentle_quietly, gentle_authed. intros token. by apply gentle_ask.
Qed.

(** Every program only appends to the trace. *)
Definition appends {A} (m : DM A) : Prop := ∀ s, trace s `prefix_of` trace (m s).1.
Lemma appends_gentle {A} (m : DM A) : gentle m → appends m.
Proof. intros Hm s. destruct (Hm s) as (new & Hn & _). exists new. apply (moved_trace _ _ _ Hn). Qed.
Lemma appends_bind {A B} (m : DM A) (k : A → DM B) : appends m → (∀ a, appends (k a)) → appends (m ≫= k).
Proof.
  intros Hm Hk s. specialize (Hm s). unfold mbind, st_bind. destruct (m s) as [s1 [e|x]]; simpl in *; [done|]. etrans; [done|apply Hk].
Qed.
Lemma appends_catch {A} (m : DM A) (h : failure → DM A) : appends m → (∀ e, appends (h e)) → appends (try_catch m h).
Proof.
  intros Hm Hh s. specialize (Hm s). unfold try_catch. destruct (m s) as [s1 [e|x]]; simpl in *; [|done]. etrans; [done|apply Hh].
Qed.
Lemma appends_ask {A} (parse : json → option A) q : appends (sd_call w parse q).
Proof.
  unfold sd_call. apply appends_bind; [|intros; apply appends_gentle, gentle_sum].
  intros s. destruct (moved_await (Asked q) s eq_refl) as (new & Hm & _). exists (Asked q :: new). apply (moved_trace _ _ _ Hm).
Qed.
Ltac appends_all :=
  repeat match goal with
  | |- appends (_ ≫= _) => apply appends_bind; [|intros]
  | |- appends (try_catch _ _) => apply appends_catch; [|intros]
  | |- appends (match ?x with _ => _ end) => destruct x
  | |- appends (throw _) => apply appends_gentle, gentle_throw
  | |- appends (mret _) => apply appends_gentle, gentle_ret
  | |- appends (gets _) => apply appends_gentle, gentle_gets
  | |- appends (modify _) => apply appends_gentle, gentle_modify
  | |- gently _ => first [by auto with gentle|by apply gently_phase|by apply gently_silent|by apply gently_log]
  end.
Lemma appends_authed {A} (call : string → DM A) : (∀ token, appends (call token)) → appends (authed w addr call).
Proof. intros Hc. unfold authed, withAuth. appends_all; first [apply Hc|apply appends_gentle, gentle_token]. Qed.
Lemma appends_prepare delays body : appends (prepare_with_retry w addr delays body).
Proof.
  assert (Hp : appends (authed w addr (λ token, prepareDeletion w token body))) by (apply appends_authed; intros; apply appends_ask).
  induction delays as [|more IH]; simpl; appends_all; first [done|apply appends_gentle, gentle_sleep].
Qed.
Lemma appends_submit batchId signature : appends (submitWithRecovery w addr batchId signature).
Proof.
  assert (Hp : appends (authed w addr (λ token, submitDeletion w token batchId signature))) by (apply appends_authed; intros; apply appends_ask).
  assert (Hq : appends (authed w addr (λ token, getDeletionStatus w token batchId))) by (apply appends_authed; intros; apply appends_ask).
  unfold submitWithRecovery. appends_all; first [done|apply appends_gentle, gentle_sleep].
Qed.
Lemma appends_sign batchId txBytes batch total run : appends (sign_batch w addr batchId txBytes batch total run).
Proof.
  unfold sign_batch, set_phase. appends_all; try (apply appends_gentle; first [by apply gentle_abandon|by apply gentle_quietly, gentle_cancel|by apply gentle_sign]).
Qed.
Lemma appends_chunk cycles body batch total run : appends (run_chunk w addr cycles body batch total run).
Proof.
  induction cycles as [|more IH]; simpl; unfold set_phase, again, onStateChanged; appends_all;
    first [done|apply appends_prepare|apply appends_sign|apply appends_submit].
Qed.
Lemma triple_frame {A} (m : DM A) (F : list event → Prop) (HF : ∀ tr tr', F tr → tr `prefix_of` tr' → F tr') P Q R :
  appends m → triple P m Q R → triple (λ s, P s ∧ F (trace s)) m (λ a s, Q a s ∧ F (trace s)) R.
Proof.
  intros Hg Hm s [Hp Hf]. specialize (Hg s). specialize (Hm s Hp). destruct (m s) as [s' [e|a]]; [done|]. split; [done|]. by eapply HF.
Qed.

(** *** The justification of a request *)
Context (s0 : hook_state) (body_ok : deletion_body → Prop).
Notation t0 := (trace s0).
(** [tr] ends with the preparation of [p] for [body], in this run. *)
Definition prepared_at (body : deletion_body) (p : PrepareResponse) (tr : list event) : Prop := ∃ token pre,
  tr = t0 ++ pre ++ [Asked (QPrepare token body)] ∧ checked_answer parse_prepare (w_fetch w tr) = inr p.
Definition prepared (body : deletion_body) (p : PrepareResponse) (tr : list event) : Prop := ∃ at_, at_ `prefix_of` tr ∧ prepared_at body p at_.
(** The wallet signed what was prepared, and nobody objected. *)
Definition consented (batchId signature : string) (tr : list event) : Prop := ∃ at_ body p txBytes mid batch total wait,
  let signed := at_ ++ mid ++ [SetPhase (Signing batch total); SignedTransaction txBytes] in
  body_ok body ∧ prepared_at body p at_ ∧ pr_batchId p = Some batchId ∧ pr_txBytes p = Some txBytes ∧ w_sign w signed = inr signature ∧
  (signed ++ wait ++ [SetPhase (Executing batch)]) `prefix_of` tr ∧
  Forall staying (drop (length t0) (signed ++ wait)) ∧ Forall calm wait.
(** The service reported the batch as completed, in this run. *)
Definition completed (batchId : string) (tr : list event) : Prop := ∃ pre ev,
  (t0 ++ pre ++ [ev]) `prefix_of` tr ∧ let r := w_fetch w (t0 ++ pre ++ [ev]) in
  match ev with
  | Asked (QSubmit _ batchId' _) => batchId' = batchId ∧ ∃ deleted, checked_answer parse_submit r = inr deleted
  | Asked (QStatus _ batchId') => batchId' = batchId ∧ ∃ st, checked_answer parseStatus r = inr st ∧ bs_state st = "completed"
  | _ => False
  end.
(** Nothing of the body was left, or its batch is completed. *)
Definition handled (body : deletion_body) (nothing : bool) (tr : list event) : Prop := ∃ p, prepared body p tr ∧
  match pr_batchId p with None => True | Some batchId => nothing = false ∧ completed batchId tr end.
#[local] Instance mono_prepared body p : Mono (prepared body p).
Proof. intros tr ev (at_ & Hp & Ha). exists at_. split; [by apply prefix_app_r|done]. Qed.
#[local] Instance mono_consented b g : Mono (consented b g).
Proof.
  intros tr ev (at_ & body & p & tx & mid & n & total & wait & H1 & H2 & H3 & H4 & H5 & H6 & H7 & H8).
  exists at_, body, p, tx, mid, n, total, wait. split_and!; try done. by apply prefix_app_r.
Qed.
#[local] Instance mono_completed b : Mono (completed b).
Proof. intros tr ev (pre & q & Hp & Hq). exists pre, q. split; [by apply prefix_app_r|done]. Qed.
#[local] Instance mono_handled body nothing : Mono (handled body nothing).
Proof.
  intros tr ev (p & Hp & Hc). exists p. split; [by apply mono|]. destruct (pr_batchId p) as [batchId|]; [|done].
  destruct Hc as [-> Hc]. split; [done|by apply mono].
Qed.
Lemma mono_app (F : list event → Prop) `{!Mono F} tr new : F tr → F (tr ++ new).
Proof. intros HF. induction new as [|ev new IH] using rev_ind; [by rewrite app_nil_r|]. rewrite app_assoc. by apply mono. Qed.

Context (all_done : list event → Prop).
Definition justified (tr : list event) (ev : event) : Prop :=
  match ev with
  | Asked (QSubmit _ batchId signature) => consented batchId signature tr
  | SetPhase (DonePhase deleted) => all_done tr ∧ ∃ new, tr = t0 ++ new ∧ deleted = reported w t0 new
  | _ => True
  end.
Definition Inv (n : Z) (s : hook_state) : Prop := ∃ new, moved s0 new s ∧ all_ok justified t0 new ∧ reported w t0 new = n.
Lemma inv_start : Inv 0 s0.
Proof. exists []. split; [apply moved_refl|done]. Qed.
Lemma justified_plain tr ev : plain ev → justified tr ev.
Proof. by destruct ev as [[]| | | | |[]| |]. Qed.
Lemma all_ok_plain new more : all_ok justified t0 new → Forall plain more → all_ok justified t0 (new ++ more).
Proof.
  intros Hn Hp. induction more as [|ev more IH] using rev_ind; [by rewrite app_nil_r|]. apply Forall_app in Hp as [Hp He].
  rewrite app_assoc. apply all_ok_snoc; [by apply IH|]. apply justified_plain. by inversion He.
Qed.
Lemma inv_moved n s new s' : Inv n s → moved s new s' → Forall plain new → Inv n s'.
Proof.
  intros (old & Hm & Ha & Hr) Hm' Hp. exists (old ++ new). split; [by eapply moved_trans|]. split; [by apply all_ok_plain|].
  revert Hr. clear -Hp. intros <-. induction new as [|ev new IH] using rev_ind; [by rewrite app_nil_r|]. apply Forall_app in Hp as [Hp He].
  rewrite app_assoc, reported_snoc, IH by done. inversion He; subst. destruct ev as [[]| | | | | | |]; simpl in *; done || lia.
Qed.
Lemma inv_asked n s ev s1 : Inv n s → calm ev → justified (trace s) ev → moved s [ev] s1 → Inv (n + reported_by w (trace s) ev) s1.
Proof.
  intros (old & Hm & Ha & Hr) Hc Hj Hm'. exists (old ++ [ev]). split; [by eapply moved_trans|].
  rewrite (moved_trace _ _ _ Hm) in Hj |- *. split; [by apply all_ok_snoc|]. by rewrite reported_snoc, Hr.
Qed.

(** Facts that plain moves keep. *)
Class Stable (P : hook_state → Prop) : Prop := stable s new s' : P s → moved s new s' → Forall plain new → P s'.
#[local] Instance stable_inv n : Stable (Inv n).
Proof. intros s new s'. apply inv_moved. Qed.
#[local] Instance stable_trace (F : list event → Prop) : Mono F → Stable (λ s, F (trace s)).
Proof. intros HF s new s' Hs Hm _. rewrite (moved_trace _ _ _ Hm). by apply mono_app. Qed.
#[local] Instance stable_and P Q : Stable P → Stable Q → Stable (λ s, P s ∧ Q s).
Proof. intros HP HQ s new s' [? ?] Hm Hp. split; [by eapply HP|by eapply HQ]. Qed.
Lemma gentle_keeps {A} (P : hook_state → Prop) `{!Stable P} (m : DM A) : gentle m → invariant P m.
Proof. intros Hm s Hs. destruct (Hm s) as (new & Hn & Hp). pose proof (stable s new _ Hs Hn Hp). by destruct (m s) as [s' [e|a]]. Qed.

(** A request with its checked answer. *)
Lemma ask_rule {A} (parse : json → option A) q n (F : list event → Prop) `{!Mono F} :
  (∀ tr, F tr → justified tr (Asked q)) →
  triple (λ s, Inv n s ∧ F (trace s)) (sd_call w parse q)
    (λ a s', F (trace s') ∧ ∃ tr, F tr ∧ (tr ++ [Asked q]) `prefix_of` trace s' ∧ checked_answer parse (w_fetch w (tr ++ [Asked q])) = inr a ∧
               Inv (n + reported_by w tr (Asked q)) s')
    (λ _ s', F (trace s') ∧ ∃ tr e, checked_answer parse (w_fetch w (tr ++ [Asked q])) = inl e ∧ Inv (n + reported_by w tr (Asked q)) s').
Proof.
  intros Hj s [Hi Hf]. unfold sd_call, await, mbind, st_bind. cbv beta iota zeta.
  set (ev := Asked q). pose proof (inv_asked n s ev (log ev s) Hi eq_refl (Hj _ Hf) (moved_log ev s eq_refl)) as Hi1.
  destruct (moved_users (w_user w (trace (log ev s))) (log ev s)) as (new & Hn & Pn).
  pose proof (inv_moved _ _ _ _ Hi1 Hn Pn) as Hi2. pose proof (moved_trace _ _ _ Hn) as Ht.
  change (trace (log ev s)) with (trace s ++ [ev]) in *.
  assert (Hf' : F ((trace s ++ [ev]) ++ new)) by (by apply mono_app, mono).
  destruct (checked_answer parse (w_fetch w (trace s ++ [ev]))) as [e|a] eqn:E; simpl; rewrite Ht; (split; [done|]).
  - by exists (trace s), e.
  - exists (trace s). split_and!; try done. by exists new.
Qed.
Lemma authed_rule {A} (call : string → DM A) (P : hook_state → Prop) `{!Stable P} (Q : A → hook_state → Prop) :
  (∀ token, triple P (call token) Q (λ _, P)) → triple P (authed w addr call) Q (λ _, P).
Proof.
  intros Hc. unfold authed. destruct (is_empty addr); [by apply triple_throw|]. unfold withAuth.
  assert (Ht : invariant P (getToken w addr)) by (apply gentle_keeps; [done|apply gentle_token]).
  eapply triple_bind; [exact Ht|]. intros token. eapply triple_catch; [apply Hc|]. intros e.
  destruct (negb (has_action REAUTH e)); [by apply triple_throw|].
  eapply triple_bind; [apply (gentle_keeps P); by apply gentle_modify, gently_silent|]. intros ?.
  eapply triple_bind; [exact Ht|]. intros token'. apply Hc.
Qed.
Definition of_run (tr : list event) : Prop := ∃ pre, tr = t0 ++ pre.
#[local] Instance mono_of_run : Mono of_run.
Proof. intros tr ev (pre & ->). exists (pre ++ [ev]). by rewrite app_assoc. Qed.
Lemma consented_run b g tr : consented b g tr → of_run tr.
Proof.
  intros (at_ & body & p & tx & mid & n & total & wait & _ & (token & pre & -> & _) & _ & _ & _ & [post ->] & _).
  eexists. by rewrite <-!app_assoc.
Qed.
Lemma submit_rule token batchId signature n :
  triple (λ s, Inv n s ∧ consented batchId signature (trace s)) (submitDeletion w token batchId signature)
    (λ d s, Inv (n + d) s ∧ completed batchId (trace s)) (λ _ s, Inv n s ∧ consented batchId signature (trace s)).
Proof.
  eapply triple_conseq; [apply (ask_rule parse_submit (QSubmit token batchId signature) n (consented batchId signature))| |..]; [by intros tr|by intros s|..].
  - intros d s (_ & tr & Hf & Hp & Hc & Hi). simpl in Hi. rewrite Hc in Hi. split; [done|].
    apply consented_run in Hf as [pre ->]. rewrite <-app_assoc in *. exists pre, (Asked (QSubmit token batchId signature)). simpl. by eauto.
  - intros f s (Hf & tr & e & Hc & Hi). simpl in Hi. rewrite Hc, Z.add_0_r in Hi. done.
Qed.
Lemma status_rule token batchId signature n :
  triple (λ s, Inv n s ∧ consented batchId signature (trace s)) (getDeletionStatus w token batchId)
    (λ st s, if seqb (bs_state st) "completed" then Inv (n + bs_blobCount st) s ∧ completed batchId (trace s)
             else Inv n s ∧ consented batchId signature (trace s)) (λ _ s, Inv n s ∧ consented batchId signature (trace s)).
Proof.
  eapply triple_conseq; [apply (ask_rule parseStatus (QStatus token batchId) n (consented batchId signature))| |..]; [by intros tr|by intros s|..].
  - intros st s (Hf' & tr & Hf & Hp & Hc & Hi). simpl in Hi. rewrite Hc in Hi.
    destruct (seqb (bs_state st) "completed") eqn:E; [|by rewrite Z.add_0_r in Hi]. split; [done|].
    apply consented_run in Hf as [pre ->]. rewrite <-app_assoc in *. exists pre, (Asked (QStatus token batchId)). simpl.
    apply seqb_eq in E. by eauto.
  - intros f s (Hf & tr & e & Hc & Hi). simpl in Hi. rewrite Hc, Z.add_0_r in Hi. done.
Qed.
Lemma prepare_rule token body n :
  triple (Inv n) (prepareDeletion w token body) (λ p s, Inv n s ∧ prepared body p (trace s)) (λ _, Inv n).
Proof.
  eapply triple_conseq; [apply (ask_rule parse_prepare (QPrepare token body) n of_run)| |..]; [by intros tr| | |].
  - intros s Hi. split; [done|]. destruct Hi as (new & Hm & _). exists new. apply (moved_trace _ _ _ Hm).
  - intros p s (_ & tr & (pre & ->) & Hp & Hc & Hi). simpl in Hi. rewrite Z.add_0_r in Hi. split; [done|].
    eexists. split; [exact Hp|]. exists token, pre. by rewrite <-app_assoc in *.
  - intros f s (_ & tr & e & Hc & Hi). simpl in Hi. by rewrite Z.add_0_r in Hi.
Qed.
Lemma prepare_retry_rule delays body n :
  triple (Inv n) (prepare_with_retry w addr delays body) (λ p s, Inv n s ∧ prepared body p (trace s)) (λ _, Inv n).
Proof.
  induction delays as [|more IH]; simpl; (eapply triple_catch; [apply (authed_rule _ (Inv n)); intros token; by apply prepare_rule|]);
    intros [e| | |]; try by apply triple_throw. destruct (has_action _ _); [|by apply triple_throw].
  eapply triple_bind; [|intros ?; exact IH]. apply (gentle_keeps (Inv n)), gentle_sleep.
Qed.
Lemma submit_recovery_rule batchId signature n :
  triple (λ s, Inv n s ∧ consented batchId signature (trace s)) (submitWithRecovery w addr batchId signature)
    (λ d s, Inv (n + d) s ∧ completed batchId (trace s)) (λ _, Inv n).
Proof.
  set (P := λ s, Inv n s ∧ consented batchId signature (trace s)). assert (HP : ∀ s, P s → Inv n s) by (by intros s [? _]).
  unfold submitWithRecovery. eapply triple_catch; [apply (authed_rule _ P); intros token; apply submit_rule|].
  intros [err| | |]; try by apply triple_throw. destruct (negb _); [by apply triple_throw|].
  eapply triple_bind; [eapply triple_conseq; [apply (gentle_keeps P), gentle_sleep|done|done|]; by intros ?|]. intros ?.
  eapply triple_bind.
  { eapply triple_catch; [apply (authed_rule _ P); intros token; exact (status_rule token batchId signature n)|]. intros e. by apply triple_throw. }
  intros st. simpl. destruct (seqb (bs_state st) "completed"); [by apply triple_ret|].
  destruct (seqb _ _).
  { eapply triple_conseq; [apply (authed_rule _ P); intros token; by apply submit_rule|done|done|]. by intros ?. }
  destruct (_ || _); [destruct (seqb _ _)|]; by apply triple_throw.
Qed.

(** *** The rules of a run *)
Context (Hrun : nat) (Hrun_eq : Hrun = generation s0).
Notation run := Hrun.
Lemma gentle_state {A} (m : DM A) n s : gentle m → Inv n s → Inv n (m s).1.
Proof. intros Hm Hi. destruct (Hm s) as (new & Hn & Hp). by eapply inv_moved. Qed.
Lemma current_spec s : current run s = true → mounted s = true ∧ generation s = run.
Proof. unfold current. intros Hc. apply andb_true_iff in Hc as [? Hg]. by apply Nat.eqb_eq in Hg. Qed.
Lemma current_phase p s : current run s = true → safe_phase p run s = log (SetPhase p) s.
Proof. unfold safe_phase, current. by intros ->. Qed.
(** The account is still the one the run began with. *)
Lemma stayed n s : Inv n s → current run s = true → ∃ new, trace s = t0 ++ new ∧ Forall staying new.
Proof.
  intros (new & Hm & _) Hc. apply current_spec in Hc as [Hc Hg]. exists new. split; [apply (moved_trace _ _ _ Hm)|].
  apply (moved_stay _ _ _ Hm); [congruence|done].
Qed.
Lemma signed_consent body p batchId txBytes batch total s new s2 signature n :
  body_ok body → Inv n s → prepared body p (trace s) → pr_batchId p = Some batchId → pr_txBytes p = Some txBytes → current run s = true →
  let s1 := log (SignedTransaction txBytes) (log (SetPhase (Signing batch total)) s) in
  moved s1 new s2 → w_sign w (trace s1) = inr signature → current run s2 = true → cancellationGeneration s2 = cancellationGeneration s →
  consented batchId signature (trace (log (SetPhase (Executing batch)) s2)).
Proof.
  intros Hbody Hi (at_ & [mid Hmid] & Ha) Hb Htx Hc s1 Hm Hs Hc2 Hcancel. destruct (stayed n s Hi Hc) as (old & Hold & Hstay).
  apply current_spec in Hc as [_ Hg]. apply current_spec in Hc2 as [Hm2 Hg2].
  assert (Ht1 : trace s1 = at_ ++ mid ++ [SetPhase (Signing batch total); SignedTransaction txBytes]).
  { unfold s1. simpl. rewrite Hmid, <-!app_assoc. done. }
  assert (Hg1 : generation s2 = generation s1) by (rewrite Hg2; unfold s1; simpl; congruence).
  exists at_, body, p, txBytes, mid, batch, total, new. cbv zeta. rewrite <-Ht1. split_and!; try done.
  - rewrite app_assoc. exists []. simpl. by rewrite app_nil_r, (moved_trace _ _ _ Hm).
  - unfold s1. simpl. rewrite Hold, <-!app_assoc, drop_app_length. apply Forall_app. split; [done|].
    repeat constructor. apply (moved_stay _ _ _ Hm); done.
  - apply (moved_calm _ _ _ Hm); done.
Qed.
Lemma sign_rule body p batchId txBytes batch total n : body_ok body → pr_batchId p = Some batchId → pr_txBytes p = Some txBytes →
  triple (λ s, Inv n s ∧ prepared body p (trace s)) (sign_batch w addr batchId txBytes batch total run)
    (λ signature s, (Inv n s ∧ consented batchId signature (trace s)) ∧ prepared body p (trace s)) (λ _, Inv n).
Proof.
  intros Hbody Hb Htx s [Hi Hp].
  assert (Hab : ∀ message s', Inv n s' → match (abandon w addr batchId message : DM string) s' with
    (s1, inl _) => Inv n s1 | (s1, inr g) => (Inv n s1 ∧ consented batchId g (trace s1)) ∧ prepared body p (trace s1) end).
  { intros message s' Hs'. pose proof (gentle_state (abandon w addr batchId message : DM string) n s' (gentle_abandon _ _) Hs') as Hn.
    unfold abandon, quietly, clear_active, throw, try_catch, modify, mbind, st_bind in *. revert Hn. repeat case_match; simplify_eq/=; done. }
  unfold sign_batch, gets, set_phase, modify. unfold mbind at 1, st_bind at 1. cbv beta iota.
  destruct (current run s) eqn:Hc; [|by apply Hab]. cbn [negb]. unfold mbind, st_bind. cbv beta iota. rewrite (current_phase _ s Hc).
  set (s1 := log (SetPhase (Signing batch total)) s).
  assert (Hi1 : Inv n s1) by (eapply inv_moved; [exact Hi|by apply moved_log|by repeat constructor]).
  unfold try_catch, sign, await, mbind, st_bind. cbv beta iota zeta.
  destruct (moved_users (w_user w (trace (log (SignedTransaction txBytes) s1))) (log (SignedTransaction txBytes) s1)) as (new & Hn & Pn).
  set (s2 := foldl user _ _) in *.
  assert (Hi2 : Inv n s2).
  { eapply inv_moved; [exact Hi1|eapply (moved_trans s1 [SignedTransaction txBytes]); [by apply moved_log|exact Hn]|by constructor]. }
  destruct (w_sign w (trace (log (SignedTransaction txBytes) s1))) as [e|signature] eqn:Hs; simpl.
  - pose proof (gentle_state (quietly (cancelActive w addr)) n s2 (gentle_quietly _ (gentle_cancel)) Hi2) as Hq.
    revert Hq. unfold quietly, try_catch, mbind, st_bind. destruct (cancelActive w addr s2) as [s3 [f|u]]; done.
  - destruct (current run s2 && _) eqn:Hk; [|by apply Hab]. apply andb_true_iff in Hk as [Hc2 Hk]. apply Nat.eqb_eq in Hk.
    simpl. rewrite (current_phase _ s2 Hc2). split; [split|].
    + eapply inv_moved; [exact Hi2|by apply moved_log|by repeat constructor].
    + by eapply (signed_consent body p batchId txBytes batch total s new s2 signature n).
    + simpl. rewrite (moved_trace _ _ _ Hn). apply mono, mono_app; [apply _|]. simpl. by apply mono, mono.
Qed.
Lemma repeated_rule {A} more (m : DM A) P Q P' : triple P m Q (λ _, P') →
  triple P (again more m) (λ o, match o with Some a => Q a | None => P' end) (λ _, P').
Proof.
  intros Hm. unfold again. eapply triple_catch.
  - eapply triple_bind; [exact Hm|]. intros a. by apply triple_ret.
  - intros e. simpl. destruct (_ && _); [by apply triple_ret|by apply triple_throw].
Qed.
Lemma inv_modify n f : gently f → triple (Inv n) (modify f : DM unit) (λ _, Inv n) (λ _, Inv n).
Proof. intros Hf. by apply (gentle_keeps (Inv n)), gentle_modify. Qed.
Lemma gently_active b : gently (set_active b).
Proof. by apply gently_silent. Qed.
Lemma chunk_rule cycles body batch total n : body_ok body →
  triple (Inv n) (run_chunk w addr cycles body batch total run)
    (λ r s, Inv (n + default 0 r) s ∧ handled body (bool_decide (r = None)) (trace s)) (λ _, Inv n).
Proof.
  intros Hb. induction cycles as [|more IH]; simpl; [by apply triple_throw|].
  eapply triple_bind; [by apply inv_modify, gently_phase|]. intros ?.
  eapply triple_bind; [by apply repeated_rule, prepare_retry_rule|]. intros [p|]; [|exact IH].
  destruct (pr_batchId p) as [batchId|] eqn:Hid.
  2: { apply triple_ret. intros s [Hi Hp]. simpl. rewrite Z.add_0_r. split; [done|]. exists p. by rewrite Hid. }
  destruct (pr_txBytes p) as [txBytes|] eqn:Htx; [|apply triple_throw; by intros s [Hi _]].
  eapply triple_bind.
  { eapply triple_conseq; [apply (gentle_keeps (λ s, Inv n s ∧ prepared body p (trace s))), gentle_modify, gently_active|done|done|]. by intros e s [? _]. }
  intros ?. eapply triple_bind; [by apply (sign_rule body p batchId txBytes batch total n)|]. intros signature.
  eapply triple_bind.
  { apply repeated_rule, (triple_frame _ (prepared body p)); [intros tr tr' Hp [new ->]; by apply (mono_app (prepared body p))| |].
    - apply appends_catch; [apply appends_submit|]. intros e. appends_all.
    - eapply triple_catch; [apply (submit_recovery_rule batchId signature n)|]. intros e.
      eapply triple_bind; [apply inv_modify, gently_active|]. intros ?. by apply triple_throw. }
  intros [deleted|]; [|exact IH]. simpl. intros s [[Hi Hc] Hp]. simpl. split.
  - eapply inv_moved; [exact Hi|eapply (moved_trans s [] (set_active None s) [StateChanged]); [by apply moved_silent|by apply moved_log]|by repeat constructor].
  - apply mono. exists p. rewrite Hid. done.
Qed.
Definition dealt (c : list string) (tr : list event) : Prop := ∃ nothing, handled (DeleteSelection c) nothing tr.
Lemma dealt_appends l tr tr' : Forall (λ c, dealt c tr) l → tr `prefix_of` tr' → Forall (λ c, dealt c tr') l.
Proof. intros Hl [new ->]. eapply Forall_impl; [exact Hl|]. intros c [b Hb]. exists b. by apply (mono_app (handled (DeleteSelection c) b)). Qed.
Lemma selection_rule chunks l i total n : Forall (λ c, body_ok (DeleteSelection c)) chunks →
  triple (λ s, Inv n s ∧ Forall (λ c, dealt c (trace s)) l) (run_selection w addr i total run n chunks)
    (λ d s, Inv d s ∧ Forall (λ c, dealt c (trace s)) (l ++ chunks)) (λ _ s, ∃ k, Inv k s).
Proof.
  intros Hc. revert l i n. induction Hc as [|c chunks Hb _ IH]; intros l i n; simpl; [rewrite app_nil_r; by apply triple_ret|].
  eapply triple_bind.
  - eapply (triple_frame _ (λ tr, Forall (λ c, dealt c tr) l)); [by apply dealt_appends|apply appends_chunk|].
    eapply triple_conseq; [by apply chunk_rule|done|done|intros e s Hi; by exists n].
  - intros r. change (l ++ c :: chunks) with (l ++ [c] ++ chunks). rewrite app_assoc.
    eapply triple_conseq; [apply (IH (l ++ [c]))| |done|done]. intros s [[Hi Hh] Hl]. split; [done|].
    apply Forall_app. split; [done|]. constructor; [by eexists|done].
Qed.
Lemma all_rule fuel i n : body_ok DeleteAll →
  triple (Inv n) (run_all w addr fuel i run n) (λ d s, Inv d s ∧ handled DeleteAll true (trace s)) (λ _ s, ∃ k, Inv k s).
Proof.
  intros Hb. revert i n. induction fuel as [|fuel IH]; intros i n; simpl; [apply triple_throw; intros s Hi; by exists n|].
  eapply triple_bind; [eapply triple_conseq; [by apply chunk_rule|done|done|intros e s Hi; by exists n]|]. intros [d|].
  - eapply triple_conseq; [apply IH| |done|done]. by intros s [Hi _].
  - apply triple_ret. simpl. intros s. by rewrite Z.add_0_r.
Qed.
Lemma done_inv n s : Inv n s → all_done (trace s) → ∃ k, Inv k (safe_phase (DonePhase n) run s).
Proof.
  intros Hi Hd. unfold safe_phase. destruct (_ && _); [|by exists n]. eexists.
  eapply (inv_asked n s (SetPhase (DonePhase n))); [exact Hi|done| |by apply moved_log].
  split; [done|]. destruct Hi as (new & Hm & _ & <-). exists new. split; [apply (moved_trace _ _ _ Hm)|done].
Qed.
Lemma some_inv f s : gently f → (∃ n, Inv n s) → ∃ n, Inv n (f s).
Proof. intros Hf (n & Hi). destruct (Hf s) as (new & Hm & Hp). exists n. by eapply inv_moved. Qed.
Lemma finish_inv s : (∃ n, Inv n s) → ∃ n, Inv n (if (generation s =? run)%nat then set_running false s else s).
Proof.
  apply (some_inv (λ s, if (generation s =? run)%nat then set_running false s else s)).
  apply (gently_if (λ s, (generation s =? run)%nat)); [by apply gently_silent|apply gently_id].
Qed.
Lemma execute_rule body : triple (Inv 0) (body run) (λ d s, Inv d s ∧ all_done (trace s)) (λ _ s, ∃ k, Inv k s) → ∃ k, Inv k (execute addr body s0).1.
Proof.
  intros Hb. unfold execute, gets, modify, set_phase, onStateChanged. unfold mbind, st_bind. cbv beta iota.
  destruct (_ || _); [exists 0; apply inv_start|]. cbv beta iota.
  change (generation (set_running true s0)) with (generation s0). rewrite <-Hrun_eq.
  assert (Hi : Inv 0 (set_running true s0)).
  { eapply inv_moved; [apply inv_start|by apply moved_silent|done]. }
  specialize (Hb _ Hi). unfold try_catch. destruct (body run (set_running true s0)) as [s1 [e|d]]; simpl.
  - destruct e as [err|message|err|]; simpl; [destruct (bool_decide _)| | |]; simpl; try done.
    all: match goal with |- ∃ k, Inv k (if _ then set_running false ?x else _) => apply (finish_inv x) | _ => idtac end; repeat (apply (some_inv (log StateChanged)); [by apply gently_log|]).
    all: apply (some_inv (safe_phase _ _)); [by apply gently_phase|done].
  - apply (finish_inv (log StateChanged _)), (some_inv (log StateChanged)); [by apply gently_log|]. by apply done_inv; destruct Hb.
Qed.
Lemma inv_each s k pre ev post : Inv k s → trace s = t0 ++ pre ++ ev :: post → justified (t0 ++ pre) ev.
Proof. intros (new & Hm & Ha & _) Ht. rewrite (moved_trace _ _ _ Hm) in Ht. apply app_inv_head in Ht. by eapply all_ok_at. Qed.
End Consent.

(** ** What a caller of the hook deletes *)
Lemma unique_spec l : NoDup (unique_ids l) ∧ ∀ x, x ∈ unique_ids l ↔ x ∈ l.
Proof.
  unfold unique_ids. induction l as [|x l [Hn He]] using rev_ind; [by split; [constructor|]|].
  rewrite foldl_app. simpl. unfold add_id at 1 3. destruct (one_of (foldl add_id [] l) x) eqn:E.
  - apply existsb_exists in E as (y & Hy & E). apply seqb_eq in E as <-. split; [done|]. intros z. rewrite elem_of_app, list_elem_of_singleton, He.
    apply list_elem_of_In, He in Hy. naive_solver.
  - split.
    + apply NoDup_app. split_and!; [done| |apply NoDup_singleton]. intros y Hy ->%list_elem_of_singleton. apply not_true_iff_false in E. apply E.
      apply existsb_exists. exists x. split; [by apply list_elem_of_In|by apply seqb_eq].
    + intros z. rewrite !elem_of_app, He. done.
Qed.
Lemma cut_spec fuel size l : (0 < size)%nat → (length l <= fuel)%nat →
  concat (cut fuel size l) = l ∧ Forall (λ c, (0 < length c <= size)%nat) (cut fuel size l).
Proof.
  intros Hs. revert l. induction fuel as [|fuel IH]; intros [|x l] Hl; simpl in *; try done; [lia|].
  destruct size as [|size]; [lia|]. destruct (IH (drop size l)) as [H1 H2]; [rewrite length_drop; lia|]. split.
  - simpl. rewrite H1. by rewrite take_drop.
  - constructor; [|done]. simpl. rewrite length_take. lia.
Qed.
(** The batches of a selection are its distinct ids, each once, in batches
    of one to nine hundred. *)
Lemma selection_spec ids deleteBatchMax : let chunks := selection_chunks ids deleteBatchMax in
  NoDup (concat chunks) ∧ (∀ x, x ∈ concat chunks ↔ x ∈ ids) ∧ Forall (λ c, (0 < length c <= 900)%nat) chunks.
Proof.
  unfold selection_chunks. cbv zeta. assert (Hs : (0 < chunk_size deleteBatchMax <= 900)%nat) by (unfold chunk_size; lia).
  destruct (cut_spec (length (unique_ids ids)) (chunk_size deleteBatchMax) (unique_ids ids)) as [-> H2]; [lia|done|].
  destruct (unique_spec ids) as [Hn He]. split_and!; [done|done|]. eapply Forall_impl; [exact H2|]. simpl. lia.
Qed.
Definition selected (ids : list string) (body : deletion_body) : Prop :=
  match body with DeleteSelection c => NoDup c ∧ c ⊆ ids ∧ (0 < length c <= 900)%nat | DeleteAll => False end.
Lemma selected_chunks ids deleteBatchMax : Forall (λ c, selected ids (DeleteSelection c)) (selection_chunks ids deleteBatchMax).
Proof.
  destruct (selection_spec ids deleteBatchMax) as (Hn & He & Hl). revert Hn He Hl. generalize (selection_chunks ids deleteBatchMax).
  intros chunks Hn He Hl. apply Forall_forall. intros c Hc. apply list_elem_of_split in Hc as (a & b & ->).
  rewrite concat_app in *. simpl in *. apply Forall_app in Hl as [_ Hl]. apply Forall_cons in Hl as [Hl _].
  apply NoDup_app in Hn as (_ & _ & Hn). apply NoDup_app in Hn as (Hn & _ & _). split_and!; try done; try lia.
  intros x Hx. apply He. rewrite !elem_of_app. auto.
Qed.
(** [None] is [deleteAll]. *)
Definition deletion `{SuiSdk} (w : world) (addr : string) (fuel : nat) (what : option (list string * number)) : DM unit :=
  match what with None => deleteAll w addr fuel | Some (blobIds, deleteBatchMax) => deleteSelection w addr blobIds deleteBatchMax end.
Definition allowed_body (what : option (list string * number)) (body : deletion_body) : Prop :=
  match what with None => body = DeleteAll | Some (ids, _) => selected ids body end.
(** Each selected id was in a batch that is completed, or of which nothing
    was left; for [deleteAll], nothing is left. *)
Definition finished (w : world) (s0 : hook_state) (what : option (list string * number)) (tr : list event) : Prop :=
  match what with
  | None => handled w s0 DeleteAll true tr
  | Some (ids, _) => ∀ x, x ∈ ids → ∃ c, x ∈ c ∧ dealt w s0 c tr
  end.

(** C26: Whatever the deletion service answers, whatever the wallet does and
    whenever the user cancels, switches the account or leaves: a run of the
    hook submits a signature only when the service prepared that batch for a
    body of this run (all, or one to nine hundred distinct selected ids), the
    wallet signed exactly the transaction the service named, the account did
    not change since the run began, and nobody pressed cancel while the wallet
    was open.  And it says done only with the number the service reported as
    deleted in this run, when each selected id was in a batch that is completed
    or of which nothing was left (for all: when nothing is left). *)
Theorem deletion_justified `{SuiSdk} w addr fuel what s0 pre ev post :
  trace (deletion w addr fuel what s0).1 = trace s0 ++ pre ++ ev :: post →
  match ev with
  | Asked (QSubmit _ batchId signature) => consented w s0 (allowed_body what) batchId signature (trace s0 ++ pre)
  | SetPhase (DonePhase deleted) => finished w s0 what (trace s0 ++ pre) ∧ deleted = reported w (trace s0) pre
  | _ => True
  end.
Proof.
  intros Ht. assert (Hk : ∃ k, Inv w s0 (allowed_body what) (finished w s0 what) k (deletion w addr fuel what s0).1).
  { destruct what as [[ids deleteBatchMax]|]; simpl; eapply (execute_rule w addr s0 _ _ (generation s0) eq_refl).
    - eapply triple_conseq; [apply (selection_rule w addr s0 (allowed_body (Some (ids, deleteBatchMax))) (finished w s0 (Some (ids, deleteBatchMax)))
        _ eq_refl (selection_chunks ids deleteBatchMax) []), selected_chunks|by split| |done].
      intros d s [Hi Hd]. split; [done|]. intros x Hx. apply (selection_spec ids deleteBatchMax) in Hx.
      apply list_elem_of_In, in_concat in Hx as (c & Hin & Hc). exists c. rewrite !list_elem_of_In. rewrite Forall_forall in Hd. split; [done|].
      apply Hd. by apply list_elem_of_In.
    - eapply triple_conseq; [by apply (all_rule w addr s0 (allowed_body None) (finished w s0 None) _ eq_refl fuel 1)|done|done|done]. }
  destruct Hk as [k Hk]. pose proof (inv_each _ _ _ _ _ _ _ _ _ Hk Ht) as Hj. destruct ev as [[]| | | | |[]| |]; simpl in Hj; try done.
  destruct Hj as [Hf (new & Hn & ->)]. apply app_inv_head in Hn as ->. done.
Qed.

(** ** A run *)
Module Run.
Definition answer (q : sd_request) : json :=
  match q with
  | QChallenge _ => JObj [("challengeId", JStr "c1"); ("challenge", JStr "sign in"); ("expiresInSecs", JNum 300)]
  | QVerify _ _ _ => JObj [("token", JStr "t1"); ("expiresInSecs", JNum 600)]
  | QPrepare _ _ => JObj [("batchId", JStr "b1"); ("txBytes", JStr "AAAA"); ("included", JNum 2); ("excluded", JArr []); ("expiresAt", JStr "soon")]
  | QSubmit _ _ _ => JObj [("state", JStr "completed"); ("deleted", JNum 2); ("digest", JStr "d1")]
  | QCancel _ _ | QStatus _ _ => JObj [("state", JStr "rolled_back"); ("blobCount", JNum 2); ("digest", JNull); ("resolvedAt", JNull)]
  | QList _ _ _ _ => JNull
  end.
(** The user presses cancel while the wallet is open, or not. *)
Definition w (cancels : bool) : world := {|
  w_fetch tr := match last tr with Some (Asked q) => inr (200, Some (answer q)) | _ => inl (plain_error "down") end;
  w_sign tr := inr "sig";
  w_join tr := inr "t1";
  w_user tr := match last tr with Some (SignedTransaction _) => if cancels then [CancelPressed] else [] | _ => [] end;
  w_clock tr := 0;
|}.
Definition s0 : hook_state := Hook [] ∅ ∅ ∅ "0x7" true 1 1 false None.
Definition chosen : list string * number := (["a"; "b"; "a"], Finite 900).
Definition events (cancels : bool) : list event := trace (deletion (w cancels) "0x7" 0 (Some chosen) s0).1.
Example deletes : events false =
  [SetPhase (Preparing 1); Asked (QChallenge (canonical_address "0x7")); SignedMessage "sign in"; Asked (QVerify "c1" (canonical_address "0x7") "sig");
   Asked (QPrepare "t1" (DeleteSelection ["a"; "b"])); SetPhase (Signing 1 (Some 1)); SignedTransaction "AAAA"; SetPhase (Executing 1);
   Asked (QSubmit "t1" "b1" "sig"); StateChanged; SetPhase (DonePhase 2); StateChanged].
Proof. vm_compute. reflexivity. Qed.
Example cancels : drop 6 (events true) =
  [SignedTransaction "AAAA"; User CancelPressed; Asked (QCancel "t1" "b1"); SetPhase Idle].
Proof. vm_compute. reflexivity. Qed.
End Run.

Lemma deletion_justified_witness :
  consented (Run.w false) Run.s0 (allowed_body (Some Run.chosen)) "b1" "sig" (take 8 (Run.events false)) ∧
  finished (Run.w false) Run.s0 (Some Run.chosen) (take 10 (Run.events false)) ∧ 2 = reported (Run.w false) [] (take 10 (Run.events false)).
Proof.
  split.
  - apply (deletion_justified (Run.w false) "0x7" 0 (Some Run.chosen) Run.s0 (take 8 (Run.events false)) (Asked (QSubmit "t1" "b1" "sig")) (drop 9 (Run.events false))).
    vm_compute. reflexivity.
  - apply (deletion_justified (Run.w false) "0x7" 0 (Some Run.chosen) Run.s0 (take 10 (Run.events false)) (SetPhase (DonePhase 2)) (drop 11 (Run.events false))).
    vm_compute. reflexivity.
Defined.
