(* ===== verification/Bridge.v ===== *)
(** * The MCP bridge (packages/mcp/src/bridge.ts)

    JSON-RPC lines of a client on stdin are posted to the relayer's session,
    and the messages of its event stream are written to stdout; a cut stream
    is reopened and the requests without an answer are sent again; a login
    swaps the credentials while requests are under way.

    The state is what [runBridge] closes over; a step is the code between
    two points where the event loop may switch.  Every call of the outside
    answers in a step of its own. *)
From Stdlib Require Import QArith Qround Ascii.
From S2P Require Import Prelude JsText JsNumber JsonParse LineReader McpCreds AuthRequired McpLogin.
Local Open Scope Z_scope.

(** ** [resolveSseIdleMs] and the watchdog *)
Definition resolveSseIdleMs (raw : option string) : Q :=
  match raw with
  | None => inject_Z 30000
  | Some r =>
      if is_empty r then inject_Z 30000
      else match string_number r with
           | Finite n => if Qle_bool (inject_Z 500) n then n else inject_Z 30000
           | _ => inject_Z 30000
           end
  end.
Definition checkIntervalMs (idleTimeoutMs : Q) : Z := Z.max 500 (Qfloor (idleTimeoutMs / inject_Z 3)).
(** The watchdog's callback: does it abort the stream? *)
Definition watchdog_fires (idleTimeoutMs : Q) (lastChunkAt now : Z) (aborted : bool) : bool :=
  negb (Qle_bool (inject_Z (now - lastChunkAt)) idleTimeoutMs) && negb aborted.

(** ** Messages *)
Definition NAMESPACE_TOOLS : list string :=
  ["memwal_remember"; "memwal_recall"; "memwal_analyze"; "memwal_restore"].
Definition is_null (v : json) : bool := match v with JNull => true | _ => false end.

(** [o.k = v] on an object; an array takes the property, which its JSON does
    not show; on a primitive it throws. *)
Definition assign (k : string) (v o : json) : option json :=
  match o with JObj fs => Some (JObj (set_field k v fs)) | JArr l => Some (JArr l) | _ => None end.

(** [None]: throws. *)
Definition applyDefaultNamespace (msg : json) (namespace : option string) : option json :=
  match namespace with
  | None => Some msg
  | Some ns =>
      if is_empty ns then Some msg else
      if negb (is_text "tools/call" (jget "method" msg)) then Some msg else
      let params := jget "params" msg in
      match jget "name" params with
      | JStr name =>
          if existsb (seqb name) NAMESPACE_TOOLS then
            let args := coalesce (jget "arguments" params) (JObj []) in
            if string_is (λ s, negb (is_empty (trim s))) (jget "namespace" args) then Some msg else
              args' ← assign "namespace" (JStr ns) args;
              params' ← assign "arguments" args' params;
              assign "params" params' msg
          else Some msg
      | _ => Some msg
      end
  end.

(** A call of one of the tools served here; it carries an id. *)
Inductive local_tool : Type := Login | Logout.
Definition local_call (msg : json) : option local_tool :=
  if is_text "tools/call" (jget "method" msg) && negb (is_nothing (jget "id" msg)) then
    let name := jget "name" (jget "params" msg) in
    if is_text "memwal_login" name then Some Login
    else if is_text "memwal_logout" name then Some Logout
    else None
  else None.
Definition is_tracked (msg : json) : bool :=
  negb (is_undefined (jget "method" msg)) && negb (is_nothing (jget "id" msg)).
Definition is_response (v : json) : bool :=
  (negb (is_undefined (jget "result" v)) || negb (is_undefined (jget "error" v))) &&
  negb (is_nothing (jget "id" v)).

(** [Map] and [Set] keys: texts and numbers by value, objects by identity. *)
Definition id_eqb (a b : json) : bool :=
  match a, b with
  | JStr s, JStr t => seqb s t
  | JNum p, JNum q => Qeq_bool p q
  | JBool x, JBool y => Bool.eqb x y
  | _, _ => false
  end.
Fixpoint map_set (id msg : json) (m : list (json * json)) : list (json * json) :=
  match m with
  | [] => [(id, msg)]
  | (k, v) :: m' => if id_eqb id k then (k, msg) :: m' else (k, v) :: map_set id msg m'
  end.
Definition map_delete (id : json) (m : list (json * json)) : list (json * json) :=
  List.filter (λ kv, negb (id_eqb id kv.1)) m.
Definition set_delete (id : json) (l : list json) : list json := List.filter (λ k, negb (id_eqb id k)) l.

(** [LOCAL_TOOL_DEFINITIONS], without the descriptions, and where they are
    spliced in. *)
Definition LOCAL_TOOL_DEFINITIONS : list json :=
  map (λ name, JObj [("name", JStr name);
         ("inputSchema", JObj [("type", JStr "object"); ("properties", JObj []); ("additionalProperties", JBool false)])])
    ["memwal_login"; "memwal_logout"].
Definition is_object (v : json) : bool := match v with JObj _ | JArr _ => true | _ => false end.
Definition splice_tools (v : json) : json :=
  match v with
  | JObj fs =>
      match jget "result" v with
      | JObj rs =>
          match jget "tools" (JObj rs) with
          | JArr tools => JObj (set_field "result" (JObj (set_field "tools" (JArr (tools ++ LOCAL_TOOL_DEFINITIONS)) rs)) fs)
          | _ => v
          end
      | _ => v
      end
  | _ => v
  end.
Definition account_changed_error (id : json) : json :=
  JObj [("jsonrpc", JStr "2.0"); ("id", id);
        ("error", JObj [("code", jint (-32001));
           ("message", JStr "Walrus Memory account changed during login; retry this request for the new account")])].

(** ** [openSseStream] *)

(** What the outside answers to a handshake: whether the relayer is
    compatible and could be reached, its response, and the chunks up to the endpoint or the end. *)
Record handshake : Type := Handshake {
  hs_compatible : bool;
  hs_status : Z;
  hs_body : bool;
  hs_content_type : string;
  hs_chunks : list string;
}.
(** A session: where to post, and the credentials of its GET. *)
Record stream : Type := Stream { postUrl : string; openedWith : MemWalCredentials }.

Definition endpoint_of (es : list sse_event) : option string :=
  match List.filter (λ e, match e with Endpoint _ => true | _ => false end) es with
  | Endpoint p :: _ => Some p
  | _ => None
  end.
Definition openSseStream (creds : MemWalCredentials) (h : handshake) : option stream :=
  if negb (hs_compatible h) then None
  else if hs_status h =? 401 then None
  else if negb ((200 <=? hs_status h) && (hs_status h <=? 299)) || negb (hs_body h) then None
  else if negb (includes "event-stream" (hs_content_type h)) then None
  else match endpoint_of (sse_events (hs_chunks h)) with
       | Some p => Some (Stream (post_url (strip_slashes (relayerUrl creds)) p) creds)
       | None => None
       end.

(** ** The state of [runBridge] *)

(** Where a [postMessage] comes from. *)
Inductive source : Type :=
| Direct      (** the handler of a line, with the session of the current credentials *)
| AfterSwap   (** the handler, after it waited for a reconnect of its own *)
| Replay.     (** a reconnect *)

(** What happened, most recent first. *)
Inductive event : Type :=
| Received (msg : json) (account : string)   (** a request is tracked; the account of the moment *)
| Posted (by_ : source) (to : stream) (key : MemWalCredentials) (msg : json)
| Wrote (v : json)
| Answered (id : json) (isError : bool) (url : option string)  (** a local tool's result *)
| Dropped                                     (** a line that threw *)
| Aborted (st : stream).

(** The reconnect under way. *)
Inductive reconnecting : Type :=
| Backoff (ms : Z)
| Opening (generation : nat) (openingCreds : MemWalCredentials)
| Replaying (generation : nat) (openingCreds : MemWalCredentials) (rest : list (json * json))
| Resolved.                                   (** [reconnectPromise] is fulfilled, not yet null *)

(** A wait for the [n]th reconnect; [None] when there is nothing to wait for. *)
Definition wait : Type := option nat.
Inductive task : Type :=
| AwaitReconnect (msg : json) (w : wait)
| AwaitSwap (msg : json) (w : wait)
| AwaitPost
| Await404 (w : wait)
| AwaitUrl (id : json)
| Adopting (w : wait)
| AdoptingAgain (w : wait)
| Finished.
Inductive pump : Type := Reading | Reconnecting (w : wait) | Stopped.

Record bridge : Type := Bridge {
  creds : MemWalCredentials;
  sse : stream;
  sseAborted : bool;
  stdinClosed : bool;
  reconnectAttempt : nat;
  reconnectPromise : option reconnecting;
  reconnects : nat;                            (** the number of the latest reconnect *)
  credentialGeneration : nat;
  activeCredentialGeneration : nat;
  inFlight : list (json * json);
  pendingListIds : list json;
  tasks : gmap nat task;
  started : nat;
  logins : nat;                                (** background logins under way *)
  serverPump : pump;
  disk : option file;
  events : list event;
}.

Definition emit (e : event) (b : bridge) : bridge :=
  Bridge (creds b) (sse b) (sseAborted b) (stdinClosed b) (reconnectAttempt b) (reconnectPromise b)
    (reconnects b) (credentialGeneration b) (activeCredentialGeneration b) (inFlight b) (pendingListIds b)
    (tasks b) (started b) (logins b) (serverPump b) (disk b) (e :: events b).
Definition set_task (t : nat) (k : task) (b : bridge) : bridge :=
  Bridge (creds b) (sse b) (sseAborted b) (stdinClosed b) (reconnectAttempt b) (reconnectPromise b)
    (reconnects b) (credentialGeneration b) (activeCredentialGeneration b) (inFlight b) (pendingListIds b)
    (<[t := k]> (tasks b)) (started b) (logins b) (serverPump b) (disk b) (events b).
Definition new_task (b : bridge) : bridge :=
  Bridge (creds b) (sse b) (sseAborted b) (stdinClosed b) (reconnectAttempt b) (reconnectPromise b)
    (reconnects b) (credentialGeneration b) (activeCredentialGeneration b) (inFlight b) (pendingListIds b)
    (tasks b) (S (started b)) (logins b) (serverPump b) (disk b) (events b).
Definition set_phase (r : option reconnecting) (b : bridge) : bridge :=
  Bridge (creds b) (sse b) (sseAborted b) (stdinClosed b) (reconnectAttempt b) r
    (reconnects b) (credentialGeneration b) (activeCredentialGeneration b) (inFlight b) (pendingListIds b)
    (tasks b) (started b) (logins b) (serverPump b) (disk b) (events b).
Definition set_pump (p : pump) (b : bridge) : bridge :=
  Bridge (creds b) (sse b) (sseAborted b) (stdinClosed b) (reconnectAttempt b) (reconnectPromise b)
    (reconnects b) (credentialGeneration b) (activeCredentialGeneration b) (inFlight b) (pendingListIds b)
    (tasks b) (started b) (logins b) p (disk b) (events b).
Definition set_pending (m : list (json * json)) (ids : list json) (b : bridge) : bridge :=
  Bridge (creds b) (sse b) (sseAborted b) (stdinClosed b) (reconnectAttempt b) (reconnectPromise b)
    (reconnects b) (credentialGeneration b) (activeCredentialGeneration b) m ids
    (tasks b) (started b) (logins b) (serverPump b) (disk b) (events b).
Definition set_logins (n : nat) (b : bridge) : bridge :=
  Bridge (creds b) (sse b) (sseAborted b) (stdinClosed b) (reconnectAttempt b) (reconnectPromise b)
    (reconnects b) (credentialGeneration b) (activeCredentialGeneration b) (inFlight b) (pendingListIds b)
    (tasks b) (started b) n (serverPump b) (disk b) (events b).
Definition set_disk (d : option file) (b : bridge) : bridge :=
  Bridge (creds b) (sse b) (sseAborted b) (stdinClosed b) (reconnectAttempt b) (reconnectPromise b)
    (reconnects b) (credentialGeneration b) (activeCredentialGeneration b) (inFlight b) (pendingListIds b)
    (tasks b) (started b) (logins b) (serverPump b) d (events b).
(** [sse.abort()] *)
Definition abort (b : bridge) : bridge :=
  Bridge (creds b) (sse b) true (stdinClosed b) (reconnectAttempt b) (reconnectPromise b)
    (reconnects b) (credentialGeneration b) (activeCredentialGeneration b) (inFlight b) (pendingListIds b)
    (tasks b) (started b) (logins b) (serverPump b) (disk b) (Aborted (sse b) :: events b).

(** ** [reconnect] *)
Definition start_reconnect (attempt : nat) (b : bridge) : bridge :=
  Bridge (creds b) (sse b) (sseAborted b) (stdinClosed b) attempt (reconnectPromise b)
    (S (reconnects b)) (credentialGeneration b) (activeCredentialGeneration b) (inFlight b) (pendingListIds b)
    (tasks b) (started b) (logins b) (serverPump b) (disk b) (events b).
(** [while (!stdinClosed) { ... openSseStream ...] up to its [await] *)
Definition try_open (b : bridge) : bridge :=
  set_phase (Some (if stdinClosed b then Resolved else Opening (credentialGeneration b) (creds b))) b.
Definition backoff (immediate : bool) (attempt : nat) : Z :=
  if immediate then 0 else Z.min 15000 (500 * 2 ^ Z.of_nat attempt).
(** A call: the state after its synchronous part, and what the caller waits for. *)
Definition reconnect (immediate : bool) (b : bridge) : bridge * wait :=
  if stdinClosed b then (b, None)
  else match reconnectPromise b with
       | Some _ => (b, Some (reconnects b))
       | None =>
           let ms := backoff immediate (reconnectAttempt b) in
           let b' := start_reconnect (S (reconnectAttempt b)) (abort b) in
           let b'' := if 0 <? ms then set_phase (Some (Backoff ms)) b' else try_open b' in
           (b'', Some (reconnects b''))
       end.

(** The session [st] is published. *)
Definition publish (g : nat) (st : stream) (b : bridge) : bridge :=
  Bridge (creds b) st false (stdinClosed b) 0 (reconnectPromise b) (reconnects b)
    (credentialGeneration b) g (inFlight b) (pendingListIds b)
    (tasks b) (started b) (logins b) (serverPump b) (disk b) (events b).
(** The next replayed request, or the end of the loop's body. *)
Definition replay_next (g : nat) (c : MemWalCredentials) (rest : list (json * json)) (b : bridge) : bridge :=
  match rest with
  | (_, msg) :: rest' => set_phase (Some (Replaying g c rest')) (emit (Posted Replay (sse b) c msg) b)
  | [] =>
      if (g =? credentialGeneration b)%nat then set_phase (Some Resolved) b
      else try_open (abort b)
  end.
(** The answer to [openSseStream]; a failed one is caught and logged. *)
Definition opened (g : nat) (c : MemWalCredentials) (h : handshake) (b : bridge) : bridge :=
  match openSseStream c h with
  | None => set_phase (Some Resolved) b
  | Some candidate =>
      if (g =? credentialGeneration b)%nat then
        let b' := publish g candidate b in replay_next g c (inFlight b') b'
      else try_open (emit (Aborted candidate) b)
  end.
(** Is the [n]th reconnect over, and its promise null again? *)
Definition resumable (w : wait) (b : bridge) : bool :=
  match w, reconnectPromise b with
  | Some n, Some _ => (n <? reconnects b)%nat
  | _, _ => true
  end.

(** ** The handler of a line *)
Definition post (t : nat) (src : source) (msg : json) (b : bridge) : bridge :=
  set_task t AwaitPost (emit (Posted src (sse b) (creds b) msg) b).
(** From [if (activeCredentialGeneration !== credentialGeneration)] on *)
Definition check_generation (t : nat) (msg : json) (b : bridge) : bridge :=
  if (activeCredentialGeneration b =? credentialGeneration b)%nat then post t Direct msg b
  else let (b', w) := reconnect true b in set_task t (AwaitSwap msg w) b'.
Definition track (msg : json) (b : bridge) : bridge :=
  let id := jget "id" msg in
  let ids := if is_text "tools/list" (jget "method" msg) && negb (is_nothing id)
             then id :: set_delete id (pendingListIds b) else pendingListIds b in
  if is_tracked msg then
    emit (Received msg (accountId (creds b))) (set_pending (map_set id msg (inFlight b)) ids b)
  else set_pending (inFlight b) ids b.
Definition forward (t : nat) (msg : json) (b : bridge) : bridge :=
  let b1 := track msg b in
  match reconnectPromise b1 with
  | Some _ => set_task t (AwaitReconnect msg (Some (reconnects b1))) b1
  | None => check_generation t msg b1
  end.

(** [handleClientLine]: the next task.  [unlinks]: a logout could remove the
    credentials file. *)
Definition handleClientLine (namespace : option string) (unlinks : bool) (line : string) (b : bridge) : bridge :=
  let t := started b in
  let b := new_task b in
  match json_parse line with
  | None | Some JNull => set_task t Finished (emit Dropped b)
  | Some msg =>
      match local_call msg with
      | Some Login => set_task t (AwaitUrl (jget "id" msg)) (set_logins (S (logins b)) b)
      | Some Logout =>
          set_task t Finished
            (emit (Answered (jget "id" msg) false None) (set_disk (clearCreds unlinks (disk b)) b))
      | None =>
          match applyDefaultNamespace msg namespace with
          | None => set_task t Finished (emit Dropped b)
          | Some msg => forward t msg b
          end
      end
  end.
(** A task waiting for a reconnect goes on. *)
Definition resume (t : nat) (k : task) (b : bridge) : bridge :=
  match k with
  | AwaitReconnect msg _ => check_generation t msg b
  | AwaitSwap msg _ => post t AfterSwap msg b
  | Adopting _ =>
      if (activeCredentialGeneration b =? credentialGeneration b)%nat then set_task t Finished b
      else let (b', w) := reconnect true b in set_task t (AdoptingAgain w) b'
  | _ => set_task t Finished b
  end.
Definition waits_for (k : task) : option wait :=
  match k with
  | AwaitReconnect _ w | AwaitSwap _ w | Await404 w | Adopting w | AdoptingAgain w => Some w
  | _ => None
  end.
(** The answer to a handler's POST: its status, [None] when [fetch] throws. *)
Definition posted (t : nat) (status : option Z) (b : bridge) : bridge :=
  match status with
  | Some s => if s =? 404 then let (b', w) := reconnect false b in set_task t (Await404 w) b'
              else set_task t Finished b
  | None => set_task t Finished (emit Dropped b)
  end.
(** The URL of a login's listener, if it came in time. *)
Definition url_ready (t : nat) (id : json) (url : option string) (b : bridge) : bridge :=
  let (isError, shown) := handleLoginToolCall url in
  set_task t Finished (emit (Answered id isError shown) b).

(** ** [adoptCredentials] *)
Fixpoint refuse_all (m : list (json * json)) (b : bridge) : bridge :=
  match m with
  | [] => b
  | (id, _) :: m' =>
      refuse_all m' (set_pending (inFlight b) (set_delete id (pendingListIds b))
                       (emit (Wrote (account_changed_error id)) b))
  end.
Definition swap (nextCreds : MemWalCredentials) (b : bridge) : bridge :=
  Bridge nextCreds (sse b) (sseAborted b) (stdinClosed b) 0 (reconnectPromise b) (reconnects b)
    (S (credentialGeneration b)) (activeCredentialGeneration b) (inFlight b) (pendingListIds b)
    (tasks b) (started b) (logins b) (serverPump b) (disk b) (events b).
Definition adoptCredentials (nextCreds : MemWalCredentials) (b : bridge) : bridge :=
  let b1 := if seqb (accountId (creds b)) (accountId nextCreds) then b
            else let r := refuse_all (inFlight b) (abort b) in set_pending [] (pendingListIds r) r in
  let t := started b1 in
  let (b2, w) := reconnect true (new_task (swap nextCreds b1)) in
  set_task t (Adopting w) b2.

(** ** [serverPump] *)
Definition receive (v : json) (b : bridge) : bridge :=
  let id := jget "id" v in
  let m := if is_response v then map_delete id (inFlight b) else inFlight b in
  if negb (is_nothing id) && existsb (id_eqb id) (pendingListIds b) && is_object (jget "result" v) then
    emit (Wrote (splice_tools v)) (set_pending m (set_delete id (pendingListIds b)) b)
  else emit (Wrote v) (set_pending m (pendingListIds b) b).
Definition stream_end (b : bridge) : bridge :=
  if stdinClosed b then set_pump Stopped b
  else let (b', w) := reconnect false b in set_pump (Reconnecting w) b'.
Definition stdin_end (b : bridge) : bridge :=
  let b' := abort b in
  Bridge (creds b') (sse b') (sseAborted b') true (reconnectAttempt b') (reconnectPromise b')
    (reconnects b') (credentialGeneration b') (activeCredentialGeneration b') (inFlight b') (pendingListIds b')
    (tasks b') (started b') (logins b') (serverPump b') (disk b') (events b').

(** ** Steps *)
Inductive label : Type :=
| Line (unlinks : bool) (line : string)       (** stdin *)
| StdinEnd
| Resume (t : nat)
| PostAnswered (t : nat) (status : option Z)
| UrlReady (t : nat) (url : option string)
| LoginDone (nextCreds : MemWalCredentials) (f : option file)   (** a background login succeeded *)
| LoginFailed
| BackoffOver
| Opened (h : handshake)
| ReplayAnswered
| Cleared                                     (** [finally { reconnectPromise = null }] *)
| Received_ (v : json)                        (** the stream yields a message *)
| StreamEnd
| PumpResume.

Definition step (namespace : option string) (l : label) (b : bridge) : option bridge :=
  match l with
  | Line unlinks line => if stdinClosed b then None else Some (handleClientLine namespace unlinks line b)
  | StdinEnd => if stdinClosed b then None else Some (stdin_end b)
  | Resume t =>
      k ← tasks b !! t; w ← waits_for k;
      if resumable w b then Some (resume t k b) else None
  | PostAnswered t status => match tasks b !! t with Some AwaitPost => Some (posted t status b) | _ => None end
  | UrlReady t url => match tasks b !! t with Some (AwaitUrl id) => Some (url_ready t id url b) | _ => None end
  | LoginDone c f =>
      match logins b with S n => Some (adoptCredentials c (set_disk f (set_logins n b))) | O => None end
  | LoginFailed => match logins b with S n => Some (set_logins n b) | O => None end
  | BackoffOver => match reconnectPromise b with Some (Backoff _) => Some (try_open b) | _ => None end
  | Opened h => match reconnectPromise b with Some (Opening g c) => Some (opened g c h b) | _ => None end
  | ReplayAnswered =>
      match reconnectPromise b with Some (Replaying g c rest) => Some (replay_next g c rest b) | _ => None end
  | Cleared => match reconnectPromise b with Some Resolved => Some (set_phase None b) | _ => None end
  | Received_ v => match serverPump b with Reading => Some (receive v b) | _ => None end
  | StreamEnd => match serverPump b with Reading => Some (stream_end b) | _ => None end
  | PumpResume =>
      match serverPump b with
      | Reconnecting w =>
          if resumable w b then Some (set_pump (if stdinClosed b then Stopped else Reading) b) else None
      | _ => None
      end
  end.

(** [runBridge] up to the loops: the handshake, and the lines handed over. *)
Definition initial (c : MemWalCredentials) (st : stream) (d : option file) : bridge :=
  Bridge c st false false 0 None 0 0 0 [] [] ∅ 0 0 Reading d [].
Definition runBridge (namespace : option string) (c : MemWalCredentials) (d : option file)
    (h : handshake) (pendingLines : list string) : option bridge :=
  st ← openSseStream c h;
  Some (foldl (λ b line, handleClientLine namespace true line b) (initial c st d) pendingLines).
Fixpoint run (namespace : option string) (ls : list label) (b : bridge) : option bridge :=
  match ls with [] => Some b | l :: ls' => b' ← step namespace l b; run namespace ls' b' end.
