(* ===== verification/BridgeSafety.v ===== *)
(** * Theorems about the MCP bridge (packages/mcp/src/bridge.ts)

    A request is in flight exactly while it has no answer; while a session is
    live every request in flight was sent on it or is about to be; a session
    is used with the credentials that opened it, but for handlers whose own
    reconnect has failed, and what is sent again goes to the account it was
    received for. *)
From Stdlib Require Import QArith Ascii.
From S2P Require Import Prelude JsText JsNumber JsonParse LineReader McpCreds AuthRequired McpLogin Bridge.
Local Open Scope Z_scope.

(** ** Request ids *)
Lemma id_eqb_eq a b c : id_eqb a b = true → id_eqb c a = id_eqb c b.
Proof.
  destruct a as [| |x|p|s| |], b as [| |y|q|t| |]; try done; cbn.
  - intros ->%eqb_prop. by destruct c.
  - intros Hpq. destruct c as [| | |r| | |]; try done. cbn. apply Qeq_bool_iff in Hpq.
    destruct (Qeq_bool r p) eqn:E, (Qeq_bool r q) eqn:E'; try done; exfalso.
    + apply Qeq_bool_iff in E. apply Qeq_bool_neq in E'. apply E'. by rewrite E.
    + apply Qeq_bool_iff in E'. apply Qeq_bool_neq in E. apply E. by rewrite E', Hpq.
  - by intros ->%seqb_eq.
Qed.
Lemma id_eqb_sym a b : id_eqb a b = id_eqb b a.
Proof.
  destruct a as [| |x|p|s| |], b as [| |y|q|t| |]; try done; cbn.
  - by destruct x, y.
  - destruct (Qeq_bool p q) eqn:E, (Qeq_bool q p) eqn:E'; try done; exfalso.
    + apply Qeq_bool_iff in E. apply Qeq_bool_neq in E'. by apply E'.
    + apply Qeq_bool_iff in E'. apply Qeq_bool_neq in E. by apply E.
  - unfold seqb. by apply bool_decide_ext.
Qed.
Lemma id_eqb_nothing a b : is_nothing b = true → id_eqb a b = false.
Proof. by destruct a, b. Qed.

Definition in_flight (id : json) (m : list (json * json)) : bool := existsb (λ kv, id_eqb id kv.1) m.
Lemma in_flight_set id msg m k : in_flight k (map_set id msg m) = id_eqb k id || in_flight k m.
Proof.
  induction m as [|[k' v] m IH]; [done|]. simpl. destruct (id_eqb id k') eqn:E; simpl.
  - rewrite (id_eqb_eq _ _ k E). by destruct (id_eqb k k').
  - unfold in_flight in *. rewrite IH. by destruct (id_eqb k id), (id_eqb k k').
Qed.
Lemma in_flight_delete id m k : in_flight k (map_delete id m) = negb (id_eqb k id) && in_flight k m.
Proof.
  unfold map_delete. induction m as [|[k' v] m IH]; simpl; [by rewrite andb_false_r|].
  destruct (id_eqb id k') eqn:E; simpl; unfold in_flight in *; rewrite IH.
  - rewrite <-(id_eqb_eq _ _ k E). by destruct (id_eqb k id).
  - destruct (id_eqb k id) eqn:E'; simpl; [|by destruct (id_eqb k k')].
    assert (Hk : id_eqb k k' = false) by (rewrite (id_eqb_sym k k'), (id_eqb_eq k id k' E'), id_eqb_sym; exact E).
    by rewrite Hk.
Qed.
Lemma map_set_elem id msg m kv : kv ∈ map_set id msg m → kv.2 = msg ∨ kv ∈ m.
Proof.
  induction m as [|[k v] m IH]; simpl; [set_solver|].
  destruct (id_eqb id k); intros [->|H]%elem_of_cons; [by left|right; by right|right; by left|].
  destruct (IH H); [by left|right; by right].
Qed.
Lemma map_delete_elem id m kv : kv ∈ map_delete id m → kv ∈ m.
Proof. unfold map_delete. rewrite !list_elem_of_In, filter_In. tauto. Qed.

(** ** What the trace says of a request: received and not answered since *)
Fixpoint open_request (id : json) (es : list event) : bool :=
  match es with
  | [] => false
  | Received msg _ :: es' => id_eqb id (jget "id" msg) || open_request id es'
  | Wrote v :: es' => negb (is_response v && id_eqb id (jget "id" v)) && open_request id es'
  | _ :: es' => open_request id es'
  end.
Global Arguments in_flight : simpl never.

(** The message a task has still to send. *)
Definition carried (o : option task) : option json :=
  match o with Some (AwaitReconnect msg _) | Some (AwaitSwap msg _) => Some msg | _ => None end.
Definition sent (b : bridge) (msg : json) : Prop := ∃ src key, Posted src (sse b) key msg ∈ events b.
Definition to_replay (b : bridge) (msg : json) : Prop :=
  match reconnectPromise b with Some (Replaying _ _ rest) => ∃ id, (id, msg) ∈ rest | _ => False end.
Definition covered (b : bridge) (msg : json) : Prop :=
  sent b msg ∨ (∃ t, carried (tasks b !! t) = Some msg) ∨ to_replay b msg.

Definition received_for (account : string) (es : list event) (m : list (json * json)) : Prop :=
  ∀ kv, kv ∈ m → Received kv.2 account ∈ es.

(** What a reconnect under way has opened with. *)
Definition phase_ok (b : bridge) : Prop :=
  match reconnectPromise b with
  | Some (Opening g c) => (g ≤ credentialGeneration b)%nat ∧ (g = credentialGeneration b → c = creds b)
  | Some (Replaying g c rest) =>
      g = activeCredentialGeneration b ∧ openedWith (sse b) = c ∧ received_for (accountId c) (events b) rest
  | _ => True
  end.
Definition post_ok (es : list event) (e : event) : Prop :=
  match e with
  | Posted src st key msg =>
      (src ≠ AfterSwap → openedWith st = key) ∧ (src = Replay → Received msg (accountId key) ∈ es)
  | _ => True
  end.

(** [todo] is a message its handler has at hand: it is neither sent nor
    waiting yet. *)
Record bridge_inv (todo : option json) (b : bridge) : Prop := BridgeInv {
  inv_open : ∀ id, in_flight id (inFlight b) = open_request id (events b);
  inv_account : received_for (accountId (creds b)) (events b) (inFlight b);
  inv_session : (activeCredentialGeneration b ≤ credentialGeneration b)%nat ∧
    (activeCredentialGeneration b = credentialGeneration b → openedWith (sse b) = creds b);
  inv_phase : phase_ok b;
  inv_posts : ∀ e, e ∈ events b → post_ok (events b) e;
  inv_covered : sseAborted b = false → ∀ kv, kv ∈ inFlight b → todo = Some kv.2 ∨ covered b kv.2;
  inv_fresh : ∀ t, (started b ≤ t)%nat → tasks b !! t = None;
}.

Lemma initial_bridge_inv c st d : openedWith st = c → bridge_inv None (initial c st d).
Proof. intros <-. split; cbn; try done; set_solver. Qed.

(** ** Frames: what leaves the invariant alone *)

(** An event that neither opens nor answers a request. *)
Definition quiet (e : event) : Prop := match e with Received _ _ | Wrote _ => False | _ => True end.
Lemma post_ok_mono es es' e : es ⊆ es' → post_ok es e → post_ok es' e.
Proof. destruct e; try done. intros Hs [H1 H2]. split; [exact H1|]. intros Hr. by apply Hs, H2. Qed.
Lemma received_mono a es es' m : es ⊆ es' → received_for a es m → received_for a es' m.
Proof. intros Hs Hm kv Hkv. by apply Hs, Hm. Qed.
Lemma phase_mono b b' : reconnectPromise b' = reconnectPromise b → sse b' = sse b → creds b' = creds b →
  credentialGeneration b' = credentialGeneration b → activeCredentialGeneration b' = activeCredentialGeneration b →
  events b ⊆ events b' → phase_ok b → phase_ok b'.
Proof.
  unfold phase_ok. intros -> -> -> -> -> Hes. destruct (reconnectPromise b) as [[]|]; try done.
  intros (? & ? & ?). split_and!; eauto using received_mono.
Qed.
Lemma covered_mono b b' msg : sse b' = sse b → events b ⊆ events b' → tasks b' = tasks b →
  reconnectPromise b' = reconnectPromise b → covered b msg → covered b' msg.
Proof.
  unfold covered, sent, to_replay. intros -> Hes -> ->. intros [(src & key & Hp)|?]; [left|by right].
  exists src, key. by apply Hes.
Qed.

Section Frames.
Context (todo : option json).

Lemma emit_inv e b : quiet e → post_ok (events b) e → bridge_inv todo b → bridge_inv todo (emit e b).
Proof.
  intros Hq He [Ho Ha Hs Hp Hpo Hc Hf].
  assert (Hsub : events b ⊆ e :: events b) by set_solver.
  split; cbn; [|by eapply received_mono|done| | | |done].
  - intros id. rewrite Ho. by destruct e.
  - by apply (phase_mono b); [reflexivity..|exact Hsub|exact Hp].
  - intros e' [->|He']%elem_of_cons; [by eapply post_ok_mono|]. by eapply post_ok_mono; [|apply Hpo].
  - intros Hab kv Hkv. destruct (Hc Hab kv Hkv) as [?|?]; [by left|right]. by apply (covered_mono b).
Qed.
Lemma abort_inv b : bridge_inv todo b → bridge_inv todo (abort b).
Proof.
  intros Hb. apply (emit_inv (Aborted (sse b))) in Hb; [|done|done]. destruct Hb. by split.
Qed.
Lemma set_pump_inv p b : bridge_inv todo b → bridge_inv todo (set_pump p b).
Proof. intros []. by split. Qed.
Lemma set_logins_inv n b : bridge_inv todo b → bridge_inv todo (set_logins n b).
Proof. intros []. by split. Qed.
Lemma set_disk_inv d b : bridge_inv todo b → bridge_inv todo (set_disk d b).
Proof. intros []. by split. Qed.
Lemma new_task_inv b : bridge_inv todo b → bridge_inv todo (new_task b).
Proof. intros [? ? ? ? ? ? Hf]. split; cbn; try done. intros t Ht. apply Hf. lia. Qed.
Lemma set_pending_inv ids b : bridge_inv todo b → bridge_inv todo (set_pending (inFlight b) ids b).
Proof. intros []. by split. Qed.

(** A task may be replaced when what it had to send was sent or is carried on. *)
Lemma set_task_inv t k b : (t < started b)%nat →
  (∀ msg, carried (tasks b !! t) = Some msg ∨ todo = Some msg → carried (Some k) = Some msg ∨ sent b msg) →
  bridge_inv todo b → bridge_inv None (set_task t k b).
Proof.
  intros Ht Hk [Ho Ha Hs Hp Hpo Hc Hf].
  assert (Hthis : ∀ msg, carried (Some k) = Some msg ∨ sent b msg → covered (set_task t k b) msg).
  { intros msg [?|?]; [right; left; exists t; cbn; by rewrite lookup_insert_eq|by left]. }
  split; cbn; try done.
  - intros Hab kv Hkv. right. destruct (Hc Hab kv Hkv) as [?|[?|[(t' & Ht')|?]]];
      [by apply Hthis, Hk; right|by left| |by right; right].
    destruct (decide (t' = t)) as [->|Hne]; [by apply Hthis, Hk; left|].
    right; left. exists t'. cbn. by rewrite lookup_insert_ne by done.
  - intros t' Ht'. rewrite lookup_insert_ne by lia. by apply Hf.
Qed.
(** A phase may be left when what it had to send again was sent or remains. *)
Lemma set_phase_inv r b : phase_ok (set_phase r b) →
  (sseAborted b = true ∨ ∀ msg, to_replay b msg → sent b msg ∨ to_replay (set_phase r b) msg) →
  bridge_inv todo b → bridge_inv todo (set_phase r b).
Proof.
  intros Hr Hn [Ho Ha Hs Hp Hpo Hc Hf]. split; cbn; try done.
  intros Hab kv Hkv. destruct Hn as [?|Hn]; [congruence|].
  destruct (Hc Hab kv Hkv) as [?|[?|[?|Hm]]]; [by left|by right; left|by right; right; left|right].
  destruct (Hn _ Hm) as [?|?]; [by left|by right; right].
Qed.
Lemma try_open_inv b : (sseAborted b = true ∨ ∀ msg, ¬ to_replay b msg) →
  bridge_inv todo b → bridge_inv todo (try_open b).
Proof.
  intros Hn Hb. apply set_phase_inv; [|destruct Hn as [?|Hn]; [by left|right; intros ? ?%Hn; done]|done].
  unfold phase_ok. cbn. by destruct (stdinClosed b).
Qed.

Lemma reconnect_inv im b : bridge_inv todo b → bridge_inv todo (reconnect im b).1.
Proof.
  intros Hb. unfold reconnect. destruct (stdinClosed b); [done|].
  destruct (reconnectPromise b) eqn:Hr; [done|]. cbv zeta. cbn [fst].
  assert (Hs : bridge_inv todo (start_reconnect (S (reconnectAttempt b)) (abort b))).
  { apply abort_inv in Hb. destruct Hb. by split. }
  destruct (0 <? _); [apply set_phase_inv; [done|by left|done]|apply try_open_inv; [by left|done]].
Qed.
End Frames.

(** A call of [reconnect] starts no task and tracks nothing. *)
Lemma reconnect_frame im b : let b' := (reconnect im b).1 in
  tasks b' = tasks b ∧ started b' = started b ∧ sse b' = sse b ∧ inFlight b' = inFlight b ∧ events b ⊆ events b'.
Proof.
  unfold reconnect. destruct (stdinClosed b); [done|]. destruct (reconnectPromise b); [done|].
  cbv zeta. unfold try_open. destruct (0 <? _); cbn; split_and!; set_solver.
Qed.

(** ** The handler of a line *)
Lemma carried_none k : carried (Some k) = None → ∀ msg, carried (Some k) ≠ Some msg.
Proof. congruence. Qed.

(** A task that has at most [msg] to send. *)
Definition carries_at_most (o : option task) (msg : json) : Prop := ∀ m, carried o = Some m → m = msg.

Lemma post_inv t src msg b : src ≠ Replay → (t < started b)%nat → carries_at_most (tasks b !! t) msg →
  (src ≠ AfterSwap → openedWith (sse b) = creds b) →
  ∀ todo, (∀ m, todo = Some m → m = msg) → bridge_inv todo b → bridge_inv None (post t src msg b).
Proof.
  intros Hsrc Ht Hcar Hsess todo Htodo Hb. unfold post.
  eapply set_task_inv; [done| |by eapply emit_inv; [done| |exact Hb]].
  intros m Hm. right. exists src, (creds b). cbn.
  destruct Hm as [->%Hcar| ->%Htodo]; by left.
Qed.
Lemma check_generation_inv t msg b : (t < started b)%nat → carries_at_most (tasks b !! t) msg →
  ∀ todo, (∀ m, todo = Some m → m = msg) → bridge_inv todo b → bridge_inv None (check_generation t msg b).
Proof.
  intros Ht Hcar todo Htodo Hb. unfold check_generation.
  destruct (_ =? _)%nat eqn:Hg.
  - apply Nat.eqb_eq in Hg. eapply post_inv; [done..| |exact Htodo|exact Hb].
    intros _. by apply (inv_session _ _ Hb).
  - pose proof (reconnect_inv todo true b Hb) as Hr. destruct (reconnect_frame true b) as (Htk & Hst & _).
    destruct (reconnect true b) as [b' w]. cbn [fst] in *. eapply set_task_inv; [by rewrite Hst| |exact Hr].
    rewrite Htk. intros m [->%Hcar| ->%Htodo]; by left.
Qed.

(** [track] and the rest of the handler *)
Lemma track_inv msg b : bridge_inv None b →
  bridge_inv (Some msg) (track msg b) ∧ tasks (track msg b) = tasks b ∧ started (track msg b) = started b.
Proof.
  intros Hb. unfold track. cbv zeta. destruct (is_tracked msg); (split; [|done]).
  - destruct Hb as [Ho Ha Hs Hp Hpo Hc Hf].
    assert (Hsub : events b ⊆ Received msg (accountId (creds b)) :: events b) by set_solver.
    split; cbn; [| |done| | | |done].
    + intros id. by rewrite in_flight_set, Ho.
    + intros kv [Hm|Hkv]%map_set_elem; [rewrite Hm; by left|]. right. by apply Ha.
    + by apply (phase_mono b); [reflexivity..|exact Hsub|exact Hp].
    + intros e [->|He]%elem_of_cons; [done|]. by eapply post_ok_mono; [|apply Hpo].
    + intros Hab kv [Hm|Hkv]%map_set_elem; [left; by rewrite Hm|].
      destruct (Hc Hab kv Hkv) as [?|?]; [done|]. right. by apply (covered_mono b).
  - destruct Hb as [Ho Ha Hs Hp Hpo Hc Hf]. split; cbn; try done.
    intros Hab kv Hkv. right. by destruct (Hc Hab kv Hkv).
Qed.
Lemma forward_inv t msg b : (t < started b)%nat → carried (tasks b !! t) = None →
  bridge_inv None b → bridge_inv None (forward t msg b).
Proof.
  intros Ht Hcar Hb. unfold forward. cbv zeta. destruct (track_inv msg b Hb) as (Htr & Htk & Hst).
  assert (Hat : carries_at_most (tasks (track msg b) !! t) msg) by (intros m; rewrite Htk, Hcar; done).
  destruct (reconnectPromise (track msg b)).
  - eapply set_task_inv; [by rewrite Hst| |exact Htr]. intros m [->%Hat|Hm]; [by left|left; cbn; congruence].
  - eapply check_generation_inv; [by rewrite Hst|exact Hat| |exact Htr]. congruence.
Qed.
(** A new task with nothing to send, after any quiet change. *)
Lemma done_task_inv t k b : (t < started b)%nat → carried (tasks b !! t) = None →
  bridge_inv None b → bridge_inv None (set_task t k b).
Proof. intros Ht Hc Hb. eapply set_task_inv; [done| |exact Hb]. intros m [Hm|Hm]; congruence. Qed.
Lemma new_task_free b : bridge_inv None b →
  (started b < started (new_task b))%nat ∧ carried (tasks (new_task b) !! started b) = None.
Proof. intros Hb. split; [cbn; lia|]. cbn. by rewrite (inv_fresh _ _ Hb). Qed.

Lemma handleClientLine_inv ns unlinks line b : bridge_inv None b →
  bridge_inv None (handleClientLine ns unlinks line b).
Proof.
  intros Hb. unfold handleClientLine. cbv zeta. destruct (new_task_free b Hb) as [Ht Hcar].
  apply new_task_inv in Hb.
  assert (Hdrop : bridge_inv None (set_task (started b) Finished (emit Dropped (new_task b))))
    by (apply done_task_inv; [done..|by apply emit_inv]).
  destruct (json_parse line) as [msg|]; [|done].
  assert (Hmsg : bridge_inv None
    match local_call msg with
    | Some Login => set_task (started b) (AwaitUrl (jget "id" msg)) (set_logins (S (logins (new_task b))) (new_task b))
    | Some Logout => set_task (started b) Finished (emit (Answered (jget "id" msg) false None)
                       (set_disk (clearCreds unlinks (disk (new_task b))) (new_task b)))
    | None =>
        match applyDefaultNamespace msg ns with
        | Some msg0 => forward (started b) msg0 (new_task b)
        | None => set_task (started b) Finished (emit Dropped (new_task b))
        end
    end).
  { destruct (local_call msg) as [[]|].
    - apply done_task_inv; [done..|]. by apply set_logins_inv.
    - apply done_task_inv; [done..|]. apply emit_inv; [done..|]. by apply set_disk_inv.
    - destruct (applyDefaultNamespace msg ns); [by apply forward_inv|done]. }
  by destruct msg.
Qed.

Lemma resume_inv t k b w : tasks b !! t = Some k → waits_for k = Some w → bridge_inv None b →
  bridge_inv None (resume t k b).
Proof.
  intros Hk Hw Hb.
  assert (Ht : (t < started b)%nat).
  { destruct (decide (t < started b)%nat) as [?|Hge]; [done|]. rewrite (inv_fresh _ _ Hb) in Hk by lia. done. }
  assert (Hat : ∀ msg, carried (Some k) = Some msg → carries_at_most (tasks b !! t) msg)
    by (intros msg Hc m; rewrite Hk, Hc; congruence).
  destruct k as [msg w'|msg w'| |w'|id|w'|w'|]; cbn [resume]; try done.
  - eapply check_generation_inv; [done|by apply Hat| |exact Hb]. done.
  - eapply (post_inv t AfterSwap); [done|done|by apply Hat|done| |exact Hb]. done.
  - apply done_task_inv; [done|by rewrite Hk|done].
  - destruct (_ =? _)%nat; [apply done_task_inv; [done|by rewrite Hk|done]|].
    pose proof (reconnect_inv None true b Hb) as Hr. destruct (reconnect_frame true b) as (Htk & Hst & _).
    destruct (reconnect true b) as [b' w'']. cbn [fst] in *.
    apply done_task_inv; [by rewrite Hst|by rewrite Htk, Hk|done].
  - apply done_task_inv; [done|by rewrite Hk|done].
Qed.
Lemma posted_inv t status b : tasks b !! t = Some AwaitPost → bridge_inv None b → bridge_inv None (posted t status b).
Proof.
  intros Hk Hb.
  assert (Ht : (t < started b)%nat).
  { destruct (decide (t < started b)%nat) as [?|Hge]; [done|]. rewrite (inv_fresh _ _ Hb) in Hk by lia. done. }
  unfold posted. destruct status as [s|]; [destruct (s =? 404)|].
  - pose proof (reconnect_inv None false b Hb) as Hr. destruct (reconnect_frame false b) as (Htk & Hst & _).
    destruct (reconnect false b) as [b' w'']. cbn [fst] in *.
    apply done_task_inv; [by rewrite Hst|by rewrite Htk, Hk|done].
  - apply done_task_inv; [done|by rewrite Hk|done].
  - apply done_task_inv; [done|cbn; by rewrite Hk|]. by apply emit_inv.
Qed.

(** ** Reconnecting *)
Lemma open_uses c h st : openSseStream c h = Some st → openedWith st = c.
Proof.
  unfold openSseStream. repeat (destruct (negb _ || _) || destruct (negb _) || destruct (_ =? _); try done).
  all: destruct (endpoint_of _); naive_solver.
Qed.
Lemma replay_next_inv g c rest b : bridge_inv None (set_phase (Some (Replaying g c rest)) b) →
  bridge_inv None (replay_next g c rest b).
Proof.
  intros Hb. destruct (inv_phase _ _ Hb) as (Hg & Hc & Hrest).
  destruct rest as [|[id msg] rest]; cbn [replay_next].
  - assert (Hnone : ∀ m, ¬ to_replay (set_phase (Some (Replaying g c [])) b) m) by (intros m [i Hi]; set_solver).
    destruct (_ =? _)%nat.
    + apply (set_phase_inv None (Some Resolved)) in Hb; [done|done|right; intros m ?%Hnone; done].
    + apply abort_inv, try_open_inv in Hb; [done|by left].
  - assert (Hmsg : Received msg (accountId c) ∈ events b) by (apply (Hrest (id, msg)); left).
    apply (emit_inv None (Posted Replay (sse b) c msg)) in Hb; [|done|by split].
    apply (set_phase_inv None (Some (Replaying g c rest))) in Hb; [done| |].
    + split_and!; [done|done|]. intros kv Hkv. cbn. right. apply Hrest. by right.
    + right. intros m [i [[= -> ->]|Hi]%elem_of_cons]; [left; exists Replay, c; by left|right; by exists i].
Qed.
Lemma opened_inv g c h b : reconnectPromise b = Some (Opening g c) → bridge_inv None b → bridge_inv None (opened g c h b).
Proof.
  intros Hr Hb. assert (Hnone : ∀ m, ¬ to_replay b m) by (intros m; unfold to_replay; rewrite Hr; tauto).
  pose proof (inv_phase _ _ Hb) as Hph. unfold phase_ok in Hph. rewrite Hr in Hph. destruct Hph as [Hle Hcr].
  unfold opened. destruct (openSseStream c h) as [st|] eqn:Hopen;
    [|by apply set_phase_inv; [done|right; intros m ?%Hnone|]].
  assert (Hst : openedWith st = c) by by eapply open_uses.
  destruct (g =? credentialGeneration b)%nat eqn:Hg.
  - apply Nat.eqb_eq in Hg. specialize (Hcr Hg). subst c. cbv zeta. apply replay_next_inv.
    destruct Hb as [Ho Ha Hs Hp Hpo Hc Hf].
    split; cbn; [done|done|by rewrite Hg|by split_and!|done| |done].
    intros _ [i m] Hkv. right; right; right. exists i. done.
  - apply try_open_inv; [right; exact Hnone|]. by apply emit_inv.
Qed.

(** ** New credentials *)
Lemma refuse_all_frame m b : let b' := refuse_all m b in
  creds b' = creds b ∧ sse b' = sse b ∧ sseAborted b' = sseAborted b ∧
  reconnectPromise b' = reconnectPromise b ∧ credentialGeneration b' = credentialGeneration b ∧
  activeCredentialGeneration b' = activeCredentialGeneration b ∧ tasks b' = tasks b ∧ started b' = started b ∧
  events b ⊆ events b' ∧ (∀ e, e ∈ events b' → e ∈ events b ∨ ∃ v, e = Wrote v) ∧
  ∀ id, open_request id (events b') = negb (in_flight id m) && open_request id (events b).
Proof.
  revert b. induction m as [|[i msg] m IH]; intros b; [cbn; split_and!; try done; auto|].
  cbn [refuse_all]. specialize (IH (set_pending (inFlight b) (set_delete i (pendingListIds b))
    (emit (Wrote (account_changed_error i)) b))). cbv zeta in *.
  destruct IH as (-> & -> & -> & -> & -> & -> & -> & -> & Hsub & Hev & Hop). split_and!; try done.
  - intros e He. apply Hsub. by right.
  - intros e He. destruct (Hev e He) as [[->|?]%elem_of_cons|?]; [right; by eexists|by left|by right].
  - intros id. rewrite Hop. cbn [set_pending events emit open_request].
    change (jget "id" (account_changed_error i)) with i.
    unfold in_flight. cbn [existsb fst]. change (is_response (account_changed_error i)) with (true && negb (is_nothing i)).
    destruct (is_nothing i) eqn:Hn; cbn [negb andb].
    + rewrite (id_eqb_nothing id i Hn). by destruct (existsb _ m).
    + by destruct (existsb _ m), (id_eqb id i).
Qed.

Lemma adopt_inv c b : bridge_inv None b → bridge_inv None (adoptCredentials c b).
Proof.
  intros Hb. unfold adoptCredentials. cbv zeta.
  set (b1 := if seqb (accountId (creds b)) (accountId c) then b
             else set_pending [] (pendingListIds (refuse_all (inFlight b) (abort b))) (refuse_all (inFlight b) (abort b))).
  assert (Hb1 : bridge_inv None b1 ∧ (inFlight b1 = [] ∨ accountId (creds b1) = accountId c)).
  { subst b1. destruct (seqb _ _) eqn:Hacc; [split; [done|right; by apply seqb_eq]|]. split; [|by left].
    apply abort_inv in Hb. pose proof (refuse_all_frame (inFlight b) (abort b)) as Hfr. cbv zeta in Hfr.
    set (r := refuse_all (inFlight b) (abort b)) in *.
    destruct Hfr as (Hcr & Hsse & Hab & Hrp & Hcg & Hag & Htk & Hst & Hsub & Hev & Hop).
    destruct Hb as [Ho Ha Hs Hp Hpo Hc Hf].
    split; cbn [set_pending creds sse sseAborted reconnectPromise credentialGeneration activeCredentialGeneration
                inFlight tasks started events]; rewrite ?Hcr, ?Hsse, ?Hcg, ?Hag, ?Htk, ?Hst; try done.
    - intros id. rewrite Hop, <-Ho. cbn [abort inFlight]. by destruct (in_flight id (inFlight b)).
    - intros kv Hkv. set_solver.
    - by apply (phase_mono (abort b)).
    - intros e He. destruct (Hev e He) as [He'|[v ->]]; [|done]. by eapply post_ok_mono; [|apply Hpo].
    - intros _ kv Hkv. set_solver. }
  clearbody b1. clear Hb. destruct Hb1 as [Hb Hacc].
  assert (Hsw : bridge_inv None (new_task (swap c b1))).
  { apply new_task_inv. destruct Hb as [Ho Ha [Hs1 Hs2] Hp Hpo Hc Hf].
    split; cbn; [done| |split; [lia|lia]| |done|done|done].
    - destruct Hacc as [->|<-]; [intros kv Hkv; set_solver|done].
    - unfold phase_ok in *. cbn. destruct (reconnectPromise b1) as [[]|]; try done. destruct Hp. split; lia. }
  assert (Hfree : (started b1 < started (new_task (swap c b1)))%nat ∧
                  carried (tasks (new_task (swap c b1)) !! started b1) = None).
  { split; [cbn; lia|]. cbn. by rewrite (inv_fresh _ _ Hb). }
  pose proof (reconnect_inv None true _ Hsw) as Hr. destruct (reconnect_frame true (new_task (swap c b1))) as (Htk & Hst & _).
  destruct (reconnect true (new_task (swap c b1))) as [b2 w]. cbn [fst] in *.
  destruct Hfree as [Hlt Hcar]. apply done_task_inv; [by rewrite Hst|by rewrite Htk|done].
Qed.

(** ** The stream *)
Lemma jget_set_field k x fs k' :
  jget k' (JObj (set_field k x fs)) = if seqb k' k then x else jget k' (JObj fs).
Proof.
  cbn [jget]. induction fs as [|[k0 v0] fs IH]; simpl; [by destruct (seqb k' k)|].
  destruct (seqb k k0) eqn:Hk; simpl.
  - apply seqb_eq in Hk as ->. by destruct (seqb k' k0).
  - destruct (seqb k' k0) eqn:Hk'; [|done]. apply seqb_eq in Hk' as ->.
    apply seqb_neq in Hk. by rewrite (proj2 (seqb_neq k0 k)).
Qed.
Lemma splice_same v : is_response (splice_tools v) = is_response v ∧ jget "id" (splice_tools v) = jget "id" v.
Proof.
  destruct v as [| | | | | |fs]; try done. cbn [splice_tools].
  destruct (jget "result" (JObj fs)) as [| | | | | |rs] eqn:Hr; try done.
  destruct (jget "tools" (JObj rs)); try done. unfold is_response. rewrite !jget_set_field.
  change (seqb "result" "result") with true. change (seqb "error" "result") with false.
  change (seqb "id" "result") with false. cbn iota. by rewrite Hr.
Qed.
Lemma wrote_inv v m ids b : m = (if is_response v then map_delete (jget "id" v) (inFlight b) else inFlight b) →
  ∀ w, is_response w = is_response v → jget "id" w = jget "id" v →
  bridge_inv None b → bridge_inv None (emit (Wrote w) (set_pending m ids b)).
Proof.
  intros -> w Hw Hid [Ho Ha Hs Hp Hpo Hc Hf].
  assert (Hsub : events b ⊆ Wrote w :: events b) by set_solver.
  assert (Hin : ∀ kv, kv ∈ (if is_response v then map_delete (jget "id" v) (inFlight b) else inFlight b) → kv ∈ inFlight b)
    by (intros kv; destruct (is_response v); [apply map_delete_elem|done]).
  split; cbn; [| |done| | | |done].
  - intros id. rewrite Hw, Hid. destruct (is_response v); [|by rewrite Ho]. by rewrite in_flight_delete, Ho.
  - intros kv Hkv%Hin. right. by apply Ha.
  - by apply (phase_mono b); [reflexivity..|exact Hsub|exact Hp].
  - intros e [->|He]%elem_of_cons; [done|]. by eapply post_ok_mono; [|apply Hpo].
  - intros Hab kv Hkv%Hin. destruct (Hc Hab kv Hkv) as [?|?]; [by left|right]. by apply (covered_mono b).
Qed.
Lemma receive_inv v b : bridge_inv None b → bridge_inv None (receive v b).
Proof.
  intros Hb. unfold receive. cbv zeta. destruct (splice_same v) as [Hr Hi].
  destruct (_ && _); by eapply wrote_inv.
Qed.
Lemma stream_end_inv b : bridge_inv None b → bridge_inv None (stream_end b).
Proof.
  intros Hb. unfold stream_end. destruct (stdinClosed b); [by apply set_pump_inv|].
  pose proof (reconnect_inv None false b Hb) as Hr. destruct (reconnect false b). by apply set_pump_inv.
Qed.
Lemma stdin_end_inv b : bridge_inv None b → bridge_inv None (stdin_end b).
Proof. intros Hb%abort_inv. destruct Hb. by split. Qed.

(** ** Every step *)
Lemma bridge_step_inv ns l b b' : step ns l b = Some b' → bridge_inv None b → bridge_inv None b'.
Proof.
  intros Hstep Hb. destruct l as [u line| |t|t status|t url|c f| | |h| | |v| |]; cbn [step] in Hstep.
  - destruct (stdinClosed b); simplify_eq. by apply handleClientLine_inv.
  - destruct (stdinClosed b); simplify_eq. by apply stdin_end_inv.
  - destruct (tasks b !! t) as [k|] eqn:Hk; simpl in Hstep; [|done].
    destruct (waits_for k) as [w|] eqn:Hw; simpl in Hstep; [|done].
    destruct (resumable w b); simplify_eq. by eapply resume_inv.
  - destruct (tasks b !! t) as [[]|] eqn:Hk; simplify_eq. by apply posted_inv.
  - destruct (tasks b !! t) as [[]|] eqn:Hk; simplify_eq. unfold url_ready.
    destruct (handleLoginToolCall url). apply done_task_inv; [|cbn; by rewrite Hk|by apply emit_inv].
    destruct (decide (t < started b)%nat) as [?|Hge]; [done|]. rewrite (inv_fresh _ _ Hb) in Hk by lia. done.
  - destruct (logins b) as [|n]; simplify_eq. by apply adopt_inv, set_disk_inv, set_logins_inv.
  - destruct (logins b) as [|n]; simplify_eq. by apply set_logins_inv.
  - destruct (reconnectPromise b) as [[]|] eqn:Hr; simplify_eq. apply try_open_inv; [|done].
    right. intros m. unfold to_replay. rewrite Hr. tauto.
  - destruct (reconnectPromise b) as [[]|] eqn:Hr; simplify_eq. by apply opened_inv.
  - destruct (reconnectPromise b) as [[|g c|g c rest|]|] eqn:Hr; simplify_eq. apply replay_next_inv.
    replace (set_phase _ b) with b; [done|]. destruct b. cbn in *. by rewrite Hr.
  - destruct (reconnectPromise b) as [[]|] eqn:Hr; simplify_eq. apply set_phase_inv; [done| |done].
    right. intros m. unfold to_replay. rewrite Hr. tauto.
  - destruct (serverPump b); simplify_eq. by apply receive_inv.
  - destruct (serverPump b); simplify_eq. by apply stream_end_inv.
  - destruct (serverPump b) as [|w|]; try done. destruct (resumable w b); simplify_eq. by apply set_pump_inv.
Qed.
Lemma run_inv ns ls : ∀ b b', run ns ls b = Some b' → bridge_inv None b → bridge_inv None b'.
Proof.
  induction ls as [|l ls IH]; intros b b' Hr Hb; cbn in Hr; [by simplify_eq|].
  destruct (step ns l b) as [b1|] eqn:Hs; [|done]. eauto using bridge_step_inv.
Qed.
Lemma runBridge_inv ns c d h pending b : runBridge ns c d h pending = Some b → bridge_inv None b.
Proof.
  unfold runBridge. destruct (openSseStream c h) as [st|] eqn:Hopen; [|done]. intros [= <-].
  assert (Hst : openedWith st = c) by by eapply open_uses.
  pose proof (initial_bridge_inv c st d Hst) as Hi. revert Hi. generalize (initial c st d).
  induction pending as [|l ls IH]; intros b0 Hb0; [done|]. cbn [foldl]. by apply IH, handleClientLine_inv.
Qed.

(** ** What is forwarded

    A predicate on messages that holds of what the handlers forward holds of
    everything that is posted, however often it is sent again. *)
Section Forwarded.
Context (P : json → Prop).
Record forwards (b : bridge) : Prop := Forwards {
  fw_events : ∀ e, e ∈ events b → match e with Received m _ | Posted _ _ _ m => P m | _ => True end;
  fw_tasks : ∀ t m, carried (tasks b !! t) = Some m → P m;
}.

Lemma fw_emit e b : match e with Received m _ | Posted _ _ _ m => P m | _ => True end →
  forwards b → forwards (emit e b).
Proof. intros He [H1 H2]. split; [|done]. intros e' [->|?]%elem_of_cons; [done|by apply H1]. Qed.
Lemma fw_task t k b : (∀ m, carried (Some k) = Some m → P m) → forwards b → forwards (set_task t k b).
Proof.
  intros Hk [H1 H2]. split; [done|]. intros t' m. cbn. destruct (decide (t' = t)) as [->|Hne].
  - rewrite lookup_insert_eq. apply Hk.
  - rewrite lookup_insert_ne by done. apply H2.
Qed.
Lemma fw_same b b' : events b' = events b → tasks b' = tasks b → forwards b → forwards b'.
Proof. intros He Ht [H1 H2]. split; [by rewrite He|by rewrite Ht]. Qed.
Lemma fw_abort b : forwards b → forwards (abort b).
Proof. intros H. apply (fw_emit (Aborted (sse b))) in H; [|done]. destruct H. by split. Qed.
Lemma fw_reconnect im b : forwards b → forwards (reconnect im b).1.
Proof.
  intros H. unfold reconnect. destruct (stdinClosed b); [done|]. destruct (reconnectPromise b); [done|].
  apply fw_abort in H. cbv zeta. destruct (0 <? _); destruct H; by split.
Qed.
Lemma fw_post t src m b : P m → forwards b → forwards (post t src m b).
Proof. intros Hm H. apply fw_task; [done|]. by apply fw_emit. Qed.
Lemma fw_reconnect_task im t (k : wait → task) b : (∀ w m, carried (Some (k w)) = Some m → P m) →
  forwards b → forwards (let (b', w) := reconnect im b in set_task t (k w) b').
Proof.
  intros Hk H. apply (fw_reconnect im) in H. destruct (reconnect im b) as [b' w]. apply fw_task; [apply Hk|exact H].
Qed.
Lemma fw_check t m b : P m → forwards b → forwards (check_generation t m b).
Proof.
  intros Hm H. unfold check_generation. destruct (_ =? _)%nat; [by apply fw_post|].
  apply (fw_reconnect_task true t (AwaitSwap m)); [|done]. intros w m' [= <-]. done.
Qed.
Lemma fw_forward t m b : P m → forwards b → forwards (forward t m b).
Proof.
  intros Hm H. unfold forward. cbv zeta.
  assert (Htr : forwards (track m b)).
  { unfold track. cbv zeta. destruct (is_tracked m); [apply fw_emit; [done|]|]; by apply (fw_same b). }
  destruct (reconnectPromise _); [|by apply fw_check]. apply fw_task; [|done]. intros m' [= <-]. done.
Qed.
Lemma fw_refuse m b : forwards b → forwards (refuse_all m b).
Proof.
  revert b. induction m as [|[i x] m IH]; intros b H; [done|]. cbn [refuse_all]. apply IH.
  apply (fw_same (emit (Wrote (account_changed_error i)) b)); [done..|]. by apply fw_emit.
Qed.
Lemma fw_replay g c rest b : (∀ kv, kv ∈ rest → P kv.2) → forwards b → forwards (replay_next g c rest b).
Proof.
  intros Hr H. destruct rest as [|[i m] rest]; cbn [replay_next].
  - destruct (_ =? _)%nat; [by apply (fw_same b)|]. apply fw_abort in H. by apply (fw_same (abort b)).
  - apply (fw_same (emit (Posted Replay (sse b) c m) b)); [done..|]. apply fw_emit; [|done].
    apply (Hr (i, m)). by left.
Qed.
Lemma fw_received a m b : received_for a (events b) m → forwards b → ∀ kv, kv ∈ m → P kv.2.
Proof. intros Hm [H1 _] kv Hkv. apply (H1 _ (Hm kv Hkv)). Qed.

(** The predicate holds of what the handler makes of a line. *)
Context (ns : option string).
Hypothesis handled : ∀ msg msg', local_call msg = None → applyDefaultNamespace msg ns = Some msg' → P msg'.

Lemma fw_line u line b : forwards b → forwards (handleClientLine ns u line b).
Proof.
  intros H. unfold handleClientLine. cbv zeta. assert (Hn : forwards (new_task b)) by by apply (fw_same b).
  assert (Hdrop : forwards (set_task (started b) Finished (emit Dropped (new_task b))))
    by (apply fw_task; [done|by apply fw_emit]).
  destruct (json_parse line) as [msg|]; [|done].
  destruct (local_call msg) as [[]|] eqn:Hl.
  - destruct msg; try done; (apply fw_task; [done|]; by apply (fw_same (new_task b))).
  - destruct msg; try done; (apply fw_task; [done|]; apply fw_emit; [done|]; by apply (fw_same (new_task b))).
  - destruct (applyDefaultNamespace msg ns) as [msg'|] eqn:Hns; [|by destruct msg].
    assert (forwards (forward (started b) msg' (new_task b))) by (apply fw_forward; eauto). by destruct msg.
Qed.
Lemma fw_step l b b' : step ns l b = Some b' → bridge_inv None b → forwards b → forwards b'.
Proof.
  intros Hstep Hb H. destruct l as [u line| |t|t status|t url|c f| | |h| | |v| |]; cbn [step] in Hstep.
  - destruct (stdinClosed b); simplify_eq. by apply fw_line.
  - destruct (stdinClosed b); simplify_eq. apply fw_abort in H. by apply (fw_same (abort b)).
  - destruct (tasks b !! t) as [k|] eqn:Hk; simpl in Hstep; [|done].
    destruct (waits_for k) as [w|] eqn:Hw; simpl in Hstep; [|done].
    destruct (resumable w b); simplify_eq.
    assert (Hc : ∀ m, carried (Some k) = Some m → P m) by (intros m Hm; apply (fw_tasks _ H t); by rewrite Hk).
    destruct k as [m w'|m w'| |w'|id|w'|w'|]; cbn [resume]; try (by apply fw_task).
    + apply fw_check; [|done]. by apply Hc.
    + apply fw_post; [|done]. by apply Hc.
    + destruct (_ =? _)%nat; [by apply fw_task|]. by apply (fw_reconnect_task true t AdoptingAgain).
  - destruct (tasks b !! t) as [[]|]; simplify_eq. unfold posted. destruct status as [s|].
    + destruct (s =? 404); [by apply (fw_reconnect_task false t Await404)|by apply fw_task].
    + apply fw_task; [done|]. by apply fw_emit.
  - destruct (tasks b !! t) as [[]|]; simplify_eq. unfold url_ready. destruct (handleLoginToolCall url).
    apply fw_task; [done|]. by apply fw_emit.
  - destruct (logins b) as [|n]; simplify_eq. unfold adoptCredentials. cbv zeta.
    apply (fw_reconnect_task true _ Adopting); [done|].
    assert (H' : forwards (set_disk f (set_logins n b))) by by apply (fw_same b).
    destruct (seqb _ _); [by apply (fw_same (set_disk f (set_logins n b)))|].
    apply fw_abort in H'. apply (fw_refuse (inFlight (set_disk f (set_logins n b)))) in H'.
    by eapply fw_same; [..|exact H'].
  - destruct (logins b); simplify_eq. by apply (fw_same b).
  - destruct (reconnectPromise b) as [[]|]; simplify_eq. by apply (fw_same b).
  - destruct (reconnectPromise b) as [[|g c|g c rest|]|]; simplify_eq. unfold opened.
    destruct (openSseStream c h) as [st|]; [|by apply (fw_same b)]. destruct (_ =? _)%nat.
    + apply fw_replay; [|by apply (fw_same b)]. cbn. eapply fw_received; [apply (inv_account _ _ Hb)|done].
    + apply (fw_emit (Aborted st)) in H; [|done]. by apply (fw_same (emit (Aborted st) b)).
  - destruct (reconnectPromise b) as [[|g c|g c rest|]|] eqn:Hr; simplify_eq. apply fw_replay; [|done].
    pose proof (inv_phase _ _ Hb) as Hp. unfold phase_ok in Hp. rewrite Hr in Hp. destruct Hp as (_ & _ & Hp).
    by eapply fw_received.
  - destruct (reconnectPromise b) as [[]|]; simplify_eq. by apply (fw_same b).
  - destruct (serverPump b); simplify_eq. unfold receive. cbv zeta.
    destruct (_ && _); (apply fw_emit; [done|]); by apply (fw_same b).
  - destruct (serverPump b); simplify_eq. unfold stream_end. destruct (stdinClosed b); [by apply (fw_same b)|].
    pose proof (fw_reconnect false b H) as Hf. destruct (reconnect false b) as [b1 w]. by apply (fw_same b1).
  - destruct (serverPump b) as [|w|]; try done. destruct (resumable w b); simplify_eq. by apply (fw_same b).
Qed.
Lemma fw_run ls : ∀ b b', run ns ls b = Some b' → bridge_inv None b → forwards b → forwards b'.
Proof.
  induction ls as [|l ls IH]; intros b b' Hr Hb H; cbn in Hr; [by simplify_eq|].
  destruct (step ns l b) as [b1|] eqn:Hs; [|done]. simpl in Hr. eauto using bridge_step_inv, fw_step.
Qed.
Lemma fw_start c d h pending b : runBridge ns c d h pending = Some b → forwards b.
Proof.
  unfold runBridge. destruct (openSseStream c h) as [st|]; [|done]. intros [= <-].
  assert (Hi : forwards (initial c st d)) by (split; cbn; [set_solver|done]). revert Hi. generalize (initial c st d).
  induction pending as [|l ls IH]; intros b0 Hb0; [done|]. cbn [foldl]. by apply IH, fw_line.
Qed.
End Forwarded.

(** ** Who sends after waiting for a reconnect of its own

    Only a handler that resumes does. *)
Definition is_swap (e : event) : bool := match e with Posted AfterSwap _ _ _ => true | _ => false end.
Definition swap_posts (b : bridge) : list event := List.filter is_swap (events b).
Lemma swap_refuse m b : swap_posts (refuse_all m b) = swap_posts b.
Proof. revert b. induction m as [|[i x] m IH]; intros b; [done|]. cbn [refuse_all]. by rewrite IH. Qed.
Lemma swap_reconnect im b : swap_posts (reconnect im b).1 = swap_posts b.
Proof. unfold reconnect, try_open. by repeat (case_match; cbv zeta; cbn [fst]). Qed.
Lemma swap_reconnect_task im t (k : wait → task) b : swap_posts (let (b', w) := reconnect im b in set_task t (k w) b') = swap_posts b.
Proof. rewrite <-(swap_reconnect im b). by destruct (reconnect im b). Qed.
Lemma swap_check t m b : swap_posts (check_generation t m b) = swap_posts b.
Proof. unfold check_generation. case_match; [done|]. apply (swap_reconnect_task true t (AwaitSwap m)). Qed.
Lemma swap_forward t m b : swap_posts (forward t m b) = swap_posts b.
Proof.
  unfold forward. cbv zeta. assert (Ht : swap_posts (track m b) = swap_posts b) by (unfold track; by case_match).
  case_match; [done|]. by rewrite swap_check.
Qed.
Lemma swap_line ns u line b : swap_posts (handleClientLine ns u line b) = swap_posts b.
Proof.
  unfold handleClientLine. cbv zeta. destruct (json_parse line) as [msg|]; [|done].
  assert (Hf : ∀ m, swap_posts (forward (started b) m (new_task b)) = swap_posts b) by (intros m; by rewrite swap_forward).
  by destruct msg; repeat case_match.
Qed.
Lemma swap_replay g c rest b : swap_posts (replay_next g c rest b) = swap_posts b.
Proof. unfold replay_next, try_open. by repeat case_match. Qed.
Lemma swap_opened g c h b : swap_posts (opened g c h b) = swap_posts b.
Proof. unfold opened. case_match; [|done]. case_match; [|done]. cbv zeta. by rewrite swap_replay. Qed.
Lemma swap_adopt c b : swap_posts (adoptCredentials c b) = swap_posts b.
Proof.
  unfold adoptCredentials. cbv zeta. rewrite (swap_reconnect_task true _ Adopting).
  change (swap_posts (new_task (swap c ?x))) with (swap_posts x). case_match; [done|].
  change (swap_posts (set_pending ?m ?ids ?x)) with (swap_posts x). by rewrite swap_refuse.
Qed.
Lemma swap_resume t k b : swap_posts (resume t k b) =
  match k with AwaitSwap msg _ => Posted AfterSwap (sse b) (creds b) msg :: swap_posts b | _ => swap_posts b end.
Proof.
  destruct k; cbn [resume]; try done; [apply swap_check|]. case_match; [done|]. apply (swap_reconnect_task true t AdoptingAgain).
Qed.
Lemma swap_step ns l b b' : step ns l b = Some b' →
  swap_posts b' = swap_posts b ∨
  ∃ t msg w, l = Resume t ∧ tasks b !! t = Some (AwaitSwap msg w) ∧ swap_posts b' = Posted AfterSwap (sse b) (creds b) msg :: swap_posts b.
Proof.
  intros Hs. destruct l as [u line| |t|t status|t url|c f| | |h| | |v| |]; cbn [step] in Hs.
  - destruct (stdinClosed b); simplify_eq. left. apply swap_line.
  - destruct (stdinClosed b); simplify_eq. by left.
  - destruct (tasks b !! t) as [k|] eqn:Hk; cbn in Hs; [|done]. destruct (waits_for k); cbn in Hs; [|done].
    destruct (resumable _ b); simplify_eq. rewrite swap_resume. destruct k as [| msg w0 | | | | | |]; try by left. right. by exists t, msg, w0.
  - destruct (tasks b !! t) as [[]|]; simplify_eq. left. unfold posted. destruct status as [s|]; [|done]. destruct (s =? 404); [apply (swap_reconnect_task false t Await404)|done].
  - destruct (tasks b !! t) as [[]|]; simplify_eq. left. unfold url_ready. by case_match.
  - destruct (logins b); simplify_eq. left. by rewrite swap_adopt.
  - destruct (logins b); simplify_eq. by left.
  - destruct (reconnectPromise b) as [[]|]; simplify_eq. by left.
  - destruct (reconnectPromise b) as [[]|]; simplify_eq. left. apply swap_opened.
  - destruct (reconnectPromise b) as [[]|]; simplify_eq. left. apply swap_replay.
  - destruct (reconnectPromise b) as [[]|]; simplify_eq. by left.
  - destruct (serverPump b); simplify_eq. left. unfold receive. by repeat case_match.
  - destruct (serverPump b); simplify_eq. left. unfold stream_end. destruct (stdinClosed b); [done|].
    rewrite <-(swap_reconnect false b). by destruct (reconnect false b).
  - destruct (serverPump b); try done. destruct (resumable _ b); simplify_eq. by left.
Qed.
(** The moment at which such a message was sent. *)
Lemma swap_run ns ls st key msg : ∀ b b', run ns ls b = Some b' → Posted AfterSwap st key msg ∈ swap_posts b' →
  Posted AfterSwap st key msg ∈ swap_posts b ∨
  ∃ ls1 t ls2 b1 w, ls = ls1 ++ Resume t :: ls2 ∧ run ns ls1 b = Some b1 ∧ tasks b1 !! t = Some (AwaitSwap msg w) ∧
    st = sse b1 ∧ key = creds b1.
Proof.
  induction ls as [|l ls IH]; intros b b' Hr Hin; cbn in Hr; [simplify_eq; by left|].
  destruct (step ns l b) as [b1|] eqn:Hs; [|done]. cbn in Hr.
  destruct (IH b1 b' Hr Hin) as [Hin1|(ls1 & t & ls2 & b2 & w & -> & Hr1 & Hw)].
  - destruct (swap_step ns l b b1 Hs) as [E|(t & m & w & -> & Hk & E)]; rewrite E in Hin1; [by left|].
    apply elem_of_cons in Hin1 as [[= -> -> ->]|Hin1]; [|by left]. right. by exists [], t, ls, b, w.
  - right. exists (l :: ls1), t, ls2, b2, w. split; [done|]. split; [|done]. cbn. by rewrite Hs.
Qed.
Lemma swap_start ns c d h pending b : runBridge ns c d h pending = Some b → swap_posts b = [].
Proof.
  unfold runBridge. destruct (openSseStream c h) as [st|]; [|done]. intros [= <-].
  assert (Hi : swap_posts (initial c st d) = []) by done. revert Hi. generalize (initial c st d).
  induction pending as [|l ls IH]; intros b0 Hb0; [done|]. cbn [foldl]. apply IH. by rewrite swap_line.
Qed.

(** ** The default namespace *)
Lemma assign_get k x o o' k' : assign k x o = Some o' →
  match o with JObj _ => jget k' o' = if seqb k' k then x else jget k' o | _ => o' = o end.
Proof. destruct o; cbn [assign]; try done; intros [= <-]; [done|apply jget_set_field]. Qed.

(** A memory tool's call names a namespace: its own, or the default. *)
Definition namespaced (ns : option string) (msg : json) : Prop :=
  ∀ n name args, ns = Some n → is_empty n = false → is_text "tools/call" (jget "method" msg) = true →
    jget "name" (jget "params" msg) = JStr name → name ∈ NAMESPACE_TOOLS →
    jget "arguments" (jget "params" msg) = args →
    (∃ l, args = JArr l) ∨ jget "namespace" args = JStr n ∨
    string_is (λ s, negb (is_empty (trim s))) (jget "namespace" args) = true.

(** What a default namespace changes: only the arguments' namespace. *)
Lemma default_namespace_cases ns msg msg' : applyDefaultNamespace msg ns = Some msg' →
  msg' = msg ∧ namespaced ns msg ∨
  ∃ n fs ps args args', ns = Some n ∧ msg = JObj fs ∧ jget "params" msg = JObj ps ∧
    args = coalesce (jget "arguments" (JObj ps)) (JObj []) ∧ assign "namespace" (JStr n) args = Some args' ∧
    msg' = JObj (set_field "params" (JObj (set_field "arguments" args' ps)) fs).
Proof.
  unfold applyDefaultNamespace. destruct ns as [n|]; [|intros [= <-]; left; split; [done|by intros ???]].
  destruct (is_empty n) eqn:Hn; [intros [= <-]; left; split; [done|intros ?????; congruence]|].
  destruct (is_text _ _) eqn:Hm; cbn [negb]; [|intros [= <-]; left; split; [done|by intros ??????; congruence]].
  destruct (jget "name" _) as [| | | |name| |] eqn:Hname;
    try (intros [= <-]; left; split; [done|intros ??????? ?; congruence]).
  destruct (existsb (seqb name) NAMESPACE_TOOLS) eqn:Htool.
  2:{ intros [= <-]. left. split; [done|]. intros n' name' args [= <-] _ _ [= <-]%(eq_trans (eq_sym Hname)) Hin.
      exfalso. apply list_elem_of_In in Hin. apply not_true_iff_false in Htool. apply Htool, existsb_exists.
      exists name. split; [done|apply seqb_refl]. }
  destruct (jget "params" msg) as [| | | | | |ps] eqn:Hps; try done.
  destruct msg as [| | | | | |fs]; try done. cbv zeta.
  set (args := coalesce (jget "arguments" (JObj ps)) (JObj [])).
  destruct (string_is _ _) eqn:Hex.
  - intros [= <-]. left. split; [done|]. intros n' name' args' _ _ _ _ _ <-. right; right. rewrite Hps.
    unfold args in Hex. destruct (jget "arguments" (JObj ps)); done.
  - destruct (assign "namespace" (JStr n) args) as [args'|] eqn:Has; [|done]. cbn [mbind option_bind assign].
    intros [= <-]. right. by exists n, fs, ps, args, args'.
Qed.
Lemma handled_forward ns msg msg' : local_call msg = None → applyDefaultNamespace msg ns = Some msg' →
  local_call msg' = None ∧ namespaced ns msg'.
Proof.
  intros Hl [[-> ?]|(n & fs & ps & args & args' & -> & -> & Hps & -> & Has & ->)]%default_namespace_cases; [done|].
  split.
  - rewrite <-Hl. unfold local_call. rewrite !jget_set_field.
    change (seqb "method" "params") with false. change (seqb "id" "params") with false.
    change (seqb "params" "params") with true. cbn iota. rewrite Hps, jget_set_field. done.
  - intros n' name args [= <-] _ _ _ _. rewrite !jget_set_field. change (seqb "params" "params") with true.
    cbn iota. rewrite jget_set_field. change (seqb "arguments" "arguments") with true. cbn iota. intros <-.
    apply (assign_get _ _ _ _ "namespace") in Has as Hget.
    destruct (coalesce _ _); try done; [left; by eexists|right; left; exact Hget].
Qed.

(** ** The bridge *)
Section Bridge.
Context (ns : option string) (c : MemWalCredentials) (d : option file) (h : handshake)
  (pending : list string) (ls : list label) (b0 b : bridge).
Hypothesis Hstart : runBridge ns c d h pending = Some b0.
Hypothesis Hrun : run ns ls b0 = Some b.

(** Whatever the order of lines, reconnects, logins and messages, a
    request is in flight exactly if it was received and not answered since;
    while a session is live, every request in flight was sent on it, waits
    in its handler, or is about to be sent again. *)
Theorem bridge_requests_accounted :
  (∀ id, in_flight id (inFlight b) = open_request id (events b)) ∧
  (sseAborted b = false → ∀ id msg, (id, msg) ∈ inFlight b → covered b msg).
Proof.
  pose proof (run_inv _ _ _ _ Hrun (runBridge_inv _ _ _ _ _ _ Hstart)) as Hb. split; [apply (inv_open _ _ Hb)|].
  intros Hab id msg Hin. by destruct (inv_covered _ _ Hb Hab _ Hin).
Qed.

(** C13: A session is used with the credentials that opened it, with one
    exception: a handler that has waited for a reconnect of its own does not
    look again, and when that reconnect did not bring a session of the latest
    credentials, it sends its message to the session there is with the
    credentials of the moment.  A reconnect sends a request again only to the
    account it was received for; calls of the local tools are never
    forwarded, and a memory tool always names a namespace. *)
Theorem bridge_accounts_kept (src : source) (st : stream) (key : MemWalCredentials) (msg : json) :
  Posted src st key msg ∈ events b →
  (openedWith st = key ∨
   src = AfterSwap ∧ ∃ ls1 t ls2 b1 w,
     ls = ls1 ++ Resume t :: ls2 ∧ run ns ls1 b0 = Some b1 ∧ tasks b1 !! t = Some (AwaitSwap msg w) ∧
     st = sse b1 ∧ key = creds b1 ∧ (activeCredentialGeneration b1 < credentialGeneration b1)%nat) ∧
  (src = Replay → openedWith st = key ∧ Received msg (accountId key) ∈ events b) ∧
  local_call msg = None ∧ namespaced ns msg.
Proof.
  intros Hp. pose proof (runBridge_inv _ _ _ _ _ _ Hstart) as H0. pose proof (run_inv _ _ _ _ Hrun H0) as Hb.
  destruct (inv_posts _ _ Hb _ Hp) as [H1 H2].
  assert (Hf : forwards (λ m, local_call m = None ∧ namespaced ns m) b).
  { eapply fw_run; [apply handled_forward|exact Hrun|by eapply runBridge_inv|].
    eapply fw_start; [apply handled_forward|exact Hstart]. }
  destruct (fw_events _ _ Hf _ Hp) as [Hl Hn]. split; [|split; [intros ->; split; [by apply H1|by apply H2]|done]].
  destruct src; [left; by apply H1| |left; by apply H1].
  assert (Hin : Posted AfterSwap st key msg ∈ swap_posts b) by (apply list_elem_of_In, filter_In; split; [by apply list_elem_of_In|done]).
  destruct (swap_run ns ls st key msg b0 b Hrun Hin) as [Hno|(ls1 & t & ls2 & b1 & w & E & Hr1 & Hk & -> & ->)].
  - rewrite (swap_start _ _ _ _ _ _ Hstart) in Hno. by apply elem_of_nil in Hno.
  - destruct (inv_session _ _ (run_inv _ _ _ _ Hr1 H0)) as [Hle Hsame].
    destruct (decide (activeCredentialGeneration b1 = credentialGeneration b1)) as [Heq|Hne]; [left; by apply Hsame|right].
    split; [done|]. exists ls1, t, ls2, b1, w. split_and!; [done..|lia].
Qed.
End Bridge.
