(* ===== verification/McpMain.v ===== *)
(** * The MCP bridge's entry point (packages/mcp/src/index.ts, compatibility.ts)

    Command-line flags, the choice between status, login, auth-required
    server and bridge, and the relayer compatibility check with its cache. *)
From Stdlib Require Import QArith Ascii.
From S2P Require Import Prelude JsText JsNumber JsonParse Compat Config LineReader McpCreds AuthRequired McpLogin Bridge.
Local Open Scope Z_scope.

(** ** [parseArgs] *)
Record ParsedArgs : Type := Args {
  a_help : bool;
  a_logout : bool;
  a_forceLogin : bool;
  a_relayerUrl : option string;
  a_webUrl : option string;
  a_label : option string;
  a_namespace : option string;
}.
Definition no_args : ParsedArgs := Args false false false None None None None.

(** [ENV_PRESETS]: relayer and web URL *)
Definition ENV_PRESETS : list (string * (string * string)) :=
  [("prod", ("https://relayer.memory.walrus.xyz", "https://memory.walrus.xyz"));
   ("dev", ("https://relayer.dev.memwal.ai", "https://dev.memwal.ai"));
   ("staging", ("https://relayer-staging.memory.walrus.xyz", "https://staging.memory.walrus.xyz"));
   ("local", ("http://127.0.0.1:8000", "http://localhost:5173"))].

Definition set_relayer (v : option string) (o : ParsedArgs) : ParsedArgs :=
  Args (a_help o) (a_logout o) (a_forceLogin o) v (a_webUrl o) (a_label o) (a_namespace o).
Definition set_web (v : option string) (o : ParsedArgs) : ParsedArgs :=
  Args (a_help o) (a_logout o) (a_forceLogin o) (a_relayerUrl o) v (a_label o) (a_namespace o).
Definition set_label (v : option string) (o : ParsedArgs) : ParsedArgs :=
  Args (a_help o) (a_logout o) (a_forceLogin o) (a_relayerUrl o) (a_webUrl o) v (a_namespace o).
Definition set_ns (v : option string) (o : ParsedArgs) : ParsedArgs :=
  Args (a_help o) (a_logout o) (a_forceLogin o) (a_relayerUrl o) (a_webUrl o) (a_label o) v.
Definition or_else (o : option string) (v : string) : option string :=
  match o with Some _ => o | None => Some v end.

(** [a.split("=", 2)[1]]: what stands between the first two equal signs. *)
Fixpoint until_char (n : N) (l : list ascii) : list ascii :=
  match l with [] => [] | c :: l' => if is_char n c then [] else c :: until_char n l' end.
Definition split_value (flag a : string) : option string := Some (of_chars (until_char 61 (chars (drop_s (slen flag) a)))).

Definition long_form (a : string) (o : ParsedArgs) : ParsedArgs :=
  if starts_with "--relayer=" a then set_relayer (split_value "--relayer=" a) o
  else if starts_with "--web-url=" a then set_web (split_value "--web-url=" a) o
  else if starts_with "--label=" a then set_label (split_value "--label=" a) o
  else if starts_with "--namespace=" a then set_ns (split_value "--namespace=" a) o
  else if starts_with "--ns=" a then set_ns (split_value "--ns=" a) o
  else o.
Definition one_of (l : list string) (a : string) : bool := existsb (seqb a) l.

(** The flags that take the next argument. *)
Definition takes_next (a : string) : option (option string → ParsedArgs → ParsedArgs) :=
  if one_of ["--relayer"; "--relayer-url"] a then Some set_relayer
  else if one_of ["--web-url"; "--web"] a then Some set_web
  else if one_of ["--label"] a then Some set_label
  else if one_of ["--namespace"; "--ns"] a then Some set_ns
  else None.
Definition simple_flag (a : string) (o : ParsedArgs) : ParsedArgs :=
  if one_of ["--help"; "-h"] a then
    Args true (a_logout o) (a_forceLogin o) (a_relayerUrl o) (a_webUrl o) (a_label o) (a_namespace o)
  else if one_of ["--logout"] a then
    Args (a_help o) true (a_forceLogin o) (a_relayerUrl o) (a_webUrl o) (a_label o) (a_namespace o)
  else if one_of ["--login"; "login"] a then
    Args (a_help o) (a_logout o) true (a_relayerUrl o) (a_webUrl o) (a_label o) (a_namespace o)
  else if one_of ["--prod"; "--dev"; "--staging"; "--local"] a then
    match assoc (drop_s 2 a) ENV_PRESETS with
    | Some (relayer, web) =>
        set_web (or_else (a_webUrl o) web) (set_relayer (or_else (a_relayerUrl o) relayer) o)
    | None => o
    end
  else long_form a o.
Fixpoint parse_args (argv : list string) (o : ParsedArgs) : ParsedArgs :=
  match argv with
  | [] => o
  | a :: rest =>
      match takes_next a with
      | Some set =>
          match rest with
          | v :: rest' => parse_args rest' (set (Some v) o)
          | [] => set None o
          end
      | None => parse_args rest (simple_flag a o)
      end
  end.
Definition parseArgs (argv : list string) : ParsedArgs := parse_args argv no_args.

(** ** [main] *)
Definition coalesce_text (os : list (option string)) (fallback : string) : string :=
  foldr (λ o d, match o with Some s => s | None => d end) fallback os.
Definition main_config (args : ParsedArgs) (env : Config.env) : AuthRequired.Config :=
  MkConfig (coalesce_text [a_relayerUrl args; env "MEMWAL_SERVER_URL"] "https://relayer.memory.walrus.xyz")
           (coalesce_text [a_webUrl args; env "MEMWAL_WEB_URL"] "https://memory.walrus.xyz")
           (coalesce_text [a_label args; env "MEMWAL_CLIENT_LABEL"] "MCP Client")
           (match a_namespace args with Some n => Some n | None => env "MEMWAL_NAMESPACE" end).

(** [{ ...creds, relayerUrl }] *)
Definition with_relayer (url : string) (c : MemWalCredentials) : MemWalCredentials :=
  Creds (delegatePrivateKey c) (delegatePublicKeyHex c) (delegateAddress c) (walletAddress c) (accountId c)
        (packageId c) url (McpCreds.label c) (createdAt c).
Definition override_relayer (args : ParsedArgs) (c : MemWalCredentials) : MemWalCredentials :=
  match a_relayerUrl args with
  | Some url => if negb (is_empty url) && negb (seqb (relayerUrl c) url) then with_relayer url c else c
  | None => c
  end.

Inductive outcome : Type :=
| HelpShown | SignedOut
| LoginFailedWith (e : login_error)
| StatusShown (c : MemWalCredentials) (wasLoggedIn : bool)
| BridgeRun (c : MemWalCredentials) (cfg : AuthRequired.Config) (pendingLines : list string)
| StdinClosed (out : list answer)
| ServerCrashed (out : list answer).

Section Main.
(** The listener at the end of a login, from its options and the disk before. *)
Context (loginFlow : LoginOptions → option file → listener).

(** The credentials file after the call, and what came of it.  [input]: the
    chunks on stdin, with the disk each of them finds. *)
Definition main (argv : list string) (env : Config.env) (isTTY unlinks : bool) (disk : option file)
    (input : list (option file * string)) : option file * outcome :=
  let args := parseArgs argv in
  if a_help args then (disk, HelpShown) else
  if a_logout args then (clearCreds unlinks disk, SignedOut) else
  let disk := if a_forceLogin args then clearCreds unlinks disk else disk in
  let cfg := main_config args env in
  match loadCreds disk with
  | Some saved =>
      let c := override_relayer args saved in
      (disk, if isTTY then StatusShown c true else BridgeRun c cfg [])
  | None =>
      if negb isTTY then
        (disk, match runAuthRequiredServer [] input with
               | Handed _ h _ _ => BridgeRun (h_creds h) cfg (h_pendingLines h)
               | Closed out => StdinClosed out
               | Crashed out => ServerCrashed out
               end)
      else
        let l := loginFlow (Options (cfg_webUrl cfg) (cfg_relayerUrl cfg) (cfg_label cfg) (5 * 60000)) disk in
        (McpLogin.disk l,
         match McpLogin.result l with inr c => StatusShown c false | inl e => LoginFailedWith e end)
  end.

(** The relayer flag acts on one process: the file is as it was found, or the
    login's; the bridge uses the saved credentials, but for the relayer. *)
Theorem main_keeps_saved (argv : list string) (env : Config.env) (isTTY unlinks : bool)
    (disk disk' : option file) (input : list (option file * string))
    (c : MemWalCredentials) (cfg : AuthRequired.Config) (pendingLines : list string) :
  main argv env isTTY unlinks disk input = (disk', BridgeRun c cfg pendingLines) →
  disk' = (if a_forceLogin (parseArgs argv) then clearCreds unlinks disk else disk) ∧
  ((∃ saved, loadCreds disk' = Some saved ∧ pendingLines = [] ∧
      with_relayer empty_str c = with_relayer empty_str saved ∧
      (relayerUrl c = relayerUrl saved ∨ a_relayerUrl (parseArgs argv) = Some (relayerUrl c))) ∨
   loadCreds disk' = None ∧ ∃ found, found ∈ input.*1 ∧ loadCreds found = Some c).
Proof.
  unfold main. destruct (a_help _); [done|]. destruct (a_logout _); [done|]. cbv zeta.
  set (d := if a_forceLogin _ then _ else _). destruct (loadCreds d) as [saved|] eqn:Hl.
  - intros [= <- H]. split; [done|]. left. exists saved. split; [done|]. destruct isTTY; [done|].
    injection H as <- _ <-. split; [done|]. unfold override_relayer.
    destruct (a_relayerUrl _) as [url|]; [|by split; [|left]].
    destruct (_ && _); [split; [done|by right]|by split; [|left]].
  - destruct isTTY; cbn [negb]; [destruct (McpLogin.result _); done|].
    destruct (runAuthRequiredServer [] input) as [|out h lost unread|] eqn:Hrun; [done| |done].
    intros [= <- <- _ _]. split; [done|]. right. split; [done|].
    by destruct (handoff_keeps_lines _ _ _ _ _ _ Hrun) as (served & _ & _ & Hd & _).
Qed.
End Main.

(** Two divergent flags: a URL with an equal sign is cut; the preset gives
    way to an explicit flag on either side. *)
Lemma equal_sign_cut :
  a_relayerUrl (parseArgs ["--relayer=https://relay.example/?tenant=a"]) = Some "https://relay.example/?tenant".
Proof. reflexivity. Qed.
Lemma explicit_beats_preset :
  map (λ argv, a_relayerUrl (parseArgs argv)) [["--dev"; "--relayer"; "https://r"]; ["--relayer"; "https://r"; "--dev"]] =
  [Some "https://r"; Some "https://r"].
Proof. reflexivity. Qed.

(** ** compatibility.ts *)
Definition MEMWAL_MCP_COMPATIBILITY_VERSION : string := "0.0.1".

Definition assertCompatible (metadata : json) : Compat.compat_error + unit :=
  let apiVersion := jget "apiVersion" metadata in
  let minSupportedSdk := jget "minSupportedSdk" metadata in
  guard_or negb (negb (truthy apiVersion) || negb (truthy (jget "relayerVersion" metadata)) ||
                 negb (truthy minSupportedSdk) || negb (Compat.is_object minSupportedSdk)) else Compat.NoMetadata;
  match apiVersion with
  | JStr api =>
      match Compat.semverMajor api with
      | None => inl Compat.InvalidApiVersion
      | Some apiMajor =>
          guard_or (apiMajor =? Compat.SUPPORTED_RELAYER_API_MAJOR) else Compat.UnsupportedApiMajor;
          let minMcp := jget "mcp" minSupportedSdk in
          guard_or truthy minMcp else Compat.NoMinSdk;
          match minMcp with
          | JStr minMcp =>
              match Compat.semverMajor minMcp with
              | None => inl Compat.InvalidMinSdk
              | Some _ =>
                  match Compat.compareSemver MEMWAL_MCP_COMPATIBILITY_VERSION minMcp with
                  | None => inl Compat.InvalidComparison
                  | Some c => guard_or negb (c <? 0) else Compat.SdkTooOld; inr tt
                  end
              end
          | _ => inl Compat.NotAString
          end
      end
  | _ => inl Compat.NotAString
  end.

(** An answer to a GET: its status and its JSON, [None] when the body is none. *)
Record reply_json : Type := ReplyJson { rj_status : Z; rj_json : option json }.
Definition rj_ok (r : reply_json) : bool := (200 <=? rj_status r) && (rj_status r <=? 299).
Inductive check_error : Type :=
| Unreachable (version : Z) (health : option Z)
| NoJson
| Incompatible (e : Compat.compat_error).

Definition metadata_of (version health : reply_json) : check_error + json :=
  let body r := match rj_json r with Some v => inr v | None => inl NoJson end in
  if rj_ok version then body version
  else if (rj_status version =? 404) || (rj_status version =? 405) then
    if rj_ok health then body health else inl (Unreachable (rj_status version) (Some (rj_status health)))
  else inl (Unreachable (rj_status version) None).
Definition fetchAndValidate (version health : reply_json) : check_error + json :=
  match metadata_of version health with
  | inl e => inl e
  | inr m => match assertCompatible m with inl e => inl (Incompatible e) | inr _ => inr m end
  end.

(** The module's variables: the cached metadata and its relayer, and the
    relayer of the check under way. *)
Record compatibility : Type := Compatibility {
  compatibilityCache : option (json * string);
  compatibilityPromise : option string;
}.
Inductive ensured : Type :=
| Passed                      (** from the cache *)
| Waiting (base : string).    (** for the check of [base] *)
Definition ensureCompatibleRelayer (relayerUrl : string) (s : compatibility) : compatibility * ensured :=
  let base := strip_slashes relayerUrl in
  if match compatibilityCache s with Some (m, url) => truthy m && seqb url base | None => false end then (s, Passed)
  else match compatibilityPromise s with
       | Some b => (s, Waiting b)
       | None => (Compatibility (compatibilityCache s) (Some base), Waiting base)
       end.
Definition settle_check (version health : reply_json) (s : compatibility) : compatibility * (check_error + unit) :=
  match compatibilityPromise s with
  | None => (s, inr tt)
  | Some base =>
      match fetchAndValidate version health with
      | inl e => (Compatibility (compatibilityCache s) None, inl e)
      | inr m => (Compatibility (Some (m, base)) None, inr tt)
      end
  end.

(** Without another check under way, a call is answered for its own relayer:
    the one the cache was filled for, or the one it asks. *)
Lemma ensure_own (url : string) (s : compatibility) : compatibilityPromise s = None →
  (ensureCompatibleRelayer url s).2 = Waiting (strip_slashes url) ∨
  (ensureCompatibleRelayer url s).2 = Passed ∧ ∃ m, compatibilityCache s = Some (m, strip_slashes url).
Proof.
  intros Hp. unfold ensureCompatibleRelayer. rewrite Hp. destruct (compatibilityCache s) as [[m u]|]; [|by left].
  destruct (truthy m && seqb u (strip_slashes url)) eqn:E; [right|by left].
  apply andb_true_iff in E as [_ ->%seqb_eq]. split; [done|by eexists].
Qed.
(** The promise under way is shared whatever relayer it is about. *)
Lemma ensure_shares_promise (url other : string) : seqb (strip_slashes url) (strip_slashes other) = false →
  (ensureCompatibleRelayer url (ensureCompatibleRelayer other (Compatibility None None)).1).2 =
  Waiting (strip_slashes other).
Proof. done. Qed.
