(* ===== verification/SingleFlight.v ===== *)
(** * One load in flight, shared by its callers

    [promise ??= load().finally(() => { promise = undefined })], the idiom
    of [executionIdentity] (routes/health.ts), [getWalletBalanceSnapshot] and
    [getWalCoinType] (sidecar/clients.ts), as a step relation between the
    points where the event loop may switch: a caller asks, or the running
    load settles.  A policy says what a settled load leaves behind. *)
From S2P Require Import Prelude.
Local Open Scope Z_scope.

(** [retain]: a fulfilled promise stays in the variable ([.catch] clears it,
    not [.finally]).  [ttl]: the value is also cached for so many ms. *)
Record policy : Type := Policy { retain : bool; ttl : option Z }.
Definition readiness_policy : policy := Policy false (Some 30000).
Definition balance_policy : policy := Policy false None.
Definition wal_type_policy : policy := Policy true None.

Section SingleFlight.
Context {E R : Type} (p : policy).

(** Loads and callers are numbered; [asked], [finished] and [answers] record
    what happened: when a caller asked, when and how a load settled, and
    which load's result a caller got. *)
Inductive promise : Type := Pending (load : nat) | Fulfilled (load : nat) (v : R).
Record flight : Type := Flight {
  variable : option promise;
  cached : option (nat * R * Z);
  now : Z;
  started : nat;
  waiting : gmap nat nat;
  asked : gmap nat Z;
  finished : gmap nat (Z * (E + R));
  answers : gmap nat (nat * (E + R));
}.
Definition initial (t : Z) : flight := Flight None None t 0 ∅ ∅ ∅ ∅.

(** The cached value, while [Date.now() - checkedAtMs < ttl]. *)
Definition fresh_cache (s : flight) : option (nat * R) :=
  match ttl p, cached s with
  | Some ms, Some (l, v, checkedAtMs) => if now s - checkedAtMs <? ms then Some (l, v) else None
  | _, _ => None
  end.

Definition answer (c l : nat) (r : E + R) (s : flight) : flight :=
  Flight (variable s) (cached s) (now s) (started s) (waiting s) (<[c := now s]> (asked s)) (finished s)
         (<[c := (l, r)]> (answers s)).
Definition wait_for (c l : nat) (s : flight) : flight :=
  Flight (variable s) (cached s) (now s) (started s) (<[c := l]> (waiting s)) (<[c := now s]> (asked s))
         (finished s) (answers s).
Definition start_load (s : flight) : flight :=
  Flight (Some (Pending (started s))) (cached s) (now s) (S (started s)) (waiting s) (asked s) (finished s)
         (answers s).

(** A call by the caller [c]. *)
Definition ask_for (c : nat) (s : flight) : flight :=
  match fresh_cache s with
  | Some (l, v) => answer c l (inr v) s
  | None =>
      match variable s with
      | Some (Fulfilled l v) => answer c l (inr v) s
      | Some (Pending l) => wait_for c l s
      | None => wait_for c (started s) (start_load s)
      end
  end.

(** The load [l] settles: the variable is cleared or kept, a value cached, and
    every caller of the promise resumes. *)
Definition kept (l : nat) (r : E + R) : option promise :=
  match r with inr v => if retain p then Some (Fulfilled l v) else None | inl _ => None end.
Definition new_cache (l : nat) (r : E + R) (s : flight) : option (nat * R * Z) :=
  match r, ttl p with inr v, Some _ => Some (l, v, now s) | _, _ => cached s end.
Definition settle (l : nat) (r : E + R) (s : flight) : flight :=
  Flight (kept l r) (new_cache l r s) (now s) (started s) ∅ (asked s) (<[l := (now s, r)]> (finished s))
         (((λ k, (k, r)) <$> waiting s) ∪ answers s).
Definition pass (d : Z) (s : flight) : flight :=
  Flight (variable s) (cached s) (now s + d) (started s) (waiting s) (asked s) (finished s) (answers s).

Inductive step : flight → flight → Prop :=
| Ask c s : asked s !! c = None → step s (ask_for c s)
| Settle l r s : variable s = Some (Pending l) → step s (settle l r s)
| Pass d s : 0 <= d → step s (pass d s).
Inductive reachable (t : Z) : flight → Prop :=
| reachable_initial : reachable t (initial t)
| reachable_step s s' : reachable t s → step s s' → reachable t s'.

(** ** What the callers are promised *)

(** The result of a load is good for a caller that asked at [τ]: the load was
    not over by then, or it succeeded and its value was kept or is young. *)
Definition good_for (τ φ : Z) (r : E + R) : Prop :=
  τ <= φ ∨ is_inl r = false ∧ (retain p = true ∨ ∃ ms, ttl p = Some ms ∧ τ - φ < ms).

Definition answers_good (s : flight) : Prop := ∀ c l r, answers s !! c = Some (l, r) →
  ∃ τ φ, asked s !! c = Some τ ∧ finished s !! l = Some (φ, r) ∧ good_for τ φ r.
(** Whoever waits, waits for the load that is running. *)
Definition waiters_served (s : flight) : Prop := ∀ c l, waiting s !! c = Some l →
  variable s = Some (Pending l) ∧ (∃ τ, asked s !! c = Some τ ∧ τ <= now s) ∧ answers s !! c = None.
(** At most one load runs: all but the pending one have settled. *)
Definition one_load (s : flight) : Prop :=
  (∀ l, is_Some (finished s !! l) ↔ (l < started s)%nat ∧ variable s ≠ Some (Pending l)) ∧
  (∀ l, variable s = Some (Pending l) → l = pred (started s) ∧ (0 < started s)%nat).
(** What is kept is what a load returned. *)
Definition kept_backed (s : flight) : Prop :=
  (∀ l v, variable s = Some (Fulfilled l v) → retain p = true ∧ ∃ φ, finished s !! l = Some (φ, inr v)) ∧
  (∀ l v φ, cached s = Some (l, v, φ) → finished s !! l = Some (φ, inr v)).
(** Nobody is forgotten. *)
Definition all_known (s : flight) : Prop := ∀ c, is_Some (asked s !! c) ↔ is_Some (waiting s !! c) ∨ is_Some (answers s !! c).

Record flight_inv (s : flight) : Prop := FlightInv {
  inv_answers : answers_good s;
  inv_waiters : waiters_served s;
  inv_loads : one_load s;
  inv_kept : kept_backed s;
  inv_known : all_known s;
}.

Lemma flights_initial_inv t : flight_inv (initial t).
Proof. split; repeat intro; try split; set_solver by (rewrite ?lookup_empty in *; naive_solver lia). Qed.

(** An answer to a new caller from what is kept. *)
Lemma answer_inv c l r φ s : flight_inv s → asked s !! c = None → finished s !! l = Some (φ, r) →
  good_for (now s) φ r → flight_inv (answer c l r s).
Proof.
  intros [Ha Hw Hl Hk Hn] Hc Hf Hg.
  assert (Hwait : waiting s !! c = None).
  { apply eq_None_not_Some. intros Hs. assert (is_Some (asked s !! c)) as [? ?] by (apply Hn; auto). congruence. }
  split; [| |exact Hl|exact Hk|].
  - intros c' l' r' H. cbn in *. destruct (decide (c = c')) as [->|Hne].
    + rewrite lookup_insert_eq in H. simplify_eq. exists (now s), φ. by rewrite lookup_insert_eq.
    + rewrite lookup_insert_ne in H by done. destruct (Ha _ _ _ H) as (τ & φ' & ? & ?). exists τ, φ'.
      by rewrite lookup_insert_ne.
  - intros c' l' H. cbn in *. assert (c ≠ c') by congruence. rewrite !lookup_insert_ne by done. by apply Hw.
  - intros c'. cbn. destruct (decide (c = c')) as [->|Hne].
    + rewrite !lookup_insert_eq. split; [intros _; right; by eexists|intros _; by eexists].
    + rewrite !lookup_insert_ne by done. apply Hn.
Qed.

(** A new caller joins the running load. *)
Lemma wait_inv c l s : flight_inv s → asked s !! c = None → variable s = Some (Pending l) → flight_inv (wait_for c l s).
Proof.
  intros [Ha Hw Hl Hk Hn] Hc Hv. assert (Hans : answers s !! c = None).
  { apply eq_None_not_Some. intros Hs. assert (is_Some (asked s !! c)) as [? ?] by (apply Hn; auto). congruence. }
  split; [| |exact Hl|exact Hk|].
  - intros c' l' r' H. cbn in *. assert (c ≠ c') by congruence. rewrite lookup_insert_ne by done. by apply Ha.
  - intros c' l' H. cbn in *. destruct (decide (c = c')) as [->|Hne].
    + rewrite lookup_insert_eq in H. simplify_eq. split_and!; [done| |done]. exists (now s).
      rewrite lookup_insert_eq. split; [done|lia].
    + rewrite !lookup_insert_ne in * by done. by apply Hw.
  - intros c'. cbn. destruct (decide (c = c')) as [->|Hne].
    + rewrite !lookup_insert_eq. split; [intros _; left; by eexists|intros _; by eexists].
    + rewrite !lookup_insert_ne by done. apply Hn.
Qed.

Lemma flights_start_inv s : flight_inv s → variable s = None → flight_inv (start_load s).
Proof.
  intros [Ha Hw [Hl1 Hl2] [Hk1 Hk2] Hn] Hv. split; [exact Ha| | | |exact Hn].
  - intros c l H. cbn in H. destruct (Hw _ _ H) as [? _]. congruence.
  - split; cbn; [|intros l [= <-]; split; [done|lia]]. intros l. rewrite Hl1, Hv. split.
    + intros [? _]. split; [lia|]. intros [= Heq]. lia.
    + intros [? Hne]. split; [|done]. destruct (decide (l = started s)) as [->|]; [done|lia].
  - split; cbn; [done|exact Hk2].
Qed.

Lemma fresh_cache_good s l v : flight_inv s → fresh_cache s = Some (l, v) →
  ∃ φ, finished s !! l = Some (φ, inr v) ∧ good_for (now s) φ (inr v).
Proof.
  intros Hs. unfold fresh_cache. destruct (ttl p) as [ms|] eqn:Et; [|done].
  destruct (cached s) as [[[l' v'] φ]|] eqn:Ec; [|done]. case_match eqn:Hlt; [|done]. intros [= -> ->].
  exists φ. split; [by apply (inv_kept _ Hs)|]. right. split; [done|]. right. exists ms. split; [done|lia].
Qed.

Lemma ask_inv c s : flight_inv s → asked s !! c = None → flight_inv (ask_for c s).
Proof.
  intros Hs Hc. unfold ask_for. destruct (fresh_cache s) as [[l v]|] eqn:Hf.
  - destruct (fresh_cache_good _ _ _ Hs Hf) as (φ & ? & ?). by eapply answer_inv.
  - destruct (variable s) as [[l|l v]|] eqn:Hv; [by apply wait_inv| |].
    + destruct (proj1 (inv_kept _ Hs) _ _ Hv) as (Hr & φ & Hφ). eapply answer_inv; [done..|].
      right. by auto.
    + apply wait_inv; [by apply flights_start_inv|done|done].
Qed.

Lemma settle_inv l r s : flight_inv s → variable s = Some (Pending l) → flight_inv (settle l r s).
Proof.
  intros [Ha Hw [Hl1 Hl2] [Hk1 Hk2] Hn] Hv. destruct (Hl2 _ Hv) as [Hl Hpos].
  assert (Hfin : finished s !! l = None).
  { apply eq_None_not_Some. rewrite Hl1. naive_solver. }
  assert (Hold : ∀ l' x, finished s !! l' = Some x → (<[l := (now s, r)]> (finished s)) !! l' = Some x).
  { intros l' x H. rewrite lookup_insert_ne; congruence. }
  split.
  - intros c l' r' H. cbn in *. rewrite lookup_union, lookup_fmap in H. destruct (waiting s !! c) as [k|] eqn:Ec.
    + destruct (Hw _ _ Ec) as (Hvar & (τ & Hτ & Hle) & Hno). rewrite Hno in H. cbn in H. simplify_eq.
      exists τ, (now s). rewrite lookup_insert_eq. split_and!; [done..|by left].
    + destruct (answers s !! c) eqn:Ec'; cbn in H; simplify_eq. destruct (Ha _ _ _ Ec') as (τ & φ & ? & ? & ?).
      exists τ, φ. split_and!; [done|by apply Hold|done].
  - intros c l' H. cbn in H. by rewrite lookup_empty in H.
  - split; cbn.
    + intros l'. destruct (decide (l = l')) as [<-|Hne].
      * rewrite lookup_insert_eq. split; [|intros _; by eexists]. intros _. split; [lia|].
        destruct r; cbn; [done|]. by destruct (retain p).
      * rewrite lookup_insert_ne by done. rewrite Hl1, Hv. split.
        -- intros [? _]. split; [done|]. destruct r; cbn; [done|]. by destruct (retain p).
        -- intros [? _]. split; [done|congruence].
    + intros l'. destruct r; cbn; [done|]. by destruct (retain p).
  - split; cbn.
    + intros l' v. destruct r as [e|v']; cbn; [done|]. destruct (retain p) eqn:Er; [|done]. intros [= <- <-].
      split; [done|]. exists (now s). by rewrite lookup_insert_eq.
    + intros l' v φ Hc. unfold new_cache in Hc. destruct r as [e|v'], (ttl p); simplify_eq;
        try (by apply Hold, Hk2). by rewrite lookup_insert_eq.
  - intros c. cbn. rewrite lookup_union, lookup_fmap, lookup_empty. specialize (Hn c). unfold is_Some in *.
    destruct (waiting s !! c), (answers s !! c); cbn; naive_solver.
Qed.

Lemma pass_inv d s : 0 <= d → flight_inv s → flight_inv (pass d s).
Proof.
  intros Hd [Ha Hw Hl Hk Hn]. split; [exact Ha| |exact Hl|exact Hk|exact Hn].
  intros c l H. destruct (Hw _ _ H) as (? & (τ & ? & ?) & ?). split_and!; [done| |done]. exists τ. split; [done|].
  cbn. lia.
Qed.

Lemma flights_reachable_inv t s : reachable t s → flight_inv s.
Proof.
  induction 1 as [|s s' _ Hs Hst]; [apply flights_initial_inv|].
  destruct Hst; [by apply ask_inv|by apply settle_inv|by apply pass_inv].
Qed.

(** C33: a load shared through one promise: whoever asked has been answered,
    or waits for the one load that is running and gets its result when it
    settles; no other load is running.  A caller gets the result of a load
    that was not over when it asked, or a kept success, or a cached success
    younger than the time to live; a failure is never kept for later callers. *)
Theorem single_flight_safe (t : Z) (s : flight) : reachable t s →
  (∀ c, is_Some (asked s !! c) →
     is_Some (answers s !! c) ∨
     ∃ l, waiting s !! c = Some l ∧ variable s = Some (Pending l) ∧ ∀ r, answers (settle l r s) !! c = Some (l, r)) ∧
  (∀ l, (l < started s)%nat → is_Some (finished s !! l) ∨ variable s = Some (Pending l)) ∧
  (∀ c l r, answers s !! c = Some (l, r) → ∃ τ φ, asked s !! c = Some τ ∧ finished s !! l = Some (φ, r) ∧
     (τ <= φ ∨ is_inl r = false ∧ (retain p = true ∨ ∃ ms, ttl p = Some ms ∧ τ - φ < ms))).
Proof.
  intros Hr. destruct (flights_reachable_inv _ _ Hr) as [Ha Hw [Hl _] _ Hn]. split_and!.
  - intros c [[l Hc]|Hc]%Hn; [right|by left]. exists l. split; [done|]. split; [by apply (Hw _ _ Hc)|].
    intros r. cbn. by rewrite lookup_union, lookup_fmap, Hc, (proj2 (proj2 (Hw _ _ Hc))).
  - intros l Hlt. destruct (finished s !! l) eqn:Ef; [left; by eexists|right].
    assert (variable s = Some (Pending l) ∨ variable s ≠ Some (Pending l)) as [?|Hne]; [|done|].
    { destruct (variable s) as [[k|]|]; [|by right..]. destruct (decide (k = l)) as [->|]; [by left|right; congruence]. }
    assert (is_Some (finished s !! l)) as [? ?] by (by apply Hl). congruence.
  - exact Ha.
Qed.
End SingleFlight.
Arguments promise : clear implicits.
Arguments flight : clear implicits.

(** ** Two callers of the readiness check share a load; a third is served from
    the cache, a fourth, after 30 seconds, starts another. *)
Definition ex_shared : flight nat string :=
  ask_for readiness_policy 3 (pass 29999 (ask_for readiness_policy 2 (pass 1
    (settle readiness_policy 0 (inr "identity") (ask_for readiness_policy 1 (ask_for readiness_policy 0 (initial 0))))))).
Lemma ex_shared_reachable : reachable readiness_policy 0 ex_shared.
Proof. repeat (eapply reachable_step; [|by constructor]). constructor. Qed.

Lemma single_flight_safe_witness :
  reachable readiness_policy 0 ex_shared ∧ answers ex_shared !! 2%nat = Some (0%nat, inr "identity") ∧
  variable ex_shared = Some (Pending 1) ∧
  (∀ c l r, answers ex_shared !! c = Some (l, r) → ∃ τ φ, asked ex_shared !! c = Some τ ∧
     finished ex_shared !! l = Some (φ, r) ∧
     (τ <= φ ∨ is_inl r = false ∧ (retain readiness_policy = true ∨ ∃ ms, ttl readiness_policy = Some ms ∧ τ - φ < ms))).
Proof.
  split; [exact ex_shared_reachable|]. split; [reflexivity|]. split; [reflexivity|].
  exact (proj2 (proj2 (single_flight_safe readiness_policy 0 ex_shared ex_shared_reachable))).
Defined.
