(* ===== verification/Funding.v ===== *)
(** * Funding the upload wallets: what a payout must satisfy (scripts/distribute-funds.ts)

    The payout manifest, the snapshot of the live writers, the intent of a
    run, and the check that signed bytes encode exactly this payout.  The
    run itself is in [FundingRun].

    An object is the list of its entries in source order; keys that are array
    indices, which JavaScript moves to the front, do not occur among writer
    ids.  [JSON.stringify] of two arrays of texts, or of two values with the
    same fields in the same order, is compared as equality. *)
From Stdlib Require Import QArith Ascii.
From S2P Require Import Prelude JsText JsNumber JsonParse Hex Base64 SealId Retry Wallet Service Util Blob Query Durable.
From S2P Require Import Config.
Import Hex.Hex.
Local Open Scope Z_scope.

(** ** Fallible pure code *)
#[export] Instance sum_ret {E} : MRet (sum E) := λ A a, inr a.
#[export] Instance sum_bind {E} : MBind (sum E) := λ A B k m, match m with inl e => inl e | inr a => k a end.
Definition fail {A} (message : string) : js_error + A := inl (plain_error message).
Definition check (b : bool) (message : string) : js_error + unit := if b then inr tt else fail message.

Fixpoint map_index {A B} (f : nat → A → js_error + B) (i : nat) (l : list A) : js_error + list B :=
  match l with
  | [] => inr []
  | x :: l' => y ← f i x; ys ← map_index f (S i) l'; mret (y :: ys)
  end.
Definition nat_text (n : nat) : string := pretty (Z.of_nat n).

(** ** Data *)
Inductive Network : Type := FundMainnet | FundTestnet.
#[export] Instance Network_dec : EqDecision Network.
Proof. solve_decision. Defined.
Definition network_text (n : Network) : string := match n with FundMainnet => "mainnet" | FundTestnet => "testnet" end.
Definition WriterAddresses : Type := list (string * list string).

Record StatefulSet : Type := MkStatefulSet {
  ss_name : string; ss_uid : string; ss_generation : Z; ss_revision : string;
  ss_replicas : Z; ss_currentReplicas : Z; ss_updatedReplicas : Z; ss_readyReplicas : Z;
}.
Record WriterSecret : Type := MkSecret { sec_name : string; sec_uid : string; sec_resourceVersion : string }.
Record SecretProvider : Type := MkProvider { sp_container : string; sp_secretName : string; sp_key : string; sp_source : string }.
Record WriterImage : Type := MkImage { im_name : string; im_image : string; im_imageId : string }.
#[export] Instance WriterImage_dec : EqDecision WriterImage.
Proof. solve_decision. Defined.
Record LiveWriter : Type := MkWriter {
  lw_id : string; lw_ordinal : nat; lw_podUid : string; lw_revision : string;
  lw_images : list WriterImage; lw_addresses : list string;
}.
Record LiveWriterSnapshot : Type := MkSnapshot {
  ls_collectedAt : string; ls_context : string; ls_namespace : string; ls_statefulSet : StatefulSet;
  ls_secrets : list WriterSecret; ls_providers : list SecretProvider; ls_writers : list LiveWriter;
}.
Record FundingIntent : Type := MkIntent {
  fi_network : string; fi_sender : string; fi_walType : string; fi_payoutManifest : string;
  fi_writers : WriterAddresses; fi_mistPer : Z; fi_frostPer : Z; fi_gasBudget : Z;
}.
#[export] Instance FundingIntent_dec : EqDecision FundingIntent.
Proof. solve_decision. Defined.

Definition SUI_COIN : string := "0x2::sui::SUI".
Definition LIVE_SNAPSHOT_MAX_AGE_MS : Z := 15 * 60 * 1000.
Definition LIVE_SNAPSHOT_FUTURE_SKEW_MS : Z := 60 * 1000.
Definition MAX_RECIPIENTS : nat := 500.

(** ** Environment and amounts *)
Definition fund_env (e : Config.env) (name : string) : option string :=
  let v := Config.env_trim e name in if is_empty v then None else Some v.
Definition requireEnv (e : Config.env) (name : string) : js_error + string :=
  match fund_env e name with Some v => inr v | None => fail ("missing required env var " +:+ name) end.
Definition quote (v : string) : string := json_stringify (λ _, empty_str) (JStr v).
(** [/^\d+$/], then [BigInt] *)
Definition parseAmount (v what : string) : js_error + Z :=
  _ ← check (sforallb is_digit v && negb (is_empty v))
        (what +:+ " must be a whole number of base units, got " +:+ quote v);
  let n := digits_value 0 (chars v) in
  _ ← check (negb (n =? 0)) (what +:+ " must be greater than 0");
  mret n.

Section Manifest.
Context `{SuiSdk} (isValidSuiAddress : string → bool).

Definition assertAddress (v what : string) : js_error + string :=
  _ ← check (isValidSuiAddress v) (what +:+ " is not a valid Sui address: " +:+ quote v);
  mret (normalizeSuiAddress v).

(** The addresses of one writer. *)
Definition normalize_writer (entry : string * json) : js_error + (string * list string) :=
  let '(writer, addrs) := entry in
  _ ← check (negb (is_empty (trim writer))) "writer id must not be empty";
  match addrs with
  | JArr ((_ :: _) as l) =>
      addresses ← map_index (λ i a, assertAddress (trim (js_string a)) (writer +:+ "[" +:+ nat_text i +:+ "]")) 0 l;
      mret (writer, addresses)
  | _ => fail (writer +:+ " has no addresses")
  end.
(** [out.find((a, i) => out.indexOf(a) !== i)] *)
Fixpoint duplicate (seen l : list string) : option string :=
  match l with
  | [] => None
  | a :: l' => if existsb (seqb a) seen then Some a else duplicate (seen ++ [a]) l'
  end.
Definition addresses_of (writers : WriterAddresses) : list string := concat writers.*2.
Definition normalizeWriters (manifest : json) : js_error + WriterAddresses :=
  match manifest with
  | JObj entries =>
      writers ← map_index (λ _, normalize_writer) 0 entries;
      let out := addresses_of writers in
      _ ← check (negb (bool_decide (out = []))) "no addresses to fund";
      match duplicate [] out with
      | Some dup => fail ("duplicate recipient " +:+ dup +:+ " — each address must appear once")
      | None =>
          _ ← check (length out <=? MAX_RECIPIENTS)%nat
                ("too many recipients (" +:+ nat_text (length out) +:+ "); max " +:+ nat_text MAX_RECIPIENTS +:+ " per tx");
          mret writers
      end
  | _ => fail "payout manifest must be an object mapping writer ids to ordered address arrays"
  end.
Definition writers_json (writers : WriterAddresses) : json :=
  JObj (map (λ e : string * list string, (e.1, JArr (map JStr e.2))) writers).
Definition flattenWriters (manifest : json) : js_error + list string :=
  writers ← normalizeWriters manifest; mret (addresses_of writers).
Definition parseWriters (raw what : string) : js_error + WriterAddresses :=
  match json_parse raw with
  | None => fail (what +:+ " is not valid JSON")
  | Some parsed => normalizeWriters parsed
  end.

(** ** The snapshot of the live writers *)
Definition requireRecord (value : json) (what : string) : js_error + json :=
  match value with JObj _ => inr value | _ => fail (what +:+ " must be an object") end.
Definition requireString (value : json) (what : string) : js_error + string :=
  match value with
  | JStr s => if is_empty (trim s) then fail (what +:+ " must be a non-empty string") else inr s
  | _ => fail (what +:+ " must be a non-empty string")
  end.
Definition requirePositiveInteger (value : json) (what : string) : js_error + Z :=
  match as_safe_int value with
  | Some z => if 0 <? z then inr z else fail (what +:+ " must be a positive integer")
  | None => fail (what +:+ " must be a positive integer")
  end.

Definition parse_stateful_set (raw : json) : js_error + StatefulSet :=
  name ← requireString (jget "name" raw) "statefulSet.name";
  uid ← requireString (jget "uid" raw) "statefulSet.uid";
  generation ← requirePositiveInteger (jget "generation" raw) "statefulSet.generation";
  revision ← requireString (jget "revision" raw) "statefulSet.revision";
  replicas ← requirePositiveInteger (jget "replicas" raw) "statefulSet.replicas";
  current ← requirePositiveInteger (jget "currentReplicas" raw) "statefulSet.currentReplicas";
  updated ← requirePositiveInteger (jget "updatedReplicas" raw) "statefulSet.updatedReplicas";
  ready ← requirePositiveInteger (jget "readyReplicas" raw) "statefulSet.readyReplicas";
  _ ← check ((current =? replicas) && (updated =? replicas) && (ready =? replicas))
        "snapshot StatefulSet rollout is not fully ready and updated";
  mret (MkStatefulSet name uid generation revision replicas current updated ready).

Definition nonempty_array (v : json) (message : string) : js_error + list json :=
  match v with JArr ((_ :: _) as l) => inr l | _ => fail message end.

(** [seen] is the set of names so far. *)
Fixpoint parse_secrets (i : nat) (seen : list string) (l : list json) : js_error + list WriterSecret :=
  match l with
  | [] => inr []
  | raw :: l' =>
      let at_ := "writerSecrets[" +:+ nat_text i +:+ "]" in
      secret ← requireRecord raw at_;
      name ← requireString (jget "name" secret) (at_ +:+ ".name");
      _ ← check (match jget "immutable" secret with JBool b => b | _ => false end)
            (name +:+ " must be an immutable Kubernetes Secret");
      _ ← check (negb (existsb (seqb name) seen)) ("duplicate writer Secret " +:+ name);
      uid ← requireString (jget "uid" secret) (name +:+ ".uid");
      version ← requireString (jget "resourceVersion" secret) (name +:+ ".resourceVersion");
      rest ← parse_secrets (S i) (seen ++ [name]) l';
      mret (MkSecret name uid version :: rest)
  end.
Fixpoint parse_providers (i : nat) (secrets seen : list string) (l : list json) : js_error + list SecretProvider :=
  match l with
  | [] => inr []
  | raw :: l' =>
      let at_ := "writerSecretProviders[" +:+ nat_text i +:+ "]" in
      provider ← requireRecord raw at_;
      container ← requireString (jget "container" provider) (at_ +:+ ".container");
      secretName ← requireString (jget "secretName" provider) (container +:+ ".secretName");
      key ← requireString (jget "key" provider) (container +:+ ".secretKey");
      _ ← check (seqb key "SERVER_SUI_PRIVATE_KEYS") (container +:+ " writer Secret must provide SERVER_SUI_PRIVATE_KEYS");
      source ← match jget "source" provider with
               | JStr s => if seqb s "secretKeyRef" || seqb s "envFrom" then inr s
                           else fail (container +:+ " has an invalid writer Secret source")
               | _ => fail (container +:+ " has an invalid writer Secret source")
               end;
      _ ← check (existsb (seqb secretName) secrets) (container +:+ " references unverified Secret " +:+ secretName);
      _ ← check (negb (existsb (seqb container) seen)) (container +:+ " has ambiguous writer Secret providers");
      rest ← parse_providers (S i) secrets (seen ++ [container]) l';
      mret (MkProvider container secretName key source :: rest)
  end.
Fixpoint parse_images (id : string) (i : nat) (seen : list string) (l : list json) : js_error + list WriterImage :=
  match l with
  | [] => inr []
  | raw :: l' =>
      let at_ := id +:+ ".images[" +:+ nat_text i +:+ "]" in
      image ← requireRecord raw at_;
      name ← requireString (jget "name" image) (at_ +:+ ".name");
      _ ← check (negb (existsb (seqb name) seen)) (id +:+ " repeats container " +:+ name);
      img ← requireString (jget "image" image) (id +:+ "." +:+ name +:+ ".image");
      imageId ← requireString (jget "imageId" image) (id +:+ "." +:+ name +:+ ".imageId");
      rest ← parse_images id (S i) (seen ++ [name]) l';
      mret (MkImage name img imageId :: rest)
  end.
Definition parse_writer (set : StatefulSet) (pods : list string) (ordinal : nat) (raw : json) : js_error + LiveWriter :=
  let at_ := "writers[" +:+ nat_text ordinal +:+ "]" in
  writer ← requireRecord raw at_;
  id ← requireString (jget "id" writer) (at_ +:+ ".id");
  podUid ← requireString (jget "podUid" writer) (at_ +:+ ".podUid");
  revision ← requireString (jget "revision" writer) (at_ +:+ ".revision");
  _ ← check (num_is (jget "ordinal" writer) (Z.of_nat ordinal)) (at_ +:+ ".ordinal must be " +:+ nat_text ordinal);
  let expected := ss_name set +:+ "-" +:+ nat_text ordinal in
  _ ← check (seqb id expected) (at_ +:+ ".id must be " +:+ expected);
  _ ← check (seqb revision (ss_revision set)) (id +:+ " is not on StatefulSet revision " +:+ ss_revision set);
  _ ← check (negb (existsb (seqb podUid) pods)) ("duplicate pod UID " +:+ podUid);
  rawImages ← nonempty_array (jget "images" writer) (id +:+ " must report at least one running container image");
  images ← parse_images id 0 [] rawImages;
  writers ← normalizeWriters (JObj [(id, jget "addresses" writer)]);
  mret (MkWriter id ordinal podUid revision images (addresses_of writers)).
Fixpoint parse_live_writers (set : StatefulSet) (pods : list string) (ordinal : nat) (l : list json)
    : js_error + list LiveWriter :=
  match l with
  | [] => inr []
  | raw :: l' =>
      w ← parse_writer set pods ordinal raw;
      rest ← parse_live_writers set (pods ++ [lw_podUid w]) (S ordinal) l';
      mret (w :: rest)
  end.

Context (date_parse : string → option Z).

(** [nowMs]: the clock, when the snapshot has to be fresh. *)
Definition check_age (nowMs : option Z) (collectedAtMs : Z) : js_error + unit :=
  match nowMs with
  | None => inr tt
  | Some now =>
      let ageMs := now - collectedAtMs in
      _ ← check (negb (LIVE_SNAPSHOT_MAX_AGE_MS <? ageMs))
            ("live writer snapshot is older than 15 minutes (" +:+ pretty (ageMs / 1000) +:+ "s)");
      check (negb (ageMs <? - LIVE_SNAPSHOT_FUTURE_SKEW_MS)) "live writer snapshot collectedAt is in the future"
  end.
Definition same_images (writers : list LiveWriter) : bool :=
  match writers with
  | [] => true
  | w0 :: _ => forallb (λ w, bool_decide (lw_images w = lw_images w0)) writers
  end.
Definition check_providers (writers : list LiveWriter) (providers : list SecretProvider) : js_error + unit :=
  match List.find (λ p, negb (forallb (λ w, existsb (λ im, seqb (im_name im) (sp_container p)) (lw_images w)) writers))
          providers with
  | Some p => fail ("writer Secret provider " +:+ sp_container p +:+ " is not running in every writer pod")
  | None => inr tt
  end.
Definition parse_snapshot (root : json) (nowMs : option Z) : js_error + LiveWriterSnapshot :=
  _ ← check (num_is (jget "schemaVersion" root) 1) "live writer snapshot schemaVersion must be 1";
  collectedAt ← requireString (jget "collectedAt" root) "snapshot collectedAt";
  collectedAtMs ← match date_parse collectedAt with
                  | Some ms => inr ms
                  | None => fail "snapshot collectedAt must be an ISO-8601 timestamp"
                  end;
  _ ← check_age nowMs collectedAtMs;
  rawSet ← requireRecord (jget "statefulSet" root) "snapshot statefulSet";
  set ← parse_stateful_set rawSet;
  rawSecrets ← nonempty_array (jget "writerSecrets" root) "snapshot must identify at least one immutable writer Secret";
  secrets ← parse_secrets 0 [] rawSecrets;
  rawProviders ← nonempty_array (jget "writerSecretProviders" root)
                   "snapshot must resolve the Secret provider for SERVER_SUI_PRIVATE_KEYS";
  providers ← parse_providers 0 (map sec_name secrets) [] rawProviders;
  rawWriters ← match jget "writers" root with JArr l => inr l | _ => fail "snapshot writers must be an array" end;
  _ ← check (Z.of_nat (length rawWriters) =? ss_replicas set)
        ("snapshot has " +:+ nat_text (length rawWriters) +:+ " writers but StatefulSet has " +:+
         pretty (ss_replicas set) +:+ " replicas");
  writers ← parse_live_writers set [] 0 rawWriters;
  _ ← check (same_images writers) "writer pods do not run the same container image IDs";
  _ ← check_providers writers providers;
  context ← requireString (jget "context" root) "snapshot context";
  namespace ← requireString (jget "namespace" root) "snapshot namespace";
  mret (MkSnapshot collectedAt context namespace set secrets providers writers).
Definition parseLiveWriterSnapshot (raw : string) (nowMs : option Z) : js_error + LiveWriterSnapshot :=
  match json_parse raw with
  | None => fail "LIVE_WRITER_ADDRESSES_JSON is not valid JSON"
  | Some parsed => root ← requireRecord parsed "live writer snapshot"; parse_snapshot root nowMs
  end.

Definition assertSnapshotMatchesWriters (expected : WriterAddresses) (snapshot : LiveWriterSnapshot) : js_error + unit :=
  _ ← check (bool_decide (map lw_id (ls_writers snapshot) = map fst expected))
        "live writer order does not exactly match the payout manifest";
  match List.find (λ w, negb (bool_decide (assoc (lw_id w) expected = Some (lw_addresses w)))) (ls_writers snapshot) with
  | Some w => fail (lw_id w +:+ " live wallet order does not match the payout manifest")
  | None => inr tt
  end.
Definition reconcileLiveWriters (expected : WriterAddresses) (raw : string) (nowMs : Z) : js_error + LiveWriterSnapshot :=
  snapshot ← parseLiveWriterSnapshot raw (Some nowMs);
  _ ← assertSnapshotMatchesWriters expected snapshot;
  mret snapshot.
End Manifest.

Definition requireFunds (what : string) (have need : Z) : js_error + unit :=
  check (negb (have <? need)) ("insufficient " +:+ what +:+ ": sender has " +:+ pretty have +:+ ", needs " +:+
    pretty need +:+ " (short " +:+ pretty (need - have) +:+ ")").

(** [a || b] *)
Definition js_or (a b : json) : json := if truthy a then a else b.
Definition transactionFromResult (result : json) : json :=
  js_or (jget "Transaction" result) (jget "FailedTransaction" result).
Definition requireSuccess (result : json) (context : string) : js_error + json :=
  let tx := transactionFromResult result in
  _ ← check (truthy tx) (context +:+ ": gRPC response has no transaction");
  _ ← check (truthy (jget "success" (jget "status" tx)))
        (context +:+ ": " +:+ match jget "error" (jget "status" tx) with
                              | JStr error => error
                              | JUndefined => "undefined"
                              | error => json_stringify (λ _, empty_str) error
                              end);
  mret tx.
Definition canonicalBase64 (value : json) (what : string) : js_error + list ascii :=
  encoded ← requireString value what;
  let bytes := from_base64 encoded in
  _ ← check (negb (bool_decide (bytes = [])) && seqb (to_base64 bytes) encoded) (what +:+ " must be canonical base64");
  mret bytes.

(** ** The transaction, as [TransactionDataBuilder] decodes it *)
Inductive tx_arg : Type :=
| ArgInput (i : nat)
| ArgNestedResult (command result : nat)
| ArgOther.
Inductive tx_input : Type :=
| InPure (bytes : json)
| InFundsWithdrawal (maxAmount : option Z) (balanceOf : option string) (fromSender : bool)
| InOther.
Record tx_move_call : Type := TxMoveCall {
  tm_package : string; tm_module : string; tm_function : string;
  tm_typeArguments : list string; tm_arguments : list tx_arg;
}.
Inductive tx_command : Type :=
| CMoveCall (call : tx_move_call)
| CSplitCoins (amounts : list tx_arg)
| CMergeCoins
| COther (kind : string).
Record funding_tx : Type := FundingTx {
  ft_sender : option string; ft_gasOwner : option string; ft_gasBudget : option Z;
  ft_inputs : list tx_input; ft_commands : list tx_command;
}.
Record payment : Type := Payment { pay_address : string; pay_coinType : string; pay_amount : Z }.
#[export] Instance payment_dec : EqDecision payment.
Proof. solve_decision. Defined.

Section Transaction.
Context `{SuiSdk} `{SuiTx} (isValidSuiAddress : string → bool) (tx_data : list ascii → js_error + funding_tx).

Definition SUI_FRAMEWORK : string := normalizeSuiAddress "0x2".
Definition input_for (data : funding_tx) (argument : option tx_arg) (what : string) : js_error + tx_input :=
  match argument with
  | Some (ArgInput i) => match ft_inputs data !! i with
                         | Some input => inr input
                         | None => fail (what +:+ " refers to a missing transaction input")
                         end
  | _ => fail (what +:+ " must refer to a transaction input")
  end.
Definition pureAddress (data : funding_tx) (argument : option tx_arg) (what : string) : js_error + string :=
  input ← input_for data argument what;
  match input with
  | InPure encoded =>
      bytes ← canonicalBase64 encoded what;
      _ ← check (length bytes =? 32)%nat (what +:+ " must contain a Sui address");
      mret (normalizeSuiAddress ("0x" +:+ bytesToHex bytes))
  | _ => fail (what +:+ " must be a pure address")
  end.
Definition pureU64 (data : funding_tx) (argument : option tx_arg) (what : string) : js_error + Z :=
  input ← input_for data argument what;
  match input with
  | InPure encoded =>
      bytes ← canonicalBase64 encoded what;
      _ ← check (length bytes =? 8)%nat (what +:+ " must contain a u64");
      mret (le_value bytes)
  | _ => fail (what +:+ " must be a pure u64")
  end.

Definition is_framework_call (call : tx_move_call) (m f coinType : string) : bool :=
  seqb (normalizeSuiAddress (tm_package call)) SUI_FRAMEWORK && seqb (tm_module call) m && seqb (tm_function call) f &&
  match tm_typeArguments call with [type] => seqb (normalizeStructTag type) coinType | _ => false end.
Definition split_amount (data : funding_tx) (call : tx_move_call) (what : string) : js_error + Z :=
  match head (tm_arguments call) with
  | Some (ArgNestedResult splitIndex outputIndex) =>
      match ft_commands data !! splitIndex with
      | Some (CSplitCoins amounts) =>
          match amounts !! outputIndex with
          | Some amount => pureU64 data (Some amount) (what +:+ " split amount")
          | None => fail (what +:+ " refers to a missing split amount")
          end
      | _ => fail (what +:+ " does not consume a split coin")
      end
  | _ => fail (what +:+ " does not consume a split coin")
  end.
Definition outputAmount (data : funding_tx) (argument : option tx_arg) (coinType what : string) : js_error + Z :=
  match argument with
  | Some (ArgNestedResult commandIndex resultIndex) =>
      match ft_commands data !! commandIndex with
      | Some (CMoveCall call) =>
          _ ← check (resultIndex =? 0)%nat (what +:+ " does not consume a balance-producing Move call");
          if is_framework_call call "balance" "redeem_funds" coinType then
            input ← input_for data (head (tm_arguments call)) (what +:+ " withdrawal");
            match input with
            | InFundsWithdrawal (Some maxAmount) (Some type) true =>
                _ ← check (seqb (normalizeStructTag type) coinType) (what +:+ " has an invalid address-balance withdrawal");
                mret maxAmount
            | _ => fail (what +:+ " has an invalid address-balance withdrawal")
            end
          else if is_framework_call call "coin" "into_balance" coinType then split_amount data call what
          else fail (what +:+ " has an unexpected balance source")
      | _ => fail (what +:+ " does not consume a balance-producing Move call")
      end
  | _ => fail (what +:+ " must consume a prepared balance")
  end.

Definition allowedMoveCalls : list string :=
  ["balance::redeem_funds"; "balance::send_funds"; "coin::redeem_funds"; "coin::into_balance"; "coin::send_funds";
   "coin::destroy_zero"].
Definition move_target (call : tx_move_call) : string := tm_module call +:+ "::" +:+ tm_function call.

(** One command: the payment it makes, if any. *)
Definition check_command (data : funding_tx) (intent : FundingIntent) (commandIndex : nat) (command : tx_command)
    : js_error + option payment :=
  match command with
  | CMergeCoins | CSplitCoins _ => inr None
  | COther kind => fail ("funding transaction contains unexpected " +:+ kind +:+ " command")
  | CMoveCall call =>
      let target := move_target call in
      let at_ := "command " +:+ nat_text commandIndex in
      match tm_typeArguments call with
      | [type] =>
          _ ← check (seqb (normalizeSuiAddress (tm_package call)) SUI_FRAMEWORK && existsb (seqb target) allowedMoveCalls)
                ("funding transaction contains unexpected Move call " +:+ target);
          let coinType := normalizeStructTag type in
          _ ← check (seqb coinType (normalizeStructTag SUI_COIN) || seqb coinType (normalizeStructTag (fi_walType intent)))
                ("funding transaction uses unexpected coin type " +:+ coinType);
          if seqb target "coin::send_funds" then
            recipient ← pureAddress data (tm_arguments call !! 1%nat) (at_ +:+ " remainder recipient");
            _ ← check (seqb recipient (fi_sender intent)) "funding transaction sends a coin remainder away from sender";
            mret None
          else if negb (seqb target "balance::send_funds") then mret None
          else
            _ ← check (length (tm_arguments call) =? 2)%nat (at_ +:+ " send_funds has invalid arguments");
            address ← pureAddress data (tm_arguments call !! 1%nat) (at_ +:+ " recipient");
            amount ← outputAmount data (tm_arguments call !! 0%nat) coinType (at_ +:+ " payment");
            mret (Some (Payment address coinType amount))
      | _ => fail ("funding transaction contains unexpected Move call " +:+ target)
      end
  end.
Fixpoint collect_payments (data : funding_tx) (intent : FundingIntent) (i : nat) (l : list tx_command)
    : js_error + list payment :=
  match l with
  | [] => inr []
  | command :: l' =>
      p ← check_command data intent i command;
      ps ← collect_payments data intent (S i) l';
      mret (match p with Some pay => pay :: ps | None => ps end)
  end.
Definition expected_payments (intent : FundingIntent) (recipients : list string) : list payment :=
  flat_map (λ address, [Payment address (normalizeStructTag SUI_COIN) (fi_mistPer intent);
                        Payment address (normalizeStructTag (fi_walType intent)) (fi_frostPer intent)]) recipients.
Fixpoint mismatch (i : nat) (actual expected : list payment) : option nat :=
  match actual, expected with
  | a :: l, e :: l' => if bool_decide (a = e) then mismatch (S i) l l' else Some i
  | _, _ => None
  end.
Definition is_sender (intent : FundingIntent) (a : option string) : bool :=
  match a with Some x => negb (is_empty x) && seqb (normalizeSuiAddress x) (fi_sender intent) | None => false end.

Definition assertFundingTransaction (bytes : list ascii) (intent : FundingIntent) : js_error + funding_tx :=
  data ← tx_data bytes;
  _ ← check (is_sender intent (ft_sender data)) "funding transaction sender does not match the journal intent";
  _ ← check (is_sender intent (ft_gasOwner data)) "funding transaction gas owner does not match the sender";
  _ ← check (default 0 (ft_gasBudget data) =? fi_gasBudget intent)
        "funding transaction gas budget does not match the journal intent";
  actual ← collect_payments data intent 0 (ft_commands data);
  recipients ← flattenWriters isValidSuiAddress (writers_json (fi_writers intent));
  let expected := expected_payments intent recipients in
  _ ← check (length actual =? length expected)%nat ("funding transaction has " +:+ nat_text (length actual) +:+
        " payments; expected " +:+ nat_text (length expected));
  match mismatch 0 actual expected with
  | Some index => fail ("funding transaction payment " +:+ nat_text index +:+ " does not match intent")
  | None => mret data
  end.

Definition fundingIntent (network sender walType payoutManifest : string) (writers : json) (mistPer frostPer gasBudget : Z)
    : js_error + FundingIntent :=
  sender' ← assertAddress isValidSuiAddress sender "funding sender";
  writers' ← normalizeWriters isValidSuiAddress writers;
  mret (MkIntent network sender' (normalizeStructTag walType) payoutManifest writers' mistPer frostPer gasBudget).
End Transaction.
