(* ===== verification/FundingRun.v ===== *)
(** * Funding the upload wallets: the run (scripts/distribute-funds.ts)

    The journal, its durable write, the reconciliation with the chain and
    [main].  Everything outside the process is a call: files, the fullnode,
    the signer and the clock.  [FWriteFile] carries the journal that is
    printed into the file.

    [--self-test] is not modelled. *)
From Stdlib Require Import QArith Ascii.
From S2P Require Import Prelude JsText JsNumber JsonParse Base64 SealId Retry Wallet Service Util Blob Query Durable.
From S2P Require Import Config Metadata Funding Ledger.
Local Open Scope Z_scope.

(** ** The journal *)
Record FundingTransaction : Type := MkFundingTransaction {
  tr_transactionBytes : string; tr_signature : string; tr_digest : string;
}.
Record FundingJournal : Type := MkJournal {
  fj_status : json; fj_createdAt : json; fj_updatedAt : json; fj_intent : FundingIntent;
  fj_snapshot : option LiveWriterSnapshot; fj_transaction : option FundingTransaction;
  fj_execution : json;
}.

(** One [tx.moveCall] of the payout: [send_funds] of a prepared balance. *)
Record draft_payment : Type := DraftPayment { dp_coinType : string; dp_amount : Z; dp_recipient : string }.

Inductive fevent : Type :=
| FReadManifest (network : Network)                   (** [readFileSync(payoutFile)] *)
| FNow                                                (** [Date.now()] *)
| FTimestamp                                          (** [new Date().toISOString()] *)
| FGetSystemObject (objectId : string)
| FGetMoveFunction (package module function : string)
| FGetBalance (owner coinType : string)
| FBuild (sender : string) (gasBudget : Z) (payments : list draft_payment)
| FSimulate (bytes : string)
| FSign (bytes : string)
| FGetTransaction (digest : string)
| FExecute (bytes signature : string)
| FOpenTemporary (path : string)                      (** [openSync(temporary, "wx", 0o600)] *)
| FWriteFile (journal : FundingJournal)
| FFsync
| FClose
| FRename (path : string)
| FOpenDirectory (path : string)
| FFsyncDirectory
| FCloseDirectory
| FUnlinkTemporary
| FPrint (digest : string).

(** The state of the process is what it has asked so far. *)
Definition FM : Type → Type := ST (list fevent) js_error.

Section Run.
Context `{SuiSdk} `{SuiTx}.
Context (isValidSuiAddress : string → bool) (date_parse : string → option Z).
Context (tx_data : list ascii → js_error + funding_tx).
Context (outside : list fevent → js_error + json).

Notation ask := (ask outside).

(** [try { m } finally { f }] where [f] may throw. *)
Definition finally_do {A} (m : FM A) (f : FM unit) : FM A := λ tr,
  match m tr with
  | (tr', r) => match f tr' with (tr'', inl e) => (tr'', inl e) | (tr'', inr _) => (tr'', r) end
  end.

(** [writeJournalAtomic]: [opened] and [temporary] are the two flags that the
    [finally] block reads. *)
Definition cleanup (opened temporary : bool) : FM unit :=
  _ ← (if opened then _ ← ask FClose; mret tt else mret tt);
  if temporary then _ ← ask FUnlinkTemporary; mret tt else mret tt.
Definition guard_file {A} (opened temporary : bool) (m : FM A) (k : A → FM unit) : FM unit := λ tr,
  match m tr with
  | (tr', inl e) => match cleanup opened temporary tr' with (tr'', inl e') => (tr'', inl e') | (tr'', inr _) => (tr'', inl e) end
  | (tr', inr a) => k a tr'
  end.
Definition writeJournalAtomic (path : string) (journal : FundingJournal) : FM unit :=
  _ ← ask (FOpenTemporary path);
  guard_file true true (ask (FWriteFile journal)) (λ _,
  guard_file true true (ask FFsync) (λ _,
  guard_file true true (ask FClose) (λ _,
  guard_file false true (ask (FRename path)) (λ _,
    _ ← ask (FOpenDirectory path);
    finally_do (_ ← ask FFsyncDirectory; mret tt) (_ ← ask FCloseDirectory; mret tt))))).

Definition bytes_text (bytes : list ascii) : string := of_chars bytes.
Definition now_ms : FM Z := v ← ask FNow; match as_safe_int v with Some t => mret t | None => f_throw "clock" end.

Definition isTransactionNotFound (error : js_error) (digest : string) : bool :=
  mem_code (e_code error) ["NOT_FOUND"] || num_is (e_code error) 5 ||
  seqb (e_message error) ("Transaction " +:+ digest +:+ " not found").

Definition tx_digest_of (journal : FundingJournal) : string :=
  match fj_transaction journal with Some t => tr_digest t | None => empty_str end.
Definition recordObservedTransaction (journalPath : string) (journal : FundingJournal) (result : json) (source : string)
    : FM (FundingJournal * json) :=
  let transaction := transactionFromResult result in
  let expectedDigest := tx_digest_of journal in
  _ ← f_of_sum (check (truthy transaction && Enoki.is_str (jget "digest" transaction) expectedDigest)
        ("funding response digest mismatch: expected " +:+ expectedDigest +:+ ", got " +:+
         js_string (jget "digest" transaction)));
  match jget "success" (jget "status" transaction) with
  | JBool success =>
      updatedAt ← ask FTimestamp;
      observedAt ← ask FTimestamp;
      let observed := MkJournal (JStr (if success then "succeeded" else "failed")) (fj_createdAt journal) updatedAt
        (fj_intent journal) (fj_snapshot journal) (fj_transaction journal)
        (JObj ([("observedAt", observedAt); ("source", JStr source); ("success", JBool success)] ++
               if success then [] else [("error", jget "error" (jget "status" transaction))])) in
      _ ← writeJournalAtomic journalPath observed;
      mret (observed, transaction)
  | _ => f_throw "funding response has no definitive execution status"
  end.

Definition cause (error : js_error) : string := e_message error.
(** [existing]: [inl error], or what the lookup returned. *)
Definition lookup_funding (digest : string) : FM (js_error + json) :=
  try_catch (v ← ask (FGetTransaction digest); mret (inr v)) (λ error, mret (inl error)).
Definition not_submitted (digest : string) : string :=
  "cannot reconcile funding digest " +:+ digest +:+ "; ".

Definition submit_journaled (journalPath : string) (journal : FundingJournal) (bytes : list ascii)
    (beforeSubmit : FM unit) : FM json :=
  let digest := tx_digest_of journal in
  _ ← f_of_sum (check (Enoki.is_str (fj_status journal) "prepared")
        ("journal says " +:+ js_string (fj_status journal) +:+ " but digest " +:+ digest +:+ " is not on chain; refusing to replay"));
  _ ← beforeSubmit;
  result ← try_catch (ask (FExecute (bytes_text bytes) (match fj_transaction journal with Some t => tr_signature t | None => empty_str end)))
    (λ error, f_throw ("FUNDING OUTCOME AMBIGUOUS for digest " +:+ digest +:+
       ". Do not build or submit a new payout. Preserve " +:+ journalPath +:+
       " and retry with its exact contents in FUNDING_JOURNAL_JSON. Cause: " +:+ cause error));
  observed ← try_catch (recordObservedTransaction journalPath journal result "submit")
    (λ error, f_throw ("FUNDING OUTCOME AMBIGUOUS for digest " +:+ digest +:+
       ". The RPC returned after submission but the durable result could not be recorded. Do not build or submit a new payout; reconcile this exact journal. Cause: " +:+
       cause error));
  _ ← f_of_sum (requireSuccess result "journaled funding transaction failed");
  mret (jget "digest" observed.2).

Definition reconcileAndExecuteFunding (journalPath : string) (journal : FundingJournal) (bytes : list ascii)
    (beforeSubmit : FM unit) : FM json :=
  let digest := tx_digest_of journal in
  existing ← lookup_funding digest;
  match existing with
  | inl error =>
      if negb (isTransactionNotFound error digest)
      then f_throw (not_submitted digest +:+
             "do not create or submit a new payout. Retry with the same FUNDING_JOURNAL_JSON. Cause: " +:+ cause error)
      else submit_journaled journalPath journal bytes beforeSubmit
  | inr JUndefined =>
      f_throw (not_submitted digest +:+
        "the RPC returned no transaction and no explicit NOT_FOUND. Do not create or submit a new payout.")
  | inr result =>
      observed ← recordObservedTransaction journalPath journal result "query";
      _ ← f_of_sum (requireSuccess result "journaled funding transaction failed");
      mret (jget "digest" observed.2)
  end.

(** ** Reading a journal back

    The snapshot of a parsed journal is parsed again from its own JSON text,
    which is the value itself. *)
Definition amount_field (raw : json) (key what : string) : js_error + Z :=
  v ← requireString (jget key raw) what; parseAmount v what.
Definition journal_intent (intentRaw : json) : js_error + FundingIntent :=
  network ← requireString (jget "network" intentRaw) "journal intent network";
  sender ← requireString (jget "sender" intentRaw) "journal intent sender";
  walType ← requireString (jget "walType" intentRaw) "journal intent WAL type";
  payoutManifest ← requireString (jget "payoutManifest" intentRaw) "journal intent payout manifest";
  writers ← normalizeWriters isValidSuiAddress (jget "writers" intentRaw);
  mistPer ← amount_field intentRaw "mistPerAddress" "journal MIST per address";
  frostPer ← amount_field intentRaw "frostPerAddress" "journal FROST per address";
  gasBudget ← amount_field intentRaw "gasBudget" "journal gas budget";
  fundingIntent isValidSuiAddress network sender walType payoutManifest (writers_json writers) mistPer frostPer gasBudget.

Definition parseFundingJournal (raw : string) (expectedIntent : FundingIntent) : js_error + (FundingJournal * list ascii) :=
  parsed ← match json_parse raw with Some v => inr v | None => fail "FUNDING_JOURNAL_JSON is not valid JSON" end;
  root ← requireRecord parsed "funding journal";
  _ ← check (num_is (jget "schemaVersion" root) 1 && Enoki.is_str (jget "kind" root) "walrus-memory-funding")
        "funding journal has an unsupported schema or kind";
  let status := js_string (jget "status" root) in
  _ ← check (existsb (seqb status) ["prepared"; "succeeded"; "failed"])
        "funding journal is not a resumable signed transaction";
  intentRaw ← requireRecord (jget "intent" root) "funding journal intent";
  journalIntent ← journal_intent intentRaw;
  _ ← check (seqb (fi_network journalIntent) "mainnet" || seqb (fi_network journalIntent) "testnet")
        "funding journal network must be mainnet or testnet";
  _ ← check (bool_decide (journalIntent = expectedIntent)) "funding journal intent does not exactly match this run";
  _ ← check (truthy (jget "liveSnapshot" root)) "funding journal is missing its original live snapshot";
  snapshotRaw ← requireRecord (jget "liveSnapshot" root) "live writer snapshot";
  originalSnapshot ← parse_snapshot isValidSuiAddress date_parse snapshotRaw None;
  _ ← assertSnapshotMatchesWriters (fi_writers expectedIntent) originalSnapshot;
  transaction ← requireRecord (jget "transaction" root) "funding journal transaction";
  bytes ← canonicalBase64 (jget "transactionBytes" transaction) "journal transactionBytes";
  signature ← requireString (jget "signature" transaction) "journal transaction signature";
  digest ← requireString (jget "digest" transaction) "journal transaction digest";
  let calculatedDigest := tx_digest bytes in
  _ ← check (seqb digest calculatedDigest)
        ("funding journal digest mismatch: expected " +:+ digest +:+ ", got " +:+ calculatedDigest);
  _ ← assertFundingTransaction isValidSuiAddress tx_data bytes expectedIntent;
  _ ← match tx_verify bytes signature (fi_sender expectedIntent) with Some e => inl e | None => inr tt end;
  mret (MkJournal (jget "status" root) (jget "createdAt" root) (jget "updatedAt" root) journalIntent (Some originalSnapshot)
          (Some (MkFundingTransaction (to_base64 bytes) signature digest)) (jget "execution" root), bytes).

(** ** The WAL coin type *)
Definition WALRUS_SYSTEM_OBJECT (n : Network) : string :=
  match n with
  | FundMainnet => "0x2134d52768ea07e8c43570ef975eb3e4c27a39fa6396bef985b5abc58d03ddd2"
  | FundTestnet => "0x6c2547cbbc38025cf3adac45f63cb0a8d12ecf777cdc75a4971612bf97fdf6af"
  end.
Context (struct_address : json → js_error + string).      (** [parseStructTag(type).address] *)
Definition ends_with (suffix s : string) : bool := prefix_of (rev (chars suffix)) (rev (chars s)).
Definition array_at (i : nat) (v : json) : json := match v with JArr l => default JUndefined (l !! i) | _ => JUndefined end.
Definition walTypeForNetwork (network : Network) : FM string :=
  answer ← ask (FGetSystemObject (WALRUS_SYSTEM_OBJECT network));
  packageId ← f_of_sum (struct_address (jget "type" (jget "object" answer)));
  fn ← ask (FGetMoveFunction packageId "staking" "stake_with_pool");
  let toStake := jget "body" (array_at 1 (jget "parameters" (jget "function" fn))) in
  let coin := if Enoki.is_str (jget "$kind" toStake) "datatype" then jget "datatype" toStake else JNull in
  let wal := array_at 0 (jget "typeParameters" coin) in
  _ ← f_of_sum (check (Enoki.is_str (jget "$kind" wal) "datatype")
        ("could not read the WAL type from " +:+ packageId +:+ "::staking::stake_with_pool"));
  let walType := normalizeStructTag (text_of (jget "typeName" (jget "datatype" wal))) in
  _ ← f_of_sum (check (ends_with "::wal::WAL" walType) (packageId +:+ " yielded a non-WAL coin type: " +:+ walType));
  mret walType.

(** ** [main] *)
Record settings : Type := Settings {
  st_funderKey : string; st_mist : Z; st_frost : Z; st_network : Network; st_gasBudget : Z;
  st_dryRun : bool; st_prepareOnly : bool; st_journalPath : string; st_resume : option string;
  st_live : option string;
}.
Definition or_default (v : option string) (d : string) : string := default d v.
Definition network_of (v : string) : js_error + Network :=
  if seqb v "mainnet" then inr FundMainnet
  else if seqb v "testnet" then inr FundTestnet
  else fail ("NETWORK must be mainnet|testnet (walrus is not deployed elsewhere), got " +:+ quote v).
Definition parse_settings (e : Config.env) : js_error + settings :=
  funderKey ← requireEnv e "SUI_FUNDER_KEY";
  _ ← requireEnv e "GRPC_URL";
  mistStr ← requireEnv e "MIST_PER_ADDRESS";
  frostStr ← requireEnv e "FROST_PER_ADDRESS";
  let gasStr := or_default (fund_env e "GAS_BUDGET") "5000000000" in
  let dryRun := negb (seqb (or_default (fund_env e "DRY_RUN") "true") "false") in
  let prepareOnly := or_default (fund_env e "FUNDING_PREPARE_ONLY") "false" in
  let resume := fund_env e "FUNDING_JOURNAL_JSON" in
  mistPer ← parseAmount mistStr "MIST_PER_ADDRESS";
  frostPer ← parseAmount frostStr "FROST_PER_ADDRESS";
  network ← network_of (or_default (fund_env e "NETWORK") "mainnet");
  gasBudget ← parseAmount gasStr "GAS_BUDGET";
  _ ← check (seqb prepareOnly "true" || seqb prepareOnly "false") "FUNDING_PREPARE_ONLY must be true or false";
  _ ← check (negb (dryRun && seqb prepareOnly "true")) "FUNDING_PREPARE_ONLY=true requires DRY_RUN=false";
  _ ← check (negb (bool_decide (is_Some resume) && dryRun)) "FUNDING_JOURNAL_JSON requires DRY_RUN=false";
  mret (Settings funderKey mistPer frostPer network gasBudget dryRun (seqb prepareOnly "true")
          (or_default (fund_env e "FUNDING_JOURNAL_OUT") "funding-journal.json") resume
          (fund_env e "LIVE_WRITER_ADDRESSES_JSON")).

Context (signer_address : string → js_error + string).

Definition reconcile_now (writers : WriterAddresses) (live : string) : FM LiveWriterSnapshot :=
  now ← now_ms; f_of_sum (reconcileLiveWriters isValidSuiAddress date_parse writers live now).
(** [liveWriters!] *)
Definition live_of (c : settings) : string := or_default (st_live c) empty_str.
Definition startup_snapshot (c : settings) (writers : WriterAddresses) : FM (option LiveWriterSnapshot) :=
  match st_live c with
  | Some live => snapshot ← reconcile_now writers live; mret (Some snapshot)
  | None => if negb (st_dryRun c) then f_throw "missing required env var LIVE_WRITER_ADDRESSES_JSON" else mret None
  end.
Definition before_submit (c : settings) (writers : WriterAddresses) : FM unit :=
  _ ← reconcile_now writers (live_of c); mret tt.
Definition print_digest (digest : json) : FM unit := _ ← ask (FPrint (js_string digest)); mret tt.

Definition main_resume (c : settings) (writers : WriterAddresses) (intent : FundingIntent) (raw : string) : FM unit :=
  prepared ← f_of_sum (parseFundingJournal raw intent);
  liveSnapshot ← reconcile_now writers (live_of c);
  updatedAt ← ask FTimestamp;
  let j := prepared.1 in
  let reconciled := MkJournal (fj_status j) (fj_createdAt j) updatedAt (fj_intent j) (Some liveSnapshot)
                      (fj_transaction j) (fj_execution j) in
  _ ← writeJournalAtomic (st_journalPath c) reconciled;
  if st_prepareOnly c then print_digest (JStr (tx_digest_of reconciled))
  else
    digest ← reconcileAndExecuteFunding (st_journalPath c) reconciled prepared.2 (before_submit c writers);
    print_digest digest.

Definition balance_of (owner coinType : string) : FM Z :=
  answer ← ask (FGetBalance owner coinType);
  match to_bigint (jget "balance" (jget "balance" answer)) with
  | Some z => mret z
  | None => f_throw "Cannot convert undefined to a BigInt"
  end.
Definition payout (c : settings) (walType : string) (recipients : list string) : list draft_payment :=
  flat_map (λ addr, [DraftPayment SUI_COIN (st_mist c) addr; DraftPayment walType (st_frost c) addr]) recipients.

(** From the balances to the simulated transaction. *)
Definition build_payout (c : settings) (sender walType : string) (recipients : list string) : FM (list ascii) :=
  let n := Z.of_nat (length recipients) in
  suiHave ← balance_of sender SUI_COIN;
  walHave ← balance_of sender walType;
  _ ← f_of_sum (requireFunds "SUI (MIST, incl. gas budget)" suiHave (st_mist c * n + st_gasBudget c));
  _ ← f_of_sum (requireFunds "WAL (FROST)" walHave (st_frost c * n));
  transactionBytes ← ask (FBuild sender (st_gasBudget c) (payout c walType recipients));
  sim ← ask (FSimulate (text_of transactionBytes));
  _ ← f_of_sum (requireSuccess sim "funding simulation failed");
  mret (bytes_of transactionBytes).

(** Sign, validate, journal, and submit unless [FUNDING_PREPARE_ONLY]. *)
Definition sign_and_execute (c : settings) (writers : WriterAddresses) (sender : string) (intent : FundingIntent)
    (bytes : list ascii) : FM unit :=
  liveSnapshot ← reconcile_now writers (live_of c);
  signed ← ask (FSign (bytes_text bytes));
  let signature := text_of (jget "signature" signed) in
  let digest := tx_digest bytes in
  _ ← f_of_sum (assertFundingTransaction isValidSuiAddress tx_data bytes intent);
  _ ← f_of_sum (match tx_verify bytes signature sender with Some e => inl e | None => inr tt end);
  now ← ask FTimestamp;
  let journal := MkJournal (JStr "prepared") now now intent (Some liveSnapshot)
                   (Some (MkFundingTransaction (to_base64 bytes) signature digest)) JUndefined in
  _ ← writeJournalAtomic (st_journalPath c) journal;
  if st_prepareOnly c then print_digest (JStr digest)
  else
    executed ← reconcileAndExecuteFunding (st_journalPath c) journal bytes (before_submit c writers);
    print_digest executed.

Definition main_fresh (c : settings) (writers : WriterAddresses) (sender walType : string) (intent : FundingIntent)
    (recipients : list string) (liveSnapshot : option LiveWriterSnapshot) : FM unit :=
  bytes ← build_payout c sender walType recipients;
  if st_dryRun c then
    now ← ask FTimestamp;
    writeJournalAtomic (st_journalPath c) (MkJournal (JStr "simulated") now now intent liveSnapshot None JUndefined)
  else sign_and_execute c writers sender intent bytes.

Definition main (e : Config.env) : FM unit :=
  c ← f_of_sum (parse_settings e);
  raw ← ask (FReadManifest (st_network c));
  writers ← f_of_sum (parseWriters isValidSuiAddress (text_of raw) (network_text (st_network c) +:+ " payout manifest"));
  recipients ← f_of_sum (flattenWriters isValidSuiAddress (writers_json writers));
  liveSnapshot ← startup_snapshot c writers;
  address ← f_of_sum (signer_address (st_funderKey c));
  let sender := normalizeSuiAddress address in
  walType ← walTypeForNetwork (st_network c);
  intent ← f_of_sum (fundingIntent isValidSuiAddress (network_text (st_network c)) sender walType
             ("distribute-funds." +:+ network_text (st_network c) +:+ ".json") (writers_json writers)
             (st_mist c) (st_frost c) (st_gasBudget c));
  match st_resume c with
  | Some raw => main_resume c writers intent raw
  | None => main_fresh c writers sender walType intent recipients liveSnapshot
  end.
End Run.
