(* ===== verification/FundingSafety.v ===== *)
(** * Theorems about the funding of the upload wallets (scripts/distribute-funds.ts) *)
From Stdlib Require Import QArith Ascii.
From S2P Require Import Prelude JsText JsNumber JsonParse Base64 SealId Retry Wallet Service Util Blob Query Durable.
From S2P Require Import Config Metadata Ledger Funding FundingRun.
Local Open Scope Z_scope.

Lemma check_inr b message : check b message = inr tt ↔ b = true.
Proof. destruct b; simpl; [done|]. unfold fail. naive_solver. Qed.
Lemma sum_bind_inr {A B} (m : js_error + A) (k : A → js_error + B) b :
  (m ≫= k) = inr b ↔ ∃ a, m = inr a ∧ k a = inr b.
Proof. destruct m; simpl; unfold mbind; simpl; naive_solver. Qed.
Lemma check_bind {B} b message (k : js_error + B) r : (_ ← check b message; k) = inr r ↔ b = true ∧ k = inr r.
Proof. destruct b; simpl; unfold mbind; simpl; [|unfold fail]; naive_solver. Qed.

(** Split a successful run of fallible code into its steps. *)
Ltac steps H :=
  repeat match type of H with
  | (_ ← check _ _; _) = inr _ => apply check_bind in H; let Hc := fresh "Hc" in destruct H as [Hc H]
  | _ ≫= _ = inr _ => apply sum_bind_inr in H; let x := fresh "x" in let Hx := fresh "Hx" in destruct H as (x & Hx & H)
  end.

Lemma map_index_inr {A B} (f : nat → A → js_error + B) i l r :
  map_index f i l = inr r → Forall2 (λ x y, ∃ j, f j x = inr y) l r.
Proof.
  revert i r. induction l as [|x l IH]; intros i r Hr; simpl in Hr; [by injection Hr as <-|].
  steps Hr. injection Hr as <-. constructor; [by exists i|by eapply IH].
Qed.

(** ** The payout manifest *)
Lemma duplicate_none seen l : duplicate seen l = None → NoDup seen → NoDup (seen ++ l).
Proof.
  revert seen. induction l as [|a l IH]; intros seen Hd Hn; [by rewrite app_nil_r|]. simpl in Hd.
  destruct (existsb (seqb a) seen) eqn:E; [done|]. rewrite cons_middle, app_assoc. apply IH; [done|].
  apply NoDup_app. split; [done|]. split; [|apply NoDup_singleton].
  intros x Hx ->%list_elem_of_singleton. eapply eq_true_false_abs; [|exact E]. apply existsb_exists. exists a.
  split; [by apply list_elem_of_In|apply seqb_refl].
Qed.

Section Manifest.
Context `{SuiSdk} (isValidSuiAddress : string → bool).
Definition payable (a : string) : Prop := ∃ v, isValidSuiAddress v = true ∧ a = normalizeSuiAddress v.
Definition good_writers (writers : WriterAddresses) : Prop :=
  NoDup (addresses_of writers) ∧ addresses_of writers ≠ [] ∧ (length (addresses_of writers) ≤ MAX_RECIPIENTS)%nat ∧
  Forall payable (addresses_of writers).

Lemma normalize_writer_inr entry w : normalize_writer isValidSuiAddress entry = inr w → w.1 = entry.1 ∧ Forall payable w.2.
Proof.
  destruct entry as [writer addrs]. intros Hw. unfold normalize_writer in Hw. apply check_bind in Hw as [_ Hw].
  destruct addrs as [| | | | |[|x l]|]; try done. steps Hw. injection Hw as <-. split; [done|]. simpl.
  apply map_index_inr in Hx. eapply Forall_forall. intros a Ha. apply list_elem_of_lookup in Ha as [i Hi].
  destruct (Forall2_lookup_r _ _ _ _ _ Hx Hi) as (v & _ & j & Hv). unfold assertAddress in Hv. steps Hv.
  injection Hv as <-. by eexists.
Qed.
Lemma normalizeWriters_good manifest writers : normalizeWriters isValidSuiAddress manifest = inr writers →
  good_writers writers.
Proof.
  unfold normalizeWriters. destruct manifest as [| | | | | |entries]; try done. intros Hw. steps Hw.
  destruct (duplicate [] (addresses_of x)) eqn:Ed; [done|]. steps Hw. injection Hw as <-.
  apply negb_true_iff, bool_decide_eq_false in Hc. apply Nat.leb_le in Hc0.
  split_and!; [apply (duplicate_none [] _ Ed); constructor|done|done|].
  apply map_index_inr in Hx. clear Hc Hc0 Ed. unfold addresses_of. induction Hx as [|e w l ws (j & Hw) _ IH]; simpl; [done|].
  apply Forall_app. split; [|done]. by apply normalize_writer_inr in Hw as [_ Hp].
Qed.
Lemma flattenWriters_good manifest recipients : flattenWriters isValidSuiAddress manifest = inr recipients →
  ∃ writers, good_writers writers ∧ recipients = addresses_of writers.
Proof. intros Hf. unfold flattenWriters in Hf. steps Hf. injection Hf as <-. exists x. split; [by eapply normalizeWriters_good|done]. Qed.
End Manifest.

(** ** The signed bytes pay exactly the manifest *)
Section Payout.
Context `{SuiSdk} `{SuiTx} (isValidSuiAddress : string → bool) (tx_data : list ascii → js_error + funding_tx).

(** What a command of a valid payout may be, and what it pays. *)
Definition payout_coin (intent : FundingIntent) (coinType : string) : Prop :=
  coinType = normalizeStructTag SUI_COIN ∨ coinType = normalizeStructTag (fi_walType intent).
Definition framework_call (intent : FundingIntent) (call : tx_move_call) (coinType : string) : Prop :=
  normalizeSuiAddress (tm_package call) = normalizeSuiAddress "0x2" ∧
  (∃ type, tm_typeArguments call = [type] ∧ coinType = normalizeStructTag type) ∧ payout_coin intent coinType.
Inductive command_pays (data : funding_tx) (intent : FundingIntent) : tx_command → option payment → Prop :=
| pays_merge : command_pays data intent CMergeCoins None
| pays_split amounts : command_pays data intent (CSplitCoins amounts) None
| pays_internal call coinType : framework_call intent call coinType →
    move_target call ∈ ["balance::redeem_funds"; "coin::redeem_funds"; "coin::into_balance"; "coin::destroy_zero"] →
    command_pays data intent (CMoveCall call) None
| pays_remainder call coinType what : framework_call intent call coinType → move_target call = "coin::send_funds" →
    pureAddress data (tm_arguments call !! 1%nat) what = inr (fi_sender intent) →
    command_pays data intent (CMoveCall call) None
| pays_send call coinType balance recipient address amount what1 what2 :
    framework_call intent call coinType → move_target call = "balance::send_funds" →
    tm_arguments call = [balance; recipient] → pureAddress data (Some recipient) what1 = inr address →
    outputAmount data (Some balance) coinType what2 = inr amount →
    command_pays data intent (CMoveCall call) (Some (Payment address coinType amount)).

Lemma allowed_target target : existsb (seqb target) allowedMoveCalls = true → target ≠ "coin::send_funds" →
  target ≠ "balance::send_funds" →
  target ∈ ["balance::redeem_funds"; "coin::redeem_funds"; "coin::into_balance"; "coin::destroy_zero"].
Proof.
  intros (x & Hx & ->%seqb_eq)%existsb_exists. apply list_elem_of_In in Hx. unfold allowedMoveCalls in Hx. set_solver.
Qed.

Lemma check_command_pays data intent i command p :
  check_command data intent i command = inr p → command_pays data intent command p.
Proof.
  unfold check_command. destruct command as [call|amounts| |kind]; [|by intros [= <-]; constructor..|done].
  destruct (tm_typeArguments call) as [|type [|? ?]] eqn:Et; [done| |done]. cbv zeta. intros Hr. steps Hr.
  apply andb_true_iff in Hc as [Hpkg Htarget]. rename Hc0 into Hcoin.
  assert (Hf : framework_call intent call (normalizeStructTag type)).
  { split_and!; [by apply seqb_eq|by exists type|].
    apply orb_true_iff in Hcoin as [?%seqb_eq|?%seqb_eq]; [by left|by right]. }
  destruct (seqb (move_target call) "coin::send_funds") eqn:E1.
  - steps Hr. injection Hr as <-. apply seqb_eq in E1, Hc. subst. by eapply pays_remainder.
  - destruct (negb _) eqn:E2.
    + injection Hr as <-. apply negb_true_iff, seqb_neq in E2. apply seqb_neq in E1.
      eapply pays_internal; [done|]. by apply allowed_target.
    + steps Hr. injection Hr as <-. apply negb_false_iff, seqb_eq in E2. apply Nat.eqb_eq in Hc.
      destruct (tm_arguments call) as [|a [|b [|? ?]]] eqn:Ea; try done. by eapply pays_send.
Qed.

Lemma collect_pays data intent i l ps : collect_payments data intent i l = inr ps →
  ∃ os, Forall2 (command_pays data intent) l os ∧ ps = omap id os.
Proof.
  revert i ps. induction l as [|command l IH]; intros i ps Hc; simpl in Hc.
  { injection Hc as <-. by exists []. }
  steps Hc. injection Hc as <-. destruct (IH _ _ Hx0) as (os & Ho & ->). exists (x :: os).
  split; [constructor; [by eapply check_command_pays|done]|]. by destruct x.
Qed.
Lemma mismatch_none i l l' : length l = length l' → mismatch i l l' = None → l = l'.
Proof.
  revert i l'. induction l as [|a l IH]; intros i [|e l'] Hl Hm; try done. simpl in Hm.
  destruct (bool_decide (a = e)) eqn:E; [|done]. apply bool_decide_eq_true in E as ->. f_equal. eapply IH; [by injection Hl|done].
Qed.

Definition paid (coinType : string) (ps : list payment) : Z :=
  foldr Z.add 0 (map pay_amount (filter (λ p, pay_coinType p = coinType) ps)).
Lemma paid_expected intent recipients : normalizeStructTag SUI_COIN ≠ normalizeStructTag (fi_walType intent) →
  paid (normalizeStructTag SUI_COIN) (expected_payments intent recipients) = fi_mistPer intent * Z.of_nat (length recipients) ∧
  paid (normalizeStructTag (fi_walType intent)) (expected_payments intent recipients) =
    fi_frostPer intent * Z.of_nat (length recipients).
Proof.
  intros Hne. unfold paid. induction recipients as [|a l [IH1 IH2]]; [simpl; lia|].
  cbn [expected_payments flat_map app length]. rewrite !filter_cons. simpl.
  rewrite decide_True by done. rewrite decide_False by done. rewrite (decide_False (P := _ = normalizeStructTag _)) by done.
  rewrite decide_True by done. simpl. unfold expected_payments in IH1, IH2. rewrite IH1, IH2. lia.
Qed.

(** C7: the bytes that are signed and replayed encode the payout of the
    intent and nothing else.  Sender and gas owner are the funder, the gas
    budget is the intent's; every command merges or splits coins or is one
    of six framework calls on SUI or WAL; what is left over of a coin only
    goes back to the sender; and the [balance::send_funds] calls, in order,
    pay every address of the manifest the SUI amount and then the WAL amount,
    each address once, so that the totals are the number of recipients times
    the amounts. *)
Theorem payout_is_exact bytes intent data :
  assertFundingTransaction isValidSuiAddress tx_data bytes intent = inr data →
  tx_data bytes = inr data ∧
  normalizeSuiAddress <$> ft_sender data = Some (fi_sender intent) ∧
  normalizeSuiAddress <$> ft_gasOwner data = Some (fi_sender intent) ∧
  default 0 (ft_gasBudget data) = fi_gasBudget intent ∧
  ∃ recipients os, flattenWriters isValidSuiAddress (writers_json (fi_writers intent)) = inr recipients ∧
    NoDup recipients ∧ recipients ≠ [] ∧ (length recipients ≤ 500)%nat ∧
    Forall2 (command_pays data intent) (ft_commands data) os ∧
    omap id os = expected_payments intent recipients ∧
    (normalizeStructTag SUI_COIN ≠ normalizeStructTag (fi_walType intent) →
     paid (normalizeStructTag SUI_COIN) (omap id os) = fi_mistPer intent * Z.of_nat (length recipients) ∧
     paid (normalizeStructTag (fi_walType intent)) (omap id os) = fi_frostPer intent * Z.of_nat (length recipients)).
Proof.
  intros Ha. unfold assertFundingTransaction in Ha. steps Ha.
  destruct (mismatch _ _ _) eqn:Em; [done|]. injection Ha as ->.
  assert (Hs : ∀ a, is_sender intent a = true → normalizeSuiAddress <$> a = Some (fi_sender intent)).
  { intros [a|] Hs; [|done]. simpl in *. split_andb. by f_equal; apply seqb_eq. }
  destruct (flattenWriters_good _ _ _ Hx1) as (ws & (Hn & Hne & Hlen & _) & ->).
  destruct (collect_pays _ _ _ _ _ Hx0) as (os & Hos & ->). apply Nat.eqb_eq in Hc2.
  apply mismatch_none in Em; [|done].
  split_and!; [done|by apply Hs|by apply Hs|by apply Z.eqb_eq|]. exists (addresses_of ws), os.
  split_and!; try done. rewrite Em. apply paid_expected.
Qed.
End Payout.

(** ** The snapshot of the live writers *)
Section Snapshot.
Context `{SuiSdk} (isValidSuiAddress : string → bool) (date_parse : string → option Z).

Lemma existsb_fresh x l : negb (existsb (seqb x) l) = true → x ∉ l.
Proof.
  intros Hx Hin. apply negb_true_iff in Hx. eapply eq_true_false_abs; [|exact Hx]. apply existsb_exists. exists x.
  split; [by apply list_elem_of_In|apply seqb_refl].
Qed.
Lemma existsb_in x l : existsb (seqb x) l = true → x ∈ l.
Proof. intros (y & Hy & ->%seqb_eq)%existsb_exists. by apply list_elem_of_In. Qed.

Lemma NoDup_snoc {A} (l : list A) x : NoDup l → x ∉ l → NoDup (l ++ [x]).
Proof.
  intros Hl Hx. apply NoDup_app. split; [done|]. split; [|apply NoDup_singleton]. set_solver.
Qed.

Lemma parse_secrets_names i seen l r : parse_secrets i seen l = inr r → NoDup seen → NoDup (seen ++ map sec_name r).
Proof.
  revert i seen r. induction l as [|raw l IH]; intros i seen r Hp Hs; simpl in Hp.
  { injection Hp as <-. by rewrite app_nil_r. }
  steps Hp. injection Hp as <-. simpl. rewrite cons_middle, app_assoc. eapply IH; [done|].
  apply NoDup_snoc; [done|by apply existsb_fresh].
Qed.
Lemma parse_providers_good i secrets seen l r : parse_providers i secrets seen l = inr r →
  Forall (λ p, sp_secretName p ∈ secrets ∧ sp_key p = "SERVER_SUI_PRIVATE_KEYS") r.
Proof.
  revert i seen r. induction l as [|raw l IH]; intros i seen r Hp; simpl in Hp; [by injection Hp as <-|].
  steps Hp. injection Hp as <-. constructor; [|by eapply IH]. simpl.
  split; [by apply existsb_in|by apply seqb_eq].
Qed.
Lemma parse_images_names id i seen l r : parse_images id i seen l = inr r → NoDup seen → NoDup (seen ++ map im_name r).
Proof.
  revert i seen r. induction l as [|raw l IH]; intros i seen r Hp Hs; simpl in Hp.
  { injection Hp as <-. by rewrite app_nil_r. }
  steps Hp. injection Hp as <-. simpl. rewrite cons_middle, app_assoc. eapply IH; [done|].
  apply NoDup_snoc; [done|by apply existsb_fresh].
Qed.

(** A writer of a snapshot, at its position. *)
Definition writer_good (set : StatefulSet) (ordinal : nat) (w : LiveWriter) : Prop :=
  lw_ordinal w = ordinal ∧ lw_id w = ss_name set +:+ "-" +:+ nat_text ordinal ∧ lw_revision w = ss_revision set ∧
  NoDup (map im_name (lw_images w)) ∧ lw_addresses w ≠ [] ∧ NoDup (lw_addresses w) ∧
  Forall (payable isValidSuiAddress) (lw_addresses w).
Lemma parse_writer_good set pods ordinal raw w : parse_writer isValidSuiAddress set pods ordinal raw = inr w →
  writer_good set ordinal w ∧ lw_podUid w ∉ pods.
Proof.
  intros Hp. unfold parse_writer in Hp. steps Hp. injection Hp as <-.
  repeat match goal with Hc : seqb _ _ = true |- _ => apply seqb_eq in Hc end.
  match goal with Hw : normalizeWriters _ _ = inr _ |- _ => apply normalizeWriters_good in Hw as (Hn & Hne & _ & Hv) end.
  match goal with Hi : parse_images _ _ _ _ = inr _ |- _ => apply parse_images_names in Hi; [|constructor] end.
  split; [|by apply existsb_fresh]. split_and!; done.
Qed.
Lemma parse_live_writers_good set pods ordinal l r :
  parse_live_writers isValidSuiAddress set pods ordinal l = inr r → NoDup pods →
  length r = length l ∧ NoDup (pods ++ map lw_podUid r) ∧
  ∀ i w, r !! i = Some w → writer_good set (ordinal + i) w.
Proof.
  revert pods ordinal r. induction l as [|raw l IH]; intros pods ordinal r Hp Hn; simpl in Hp.
  { injection Hp as <-. split_and!; [done|by rewrite app_nil_r|by intros i w Hi; rewrite lookup_nil in Hi]. }
  steps Hp. injection Hp as <-. destruct (parse_writer_good _ _ _ _ _ Hx) as [Hw Hpod].
  destruct (IH _ _ _ Hx0) as (Hl & Hn' & Hi); [by apply NoDup_snoc|].
  split_and!; [simpl; by f_equal| |].
  - simpl. rewrite cons_middle, app_assoc. done.
  - intros [|i] w Hiw; simpl in Hiw; [injection Hiw as <-; by rewrite Nat.add_0_r|].
    rewrite <-Nat.add_succ_comm. by apply Hi.
Qed.
Lemma find_none {A} (p : A → bool) l : List.find p l = None → ∀ x, x ∈ l → p x = false.
Proof. intros Hf x Hx. eapply List.find_none; [done|]. by apply list_elem_of_In. Qed.
Lemma same_images_spec writers : same_images writers = true →
  ∀ w w', w ∈ writers → w' ∈ writers → lw_images w = lw_images w'.
Proof.
  destruct writers as [|w0 l]; [by intros _ w w' Hw%elem_of_nil|]. intros Hs w w' Hw Hw'.
  assert (Ha : ∀ v, v ∈ w0 :: l → lw_images v = lw_images w0).
  { intros v Hv. unfold same_images in Hs. rewrite forallb_forall in Hs. by apply list_elem_of_In, Hs, bool_decide_eq_true in Hv. }
  by rewrite Ha, (Ha w').
Qed.

Lemma check_providers_spec writers providers : check_providers writers providers = inr tt →
  ∀ p w, p ∈ providers → w ∈ writers → sp_container p ∈ map im_name (lw_images w).
Proof.
  unfold check_providers. destruct (List.find _ _) eqn:Ef; [done|]. intros _ p w Hp Hw.
  pose proof (find_none _ _ Ef p Hp) as Hf. apply negb_false_iff in Hf. rewrite forallb_forall in Hf.
  apply list_elem_of_In, Hf, existsb_exists in Hw as (im & Him & Heq%seqb_eq).
  apply list_elem_of_fmap. exists im. split; [by rewrite Heq|by apply list_elem_of_In].
Qed.
Lemma check_age_spec now ms : check_age (Some now) ms = inr tt → - 60 * 1000 <= now - ms <= 15 * 60 * 1000.
Proof.
  intros Hc. unfold check_age, LIVE_SNAPSHOT_MAX_AGE_MS, LIVE_SNAPSHOT_FUTURE_SKEW_MS in Hc. cbv zeta in Hc.
  apply check_bind in Hc as [H1 H2%check_inr]. apply negb_true_iff, Z.ltb_ge in H1, H2. lia.
Qed.
Lemma parse_stateful_set_spec raw set : parse_stateful_set raw = inr set →
  ss_currentReplicas set = ss_replicas set ∧ ss_updatedReplicas set = ss_replicas set ∧ ss_readyReplicas set = ss_replicas set.
Proof.
  intros Hs. unfold parse_stateful_set in Hs. steps Hs. injection Hs as <-. split_andb. split_and!; by apply Z.eqb_eq.
Qed.

(** What makes a snapshot consistent in itself. *)
Definition snapshot_good (snapshot : LiveWriterSnapshot) : Prop :=
  let set := ls_statefulSet snapshot in
  let writers := ls_writers snapshot in
  ss_currentReplicas set = ss_replicas set ∧ ss_updatedReplicas set = ss_replicas set ∧
  ss_readyReplicas set = ss_replicas set ∧ Z.of_nat (length writers) = ss_replicas set ∧
  (∀ i w, writers !! i = Some w → writer_good set i w) ∧ NoDup (map lw_podUid writers) ∧
  (∀ w w', w ∈ writers → w' ∈ writers → lw_images w = lw_images w') ∧
  NoDup (map sec_name (ls_secrets snapshot)) ∧
  (∀ p, p ∈ ls_providers snapshot → sp_secretName p ∈ map sec_name (ls_secrets snapshot) ∧
     ∀ w, w ∈ writers → sp_container p ∈ map im_name (lw_images w)).
Lemma parse_snapshot_good root now snapshot : parse_snapshot isValidSuiAddress date_parse root now = inr snapshot →
  snapshot_good snapshot ∧ ∃ ms, date_parse (ls_collectedAt snapshot) = Some ms ∧ check_age now ms = inr tt.
Proof.
  intros Hs. unfold parse_snapshot in Hs. steps Hs. injection Hs as <-. unfold snapshot_good. cbn.
  repeat match goal with x : unit |- _ => destruct x end.
  match goal with Ht : parse_stateful_set _ = inr _ |- _ => apply parse_stateful_set_spec in Ht as (H1 & H2 & H3) end.
  match goal with Hw : parse_live_writers _ _ _ _ _ = inr _ |- _ =>
    apply parse_live_writers_good in Hw as (Hl & Hpods & Hw); [|constructor] end.
  match goal with Hp : parse_providers _ _ _ _ = inr _ |- _ => apply parse_providers_good in Hp; rewrite Forall_forall in Hp; rename Hp into Hprov end.
  match goal with Hp : parse_secrets _ _ _ = inr _ |- _ => apply parse_secrets_names in Hp; [|constructor]; rename Hp into Hsec end.
  match goal with Hp : check_providers _ _ = inr _ |- _ => pose proof (check_providers_spec _ _ Hp) end.
  split.
  - split_and!; try done; [rewrite Hl; by apply Z.eqb_eq|by apply same_images_spec|].
    intros p Hp. split; [by apply Hprov|]. intros w Hiw. eauto.
  - destruct (date_parse _) eqn:Ed; [|done]. simplify_eq. eauto.
Qed.

(** A payout only proceeds on a consistent, current picture of the fleet.
    A snapshot that is reconciled with the manifest was collected at most
    fifteen minutes ago and at most one minute in the future; the rollout is
    complete, with one pod per replica, in order, on one revision, with
    distinct pod identities and the same images; each secret provider
    runs in every pod and uses one of the listed immutable secrets; and
    the pods and the order of their wallets are exactly the manifest's. *)
Theorem live_snapshot_consistent expected raw now snapshot :
  reconcileLiveWriters isValidSuiAddress date_parse expected raw now = inr snapshot →
  (∃ ms, date_parse (ls_collectedAt snapshot) = Some ms ∧ - 60 * 1000 <= now - ms <= 15 * 60 * 1000) ∧
  snapshot_good snapshot ∧ map lw_id (ls_writers snapshot) = map fst expected ∧
  ∀ w, w ∈ ls_writers snapshot → assoc (lw_id w) expected = Some (lw_addresses w).
Proof.
  intros Hr. unfold reconcileLiveWriters in Hr. steps Hr. injection Hr as ->.
  unfold assertSnapshotMatchesWriters in Hx0. steps Hx0. destruct (List.find _ (ls_writers _)) eqn:Ef; [done|].
  unfold parseLiveWriterSnapshot in Hx. destruct (json_parse raw) as [parsed|]; [|done]. steps Hx.
  apply parse_snapshot_good in Hx as (Hgood & ms & Hd & Hage%check_age_spec).
  split; [by exists ms|]. split_and!; [done|by apply bool_decide_eq_true in Hc|].
  intros w Hw. pose proof (find_none _ _ Ef w Hw) as Hf. by apply negb_false_iff, bool_decide_eq_true in Hf.
Qed.
End Snapshot.
