(* ===== verification/FundingLedger.v ===== *)
(** * When the funding script signs, journals, submits and prints (scripts/distribute-funds.ts)

    Each external call of a run is justified by the answers before it: the
    rules are [justified], the proofs walk [main] with the triples of
    [Ledger]. *)
From Stdlib Require Import QArith Ascii.
From S2P Require Import Prelude JsText JsNumber JsonParse Base64 SealId Retry Wallet Service Util Blob Query Durable.
From S2P Require Import Config Metadata Ledger Funding FundingRun FundingSafety.
From S2P Require Enoki.
Local Open Scope Z_scope.

Definition is_execute (ev : fevent) : bool := match ev with FExecute _ _ => true | _ => false end.
Definition no_execute (tr : list fevent) : Prop := forallb (λ ev, negb (is_execute ev)) tr = true.

(** Facts that only a submission can undo. *)
Class Quiet (F : list fevent → Prop) : Prop := quiet tr ev : is_execute ev = false → F tr → F (tr ++ [ev]).
#[export] Instance quiet_mono F : Mono F → Quiet F | 10.
Proof. intros HF tr ev _. apply HF. Qed.
#[export] Instance quiet_no_execute : Quiet no_execute.
Proof. intros tr ev He Hf. unfold no_execute. rewrite forallb_app, Hf. simpl. by rewrite He. Qed.
#[export] Instance quiet_and F G : Quiet F → Quiet G → Quiet (λ tr, F tr ∧ G tr).
Proof. intros HF HG tr ev He [Hf Hg]. split; by apply quiet. Qed.

Lemma all_answered_snoc {E V} (outside : list fevent → E + V) pre evs ev v :
  (∀ l l', evs = l ++ l' → l ≠ [] → ∃ v, outside (pre ++ l) = inr v) → outside (pre ++ evs ++ [ev]) = inr v →
  ∀ l l', evs ++ [ev] = l ++ l' → l ≠ [] → ∃ v, outside (pre ++ l) = inr v.
Proof.
  intros Ha Hv l l' Hl Hne. destruct l' as [|x l'] using rev_ind.
  - rewrite app_nil_r in Hl. subst l. eauto.
  - rewrite app_assoc in Hl. apply app_inj_tail in Hl as [Hl ->]. eauto.
Qed.

Section Run.
Context `{SuiSdk} `{SuiTx}.
Context (isValidSuiAddress : string → bool) (date_parse : string → option Z).
Context (tx_data : list ascii → js_error + funding_tx).
Context (outside : list fevent → js_error + json).
Context (struct_address : json → js_error + string) (signer_address : string → js_error + string).
Context (c : settings).

Notation ask := (ask outside).
Notation answered := (answered outside []).

(** [tr] ends with [evs], all answered, and [F] held before them. *)
Definition after (evs : list fevent) (F : list fevent → Prop) (tr : list fevent) : Prop :=
  ∃ pre, tr = pre ++ evs ∧ F pre ∧ ∀ l l', evs = l ++ l' → l ≠ [] → ∃ v, outside (pre ++ l) = inr v.

(** The calls of a successful write of the journal. *)
Definition temporary_events (path : string) (j : FundingJournal) : list fevent :=
  [FOpenTemporary path; FWriteFile j; FFsync; FClose].
Definition persist_events (path : string) (j : FundingJournal) : list fevent :=
  temporary_events path j ++ [FRename path; FOpenDirectory path; FFsyncDirectory; FCloseDirectory].

(** What this run means to pay: the manifest it read, the funder's own
    address, the WAL type and the configured amounts. *)
Definition intended (writers : WriterAddresses) (sender walType : string) (intent : FundingIntent)
    (tr : list fevent) : Prop :=
  ∃ raw, answered (FReadManifest (st_network c)) raw tr ∧
    parseWriters isValidSuiAddress (text_of raw) (network_text (st_network c) +:+ " payout manifest") = inr writers ∧
    (∃ address, signer_address (st_funderKey c) = inr address ∧ sender = normalizeSuiAddress address) ∧
    ends_with "::wal::WAL" walType = true ∧
    fundingIntent isValidSuiAddress (network_text (st_network c)) sender walType
      ("distribute-funds." +:+ network_text (st_network c) +:+ ".json") (writers_json writers)
      (st_mist c) (st_frost c) (st_gasBudget c) = inr intent.
(** The clock was just read, and the snapshot of the live writers is
    consistent, current and matches the manifest. *)
Definition fleet_checked (writers : WriterAddresses) (tr : list fevent) : Prop :=
  ∃ pre v now snapshot, tr = pre ++ [FNow] ∧ outside tr = inr v ∧ as_safe_int v = Some now ∧
    reconcileLiveWriters isValidSuiAddress date_parse writers (live_of c) now = inr snapshot.

(** A journal whose signed bytes are this payout. *)
Definition signed_payout (sender : string) (intent : FundingIntent) (j : FundingJournal) (b : list ascii)
    (signature : string) : Prop :=
  fj_intent j = intent ∧ fj_transaction j = Some (MkFundingTransaction (to_base64 b) signature (tx_digest b)) ∧
  (∃ data, assertFundingTransaction isValidSuiAddress tx_data b intent = inr data) ∧
  ∃ signer, signer ∈ [sender; fi_sender intent] ∧ tx_verify b signature signer = None.

Definition submission_ready (tr : list fevent) (bytes signature : string) : Prop :=
  st_dryRun c = false ∧ st_prepareOnly c = false ∧ no_execute tr ∧
  ∃ writers sender walType intent j b pre error,
    bytes = bytes_text b ∧ intended writers sender walType intent tr ∧ signed_payout sender intent j b signature ∧
    fj_status j = JStr "prepared" ∧
    tr = (pre ++ persist_events (st_journalPath c) j) ++ [FGetTransaction (tx_digest b); FNow] ∧
    outside ((pre ++ persist_events (st_journalPath c) j) ++ [FGetTransaction (tx_digest b)]) = inl error ∧
    isTransactionNotFound error (tx_digest b) = true ∧ fleet_checked writers tr.

(** What justifies each call. *)
Definition justified (tr : list fevent) (ev : fevent) : Prop :=
  match ev with
  | FBuild sender gasBudget payments =>
      no_execute tr ∧ ∃ writers walType intent sui wal suiHave walHave,
        intended writers sender walType intent tr ∧ gasBudget = st_gasBudget c ∧
        payments = payout c walType (addresses_of (fi_writers intent)) ∧
        answered (FGetBalance sender SUI_COIN) sui tr ∧ answered (FGetBalance sender walType) wal tr ∧
        to_bigint (jget "balance" (jget "balance" sui)) = Some suiHave ∧
        to_bigint (jget "balance" (jget "balance" wal)) = Some walHave ∧
        st_mist c * Z.of_nat (length (addresses_of (fi_writers intent))) + st_gasBudget c <= suiHave ∧
        st_frost c * Z.of_nat (length (addresses_of (fi_writers intent))) <= walHave
  | FSign bytes =>
      st_dryRun c = false ∧ st_resume c = None ∧ no_execute tr ∧
      ∃ writers sender walType intent built sim tx,
        intended writers sender walType intent tr ∧ bytes = text_of built ∧
        answered (FBuild sender (st_gasBudget c) (payout c walType (addresses_of (fi_writers intent)))) built tr ∧
        answered (FSimulate bytes) sim tr ∧ requireSuccess sim "funding simulation failed" = inr tx ∧
        fleet_checked writers tr
  | FExecute bytes signature => submission_ready tr bytes signature
  | FRename path =>
      path = st_journalPath c ∧ ∃ j, after (temporary_events path j) (λ _, True) tr
  | FPrint digest =>
      st_dryRun c = false ∧ ∃ j, after (persist_events (st_journalPath c) j) (λ _, True) tr ∧ tx_digest_of j = digest ∧
        if st_prepareOnly c then no_execute tr else fj_status j = JStr "succeeded"
  | _ => True
  end.

Notation law := (process_law justified).
#[local] Instance mono_intended writers sender walType intent : Mono (intended writers sender walType intent).
Proof. unfold intended. apply _. Qed.

(** ** Rules *)
Lemma law_ask {B} F `{!Quiet F} ev (k : json → FM B) R : is_execute ev = false → (∀ tr, F tr → justified tr ev) →
  (∀ v, law (λ tr, F tr ∧ answered ev v tr) (k v) R) → law F (ask ev ≫= k) R.
Proof.
  intros He Hok Hk. eapply lawful_bind; [|exact Hk].
  intros tr [Hl Hf]. destruct (calls (Calls := ask_calls outside ev) tr) as [Ht Hr].
  pose proof (ledger_snoc (λ tr, tr) [] justified tr _ ev Hl (Hok _ Hf) Ht) as Hl'.
  destruct (ask ev tr) as [tr' r]; simpl in *. subst. destruct (outside _) as [e|v] eqn:Ev; [split; [done|by exists e]|].
  split; [done|]. split; [by apply quiet|]. exists tr. by split.
Qed.
Lemma law_note {B} F `{!Quiet F} ev (k : json → FM B) R : is_execute ev = false → (∀ tr, F tr → justified tr ev) →
  (∀ v, law F (k v) R) → law F (ask ev ≫= k) R.
Proof.
  intros He Hok Hk. apply law_ask; [done..|]. intros v. eapply lawful_weaken; [apply Hk|by intros tr []|done].
Qed.
Lemma law_after {F evs} ev : (∀ tr, after evs F tr → justified tr ev) →
  law (after evs F) (ask ev) (λ v tr, after (evs ++ [ev]) F tr ∧ outside tr = inr v).
Proof.
  intros Hok. eapply lawful_weaken; [apply (lawful_exact (λ tr, tr) outside (λ e, e) [] justified (ask ev) ev _ _ Hok)|done|].
  intros v tr (p & -> & (pre & -> & Hf & Ha) & Hv). split; [|done]. exists pre. rewrite <-app_assoc in *.
  split_and!; [done|done|]. by eapply all_answered_snoc.
Qed.
Lemma after_nil (F : list fevent → Prop) tr : F tr → after [] F tr.
Proof. intros Hf. exists tr. rewrite app_nil_r. split_and!; [done|done|]. by intros [|] ? ?. Qed.
Lemma after_weaken (F G : list fevent → Prop) evs tr : (∀ tr, F tr → G tr) → after evs F tr → after evs G tr.
Proof. intros HFG (pre & ? & ? & ?). exists pre. auto. Qed.
Lemma after_quiet F evs tr `{!Quiet F} : forallb (λ ev, negb (is_execute ev)) evs = true → after evs F tr → F tr.
Proof.
  intros He (pre & -> & Hf & _). revert pre Hf. induction evs as [|ev evs IH]; intros pre Hf; [by rewrite app_nil_r|].
  simpl in He. apply andb_true_iff in He as [Hev%negb_true_iff He]. rewrite cons_middle, app_assoc. apply IH; [done|by apply quiet].
Qed.

(** ** The durable write *)
Lemma cleanup_law opened temporary : law (λ _, True) (cleanup outside opened temporary) (λ _ _, True).
Proof.
  assert (Hone : ∀ (b : bool) ev, is_execute ev = false → (∀ tr, justified tr ev) →
    law (λ _, True) (if b then _ ← ask ev; mret tt else mret tt) (λ _ _, True)).
  { intros [] ev He Hok; [|by apply lawful_ret]. apply law_note; [apply _|done|by intros tr _|]. intros _. by apply lawful_ret. }
  unfold cleanup. eapply lawful_bind; [by apply Hone|]. intros u. by apply (Hone temporary).
Qed.
Lemma guard_law {A} F opened temporary (m : FM A) k G R : law F m G → (∀ a, law (G a) (k a) R) →
  law F (guard_file outside opened temporary m k) R.
Proof.
  intros Hm Hk tr Htr. specialize (Hm tr Htr). unfold guard_file. destruct (m tr) as [tr' [e|a]]; [|by apply Hk].
  destruct Hm as [Hl _]. pose proof (cleanup_law opened temporary tr' (conj Hl Logic.I)) as Hc.
  destruct (cleanup _ _ _ _) as [tr'' [e'|u]]; destruct Hc as [Hc _]; (split; [done|by eexists]).
Qed.
Lemma finally_law {A} F (m : FM A) (f : FM unit) (G R : A → list fevent → Prop) : law F m G →
  law (λ _, True) f (λ _ _, True) → (∀ a, law (G a) f (λ _, R a)) → law F (finally_do m f) R.
Proof.
  intros Hm Hf Hg tr Htr. specialize (Hm tr Htr). unfold finally_do. destruct (m tr) as [tr' [e|a]].
  - destruct Hm as [Hl _]. specialize (Hf tr' (conj Hl Logic.I)).
    destruct (f tr') as [tr'' [e'|u]]; destruct Hf as [Hf _]; (split; [done|by eexists]).
  - specialize (Hg a tr' Hm). by destruct (f tr') as [tr'' [e'|u]].
Qed.
(** The next call of a file operation. *)
Lemma next_law {F evs} ev v0 : (∀ tr, after evs F tr → justified tr ev) →
  law (λ tr, after evs F tr ∧ outside tr = inr v0) (ask ev) (λ v tr, after (evs ++ [ev]) F tr ∧ outside tr = inr v).
Proof. intros Hok. eapply lawful_weaken; [apply (law_after ev Hok)|by intros tr []|done]. Qed.

Lemma write_law F path j : path = st_journalPath c →
  law F (writeJournalAtomic outside path j) (λ _, after (persist_events path j) F).
Proof.
  intros Hpath. eapply law_pre; [apply after_nil|]. unfold writeJournalAtomic.
  eapply lawful_bind; [by apply law_after|]. intros v. simpl.
  eapply guard_law; [by apply next_law|].
  intros v1. simpl.
  eapply guard_law; [by apply next_law|].
  intros v2. simpl.
  eapply guard_law; [by apply next_law|].
  intros v3. simpl.
  eapply guard_law; [apply next_law|].
  { intros tr Ha. split; [done|]. exists j. by eapply after_weaken. }
  intros v4. eapply lawful_bind; [by apply next_law|]. intros v5. simpl.
  eapply (finally_law _ _ _ (λ _ tr, after (temporary_events path j ++ [FRename path; FOpenDirectory path; FFsyncDirectory]) F tr)).
  - eapply lawful_bind; [by apply next_law|]. intros v6. apply lawful_ret. by intros tr [].
  - apply law_note; [apply _|done..|]. intros _. by apply lawful_ret.
  - intros _. eapply lawful_bind; [by apply law_after|]. intros v6. apply lawful_ret. by intros tr [].
Qed.

(** ** Observing and submitting *)
Notation reconcile_now := (reconcile_now isValidSuiAddress date_parse outside).
Lemma reconcile_law F writers : law F (reconcile_now writers (live_of c))
  (λ _ tr, ∃ pre, tr = pre ++ [FNow] ∧ F pre ∧ fleet_checked writers tr).
Proof.
  unfold FundingRun.reconcile_now, now_ms.
  eapply (lawful_bind _ _ _ _ _ _ _ (λ t tr, ∃ pre v, tr = pre ++ [FNow] ∧ F pre ∧ outside tr = inr v ∧ as_safe_int v = Some t)).
  - eapply lawful_bind; [by apply (lawful_exact (λ tr, tr) outside (λ e, e) [] justified (ask FNow) FNow _ F)|].
    intros v. destruct (as_safe_int v) as [t|] eqn:Et; [|apply law_throw]. apply lawful_ret.
    intros tr (pre & -> & Hf & Hv). by exists pre, v.
  - intros t. destruct (reconcileLiveWriters _ _ _ _ _) as [e|snapshot] eqn:Er; simpl.
    { apply (lawful_throw (λ tr : list fevent, tr) (λ e : js_error, e)). }
    apply lawful_ret. intros tr (pre & v & -> & Hf & Hv & Ht). exists pre. split_and!; [done..|]. by exists pre, v, t, snapshot.
Qed.

(** The journal [r.1] with the outcome [r.2] is on disk. *)
Definition observed_outcome (path digest : string) (result : json) (r : FundingJournal * json) (tr : list fevent) : Prop :=
  after (persist_events path r.1) (λ _, True) tr ∧ tx_digest_of r.1 = digest ∧ jget "digest" r.2 = JStr digest ∧
  r.2 = transactionFromResult result ∧
  (truthy (jget "success" (jget "status" r.2)) = true → fj_status r.1 = JStr "succeeded").
Lemma record_law F path j result source : path = st_journalPath c →
  law F (recordObservedTransaction outside path j result source) (observed_outcome path (tx_digest_of j) result).
Proof.
  intros Hpath. eapply law_pre; [by intros tr _; exact Logic.I|]. unfold recordObservedTransaction. cbv zeta.
  apply law_sum. intros [] [_ Hd]%check_inr%andb_true_iff.
  destruct (jget "success" _) as [| |success| | | |] eqn:Es; try apply law_throw.
  apply law_note; [apply _|done..|]. intros updatedAt. apply law_note; [apply _|done..|]. intros observedAt.
  eapply lawful_bind; [by apply write_law|]. intros u'. apply lawful_ret. intros tr Htr. split_and!; [done|done| |done|].
  - simpl. destruct (jget "digest" _); try done. by apply seqb_eq in Hd as ->.
  - simpl. rewrite Es. by destruct success.
Qed.
Lemma requireSuccess_truthy result context tx : requireSuccess result context = inr tx →
  truthy (jget "success" (jget "status" (transactionFromResult result))) = true.
Proof. intros Hr. unfold requireSuccess in Hr. cbv zeta in Hr. steps Hr. done. Qed.

(** What a completed payout leaves. *)
Definition paid_out (path : string) (digest : json) (tr : list fevent) : Prop :=
  ∃ j, after (persist_events path j) (λ _, True) tr ∧ digest = JStr (tx_digest_of j) ∧ fj_status j = JStr "succeeded".
Lemma finish_law F path digest result (m : FM (FundingJournal * json)) : law F m (observed_outcome path digest result) →
  law F (observed ← m;
         _ ← f_of_sum (requireSuccess result "journaled funding transaction failed");
         mret (jget "digest" observed.2)) (paid_out path).
Proof.
  intros Hm. eapply lawful_bind; [exact Hm|]. intros [observed tx]. apply law_sum.
  intros u Hu%requireSuccess_truthy. apply lawful_ret. intros tr (Ha & Hd & Hj & Htx & Hs). simpl in *. subst.
  exists observed. rewrite Hj. auto.
Qed.

Section Submission.
Context (writers : WriterAddresses) (sender walType : string) (intent : FundingIntent).
Context (j : FundingJournal) (b : list ascii) (signature : string).
Context (Hsigned : signed_payout sender intent j b signature) (Hdry : st_dryRun c = false) (Hprepare : st_prepareOnly c = false).
Notation path := (st_journalPath c).
Notation before := (before_submit isValidSuiAddress date_parse outside c writers).

Definition before_lookup (tr : list fevent) : Prop :=
  no_execute tr ∧ intended writers sender walType intent tr ∧ ∃ pre, tr = pre ++ persist_events path j.
Definition not_on_chain (tr : list fevent) : Prop :=
  ∃ pre error, tr = pre ++ [FGetTransaction (tx_digest b)] ∧ before_lookup pre ∧ outside tr = inl error ∧
    isTransactionNotFound error (tx_digest b) = true.
Lemma digest_signed : tx_digest_of j = tx_digest b.
Proof. destruct Hsigned as (_ & Ht & _). unfold tx_digest_of. by rewrite Ht. Qed.

Lemma ready_to_submit tr pre : fj_status j = JStr "prepared" → tr = pre ++ [FNow] → not_on_chain pre → fleet_checked writers tr →
  submission_ready tr (bytes_text b) signature.
Proof.
  intros Hj -> (p & error & -> & (Hn & Hi & q & ->) & He & Hnf) Hf.
  assert (Hq : ∀ G, Quiet G → G (q ++ persist_events path j) →
    G (((q ++ persist_events path j) ++ [FGetTransaction (tx_digest b)]) ++ [FNow])).
  { intros G HG Hg. apply HG; [done|]. by apply HG. }
  split_and!; [done|done|apply Hq; [apply _|done]|].
  exists writers, sender, walType, intent, j, b, q, error.
  split_and!; [done|apply (Hq (intended writers sender walType intent)); [apply _|done]|done|done|by rewrite <-app_assoc|done..].
Qed.
Lemma submit_law : law not_on_chain (submit_journaled outside path j b before) (paid_out path).
Proof.
  unfold submit_journaled. cbv zeta. apply law_sum. intros [] Hst%check_inr.
  assert (Hprep : fj_status j = JStr "prepared"). { destruct (fj_status j); try done. by apply seqb_eq in Hst as ->. }
  eapply (lawful_bind _ _ _ _ _ _ _ (λ _ tr, ∃ pre, tr = pre ++ [FNow] ∧ not_on_chain pre ∧ fleet_checked writers tr)).
  { eapply lawful_bind; [apply reconcile_law|]. intros snapshot. by apply lawful_ret. }
  intros u'. eapply (lawful_bind _ _ _ _ _ _ _ (λ _ _, True)).
  - eapply (lawful_try (λ tr, tr) (λ e, e)); [|intros e; apply law_throw].
    destruct Hsigned as (_ & Ht & _). rewrite Ht. simpl.
    eapply lawful_weaken; [eapply (lawful_exact (λ tr, tr) outside (λ e, e) [] justified _ _ _)|by intros tr Htr; exact Htr|done].
    intros tr (pre & Htr & Hn & Hf). by eapply ready_to_submit.
  - intros result. eapply finish_law. eapply (lawful_try (λ tr, tr) (λ e, e)); [by apply record_law|].
    intros e. apply law_throw.
Qed.
Lemma execute_law : law before_lookup (reconcileAndExecuteFunding outside path j b before) (paid_out path).
Proof.
  unfold reconcileAndExecuteFunding. cbv zeta. rewrite digest_signed.
  eapply lawful_bind.
  - apply (lawful_exact_try (λ tr, tr) outside (λ e, e) [] justified (ask (FGetTransaction (tx_digest b))) _ _ before_lookup
             inr inl); [done|done].
  - intros [error|result].
    + destruct (negb _) eqn:En; [apply law_throw|]. apply negb_false_iff in En. eapply law_pre; [|apply submit_law].
      intros tr (pre & -> & Hb & [(v & [=] & _)|(e & [= ->] & He)]). by exists pre, e.
    + destruct result; try (eapply finish_law; by apply record_law). apply law_throw.
Qed.
End Submission.

(** ** The run *)
Notation main := (main isValidSuiAddress date_parse tx_data outside struct_address signer_address).
Notation path := (st_journalPath c).

Lemma print_law F digest : (∀ tr, F tr → justified tr (FPrint (js_string digest))) →
  law F (print_digest outside digest) (λ _ _, True).
Proof.
  intros Hok. by apply law_last.
Qed.
Lemma paid_out_printed digest tr : st_dryRun c = false → st_prepareOnly c = false → paid_out path digest tr →
  justified tr (FPrint (js_string digest)).
Proof. intros Hd Hp (j & Ha & -> & Hs). split; [done|]. exists j. by rewrite Hp. Qed.

Section Intent.
Context (writers : WriterAddresses) (sender walType : string) (intent : FundingIntent).
(** The facts of a run that has not submitted anything. *)
Definition settled (tr : list fevent) : Prop := no_execute tr ∧ intended writers sender walType intent tr.
#[local] Instance quiet_settled : Quiet settled.
Proof. unfold settled. apply _. Qed.

(** Write a signed journal, then print its digest or submit it. *)
Lemma journal_law j b signature : signed_payout sender intent j b signature → st_dryRun c = false →
  law settled
    (_ ← writeJournalAtomic outside path j;
     if st_prepareOnly c then print_digest outside (JStr (tx_digest_of j))
     else
       executed ← reconcileAndExecuteFunding outside path j b (before_submit isValidSuiAddress date_parse outside c writers);
       print_digest outside executed) (λ _ _, True).
Proof.
  intros Hs Hd. eapply lawful_bind; [by apply write_law|]. intros u. destruct (st_prepareOnly c) eqn:Ep.
  - apply print_law. intros tr Htr. split; [done|]. exists j. rewrite Ep. simpl. split_and!; [by eapply after_weaken|done|].
    by destruct (after_quiet settled _ _ (reflexivity _) Htr).
  - eapply law_pre; [|eapply lawful_bind; [by apply (execute_law writers sender walType intent j b signature)|]].
    + intros tr Htr. destruct (after_quiet settled _ _ (reflexivity _) Htr) as [Hn Hi]. split_and!; [done..|].
      destruct Htr as (pre & -> & _). by exists pre.
    + intros digest. apply print_law. intros tr. by apply paid_out_printed.
Qed.

Lemma parsed_journal raw j b : parseFundingJournal isValidSuiAddress date_parse tx_data raw intent = inr (j, b) →
  ∃ signature, signed_payout sender intent j b signature.
Proof.
  intros Hp. unfold parseFundingJournal in Hp. steps Hp. injection Hp as <- <-. simpl.
  match goal with Hd : seqb _ (tx_digest _) = true |- _ => apply seqb_eq in Hd; subst end.
  match goal with Hi : bool_decide (_ = intent) = true |- _ => apply bool_decide_eq_true in Hi; subst end.
  match goal with Hv : match tx_verify ?b ?s ?a with _ => _ end = _ |- _ => exists s; destruct (tx_verify b s a) eqn:Ev; [done|] end.
  split_and!; [done|done|by eexists|]. exists (fi_sender intent). split; [set_solver|done].
Qed.
Lemma resume_law raw : st_resume c = Some raw → st_dryRun c = false →
  law settled (main_resume isValidSuiAddress date_parse tx_data outside c writers intent raw) (λ _ _, True).
Proof.
  intros Hr Hd. unfold main_resume. apply law_sum. intros [j b] (signature & Hs)%parsed_journal.
  eapply lawful_bind; [apply reconcile_law|]. intros snapshot. eapply law_pre; [by intros tr (pre & -> & Hf & _); apply quiet_settled; [|exact Hf]|].
  apply law_note; [apply _|done..|]. intros updatedAt. cbv zeta. cbn [fst snd].
  apply (journal_law (MkJournal _ _ _ _ _ _ _) b signature); [exact Hs|done].
Qed.

(** Balances, build and simulation. *)
Definition n_recipients : Z := Z.of_nat (length (addresses_of (fi_writers intent))).
Notation payments := (payout c walType (addresses_of (fi_writers intent))).
Definition enough (coinType : string) (need : Z) (tr : list fevent) : Prop :=
  ∃ answer have, answered (FGetBalance sender coinType) answer tr ∧
    to_bigint (jget "balance" (jget "balance" answer)) = Some have ∧ need <= have.
#[local] Instance mono_enough coinType need : Mono (enough coinType need).
Proof. unfold enough. apply _. Qed.
Definition balance_is (coinType : string) (have : Z) (tr : list fevent) : Prop :=
  ∃ answer, answered (FGetBalance sender coinType) answer tr ∧ to_bigint (jget "balance" (jget "balance" answer)) = Some have.
#[local] Instance mono_balance_is coinType have : Mono (balance_is coinType have).
Proof. unfold balance_is. apply _. Qed.
Lemma balance_law F coinType `{!Quiet F} : law F (balance_of outside sender coinType)
  (λ have tr, F tr ∧ balance_is coinType have tr).
Proof.
  unfold balance_of. apply law_ask; [done..|]. intros answer. destruct (to_bigint _) as [have|] eqn:Eh; [|apply law_throw].
  apply lawful_ret. intros tr [Hf Ha]. split; [done|]. by exists answer.
Qed.
Lemma requireFunds_enough what have need u : requireFunds what have need = inr u → need <= have.
Proof. destruct u. intros Hr%check_inr. by apply negb_true_iff, Z.ltb_ge in Hr. Qed.

(** The transaction is built for this payout and its simulation succeeded. *)
Definition simulated (built : json) (tr : list fevent) : Prop :=
  answered (FBuild sender (st_gasBudget c) payments) built tr ∧
  ∃ sim tx, answered (FSimulate (text_of built)) sim tr ∧ requireSuccess sim "funding simulation failed" = inr tx.
#[local] Instance mono_simulated built : Mono (simulated built).
Proof. unfold simulated. apply _. Qed.
Lemma build_law : law settled (build_payout outside c sender walType (addresses_of (fi_writers intent)))
  (λ b tr, settled tr ∧ ∃ built, b = bytes_of built ∧ simulated built tr).
Proof.
  unfold build_payout. cbv zeta. eapply lawful_bind; [by apply balance_law; apply _|]. intros sui.
  eapply lawful_bind; [by apply balance_law; apply _|]. intros wal.
  apply law_sum. intros u1 H1%requireFunds_enough. apply law_sum. intros u2 H2%requireFunds_enough.
  apply law_ask; [apply _|done| |].
  { intros tr (([Hn Hi] & (a1 & Ha1 & Hb1)) & (a2 & Ha2 & Hb2)). split; [done|].
    exists writers, walType, intent, a1, a2, sui, wal. by split_and!. }
  intros built. apply law_ask; [apply _|done..|]. intros sim. apply law_sum. intros tx Hsim. apply lawful_ret.
  intros tr ((((Hs & _) & _) & Hb) & Hm). split; [done|]. exists built. split; [done|]. split; [done|]. by exists sim, tx.
Qed.

Lemma sign_law built : st_resume c = None → st_dryRun c = false →
  law (λ tr, settled tr ∧ simulated built tr)
    (sign_and_execute isValidSuiAddress date_parse tx_data outside c writers sender intent (bytes_of built)) (λ _ _, True).
Proof.
  intros Hr Hd. unfold sign_and_execute. eapply lawful_bind; [apply reconcile_law|]. intros snapshot.
  eapply lawful_bind.
  - apply (lawful_exact (λ tr, tr) outside (λ e, e) [] justified (ask _) _ _ _).
    intros tr (pre & -> & (Hs & Hb) & Hf). apply (quiet_settled _ FNow) in Hs as [Hn Hi]; [|done].
    apply (mono_simulated _ _ FNow) in Hb as (Hb & sim & tx & Hm & Hok).
    split_and!; [done..|]. exists writers, sender, walType, intent, built, sim, tx.
    by rewrite (of_chars_chars (text_of built) : bytes_text (bytes_of built) = text_of built).
  - intros signed. cbv zeta. apply law_sum. intros data Hdata. apply law_sum. intros u Hv.
    apply (law_pre _ _ settled); [|apply law_note; [apply _|done..|]].
    { intros tr (pre & -> & (p & -> & (Hs & _) & _) & _). apply quiet_settled; [done|]. by apply quiet_settled. }
    intros now. apply (journal_law (MkJournal (JStr "prepared") now now intent (Some snapshot)
      (Some (MkFundingTransaction (to_base64 (bytes_of built)) (text_of (jget "signature" signed)) (tx_digest (bytes_of built))))
      JUndefined) (bytes_of built) (text_of (jget "signature" signed))); [|done].
    split_and!; [done|done|by eexists|]. exists sender. split; [set_solver|]. by destruct (tx_verify _ _ _).
Qed.

Lemma fresh_law live : st_resume c = None →
  law settled (main_fresh isValidSuiAddress date_parse tx_data outside c writers sender walType intent
                 (addresses_of (fi_writers intent)) live) (λ _ _, True).
Proof.
  intros Hr. unfold main_fresh. eapply lawful_bind; [apply build_law|]. intros b.
  destruct (st_dryRun c) eqn:Ed.
  - apply law_note; [|done..|].
    + intros tr ev He (Hs & built & Hb & Hm). split; [by apply quiet_settled|]. exists built. split; [done|]. by apply mono_simulated.
    + intros now. eapply lawful_weaken; [by apply (write_law (λ _, True))|done|done].
  - apply (law_pre _ _ (λ tr, ∃ built, b = bytes_of built ∧ settled tr ∧ simulated built tr)).
    { intros tr (Hs & built & Hb & Hm). by exists built. }
    apply law_ex. intros built. apply (lawful_know _ _ _ _ (b = bytes_of built)); [by intros tr []|]. intros ->.
    eapply law_pre; [|by apply sign_law]. by intros tr [].
Qed.
End Intent.

(** Up to the intent of the run. *)
Lemma wal_type_law F `{!Quiet F} : law F (walTypeForNetwork outside struct_address (st_network c))
  (λ walType tr, F tr ∧ ends_with "::wal::WAL" walType = true).
Proof.
  unfold walTypeForNetwork. apply law_note; [done..|]. intros answer. apply law_sum. intros packageId _.
  apply law_note; [done..|]. intros fn. cbv zeta. apply law_sum. intros u1 _. apply law_sum. intros [] Hw%check_inr.
  by apply lawful_ret.
Qed.
Lemma startup_law F `{!Quiet F} writers : law F (startup_snapshot isValidSuiAddress date_parse outside c writers) (λ _, F).
Proof.
  unfold startup_snapshot, live_of. destruct (st_live c) as [live|] eqn:El.
  - eapply lawful_bind; [pose proof (reconcile_law F writers) as Hl; unfold live_of in Hl; rewrite El in Hl; exact Hl|].
    intros snapshot. apply lawful_ret. intros tr (pre & -> & Hf & _). by apply quiet.
  - destruct (negb _); [apply law_throw|by apply lawful_ret].
Qed.
Lemma resumable_settings e : parse_settings e = inr c → is_Some (st_resume c) → st_dryRun c = false.
Proof.
  intros Hp Hr. unfold parse_settings in Hp. cbv zeta in Hp. steps Hp. injection Hp as <-. simpl in *.
  destruct Hr as [r Hr]. rewrite Hr in *. simpl in *. by destruct (negb (seqb _ "false")).
Qed.
Lemma main_law e : parse_settings e = inr c → law no_execute (main e) (λ _ _, True).
Proof.
  intros Hc. unfold FundingRun.main. rewrite Hc. simpl. apply law_ask; [apply _|done..|]. intros raw.
  apply law_sum. intros writers Hw. apply law_sum. intros recipients Hrec.
  eapply lawful_bind; [apply startup_law; apply _|]. intros live. apply law_sum. intros address Haddr. cbv zeta.
  eapply lawful_bind; [apply wal_type_law; apply _|]. intros walType. apply law_sum. intros intent Hintent.
  unfold flattenWriters in Hrec. unfold fundingIntent in Hintent. steps Hrec. injection Hrec as <-.
  assert (Hi : fundingIntent isValidSuiAddress (network_text (st_network c)) (normalizeSuiAddress address) walType
    ("distribute-funds." +:+ network_text (st_network c) +:+ ".json") (writers_json writers)
    (st_mist c) (st_frost c) (st_gasBudget c) = inr intent) by done.
  steps Hintent. assert (x = fi_writers intent) as -> by (injection Hintent as <-; simpl; congruence).
  apply (law_pre _ _ (settled writers (normalizeSuiAddress address) walType intent)).
  { intros tr ((Hn & Ha) & He). split; [done|]. exists raw. split_and!; [done|done|by exists address|done|done]. }
  destruct (st_resume c) as [r|] eqn:Er.
  - apply resume_law; [done|]. eapply resumable_settings; [done|by rewrite Er].
  - by apply fresh_law.
Qed.
End Run.

Section Main.
Context `{SuiSdk} `{SuiTx} (isValidSuiAddress : string → bool) (date_parse : string → option Z).
Context (tx_data : list ascii → js_error + funding_tx) (outside : list fevent → js_error + json).
Context (struct_address : json → js_error + string) (signer_address : string → js_error + string).

(** C6: nothing is signed, submitted or reported that is not justified by
    the answers before it, whatever the outside answers.  The payout is built
    only when the balances cover it; it is signed only in a real run, after its
    simulation succeeded and the fleet was checked again; a journal replaces
    the one on disk only when the temporary file was written, synchronised and
    closed; the signed bytes are submitted at most once, and then directly
    after a durable journal with these bytes and status "prepared", a lookup
    that found no such transaction on chain, and a last check of the fleet,
    the bytes being exactly the payout of this run under the funder's
    signature; a digest is printed only directly after the journal that
    records it as prepared (and nothing was submitted) or as succeeded.
    Without valid settings nothing is called. *)
Theorem funding_submission_justified e :
  let run := main isValidSuiAddress date_parse tx_data outside struct_address signer_address e [] in
  match parse_settings e with
  | inl error => run = ([], inl error)
  | inr c => ∀ pre ev post, fst run = pre ++ ev :: post →
      justified isValidSuiAddress date_parse tx_data outside signer_address c pre ev
  end.
Proof.
  destruct (parse_settings e) as [error|c] eqn:Ep; cbv zeta.
  - unfold main. by rewrite Ep.
  - intros pre ev post Htr. by apply (lawful_each _ _ [] _ _ _ _ [] pre ev post (main_law isValidSuiAddress date_parse tx_data outside struct_address signer_address c e Ep)).
Qed.
End Main.
