(* ===== verification/FundingOutcome.v ===== *)
(** * How a run of the funding script ends (scripts/distribute-funds.ts)

    Every end of a run is a known one: nothing submitted, an ambiguous outcome
    that names its digest, or a definite outcome that is on disk. *)
From Stdlib Require Import QArith Ascii.
From S2P Require Import Prelude JsText JsNumber JsonParse Base64 SealId Retry Wallet Service Util Blob Query Durable.
From S2P Require Import Config Metadata Ledger Funding FundingRun FundingSafety FundingLedger.
From S2P Require Enoki.
Local Open Scope Z_scope.

Section Main.
Context `{SuiSdk} `{SuiTx} (isValidSuiAddress : string → bool) (date_parse : string → option Z).
Context (tx_data : list ascii → js_error + funding_tx) (outside : list fevent → js_error + json).
Context (struct_address : json → js_error + string) (signer_address : string → js_error + string).

(** ** Errors of a submission *)
Notation ask := (ask outside).
Notation write := (writeJournalAtomic outside).
Lemma invariant_ask F ev `{!Quiet F} : is_execute ev = false → invariant F (ask ev).
Proof. intros He tr Hf. unfold Ledger.ask. cbv zeta. destruct (outside _); by apply quiet. Qed.
Lemma invariant_of_sum {A} F (r : js_error + A) : invariant F (f_of_sum r : FM A).
Proof. destruct r; [apply invariant_throw|apply invariant_ret]. Qed.
Lemma invariant_guard {A} F opened temporary (m : FM A) k :
  invariant F m → invariant F (cleanup outside opened temporary) → (∀ a, invariant F (k a)) → invariant F (guard_file outside opened temporary m k).
Proof.
  intros Hm Hc Hk tr Hf. specialize (Hm tr Hf). unfold guard_file. destruct (m tr) as [tr' [e|a]]; [|by apply Hk].
  specialize (Hc tr' Hm). by destruct (cleanup _ _ _ _) as [tr'' [e'|u]].
Qed.
Lemma invariant_finally {A} F (m : FM A) f : invariant F m → invariant F f → invariant F (finally_do m f).
Proof.
  intros Hm Hf tr Htr. specialize (Hm tr Htr). unfold finally_do. destruct (m tr) as [tr' [e|a]]; specialize (Hf tr' Hm);
    by destruct (f tr') as [tr'' [e'|u]].
Qed.
Lemma invariant_write F path j `{!Quiet F} : invariant F (write path j).
Proof.
  assert (Hc : ∀ o t, invariant F (cleanup outside o t)).
  { intros [] []; unfold cleanup; auto 10 using invariant_ask with memwal. }
  unfold writeJournalAtomic.
  repeat first [apply invariant_bind; [by apply invariant_ask|intros ?]|apply invariant_guard; [by apply invariant_ask|done|intros ?]].
  apply invariant_finally; auto using invariant_ask with memwal.
Qed.
(** A run that succeeds from [tr] ends with the calls [evs]. *)
Definition traces {A} (tr : list fevent) (m : FM A) (evs : list fevent) : Prop :=
  triple (λ t, t = tr) m (λ _ t, t = tr ++ evs) (λ _ _, True).
Lemma traces_ask tr ev : traces tr (ask ev) [ev].
Proof. intros t ->. unfold Ledger.ask. cbv zeta. by destruct (outside _). Qed.
Lemma traces_bind {A B} tr (m : FM A) (k : A → FM B) evs evs' : traces tr m evs → (∀ a, traces (tr ++ evs) (k a) evs') →
  traces tr (m ≫= k) (evs ++ evs').
Proof. intros Hm Hk. unfold traces. rewrite app_assoc. eapply triple_bind; [exact Hm|exact Hk]. Qed.
Lemma traces_guard {A} tr opened temporary (m : FM A) k evs evs' : traces tr m evs → (∀ a, traces (tr ++ evs) (k a) evs') →
  traces tr (guard_file outside opened temporary m k) (evs ++ evs').
Proof.
  intros Hm Hk t Ht. specialize (Hm t Ht). unfold guard_file. destruct (m t) as [t' [e|a]].
  - by destruct (cleanup _ _ _ _) as [t'' [e'|u]].
  - rewrite app_assoc. by apply Hk.
Qed.
Lemma traces_finally {A} tr (m : FM A) f evs evs' : traces tr m evs → traces (tr ++ evs) f evs' →
  traces tr (finally_do m f) (evs ++ evs').
Proof.
  intros Hm Hf t Ht. specialize (Hm t Ht). unfold finally_do. destruct (m t) as [t' [e|a]].
  - by destruct (f t') as [t'' [e'|u]].
  - subst t'. specialize (Hf _ eq_refl). rewrite app_assoc. by destruct (f _) as [t'' [e'|u]].
Qed.
Lemma traces_unit tr ev : traces tr (_ ← ask ev; mret tt) [ev].
Proof. rewrite <-(app_nil_r [ev]). apply traces_bind; [apply traces_ask|]. intros v t ->. by rewrite app_nil_r. Qed.
Lemma write_traces path j tr : traces tr (write path j) (persist_events path j).
Proof.
  unfold writeJournalAtomic, persist_events, temporary_events. simpl.
  apply (traces_bind _ _ _ [_]); [apply traces_ask|intros _]. do 4 (apply (traces_guard _ _ _ _ _ [_]); [apply traces_ask|intros _]).
  apply (traces_bind _ _ _ [_]); [apply traces_ask|intros _].
  apply (traces_finally _ _ _ [_] [_]); apply traces_unit.
Qed.

Definition AMBIGUOUS (digest : string) : string := "FUNDING OUTCOME AMBIGUOUS for digest " +:+ digest +:+ ".".
(** The run ends with a journal of this outcome on disk. *)
Definition outcome_recorded (path digest status : string) (tr : list fevent) : Prop :=
  ∃ pre j, tr = pre ++ persist_events path j ∧ tx_digest_of j = digest ∧ fj_status j = JStr status.
Definition ambiguous (b : list ascii) (e : js_error) (tr : list fevent) : Prop :=
  (∃ signature, FExecute (bytes_text b) signature ∈ tr) ∧ ∃ rest, e_message e = AMBIGUOUS (tx_digest b) +:+ rest.
Definition definitively_failed (path digest : string) (e : js_error) (tr : list fevent) : Prop :=
  (∃ rest, e_message e = "journaled funding transaction failed: " +:+ rest) ∧ outcome_recorded path digest "failed" tr.

Lemma write_outcome (I : list fevent → Prop) path j : Quiet I →
  triple I (write path j) (λ _ tr, ∃ pre, tr = pre ++ persist_events path j) (λ _, I).
Proof.
  intros HI tr Htr. pose proof (invariant_write I path j tr Htr) as Hi. pose proof (write_traces path j tr tr eq_refl) as Hw.
  destruct (write _ _ _) as [tr' [e|u]]; [done|by exists tr].
Qed.
Lemma record_outcome (I : list fevent → Prop) path j result source : Quiet I →
  triple I (recordObservedTransaction outside path j result source)
    (λ r tr, if truthy (jget "success" (jget "status" (transactionFromResult result)))
             then truthy (transactionFromResult result) = true ∧ jget "digest" r.2 = JStr (tx_digest_of j) ∧
                  outcome_recorded path (tx_digest_of j) "succeeded" tr
             else truthy (transactionFromResult result) = true ∧ outcome_recorded path (tx_digest_of j) "failed" tr)
    (λ _, I).
Proof.
  intros HI. unfold recordObservedTransaction. cbv zeta.
  destruct (check _ _) as [e|[]] eqn:Ec; [by apply triple_throw|]. apply check_inr, andb_true_iff in Ec as [Ht Hd]. simpl.
  assert (Hd' : jget "digest" (transactionFromResult result) = JStr (tx_digest_of j)).
  { destruct (jget "digest" _); try done. by apply seqb_eq in Hd as ->. }
  destruct (jget "success" _) as [| |success| | | |] eqn:Es; try by apply triple_throw.
  eapply (triple_bind _ (λ _, I)); [by apply triple_ret|]. intros u0.
  eapply (triple_bind _ (λ _, I)); [by apply invariant_ask|]. intros updatedAt.
  eapply (triple_bind _ (λ _, I)); [by apply invariant_ask|]. intros observedAt.
  eapply triple_bind; [by apply write_outcome|]. intros u. apply triple_ret. intros tr (pre & ->). simpl.
  destruct success; simpl; split_and!; try done; by eexists _, _.
Qed.
Definition finished (path : string) (digest : json) (tr : list fevent) : Prop :=
  ∃ d, digest = JStr d ∧ outcome_recorded path d "succeeded" tr.
Lemma requireSuccess_definite result context : truthy (transactionFromResult result) = true →
  if truthy (jget "success" (jget "status" (transactionFromResult result)))
  then ∃ tx, requireSuccess result context = inr tx
  else ∃ rest e, requireSuccess result context = inl e ∧ e_message e = context +:+ ": " +:+ rest.
Proof.
  intros Ht. unfold requireSuccess. cbv zeta. rewrite Ht. simpl. destruct (truthy (jget "success" _)); simpl.
  - by eexists.
  - by eexists _, _.
Qed.
(** The end of a submission or of a reconciliation. *)
Lemma finish_outcome I path digest result (m : FM (FundingJournal * json)) (R : js_error → list fevent → Prop) :
  triple I m
    (λ r tr, if truthy (jget "success" (jget "status" (transactionFromResult result)))
             then truthy (transactionFromResult result) = true ∧ jget "digest" r.2 = JStr digest ∧
                  outcome_recorded path digest "succeeded" tr
             else truthy (transactionFromResult result) = true ∧ outcome_recorded path digest "failed" tr) R →
  (∀ e tr, definitively_failed path digest e tr → R e tr) →
  triple I (observed ← m;
            _ ← f_of_sum (requireSuccess result "journaled funding transaction failed");
            mret (jget "digest" observed.2)) (finished path) R.
Proof.
  intros Hm Hf. eapply triple_bind; [exact Hm|]. intros [j tx] tr Htr. simpl in *.
  destruct (truthy (jget "success" _)) eqn:Es.
  - destruct Htr as (Ht & Hd & Ho). pose proof (requireSuccess_definite result "journaled funding transaction failed" Ht) as Hr.
    rewrite Es in Hr. destruct Hr as [tx' ->]. simpl. exists digest. by rewrite Hd.
  - destruct Htr as (Ht & Ho). pose proof (requireSuccess_definite result "journaled funding transaction failed" Ht) as Hr.
    rewrite Es in Hr. destruct Hr as (rest & e & -> & He). simpl. apply Hf. split; [by exists rest|done].
Qed.

(** How a submission fails. *)
Definition submission_error (path : string) (b : list ascii) (e : js_error) (tr : list fevent) : Prop :=
  no_execute tr ∨ ambiguous b e tr ∨ definitively_failed path (tx_digest b) e tr.
#[local] Instance quiet_elem ev : Quiet (λ tr, ev ∈ tr).
Proof. intros tr e _ Hin. apply elem_of_app. by left. Qed.
#[local] Instance quiet_exists {X} (F : X → list fevent → Prop) : (∀ x, Quiet (F x)) → Quiet (λ tr, ∃ x, F x tr).
Proof. intros HF tr ev He [x Hx]. exists x. by apply HF. Qed.
Lemma submission_outcome path j b before : tx_digest_of j = tx_digest b → invariant no_execute before →
  triple no_execute (submit_journaled outside path j b before) (finished path) (submission_error path b).
Proof.
  intros Hd Hb. unfold submit_journaled. cbv zeta. rewrite Hd.
  assert (Hn : ∀ {A} (m : FM A), invariant no_execute m → triple no_execute m (λ _, no_execute) (submission_error path b)).
  { intros A m Hm. eapply triple_conseq; [exact Hm|done|done|]. intros e tr. by left. }
  eapply triple_bind; [by apply Hn, invariant_of_sum|]. intros u. eapply triple_bind; [by apply Hn|]. intros u'.
  set (signature := match fj_transaction j with Some t => tr_signature t | None => empty_str end).
  pose (I := λ tr : list fevent, FExecute (bytes_text b) signature ∈ tr).
  assert (Hamb : ∀ e rest tr, I tr → e_message e = AMBIGUOUS (tx_digest b) +:+ rest → submission_error path b e tr).
  { intros e rest tr Hi He. right. left. split; [by exists signature|by exists rest]. }
  eapply (triple_bind _ (λ _, I)).
  - eapply (triple_catch _ (λ _, I)).
    + intros tr _. unfold Ledger.ask. cbv zeta. destruct (outside _); unfold I; set_solver.
    + intros e. apply triple_throw. intros tr Hi. eapply Hamb; [done|]. unfold AMBIGUOUS. rewrite !sapp_assoc. reflexivity.
  - intros result. eapply (finish_outcome I path (tx_digest_of j)).
    + eapply (triple_catch _ (λ _, I)); [apply record_outcome; apply _|].
      intros e. apply triple_throw. intros tr Hi. eapply Hamb; [done|]. unfold AMBIGUOUS. rewrite !sapp_assoc. reflexivity.
    + intros e tr He. rewrite Hd in He. by do 2 right.
Qed.
Lemma reconcile_outcome path j b before : tx_digest_of j = tx_digest b → invariant no_execute before →
  triple no_execute (reconcileAndExecuteFunding outside path j b before) (finished path) (submission_error path b).
Proof.
  intros Hd Hb. unfold reconcileAndExecuteFunding. cbv zeta. eapply (triple_bind _ (λ _, no_execute)).
  { apply (triple_conseq _ no_execute _ _ (λ _, no_execute) _ (λ _, no_execute)); [|done|done|by intros e tr; left]. unfold lookup_funding.
    apply invariant_catch; [apply invariant_bind; [by apply invariant_ask; [apply _|]|intros v; apply invariant_ret]|].
    intros e. apply invariant_ret. }
  intros [error|result].
  - destruct (negb _); [apply triple_throw; by left|]. by apply submission_outcome.
  - assert (Hq : triple no_execute (observed ← recordObservedTransaction outside path j result "query";
        _ ← f_of_sum (requireSuccess result "journaled funding transaction failed"); mret (jget "digest" observed.2))
        (finished path) (submission_error path b)).
    { eapply (finish_outcome no_execute path (tx_digest_of j)).
      - eapply triple_conseq; [by apply (record_outcome no_execute); apply _|done|intros r tr Hr; exact Hr|by intros e tr; left].
      - intros e tr He. rewrite Hd in He. by do 2 right. }
    destruct result; try exact Hq. apply triple_throw. by left.
Qed.

(** Printing the digest is the last step of a payout. *)
Definition printed (path : string) (tr : list fevent) : Prop :=
  ∃ pre j, tr = pre ++ persist_events path j ++ [FPrint (tx_digest_of j)] ∧ fj_status j = JStr "succeeded".
Definition run_error (path : string) (e : js_error) (tr : list fevent) : Prop :=
  (∃ b, submission_error path b e tr) ∨ printed path tr.
Lemma print_outcome path digest :
  triple (finished path digest) (print_digest outside digest) (λ _ tr, printed path tr) (λ _ tr, printed path tr).
Proof.
  intros tr (d & -> & pre & j & -> & Hd & Hs). unfold print_digest, Ledger.ask, mbind, st_bind. cbv zeta.
  assert (Hp : printed path ((pre ++ persist_events path j) ++ [FPrint d])).
  { exists pre, j. by rewrite <-app_assoc, Hd. }
  by destruct (outside _).
Qed.
Notation quiet_run m path := (triple no_execute m (λ _ tr, no_execute tr ∨ printed path tr) (run_error path)).
Lemma quiet_step {A B} path (m : FM A) (k : A → FM B) : invariant no_execute m → (∀ a, quiet_run (k a) path) →
  quiet_run (m ≫= k) path.
Proof.
  intros Hm Hk. eapply triple_bind; [|exact Hk]. eapply triple_conseq; [exact Hm|done|done|].
  intros e tr He. left. exists []. by left.
Qed.
Lemma reconcile_quiet writers live : invariant no_execute (reconcile_now isValidSuiAddress date_parse outside writers live).
Proof.
  unfold reconcile_now, now_ms. apply invariant_bind; [|intros t; apply invariant_of_sum].
  apply invariant_bind; [by apply invariant_ask; [apply _|]|]. intros v.
  destruct (as_safe_int v); [apply invariant_ret|apply invariant_throw].
Qed.
Lemma journal_outcome path j b writers live (prepareOnly : bool) : tx_digest_of j = tx_digest b →
  quiet_run (_ ← write path j;
    if prepareOnly then print_digest outside (JStr (tx_digest_of j))
    else
      executed ← reconcileAndExecuteFunding outside path j b (_ ← reconcile_now isValidSuiAddress date_parse outside writers live; mret tt);
      print_digest outside executed) path.
Proof.
  intros Hd. apply quiet_step; [by apply invariant_write; apply _|]. intros u. destruct prepareOnly.
  - apply quiet_step; [by apply invariant_ask; [apply _|]|]. intros v. apply triple_ret. by left.
  - eapply triple_bind.
    + eapply triple_conseq; [apply (reconcile_outcome path j b)|done|by intros a tr Ha; exact Ha|].
      * done.
      * apply invariant_bind; [apply reconcile_quiet|]. intros s. apply invariant_ret.
      * intros e tr He. left. by exists b.
    + intros digest. eapply triple_conseq; [apply print_outcome|done|by intros ?? ?; right|by intros ?? ?; right].
Qed.

(** The whole run. *)
Lemma quiet_sum {A B} path (r : js_error + A) (k : A → FM B) : (∀ a, r = inr a → quiet_run (k a) path) →
  quiet_run (f_of_sum r ≫= k) path.
Proof.
  intros Hk. destruct r as [e|a]; simpl; [|by apply Hk].
  intros tr Htr. left. exists []. by left.
Qed.
Lemma quiet_ask {B} path ev (k : json → FM B) : is_execute ev = false → (∀ v, quiet_run (k v) path) → quiet_run (ask ev ≫= k) path.
Proof. intros He Hk. apply quiet_step; [by apply invariant_ask; [apply _|]|done]. Qed.
Lemma quiet_last {A} path (m : FM A) : invariant no_execute m → quiet_run m path.
Proof.
  intros Hm. eapply triple_conseq; [exact Hm|done|by intros a tr; left|]. intros e tr He. left. exists []. by left.
Qed.
Lemma resume_outcome c writers intent raw :
  quiet_run (main_resume isValidSuiAddress date_parse tx_data outside c writers intent raw) (st_journalPath c).
Proof.
  unfold main_resume. apply quiet_sum. intros [j b] Hp.
  apply (parsed_journal _ _ _ struct_address signer_address empty_str) in Hp as (signature & _ & Ht & _).
  apply quiet_step; [apply reconcile_quiet|]. intros snapshot. apply quiet_ask; [done|]. intros updatedAt. cbv zeta. cbn [fst snd].
  apply (journal_outcome _ (MkJournal _ _ _ _ _ _ _)). unfold tx_digest_of. simpl. by rewrite Ht.
Qed.
Lemma fresh_outcome c writers sender walType intent recipients live :
  quiet_run (main_fresh isValidSuiAddress date_parse tx_data outside c writers sender walType intent recipients live) (st_journalPath c).
Proof.
  unfold main_fresh. apply quiet_step.
  - unfold build_payout, balance_of. cbv zeta.
    repeat first [apply invariant_bind; [|intros ?]|by apply invariant_ask; [apply _|]|apply invariant_of_sum
                 |match goal with |- context [match to_bigint ?v with _ => _ end] => destruct (to_bigint v) end
                 |apply invariant_ret|apply invariant_throw].
  - intros b. destruct (st_dryRun c).
    + apply quiet_ask; [done|]. intros now. apply quiet_last, invariant_write, _.
    + unfold sign_and_execute. apply quiet_step; [apply reconcile_quiet|]. intros snapshot.
      apply quiet_ask; [done|]. intros signed. cbv zeta. apply quiet_sum. intros data _. apply quiet_sum. intros u _.
      apply quiet_ask; [done|]. intros now.
      by apply (journal_outcome _ (MkJournal (JStr "prepared") now now intent (Some snapshot)
        (Some (MkFundingTransaction (to_base64 b) (text_of (jget "signature" signed)) (tx_digest b))) JUndefined) b).
Qed.

(** C30: a payout that was submitted is never lost.  A run that ends in an
    error has submitted nothing, or says that the outcome of exactly the
    submitted bytes is ambiguous, naming their digest , or has recorded the failure durably as its
    last act, or has recorded the success and failed to print.  A run that
    succeeds after submitting ends with the journal of the success on disk and
    its digest printed. *)
Theorem funding_outcome_settled e :
  let run := main isValidSuiAddress date_parse tx_data outside struct_address signer_address e [] in
  match parse_settings e, run with
  | inl error, _ => run = ([], inl error)
  | inr c, (tr, inl error) => run_error (st_journalPath c) error tr
  | inr c, (tr, inr _) => no_execute tr ∨ printed (st_journalPath c) tr
  end.
Proof.
  destruct (parse_settings e) as [error|c] eqn:Ep; cbv zeta.
  - unfold main. by rewrite Ep.
  - assert (Hm : quiet_run (main isValidSuiAddress date_parse tx_data outside struct_address signer_address e) (st_journalPath c)).
    { unfold main. rewrite Ep. simpl. apply quiet_ask; [done|]. intros raw. apply quiet_sum. intros writers _.
      apply quiet_sum. intros recipients _. apply quiet_step.
      { unfold startup_snapshot. destruct (st_live c).
        - apply invariant_bind; [apply reconcile_quiet|]. intros s'. apply invariant_ret.
        - destruct (negb _); [apply invariant_throw|apply invariant_ret]. }
      intros live. apply quiet_sum. intros address _. cbv zeta. apply quiet_step.
      { unfold walTypeForNetwork. cbv zeta.
        repeat first [apply invariant_bind; [|intros ?]|by apply invariant_ask; [apply _|]|apply invariant_of_sum|apply invariant_ret]. }
      intros walType. apply quiet_sum. intros intent _.
      destruct (st_resume c); [apply resume_outcome|apply fresh_outcome]. }
    specialize (Hm [] eq_refl). by destruct (main _ _ _ _ _ _ _ _) as [tr [e'|[]]].
Qed.
End Main.
