(* ===== verification/Finalize.v ===== *)
(** * The finalization of the migration (scripts/build-finalize-tx.ts)

    A one-way latch on chain.  The unsigned call is only built from a
    completion report whose digest, route, policy, inventory, checks and
    counts agree with what was reviewed, and from a registry whose imports
    are complete.

    [sha256_hex] is [createHash("sha256")]; [read_file] is [existsSync] with
    [readFileSync], [None] when the path does not exist; [syntax_message] is
    the message of the parser for a text that is not JSON; [fraction] prints
    the numbers that are not safe integers. *)
From Stdlib Require Import QArith Ascii.
From S2P Require Import Prelude JsText JsNumber JsonParse Hex Base64 SealId Retry Wallet Service Durable Config Funding Ledger.
Import Hex.Hex.
Local Open Scope Z_scope.

(** ** Shared checks of the governance transaction builders (scripts/assertions.ts)

    The builders are processes over [gevent]: they read the chain, build
    unsigned bytes and write them out.  [getObjects] answers with a list of
    objects of which each may be an [Error]. *)

(** ** What the builders ask *)
Inductive draft_arg : Type :=
| DObject (id : string)
| DClock
| DBytes (bytes : list ascii)
| DU64 (value : Z)
| DAddress (address : string)
| DResult (command : nat).
Inductive draft_command : Type :=
| DMoveCall (target : string) (arguments : list draft_arg)
| DPublish (modules dependencies : json)
| DTransferObjects (objects : list draft_arg) (recipient : draft_arg).
(** [setExpiration], or the build plugin that rewrites the epochs of a
    [ValidDuring] that [build] chose. *)
Inductive draft_expiration : Type :=
| DefaultExpiration
| ValidDuring (minEpoch maxEpoch : Z) (chain : string) (nonce : Z)
| RewriteValidDuring (minEpoch maxEpoch : Z).
Record draft : Type := Draft {
  d_commands : list draft_command; d_expiration : draft_expiration; d_sender : string; d_gasBudget : Z;
}.
Inductive gevent : Type :=
| GNow
| GGetChainIdentifier
| GGetObjects (ids : list string)
| GGetObject (id : string)
| GGetSystemState
| GCompile (buildEnv contractDir : string)            (** [sui move build] *)
| GBuild (tx : draft)
| GWriteFile (path text : string)
| GPrint (text : string).
Inductive ganswer : Type :=
| Answer (v : json)
| Objects (l : list (string + json)).
Definition GM : Type → Type := ST (list gevent) js_error.
Definition value_of (a : ganswer) : json := match a with Answer v => v | Objects _ => JUndefined end.
Definition objects_of (a : ganswer) : list (string + json) := match a with Objects l => l | Answer _ => [] end.

(** ** Environment *)
Definition env_or (e : Config.env) (name fallback : string) : string := default fallback (fund_env e name).

Inductive GovernanceNetwork : Type := GovMainnet | GovTestnet.
#[export] Instance GovernanceNetwork_dec : EqDecision GovernanceNetwork.
Proof. solve_decision. Defined.
Definition governance_text (n : GovernanceNetwork) : string := match n with GovMainnet => "mainnet" | GovTestnet => "testnet" end.
Definition GOVERNANCE_CHAIN_IDENTIFIERS (n : GovernanceNetwork) : string :=
  match n with
  | GovMainnet => "4btiuiMPvEENsttpZC7CZ53DruC3MAgfznDbASZ7DR6S"
  | GovTestnet => "69WiPg3DAQiwdxfncX6wYQ2siKwAe6L9BZthQea3JNMD"
  end.
Definition governanceNetwork (value label : string) : js_error + GovernanceNetwork :=
  if seqb value "mainnet" then inr GovMainnet
  else if seqb value "testnet" then inr GovTestnet
  else fail (label +:+ " must be mainnet|testnet, got " +:+ quote value).
Definition assertChainIdentifier (network : GovernanceNetwork) (observed : json) : js_error + unit :=
  let expected := GOVERNANCE_CHAIN_IDENTIFIERS network in
  check (Enoki.is_str observed expected)
    ("GRPC_URL chain identifier " +:+ json_stringify (λ _, "[number]") observed +:+ " does not match " +:+
     governance_text network +:+ " (" +:+ expected +:+ ")").
(** [BigInt(text)] *)
Definition big_int (text : string) : js_error + Z :=
  match string_to_bigint text with Some z => inr z | None => fail ("Cannot convert " +:+ text +:+ " to a BigInt") end.

Section Assertions.
Context `{SuiSdk} `{SuiTx} (isValidSuiAddress isValidSuiObjectId : string → bool).
Context (outside : list gevent → js_error + ganswer).
Notation ask := (ask outside).

Definition assertObjectId (v what : string) : js_error + string :=
  _ ← check (isValidSuiObjectId v) (what +:+ " is not a valid Sui object id: " +:+ quote v);
  mret (normalizeSuiAddress v).
Definition accountType (packageId structName : string) : string :=
  normalizeStructTag (packageId +:+ "::account::" +:+ structName).

Record expected_object : Type := Expected { eo_id : string; eo_struct : string; eo_what : string }.
Definition assert_type (packageId : string) (object : string + json) (e : expected_object) : js_error + unit :=
  match object with
  | inl message => fail (eo_what e +:+ " " +:+ eo_id e +:+ ": cannot read object — " +:+ message)
  | inr o =>
      let want := accountType packageId (eo_struct e) in
      check (Enoki.is_str (jget "type" o) want)
        (eo_what e +:+ " " +:+ eo_id e +:+ " is " +:+ js_string (jget "type" o) +:+ ", expected " +:+ want +:+ ". If " +:+
         packageId +:+ " is an upgraded package, this check needs updating rather than PACKAGE_ID: Move types keep the " +:+
         "original (first-publish) package id, so these scripts need a separate " +:+
         "ORIGINAL_PACKAGE_ID to compare types against, while PACKAGE_ID stays the " +:+ "upgraded id the moveCall targets.")
  end.
(** [objects.forEach((object, i) => ... expected[i])] *)
Fixpoint assert_types (packageId : string) (objects : list (string + json)) (expected : list expected_object)
    : js_error + unit :=
  match objects, expected with
  | [], _ => inr tt
  | _ :: _, [] => inl (js_type_error "Cannot destructure property 'id' of 'expected[i]' as it is undefined.")
  | o :: objects', e :: expected' => _ ← assert_type packageId o e; assert_types packageId objects' expected'
  end.
Definition assertObjectTypes (packageId : string) (expected : list expected_object) : GM unit :=
  answer ← ask (GGetObjects (map eo_id expected));
  f_of_sum (assert_types packageId (objects_of answer) expected).

(** The end of every builder: write the unsigned bytes. *)
Definition emit (out : option string) (b64 : string) : GM unit :=
  match out with
  | Some path => _ ← ask (GWriteFile path b64); mret tt
  | None => _ ← ask (GPrint (b64 +:+ of_chars [ascii_of_N 10])); mret tt
  end.
End Assertions.

(** ** JavaScript *)

(** [a < b] on strings *)
Fixpoint chars_ltb (a b : list ascii) : bool :=
  match a, b with
  | _, [] => false
  | [], _ => true
  | x :: a', y :: b' => (code x <? code y)%N || ((code x =? code y)%N && chars_ltb a' b')
  end.
Definition js_ltb (a b : string) : bool := chars_ltb (chars a) (chars b).
Fixpoint insert_sorted (x : string) (l : list string) : list string :=
  match l with
  | [] => [x]
  | y :: l' => if js_ltb y x then y :: insert_sorted x l' else x :: l
  end.
(** [l.sort()] *)
Definition sort_strings (l : list string) : list string := foldr insert_sorted [] l.
(** [isDeepStrictEqual] on values of [JSON.parse] *)
Fixpoint deep_equal (a b : json) : bool :=
  match a, b with
  | JUndefined, JUndefined | JNull, JNull => true
  | JBool x, JBool y => Bool.eqb x y
  | JNum x, JNum y => Qeq_bool x y
  | JStr x, JStr y => seqb x y
  | JArr l, JArr l' =>
      (fix elements (l l' : list json) : bool :=
         match l, l' with
         | [], [] => true
         | x :: t, y :: t' => deep_equal x y && elements t t'
         | _, _ => false
         end) l l'
  | JObj fs, JObj gs =>
      (length fs =? length gs)%nat &&
      (fix fields (fs : list (string * json)) : bool :=
         match fs with
         | [] => true
         | (k, x) :: fs' => match assoc k gs with Some y => deep_equal x y | None => false end && fields fs'
         end) fs
  | _, _ => false
  end.

(** [JSON.stringify(value, null, 2)]; no value of [JSON.parse] has an
    undefined field. *)
Definition newline (indent : nat) : list ascii := ascii_of_N 10 :: replicate indent " "%char.
Fixpoint separated_by (sep : list ascii) (l : list (list ascii)) : list ascii :=
  match l with
  | [] => []
  | [x] => x
  | x :: l' => x ++ sep ++ separated_by sep l'
  end.
Definition block (indent : nat) (open close : ascii) (items : list (list ascii)) : list ascii :=
  match items with
  | [] => [open; close]
  | _ => open :: newline (indent + 2) ++ separated_by (","%char :: newline (indent + 2)) items ++ newline indent ++ [close]
  end.
Section Pretty.
Context (fraction : Q → string).
Fixpoint pretty_chars (indent : nat) (v : json) : list ascii :=
  match v with
  | JArr l => block indent "["%char "]"%char (map (pretty_chars (indent + 2)) l)
  | JObj fs =>
      block indent "{"%char "}"%char
        ((fix fields (fs : list (string * json)) : list (list ascii) :=
            match fs with
            | [] => []
            | (k, x) :: fs' => (quote_chars k ++ [":"%char; " "%char] ++ pretty_chars (indent + 2) x) :: fields fs'
            end) fs)
  | _ => stringify_chars fraction v
  end.
Definition json_pretty (v : json) : string := of_chars (pretty_chars 0 v).
End Pretty.

(** ** Data *)
Definition MAX_SEAL_WEIGHTED_SERVERS : Z := 254.
Definition FULL_MANIFEST_SCOPE : string := "full-registry".
Definition MANIFEST_AUTHORITY_POLICY : string := "pinned-exact-source-authority-v2".
Definition REQUIRED_CHECKS : list string :=
  ["sourceDbWriteFenceHeld"; "destinationDbWriteFenceHeld"; "sourceAuthorityCutoffPinned";
   "sourceInventoryMatchesReviewedCommitment"; "sourceSnapshotsStable"; "sourceDeletionQueueDrained";
   "controllerExcluded"; "allRowsTerminal"; "sourceAndDestinationMatch"; "noOrphanedDestinationRows";
   "strandedReplacementBlobsReviewed"; "accountsComplete"; "noChainAmbiguity"; "noUnsafeUploadJournals";
   "destinationBlobsLive"; "destinationDecryptCanaryVerified"; "destinationCanaryOwnerScoped";
   "walrusUploadRouteMatchesReviewedPolicy"; "sealEncryptCommitteeMatchesReviewedPolicy"].
Record CompletionEvidence : Type := MkEvidence {
  ev_raw : string; ev_sha256 : string; ev_expiresAtMs : Z; ev_root : string; ev_accounts : Z; ev_delegates : Z;
}.
Record ExpectedCompletionRoute : Type := MkRoute {
  srcPackageId : string; srcRegistryId : string; dstPackageId : string; dstRegistryId : string; route_dbCutoverRev : string;
}.
Record ExpectedCompletionPolicy : Type := MkPolicy { walrusUploadRoute : json; sealEncryptCommitteeIdentity : json }.

(** ** Values *)
Definition MAX_U64 : Z := 2 ^ 64 - 1.
(** [String(value ?? "")] *)
Definition text_or_empty (v : json) : string := if is_nothing v then empty_str else js_string v.
Definition whole_number (text message : string) : js_error + Z :=
  _ ← check (sforallb is_digit text && negb (is_empty text)) message;
  mret (digits_value 0 (chars text)).
Definition parsePositiveU64 (value : json) (label : string) : js_error + Z :=
  parsed ← whole_number (text_or_empty value) (label +:+ " must be a positive integer");
  _ ← check (negb ((parsed =? 0) || (MAX_U64 <? parsed))) (label +:+ " must be a positive u64");
  mret parsed.
Definition parseU64 (value : json) (label : string) : js_error + Z :=
  parsed ← whole_number (text_or_empty value) (label +:+ " must be a non-negative integer");
  _ ← check (negb (MAX_U64 <? parsed)) (label +:+ " must be a u64");
  mret parsed.
Definition is_lower_hex (c : ascii) : bool := is_digit c || in_range 97 102 c.
(** [/^[0-9a-f]{64}$/] *)
Definition is_digest (s : string) : bool := (slen s =? 64)%nat && sforallb is_lower_hex s.
Definition keys_of (v : json) : list string := match v with JObj fs => map fst fs | _ => [] end.
Definition is_object (v : json) : bool := match v with JObj _ => true | _ => false end.
Definition has_exactly (keys : list string) (v : json) : bool :=
  is_object v && bool_decide (sort_strings (keys_of v) = sort_strings keys).
Definition assertExactKeys (value : json) (expected : list string) (label : string) : js_error + unit :=
  check (has_exactly expected value) (label +:+ " contains missing or unknown fields").
(** [/^\d{4}-\d{2}-\d{2}T\d{2}:\d{2}:\d{2}(?:\.\d{1,9})?Z$/] *)
Definition rdigits (n : nat) : re := foldr RSeq REps (replicate n (RChar is_digit)).
Definition timestampPattern : re :=
  rseq [rdigits 4; rlit "-"; rdigits 2; rlit "-"; rdigits 2; rlit "T"; rdigits 2; rlit ":"; rdigits 2; rlit ":"; rdigits 2;
        ropt (rseq [rlit "."; RChar is_digit; foldr (λ (d r : re), ropt (RSeq d r)) REps (replicate 8 (RChar is_digit))]); rlit "Z"; REnd].
Definition re_anchored (r : re) (s : string) : bool := rm r None (chars s) (λ _ _, true).
(** [l.some(p)] for a [p] that may throw *)
Fixpoint some_m {A} (p : A → js_error + bool) (l : list A) : js_error + bool :=
  match l with
  | [] => inr false
  | x :: l' => match p x with inl e => inl e | inr true => inr true | inr false => some_m p l' end
  end.
(** [l.some((x, i) => i > 0 && l[i - 1] >= x)] *)
Fixpoint out_of_order (l : list string) : bool :=
  match l with
  | x :: ((y :: _) as l') => negb (js_ltb x y) || out_of_order l'
  | _ => false
  end.

Section Finalize.
Context `{SuiSdk} `{SuiTx} (isValidSuiAddress isValidSuiObjectId : string → bool).
Context (sha256_hex : string → string) (read_file : string → option string) (syntax_message : string → string).
Context (fraction : Q → string) (date_parse : string → option Z) (from_hex : string → list ascii).
Notation assertAddress := (assertAddress isValidSuiAddress).
Notation assertObjectId := (assertObjectId isValidSuiObjectId).

Definition parseJson (raw label : string) : js_error + json :=
  match json_parse raw with
  | Some value => inr value
  | None => fail (label +:+ " is not valid JSON: " +:+ syntax_message raw)
  end.
(** [existsSync(spec) ? readFileSync(spec) : spec] *)
Definition inline_or_file (spec : string) : string := default spec (read_file spec).
Definition readJson (spec label : string) : js_error + json := parseJson (inline_or_file spec) label.

(** ** What the reviewers fixed *)
Definition server_refused (server : json) : js_error + bool :=
  if negb (is_object server) || negb (has_exactly ["objectId"; "weight"] server) then inr true
  else
    objectId ← assertObjectId (text_or_empty (jget "objectId" server)) "Seal server objectId";
    mret (negb (Enoki.is_str (jget "objectId" server) objectId) ||
          negb (match as_safe_int (jget "weight" server) with Some w => 0 <? w | None => false end)).
Definition weight_of (server : json) : Z := default 0 (as_safe_int (jget "weight" server)).
Definition servers_of (value : json) : list json := match jget "servers" value with JArr l => l | _ => [] end.
Definition total_weight (value : json) : Z := foldr Z.add 0 (map weight_of (servers_of value)).
Definition threshold_of (value : json) : Z := default 0 (as_safe_int (jget "threshold" value)).
Definition parseSealCommitteeIdentity (spec : string) : js_error + json :=
  value ← readJson spec "SEAL_ENCRYPT_COMMITTEE_IDENTITY";
  _ ← check (is_object value && negb (bool_decide (servers_of value = [])) &&
             match as_safe_int (jget "threshold" value) with Some t => 0 <? t | None => false end)
        "SEAL_ENCRYPT_COMMITTEE_IDENTITY must contain non-empty servers and a positive integer threshold";
  refused ← if has_exactly ["servers"; "threshold"] value then some_m server_refused (servers_of value) else inr true;
  _ ← check (negb refused)
        "SEAL_ENCRYPT_COMMITTEE_IDENTITY servers must contain only canonical objectId and positive integer weight";
  _ ← check (bool_decide (NoDup (map (λ server, js_string (jget "objectId" server)) (servers_of value))))
        "SEAL_ENCRYPT_COMMITTEE_IDENTITY contains duplicate server object IDs";
  _ ← check ((total_weight value <=? 2 ^ 53 - 1) && (total_weight value <=? MAX_SEAL_WEIGHTED_SERVERS) &&
             (threshold_of value <=? total_weight value) && (threshold_of value <=? MAX_SEAL_WEIGHTED_SERVERS))
        "SEAL_ENCRYPT_COMMITTEE_IDENTITY must use at most 254 weighted server slots";
  mret value.

Definition positive_int (v : json) : bool := match as_safe_int v with Some z => 0 <? z | None => false end.
Definition parseSourceInventory (spec dbCutoverRev : string) : js_error + json :=
  value ← readJson spec "SOURCE_INVENTORY_JSON";
  _ ← check (has_exactly ["dbCutoverRev"; "schemaVersion"; "sourceLiveCount"; "sourceSnapshotSha256"] value &&
             num_is (jget "schemaVersion" value) 1 && Enoki.is_str (jget "dbCutoverRev" value) dbCutoverRev &&
             positive_int (jget "sourceLiveCount" value) && is_digest (text_or_empty (jget "sourceSnapshotSha256" value)))
        "SOURCE_INVENTORY_JSON must be the exact schema-v1 inventory for DB_CUTOVER_REV";
  mret value.
Definition completionPolicy (network : GovernanceNetwork) (walrusPackageId : string) (retentionEpochs : Z) (committee : json)
    : js_error + ExpectedCompletionPolicy :=
  _ ← check (negb (15 <? retentionEpochs)) "WALRUS_RETENTION_EPOCHS must be at most 15";
  _ ← check (negb (bool_decide (network = GovMainnet) && negb (retentionEpochs =? 15)))
        "WALRUS_RETENTION_EPOCHS must be 15 on mainnet";
  mret (MkPolicy
    (JObj [("suiNetwork", JStr (governance_text network));
           ("executionIdentity", JObj [("chainIdentifier", JStr (GOVERNANCE_CHAIN_IDENTIFIERS network));
                                       ("walrusPackageId", JStr walrusPackageId)]);
           ("retentionEpochs", jint retentionEpochs)])
    committee).

(** ** The completion report *)
Definition evidence_fields (value : json) : js_error + unit :=
  _ ← assertExactKeys value
        ["schemaVersion"; "generatedAt"; "expiresAt"; "complete"; "route"; "walrusUploadRoute";
         "sealEncryptCommitteeIdentity"; "reviewedSourceInventory"; "manifestSha256"; "manifestScope";
         "sourceAuthorityPolicy"; "manifestAccountCount"; "manifestDelegateCount"; "quietSeconds"; "audit"; "checks"]
        "completion evidence";
  _ ← assertExactKeys (jget "route" value)
        ["srcPackageId"; "srcRegistryId"; "dstPackageId"; "dstRegistryId"; "dbCutoverRev"; "manifestRoot"]
        "completion evidence route";
  _ ← assertExactKeys (jget "audit" value)
        ["safety"; "sourceLiveCount"; "sourceDeletingCount"; "sourceActiveDeletionBatchCount"; "migrationRowCount";
         "destinationOrphanCount"; "reviewedDeadCount"; "reviewedDeadIds"; "reviewedDeadIdsSha256";
         "reviewedOrphanBlobCount"; "reviewedOrphanBlobs"; "reviewedOrphanBlobsSha256"; "sourceSnapshotSha256";
         "sourceAuthoritySnapshotSha256"; "destinationSnapshotSha256"]
        "completion evidence audit";
  _ ← assertExactKeys (jget "safety" (jget "audit" value))
        ["importedAccounts"; "doneMemories"; "deadMemories"; "driftSweptMemories"] "completion evidence safety audit";
  assertExactKeys (jget "checks" value) REQUIRED_CHECKS "completion evidence checks".

Definition timestamp (v : json) : js_error + string :=
  match v with
  | JStr s => if re_anchored timestampPattern s then inr s else fail "completion evidence timestamps are invalid"
  | _ => fail "completion evidence timestamps are invalid"
  end.
Definition instant (s : string) : js_error + Z :=
  match date_parse s with Some ms => inr ms | None => fail "completion evidence timestamps are invalid" end.
(** The lifetime of the report; its end. *)
Definition evidence_lifetime (value : json) (now : Z) : js_error + Z :=
  generated ← timestamp (jget "generatedAt" value);
  expires ← timestamp (jget "expiresAt" value);
  generatedAt ← instant generated;
  expiresAt ← instant expires;
  _ ← check (negb ((now + 60000 <? generatedAt) || (expiresAt <=? now) || (expiresAt <=? generatedAt) ||
                   (generatedAt + 15 * 60000 <? expiresAt)))
        "completion evidence is stale, future-dated, or has an invalid lifetime";
  mret expiresAt.

Definition route_field (value : json) (field expected : string) : js_error + unit :=
  let actual := text_or_empty (jget field (jget "route" value)) in
  check (seqb (if seqb field "dbCutoverRev" then actual else normalizeSuiAddress actual) expected)
    ("completion evidence route " +:+ field +:+ " does not match the reviewed value").
Definition evidence_route (value : json) (route : ExpectedCompletionRoute) : js_error + unit :=
  _ ← route_field value "srcPackageId" (srcPackageId route);
  _ ← route_field value "srcRegistryId" (srcRegistryId route);
  _ ← route_field value "dstPackageId" (dstPackageId route);
  _ ← route_field value "dstRegistryId" (dstRegistryId route);
  route_field value "dbCutoverRev" (route_dbCutoverRev route).
(** Policy, inventory and manifest. *)
Definition evidence_policy (value : json) (policy : ExpectedCompletionPolicy) (inventory : json) (manifestSha256 : string)
    : js_error + unit :=
  _ ← check (deep_equal (jget "walrusUploadRoute" value) (walrusUploadRoute policy))
        "completion evidence Walrus upload route does not match the reviewed policy";
  _ ← check (deep_equal (jget "sealEncryptCommitteeIdentity" value) (sealEncryptCommitteeIdentity policy))
        "completion evidence Seal encrypt committee does not match the reviewed policy";
  _ ← check (deep_equal (jget "reviewedSourceInventory" value) inventory)
        "completion evidence source inventory does not match the independently reviewed commitment";
  _ ← check (is_digest manifestSha256 && Enoki.is_str (jget "manifestSha256" value) manifestSha256)
        "completion evidence manifestSha256 does not match the independently reviewed digest";
  _ ← check (Enoki.is_str (jget "manifestScope" value) FULL_MANIFEST_SCOPE)
        "completion evidence manifestScope must be full-registry";
  check (Enoki.is_str (jget "sourceAuthorityPolicy" value) MANIFEST_AUTHORITY_POLICY)
    "completion evidence sourceAuthorityPolicy does not match the reviewed cutoff policy".
(** [/^0x[0-9a-f]{64}$/] *)
Definition evidence_root (value : json) : js_error + string :=
  let root := lower (text_or_empty (jget "manifestRoot" (jget "route" value))) in
  _ ← check (starts_with "0x" root && is_digest (drop_s 2 root)) "completion evidence manifest root is invalid";
  mret root.
Fixpoint evidence_checks (checks : list string) (value : json) : js_error + unit :=
  match checks with
  | [] => inr tt
  | c :: checks' =>
      _ ← check (Enoki.is_bool (jget c (jget "checks" value)) true) ("completion evidence check " +:+ c +:+ " is not true");
      evidence_checks checks' value
  end.

(** *** The audit *)
Definition audit (value : json) : json := jget "audit" value.
Definition audit_digest (value : json) (field what : string) : js_error + unit :=
  check (is_digest (text_or_empty (jget field (audit value)))) ("completion evidence " +:+ what +:+ " digest is invalid").
Definition dead_ids_of (value : json) : option (list json) :=
  match jget "reviewedDeadIds" (audit value) with JArr l => Some l | _ => None end.
Definition nonempty_string (v : json) : bool := match v with JStr s => negb (is_empty s) | _ => false end.
Definition evidence_dead_ids (value : json) : js_error + list json :=
  let message := "completion evidence reviewedDeadIds must be unique, non-empty, and lexically sorted" in
  ids ← match dead_ids_of value with Some l => inr l | None => fail message end;
  _ ← check (forallb nonempty_string ids) message;
  _ ← check (negb (out_of_order (map js_string ids))) message;
  _ ← check (Enoki.is_str (jget "reviewedDeadIdsSha256" (audit value)) (sha256_hex (json_stringify fraction (JArr ids))))
        "completion evidence reviewedDeadIds digest does not match its exact list";
  mret ids.
Definition orphan_refused (orphan : json) : js_error + bool :=
  if negb (is_object orphan) || negb (has_exactly ["blobId"; "legacyEntryId"; "objectId"; "owner"] orphan) ||
     negb (nonempty_string (jget "blobId" orphan)) || negb (nonempty_string (jget "legacyEntryId" orphan))
  then inr true
  else
    owner ← assertAddress (text_or_empty (jget "owner" orphan)) "orphan blob owner";
    if negb (Enoki.is_str (jget "owner" orphan) owner) then mret true
    else
      objectId ← assertObjectId (text_or_empty (jget "objectId" orphan)) "orphan blob objectId";
      mret (negb (Enoki.is_str (jget "objectId" orphan) objectId)).
(** [`${orphan.owner}\u0000${orphan.blobId}`] *)
Definition orphan_key (orphan : json) : string :=
  js_string (jget "owner" orphan) +:+ of_chars [ascii_of_N 0] +:+ js_string (jget "blobId" orphan).
Definition evidence_orphans (value : json) : js_error + list json :=
  let message := "completion evidence reviewedOrphanBlobs must be canonical, unique by owner and blob, and sorted" in
  orphans ← match jget "reviewedOrphanBlobs" (audit value) with JArr l => inr l | _ => fail message end;
  refused ← some_m orphan_refused orphans;
  _ ← check (negb refused) message;
  _ ← check (negb (out_of_order (map orphan_key orphans))) message;
  _ ← check (Enoki.is_str (jget "reviewedOrphanBlobsSha256" (audit value)) (sha256_hex (json_stringify fraction (JArr orphans))))
        "completion evidence reviewedOrphanBlobs digest does not match its exact list";
  count ← parseU64 (jget "reviewedOrphanBlobCount" (audit value)) "completion reviewedOrphanBlobCount";
  _ ← check (Z.of_nat (length orphans) =? count)
        "completion evidence reviewedOrphanBlobs length does not match reviewedOrphanBlobCount";
  mret orphans.
Definition same_text (a b : json) : bool := match a with JStr s => Enoki.is_str b s | _ => false end.
(** The counts; the accounts and delegates of the manifest. *)
Definition evidence_counts (value inventory : json) (deadIds : list json) : js_error + (Z * Z) :=
  let a := audit value in
  let safety := jget "safety" a in
  accounts ← parsePositiveU64 (jget "manifestAccountCount" value) "completion manifestAccountCount";
  delegates ← parseU64 (jget "manifestDelegateCount" value) "completion manifestDelegateCount";
  sourceLive ← parsePositiveU64 (jget "sourceLiveCount" a) "completion sourceLiveCount";
  _ ← check (negb (negb (bool_decide (as_safe_int (jget "sourceLiveCount" inventory) = Some sourceLive)) ||
                   negb (same_text (jget "sourceSnapshotSha256" a) (jget "sourceSnapshotSha256" inventory))))
        "completion evidence source snapshot differs from the independently reviewed inventory";
  sourceDeleting ← parseU64 (jget "sourceDeletingCount" a) "completion sourceDeletingCount";
  activeDeletionBatches ← parseU64 (jget "sourceActiveDeletionBatchCount" a) "completion sourceActiveDeletionBatchCount";
  migrationRows ← parsePositiveU64 (jget "migrationRowCount" a) "completion migrationRowCount";
  destinationOrphans ← parseU64 (jget "destinationOrphanCount" a) "completion destinationOrphanCount";
  reviewedDead ← parseU64 (jget "reviewedDeadCount" a) "completion reviewedDeadCount";
  _ ← check (Z.of_nat (length deadIds) =? reviewedDead)
        "completion evidence reviewedDeadIds length does not match reviewedDeadCount";
  importedAccounts ← parsePositiveU64 (jget "importedAccounts" safety) "completion importedAccounts";
  done ← parseU64 (jget "doneMemories" safety) "completion doneMemories";
  dead ← parseU64 (jget "deadMemories" safety) "completion deadMemories";
  driftSwept ← parseU64 (jget "driftSweptMemories" safety) "completion driftSweptMemories";
  quietSeconds ← parsePositiveU64 (jget "quietSeconds" value) "completion quietSeconds";
  _ ← check (negb (300 <? quietSeconds)) "completion quietSeconds exceeds 300";
  _ ← check (negb (negb (sourceDeleting =? 0) || negb (activeDeletionBatches =? 0)))
        "completion evidence contains in-flight source deletions";
  _ ← check (destinationOrphans =? 0) "completion evidence contains orphaned destination rows";
  _ ← check (negb (negb (importedAccounts =? accounts) || negb (dead =? reviewedDead) || (reviewedDead <? driftSwept) ||
                   negb (done + reviewedDead - driftSwept =? sourceLive) || negb (done + dead =? migrationRows)))
        "completion evidence counts are internally inconsistent";
  mret (accounts, delegates).
Definition evidence_audit (value inventory : json) : js_error + (Z * Z) :=
  _ ← audit_digest value "sourceSnapshotSha256" "source snapshot";
  _ ← audit_digest value "sourceAuthoritySnapshotSha256" "source authority snapshot";
  _ ← audit_digest value "reviewedDeadIdsSha256" "reviewed dead IDs";
  deadIds ← evidence_dead_ids value;
  _ ← audit_digest value "reviewedOrphanBlobsSha256" "reviewed orphan blobs";
  _ ← evidence_orphans value;
  _ ← audit_digest value "destinationSnapshotSha256" "destination snapshot";
  evidence_counts value inventory deadIds.

Definition parseCompletionEvidence (spec expectedSha256 expectedManifestSha256 : string) (route : ExpectedCompletionRoute)
    (policy : ExpectedCompletionPolicy) (inventory : json) (now : Z) : js_error + CompletionEvidence :=
  let raw := inline_or_file spec in
  value ← parseJson raw "COMPLETION_EVIDENCE_JSON";
  _ ← check (seqb raw (json_pretty fraction value))
        "completion evidence must be the unchanged canonical JSON emitted by completion-report";
  _ ← evidence_fields value;
  let sha256 := sha256_hex raw in
  _ ← check (is_digest expectedSha256 && seqb sha256 expectedSha256)
        "completion evidence SHA-256 does not match the independently reviewed digest";
  _ ← check (num_is (jget "schemaVersion" value) 5 && Enoki.is_bool (jget "complete" value) true)
        "completion evidence must have schemaVersion=5 and complete=true";
  expiresAt ← evidence_lifetime value now;
  _ ← evidence_route value route;
  _ ← evidence_policy value policy inventory expectedManifestSha256;
  root ← evidence_root value;
  _ ← evidence_checks REQUIRED_CHECKS value;
  counts ← evidence_audit value inventory;
  mret (MkEvidence raw sha256 expiresAt root counts.1 counts.2).

(** ** The transaction *)
Definition hex_digit_value (c : ascii) : Z := default 0 (radix_digit 16 c).
(** [Number.parseInt(evidence.sha256.slice(0, 8), 16)] of a hexadecimal text *)
Definition nonce_of (sha256 : string) : Z := foldl (λ acc c, 16 * acc + hex_digit_value c) 0 (take 8 (chars sha256)).
Definition bindCompletionExpiration (evidence : CompletionEvidence) (chainIdentifier : string) (currentEpoch : Z)
    : draft_expiration :=
  ValidDuring currentEpoch currentEpoch chainIdentifier (nonce_of (ev_sha256 evidence)).
Definition addFinalizeCall (packageId adminCapId registryId : string) (evidence : CompletionEvidence) : draft_command :=
  DMoveCall (packageId +:+ "::account::finalize_migration")
    [DObject adminCapId; DObject registryId; DClock; DBytes (from_hex (ev_sha256 evidence)); DU64 (ev_expiresAtMs evidence)].

(** [Buffer.from(root)] of an array: each element as an unsigned byte *)
Definition byte_of (v : json) : ascii :=
  match to_number v with Finite q => ascii_of_N (Z.to_N (Z.quot (Qnum q) (Zpos (Qden q)) mod 256)) | _ => ascii_of_N 0 end.
Definition root_hex (root : json) : string :=
  match root with
  | JArr l => bytesToHex (map byte_of l)
  | _ => bytesToHex (from_base64 (text_or_empty root))
  end.
(** [BigInt(String(value ?? "-1"))] *)
Definition count_of (value : json) : js_error + Z := big_int (if is_nothing value then "-1" else js_string value).
Definition registry_complete (registryId : string) (value : json) (evidence : CompletionEvidence) : js_error + unit :=
  _ ← check (truthy value) ("REGISTRY_ID " +:+ registryId +:+ " has no Move JSON");
  let rootHex := root_hex (jget "pinned_allowlist_root" value) in
  expectedAccounts ← count_of (jget "expected_account_imports" value);
  expectedDelegates ← count_of (jget "expected_delegate_imports" value);
  importedAccounts ← count_of (jget "imported_accounts" value);
  importedDelegates ← count_of (jget "imported_delegates" value);
  _ ← check (seqb ("0x" +:+ rootHex) (ev_root evidence)) "on-chain pinned root differs from completion evidence";
  _ ← check ((expectedAccounts =? ev_accounts evidence) && (expectedDelegates =? ev_delegates evidence))
        "on-chain expected import counts differ from completion evidence";
  _ ← check ((importedAccounts =? expectedAccounts) && (importedDelegates =? expectedDelegates))
        "on-chain account/delegate imports are incomplete";
  check (Enoki.is_bool (jget "migration_finalized" value) false) "registry migration is already finalized".

Context (outside : list gevent → js_error + ganswer).
Notation ask := (ask outside).
Definition assertRegistryComplete (registryId : string) (evidence : CompletionEvidence) : GM unit :=
  answer ← ask (GGetObject registryId);
  f_of_sum (registry_complete registryId (jget "json" (jget "object" (value_of answer))) evidence).

Definition strings_env (e : Config.env) (names : list string) : js_error + unit :=
  foldr (λ name rest, _ ← requireEnv e name; rest) (inr tt) names.
Record finalize_settings : Type := FinalizeSettings {
  fs_sender : string; fs_packageId : string; fs_adminCapId : string; fs_registryId : string;
  fs_route : ExpectedCompletionRoute; fs_network : GovernanceNetwork; fs_policy : ExpectedCompletionPolicy;
  fs_inventory : json; fs_evidence : string; fs_evidenceSha256 : string; fs_manifestSha256 : string;
}.
Definition required (e : Config.env) (name : string) : string := default empty_str (fund_env e name).
Definition finalize_parse (e : Config.env) : js_error + finalize_settings :=
  _ ← strings_env e ["GRPC_URL"; "SENDER"; "PACKAGE_ID"; "ADMIN_CAP_ID"; "REGISTRY_ID"; "SOURCE_PACKAGE_ID";
        "SOURCE_REGISTRY_ID"; "DB_CUTOVER_REV"; "WALRUS_PACKAGE_ID"; "WALRUS_RETENTION_EPOCHS";
        "SEAL_ENCRYPT_COMMITTEE_IDENTITY"; "SOURCE_INVENTORY_JSON"; "COMPLETION_EVIDENCE_JSON";
        "COMPLETION_EVIDENCE_SHA256"; "MANIFEST_SHA256"];
  sender ← assertAddress (required e "SENDER") "SENDER";
  packageId ← assertObjectId (required e "PACKAGE_ID") "PACKAGE_ID";
  adminCapId ← assertObjectId (required e "ADMIN_CAP_ID") "ADMIN_CAP_ID";
  registryId ← assertObjectId (required e "REGISTRY_ID") "REGISTRY_ID";
  sourcePackageId ← assertObjectId (required e "SOURCE_PACKAGE_ID") "SOURCE_PACKAGE_ID";
  sourceRegistryId ← assertObjectId (required e "SOURCE_REGISTRY_ID") "SOURCE_REGISTRY_ID";
  network ← governanceNetwork (env_or e "NETWORK" "mainnet") "NETWORK";
  walrusPackageId ← assertObjectId (required e "WALRUS_PACKAGE_ID") "WALRUS_PACKAGE_ID";
  retentionEpochs ← parsePositiveU64 (JStr (required e "WALRUS_RETENTION_EPOCHS")) "WALRUS_RETENTION_EPOCHS";
  committee ← parseSealCommitteeIdentity (required e "SEAL_ENCRYPT_COMMITTEE_IDENTITY");
  policy ← completionPolicy network walrusPackageId retentionEpochs committee;
  inventory ← parseSourceInventory (required e "SOURCE_INVENTORY_JSON") (required e "DB_CUTOVER_REV");
  mret (FinalizeSettings sender packageId adminCapId registryId
          (MkRoute sourcePackageId sourceRegistryId packageId registryId (required e "DB_CUTOVER_REV"))
          network policy inventory (required e "COMPLETION_EVIDENCE_JSON") (required e "COMPLETION_EVIDENCE_SHA256")
          (required e "MANIFEST_SHA256")).

(** [toBase64] of the built bytes, which are carried as a text *)
Definition built_text (built : ganswer) : string :=
  to_base64 (chars (match value_of built with JStr s => s | _ => empty_str end)).
Definition now_of (answer : ganswer) : js_error + Z :=
  match as_safe_int (value_of answer) with Some t => inr t | None => fail "clock" end.
(** The unsigned call, once everything is checked. *)
Definition build_finalize (c : finalize_settings) (evidence : CompletionEvidence) (gasBudget : Z) : GM ganswer :=
  chain ← ask GGetChainIdentifier;
  let chainIdentifier := jget "chainIdentifier" (value_of chain) in
  _ ← f_of_sum (assertChainIdentifier (fs_network c) chainIdentifier);
  _ ← assertObjectTypes outside (fs_packageId c)
        [Expected (fs_adminCapId c) "AdminCap" "ADMIN_CAP_ID"; Expected (fs_registryId c) "AccountRegistry" "REGISTRY_ID"];
  _ ← assertRegistryComplete (fs_registryId c) evidence;
  state ← ask GGetSystemState;
  epoch ← f_of_sum (big_int (js_string (jget "epoch" (jget "systemState" (value_of state)))));
  ask (GBuild (Draft [addFinalizeCall (fs_packageId c) (fs_adminCapId c) (fs_registryId c) evidence]
                 (bindCompletionExpiration evidence (js_string chainIdentifier) epoch) (fs_sender c) gasBudget)).
Definition evidence_of (c : finalize_settings) (now : Z) : js_error + CompletionEvidence :=
  parseCompletionEvidence (fs_evidence c) (fs_evidenceSha256 c) (fs_manifestSha256 c) (fs_route c) (fs_policy c)
    (fs_inventory c) now.
Definition finalize_main (e : Config.env) : GM unit :=
  c ← f_of_sum (finalize_parse e);
  clock ← ask GNow;
  now ← f_of_sum (now_of clock);
  evidence ← f_of_sum (evidence_of c now);
  gasBudget ← f_of_sum (big_int (env_or e "GAS_BUDGET" "500000000"));
  built ← build_finalize c evidence gasBudget;
  emit outside (fund_env e "OUT") (built_text built).
End Finalize.
