(* ===== verification/FinalizeSafety.v ===== *)
(** * Theorems about the finalization of the migration (scripts/build-finalize-tx.ts) *)
From Stdlib Require Import QArith Ascii Permutation Sorted.
From S2P Require Import Prelude JsText JsNumber JsonParse Hex Base64 SealId Retry Wallet Service Durable Config Funding Ledger.
From S2P Require Import FundingSafety Finalize.
Local Open Scope Z_scope.

(** ** Order and sorting of strings *)
Lemma chars_ltb_irrefl l : chars_ltb l l = false.
Proof. induction l as [|x l IH]; [done|]. simpl. by rewrite N.ltb_irrefl, N.eqb_refl. Qed.
Lemma chars_ltb_trans a b c : chars_ltb a b = true → chars_ltb b c = true → chars_ltb a c = true.
Proof.
  revert b c. induction a as [|x a IH]; intros [|y b] [|z c] H1 H2; simpl in *; try done.
  apply orb_true_iff in H1, H2. apply orb_true_iff.
  destruct H1 as [H1%N.ltb_lt|[H1%N.eqb_eq H1']%andb_true_iff], H2 as [H2%N.ltb_lt|[H2%N.eqb_eq H2']%andb_true_iff];
    [left; apply N.ltb_lt; lia..|]. right. apply andb_true_iff. split; [apply N.eqb_eq; lia|by eapply IH].
Qed.
Definition increasing (l : list string) : Prop := StronglySorted (λ a b, js_ltb a b = true) l.
Lemma out_of_order_increasing l : out_of_order l = false → increasing l.
Proof.
  intros Ho. apply Sorted_StronglySorted; [intros a b c; apply chars_ltb_trans|].
  induction l as [|x l IH]; [constructor|]. destruct l as [|y l]; [repeat constructor|].
  simpl in Ho. apply orb_false_iff in Ho as [Hx%negb_false_iff Ho]. constructor; [by apply IH|by constructor].
Qed.
Lemma increasing_NoDup l : increasing l → NoDup l.
Proof.
  induction 1 as [|x l Hs IH Hx]; constructor; [|done]. intros Hin. rewrite Forall_forall in Hx.
  specialize (Hx x Hin). unfold js_ltb in Hx. by rewrite chars_ltb_irrefl in Hx.
Qed.
Lemma insert_sorted_perm x l : Permutation (insert_sorted x l) (x :: l).
Proof.
  induction l as [|y l IH]; simpl; [done|]. destruct (js_ltb y x); [|done].
  rewrite IH. apply perm_swap.
Qed.
Lemma sort_strings_perm l : Permutation (sort_strings l) l.
Proof. induction l as [|x l IH]; simpl; [done|]. by rewrite insert_sorted_perm, IH. Qed.
Lemma has_exactly_perm keys v : has_exactly keys v = true → Permutation (keys_of v) keys.
Proof.
  intros [_ He%bool_decide_eq_true]%andb_true_iff. by rewrite <-(sort_strings_perm (keys_of v)), He, sort_strings_perm.
Qed.
Lemma is_str_eq v s : Enoki.is_str v s = true → v = JStr s.
Proof. destruct v; try done. by intros ->%seqb_eq. Qed.
Lemma is_bool_eq v b : Enoki.is_bool v b = true → v = JBool b.
Proof. destruct v as [| |c| | | |]; try done. by destruct b, c. Qed.

Lemma digits_value_nonneg l acc : 0 <= acc → 0 <= digits_value acc l.
Proof.
  revert acc. induction l as [|c l IH]; intros acc Ha; simpl; [done|]. destruct (is_digit c) eqn:Hc; [|done].
  apply IH. unfold is_digit, in_range in Hc. apply andb_true_iff in Hc as [Hc%N.leb_le _]. lia.
Qed.
Lemma parseU64_range v label n : parseU64 v label = inr n → 0 <= n <= MAX_U64.
Proof.
  intros Hp. unfold parseU64, whole_number in Hp. steps Hp. injection Hp as <-. steps Hx. injection Hx as <-.
  apply negb_true_iff, Z.ltb_ge in Hc. split; [by apply digits_value_nonneg|done].
Qed.
Lemma parsePositiveU64_range v label n : parsePositiveU64 v label = inr n → 0 < n <= MAX_U64.
Proof.
  intros Hp. unfold parsePositiveU64, whole_number in Hp. steps Hp. injection Hp as <-. steps Hx. injection Hx as <-.
  apply negb_true_iff, orb_false_iff in Hc as [Hz%Z.eqb_neq Hm%Z.ltb_ge].
  pose proof (digits_value_nonneg (chars (text_or_empty v)) 0). lia.
Qed.
Lemma some_m_false {A} (p : A → js_error + bool) l : some_m p l = inr false → ∀ x, x ∈ l → p x = inr false.
Proof.
  induction l as [|y l IH]; simpl; intros Hs x Hx; [by apply elem_of_nil in Hx|].
  destruct (p y) as [e|[]] eqn:Ep; try done. apply elem_of_cons in Hx as [->|Hx]; [done|by apply IH].
Qed.

(** ** The completion report *)
Section Evidence.
Context `{SuiSdk} `{SuiTx} (isValidSuiAddress isValidSuiObjectId : string → bool).
Context (sha256_hex : string → string) (read_file : string → option string) (syntax_message : string → string).
Context (fraction : Q → string) (date_parse : string → option Z).
Notation assertAddress := (assertAddress isValidSuiAddress).
Notation assertObjectId := (assertObjectId isValidSuiObjectId).
Notation count v := (digits_value 0 (chars (text_or_empty v))).

(** Fresh: made at most a minute in the future, still valid, and valid for at
    most fifteen minutes. *)
Definition fresh_report (value : json) (now expiresAt : Z) : Prop :=
  ∃ generated expires generatedAt, jget "generatedAt" value = JStr generated ∧ jget "expiresAt" value = JStr expires ∧
    date_parse generated = Some generatedAt ∧ date_parse expires = Some expiresAt ∧
    generatedAt <= now + 60 * 1000 ∧ now < expiresAt ∧ generatedAt < expiresAt <= generatedAt + 15 * 60 * 1000.
(** The route of the report is the reviewed one. *)
Definition same_route (value : json) (route : ExpectedCompletionRoute) : Prop :=
  let field f := text_or_empty (jget f (jget "route" value)) in
  normalizeSuiAddress (field "srcPackageId") = srcPackageId route ∧
  normalizeSuiAddress (field "srcRegistryId") = srcRegistryId route ∧
  normalizeSuiAddress (field "dstPackageId") = dstPackageId route ∧
  normalizeSuiAddress (field "dstRegistryId") = dstRegistryId route ∧ field "dbCutoverRev" = route_dbCutoverRev route.
(** Every memory is accounted for. *)
Definition balanced (value inventory : json) (accounts delegates : Z) (deadIds : list json) : Prop :=
  let a := audit value in
  let safety := jget "safety" a in
  accounts = count (jget "manifestAccountCount" value) ∧ delegates = count (jget "manifestDelegateCount" value) ∧
  0 < accounts <= MAX_U64 ∧ 0 <= delegates <= MAX_U64 ∧ count (jget "importedAccounts" safety) = accounts ∧
  as_safe_int (jget "sourceLiveCount" inventory) = Some (count (jget "sourceLiveCount" a)) ∧
  same_text (jget "sourceSnapshotSha256" a) (jget "sourceSnapshotSha256" inventory) = true ∧
  count (jget "sourceDeletingCount" a) = 0 ∧ count (jget "sourceActiveDeletionBatchCount" a) = 0 ∧
  count (jget "destinationOrphanCount" a) = 0 ∧
  count (jget "deadMemories" safety) = Z.of_nat (length deadIds) ∧
  count (jget "driftSweptMemories" safety) <= count (jget "deadMemories" safety) ∧
  count (jget "doneMemories" safety) + count (jget "deadMemories" safety) = count (jget "migrationRowCount" a) ∧
  count (jget "doneMemories" safety) + count (jget "deadMemories" safety) - count (jget "driftSweptMemories" safety) =
    count (jget "sourceLiveCount" a) ∧
  0 < count (jget "quietSeconds" value) <= 300.

Lemma parseU64_count v label n : parseU64 v label = inr n → n = count v.
Proof. intros Hp. unfold parseU64, whole_number in Hp. steps Hp. injection Hp as <-. steps Hx. by injection Hx as <-. Qed.
Lemma parsePositiveU64_count v label n : parsePositiveU64 v label = inr n → n = count v.
Proof. intros Hp. unfold parsePositiveU64, whole_number in Hp. steps Hp. injection Hp as <-. steps Hx. by injection Hx as <-. Qed.
Lemma evidence_counts_balanced value inventory deadIds n : evidence_counts value inventory deadIds = inr n →
  balanced value inventory n.1 n.2 deadIds.
Proof.
  intros Hc. unfold evidence_counts in Hc. cbv zeta in Hc. steps Hc. injection Hc as <-.
  repeat match goal with
  | Hp : parsePositiveU64 _ _ = inr _ |- _ => pose proof (parsePositiveU64_range _ _ _ Hp); apply parsePositiveU64_count in Hp; subst
  | Hp : parseU64 _ _ = inr _ |- _ => pose proof (parseU64_range _ _ _ Hp); apply parseU64_count in Hp; subst
  end.
  rewrite ?negb_orb, ?negb_involutive in Hc0, Hc1, Hc2, Hc3, Hc4, Hc5. split_andb.
  repeat match goal with
  | Hz : (_ =? _) = true |- _ => apply Z.eqb_eq in Hz
  | Hz : negb (_ <? _) = true |- _ => apply negb_true_iff, Z.ltb_ge in Hz
  | Hz : bool_decide _ = true |- _ => apply bool_decide_eq_true in Hz
  end.
  unfold balanced. cbn [fst snd]. split_and!; try done; lia.
Qed.

Lemma evidence_lifetime_fresh value now expiresAt : evidence_lifetime date_parse value now = inr expiresAt →
  fresh_report value now expiresAt.
Proof.
  intros Hl. unfold evidence_lifetime in Hl. steps Hl. injection Hl as <-. unfold timestamp, instant in *.
  destruct (jget "generatedAt" value) as [| | | |g| |] eqn:Eg; try done.
  destruct (re_anchored _ g); [|done]. injection Hx as <-.
  destruct (jget "expiresAt" value) as [| | | |e| |] eqn:Ee; try done.
  destruct (re_anchored _ e); [|done]. injection Hx0 as <-.
  destruct (date_parse g) as [gm|] eqn:Dg; [|done]. destruct (date_parse e) as [em|] eqn:De; [|done]. simplify_eq.
  rewrite !negb_orb in Hc. split_andb.
  repeat match goal with Hz : negb _ = true |- _ => apply negb_true_iff in Hz end.
  exists g, e, x1. split_and!; try done; lia.
Qed.
Lemma route_field_spec value field expected u : route_field value field expected = inr u →
  (if seqb field "dbCutoverRev" then text_or_empty (jget field (jget "route" value))
   else normalizeSuiAddress (text_or_empty (jget field (jget "route" value)))) = expected.
Proof. destruct u. by intros Hr%check_inr%seqb_eq. Qed.
Lemma evidence_route_same value route u : evidence_route value route = inr u → same_route value route.
Proof.
  intros Hr. unfold evidence_route in Hr. steps Hr.
  repeat match goal with Hf : route_field _ _ _ = inr _ |- _ => apply route_field_spec in Hf; simpl in Hf end.
  unfold same_route. by split_and!.
Qed.
Lemma evidence_checks_true checks value u : evidence_checks checks value = inr u →
  ∀ c, c ∈ checks → jget c (jget "checks" value) = JBool true.
Proof.
  induction checks as [|x checks IH]; simpl; intros He c Hc; [by apply elem_of_nil in Hc|]. steps He.
  apply elem_of_cons in Hc as [->|Hc]; [by apply is_bool_eq|by apply IH].
Qed.

(** The ids of the dead memories: distinct, in order, under their digest. *)
Definition reviewed_list (digest : json) (l : list json) (keys : list string) : Prop :=
  digest = JStr (sha256_hex (json_stringify fraction (JArr l))) ∧ increasing keys ∧ NoDup keys.
Lemma evidence_dead_ids_reviewed value ids : evidence_dead_ids sha256_hex fraction value = inr ids →
  jget "reviewedDeadIds" (audit value) = JArr ids ∧ reviewed_list (jget "reviewedDeadIdsSha256" (audit value)) ids (map js_string ids).
Proof.
  intros Hd. unfold evidence_dead_ids, dead_ids_of in Hd. cbv zeta in Hd. steps Hd. injection Hd as <-.
  destruct (jget "reviewedDeadIds" _) eqn:Ej; try done. injection Hx as <-.
  apply negb_true_iff, out_of_order_increasing in Hc0.
  split; [done|]. split_and!; [by apply is_str_eq|done|by apply increasing_NoDup].
Qed.
(** An orphaned blob, with its owner and object in canonical form. *)
Definition canonical_orphan (orphan : json) : Prop :=
  Permutation (keys_of orphan) ["blobId"; "legacyEntryId"; "objectId"; "owner"] ∧
  (∃ owner objectId, jget "owner" orphan = JStr owner ∧ isValidSuiAddress owner = true ∧ normalizeSuiAddress owner = owner ∧
     jget "objectId" orphan = JStr objectId ∧ isValidSuiObjectId objectId = true ∧ normalizeSuiAddress objectId = objectId).
Lemma canonical_text (valid : string → bool) v what r : Enoki.is_str v r = true →
  (_ ← check (valid (text_or_empty v)) what; mret (normalizeSuiAddress (text_or_empty v))) = inr r →
  v = JStr r ∧ valid r = true ∧ normalizeSuiAddress r = r.
Proof.
  intros ->%is_str_eq Ha. steps Ha. cbn [text_or_empty is_nothing js_string] in *. by injection Ha.
Qed.
Lemma orphan_accepted orphan : orphan_refused isValidSuiAddress isValidSuiObjectId orphan = inr false → canonical_orphan orphan.
Proof.
  intros Ho. unfold orphan_refused in Ho. destruct (_ || _) eqn:E; [done|]. steps Ho.
  destruct (negb (Enoki.is_str (jget "owner" orphan) x)) eqn:Eo; [done|]. apply negb_false_iff in Eo. steps Ho.
  injection Ho as Hn%negb_false_iff. rewrite !orb_false_iff in E. destruct E as (((_ & Hk%negb_false_iff) & _) & _).
  split; [by apply has_exactly_perm|]. unfold Funding.assertAddress in Hx. unfold Finalize.assertObjectId in Hx0.
  destruct (canonical_text _ _ _ _ Eo Hx) as (? & ? & ?), (canonical_text _ _ _ _ Hn Hx0) as (? & ? & ?).
  by exists x, x0.
Qed.
Lemma evidence_orphans_reviewed value orphans :
  evidence_orphans isValidSuiAddress isValidSuiObjectId sha256_hex fraction value = inr orphans →
  jget "reviewedOrphanBlobs" (audit value) = JArr orphans ∧ Forall canonical_orphan orphans ∧
  reviewed_list (jget "reviewedOrphanBlobsSha256" (audit value)) orphans (map orphan_key orphans) ∧
  count (jget "reviewedOrphanBlobCount" (audit value)) = Z.of_nat (length orphans).
Proof.
  intros He. unfold evidence_orphans in He. cbv zeta in He. steps He. injection He as <-.
  destruct (jget "reviewedOrphanBlobs" _) eqn:Ej; try done. injection Hx as <-.
  apply negb_true_iff in Hc. subst x0. apply negb_true_iff, out_of_order_increasing in Hc0.
  apply parseU64_count in Hx1. subst x1. apply Z.eqb_eq in Hc2.
  split; [done|]. split; [|split; [|done]].
  2: split_and!; [by apply is_str_eq|done|by apply increasing_NoDup].
  apply Forall_forall. intros o Hin. eapply orphan_accepted, some_m_false; done.
Qed.

(** What the reviewers fixed independently. *)
Definition as_reviewed (value : json) (route : ExpectedCompletionRoute) (policy : ExpectedCompletionPolicy)
    (inventory : json) (manifestSha256 : string) : Prop :=
  same_route value route ∧ deep_equal (jget "walrusUploadRoute" value) (walrusUploadRoute policy) = true ∧
  deep_equal (jget "sealEncryptCommitteeIdentity" value) (sealEncryptCommitteeIdentity policy) = true ∧
  deep_equal (jget "reviewedSourceInventory" value) inventory = true ∧ jget "manifestSha256" value = JStr manifestSha256 ∧
  jget "manifestScope" value = JStr "full-registry" ∧
  jget "sourceAuthorityPolicy" value = JStr "pinned-exact-source-authority-v2".
(** The audited lists and counts. *)
Definition audited (value inventory : json) (accounts delegates : Z) : Prop :=
  ∃ deadIds orphans, jget "reviewedDeadIds" (audit value) = JArr deadIds ∧
    reviewed_list (jget "reviewedDeadIdsSha256" (audit value)) deadIds (map js_string deadIds) ∧
    jget "reviewedOrphanBlobs" (audit value) = JArr orphans ∧ Forall canonical_orphan orphans ∧
    reviewed_list (jget "reviewedOrphanBlobsSha256" (audit value)) orphans (map orphan_key orphans) ∧
    balanced value inventory accounts delegates deadIds.
Lemma evidence_policy_reviewed value policy inventory manifest route u : evidence_policy value policy inventory manifest = inr u →
  same_route value route → as_reviewed value route policy inventory manifest.
Proof.
  intros He Hr. unfold evidence_policy in He. steps He. destruct u. apply check_inr in He. split_andb.
  split_and!; try done; by apply is_str_eq.
Qed.
Lemma evidence_audited value inventory n :
  evidence_audit isValidSuiAddress isValidSuiObjectId sha256_hex fraction value inventory = inr n → audited value inventory n.1 n.2.
Proof.
  intros He. unfold evidence_audit in He. steps He.
  match goal with Hd : evidence_dead_ids _ _ _ = inr ?l |- _ => apply evidence_dead_ids_reviewed in Hd as (? & ?); exists l end.
  match goal with Ho : evidence_orphans _ _ _ _ _ = inr ?l |- _ => apply evidence_orphans_reviewed in Ho as (? & ? & ? & ?); exists l end.
  do 5 (split; [done|]). by apply evidence_counts_balanced.
Qed.
Lemma starts_with_0x s : starts_with "0x" s = true → s = "0x" +:+ drop_s 2 s.
Proof.
  unfold starts_with, drop_s. change (chars "0x") with ["0"%char; "x"%char].
  destruct s as [|a [|b s]]; cbn [chars prefix_of]; [done|by rewrite andb_false_r|].
  intros [Ha%Ascii.eqb_eq [Hb%Ascii.eqb_eq _]%andb_true_iff]%andb_true_iff. subst.
  change (String "0" (String "x" s) = "0x" +:+ of_chars (chars s)). by rewrite of_chars_chars.
Qed.
Lemma evidence_root_spec value root : evidence_root value = inr root →
  ∃ digest, root = "0x" +:+ digest ∧ is_digest digest = true ∧ lower (text_or_empty (jget "manifestRoot" (jget "route" value))) = root.
Proof.
  intros Hr. unfold evidence_root in Hr. cbv zeta in Hr. steps Hr. injection Hr as <-.
  apply andb_true_iff in Hc as [H0x Hd]. eexists. split; [|split; [exact Hd|done]]. by apply starts_with_0x.
Qed.
Lemma evidence_fields_checks value u : evidence_fields value = inr u →
  Permutation (keys_of (jget "checks" value)) REQUIRED_CHECKS.
Proof.
  intros Hf. unfold evidence_fields in Hf. steps Hf. destruct u. unfold assertExactKeys in Hf. apply check_inr in Hf.
  by apply has_exactly_perm.
Qed.

(** The migration is only finalized on a complete report.  An accepted
    report is the canonical text of a JSON value under the reviewed SHA-256;
    it is marked complete with each of the nineteen required checks true and
    no other check; it is fresh; its route, upload policy, committee,
    inventory and manifest digest are the reviewed ones; its lists of
    dead memories and orphaned blobs are sorted, without repetition, in
    canonical form and under their digests; and its counts balance: every
    live source memory is done or reviewed as dead, every row is done or
    dead, nothing is still being deleted and no destination row is orphaned. *)
Theorem completion_evidence_complete spec sha manifest route policy inventory now ev :
  parseCompletionEvidence isValidSuiAddress isValidSuiObjectId sha256_hex read_file syntax_message fraction date_parse
    spec sha manifest route policy inventory now = inr ev →
  ∃ value root, json_parse (ev_raw ev) = Some value ∧ ev_raw ev = default spec (read_file spec) ∧
    ev_raw ev = json_pretty fraction value ∧ ev_sha256 ev = sha256_hex (ev_raw ev) ∧ ev_sha256 ev = sha ∧
    num_is (jget "schemaVersion" value) 5 = true ∧ jget "complete" value = JBool true ∧
    (∀ c, c ∈ REQUIRED_CHECKS → jget c (jget "checks" value) = JBool true) ∧
    Permutation (keys_of (jget "checks" value)) REQUIRED_CHECKS ∧
    fresh_report value now (ev_expiresAtMs ev) ∧ as_reviewed value route policy inventory manifest ∧
    ev_root ev = "0x" +:+ root ∧ is_digest root = true ∧
    lower (text_or_empty (jget "manifestRoot" (jget "route" value))) = ev_root ev ∧
    audited value inventory (ev_accounts ev) (ev_delegates ev).
Proof.
  intros Hp. unfold parseCompletionEvidence in Hp. cbv zeta in Hp. steps Hp. injection Hp as <-.
  cbn [ev_raw ev_sha256 ev_expiresAtMs ev_root ev_accounts ev_delegates].
  apply andb_true_iff in Hc0 as [_ Hsha%seqb_eq]. apply andb_true_iff in Hc1 as [Hv Hdone%is_bool_eq].
  match goal with Hr : evidence_root _ = inr _ |- _ => apply evidence_root_spec in Hr as (root & -> & ? & ?) end.
  match goal with Hr : evidence_fields _ = inr _ |- _ => apply evidence_fields_checks in Hr end.
  match goal with Hr : evidence_lifetime _ _ _ = inr _ |- _ => apply evidence_lifetime_fresh in Hr end.
  match goal with Hr : evidence_route _ _ = inr _ |- _ => apply evidence_route_same in Hr end.
  match goal with Hr : evidence_policy _ _ _ _ = inr _ |- _ => eapply evidence_policy_reviewed in Hr; [|done] end.
  match goal with Hr : evidence_audit _ _ _ _ _ _ = inr _ |- _ => apply evidence_audited in Hr end.
  match goal with Hr : evidence_checks _ _ = inr _ |- _ => pose proof (evidence_checks_true _ _ _ Hr) end.
  unfold parseJson in Hx. destruct (json_parse _) as [value|] eqn:Ej; [|done]. injection Hx as <-. apply seqb_eq in Hc.
  exists value, root. do 14 (split; [done|]). done.
Qed.
End Evidence.

(** ** Objects and their types *)
Section Types.
Context `{SuiSdk} `{SuiTx} (outside : list gevent → js_error + ganswer).

(** Each object that was read is of the struct that it is used as. *)
Definition typed (packageId : string) (objects : list (string + json)) (expected : list expected_object) : Prop :=
  (length objects ≤ length expected)%nat ∧
  ∀ i o x, objects !! i = Some o → expected !! i = Some x →
    ∃ v, o = inr v ∧ jget "type" v = JStr (accountType packageId (eo_struct x)).
(** The objects were read in this run, and are of their types. *)
Definition objects_read (packageId : string) (expected : list expected_object) (tr : list gevent) : Prop :=
  ∃ read, answered outside [] (GGetObjects (map eo_id expected)) read tr ∧ typed packageId (objects_of read) expected.
#[export] Instance mono_objects_read packageId expected : Mono (objects_read packageId expected).
Proof. unfold objects_read. apply _. Qed.
Lemma assert_types_typed packageId objs expected u : assert_types packageId objs expected = inr u → typed packageId objs expected.
Proof.
  revert expected. induction objs as [|o objs IH]; intros [|x expected] Ha; simpl in Ha; try done.
  - split; [apply Nat.le_0_l|]. intros i o' x' Ho. by rewrite lookup_nil in Ho.
  - steps Ha. destruct (IH _ Ha) as [Hl Hi]. split; [simpl; lia|]. intros [|i] o' x' Ho Hx'; simpl in *; [|by eapply Hi].
    simplify_eq. unfold assert_type in Hx. destruct o' as [m|v]; [done|]. destruct x0. apply check_inr, is_str_eq in Hx. by exists v.
Qed.
Lemma types_law ok F packageId expected : Mono F → (∀ tr ids, ok tr (GGetObjects ids)) →
  process_law ok F (assertObjectTypes outside packageId expected) (λ _ tr, F tr ∧ objects_read packageId expected tr).
Proof.
  intros HF Hok. unfold assertObjectTypes. apply law_asked; [apply _|by intros tr _|]. intros read.
  eapply lawful_weaken; [apply law_of_sum|intros tr Htr; exact Htr|]. intros u tr [[Hf Ha] Ht%assert_types_typed].
  split; [done|]. by exists read.
Qed.
End Types.

(** ** The run *)
Section Run.
Context `{SuiSdk} `{SuiTx} (isValidSuiAddress isValidSuiObjectId : string → bool).
Context (sha256_hex : string → string) (read_file : string → option string) (syntax_message : string → string).
Context (fraction : Q → string) (date_parse : string → option Z) (from_hex : string → list ascii).
Context (outside : list gevent → js_error + ganswer) (e : Config.env) (c : finalize_settings).
Notation ask := (ask outside).
Notation answered := (answered outside []).
Notation evidence_of := (evidence_of isValidSuiAddress isValidSuiObjectId sha256_hex read_file syntax_message fraction date_parse c).

(** The registry holds the root and all the imports of the report, and is open. *)
Definition registry_ready (value : json) (evidence : CompletionEvidence) : Prop :=
  "0x" +:+ root_hex (jget "pinned_allowlist_root" value) = ev_root evidence ∧
  count_of (jget "expected_account_imports" value) = inr (ev_accounts evidence) ∧
  count_of (jget "imported_accounts" value) = inr (ev_accounts evidence) ∧
  count_of (jget "expected_delegate_imports" value) = inr (ev_delegates evidence) ∧
  count_of (jget "imported_delegates" value) = inr (ev_delegates evidence) ∧
  jget "migration_finalized" value = JBool false.
Notation objects := [Expected (fs_adminCapId c) "AdminCap" "ADMIN_CAP_ID"; Expected (fs_registryId c) "AccountRegistry" "REGISTRY_ID"].

Definition chain_checked (tr : list gevent) : Prop :=
  ∃ chain, answered GGetChainIdentifier chain tr ∧
    jget "chainIdentifier" (value_of chain) = JStr (GOVERNANCE_CHAIN_IDENTIFIERS (fs_network c)).
Definition objects_checked : list gevent → Prop := objects_read outside (fs_packageId c) objects.
Definition registry_checked (evidence : CompletionEvidence) (tr : list gevent) : Prop :=
  ∃ registry, answered (GGetObject (fs_registryId c)) registry tr ∧
    registry_ready (jget "json" (jget "object" (value_of registry))) evidence.
Definition evidence_accepted (evidence : CompletionEvidence) (tr : list gevent) : Prop :=
  ∃ clock now, answered GNow clock tr ∧ now_of clock = inr now ∧ evidence_of now = inr evidence.
(** The finalization of this report, bound to one epoch of this chain. *)
Definition finalize_draft (evidence : CompletionEvidence) (epoch gasBudget : Z) : draft :=
  Draft [DMoveCall (fs_packageId c +:+ "::account::finalize_migration")
           [DObject (fs_adminCapId c); DObject (fs_registryId c); DClock; DBytes (from_hex (ev_sha256 evidence));
            DU64 (ev_expiresAtMs evidence)]]
    (ValidDuring epoch epoch (GOVERNANCE_CHAIN_IDENTIFIERS (fs_network c)) (nonce_of (ev_sha256 evidence)))
    (fs_sender c) gasBudget.
Definition epoch_of (state : ganswer) : js_error + Z := big_int (js_string (jget "epoch" (jget "systemState" (value_of state)))).

Definition finalize_justified_call (tr : list gevent) (ev : gevent) : Prop :=
  match ev with
  | GBuild d =>
      chain_checked tr ∧ objects_checked tr ∧
      ∃ evidence state epoch gasBudget, evidence_accepted evidence tr ∧ registry_checked evidence tr ∧
        answered GGetSystemState state tr ∧ epoch_of state = inr epoch ∧
        big_int (env_or e "GAS_BUDGET" "500000000") = inr gasBudget ∧ d = finalize_draft evidence epoch gasBudget
  | GWriteFile path text => fund_env e "OUT" = Some path ∧ ∃ d built, answered (GBuild d) built tr ∧ text = built_text built
  | GPrint text => fund_env e "OUT" = None ∧ ∃ d built, answered (GBuild d) built tr ∧
                     text = built_text built +:+ of_chars [ascii_of_N 10]
  | _ => True
  end.
Notation law := (process_law finalize_justified_call).
#[local] Instance mono_chain : Mono chain_checked.
Proof. unfold chain_checked. apply _. Qed.
#[local] Instance mono_objects : Mono objects_checked.
Proof. unfold objects_checked. apply _. Qed.
#[local] Instance mono_registry evidence : Mono (registry_checked evidence).
Proof. unfold registry_checked. apply _. Qed.
#[local] Instance mono_evidence evidence : Mono (evidence_accepted evidence).
Proof. unfold evidence_accepted. apply _. Qed.

Lemma registry_complete_ready registryId value evidence u : registry_complete registryId value evidence = inr u →
  registry_ready value evidence.
Proof.
  intros Hr. unfold registry_complete in Hr. cbv zeta in Hr. steps Hr. destruct u. apply check_inr, is_bool_eq in Hr.
  split_andb. bool_to_prop. subst. split_and!; try done. by apply seqb_eq.
Qed.
Lemma registry_law F evidence : Mono F → law F (assertRegistryComplete outside (fs_registryId c) evidence)
  (λ _ tr, F tr ∧ registry_checked evidence tr).
Proof.
  intros HF. unfold assertRegistryComplete. apply law_asked; [apply _|done|]. intros registry.
  eapply lawful_weaken; [apply law_of_sum|intros tr Htr; exact Htr|]. intros u tr [[Hf Ha] Hr%registry_complete_ready]. split; [done|]. by exists registry.
Qed.
Lemma build_finalize_law evidence gasBudget : big_int (env_or e "GAS_BUDGET" "500000000") = inr gasBudget →
  law (evidence_accepted evidence) (build_finalize from_hex outside c evidence gasBudget)
    (λ built tr, ∃ d, answered (GBuild d) built tr).
Proof.
  intros Hgas. unfold build_finalize. apply law_asked; [apply _|done|]. intros chain. cbv zeta.
  apply law_sum. intros [] Hchain%check_inr%is_str_eq. rewrite Hchain. cbn [js_string].
  eapply lawful_bind; [apply types_law; [apply _|done]|]. intros u1. eapply lawful_bind; [apply registry_law, _|]. intros u2.
  apply law_asked; [apply _|done|]. intros state. apply law_sum. intros epoch Hepoch.
  eapply lawful_weaken; [|intros tr Htr; exact Htr|].
  - apply law_answer; [apply _|]. intros tr ((((He & Hc) & Ho) & Hr) & Hs). split; [by exists chain|]. split; [done|].
    by exists evidence, state, epoch, gasBudget.
  - intros built tr [_ Hb]. by eexists.
Qed.
Lemma emit_law built : law (λ tr, ∃ d, answered (GBuild d) built tr) (emit outside (fund_env e "OUT") (built_text built)) (λ _ _, True).
Proof.
  unfold emit. destruct (fund_env e "OUT") as [path|] eqn:Eo; apply law_last; intros tr [d Hd]; (split; [done|]); by exists d, built.
Qed.
End Run.

Section Main.
Context `{SuiSdk} `{SuiTx} (isValidSuiAddress isValidSuiObjectId : string → bool).
Context (sha256_hex : string → string) (read_file : string → option string) (syntax_message : string → string).
Context (fraction : Q → string) (date_parse : string → option Z) (from_hex : string → list ascii).
Context (outside : list gevent → js_error + ganswer).

(** C11: the irreversible call is only built when everything agrees, whatever
    the outside answers.  Bytes are only built when the chain is the one of
    the configured network, the cap and the registry are of their types in
    the package, the report was accepted at the time the clock gave, and the
    registry on chain has the root of the report, all its imports done
    and is not yet finalized; what is built is the finalization of that
    registry with the digest and deadline of that report, valid only in the
    epoch just read on that chain; and only those bytes leave the script. *)
Theorem finalize_justified e :
  let run := finalize_main isValidSuiAddress isValidSuiObjectId sha256_hex read_file syntax_message fraction date_parse
               from_hex outside e [] in
  match finalize_parse isValidSuiAddress isValidSuiObjectId read_file syntax_message e with
  | inl error => run = ([], inl error)
  | inr c => ∀ pre ev post, fst run = pre ++ ev :: post →
      finalize_justified_call isValidSuiAddress isValidSuiObjectId sha256_hex read_file syntax_message fraction date_parse
        from_hex outside e c pre ev
  end.
Proof.
  cbv zeta. destruct (finalize_parse _ _ _ _ _) as [error|c] eqn:Ec.
  - unfold finalize_main. by rewrite Ec.
  - intros pre ev post Htr. eapply (lawful_each (λ tr, tr) (λ e, e) [] _ (λ _, True) _ (λ _ _, True) [] pre ev post); [|done..|exact Htr].
    unfold finalize_main. rewrite Ec. simpl. apply law_asked; [apply _|done|]. intros clock.
    apply law_sum. intros now Hnow. apply law_sum. intros evidence He. apply law_sum. intros gasBudget Hgas.
    eapply lawful_bind; [eapply law_pre; [|by apply build_finalize_law]|].
    + intros tr [_ Hc]. by exists clock, now.
    + intros built. apply emit_law.
Qed.
End Main.
