(* ===== verification/Builders.v ===== *)
(** * Unsigned governance transactions: publish, mint caps, burn a cap
    (scripts/build-publish-tx.ts, scripts/build-migration-caps-tx.ts,
    scripts/build-burn-cap-tx.ts)

    [compiler_output] is the captured output of a failed [sui move build];
    [resolve] and [contract_default] are the path functions and the default
    directory.  What the scripts write to stderr is not modelled. *)
From Stdlib Require Import QArith Ascii.
From S2P Require Import Prelude JsText JsNumber JsonParse Base64 SealId Retry Wallet Service Durable Config Funding Ledger.
From S2P Require Import FundingSafety Finalize FinalizeSafety.
Local Open Scope Z_scope.

(** ** Publishing *)
Definition buildEnvironment (network : GovernanceNetwork) (value : string) : js_error + GovernanceNetwork :=
  parsedBuildEnv ← governanceNetwork value "BUILD_ENV";
  _ ← check (bool_decide (parsedBuildEnv = network))
        ("BUILD_ENV must match NETWORK (" +:+ governance_text network +:+ "), got " +:+ quote (governance_text parsedBuildEnv));
  mret parsedBuildEnv.
Definition assertSeparateCapabilityCustody (sender upgradeCapRecipient : string) : js_error + unit :=
  check (negb (seqb sender upgradeCapRecipient)) "UPGRADE_CAP_RECIPIENT must differ from SENDER".

Definition MAX_CAPS : nat := 1000.

Section Builders.
Context `{SuiSdk} `{SuiTx} (isValidSuiAddress isValidSuiObjectId : string → bool).
Context (read_file : string → option string) (syntax_message : string → string) (from_hex : string → list ascii).
Context (compiler_output : js_error → string) (resolve : string → string) (contract_default : string).
Context (outside : list gevent → js_error + ganswer).
Notation ask := (ask outside).
Notation assertAddress := (assertAddress isValidSuiAddress).
Notation assertObjectId := (assertObjectId isValidSuiObjectId).

Record publish_settings : Type := PublishSettings {
  pb_sender : string; pb_recipient : string; pb_network : GovernanceNetwork; pb_gasBudget : Z; pb_epoch : option Z;
  pb_contractDir : string; pb_buildEnv : GovernanceNetwork;
}.
Definition publish_parse (e : Config.env) : js_error + publish_settings :=
  _ ← strings_env e ["GRPC_URL"; "SENDER"; "UPGRADE_CAP_RECIPIENT"];
  let networkStr := env_or e "NETWORK" "mainnet" in
  sender ← assertAddress (required e "SENDER") "SENDER";
  upgradeCapRecipient ← assertAddress (required e "UPGRADE_CAP_RECIPIENT") "UPGRADE_CAP_RECIPIENT";
  _ ← assertSeparateCapabilityCustody sender upgradeCapRecipient;
  network ← governanceNetwork networkStr "NETWORK";
  gasBudget ← big_int (env_or e "GAS_BUDGET" "500000000");
  epoch ← match fund_env e "EPOCH" with Some s => z ← big_int s; mret (Some z) | None => mret None end;
  buildEnv ← buildEnvironment network (env_or e "BUILD_ENV" networkStr);
  mret (PublishSettings sender upgradeCapRecipient network gasBudget epoch
          (resolve (env_or e "CONTRACT_DIR" contract_default)) buildEnv).
Definition text_answer (a : ganswer) : string := match value_of a with JStr s => s | _ => empty_str end.
Definition compile (c : publish_settings) : GM string :=
  try_catch (built ← ask (GCompile (governance_text (pb_buildEnv c)) (pb_contractDir c)); mret (text_answer built))
    (λ error, f_throw ("sui move build failed:" +:+ of_chars [ascii_of_N 10] +:+ compiler_output error)).
Definition check_chain (network : GovernanceNetwork) : GM unit :=
  chain ← ask GGetChainIdentifier;
  f_of_sum (assertChainIdentifier network (jget "chainIdentifier" (value_of chain))).
Definition publish_draft (c : publish_settings) (modules dependencies : json) : draft :=
  Draft [DPublish modules dependencies; DTransferObjects [DResult 0] (DAddress (pb_recipient c))]
    (match pb_epoch c with Some epoch => RewriteValidDuring epoch (epoch + 1) | None => DefaultExpiration end)
    (pb_sender c) (pb_gasBudget c).
Definition publish_main (e : Config.env) : GM unit :=
  c ← f_of_sum (publish_parse e);
  _ ← check_chain (pb_network c);
  output ← compile c;
  compiled ← f_of_sum (match json_parse output with Some v => inr v | None => fail (syntax_message output) end);
  built ← ask (GBuild (publish_draft c (jget "modules" compiled) (jget "dependencies" compiled)));
  emit outside (fund_env e "OUT") (built_text built).

(** ** Burning a cap *)
Definition burn_main (e : Config.env) : GM unit :=
  _ ← f_of_sum (strings_env e ["GRPC_URL"; "SENDER"; "PACKAGE_ID"; "MIGRATION_CAP_ID"]);
  sender ← f_of_sum (assertAddress (required e "SENDER") "SENDER");
  packageId ← f_of_sum (assertObjectId (required e "PACKAGE_ID") "PACKAGE_ID");
  migrationCapId ← f_of_sum (assertObjectId (required e "MIGRATION_CAP_ID") "MIGRATION_CAP_ID");
  network ← f_of_sum (governanceNetwork (env_or e "NETWORK" "mainnet") "NETWORK");
  gasBudget ← f_of_sum (big_int (env_or e "GAS_BUDGET" "500000000"));
  _ ← check_chain network;
  _ ← assertObjectTypes outside packageId [Expected migrationCapId "MigrationCap" "MIGRATION_CAP_ID"];
  built ← ask (GBuild (Draft [DMoveCall (packageId +:+ "::account::burn_migration_cap") [DObject migrationCapId]]
                         DefaultExpiration sender gasBudget));
  emit outside (fund_env e "OUT") (built_text built).

(** ** Minting the migration caps *)
Definition strip_0x (v : string) : string := if starts_with "0x" (lower v) then drop_s 2 v else v.
Definition parseAllowlistRoot (v : string) : js_error + list ascii :=
  let hex := strip_0x v in
  _ ← check ((slen hex =? 64)%nat && sforallb is_hex hex)
        ("ALLOWLIST_ROOT must be a 32-byte hex string (64 hex chars), got " +:+ quote v);
  mret (from_hex hex).
Definition parseRecipients (spec : string) : js_error + list string :=
  let text := inline_or_file read_file spec in
  value ← match json_parse text with
          | Some v => inr v
          | None => fail ("RECIPIENTS_JSON: not valid JSON (inline or file path): " +:+ syntax_message text)
          end;
  items ← nonempty_array value "RECIPIENTS_JSON must be a non-empty JSON array of addresses";
  recipients ← map_index (λ i a, assertAddress (trim (js_string a)) ("RECIPIENTS_JSON[" +:+ nat_text i +:+ "]")) 0 items;
  match duplicate [] recipients with
  | Some dup => fail ("duplicate recipient " +:+ dup +:+ " — one MigrationCap per address")
  | None =>
      _ ← check (length recipients <=? MAX_CAPS)%nat
            ("too many recipients (" +:+ nat_text (length recipients) +:+ "); max " +:+ nat_text MAX_CAPS +:+ " MigrationCaps per tx");
      mret recipients
  end.
(** The calls for the recipients, the next one being command [n]. *)
Fixpoint cap_commands (packageId adminCapId registryId : string) (root : list ascii) (n : nat) (recipients : list string)
    : list draft_command :=
  match recipients with
  | [] => []
  | addr :: recipients' =>
      DMoveCall (packageId +:+ "::account::mint_migration_cap") [DObject adminCapId; DObject registryId; DBytes root] ::
      DMoveCall (packageId +:+ "::account::transfer_migration_cap") [DResult n; DAddress addr] ::
      cap_commands packageId adminCapId registryId root (n + 2) recipients'
  end.
Record caps_settings : Type := CapsSettings {
  cs_sender : string; cs_packageId : string; cs_adminCapId : string; cs_registryId : string; cs_root : list ascii;
  cs_recipients : list string; cs_network : GovernanceNetwork; cs_gasBudget : Z;
}.
Definition caps_parse (e : Config.env) : js_error + caps_settings :=
  _ ← strings_env e ["GRPC_URL"; "SENDER"; "PACKAGE_ID"; "ADMIN_CAP_ID"; "REGISTRY_ID"; "ALLOWLIST_ROOT"; "RECIPIENTS_JSON"];
  sender ← assertAddress (required e "SENDER") "SENDER";
  packageId ← assertObjectId (required e "PACKAGE_ID") "PACKAGE_ID";
  adminCapId ← assertObjectId (required e "ADMIN_CAP_ID") "ADMIN_CAP_ID";
  registryId ← assertObjectId (required e "REGISTRY_ID") "REGISTRY_ID";
  root ← parseAllowlistRoot (required e "ALLOWLIST_ROOT");
  recipients ← parseRecipients (required e "RECIPIENTS_JSON");
  network ← governanceNetwork (env_or e "NETWORK" "mainnet") "NETWORK";
  gasBudget ← big_int (env_or e "GAS_BUDGET" "5000000000");
  mret (CapsSettings sender packageId adminCapId registryId root recipients network gasBudget).
Definition caps_draft (c : caps_settings) : draft :=
  Draft (cap_commands (cs_packageId c) (cs_adminCapId c) (cs_registryId c) (cs_root c) 0 (cs_recipients c))
    DefaultExpiration (cs_sender c) (cs_gasBudget c).
Definition caps_main (e : Config.env) : GM unit :=
  c ← f_of_sum (caps_parse e);
  _ ← check_chain (cs_network c);
  _ ← assertObjectTypes outside (cs_packageId c)
        [Expected (cs_adminCapId c) "AdminCap" "ADMIN_CAP_ID"; Expected (cs_registryId c) "AccountRegistry" "REGISTRY_ID"];
  built ← ask (GBuild (caps_draft c));
  emit outside (fund_env e "OUT") (built_text built).
End Builders.

(** ** Theorems *)
Lemma map_index_fmap {A B} (f : nat → A → js_error + B) (P : B → Prop) l i r :
  (∀ j a b, f j a = inr b → P b) → map_index f i l = inr r → Forall P r ∧ length r = length l.
Proof.
  intros Hf Hm. apply map_index_inr in Hm. induction Hm as [|a b l r (j & Hb) _ [IH1 IH2]]; [done|].
  split; [constructor; [by eapply Hf|done]|simpl; by f_equal].
Qed.

Section Caps.
Context `{SuiSdk} `{SuiTx} (isValidSuiAddress isValidSuiObjectId : string → bool).
Context (read_file : string → option string) (syntax_message : string → string) (from_hex : string → list ascii).
Context (outside : list gevent → js_error + ganswer).
Notation answered := (answered outside []).

Definition chain_is (network : GovernanceNetwork) (tr : list gevent) : Prop :=
  ∃ chain, answered GGetChainIdentifier chain tr ∧
    jget "chainIdentifier" (value_of chain) = JStr (GOVERNANCE_CHAIN_IDENTIFIERS network).
#[local] Instance mono_chain_is network : Mono (chain_is network).
Proof. unfold chain_is. apply _. Qed.
Lemma check_chain_law ok network : (∀ tr, ok tr GGetChainIdentifier) →
  process_law ok (λ _, True) (check_chain outside network) (λ _, chain_is network).
Proof.
  intros Hok. unfold check_chain. apply law_asked; [apply _|by intros tr _|]. intros chain.
  eapply lawful_weaken; [|intros tr Htr; exact Htr|].
  - apply law_of_sum.
  - intros [] tr [[_ Ha] Hc%check_inr%is_str_eq]. by exists chain.
Qed.

(** The recipients of the caps. *)
Definition good_recipients (recipients : list string) : Prop :=
  NoDup recipients ∧ recipients ≠ [] ∧ (length recipients ≤ 1000)%nat ∧ Forall (payable isValidSuiAddress) recipients.
Lemma parseRecipients_good spec recipients : parseRecipients isValidSuiAddress read_file syntax_message spec = inr recipients →
  good_recipients recipients.
Proof.
  intros Hp. unfold parseRecipients in Hp. cbv zeta in Hp. steps Hp. rename x0 into items, x1 into rs.
  destruct (duplicate [] rs) eqn:Ed; [done|]. steps Hp. injection Hp as <-.
  unfold nonempty_array in Hx0. destruct x as [| | | | |[|y l]|]; try done. injection Hx0 as <-.
  apply (map_index_fmap _ (payable isValidSuiAddress)) in Hx1 as [Hv Hl].
  - split_and!; [apply (duplicate_none [] _ Ed); constructor|by destruct rs|by apply Nat.leb_le in Hc|done].
  - intros j a b Hb. unfold Funding.assertAddress in Hb. steps Hb. injection Hb as <-. by eexists.
Qed.

(** The two calls of each recipient. *)
Lemma cap_commands_at packageId adminCapId registryId root n recipients i addr : recipients !! i = Some addr →
  cap_commands packageId adminCapId registryId root n recipients !! (2 * i)%nat =
    Some (DMoveCall (packageId +:+ "::account::mint_migration_cap") [DObject adminCapId; DObject registryId; DBytes root]) ∧
  cap_commands packageId adminCapId registryId root n recipients !! (2 * i + 1)%nat =
    Some (DMoveCall (packageId +:+ "::account::transfer_migration_cap") [DResult (n + 2 * i); DAddress addr]).
Proof.
  revert n i. induction recipients as [|a l IH]; intros n [|i] Hi; try done; simpl in Hi.
  - injection Hi as ->. simpl. by rewrite Nat.add_0_r.
  - destruct (IH (n + 2)%nat i Hi) as [H1 H2]. replace (2 * S i)%nat with (S (S (2 * i))) by lia.
    replace (n + S (S (2 * i)))%nat with (n + 2 + 2 * i)%nat by lia. by split.
Qed.
Lemma cap_commands_length packageId adminCapId registryId root n recipients :
  length (cap_commands packageId adminCapId registryId root n recipients) = (2 * length recipients)%nat.
Proof. revert n. induction recipients as [|a l IH]; intros n; simpl; [done|]. rewrite IH. lia. Qed.

Definition caps_call (e : Config.env) (c : caps_settings) (tr : list gevent) (ev : gevent) : Prop :=
  match ev with
  | GBuild d =>
      chain_is (cs_network c) tr ∧
      objects_read outside (cs_packageId c)
        [Expected (cs_adminCapId c) "AdminCap" "ADMIN_CAP_ID"; Expected (cs_registryId c) "AccountRegistry" "REGISTRY_ID"] tr ∧
      d = caps_draft c
  | GWriteFile path text => fund_env e "OUT" = Some path ∧ ∃ built, answered (GBuild (caps_draft c)) built tr ∧ text = built_text built
  | GPrint text => fund_env e "OUT" = None ∧ ∃ built, answered (GBuild (caps_draft c)) built tr ∧
                     text = built_text built +:+ of_chars [ascii_of_N 10]
  | _ => True
  end.

(** Minting hands out exactly one cap per wallet.  With accepted settings
    the recipients are between 1 and 1000 distinct, normalised addresses, and the
    only bytes ever built are, on the configured chain and with the cap and
    the registry of their types in the package, two calls per recipient:
    command 2i mints a cap for the given root from this registry, and command
    2i+1 transfers exactly that cap to the i-th recipient; nothing else is
    in the transaction, and only these bytes leave the script. *)
Theorem caps_minted_once e :
  let run := caps_main isValidSuiAddress isValidSuiObjectId read_file syntax_message from_hex outside e [] in
  match caps_parse isValidSuiAddress isValidSuiObjectId read_file syntax_message from_hex e with
  | inl error => run = ([], inl error)
  | inr c =>
      good_recipients (cs_recipients c) ∧
      length (d_commands (caps_draft c)) = (2 * length (cs_recipients c))%nat ∧
      (∀ i addr, cs_recipients c !! i = Some addr →
         d_commands (caps_draft c) !! (2 * i)%nat =
           Some (DMoveCall (cs_packageId c +:+ "::account::mint_migration_cap")
                   [DObject (cs_adminCapId c); DObject (cs_registryId c); DBytes (cs_root c)]) ∧
         d_commands (caps_draft c) !! (2 * i + 1)%nat =
           Some (DMoveCall (cs_packageId c +:+ "::account::transfer_migration_cap") [DResult (2 * i); DAddress addr])) ∧
      ∀ pre ev post, fst run = pre ++ ev :: post → caps_call e c pre ev
  end.
Proof.
  cbv zeta. destruct (caps_parse _ _ _ _ _ _) as [error|c] eqn:Ec; [unfold caps_main; by rewrite Ec|].
  split; [|split; [apply cap_commands_length|split; [intros i addr; apply cap_commands_at|]]].
  { unfold caps_parse in Ec. steps Ec. injection Ec as <-. by eapply parseRecipients_good. }
  intros pre ev post Htr. eapply (lawful_each (λ tr, tr) (λ e, e) [] _ (λ _, True) _ (λ _ _, True) [] pre ev post); [|done..|exact Htr].
  unfold caps_main. rewrite Ec. apply law_sum. intros c' [= <-]. eapply lawful_bind; [by apply check_chain_law|]. intros u.
  eapply lawful_bind; [by apply types_law; [apply _|]|]. intros u'. apply law_asked; [apply _|by intros tr []|].
  intros built. unfold emit. destruct (fund_env e "OUT") as [path|] eqn:Eo; apply law_last;
    intros tr [_ Hb]; (split; [done|]); by exists built.
Qed.
End Caps.
