(* ===== verification/DurableExample.v ===== *)
(** * A concrete outside for the durable routes, and the witnesses

    A chain that executes one journaled transaction, a wallet that signs
    directly, and requests that exercise the handler. *)
From Stdlib Require Import QArith Ascii.
From S2P Require Import Prelude JsText JsNumber JsonParse Base64 SealId Retry Config EnokiSafety Wallet.
From S2P Require Import Service Util Blob Query QuerySafety Durable DurableFrame SideEffects.
From S2P Require Import Journal JournalSafety JournalSteps Metadata MetadataSafety Upload UploadSafety.
From S2P Require Enoki.
Local Open Scope Z_scope.

#[export] Instance example_tx : SuiTx := {|
  tx_digest l := "D-" +:+ of_chars l;
  tx_from_bytes l := inr (TxData (Some ex_server) (Some ex_server) (Some 0%nat) NoExpiration false [OtherInput]);
  tx_sign a l := "signature";
  tx_verify l sg a := if seqb sg "signature" then None else Some (plain_error "bad signature");
  normalizeStructTag := lower;
|}.

(** The wallet of [Enoki] without a sponsor: direct signing succeeds. *)
Definition ex_world : Enoki.world := Enoki.World (λ _, None) (λ _, inr "kind") (λ _, (0, Enoki.Transport (plain_error "offline")))
  (λ _, inr "sig") (λ _, inr (JObj [("$kind", JStr "Transaction"); ("Transaction", JObj [("digest", JStr "W-1")])])).
#[export] Instance example_wallet : Wallet :=
  enoki_wallet ex_world (λ _, None) None 3 500 5000 "mainnet" (plain_error "timeout") (plain_error "aborted")
    (λ s, s) (λ s, s) 3 500 5000.
#[export] Instance example_wallet_laws : WalletLaws.
Proof. apply enoki_wallet_laws; try done; try lia. intros tr d e [= _ <-]. done. Qed.

Definition ex_bytes : list ascii := chars "register-transaction".
Definition ex_digest : string := tx_digest ex_bytes.
Definition ex_config : journal_config :=
  JournalConfig ["key0"] (λ _, inr ex_server) Config.mainnet 15 true true.
Definition ex_encoded : json := JObj [("step", JStr "encoded"); ("blobId", JStr "blob-1"); ("rootHash", JStr "r");
  ("unencodedSize", jint 10)].
Definition ex_register_body : json := JObj [("data", JStr "aGVsbG8="); ("keyIndex", jint 0); ("jobId", JStr "job-1");
  ("epochs", jint 15); ("uploadProtocolVersion", jint 3); ("resumeStep", ex_encoded);
  ("registerTransaction", JObj [("transactionBytes", JStr (to_base64 ex_bytes)); ("signature", JStr "signature");
     ("digest", JStr ex_digest)])].
Definition ex_finalized : json :=
  JObj [("$kind", JStr "Transaction");
        ("Transaction", JObj [("digest", JStr ex_digest); ("status", jobj1 "success" (JBool true));
           ("objectTypes", jobj1 "0x1" (JStr "0x9::blob::Blob"));
           ("effects", jobj1 "changedObjects" (JArr [JObj [("objectId", JStr "0x1"); ("idOperation", JStr "Created")]]))])].

(** A chain that does not know the transaction until it is executed, and one
    that cannot be reached. *)
Definition ex_answer (tr : list sevent) : js_error + json :=
  match last tr with
  | Some (SGetTransaction _) => inl (JsError PlainError (JStr "NOT_FOUND") JUndefined JUndefined JUndefined
                                       "no such transaction" "Error: no such transaction" "Error")
  | Some (SExecute _ _) => inr ex_finalized
  | Some (SGetObject id) => inr (jobj1 "object" (ex_object id "blob-1"))
  | Some SEncode => inr ex_encoded
  | _ => inr JNull
  end.
Definition ex_down : service :=
  Service (λ tr, match last tr with
                 | Some (SGetTransaction _) => inl (plain_error "connect ECONNREFUSED")
                 | _ => ex_answer tr
                 end) (λ _, 5) (λ _, 0%Q).

Lemma ex_down_laws : outside_laws ex_down ex_config.
Proof.
  split; try done. intros tr e. simpl. unfold ex_answer. destruct (last tr) as [[]|]; try done. by intros [= <-].
Qed.

Notation ex_run sv body :=
  (upload_step_handler sv ex_config "0x9" "0x2::sui::SUI" "chain" "mainnet" "trace" body ex_sstate).
Lemma run_pair {A B} (p : A * B) b : p.2 = b → p = (p.1, b).
Proof. by destruct p; intros <-. Qed.

Definition submissions (s : sstate) : list sevent := filter (λ e, submits e = true) (s_trace s).



(** With the chain unreachable, the answer is "NO_SIDE_EFFECT", and nothing
    was submitted. *)
Lemma no_side_effect_truthful_witness :
  submissions (ex_run ex_down ex_register_body).1 = [] ∧
  ∃ s' resp, ex_run ex_down ex_register_body = (s', inr resp) ∧
    jget "code" (r_body resp) = JStr "NO_SIDE_EFFECT".
Proof.
  split; [vm_compute; reflexivity|].
  destruct (no_side_effect_truthful ex_down ex_config "0x9" "0x2::sui::SUI" "chain" "mainnet" "trace" ex_down_laws
    ex_register_body ex_sstate) as (s' & resp & E & _).
  exists s', resp. split; [exact E|].
  assert (Hc : match (ex_run ex_down ex_register_body).2 with inr r => jget "code" (r_body r) | inl _ => JNull end
    = JStr "NO_SIDE_EFFECT") by (vm_compute; reflexivity).
  rewrite E in Hc. exact Hc.
Defined.

(** ** Metadata and transfer *)
Definition ex_transfer_body (reconcile : bool) : json := JObj [("blobObjectId", JStr "0x1"); ("owner", JStr ex_owner);
  ("keyIndex", jint 0); ("namespace", JStr "work"); ("sealAbi", JStr "v1"); ("walletAddress", JStr ex_server);
  ("reconcileOnly", JBool reconcile)].
Definition ex_transfer_answer (tr : list sevent) : js_error + json :=
  match last tr with
  | Some (SGetObject id) => inr (jobj1 "object" (JObj [("objectId", JStr id); ("owner", jobj1 "AddressOwner" (JStr ex_server))]))
  | Some (SWait d) => inr (JObj [("$kind", JStr "Transaction"); ("Transaction", jobj1 "status" (jobj1 "success" (JBool true)))])
  | _ => inr JNull
  end.
Definition ex_transfer_service : service := Service ex_transfer_answer (λ _, 5) (λ _, 0%Q).
Lemma ex_transfer_laws : outside_laws ex_transfer_service ex_config.
Proof. split; try done. intros tr e. simpl. unfold ex_transfer_answer. by destruct (last tr) as [[]|]. Qed.
Notation ex_transfer body :=
  (set_metadata_handler ex_transfer_service ex_config (SealPolicy true "0x7") "0x9" "chain" "mainnet" "trace" false
     body ex_sstate).

Lemma metadata_truthful_witness :
  truthy (jget "reconcileOnly" (ex_transfer_body true)) = true ∧
  ∃ new, s_trace (ex_transfer (ex_transfer_body true)).1 = s_trace ex_sstate ++ new ∧
    Forall (λ e, submits e = false) new.
Proof.
  split; [reflexivity|].
  destruct (metadata_truthful ex_transfer_service ex_config (SealPolicy true "0x7") "0x9" "chain" "mainnet" "trace" false
    ex_transfer_laws (ex_transfer_body true) ex_sstate) as (s' & resp & new & E & Etr & Hrec & _).
  exists new. rewrite E. split; [exact Etr|exact (Hrec eq_refl)].
Defined.

Definition ex_transferred : response := transfer_response 1 (JStr "W-1") "0x1" "ok".
Lemma transfers_are_settled_witness :
  (ex_transfer (ex_transfer_body false)).2 = inr ex_transferred ∧
  ∃ r, of_body ex_config (SealPolicy true "0x7") (ex_transfer_body false) r ∧
    settled ex_transfer_service ex_config (ex_transfer_body false) r ex_sstate
      (ex_transfer (ex_transfer_body false)).1 ex_transferred.
Proof.
  assert (E : (ex_transfer (ex_transfer_body false)).2 = inr ex_transferred) by (vm_compute; reflexivity).
  split; [exact E|].
  exact (transfers_are_settled ex_transfer_service ex_config (SealPolicy true "0x7") "0x9" "chain" "mainnet" "trace" false
    ex_transfer_laws (ex_transfer_body false) ex_sstate _ _ (run_pair _ _ E) eq_refl).
Defined.

Definition ex_batch_body : json := JObj [("blobs", JArr [jobj1 "blobObjectId" (JStr "0x1"); jobj1 "blobObjectId" (JStr "0x2")]);
  ("owner", JStr ex_owner); ("keyIndex", jint 0); ("sealAbi", JStr "v1")].
Notation ex_batch body :=
  (set_metadata_batch_handler ex_transfer_service ex_config (SealPolicy true "0x7") "trace" body ex_sstate).
Definition ex_batched : response := ok (JObj [("transferred", jint 2); ("digest", JStr "W-1")]).
Lemma batch_transfers_all_witness :
  (ex_batch ex_batch_body).2 = inr ex_batched ∧
  ∃ r blobs, batch_of ex_config (SealPolicy true "0x7") ex_batch_body r blobs ∧
    ex_batched = ok (JObj [("transferred", jint (Z.of_nat (length blobs))); ("digest", JStr "W-1")]).
Proof.
  assert (E : (ex_batch ex_batch_body).2 = inr ex_batched) by (vm_compute; reflexivity).
  split; [exact E|].
  destruct (batch_transfers_all ex_transfer_service ex_config (SealPolicy true "0x7") "trace"
    ex_batch_body ex_sstate _ _ (run_pair _ _ E) eq_refl)
    as (r & blobs & signer & digest & result & tx & label & Hb & _ & _ & _ & _ & Er).
  exists r, blobs. split; [exact Hb|]. injection Er as Hn Hd. unfold ex_batched. rewrite <-Hn. reflexivity.
Defined.

(** ** One-shot upload *)
Definition ex_upload_body : json := JObj [("data", JStr "aGVsbG8="); ("keyIndex", jint 0); ("jobId", JStr "job-1");
  ("owner", JStr ex_owner); ("namespace", JStr "work"); ("sealAbi", JStr "v1"); ("epochs", jint 5)].
Definition ex_upload_answer (tr : list sevent) : js_error + json :=
  match last tr with
  | Some SGetBlob => inr (JObj [("blobId", JStr "blob-1"); ("blobObjectId", JStr "0x1")])
  | Some (SWait d) => inr (JObj [("$kind", JStr "Transaction"); ("Transaction", jobj1 "status" (jobj1 "success" (JBool true)))])
  | _ => inr JNull
  end.
Definition ex_upload_service : service := Service ex_upload_answer (λ _, 5) (λ _, 0%Q).
Lemma ex_upload_foreign : foreign ex_upload_service.
Proof. intros tr e. simpl. unfold ex_upload_answer. by destruct (last tr) as [[]|]. Qed.
Definition ex_env : Config.env := λ _, None.
Notation ex_upload body :=
  (upload_handler ex_upload_service ex_config (SealPolicy true "0x7") ex_env "trace" body ex_sstate).
Definition ex_uploaded : response := uploaded (JObj [("blobId", JStr "blob-1")]) (Some "0x1") false.

Lemma upload_holds_slots_witness :
  foreign ex_upload_service ∧
  ∃ new, s_trace (ex_upload ex_upload_body).1 = s_trace ex_sstate ++ new.
Proof.
  split; [exact ex_upload_foreign|].
  destruct (upload_holds_slots ex_upload_service ex_config (SealPolicy true "0x7") ex_env "trace" ex_upload_foreign
    ex_upload_body ex_sstate) as (s' & resp & new & E & Etr & _).
  exists new. rewrite E. exact Etr.
Defined.

Lemma uploads_are_complete_witness :
  (ex_upload ex_upload_body).2 = inr ex_uploaded ∧
  ∃ r signer, validate_upload ex_config (SealPolicy true "0x7") ex_env ex_upload_body = inr (inr r) ∧
    jc_address ex_config (ur_key r) = inr signer.
Proof.
  assert (E : (ex_upload ex_upload_body).2 = inr ex_uploaded) by (vm_compute; reflexivity).
  split; [exact E|].
  destruct (uploads_are_complete ex_upload_service ex_config (SealPolicy true "0x7") ex_env "trace"
    ex_upload_body ex_sstate _ _ (run_pair _ _ E) eq_refl)
    as (r & signer & _ & _ & _ & _ & _ & _ & _ & _ & _ & _ & _ & Hv & Hk & _).
  exists r, signer. split; [exact Hv|exact Hk].
Defined.
