(* ===== verification/SidecarExample.v ===== *)
(** * Concrete runs of the SEAL routes and of the whole application

    A batch of two items of which one is no ciphertext, and a decryption with
    a delegate key while the key servers are overloaded. *)
From Stdlib Require Import QArith Ascii.
From S2P Require Import Prelude JsText JsNumber JsonParse Hex Base64 SealId SealConfig Config Retry Service.
From S2P Require Import Query QuerySafety Metadata SideEffects Ledger SealRoutes SealSafety DurableExample.
From S2P Require Enoki.
From S2P Require Import Settings Clients.
From S2P Require Import Wallet Sponsor Health App.
From S2P Require Enoki EnokiSafety.
Local Open Scope Z_scope.

Definition ex_seal_sdk : seal_sdk := SealSdk
  (λ data, if seqb (of_chars data) "cipher" then inr ("0x7", "0a0b") else inl (plain_error "bad ciphertext"))
  (λ session, text_of (jget "packageId" session))
  (λ _, inl (plain_error "bech32")) (λ _, inr "0xabc") (λ _, plain_error "u64") (λ _, inl (js_type_error "buffer")).
Definition ex_seal_config : seal_config := SealRouteConfig ex_policy false false false
  (SealConfig.Committee [] 2) 2 30000.
Definition ex_headers : seal_headers := SealHeaders None
  (Some "00112233445566778899aabbccddeeff00112233445566778899aabbccddeeff").
Definition ex_seal_answer (down : bool) (tr : list sevent) : js_error + json :=
  match last tr with
  | Some (SCreateSession _ _ _) => inr (JObj [("packageId", JStr "0x07")])
  | Some (SFetchKeys _ _ _ _) => if down then inl (plain_error "rate limit") else inr JUndefined
  | Some (SSealDecrypt _ _ _) => inr (JStr "plain")
  | _ => inr JNull
  end.
Definition ex_seal_service (down : bool) : service := Service (ex_seal_answer down) (λ _, 5) (λ _, 0%Q).
Definition ex_batch_request : json := JObj [
  ("sealAbi", JStr "v1-new"); ("packageId", JStr "0x7"); ("policyPackageId", JStr "0x09");
  ("accountId", JStr (canonical_address "0x1")); ("registryId", JStr (canonical_address "0x2"));
  ("data", JStr "Y2lwaGVy"); ("items", JArr [JStr "Y2lwaGVy"; JStr "AAAA"])].
Notation ex_post down path := (post_seal ex_seal_sdk (ex_seal_service down) ex_seal_config "trace" "fresh" path
  ex_headers ex_batch_request).

Definition ex_batch_reply : response := batch_answer [(0%nat, "cGxhaW4=")]
  [ItemError 1 "CORRUPT_CIPHERTEXT" "parse failed: bad ciphertext"].

Notation ex_handler down route := (seal_handler ex_seal_sdk (ex_seal_service down) ex_seal_config "trace" "fresh" route
  ex_headers ex_batch_request).

Lemma batch_answers_each_once_witness :
  ex_post false "/seal/decrypt-batch" = Some (ex_handler false DecryptBatch) ∧
  (ex_handler false DecryptBatch ex_sstate).2 = inr ex_batch_reply ∧
  ∃ items results errors, jget "items" ex_batch_request = JArr items ∧
    r_body ex_batch_reply = JObj [("results", JArr (map result_json results)); ("errors", JArr (map error_json errors))].
Proof.
  assert (E : (ex_handler false DecryptBatch ex_sstate).2 = inr ex_batch_reply) by (vm_compute; reflexivity).
  split; [reflexivity|]. split; [exact E|].
  destruct (batch_answers_each_once ex_seal_sdk (ex_seal_service false) ex_seal_config "trace" "fresh"
    "/seal/decrypt-batch" ex_headers ex_batch_request (ex_handler false DecryptBatch) ex_sstate _ _
    eq_refl eq_refl (run_pair _ _ E) eq_refl) as (items & results & errors & Hi & Hb & _).
  exists items, results, errors. split; [exact Hi|exact Hb].
Defined.

Definition key_fetches (s : sstate) : nat :=
  length (filter (λ e, match e with SFetchKeys _ _ _ _ => true | _ => false end = true) (s_trace s)).

Lemma seal_calls_scoped_witness :
  key_fetches (ex_handler false Decrypt ex_sstate).1 = 1%nat ∧
  ∃ new, s_trace (fst (ex_handler false Decrypt ex_sstate)) = s_trace ex_sstate ++ new.
Proof.
  split; [vm_compute; reflexivity|].
  destruct (seal_calls_scoped ex_seal_sdk (ex_seal_service false) ex_seal_config "trace" "fresh"
    "/seal/decrypt" ex_headers ex_batch_request (ex_handler false Decrypt) ex_sstate eq_refl)
    as (route & new & _ & E & _).
  exists new. exact E.
Defined.

Lemma seal_always_answers_witness :
  match (ex_handler true Decrypt ex_sstate).2 with inr resp => r_status resp | inl _ => 0 end = 503 ∧
  ∃ s' resp, ex_handler true Decrypt ex_sstate = (s', inr resp).
Proof.
  split; [vm_compute; reflexivity|].
  destruct (seal_always_answers ex_seal_sdk (ex_seal_service true) ex_seal_config "trace" "fresh"
    "/seal/decrypt" ex_headers ex_batch_request (ex_handler true Decrypt) ex_sstate eq_refl)
    as (s' & resp & E & _).
  exists s', resp. exact E.
Defined.

(** ** Concrete requests to the sidecar's application

    A stranger and the relayer ask for a decryption and for the metrics; a
    user's sponsored transaction is executed and confirmed. *)

(** ** Executing a sponsored transaction *)
Definition ex_sponsored : service :=
  Service (λ tr, match last tr with
                 | Some (SGetTransaction d) => inr (JObj [("Transaction", JObj [("digest", JStr d);
                     ("status", JObj [("success", JBool true)]); ("transaction", JObj [("sender", JStr "0xuser")])])])
                 | _ => inl (plain_error "unexpected call")
                 end) (λ _, 5) (λ _, 0%Q).
Definition ex_execute_request : json :=
  JObj [("digest", JStr "d1"); ("signature", JStr "user-signature"); ("verifyEffects", JBool true)].
Notation ex_execute := (execute_handler ex_sponsored EnokiSafety.ex_world EnokiSafety.ex_date (Some "key") 2 5000 30000
  EnokiSafety.ex_error EnokiSafety.ex_error "trace" ex_execute_request ex_sstate).
Definition ex_executed : response := ok (JObj [("digest", JStr "d1"); ("sender", JStr "0xuser")]).
Lemma sponsor_execute_verified_witness :
  snd ex_execute = inr ex_executed ∧
  ∃ resp, snd ex_execute = inr resp ∧ verified ex_sponsored ex_execute_request (s_trace ex_sstate) resp (s_trace (fst ex_execute)).
Proof.
  split; [vm_compute; reflexivity|].
  destruct (sponsor_execute_verified ex_sponsored EnokiSafety.ex_world EnokiSafety.ex_date (Some "key") 2 5000 30000
    EnokiSafety.ex_error EnokiSafety.ex_error "trace" EnokiSafety.ex_fetch_duration ltac:(lia) ltac:(lia)
    ex_execute_request ex_sstate) as (resp & new & E & _ & _ & Hv & _).
  exists resp. split; [exact E|exact Hv].
Defined.

(** ** Requests with and without the secret *)
Definition ex_request (method path : string) (authorization : option string) : http_request :=
  HttpRequest method path authorization (JStr "req-1") JUndefined (SealHeaders None None) (JObj []).
Definition ex_matches (method path : string) (rq : http_request) : bool :=
  seqb method (rq_method rq) && seqb path (rq_path rq).
Definition ex_process : process_info := ProcessInfo 1 1048576 1048576 1048576 0 0 0 0 ("none", None) 5.
Definition ex_balances : service :=
  Service (λ tr, match last tr with
                 | Some (SWalletBalances _) => inr (JObj (snapshot_fields (BalanceSnapshot no_totals 0 0 [("0xa", "1", "2")])))
                 | _ => inl (plain_error "unexpected call")
                 end) (λ _, 5) (λ _, 0%Q).
Notation ex_serve rq := (serve ex_matches "secret" ex_balances (λ _, None) ex_settings ex_process ex_seal_sdk 5 "fresh"
  (λ _, inl (plain_error "no key")) (λ _, inl (plain_error "no key")) EnokiSafety.ex_world EnokiSafety.ex_date
  EnokiSafety.ex_error EnokiSafety.ex_error rq "uuid").
Definition ex_stranger : http_request := ex_request "POST" "/seal/decrypt" (Some "Bearer guess").
Definition ex_scraper : http_request := ex_request "GET" "/metrics/wallet" None.

(** With the secret, the decryption reaches its handler. *)
Lemma secret_passes :
  dispatch ex_matches "secret" (createSidecarApp full (seal_cfg (λ _, None) ex_settings))
    (ex_request "POST" "/seal/decrypt" (Some "Bearer secret")) "uuid" "uuid" = Handled (Seal "/seal/decrypt") "req-1".
Proof. vm_compute. reflexivity. Qed.
Lemma unauthenticated_harmless_witness :
  ex_serve ex_stranger = Plain (refuse 401 "Unauthorized") ∧
  match ex_serve ex_scraper with
  | Run m => ∃ resp new, snd (m ex_sstate) = inr resp ∧ s_trace (fst (m ex_sstate)) = s_trace ex_sstate ++ new ∧
               Forall (observes []) new ∧ jget "perWallet" (r_body resp) = JUndefined
  | _ => False
  end.
Proof.
  split; [vm_compute; reflexivity|].
  pose proof (proj1 (unauthenticated_harmless ex_matches "secret" ex_balances (λ _, None) ex_settings ex_process ex_seal_sdk
    5 "fresh" (λ _, inl (plain_error "no key")) (λ _, inl (plain_error "no key")) EnokiSafety.ex_world EnokiSafety.ex_date
    EnokiSafety.ex_error EnokiSafety.ex_error ex_scraper "uuid" ex_sstate) ltac:(vm_compute; discriminate)) as H.
  assert (E : ∃ m, ex_serve ex_scraper = Run m) by (eexists; cbv -[wallet_metrics_handler]; reflexivity).
  destruct E as [m E]. rewrite E in *. exact H.
Defined.
