(* ===== verification/McpExample.v ===== *)
(** * Concrete runs of the MCP bridge

    A login, a hand-over, a bridge whose relayer drops its stream; and runs
    that show what the invariants leave open. *)
From Stdlib Require Import QArith Ascii.
From S2P Require Import Prelude JsText JsNumber JsonParse LineReader McpCreds AuthRequired McpLogin.
From S2P Require Import Bridge BridgeSafety McpMain.
Local Open Scope nat_scope.

Definition ex_digits (c : ascii) : string := of_chars (replicate 64 c).
Definition ex_address (c : ascii) : string := "0x" +:+ ex_digits c.
Definition ex_creds (account : ascii) : MemWalCredentials :=
  Creds (ex_digits "a") (ex_digits "b") (ex_address "1") (ex_address "2") (ex_address account) (ex_address "4")
        "https://relay" (Some "Test") "1970-01-01T00:00:00.000Z".
Definition ex_file (account : ascii) : file := File (stringify_indented (creds_json (ex_creds account))) MODE_0600.

Lemma ex_loads account : is_hex account = true → loadCreds (Some (ex_file account)) = Some (ex_creds account).
Proof. destruct account as [[] [] [] [] [] [] [] []]; (discriminate || (intros _; vm_compute; reflexivity)). Qed.

Lemma credentials_roundtrip_witness :
  is_hex64 (delegatePrivateKey (ex_creds "3")) = true ∧ is_full_address (accountId (ex_creds "3")) = true ∧
  ∃ f, saveCreds true false (ex_creds "3") None = Some (Some f) ∧ loadCreds (Some f) = Some (ex_creds "3").
Proof.
  split; [reflexivity|]. split; [reflexivity|].
  destruct (credentials_roundtrip (ex_creds "3") false None eq_refl eq_refl) as (f & Hs & Hl & _). by exists f.
Defined.

(** ** The two readers *)
Definition lf : string := of_chars [LF].
Lemma sse_delivery_witness :
  sse_events ["event: endp"; "oint" +:+ lf +:+ "data: /m?s=1" +:+ lf; lf +:+ ": ping" +:+ lf +:+ lf +:+ "event: message" +:+ lf;
              "data: [1]" +:+ lf +:+ lf +:+ "event:"] =
  [Endpoint "/m?s=1"; Ignored; Message (JArr [jint 1])].
Proof.
  apply (sse_delivery "/m?s=1" [Comment " ping"; Data "[1]"] (chars "event:")); [| |reflexivity|reflexivity].
  - repeat constructor.
  - repeat constructor.
Defined.

Definition ex_list (id : string) : string := q2 ("{'jsonrpc':'2.0','id':" +:+ id +:+ ",'method':'tools/list'}").
Lemma handoff_keeps_lines_witness : ∃ h,
  runAuthRequiredServer [] [(None, ex_list "1" +:+ lf); (Some (ex_file "3"), ex_list "2" +:+ lf +:+ ex_list "3" +:+ lf)] =
    Handed [Tools (jint 1) TOOL_DEFINITIONS] h [] [] ∧
  ∃ served, [Tools (jint 1) TOOL_DEFINITIONS] = concat (served.*2) ∧
    [ex_list "1"; ex_list "2"; ex_list "3"] = served.*1 ++ h_pendingLines h ++ [].
Proof.
  exists (Handoff (ex_creds "3") [ex_list "2"; ex_list "3"]). split; [vm_compute; reflexivity|].
  destruct (handoff_keeps_lines
    [(None, ex_list "1" +:+ lf); (Some (ex_file "3"), ex_list "2" +:+ lf +:+ ex_list "3" +:+ lf)] []
    [Tools (jint 1) TOOL_DEFINITIONS] (Handoff (ex_creds "3") [ex_list "2"; ex_list "3"]) [] [])
    as (served & _ & Ho & _ & Hl); [vm_compute; reflexivity|].
  exists served. split; [exact Ho|]. etransitivity; [|exact Hl]. vm_compute. reflexivity.
Defined.

(** A line that is still incomplete when the hand-over happens is lost: the
    bridge's reader starts with an empty buffer. *)
Lemma handoff_loses_partial_line :
  ∃ h, runAuthRequiredServer [] [(Some (ex_file "3"), ex_list "1" +:+ lf +:+ "{'id':"); (None, "2}" +:+ lf)] =
    Handed [] h (chars "{'id':") ["2}" +:+ lf] ∧
  h_pendingLines h = [ex_list "1"] ∧ readStdinLines ["2}" +:+ lf] = ["2}"].
Proof. eexists. split; [vm_compute; reflexivity|]. split; vm_compute; reflexivity. Qed.
Lemma null_line_crashes : runAuthRequiredServer [] [(None, "null" +:+ lf)] = Crashed [].
Proof. vm_compute. reflexivity. Qed.

(** ** Logging in *)
Definition ex_origin (url : string) : option string := Some url.
Definition ex_path (url : string) : option string := if starts_with "//" url then None else Some url.
Definition ex_keys : Keypair := KeypairOf (ex_digits "a") (ex_digits "b") (ex_address "1").
Definition ex_session : McpLogin.session :=
  Session (Options "https://dash" "https://relay" "Test" 300000) ex_keys (ex_digits "7") 4321.
Definition ex_request (path body : string) : request :=
  Request "POST" path (Some "localhost:4321") (Some "https://dash") (Some "application/json") false body.
Definition ex_preflight : request := ex_request "/preflight"
  (q2 ("{'state':'" +:+ ex_digits "7" +:+ "','publicKey':'" +:+ ex_digits "b" +:+ "','relayer':'https://relay/'}")).
Definition ex_callback : request := ex_request "/callback"
  (q2 ("{'state':'" +:+ ex_digits "7" +:+ "','accountId':'" +:+ ex_address "3" +:+ "','walletAddress':'" +:+
       ex_address "2" +:+ "','packageId':'" +:+ ex_address "4" +:+ "','label':'other'}")).
Definition ex_login : listener :=
  let go rq l := (on_request ex_origin ex_path ex_session rq "1970-01-01T00:00:00.000Z" true true l).1 in
  go ex_callback (go ex_preflight (start None)).

Lemma login_authorized_witness :
  result ex_login = inr (ex_creds "3") ∧ loadCreds (McpLogin.disk ex_login) = Some (ex_creds "3").
Proof.
  assert (Hr : result ex_login = inr (ex_creds "3")) by (vm_compute; reflexivity). split; [exact Hr|].
  destruct (login_authorized ex_origin ex_path ex_session None eq_refl eq_refl eq_refl ex_login (ex_creds "3"))
    as [Hd _]; [|exact Hr|exact Hd].
  unfold ex_login. eapply reachable_step; [|apply Step_request]. eapply reachable_step; [|apply Step_request].
  apply reachable_start.
Defined.
(** A request target that is no URL path is a rejection nobody handles. *)
Lemma bad_target_unhandled (l : listener) :
  (on_request ex_origin ex_path ex_session
     (Request "GET" "//" (Some "127.0.0.1:4321") None None false empty_str) empty_str true true l).2 = Unhandled.
Proof. reflexivity. Qed.

(** ** The bridge *)
Definition ex_handshake (path : string) : handshake :=
  Handshake true 200 true "text/event-stream" ["event: endpoint" +:+ lf +:+ "data: " +:+ path +:+ lf +:+ lf].
Definition ex_call (id name : string) : string :=
  q2 ("{'id':" +:+ id +:+ ",'method':'tools/call','params':{'name':'" +:+ name +:+ "'}}").
Definition ex_started : option bridge :=
  runBridge (Some "work") (ex_creds "3") (Some (ex_file "3")) (ex_handshake "/m?s=1") [].
(** The stream is cut while a call waits; the reconnect sends it again. *)
Definition ex_cut : list label :=
  [StreamEnd; Line true (ex_call "5" "memwal_recall"); BackoffOver; Opened (ex_handshake "/m?s=2"); ReplayAnswered; Cleared].
Definition ex_forwarded : json := JObj
  [("id", jint 5); ("method", JStr "tools/call");
   ("params", JObj [("name", JStr "memwal_recall"); ("arguments", JObj [("namespace", JStr "work")])])].

Definition ex_run (ls : list label) : option bridge := b ← ex_started; run (Some "work") ls b.
Definition ex_bridge (ls : list label) : bridge :=
  match ex_run ls with Some b => b | None => initial (ex_creds "3") (Stream empty_str (ex_creds "3")) None end.
Definition ex_b0 : bridge :=
  match ex_started with Some b => b | None => initial (ex_creds "3") (Stream empty_str (ex_creds "3")) None end.
Lemma ex_starts : runBridge (Some "work") (ex_creds "3") (Some (ex_file "3")) (ex_handshake "/m?s=1") [] = Some ex_b0.
Proof. vm_compute. reflexivity. Qed.
Lemma ex_cut_runs : run (Some "work") ex_cut ex_b0 = Some (ex_bridge ex_cut).
Proof. vm_compute. reflexivity. Qed.

Lemma bridge_requests_accounted_witness :
  in_flight (jint 5) (inFlight (ex_bridge ex_cut)) = true ∧ open_request (jint 5) (Bridge.events (ex_bridge ex_cut)) = true ∧
  covered (ex_bridge ex_cut) ex_forwarded.
Proof.
  destruct (bridge_requests_accounted _ _ _ _ _ _ _ _ ex_starts ex_cut_runs) as [Hopen Hcov].
  split; [reflexivity|]. split; [rewrite <-Hopen; reflexivity|].
  apply (Hcov eq_refl (jint 5)). vm_compute. left.
Defined.
Lemma bridge_accounts_kept_witness :
  Posted Replay (Stream "https://relay/m?s=2" (ex_creds "3")) (ex_creds "3") ex_forwarded
    ∈ Bridge.events (ex_bridge ex_cut) ∧
  Received ex_forwarded (ex_address "3") ∈ Bridge.events (ex_bridge ex_cut).
Proof.
  assert (Hp : Posted Replay (Stream "https://relay/m?s=2" (ex_creds "3")) (ex_creds "3") ex_forwarded
    ∈ Bridge.events (ex_bridge ex_cut)) by (vm_compute; left).
  split; [exact Hp|].
  destruct (bridge_accounts_kept _ _ _ _ _ _ _ _ ex_starts ex_cut_runs _ _ _ _ Hp) as (_ & Hr & _). exact (proj2 (Hr eq_refl)).
Defined.

(** What the handler itself sends: in the run above, the waiting request goes
    out a second time on the same session. *)
Lemma request_sent_twice :
  ∃ b', run (Some "work") [Resume 0] (ex_bridge ex_cut) = Some b' ∧
    List.filter (λ e, match e with Posted _ _ _ _ => true | _ => false end) (Bridge.events b') =
    [Posted Direct (Stream "https://relay/m?s=2" (ex_creds "3")) (ex_creds "3") ex_forwarded;
     Posted Replay (Stream "https://relay/m?s=2" (ex_creds "3")) (ex_creds "3") ex_forwarded].
Proof. eexists. split; [vm_compute; reflexivity|]. vm_compute. reflexivity. Qed.

(** A request received for one account and refused when the account changed
    is sent to the other account once its handler resumes. *)
Definition ex_switch : list label :=
  [Line true (ex_call "1" "memwal_login"); StreamEnd; Line true (ex_call "5" "memwal_recall");
   LoginDone (ex_creds "9") (Some (ex_file "9")); BackoffOver; Opened (ex_handshake "/m?s=2"); Cleared; Resume 1].
Lemma request_crosses_accounts :
  ∃ b', run (Some "work") ex_switch ex_b0 = Some b' ∧
    Posted Direct (Stream "https://relay/m?s=2" (ex_creds "9")) (ex_creds "9") ex_forwarded ∈ Bridge.events b' ∧
    Wrote (account_changed_error (jint 5)) ∈ Bridge.events b' ∧
    List.filter (λ e, match e with Received _ _ => true | _ => false end) (Bridge.events b') =
      [Received ex_forwarded (ex_address "3")].
Proof.
  eexists. split; [vm_compute; reflexivity|]. split; [vm_compute; left|].
  split; [vm_compute; repeat (left || right)|vm_compute; reflexivity].
Qed.
(** The relayer refuses the session of the new credentials, twice: the request
    goes to the old session with the new key. *)
Definition ex_refusal : handshake := Handshake true 503 false "text/plain" [].
Definition ex_refused : list label :=
  [Line true (ex_call "1" "memwal_login"); LoginDone (ex_creds "9") (Some (ex_file "9")); Opened ex_refusal; Cleared;
   Line true (ex_call "5" "memwal_recall"); Opened ex_refusal; Cleared; Resume 2].
Lemma old_session_new_key :
  ∃ b', run (Some "work") ex_refused ex_b0 = Some b' ∧
    head (Bridge.events b') = Some (Posted AfterSwap (Stream "https://relay/m?s=1" (ex_creds "3")) (ex_creds "9") ex_forwarded).
Proof. eexists. split; [vm_compute; reflexivity|]. vm_compute. reflexivity. Qed.
(** After a logout the bridge goes on with the credentials it has in memory. *)
Lemma logout_keeps_session :
  ∃ b', run None [Line true (ex_call "1" "memwal_logout"); Line true (ex_call "2" "memwal_recall")] ex_b0 = Some b' ∧
    Bridge.disk b' = None ∧
    ∃ msg, head (Bridge.events b') = Some (Posted Direct (Stream "https://relay/m?s=1" (ex_creds "3")) (ex_creds "3") msg).
Proof. eexists. split; [vm_compute; reflexivity|]. split; [reflexivity|]. eexists. vm_compute. reflexivity. Qed.

Lemma main_keeps_saved_witness :
  main (λ _ d, start d) ["--relayer"; "https://other"] (λ _, None) false true (Some (ex_file "3")) [] =
    (Some (ex_file "3"),
     BridgeRun (with_relayer "https://other" (ex_creds "3"))
       (MkConfig "https://other" "https://memory.walrus.xyz" "MCP Client" None) []) ∧
  with_relayer empty_str (with_relayer "https://other" (ex_creds "3")) = with_relayer empty_str (ex_creds "3").
Proof.
  assert (Hm : main (λ _ d, start d) ["--relayer"; "https://other"] (λ _, None) false true (Some (ex_file "3")) [] =
    (Some (ex_file "3"),
     BridgeRun (with_relayer "https://other" (ex_creds "3"))
       (MkConfig "https://other" "https://memory.walrus.xyz" "MCP Client" None) [])) by (vm_compute; reflexivity).
  split; [exact Hm|].
  destruct (main_keeps_saved _ _ _ _ _ _ _ _ _ _ _ Hm) as [_ [(saved & Hl & _ & Hw & _)|[_ (f & Hf & _)]]].
  - rewrite (ex_loads "3" eq_refl) in Hl. by injection Hl as <-.
  - by apply elem_of_nil in Hf.
Defined.
