(* ===== verification/ScriptsExample.v ===== *)
(** * Concrete runs of the funding script

    One writer with one wallet, paid in SUI and WAL. *)
From Stdlib Require Import QArith Ascii.
From S2P Require Import Prelude JsText JsNumber JsonParse Base64 SealId Retry Wallet Service Util Blob Query Durable.
From S2P Require Import Config Metadata Ledger Funding FundingRun FundingSafety FundingLedger FundingOutcome.
From S2P Require Enoki.
From S2P Require Import Finalize FinalizeSafety Builders.
Local Open Scope Z_scope.

#[export] Instance fund_tx : SuiTx := {|
  tx_digest l := "D-" +:+ of_chars l;
  tx_from_bytes l := inl (plain_error "not used");
  tx_sign a l := "signature";
  tx_verify l sg a := if seqb sg "signature" then None else Some (plain_error "bad signature");
  normalizeStructTag s := s;
|}.
Definition fund_wallet : string := "0x" +:+ of_chars (replicate 64 "1"%char).
Definition fund_sender : string := "0x" +:+ of_chars (replicate 64 "2"%char).
Definition fund_wal : string := "0x9::wal::WAL".
Definition fund_manifest : string := json_stringify (λ _, "1") (JObj [("writer-0", JArr [JStr fund_wallet])]).
Definition fund_snapshot : string := json_stringify (λ _, "1") (JObj [
  ("schemaVersion", jint 1); ("collectedAt", JStr "2026-07-22T12:00:00.000Z");
  ("context", JStr "cluster"); ("namespace", JStr "testnet");
  ("statefulSet", JObj [("name", JStr "writer"); ("uid", JStr "u"); ("generation", jint 1); ("revision", JStr "r1");
     ("replicas", jint 1); ("currentReplicas", jint 1); ("updatedReplicas", jint 1); ("readyReplicas", jint 1)]);
  ("writerSecrets", JArr [JObj [("name", JStr "wallets"); ("uid", JStr "s"); ("resourceVersion", JStr "12"); ("immutable", JBool true)]]);
  ("writerSecretProviders", JArr [JObj [("container", JStr "migrator"); ("secretName", JStr "wallets");
     ("key", JStr "SERVER_SUI_PRIVATE_KEYS"); ("source", JStr "envFrom")]]);
  ("writers", JArr [JObj [("id", JStr "writer-0"); ("ordinal", JNum 0); ("podUid", JStr "pod-0"); ("revision", JStr "r1");
     ("images", JArr [JObj [("name", JStr "migrator"); ("image", JStr "i"); ("imageId", JStr "sha256:a")]]);
     ("addresses", JArr [JStr fund_wallet])]])]).
Definition fund_settings (dry : string) : Config.env := λ name,
  if seqb name "SUI_FUNDER_KEY" then Some "suiprivkey" else if seqb name "GRPC_URL" then Some "https://node" else
  if seqb name "MIST_PER_ADDRESS" then Some "10" else if seqb name "FROST_PER_ADDRESS" then Some "20" else
  if seqb name "GAS_BUDGET" then Some "100" else if seqb name "NETWORK" then Some "testnet" else
  if seqb name "DRY_RUN" then Some dry else if seqb name "LIVE_WRITER_ADDRESSES_JSON" then Some fund_snapshot else None.

(** The payout: a withdrawal and a payment per coin. *)
Definition fund_bytes : list ascii := chars "payout".
Definition pure_address (c : ascii) : tx_input := InPure (JStr (to_base64 (replicate 32 c))).
Definition fund_call (m f coinType : string) (args : list tx_arg) : tx_command :=
  CMoveCall (TxMoveCall "0x2" m f [coinType] args).
Definition fund_data : funding_tx := FundingTx (Some fund_sender) (Some fund_sender) (Some 100)
  [pure_address "017"%char; InFundsWithdrawal (Some 10) (Some SUI_COIN) true; InFundsWithdrawal (Some 20) (Some fund_wal) true]
  [fund_call "balance" "redeem_funds" SUI_COIN [ArgInput 1];
   fund_call "balance" "send_funds" SUI_COIN [ArgNestedResult 0 0; ArgInput 0];
   fund_call "balance" "redeem_funds" fund_wal [ArgInput 2];
   fund_call "balance" "send_funds" fund_wal [ArgNestedResult 2 0; ArgInput 0]].
Definition fund_tx_data (bytes : list ascii) : js_error + funding_tx :=
  if bool_decide (bytes = fund_bytes) then inr fund_data else fail "bytes".

Definition fund_result : json := JObj [("Transaction", JObj [("digest", JStr "D-payout"); ("status", JObj [("success", JBool true)])])].
Definition fund_function : json := JObj [("function", JObj [("parameters", JArr [JNull;
  JObj [("body", JObj [("$kind", JStr "datatype"); ("datatype", JObj [("typeParameters",
    JArr [JObj [("$kind", JStr "datatype"); ("datatype", JObj [("typeName", JStr fund_wal)])]])])])]])])].
(** [down]: the submission is not answered. *)
Definition fund_outside (down : bool) (tr : list fevent) : js_error + json :=
  match last tr with
  | Some (FReadManifest _) => inr (JStr fund_manifest)
  | Some FNow => inr (jint 2000)
  | Some (FGetMoveFunction _ _ _) => inr fund_function
  | Some (FGetBalance _ _) => inr (JObj [("balance", JObj [("balance", JStr "1000")])])
  | Some (FBuild _ _ _) => inr (JStr "payout")
  | Some (FSimulate _) => inr fund_result
  | Some (FSign _) => inr (JObj [("signature", JStr "signature")])
  | Some (FGetTransaction digest) => inl (plain_error ("Transaction " +:+ digest +:+ " not found"))
  | Some (FExecute _ _) => if down then inl (plain_error "connection reset") else inr fund_result
  | _ => inr JNull
  end.
Notation fund_run down dry := (main is_sui_address (λ _, Some 1000) fund_tx_data (fund_outside down) (λ _, inr "0x9")
  (λ _, inr fund_sender) (fund_settings dry) []).

Definition fund_intent : FundingIntent := MkIntent "testnet" fund_sender fund_wal "distribute-funds.testnet.json"
  [("writer-0", [fund_wallet])] 10 20 100.

Lemma payout_is_exact_witness :
  assertFundingTransaction is_sui_address fund_tx_data fund_bytes fund_intent = inr fund_data ∧
  ∃ recipients os, recipients = [fund_wallet] ∧ omap id os = expected_payments fund_intent recipients.
Proof.
  assert (E : assertFundingTransaction is_sui_address fund_tx_data fund_bytes fund_intent = inr fund_data) by (vm_compute; reflexivity).
  split; [exact E|].
  destruct (payout_is_exact is_sui_address fund_tx_data fund_bytes fund_intent fund_data E)
    as (_ & _ & _ & _ & recipients & os & Hf & _ & _ & _ & _ & Ho & _).
  exists recipients, os. split; [|exact Ho]. vm_compute in Hf. injection Hf as <-. reflexivity.
Defined.

Notation fund_reconciled now := (reconcileLiveWriters is_sui_address (λ _, Some 1000) [("writer-0", [fund_wallet])] fund_snapshot now).
Lemma live_snapshot_consistent_witness :
  (∃ snapshot, fund_reconciled 2000 = inr snapshot ∧ length (ls_writers snapshot) = 1%nat ∧ snapshot_good is_sui_address snapshot) ∧
  match fund_reconciled (1000 + 15 * 60 * 1000 + 1) with inl e => e_message e | inr _ => empty_str end =
    "live writer snapshot is older than 15 minutes (900s)".
Proof.
  split; [|vm_compute; reflexivity].
  destruct (fund_reconciled 2000) as [e|snapshot] eqn:E; [vm_compute in E; discriminate E|].
  exists snapshot. split; [reflexivity|].
  destruct (live_snapshot_consistent is_sui_address (λ _, Some 1000) _ fund_snapshot 2000 snapshot E) as (_ & Hg & _).
  split; [|exact Hg]. vm_compute in E. injection E as <-. reflexivity.
Defined.

Lemma funding_submission_justified_witness :
  (fund_run false "false").2 = inr tt ∧
  ∃ c, parse_settings (fund_settings "false") = inr c ∧
    ∃ pre, take 22 (fund_run false "false").1 = pre ++ [FExecute "payout" "signature"] ∧
      submission_ready is_sui_address (λ _, Some 1000) fund_tx_data (fund_outside false) (λ _, inr fund_sender) c pre
        "payout" "signature".
Proof.
  split; [vm_compute; reflexivity|].
  pose proof (funding_submission_justified is_sui_address (λ _, Some 1000) fund_tx_data (fund_outside false)
    (λ _, inr "0x9") (λ _, inr fund_sender) (fund_settings "false")) as Hm. cbv zeta in Hm.
  destruct (parse_settings (fund_settings "false")) as [e|c] eqn:E; [vm_compute in E; discriminate E|].
  exists c. split; [reflexivity|].
  set (tr := (fund_run false "false").1) in *.
  exists (take 21 tr). split; [vm_compute; reflexivity|].
  apply (Hm (take 21 tr) (FExecute "payout" "signature") (drop 22 tr)). vm_compute. reflexivity.
Defined.

(** ** Concrete runs of the governance transaction builders

    A report over one account and one memory, and a batch of two caps. *)

(** Addresses are kept short: normalisation is the identity. *)
#[local] Instance gov_sdk : SuiSdk := {| normalizeSuiAddress s := s; bcs_u64_hex _ := None; parse_encrypted _ := None |}.
Definition gov_valid (s : string) : bool := starts_with "0x" s.
Definition gov_id (c : ascii) : string := "0x" +:+ of_chars [c].
Definition gov_sha : string := of_chars (replicate 64 "a"%char).
Definition gov_root : string := "0x" +:+ of_chars (replicate 64 "b"%char).
Definition gov_sha256 (s : string) : string := gov_sha.
Definition gov_date (s : string) : option Z := if seqb s "2026-07-22T12:00:00Z" then Some 0 else Some 600000.
Definition gov_committee : json :=
  JObj [("servers", JArr [JObj [("objectId", JStr (gov_id "5")); ("weight", JNum 1)]]); ("threshold", JNum 1)].
Definition gov_inventory : json :=
  JObj [("schemaVersion", JNum 1); ("dbCutoverRev", JStr "cutover-1"); ("sourceLiveCount", JNum 1);
        ("sourceSnapshotSha256", JStr gov_sha)].
Definition gov_policy : ExpectedCompletionPolicy :=
  MkPolicy (JObj [("suiNetwork", JStr "testnet");
                  ("executionIdentity", JObj [("chainIdentifier", JStr (GOVERNANCE_CHAIN_IDENTIFIERS GovTestnet));
                                              ("walrusPackageId", JStr (gov_id "6"))]);
                  ("retentionEpochs", JNum 5)])
    gov_committee.
Definition gov_route : ExpectedCompletionRoute := MkRoute (gov_id "1") (gov_id "2") (gov_id "3") (gov_id "4") "cutover-1".
Definition gov_value : json := JObj [
  ("schemaVersion", JNum 5); ("generatedAt", JStr "2026-07-22T12:00:00Z"); ("expiresAt", JStr "2026-07-22T12:10:00Z");
  ("complete", JBool true);
  ("route", JObj [("srcPackageId", JStr (gov_id "1")); ("srcRegistryId", JStr (gov_id "2")); ("dstPackageId", JStr (gov_id "3"));
     ("dstRegistryId", JStr (gov_id "4")); ("dbCutoverRev", JStr "cutover-1"); ("manifestRoot", JStr gov_root)]);
  ("walrusUploadRoute", walrusUploadRoute gov_policy); ("sealEncryptCommitteeIdentity", gov_committee);
  ("reviewedSourceInventory", gov_inventory); ("manifestSha256", JStr gov_sha); ("manifestScope", JStr "full-registry");
  ("sourceAuthorityPolicy", JStr "pinned-exact-source-authority-v2"); ("manifestAccountCount", JNum 1);
  ("manifestDelegateCount", JNum 0); ("quietSeconds", JNum 60);
  ("audit", JObj [
     ("safety", JObj [("importedAccounts", JNum 1); ("doneMemories", JNum 1); ("deadMemories", JNum 0); ("driftSweptMemories", JNum 0)]);
     ("sourceLiveCount", JNum 1); ("sourceDeletingCount", JNum 0); ("sourceActiveDeletionBatchCount", JNum 0);
     ("migrationRowCount", JNum 1); ("destinationOrphanCount", JNum 0); ("reviewedDeadCount", JNum 0);
     ("reviewedDeadIds", JArr []); ("reviewedDeadIdsSha256", JStr gov_sha); ("reviewedOrphanBlobCount", JNum 1);
     ("reviewedOrphanBlobs", JArr [JObj [("owner", JStr (gov_id "7")); ("blobId", JStr "blob"); ("objectId", JStr (gov_id "8"));
        ("legacyEntryId", JStr "entry")]]);
     ("reviewedOrphanBlobsSha256", JStr gov_sha); ("sourceSnapshotSha256", JStr gov_sha);
     ("sourceAuthoritySnapshotSha256", JStr gov_sha); ("destinationSnapshotSha256", JStr gov_sha)]);
  ("checks", JObj (map (λ c, (c, JBool true)) REQUIRED_CHECKS))].
Definition gov_number (q : Q) : string := "0".
Definition gov_evidence : string := json_pretty gov_number gov_value.
Notation gov_parse := (parseCompletionEvidence gov_valid gov_valid gov_sha256 (λ _, None) (λ _, empty_str)
  gov_number gov_date gov_evidence gov_sha gov_sha gov_route gov_policy gov_inventory).

Definition gov_accepted : CompletionEvidence := MkEvidence gov_evidence gov_sha 600000 gov_root 1 0.
Lemma gov_accepts : gov_parse 1000 = inr gov_accepted.
Proof. vm_compute. reflexivity. Qed.
Lemma completion_evidence_complete_witness :
  gov_parse 1000 = inr gov_accepted ∧
  ∃ value, json_parse gov_evidence = Some value ∧ fresh_report gov_date value 1000 600000 ∧ audited gov_valid gov_valid gov_sha256 gov_number value gov_inventory 1 0.
Proof.
  split; [exact gov_accepts|].
  destruct (completion_evidence_complete gov_valid gov_valid gov_sha256 (λ _, None) (λ _, empty_str) gov_number gov_date
    gov_evidence gov_sha gov_sha gov_route gov_policy gov_inventory 1000 gov_accepted gov_accepts)
    as (value & root & Hj & _ & _ & _ & _ & _ & _ & _ & _ & Hf & _ & _ & _ & _ & Ha).
  exists value. split; [exact Hj|]. split; [exact Hf|exact Ha].
Defined.

(** ** A run of the finalization *)
Definition gov_settings : Config.env := λ name,
  if seqb name "SENDER" then Some (gov_id "9") else if seqb name "PACKAGE_ID" then Some (gov_id "3") else
  if seqb name "REGISTRY_ID" then Some (gov_id "4") else if seqb name "SOURCE_PACKAGE_ID" then Some (gov_id "1") else
  if seqb name "SOURCE_REGISTRY_ID" then Some (gov_id "2") else if seqb name "DB_CUTOVER_REV" then Some "cutover-1" else
  if seqb name "WALRUS_PACKAGE_ID" then Some (gov_id "6") else if seqb name "WALRUS_RETENTION_EPOCHS" then Some "5" else
  if seqb name "SEAL_ENCRYPT_COMMITTEE_IDENTITY" then Some (json_stringify gov_number gov_committee) else
  if seqb name "SOURCE_INVENTORY_JSON" then Some (json_stringify gov_number gov_inventory) else
  if seqb name "COMPLETION_EVIDENCE_JSON" then Some gov_evidence else
  if seqb name "NETWORK" then Some "testnet" else if seqb name "ALLOWLIST_ROOT" then Some gov_root else
  if seqb name "RECIPIENTS_JSON" then Some (json_stringify gov_number (JArr [JStr (gov_id "1"); JStr (gov_id "2")])) else
  if seqb name "GAS_BUDGET" || seqb name "OUT" then None else Some gov_sha.
Definition gov_env : Config.env := λ name, if seqb name "ADMIN_CAP_ID" then Some (gov_id "c") else gov_settings name.
Definition gov_answer (tr : list gevent) : js_error + ganswer :=
  match last tr with
  | Some GNow => inr (Answer (jint 1000))
  | Some GGetChainIdentifier => inr (Answer (JObj [("chainIdentifier", JStr (GOVERNANCE_CHAIN_IDENTIFIERS GovTestnet))]))
  | Some (GGetObjects _) => inr (Objects (map (λ s, inr (JObj [("type", JStr (gov_id "3" +:+ "::account::" +:+ s))]))
                                            ["AdminCap"; "AccountRegistry"]))
  | Some (GGetObject _) => inr (Answer (JObj [("object", JObj [("json", JObj [
      ("pinned_allowlist_root", JArr (replicate 32 (jint 187))); ("expected_account_imports", JStr "1");
      ("expected_delegate_imports", JStr "0"); ("imported_accounts", JStr "1"); ("imported_delegates", JStr "0");
      ("migration_finalized", JBool false)])])]))
  | Some GGetSystemState => inr (Answer (JObj [("systemState", JObj [("epoch", JStr "77")])]))
  | Some (GBuild _) => inr (Answer (JStr "bytes"))
  | _ => inr (Answer JNull)
  end.
Notation gov_run := (finalize_main gov_valid gov_valid gov_sha256 (λ _, None) (λ _, empty_str) gov_number gov_date
  chars gov_answer gov_env []).
Notation caps_run := (caps_main gov_valid gov_valid (λ _, None) (λ _, empty_str) chars gov_answer gov_env []).

Definition gov_before : list gevent := Eval vm_compute in take 5 gov_run.1.
Definition gov_draft : draft := Eval vm_compute in
  match last (take 6 gov_run.1) with Some (GBuild d) => d | _ => Draft [] DefaultExpiration empty_str 0 end.
Definition gov_after : list gevent := Eval vm_compute in drop 6 gov_run.1.
Lemma gov_runs : gov_run = (gov_before ++ GBuild gov_draft :: gov_after, inr tt).
Proof. vm_compute. reflexivity. Qed.
Definition gov_parsed : js_error + finalize_settings := Eval vm_compute in
  finalize_parse gov_valid gov_valid (λ _, None) (λ _, empty_str) gov_env.
Lemma gov_parses : finalize_parse gov_valid gov_valid (λ _, None) (λ _, empty_str) gov_env = gov_parsed.
Proof. vm_compute. reflexivity. Qed.

Lemma finalize_justified_witness :
  gov_run.2 = inr tt ∧
  ∃ c, gov_parsed = inr c ∧ chain_checked gov_answer c gov_before ∧ objects_checked gov_answer c gov_before.
Proof.
  split; [rewrite gov_runs; reflexivity|].
  pose proof (finalize_justified gov_valid gov_valid gov_sha256 (λ _, None) (λ _, empty_str) gov_number gov_date
    chars gov_answer gov_env) as Hm. cbv zeta in Hm. rewrite gov_parses, gov_runs in Hm.
  destruct gov_parsed as [e|c] eqn:E; [discriminate E|].
  exists c. split; [reflexivity|].
  destruct (Hm gov_before (GBuild gov_draft) gov_after eq_refl) as (Hc & Ho & _).
  split; [exact Hc|exact Ho].
Defined.

Definition caps_parsed : js_error + caps_settings := Eval vm_compute in
  caps_parse gov_valid gov_valid (λ _, None) (λ _, empty_str) chars gov_env.
Lemma caps_parses : caps_parse gov_valid gov_valid (λ _, None) (λ _, empty_str) chars gov_env = caps_parsed.
Proof. vm_compute. reflexivity. Qed.
Lemma caps_minted_once_witness :
  caps_run.2 = inr tt ∧
  ∃ c, caps_parsed = inr c ∧ cs_recipients c = [gov_id "1"; gov_id "2"] ∧
    d_commands (caps_draft c) !! 3%nat =
      Some (DMoveCall (cs_packageId c +:+ "::account::transfer_migration_cap") [DResult 2; DAddress (gov_id "2")]).
Proof.
  split; [vm_compute; reflexivity|].
  pose proof (caps_minted_once gov_valid gov_valid (λ _, None) (λ _, empty_str) chars gov_answer gov_env) as Hm.
  cbv zeta in Hm. rewrite caps_parses in Hm. unfold caps_parsed in *.
  eexists. split; [reflexivity|]. split; [reflexivity|].
  destruct Hm as (_ & _ & Hi & _). apply (Hi 1%nat (gov_id "2") eq_refl).
Defined.
